(* ===== verification/_CoqProject ===== *)
-Q . S2P
Prelude.v
Ranges.v
PyFloat.v
PyJson.v
PyJsonFacts.v
Hash.v
Memory.v
MemorySpec.v
Checkpoint.v
Hydration.v
HydrationSpec.v
Coord.v
CoordSpec.v
Topology.v
Validation.v
ValidationSpec.v
Artifact.v
ArtifactSpec.v
ArtifactRestore.v
KvCapacity.v
Layout.v
LayoutSpec.v
Lifecycle.v
LifecycleSpec.v
PyPath.v
StartupPlan.v
StartupPlanSpec.v
Recovery.v
RecoverySpec.v
Replay.v
ReplaySpec.v
ReplayRestore.v
DiskLayout.v
DiskLayoutSpec.v
DiskRelocation.v
DiskShared.v
GraphMemory.v
GraphMemorySpec.v
VllmMemory.v
VllmMemorySpec.v
CudaEpoch.v
CudaEpochSpec.v
CudaRuntime.v
CheckpointCtl.v
CheckpointCtlSpec.v
DiskPipeline.v
DiskPipelineSpec.v
DiskSleep.v
DiskSleepSpec.v
DiskSleepClaims.v
DiskRecovery.v
DiskRecoverySpec.v
DiskRecoveryClaims.v
DiskNative.v
DiskNativeSpec.v
DiskNativeClaims.v
DiskMaterialize.v
DiskMaterializeSpec.v
DiskMaterializeClaims.v
Service.v
ServiceSpec.v
ServiceCapsule.v
ServiceCapsuleSpec.v
NcclRuntime.v
ActivationLog.v
ActivationLogSpec.v
SglangAdapter.v
SglangAdapterSpec.v
