(* ===== verification/Prelude.v ===== *)
(** * ColdSnap: a verification of its Python core

    ColdSnap suspends and restores distributed inference engines. A manager drives a Go
    controller and its adapters; each engine rank runs Python that decides which memory may
    be released, moves weights between files and CUDA memory, and agrees with its peers.
    This development models that Python, and the Go and C++ parts it exchanges messages
    with, as executable definitions, and proves what makes each part correct.

    ** Parts and files

    - [Prelude]: the error monad [res] (an exception is a value [Raise (Exn class
      message)]), Python strings as lists of code points, dictionaries as association
      lists, [sorted] as a stable insertion sort, the tactics [guards] and [res_inv].
      [Ranges]: byte ranges, alignment, the coalescing loop. [PyFloat], [PyJson],
      [PyJsonFacts], [Hash], [PyPath]: binary64, [json], SHA-256 and CRC-32, [pathlib].
    - [Memory], [MemorySpec] ([coldsnap_core/memory.py]): regions, capabilities, layout
      descriptors, checkpoint plans, admission and agreement.
    - [Checkpoint] ([coldsnap_core/checkpoint.py]): the registry of external resources,
      as operations and as a step relation with other threads, and the [io_uring] check.
    - [Hydration], [HydrationSpec] ([coldsnap_core/hydration.py] and the request checks of
      [native/coldsnap_hydration.cpp]): extents, backend policies, job planning.
    - [Coord], [CoordSpec] ([runtime/shared/coldsnap_coord.py], [internal/coord/*.go]):
      the rendezvous client, its wire format and the service.
    - [Topology] ([coldsnap_core/topology.py]): worker identity and ranks.
    - [Validation], [ValidationSpec] ([coldsnap_core/validation.py]): payload admission from
      a record, a full hash, or an external validator.
    - [Artifact], [ArtifactSpec], [ArtifactRestore] ([coldsnap_core/artifact.py]): capture of
      a model's storages into one blob and restore into another process.
    - [KvCapacity] ([coldsnap_vllm_kv_capacity.py]), [Layout], [LayoutSpec]
      ([coldsnap_layout.py]), [StartupPlan], [StartupPlanSpec]
      ([coldsnap_startup_plan.py]): guards around vLLM's memory profiling, matching of
      allocations across processes, reuse of startup plans and compiler caches.
    - [Lifecycle], [LifecycleSpec] ([runtime/engine/coldsnap_lifecycle.py]): sleep and wake
      over HTTP, hibernation evidence.
    - [Recovery], [RecoverySpec], [Replay], [ReplaySpec], [ReplayRestore]
      ([coldsnap_recovery_loader.py], planning and rank-local packed replay): safetensors
      headers, division of reads among ranks, staging, broadcasts, strided views, and the
      replay that fills the model.
    - [DiskLayout], [DiskLayoutSpec], [DiskRelocation], [DiskShared]
      ([coldsnap_disk_backend.py], byte layout): model and residual extents, shared residual
      pieces, residual files, relocation of a portable manifest.
    - [DiskPipeline], [DiskPipelineSpec], [DiskSleep], [DiskSleepSpec], [DiskSleepClaims]
      ([coldsnap_disk_backend.py], [suspend] and [resume]): the ring of host buffers with its
      reader threads as an event system; writing, accepting and reusing a snapshot blob,
      discardable regions, and the commits of a wake, over the memory provider of
      [VllmMemory] and the classes [CudaDevice] and [GraphController].
    - [DiskRecovery], [DiskRecoverySpec], [DiskRecoveryClaims] ([coldsnap_disk_backend.py],
      weights from safetensors files): the residual file, the recovery manifest, the restore
      around the engine's reload, and the export of a model pack. They fill the record
      [model_source] that [suspend] and [resume] take. [DiskNative], [DiskNativeSpec],
      [DiskNativeClaims]: the activation of a pack in another process, on its own layout,
      with the residual of the live process, and the hydration of a fresh one.
      [DiskMaterialize], [DiskMaterializeSpec], [DiskMaterializeClaims]: the host's cache of
      packs, its requests, ownership, validation records and background thread.
    - [GraphMemory], [GraphMemorySpec] ([native/coldsnap_graph_memory.cpp],
      [coldsnap_graph_memory.py]): allocations of CUDA graphs whose backing is released and
      recreated at the same addresses. [VllmMemory], [VllmMemorySpec]
      ([coldsnap_vllm_memory.py], [coldsnap_vllm_kv_payload.py], the pool access of
      [coldsnap_vllm.py]): vLLM's tagged pool, and which allocations hold KV payload.
    - [CudaEpoch], [CudaEpochSpec] ([coldsnap_cuda_epoch.py],
      [native/coldsnap_cuda_epoch.cpp]): the context of a sleeping engine is destroyed and
      recreated, its mappings are remade, and vLLM's wake is run against them. Objects shared
      with vLLM's allocator live in a store; the wake is a finite tree of calls. What an epoch
      asks of the worker's runtime is an interface; [CudaRuntime]
      ([coldsnap_vllm_cuda_runtime.py]) implements it: streams, events and pinned workspaces
      are dropped and made again, and the pool of late allocations is closed and opened.
    - [CheckpointCtl], [CheckpointCtlSpec] ([runtime/shared/checkpointctl.py]): the probe of
      CUDA process checkpoints with its disposable process, the feature probes of a host.
    - [Service], [ServiceSpec], [ServiceCapsule], [ServiceCapsuleSpec], [NcclRuntime]
      ([runtime/engine/coldsnap_service_runtime.py]): accepting a restored engine by one
      streamed answer, waits for the coordinator, evidence of shape calibration, ports, the
      comparison of identities; the workers, environments and SGLang packs of a capsule; the
      admission of the NCCL libraries an engine preloads.
    - [ActivationLog], [ActivationLogSpec] ([runtime/engine/coldsnap_activation_logs.py]): the
      log of a capture is archived and that of an activation started, over inodes.
      [SglangAdapter], [SglangAdapterSpec] ([coldsnap_sglang/settings.py], [adapter.py]):
      settings, the preload of the memory saver, and the restore from the packs above.

    A component's state is a record and each operation a function returning [res], with
    the new state beside the result where the code mutates state before it fails. Code
    outside the repository (vLLM, torch, the CUDA driver, sockets, clocks, files) is a
    parameter; what is needed of it is stated as classes ([Transfer], [TensorCopy]) or
    hypotheses with concrete instances.

    ** What is proved

    - Round trips: capture then restore of an artifact, whatever the reads do, or an error
      over a read; a registry that prepares and restores; the wire format; [loads] after
      [dumps]; UTF-8.
    - Admission is sound: plans, agreements, requests to the native library, payloads,
      RPC admissions, safetensors descriptors, residual files, semantic replays.
    - Byte accounting: native jobs, packed gathers, broadcasts, splits, staging views,
      residual sharing and relocation carry every byte exactly once; the packed replay
      leaves the checkpoint's bytes in every destination and changes nothing else.
    - Refinement: registry operations are exactly the runs of the interleaving step relation
      in which no other thread acts, the client over the wire refines a key/value store, and
      the native library rejects of a request exactly what Python does not check.
    - Ordering, bounds, termination and liveness: an engine is suspended only after it
      answered a prompt, polling ends and succeeds when the backend converges, KV
      capacity is the smaller of two bounds and batches stay within theirs, ranks agree on
      reusing a plan.
    - Memory providers: graph memory stays consistent whatever the driver answers, keeps its
      addresses across release and restore, and is described by valid descriptors; only
      allocations that hold KV tensors are discarded.
    - Sleep and wake: a worker has its bytes back, or those of the snapshot it reused,
      whatever the schedule of the reads; the
      pipelined read refines copying chunk after chunk, and finishes; a failed sleep is
      recovered; a wake publishes only what it restored; a discarded region reads as zero.
    - Model sources and packs: a sleep that stores only the residual gives every byte back
      when the reload reproduces the model; a pack depends on the model's contents alone, is
      restored on any layout that binds the same names, also by the wake after a sleep that
      bound the live residual, and an entry of the cache only ever changes to bytes with the
      requested identity, whichever step or status report fails.
    - Epochs and probes: bytes survive the destruction of a context, which the runtime
      leaves without old streams and events; a failed rebuild stays sealed; a wake claims every
      mapping made for it, hooks are removed on every path, backing is remade once; support
      for checkpoints is reported on evidence, and a probe leaves no process, address or
      handle behind.
    - Services: an engine is accepted only on a complete answer with the expected text, and
      a well-formed response is judged by its events alone; a wait honours its deadline; two
      identities differ exactly when a path is reported; no failing operation while SGLang packs
      are written loses a component (a short write would), and the adapter restores every model from the place of the
      pack where its bytes are; an NCCL runtime is admitted only with verified libraries; no
      failure loses the history of a log; the process keeps its preload around library calls.
    - Errors: checksum fields with blanks are admitted, an infinite number in an external
      admission escapes as OverflowError, the graph controller reports released backing as
      mapped, a residual that fails to publish strands the earlier ones, a probe that
      fails between mapping and unmapping frees a mapped address, a weights-only wake
      forgets a region an earlier wake had mapped, a second sleep of a sleeping worker that
      has nothing to reuse removes its snapshot, and a short last write of a component
      publishes a truncated pack and removes the blob.

    ** Bounds and fuel

    Recursion that is not structural carries fuel with a proof, or a visible measure, that
    it is enough: [loads] runs with the length of the text, decimal digits with the
    binary logarithm, chunk and copy loops with the byte count (each round moves at least
    one byte), job planning with the rounds length/chunk + 1, polling with the rounds the
    deadline leaves, an event stream with the unread bytes + 1, the wait for a key with the
    nanoseconds left + 1 (enough when a request that times out takes time at all), the copy of
    a component into a pack with its bytes + 1, writes of a log with the bytes left and its copy with the size
    + 1, the comparison of identities with the nesting of the first, the object walk with the
    code's own depth limit of 16, and the bisection of [capacity_aware_additions] with the
    code's 80 rounds. Integers are Python's; where the code or the native library limits their width the limit is a guard
    of the definition.

    ** Not modelled

    - Of modelled files: CPython's limits on recursion and on digits of an [int], non-ASCII
      case folding and digits, encoding detection of [json.loads] on bytes (the parameter
      [decode]), thread locks, file-system failures during capture, argument parsing,
      exception messages with interpolated values, the rounding of the builtin [sum] over
      floats (the parameter [fsum]); saved layout references and manifest fields are taken
      with the types the writer gives them; times of [Lifecycle] are integral nanoseconds.
    - Of the recovery loader: model introspection, adapter replay, the broadcast pipeline
      and I/O probes. Of the disk backend: the choice of the snapshot directory, the reuse of
      a pack by a sleep right after its activation, the export that an n580 template starts
      by itself, timings and state records. Of startup plans: the installation of hooks into
      vLLM. Of the service runtime: HTTP requests besides the acceptance, readiness
      observers, the facts of nvidia-smi and torch, and ports read from a command line.
    - Whole parts: process capture and restore with CRIU and CUDA ([coldsnap_engine_rank_*],
      [coldsnap_*criu], [coldsnap_vllm_process_template]), capture of CUDA graphs and of the
      recipes of runtime resources, NCCL, calibration and
      warm-up, the hooks of the SGLang plugin, the Go controller and adapters, other native code: they act
      on processes, drivers and engine objects, and their decisions are interleaved with calls
      whose behaviour the sources do not define. *)

From Stdlib Require Export ZArith NArith Lia Ascii String Sorting.Sorted Permutation.
From stdpp Require Export base decidable list gmap sets sorting strings.

#[global] Open Scope Z_scope.

(** [lia] also decides goals with [/] and [mod] by constants. *)
Ltac Zify.zify_post_hook ::= Z.to_euclidean_division_equations.

(** ** Python strings and bytes

    A Python [str] is the list of its code points, a Python [bytes] the list of
    its octets; both are lists of [N]. [lit] reads an ASCII literal. *)

Notation pystr := (list N) (only parsing).
Notation pybytes := (list N) (only parsing).

Definition lit (s : string) : pystr := N_of_ascii <$> String.list_ascii_of_string s.

Definition char (a : ascii) : N := N_of_ascii a.

(** [str.isspace] of one character (the white space of the Unicode database). *)
Definition is_space (c : N) : bool :=
  ((9 <=? c) && (c <=? 13) || (28 <=? c) && (c <=? 32) || (c =? 0x85) || (c =? 0xA0)
   || (c =? 0x1680) || (0x2000 <=? c) && (c <=? 0x200A) || (c =? 0x2028) || (c =? 0x2029)
   || (c =? 0x202F) || (c =? 0x205F) || (c =? 0x3000))%N.

Fixpoint lstrip (s : pystr) : pystr :=
  match s with
  | [] => []
  | c :: s' => if is_space c then lstrip s' else s
  end.

(** [str.strip()]. *)
Definition py_strip (s : pystr) : pystr := reverse (lstrip (reverse (lstrip s))).

Lemma lstrip_id s : Forall (λ c, is_space c = false) s → lstrip s = s.
Proof. by destruct 1 as [|c s Hc _]; simpl; [|rewrite Hc]. Qed.
Lemma py_strip_id s : Forall (λ c, is_space c = false) s → py_strip s = s.
Proof.
  intros H. unfold py_strip. rewrite (lstrip_id s H), lstrip_id by (by apply Forall_reverse).
  apply reverse_involutive.
Qed.

(** [str.lower()] on the ASCII range; other characters are kept. *)
Definition lower_char (c : N) : N := (if (65 <=? c) && (c <=? 90) then c + 32 else c)%N.
Definition py_lower (s : pystr) : pystr := lower_char <$> s.

(** [s.startswith(p)] and [s.endswith(p)]. *)
Fixpoint starts_with (p s : pystr) : bool :=
  match p, s with
  | [], _ => true
  | _, [] => false
  | a :: p', b :: s' => (a =? b)%N && starts_with p' s'
  end.
Definition ends_with (p s : pystr) : bool := starts_with (reverse p) (reverse s).

(** [s.removeprefix(p)]. *)
Definition removeprefix (p s : pystr) : pystr :=
  if starts_with p s then drop (length p) s else s.

Definition is_digit (c : N) : bool := ((48 <=? c) && (c <=? 57))%N.

(** Value of one hexadecimal digit, either case. *)
Definition hex_value (c : N) : option N :=
  (if (48 <=? c) && (c <=? 57) then Some (c - 48)
   else if (97 <=? c) && (c <=? 102) then Some (c - 87)
   else if (65 <=? c) && (c <=? 70) then Some (c - 55)
   else None)%N.

(** White space skipped by [bytes.fromhex] between two byte literals. *)
Definition is_ascii_space (c : N) : bool := ((9 <=? c) && (c <=? 13) || (c =? 32))%N.

(** [bytes.fromhex(s)]; [None] is its [ValueError]. *)
Fixpoint fromhex (s : pystr) : option pybytes :=
  match s with
  | [] => Some []
  | a :: s' =>
      if is_ascii_space a then fromhex s' else
      match s' with
      | [] => None
      | b :: s'' =>
          match hex_value a, hex_value b, fromhex s'' with
          | Some x, Some y, Some r => Some ((16 * x + y)%N :: r)
          | _, _, _ => None
          end
      end
  end.

Definition hex_digit (n : N) : N := (if n <? 10 then n + 48 else n + 87)%N.

(** [bytes.hex()]: two lower-case digits per octet. *)
Definition tohex (b : pybytes) : pystr :=
  concat ((λ x, [hex_digit (x / 16); hex_digit (x mod 16)]%N) <$> b).

(** [str(n)] of a Python integer. *)
Fixpoint digits_fuel (fuel : nat) (n : N) (acc : pystr) : pystr :=
  match fuel with
  | O => acc
  | S f =>
      let acc' := (48 + n mod 10)%N :: acc in
      if (n <? 10)%N then acc' else digits_fuel f (n / 10)%N acc'
  end.
Definition digits (n : N) : pystr := digits_fuel (S (N.to_nat (N.log2 n))) n [].
Definition str_of_Z (z : Z) : pystr :=
  if z <? 0 then 45%N :: digits (Z.abs_N z) else digits (Z.to_N z).

(** Value of a run of decimal digits, most significant first. *)
Definition digits_value (s : pystr) : N :=
  foldl (λ acc c, 10 * acc + (c - 48))%N 0%N s.

(** [int(s)] of a string in base 10: white space stripped, an optional sign, and
    digits with single underscores between them. [None] is its [ValueError]. *)
Fixpoint int_digits (prev_digit : bool) (acc : N) (s : pystr) : option N :=
  match s with
  | [] => if prev_digit then Some acc else None
  | c :: s' =>
      if is_digit c then int_digits true (10 * acc + (c - 48))%N s'
      else if (c =? 95)%N && prev_digit then
        match s' with
        | d :: _ => if is_digit d then int_digits false acc s' else None
        | [] => None
        end
      else None
  end.
Definition py_int (s : pystr) : option Z :=
  let r := py_strip s in
  if starts_with (lit "-") r then (λ n, - Z.of_N n) <$> int_digits false 0%N (drop 1 r)
  else Z.of_N <$> int_digits false 0%N (if starts_with (lit "+") r then drop 1 r else r).

(** [int(s, 16)]: an optional sign, an optional [0x], digits with single underscores
    between them. *)
Fixpoint int16_digits (prev_digit : bool) (acc : N) (s : pystr) : option N :=
  match s with
  | [] => if prev_digit then Some acc else None
  | c :: s' =>
      match hex_value c with
      | Some d => int16_digits true (16 * acc + d)%N s'
      | None =>
          if (c =? 95)%N && prev_digit then
            match s' with
            | d :: _ => if hex_value d then int16_digits false acc s' else None
            | [] => None
            end
          else None
      end
  end.
Definition int16_body (s : pystr) : option Z :=
  Z.of_N <$>
  (if starts_with (lit "0x") s || starts_with (lit "0X") s then
     int16_digits false 0%N (let r := drop 2 s in if starts_with (lit "_") r then drop 1 r else r)
   else int16_digits false 0%N s).
Definition py_int16 (s : pystr) : option Z :=
  let r := py_strip s in
  if starts_with (lit "-") r then Z.opp <$> int16_body (drop 1 r)
  else if starts_with (lit "+") r then int16_body (drop 1 r)
  else int16_body r.

(** Fixed-width C integers, as [ctypes] stores a Python integer in them. *)
Definition u32 (z : Z) : Z := z mod 2 ^ 32.
Definition u64 (z : Z) : Z := z mod 2 ^ 64.
Definition i32 (z : Z) : Z := (z + 2 ^ 31) mod 2 ^ 32 - 2 ^ 31.

(** UTF-8 encoding; [None] is the [UnicodeEncodeError] of a surrogate. *)
Definition utf8_char (c : N) : option pybytes :=
  (if c <? 0x80 then Some [c]
   else if c <? 0x800 then Some [0xC0 + c / 64; 0x80 + c mod 64]
   else if (0xD800 <=? c) && (c <=? 0xDFFF) then None
   else if c <? 0x10000 then
     Some [0xE0 + c / 4096; 0x80 + (c / 64) mod 64; 0x80 + c mod 64]
   else Some [0xF0 + c / 262144; 0x80 + (c / 4096) mod 64; 0x80 + (c / 64) mod 64; 0x80 + c mod 64])%N.
Fixpoint utf8_encode (s : pystr) : option pybytes :=
  match s with
  | [] => Some []
  | c :: s' =>
      match utf8_char c, utf8_encode s' with
      | Some b, Some r => Some (b ++ r)
      | _, _ => None
      end
  end.

(** [bytes.decode()] as strict UTF-8: no overlong form, surrogate or value above
    [0x10FFFF]; [None] is the [UnicodeDecodeError]. *)
Definition continuation (c : N) : option N := (if (0x80 <=? c) && (c <=? 0xBF) then Some (c - 0x80) else None)%N.
Definition scalar_in (lo c : N) : bool :=
  ((lo <=? c) && negb ((0xD800 <=? c) && (c <=? 0xDFFF)) && (c <=? 0x10FFFF))%N.
Fixpoint utf8_decode (b : pybytes) : option pystr :=
  match b with
  | [] => Some []
  | x :: b1 =>
      if (x <? 0x80)%N then cons x <$> utf8_decode b1
      else if (x <? 0xC0)%N then None
      else if (x <? 0xE0)%N then
        match b1 with
        | y :: b2 =>
            cy ← continuation y;
            let c := ((x - 0xC0) * 64 + cy)%N in
            if scalar_in 0x80 c then cons c <$> utf8_decode b2 else None
        | _ => None
        end
      else if (x <? 0xF0)%N then
        match b1 with
        | y :: z :: b2 =>
            cy ← continuation y; cz ← continuation z;
            let c := ((x - 0xE0) * 4096 + cy * 64 + cz)%N in
            if scalar_in 0x800 c then cons c <$> utf8_decode b2 else None
        | _ => None
        end
      else if (x <? 0xF8)%N then
        match b1 with
        | y :: z :: t :: b2 =>
            cy ← continuation y; cz ← continuation z; ct ← continuation t;
            let c := ((x - 0xF0) * 262144 + cy * 4096 + cz * 64 + ct)%N in
            if scalar_in 0x10000 c then cons c <$> utf8_decode b2 else None
        | _ => None
        end
      else None
  end.

(** ASCII text is its own encoding. *)
Lemma utf8_ascii s : Forall (λ c, (c < 0x80)%N) s → utf8_encode s = Some s ∧ utf8_decode s = Some s.
Proof.
  induction 1 as [|c s Hc _ [IH1 IH2]]; simpl; [done|]. unfold utf8_char.
  rewrite (proj2 (N.ltb_lt c 0x80) Hc). by rewrite IH1, IH2.
Qed.

(** A code point and its encoding. *)
Lemma utf8_char_decode c b r : utf8_char c = Some b → (c <= 0x10FFFF)%N → utf8_decode (b ++ r) = cons c <$> utf8_decode r.
Proof.
  assert (∀ x, x < 64 → continuation (0x80 + x) = Some x)%N as Hcont.
  { intros x Hx. unfold continuation. rewrite (proj2 (N.leb_le _ _)), (proj2 (N.leb_le _ _)) by lia. cbn [andb]. f_equal. lia. }
  assert (∀ lo, lo <= c → (c < 0xD800 ∨ 0xDFFF < c) → c <= 0x10FFFF → scalar_in lo c = true)%N as Hsc.
  { intros lo Hlo Hr Hhi. unfold scalar_in. destruct (N.leb_spec lo c), (N.leb_spec 0xD800 c), (N.leb_spec c 0xDFFF), (N.leb_spec c 0x10FFFF); done || lia. }
  intros E Hc. unfold utf8_char in E.
  pose proof (N.div_mod c 64 ltac:(done)) as D1. pose proof (N.div_mod (c / 64) 64 ltac:(done)) as D2. pose proof (N.div_mod (c / 64 / 64) 64 ltac:(done)) as D3.
  rewrite (N.Div0.div_div c 64 64) in D2, D3. rewrite (N.Div0.div_div c (64 * 64) 64) in D3. change (64 * 64 * 64)%N with 262144%N in D3. change (64 * 64)%N with 4096%N in D2, D3.
  pose proof (N.mod_lt c 64 ltac:(done)). pose proof (N.mod_lt (c / 64) 64 ltac:(done)). pose proof (N.mod_lt (c / 4096) 64 ltac:(done)).
  destruct (N.ltb_spec c 0x80); [|destruct (N.ltb_spec c 0x800); [|destruct ((0xD800 <=? c) && (c <=? 0xDFFF))%N eqn:Es; [done|destruct (N.ltb_spec c 0x10000)]]];
    injection E as <-; cbn [app utf8_decode].
  - by rewrite (proj2 (N.ltb_lt c 0x80)) by done.
  - rewrite (proj2 (N.ltb_ge _ _)), (proj2 (N.ltb_ge _ _)), (proj2 (N.ltb_lt _ _)) by lia. rewrite Hcont by done. cbn [mbind option_bind].
    replace ((0xC0 + c / 64 - 0xC0) * 64 + c mod 64)%N with c by lia. by rewrite Hsc by lia.
  - assert (c < 0xD800 ∨ 0xDFFF < c)%N as Hr by (destruct (N.leb_spec 0xD800 c), (N.leb_spec c 0xDFFF); done || lia).
    rewrite !(proj2 (N.ltb_ge (0xE0 + _) _)), (proj2 (N.ltb_lt _ _)) by lia. rewrite !Hcont by done. cbn [mbind option_bind].
    replace ((0xE0 + c / 4096 - 0xE0) * 4096 + c / 64 mod 64 * 64 + c mod 64)%N with c by lia. by rewrite Hsc by lia.
  - rewrite !(proj2 (N.ltb_ge (0xF0 + _) _)), (proj2 (N.ltb_lt _ _)) by lia. rewrite !Hcont by done. cbn [mbind option_bind].
    replace ((0xF0 + c / 262144 - 0xF0) * 262144 + c / 4096 mod 64 * 4096 + c / 64 mod 64 * 64 + c mod 64)%N with c by lia.
    by rewrite Hsc by (lia || (right; lia)).
Qed.
(** Decoding what was encoded, with anything behind it. *)
Lemma utf8_round_trip s b r : utf8_encode s = Some b → Forall (λ c, (c <= 0x10FFFF)%N) s → utf8_decode (b ++ r) = app s <$> utf8_decode r.
Proof.
  revert b. induction s as [|c s IH]; intros b E HF; cbn [utf8_encode] in E; [injection E as <-; cbn [app]; symmetry; destruct (utf8_decode r); reflexivity|].
  apply Forall_cons in HF as [Hc HF]. destruct (utf8_char c) as [bc|] eqn:Ec; [|done]. destruct (utf8_encode s) as [bs|]; [|done]. injection E as <-.
  rewrite <- app_assoc, (utf8_char_decode _ _ _ Ec Hc), (IH bs) by done. by destruct (utf8_decode r).
Qed.
(** An ASCII character occurs in the encoding only where it occurs in the text. *)
Lemma utf8_encode_ascii s b x : utf8_encode s = Some b → (x < 0x80)%N → x ∈ b → x ∈ s.
Proof.
  revert b. induction s as [|c s IH]; intros b E Hx Hin; cbn [utf8_encode] in E; [by injection E as <-|].
  destruct (utf8_char c) as [bc|] eqn:Ec; [|done]. destruct (utf8_encode s) as [bs|]; [|done]. injection E as <-.
  apply elem_of_app in Hin as [Hin|Hin]; [|right; by eapply IH]. assert (x = c) as ->; [|left].
  unfold utf8_char in Ec. repeat case_match; simplify_eq; rewrite ?elem_of_cons, ?elem_of_nil in Hin; destruct_or?; try done; lia.
Qed.

(** [s.split(sep)] of one character. *)
Fixpoint split_char (sep : N) (word s : pystr) : list pystr :=
  match s with
  | [] => [word]
  | c :: s' => if (c =? sep)%N then word :: split_char sep [] s' else split_char sep (word ++ [c]) s'
  end.

(** [needle in haystack] for text. *)
Fixpoint contains (needle s : list N) : bool :=
  starts_with needle s || match s with [] => false | _ :: s' => contains needle s' end.

(** [s.split()]: the maximal runs of non-space characters. *)
Fixpoint split_words (word : pystr) (s : pystr) : list pystr :=
  match s with
  | [] => match word with [] => [] | _ => [word] end
  | c :: s' =>
      if is_space c then
        match word with [] => split_words [] s' | _ => word :: split_words [] s' end
      else split_words (word ++ [c]) s'
  end.
Definition py_split (s : pystr) : list pystr := split_words [] s.

Lemma split_words_app w s r : Forall (λ c, is_space c = false) s →
  split_words w (s ++ r) = split_words (w ++ s) r.
Proof.
  intros H. revert w. induction H as [|c s Hc _ IH]; intros w; simpl; [by rewrite app_nil_r|].
  by rewrite Hc, IH, <- app_assoc.
Qed.

(** [s.rpartition(sep)]: [None] when the separator does not occur; otherwise what is
    before and after its last occurrence. *)
Fixpoint rpartition (sep s : pystr) : option (pystr * pystr) :=
  match s with
  | [] => None
  | c :: s' =>
      match rpartition sep s' with
      | Some (a, b) => Some (c :: a, b)
      | None => if starts_with sep s then Some ([], drop (length sep) s) else None
      end
  end.

(** ** Exceptions and the result monad

    A call that can raise returns [res A]. An exception carries its class and the
    constant part of its message; interpolated values are left out. *)

Inductive exc_class :=
| ValueError | KeyError | TypeError | RuntimeError | OSError | FileNotFoundError
| AssertionError | TimeoutError | ConnectionError | PermissionError | UnicodeError
| StructError | IndexError | AttributeError | OverflowError | ZeroDivisionError | EOFError
| MemoryCapabilityError | ArtifactError | HydrationError | CheckpointResourceError
| CoordinatorError | CoordinatorNotFound | VllmContractError | CudaEpochError | NotImplementedError
| BrokenPipeError | TimeoutExpired | FileExistsError | SettingsError
| PayloadValidationError (reason : string).

#[global] Instance exc_class_eq_dec : EqDecision exc_class.
Proof. solve_decision. Defined.

Record exn := Exn { exc : exc_class; msg : string }.

#[global] Instance exn_eq_dec : EqDecision exn.
Proof. solve_decision. Defined.

Inductive res (A : Type) :=
| Ok (a : A)
| Raise (e : exn).
Arguments Ok {A} a.
Arguments Raise {A} e.

#[global] Instance res_eq_dec `{EqDecision A} : EqDecision (res A).
Proof. solve_decision. Defined.

#[global] Instance res_ret : MRet res := @Ok.
#[global] Instance res_bind : MBind res := λ A B f m,
  match m with Ok a => f a | Raise e => Raise e end.
#[global] Instance res_fmap : FMap res := λ A B f m,
  match m with Ok a => Ok (f a) | Raise e => Raise e end.

(** [if b: raise C(m)]. *)
Definition raise_if (b : bool) (c : exc_class) (m : string) : res unit :=
  if b then Raise (Exn c m) else Ok tt.

(** Lookups and conversions whose failure is an exception. *)
Definition of_option {A} (c : exc_class) (m : string) (o : option A) : res A :=
  match o with Some a => Ok a | None => Raise (Exn c m) end.

(** The value of a run that is known to succeed. *)
Definition ok_or {A} (d : A) (r : res A) : A := match r with Ok a => a | Raise _ => d end.

Definition is_ok {A} (r : res A) : bool := match r with Ok _ => true | Raise _ => false end.

(** [try: m except C: handler], catching the classes [c] selects. *)
Definition py_except {A} (m : res A) (c : exc_class → bool) (h : exn → res A) : res A :=
  match m with
  | Ok a => Ok a
  | Raise e => if c (exc e) then h e else Raise e
  end.

(** [OSError] and its subclasses. *)
Definition is_os_error (c : exc_class) : bool :=
  match c with
  | OSError | FileNotFoundError | FileExistsError | PermissionError | TimeoutError | ConnectionError | BrokenPipeError => true
  | _ => false
  end.

(** [ValueError] and its subclasses ([json.JSONDecodeError] is one of them). *)
Definition is_value_error (c : exc_class) : bool :=
  match c with ValueError | UnicodeError | SettingsError => true | _ => false end.

Lemma bind_Ok {A B} (m : res A) (f : A → res B) b :
  (m ≫= f) = Ok b ↔ ∃ a, m = Ok a ∧ f a = Ok b.
Proof.
  destruct m as [a|e]; simpl; [|split; [done|by intros (a & ? & _)]].
  split; [eauto|]. by intros (a' & [= <-] & ?).
Qed.

Lemma raise_if_Ok b c m u : raise_if b c m = Ok u ↔ b = false.
Proof. destruct b, u; naive_solver. Qed.

Lemma of_option_Ok {A} c m (o : option A) a : of_option c m o = Ok a ↔ o = Some a.
Proof. destruct o; naive_solver. Qed.

(** A guard that does not fire is transparent. *)
Lemma raise_if_bind {A} b c m (k : unit → res A) r : b = false → k tt = r → (raise_if b c m ≫= k) = r.
Proof. by intros -> <-. Qed.

(** Take apart a successful run: every bind, guard and conversion in it succeeded. *)
Ltac res_inv :=
  repeat match goal with
  | H : Ok _ = Ok _ |- _ => injection H as H; try subst
  | H : mret ?a = Ok ?b |- _ => change (Ok a = Ok b) in H
  | H : Raise _ = Ok _ |- _ => discriminate H
  | H : Ok _ = Raise _ |- _ => discriminate H
  | H : (_ ≫= _) = Ok _ |- _ => apply bind_Ok in H as (? & ? & H)
  | H : raise_if _ _ _ = Ok _ |- _ => apply raise_if_Ok in H
  | H : of_option _ _ _ = Ok _ |- _ => apply of_option_Ok in H
  end.

(** Split the disjunctions of a guard that was false. *)
Ltac guards :=
  repeat match goal with
  | H : (_ || _) = false |- _ => apply orb_false_iff in H as [? ?]
  | H : (_ && _) = true |- _ => apply andb_true_iff in H as [? ?]
  | H : negb _ = false |- _ => apply negb_false_iff in H
  | H : negb _ = true |- _ => apply negb_true_iff in H
  | H : bool_decide _ = true |- _ => apply bool_decide_eq_true in H
  | H : bool_decide _ = false |- _ => apply bool_decide_eq_false in H
  end.

(** ** Stateful code that may raise

    A run takes the world and leaves one, also when it raises. *)

Definition ST (W A : Type) : Type := W → res A * W.
#[global] Instance st_ret {W} : MRet (ST W) := λ A a w, (Ok a, w).
#[global] Instance st_bind {W} : MBind (ST W) := λ A B f m w,
  match m w with (Ok a, w') => f a w' | (Raise e, w') => (Raise e, w') end.
Definition lift {W A} (r : res A) : ST W A := λ w, (r, w).
Definition st_raise_if {W} (b : bool) (c : exc_class) (m : string) : ST W unit := lift (raise_if b c m).
Definition st_get {W A} (f : W → A) : ST W A := λ w, (Ok (f w), w).
Definition st_set {W} (f : W → W) : ST W unit := λ w, (Ok tt, f w).

(** [try: m except C: h] and [try: m finally: h] *)
Definition st_except {W A} (m : ST W A) (c : exc_class → bool) (h : exn → ST W A) : ST W A := λ w,
  match m w with
  | (Raise e, w') => if c (exc e) then h e w' else (Raise e, w')
  | r => r
  end.
Definition st_finally {W A} (m : ST W A) (h : W → W) : ST W A := λ w, let '(r, w') := m w in (r, h w').

(** [try: m except Exception: h; raise], and a [finally] that may raise itself *)
Definition st_on_error {W A} (m : ST W A) (h : W → W) : ST W A := λ w,
  match m w with (Raise e, w') => (Raise e, h w') | r => r end.
Definition st_finally_run {W A} (m : ST W A) (h : ST W unit) : ST W A := λ w,
  let '(r, w') := m w in (h ≫= λ _, lift r) w'.

(** [for x in l: f(x)] *)
Fixpoint st_iter {W A} (f : A → ST W unit) (l : list A) : ST W unit :=
  match l with
  | [] => mret tt
  | x :: l => _ ← f x; st_iter f l
  end.

Lemma st_bind_Ok {W A B} (m : ST W A) (f : A → ST W B) b w w' :
  (m ≫= f) w = (Ok b, w') ↔ ∃ a w1, m w = (Ok a, w1) ∧ f a w1 = (Ok b, w').
Proof.
  unfold mbind, st_bind. destruct (m w) as [[a|e] w1]; [|split; [done|by intros (? & ? & ? & _)]].
  split; [eauto|]. by intros (? & ? & [= <- <-] & ?).
Qed.
Lemma lift_Ok {W A} (r : res A) a (w w' : W) : lift r w = (Ok a, w') ↔ r = Ok a ∧ w' = w.
Proof. unfold lift. naive_solver. Qed.
Lemma st_raise_if_Ok {W} b c m u (w w' : W) : st_raise_if b c m w = (Ok u, w') ↔ b = false ∧ w' = w.
Proof. unfold st_raise_if. by rewrite lift_Ok, raise_if_Ok. Qed.

Lemma st_on_error_Ok {W A} (m : ST W A) h w a w' : st_on_error m h w = (Ok a, w') ↔ m w = (Ok a, w').
Proof. unfold st_on_error. destruct (m w) as [[]]; naive_solver. Qed.
Lemma st_ret_Ok {W A} (a b : A) (w w' : W) : (mret a : ST W A) w = (Ok b, w') ↔ b = a ∧ w' = w.
Proof. unfold mret, st_ret. naive_solver. Qed.
Lemma st_get_Ok {W A} (f : W → A) a w w' : st_get f w = (Ok a, w') ↔ a = f w ∧ w' = w.
Proof. unfold st_get. naive_solver. Qed.
Lemma st_set_Ok {W} (f : W → W) u w w' : st_set f w = (Ok u, w') ↔ w' = f w.
Proof. unfold st_set. destruct u. naive_solver. Qed.

(** Take apart a successful stateful run. *)
Ltac st_inv :=
  repeat match goal with
  | H : (_ ≫= _) _ = (Ok _, _) |- _ => apply st_bind_Ok in H as (? & ? & ? & H)
  | H : lift _ _ = (Ok _, _) |- _ => apply lift_Ok in H as [H ?]; subst
  | H : st_raise_if _ _ _ _ = (Ok _, _) |- _ => apply st_raise_if_Ok in H as [H ?]; subst
  | H : mret _ _ = (Ok _, _) |- _ => apply st_ret_Ok in H as [? ?]; subst
  | H : st_get _ _ = (Ok _, _) |- _ => apply st_get_Ok in H as [? ?]; subst
  | H : st_set _ _ = (Ok _, _) |- _ => apply st_set_Ok in H; subst
  | H : (Raise _, _) = (Ok _, _) |- _ => discriminate H
  end.

(** ** Ordering and sorting

    [sorted()] is a stable insertion sort over a boolean order. *)

Class TotalLeb {A} (leb : A → A → bool) := {
  leb_total x y : leb x y = true ∨ leb y x = true;
  leb_trans x y z : leb x y = true → leb y z = true → leb x z = true;
  leb_antisym x y : leb x y = true → leb y x = true → x = y;
}.

Section sorting.
Context {A : Type} (leb : A → A → bool).

Fixpoint insert_sorted (x : A) (l : list A) : list A :=
  match l with
  | [] => [x]
  | y :: l' => if leb x y then x :: l else y :: insert_sorted x l'
  end.
Definition py_sorted (l : list A) : list A := foldr insert_sorted [] l.

Definition ordered : list A → Prop := Sorted (λ x y, leb x y = true).

Lemma insert_sorted_perm x l : insert_sorted x l ≡ₚ x :: l.
Proof.
  induction l as [|y l IH]; simpl; [done|].
  destruct (leb x y); [done|]. by rewrite IH, Permutation_swap.
Qed.

Lemma py_sorted_perm l : py_sorted l ≡ₚ l.
Proof. induction l as [|x l IH]; simpl; [done|]. by rewrite insert_sorted_perm, IH. Qed.

Lemma py_sorted_ordered_id l : ordered l → py_sorted l = l.
Proof.
  induction 1 as [|x l Hs IH Hhd]; simpl; [done|].
  rewrite IH. destruct Hhd as [|y l Hxy]; simpl; [done|]. by rewrite Hxy.
Qed.

Context `{!TotalLeb leb}.

Lemma insert_sorted_ordered x l : ordered l → ordered (insert_sorted x l).
Proof.
  induction 1 as [|y l Hs IH Hhd]; simpl; [repeat constructor|].
  destruct (leb x y) eqn:E; [repeat (done || constructor)|].
  constructor; [done|].
  assert (leb y x = true) as Hyx by (destruct (leb_total x y); congruence).
  destruct Hhd as [|z l Hyz]; simpl; [by constructor|].
  destruct (leb x z); by constructor.
Qed.

Lemma py_sorted_ordered l : ordered (py_sorted l).
Proof. induction l; simpl; [constructor|]. by apply insert_sorted_ordered. Qed.

Lemma ordered_strongly l : ordered l → StronglySorted (λ x y, leb x y = true) l.
Proof. intros. apply Sorted_StronglySorted; [|done]. intros x y z. apply leb_trans. Qed.

Lemma ordered_perm_eq l k : ordered l → ordered k → l ≡ₚ k → l = k.
Proof.
  intros Hl%ordered_strongly Hk%ordered_strongly. revert k Hk.
  induction Hl as [|x l Hl IH Hx]; intros k Hk Hp.
  { by apply Permutation_nil_l in Hp. }
  destruct Hk as [|y k Hk Hy]; [by apply Permutation_nil_r in Hp|].
  assert (x = y) as ->.
  { assert (x ∈ y :: k) as [->|Hxk]%elem_of_cons by (rewrite <- Hp; set_solver); [done|].
    assert (y ∈ x :: l) as [->|Hyl]%elem_of_cons by (rewrite Hp; set_solver); [done|].
    rewrite List.Forall_forall in Hx, Hy.
    apply leb_antisym; [apply Hx|apply Hy]; by apply list_elem_of_In. }
  f_equal. apply IH; [done|]. by apply Permutation_cons_inv in Hp.
Qed.

(** [sorted] depends only on the multiset of its argument. *)
Lemma py_sorted_perm_eq l k : l ≡ₚ k → py_sorted l = py_sorted k.
Proof.
  intros H. apply ordered_perm_eq; auto using py_sorted_ordered.
  by rewrite !py_sorted_perm.
Qed.

Lemma py_sorted_idemp l : py_sorted (py_sorted l) = py_sorted l.
Proof. apply py_sorted_ordered_id, py_sorted_ordered. Qed.
End sorting.

Lemma py_sorted_fmap {A B} (leA : A → A → bool) (leB : B → B → bool) (f : A → B) l :
  (∀ x y, leA x y = leB (f x) (f y)) → f <$> py_sorted leA l = py_sorted leB (f <$> l).
Proof.
  intros Hf. unfold py_sorted. induction l as [|x l IH]; csimpl; [done|].
  rewrite <- IH. clear IH.
  induction (foldr (insert_sorted leA) [] l) as [|y k IH]; csimpl; [done|].
  rewrite <- Hf. destruct (leA x y); csimpl; [done|]. by f_equal.
Qed.

(** Code-point order of strings, and the lexicographic order of pairs. *)
Fixpoint str_leb (a b : pystr) : bool :=
  match a, b with
  | [], _ => true
  | _ :: _, [] => false
  | x :: a', y :: b' => if (x =? y)%N then str_leb a' b' else (x <? y)%N
  end.

Definition pair_leb {A B} `{EqDecision A} (leA : A → A → bool) (leB : B → B → bool)
    (p q : A * B) : bool :=
  if decide (p.1 = q.1) then leB p.2 q.2 else leA p.1 q.1.

#[global] Instance str_total : TotalLeb str_leb.
Proof.
  split.
  - intros x; induction x as [|a x IH]; intros [|b y]; simpl; auto.
    destruct (N.eqb_spec a b), (N.eqb_spec b a); subst; try done.
    rewrite !N.ltb_lt. lia.
  - intros x; induction x as [|a x IH]; intros [|b y] [|c z]; simpl; auto; try done.
    destruct (N.eqb_spec a b), (N.eqb_spec b c), (N.eqb_spec a c);
      subst; try done; rewrite ?N.ltb_lt; eauto; try lia.
  - intros x; induction x as [|a x IH]; intros [|b y]; simpl; auto; try done.
    destruct (N.eqb_spec a b), (N.eqb_spec b a); subst; try done.
    + intros. f_equal. by apply IH.
    + rewrite !N.ltb_lt. lia.
Qed.

#[global] Instance pair_total {A B} `{EqDecision A} leA leB
  `{!TotalLeb (A := A) leA, !TotalLeb (A := B) leB} : TotalLeb (pair_leb leA leB).
Proof.
  unfold pair_leb. split.
  - intros [a b] [c d]; simpl. repeat case_decide; subst; try done; apply leb_total.
  - intros [a b] [c d] [e f]; simpl. repeat case_decide; subst; try done;
      eauto using leb_trans, leb_antisym.
    all: intros H1 H2; by destruct (leb_antisym _ _ H1 H2).
  - intros [a b] [c d]; simpl. repeat case_decide; subst; try done.
    + intros. f_equal. by apply leb_antisym.
    + intros H1 H2. by destruct (leb_antisym _ _ H1 H2).
Qed.

Notation sort_str := (py_sorted str_leb).
Notation sort_str_pairs := (py_sorted (pair_leb str_leb str_leb)).

(** [tuple(sorted(set(l)))] *)
Definition sorted_set {A} `{EqDecision A} (leb : A → A → bool) (l : list A) : list A :=
  py_sorted leb (remove_dups l).

(** [set(a) == set(b)] *)
Definition set_eqb {A} `{EqDecision A} (a b : list A) : bool :=
  forallb (λ x, bool_decide (x ∈ b)) a && forallb (λ x, bool_decide (x ∈ a)) b.

Lemma set_eqb_spec {A} `{EqDecision A} (a b : list A) :
  set_eqb a b = true ↔ ∀ x, x ∈ a ↔ x ∈ b.
Proof.
  unfold set_eqb. rewrite andb_true_iff, !forallb_forall.
  setoid_rewrite bool_decide_eq_true. setoid_rewrite <- list_elem_of_In.
  split; [intros [] x; split; auto | intros H; split; intros x; apply H].
Qed.

(** [len(set(l)) != len(l)] tests for duplicates. *)
Definition has_dups {A} `{EqDecision A} (l : list A) : bool :=
  negb (length (remove_dups l) =? length l)%nat.

Lemma remove_dups_length {A} `{EqDecision A} (l : list A) : (length (remove_dups l) <= length l)%nat.
Proof. induction l; simpl; [done|]. case_decide; simpl; lia. Qed.

Lemma remove_dups_NoDup_id {A} `{EqDecision A} (l : list A) : NoDup l → remove_dups l = l.
Proof. induction 1; simpl; [done|]. case_decide; [done|by f_equal]. Qed.

Lemma has_dups_false {A} `{EqDecision A} (l : list A) : has_dups l = false ↔ NoDup l.
Proof.
  unfold has_dups. rewrite negb_false_iff, Nat.eqb_eq. split.
  - induction l as [|x l IH]; simpl; [constructor|].
    pose proof (remove_dups_length l). case_decide; simpl; [lia|].
    intros. constructor; [done|]. apply IH. lia.
  - intros H. by rewrite remove_dups_NoDup_id.
Qed.

Lemma sorted_set_id {A} `{EqDecision A} (leb : A → A → bool) `{!TotalLeb leb} l :
  sorted_set leb l = l ↔ NoDup l ∧ ordered leb l.
Proof.
  unfold sorted_set. split.
  - intros H. split.
    + rewrite <- H, py_sorted_perm. apply NoDup_remove_dups.
    + rewrite <- H. apply py_sorted_ordered, _.
  - intros [H1 H2]. rewrite remove_dups_NoDup_id by done. by apply py_sorted_ordered_id.
Qed.

(** Sum of a list of integers: [sum(...)]. *)
Definition zsum (l : list Z) : Z := foldr Z.add 0 l.

Lemma zsum_app l k : zsum (l ++ k) = zsum l + zsum k.
Proof. induction l; simpl in *; lia. Qed.

Lemma zsum_perm l k : l ≡ₚ k → zsum l = zsum k.
Proof. unfold zsum. induction 1; simpl; lia. Qed.

(** A comprehension over a raising function succeeds exactly when every call does. *)
Lemma mapM_Ok {A B} (f : A → res B) l k : mapM f l = Ok k ↔ Forall2 (λ x y, f x = Ok y) l k.
Proof.
  revert k. induction l as [|x l IH]; intros k; simpl.
  - split; [intros [= <-]; constructor|]. by inversion 1.
  - split.
    + intros H. res_inv. constructor; [done|]. by apply IH.
    + inversion 1 as [|? y ? k' Hx Hl]; subst. rewrite Hx. simpl.
      apply IH in Hl. rewrite Hl. done.
Qed.

Lemma mapM_unit_Ok {A} (f : A → res unit) l : is_ok (mapM f l) = true ↔ Forall (λ x, f x = Ok tt) l.
Proof.
  split.
  - destruct (mapM f l) as [k|] eqn:E; [|done]. intros _. apply mapM_Ok in E.
    induction E as [|x [] l k]; constructor; auto.
  - intros H. assert (mapM f l = Ok ((λ _, tt) <$> l)) as ->; [|done].
    apply mapM_Ok. induction H; csimpl; constructor; auto.
Qed.

Lemma mapM_unit_inv {A} (f : A → res unit) l k : mapM f l = Ok k → Forall (λ x, f x = Ok tt) l.
Proof. intros E. apply mapM_unit_Ok. by rewrite E. Qed.

(** A list with the same elements and the same length as a duplicate-free one is a
    permutation of it. *)
Lemma same_set_perm {A} `{EqDecision A} (l k : list A) :
  NoDup k → length l = length k → (∀ x, x ∈ l ↔ x ∈ k) → l ≡ₚ k.
Proof.
  intros Hk Hl H. symmetry. apply submseteq_length_Permutation; [|lia].
  apply NoDup_submseteq; [done|]. intros x. apply H.
Qed.

Lemma existsb_elem {A} (f : A → bool) l x : x ∈ l → f x = true → existsb f l = true.
Proof. intros ? ?. apply existsb_exists. exists x. by rewrite <- list_elem_of_In. Qed.

Lemma NoDup_fmap_filter {A B} (f : A → B) (P : A → Prop) `{!∀ x, Decision (P x)} (l : list A) :
  NoDup (f <$> l) → NoDup (f <$> filter P l).
Proof.
  induction l as [|x l IH]; csimpl; [done|]. intros [Hx Hl]%NoDup_cons.
  rewrite filter_cons. case_decide; [|by apply IH]. csimpl. constructor; [|by apply IH].
  intros (y & E & [_ Hy]%list_elem_of_filter)%list_elem_of_fmap. destruct Hx.
  apply list_elem_of_fmap. eauto.
Qed.
