(* ===== verification/Ranges.v ===== *)
(** * Byte ranges

    What the planners of the vLLM integration compute with: byte ranges of a file or
    of device memory. [moves] is the list of (file offset, device address) pairs a
    transfer carries; cutting, merging and reordering ranges is correct when the moves
    stay the same. [coalesce] is the loop that extends the last range of a list when
    the next one continues it, which several planners share. *)

From S2P Require Import Prelude.

(** ** Sorting by an integer key: [sorted(l, key=f)] *)

#[global] Instance Zleb_total : TotalLeb Z.leb.
Proof. split; intros; rewrite ?Z.leb_le in *; lia. Qed.

#[global] Instance nat_leb_total : TotalLeb Nat.leb.
Proof. split; intros; rewrite ?Nat.leb_le in *; lia. Qed.

Notation sort_on f := (py_sorted (λ x y, f x <=? f y)).

Lemma sort_on_keys {A} (f : A → Z) l : f <$> sort_on f l = py_sorted Z.leb (f <$> l).
Proof. by apply py_sorted_fmap. Qed.

Lemma sort_on_sorted {A} (f : A → Z) l : StronglySorted (λ x y, f x <= f y) (sort_on f l).
Proof.
  pose proof (ordered_strongly _ _ (py_sorted_ordered Z.leb (f <$> l))) as H. rewrite <- sort_on_keys in H.
  induction (sort_on f l) as [|x k IH]; [constructor|]. csimpl in *.
  apply StronglySorted_inv in H as [Hk Hx]. constructor; [by apply IH|].
  rewrite Forall_fmap in Hx. eapply Forall_impl; [exact Hx|]. intros y. cbn. apply Z.leb_le.
Qed.

Lemma sort_on_twice {A} (f : A → Z) l : sort_on f (sort_on f l) = sort_on f l.
Proof.
  apply py_sorted_ordered_id, StronglySorted_Sorted.
  induction (sort_on_sorted f l) as [|x k _ IH HF]; constructor; [done|]. eapply Forall_impl; [exact HF|]. intros y Hy. by apply Z.leb_le.
Qed.

Lemma py_sorted_ext {A} (f g : A → A → bool) l : (∀ x y, f x y = g x y) → py_sorted f l = py_sorted g l.
Proof.
  intros Hfg. unfold py_sorted. induction l as [|x l IH]; cbn; [done|]. rewrite IH. generalize (foldr (insert_sorted g) [] l). intros k. clear IH.
  induction k as [|y k IH]; cbn; [done|]. by rewrite Hfg, IH.
Qed.

Lemma fmap_sorted {A B} (g : A → B) (leb : B → B → bool) l : g <$> py_sorted (λ x y, leb (g x) (g y)) l = py_sorted leb (g <$> l).
Proof.
  induction l as [|x l IH]; [done|]. csimpl. rewrite <- IH. clear IH. generalize (py_sorted (λ x y, leb (g x) (g y)) l). clear l.
  intros l. induction l as [|y l IH]; cbn; [done|]. destruct (leb (g x) (g y)); csimpl; [done|by rewrite IH].
Qed.

(** ** Lists of ranges *)

Lemma existsb_false {A} (f : A → bool) l : existsb f l = false ↔ Forall (λ x, f x = false) l.
Proof.
  induction l as [|x l IH]; cbn; [by split|]. rewrite orb_false_iff, IH, Forall_cons. done.
Qed.

Lemma filter_all {A} (P : A → Prop) `{!∀ x, Decision (P x)} l : Forall P l → filter P l = l.
Proof. induction 1 as [|x l Hx _ IH]; [done|]. by rewrite filter_cons, decide_True, IH by done. Qed.

Lemma mapM_res_ext {A B} (f g : A → res B) l : (∀ x, f x = g x) → mapM f l = mapM g l.
Proof. intros Hfg. induction l as [|x l IH]; cbn; [done|]. by rewrite Hfg, IH. Qed.

Lemma NoDup_fmap_elem {A B} (f : A → B) l x y : NoDup (f <$> l) → x ∈ l → y ∈ l → f x = f y → x = y.
Proof.
  intros HN [i Hi]%list_elem_of_lookup [j Hj]%list_elem_of_lookup E.
  assert (i = j) as ->; [|congruence].
  eapply (NoDup_lookup _ _ _ (f x)); [exact HN| |]; rewrite list_lookup_fmap.
  - by rewrite Hi.
  - rewrite Hj. cbn. by rewrite E.
Qed.

Lemma Forall2_elem_l {A B} (P : A → B → Prop) l k x : Forall2 P l k → x ∈ l → ∃ y, y ∈ k ∧ P x y.
Proof. induction 1 as [|a b l k Hab _ IH]; [set_solver|]. intros [->|Hx]%elem_of_cons; [set_solver|]. destruct (IH Hx) as (y & ? & ?). set_solver. Qed.

Lemma Forall2_elem_r {A B} (P : A → B → Prop) l k y : Forall2 P l k → y ∈ k → ∃ x, x ∈ l ∧ P x y.
Proof. intros H%Forall2_flip Hy. by apply (Forall2_elem_l _ _ _ _ H). Qed.

Lemma elem_of_concat_fmap {A B} (f : A → list B) l z : z ∈ concat (f <$> l) ↔ ∃ x, x ∈ l ∧ z ∈ f x.
Proof.
  induction l as [|x l IH]; csimpl; [set_solver|]. rewrite elem_of_app, IH. set_solver.
Qed.

Lemma elem_of_concat {A} (ls : list (list A)) x : x ∈ concat ls ↔ ∃ l, x ∈ l ∧ l ∈ ls.
Proof. rewrite <- (list_fmap_id ls) at 1. rewrite elem_of_concat_fmap. set_solver. Qed.

Lemma concat_fmap_perm {A B} (f : A → list B) l k : l ≡ₚ k → concat (f <$> l) ≡ₚ concat (f <$> k).
Proof.
  induction 1; csimpl; [done|by f_equiv| |by etrans].
  rewrite !app_assoc. f_equiv. apply Permutation_app_comm.
Qed.

Lemma concat_fmap_filter_NoDup {A B} (f : A → list B) (P : A → Prop) `{!∀ x, Decision (P x)} l :
  NoDup (concat (f <$> l)) → NoDup (concat (f <$> filter P l)).
Proof.
  induction l as [|x l IH]; csimpl; [done|]. intros (Hx & Hd & Hl)%NoDup_app.
  rewrite filter_cons. case_decide; [|by apply IH]. csimpl.
  apply NoDup_app. split_and!; [done| |by apply IH].
  intros z Hz (y & [_ Hy]%list_elem_of_filter & Hzy)%elem_of_concat_fmap.
  apply (Hd z Hz), elem_of_concat_fmap. eauto.
Qed.

(** Grouping by a key loses nothing. *)
Lemma partition_by {A B} `{EqDecision B} (f : A → B) (ks : list B) (l : list A) : NoDup ks → Forall (λ x, f x ∈ ks) l →
  concat ((λ k, filter (λ x, f x = k) l) <$> ks) ≡ₚ l.
Proof.
  intros HN. induction 1 as [|x l Hx _ IH].
  { clear HN. by induction ks. }
  transitivity (x :: concat ((λ k, filter (λ x, f x = k) l) <$> ks)); [clear IH|by rewrite IH].
  apply list_elem_of_split in Hx as (k1 & k2 & ->).
  apply NoDup_app in HN as (_ & Hd & [Hn2 _]%NoDup_cons).
  assert (f x ∉ k1) as Hn1 by set_solver.
  assert (∀ ks : list B, f x ∉ ks → (λ k, filter (λ y, f y = k) (x :: l)) <$> ks = (λ k, filter (λ y, f y = k) l) <$> ks) as Hskip.
  { intros ks Hks. apply list_fmap_ext. intros i k Hk%list_elem_of_lookup_2. rewrite filter_cons, decide_False; set_solver. }
  rewrite !fmap_app, !concat_app. csimpl. rewrite !Hskip by done. rewrite filter_cons, decide_True by done. cbn.
  symmetry. apply Permutation_middle.
Qed.

(** ** The bytes a range moves: file offset and device address of each *)

Definition moves (off addr len : Z) : list (Z * Z) := (λ o, (o, o - off + addr)) <$> seqZ off len.

Lemma moves_app off addr a b : 0 <= a → 0 <= b →
  moves off addr (a + b) = moves off addr a ++ moves (off + a) (addr + a) b.
Proof.
  intros. unfold moves. rewrite seqZ_app, fmap_app by lia. f_equal.
  apply list_fmap_ext. intros _ o _. f_equal. lia.
Qed.

Lemma moves_empty off addr len : len <= 0 → moves off addr len = [].
Proof. intros. unfold moves. by rewrite seqZ_nil by lia. Qed.

Lemma elem_of_moves off addr len p : p ∈ moves off addr len ↔ off <= p.1 < off + len ∧ p.2 = p.1 - off + addr.
Proof.
  unfold moves. rewrite list_elem_of_fmap. setoid_rewrite elem_of_seqZ. destruct p as [o a]. cbn. split.
  - intros (o' & [= -> ->] & ?). lia.
  - intros [? ->]. by exists o.
Qed.

Lemma length_moves off addr len : length (moves off addr len) = Z.to_nat len.
Proof. unfold moves. by rewrite length_fmap, length_seqZ. Qed.

Lemma moves_fst off addr len : (moves off addr len).*1 = seqZ off len.
Proof. unfold moves. rewrite <- list_fmap_compose. apply list_fmap_id. Qed.

Lemma moves_snd off addr len : (moves off addr len).*2 = seqZ addr len.
Proof.
  unfold moves, seqZ. rewrite <- !list_fmap_compose. apply list_fmap_ext. intros i o Ho. cbn. lia.
Qed.

(** ** Extending the last range of a list

    [for item in l: if xs and adjacent(xs[-1], item): xs[-1] = merge(xs[-1], item)
    else: xs.append(make(item))] *)

Section coalesce.
Context {R A : Type} (adjacent : A → R → bool) (merge : A → R → res A) (make : R → res A).

Definition push (xs : list A) (item : R) : res (list A) :=
  match last xs with
  | Some p => if adjacent p item then (λ q, take (length xs - 1) xs ++ [q]) <$> merge p item
              else (λ q, xs ++ [q]) <$> make item
  | None => (λ q, xs ++ [q]) <$> make item
  end.

Fixpoint coalesce (xs : list A) (l : list R) : res (list A) :=
  match l with
  | [] => mret xs
  | item :: l' => xs' ← push xs item; coalesce xs' l'
  end.

(** [g] measures a range that holds [P], [h] an item that holds [Q]. *)
Context {B : Type} (g : A → list B) (h : R → list B) (P : A → Prop) (Q : R → Prop).
Hypothesis Hmake : ∀ x q, Q x → make x = Ok q → P q ∧ g q = h x.
Hypothesis Hmerge : ∀ p x q, P p → Q x → adjacent p x = true → merge p x = Ok q → P q ∧ g q = g p ++ h x.

Lemma push_spec xs x ys : Forall P xs → Q x → push xs x = Ok ys →
  Forall P ys ∧ concat (g <$> ys) = concat (g <$> xs) ++ h x.
Proof using Hmake Hmerge.
  unfold push. intros HP Hx E.
  assert (∀ q, make x = Ok q → Forall P (xs ++ [q]) ∧ concat (g <$> xs ++ [q]) = concat (g <$> xs) ++ h x) as Hnew.
  { intros q [Hq Hg]%Hmake; [|done]. rewrite fmap_app, concat_app. cbn. rewrite Hg, app_nil_r.
    split; [|done]. by apply Forall_app_2, Forall_singleton. }
  destruct (last xs) as [p|] eqn:El.
  - apply last_Some in El as [k ->]. apply Forall_app in HP as [Hk [Hp _]%Forall_cons_1].
    destruct (adjacent p x) eqn:Ea.
    + destruct (merge p x) as [q|] eqn:Em; cbn in E; res_inv.
      destruct (Hmerge p x q Hp Hx Ea Em) as [Hq Hg].
      rewrite length_app. cbn. rewrite Nat.add_sub, take_app_length, !fmap_app, !concat_app.
      cbn. rewrite Hg, !app_nil_r, app_assoc. split; [|done]. by apply Forall_app_2, Forall_singleton.
    + destruct (make x) as [q|] eqn:Em; cbn in E; res_inv. by apply Hnew.
  - destruct (make x) as [q|] eqn:Em; cbn in E; res_inv. by apply Hnew.
Qed.

(** Merging never changes what the ranges carry, or its order. *)
Lemma coalesce_spec xs l ys : Forall P xs → Forall Q l → coalesce xs l = Ok ys →
  Forall P ys ∧ concat (g <$> ys) = concat (g <$> xs) ++ concat (h <$> l).
Proof using Hmake Hmerge.
  intros HP Hl. revert xs HP. induction Hl as [|x l Hx _ IH]; intros xs HP E; cbn in E; res_inv.
  - csimpl. by rewrite app_nil_r.
  - match goal with H : push _ _ = Ok _ |- _ => destruct (push_spec _ _ _ HP Hx H) as [HP' Hg] end.
    apply IH in E as [? ->]; [|done]. csimpl. by rewrite Hg, app_assoc.
Qed.
End coalesce.

Lemma coalesce_total {R A} adjacent (merge : A → R → res A) (make : R → res A) xs l :
  (∀ x, is_ok (make x) = true) → (∀ p x, is_ok (merge p x) = true) → ∃ ys, coalesce adjacent merge make xs l = Ok ys.
Proof.
  intros Hk Hm. revert xs. induction l as [|x l IH]; intros xs; cbn; [by exists xs|].
  assert (∃ ys, push adjacent merge make xs x = Ok ys) as [ys ->]; [|apply IH].
  unfold push. specialize (Hk x). destruct (last xs) as [p|]; [specialize (Hm p x); destruct (adjacent p x)|];
    destruct (make x); try done; try (destruct (merge p x); try done); by eexists.
Qed.

(** ** Alignment *)

Definition align_down (z a : Z) : Z := z / a * a.
Definition align_up (z a : Z) : Z := (z + a - 1) / a * a.

Lemma align_down_spec z a : 0 < a → align_down z a <= z < align_down z a + a ∧ align_down z a mod a = 0.
Proof. intros. unfold align_down. rewrite Z.mod_mul by lia. pose proof (Z.mod_pos_bound z a). pose proof (Z.div_mod z a). lia. Qed.

Lemma align_up_spec z a : 0 < a → z <= align_up z a < z + a ∧ align_up z a mod a = 0.
Proof.
  intros. unfold align_up. rewrite Z.mod_mul by lia.
  pose proof (Z.mod_pos_bound (z + a - 1) a). pose proof (Z.div_mod (z + a - 1) a). lia.
Qed.

(** [z & -a] rounds down when [a] is a power of two. *)
Lemma land_opp_pow2 z k : 0 <= k → Z.land z (- 2 ^ k) = align_down z (2 ^ k).
Proof.
  intros. unfold align_down. assert (- 2 ^ k = Z.lnot (Z.ones k)) as ->.
  { rewrite Z.ones_equiv. unfold Z.lnot. lia. }
  rewrite <- Z.ldiff_land, Z.ldiff_ones_r, Z.shiftl_mul_pow2, Z.shiftr_div_pow2 by lia. done.
Qed.
