(* ===== verification/PyFloat.v ===== *)
(** * Python floats

    [float] is IEEE 754 binary64, as the axiom-free [spec_float]: reading a decimal
    literal ([float(text)]) and writing the shortest literal ([float.__repr__]),
    which is what [json] does with the numbers of a payload. *)

From Stdlib Require Import SpecFloat.
From S2P Require Import Prelude.

Definition prec : Z := 53.
Definition emax : Z := 1024.

#[global] Instance spec_float_eq_dec : EqDecision spec_float.
Proof. solve_decision. Defined.

(** Nearest float of [± m * 10 ^ e]. *)
Definition float_of_decimal (neg : bool) (m : N) (e : Z) : spec_float :=
  match m with
  | N0 => S754_zero neg
  | Npos p =>
      if 0 <=? e then
        binary_normalize prec emax ((if neg then Zneg p else Zpos p) * 10 ^ e) 0 neg
      else SFdiv prec emax (S754_finite neg p 0) (S754_finite false (Z.to_pos (10 ^ (- e))) 0)
  end.

(** A positive finite float as a fraction [num / den]. *)
Definition fraction (m : positive) (e : Z) : Z * Z :=
  if 0 <=? e then (Zpos m * 2 ^ e, 1) else (Zpos m, 2 ^ (- e)).

(** The decimal exponent [d] with [10 ^ (d - 1) <= num / den < 10 ^ d]. *)
Fixpoint leading_zeros (fuel : nat) (num den : Z) : Z :=
  match fuel with
  | O => 0
  | S f => if den <=? num * 10 then 0 else 1 + leading_zeros f (num * 10) den
  end.
Definition decimal_exponent (num den : Z) : Z :=
  if den <=? num then Z.of_nat (length (digits (Z.to_N (num / den))))
  else - leading_zeros 400 num den.

(** Digits of the [n]-digit decimal nearest to [num / den] that reads back as [x]. *)
Definition decimal_candidate (x : spec_float) (num den d n : Z) : option Z :=
  let '(a, b) := if 0 <=? n - d then (num * 10 ^ (n - d), den) else (num, den * 10 ^ (d - n)) in
  let lo := a / b in
  let hi := lo + 1 in
  let good c := bool_decide (float_of_decimal false (Z.to_N c) (d - n) = x) in
  let '(near, far) := if 2 * (a - lo * b) <=? b then (lo, hi) else (hi, lo) in
  if good near then Some near else if good far then Some far else None.

Fixpoint shortest (fuel : nat) (x : spec_float) (num den d n : Z) : Z * Z :=
  match fuel with
  | O => (0, d)
  | S f =>
      match decimal_candidate x num den d n with
      | Some c => (c, d - n)
      | None => shortest f x num den d (n + 1)
      end
  end.

Fixpoint strip_zeros (s : pystr) : pystr :=
  match s with
  | 48%N :: s' => strip_zeros s'
  | _ => s
  end.

Definition zeros (n : Z) : pystr := replicate (Z.to_nat n) 48%N.

(** [repr] layout: positional for exponents in [-4, 16), scientific otherwise. *)
Definition layout_digits (ds : pystr) (decpt : Z) : pystr :=
  let n := Z.of_nat (length ds) in
  if (-4 <? decpt) && (decpt <=? 16) then
    if decpt <=? 0 then lit "0." ++ zeros (- decpt) ++ ds
    else if n <=? decpt then ds ++ zeros (decpt - n) ++ lit ".0"
    else take (Z.to_nat decpt) ds ++ lit "." ++ drop (Z.to_nat decpt) ds
  else
    let e := decpt - 1 in
    let es := digits (Z.abs_N e) in
    take 1 ds ++ (if 1 <? n then lit "." ++ drop 1 ds else [])
    ++ lit (if e <? 0 then "e-" else "e+")
    ++ (if (length es <? 2)%nat then 48%N :: es else es).

Definition float_repr_abs (m : positive) (e : Z) : pystr :=
  let '(num, den) := fraction m e in
  let d := decimal_exponent num den in
  let '(c, x10) := shortest 18 (S754_finite false m e) num den d 1 in
  let all := digits (Z.to_N c) in
  layout_digits (reverse (strip_zeros (reverse all))) (Z.of_nat (length all) + x10).

(** [float.__repr__] of a finite float; the caller handles [nan] and [inf]. *)
Definition float_repr (x : spec_float) : pystr :=
  match x with
  | S754_zero s => lit (if s then "-0.0" else "0.0")
  | S754_infinity s => lit (if s then "-Infinity" else "Infinity")
  | S754_nan => lit "NaN"
  | S754_finite s m e => (if s then lit "-" else []) ++ float_repr_abs m e
  end.

(** Exact comparison of an integer with a float ([1 == 1.0]). *)
Definition int_eq_float (z : Z) (x : spec_float) : bool :=
  match x with
  | S754_zero _ => z =? 0
  | S754_finite s m e =>
      let '(num, den) := fraction m e in z * den =? (if s then - num else num)
  | _ => false
  end.

(** [round(x)]: nearest integer, ties to even; [None] is the [ValueError] or
    [OverflowError] of a NaN or an infinity. *)
Definition round_half_even (num den : Z) : Z :=
  let q := num / den in
  let r := num mod den in
  if 2 * r <? den then q else if den <? 2 * r then q + 1 else if Z.even q then q else q + 1.
Definition py_round (x : spec_float) : option Z :=
  match x with
  | S754_zero _ => Some 0
  | S754_finite s m e =>
      let '(num, den) := fraction m e in
      let n := round_half_even num den in Some (if s then - n else n)
  | _ => None
  end.

Definition float_ltb (x y : spec_float) : bool := SFltb x y.
Definition float_eqb (x y : spec_float) : bool := SFeqb x y.

(** ** [float(text)] *)

(** Underscores may stand only between two digits; [None] is the [ValueError]. *)
Fixpoint drop_underscores (prev_digit : bool) (s : pystr) : option pystr :=
  match s with
  | [] => Some []
  | c :: s' =>
      if (c =? 95)%N then
        match s' with
        | d :: _ => if prev_digit && is_digit d then drop_underscores false s' else None
        | [] => None
        end
      else cons c <$> drop_underscores (is_digit c) s'
  end.

Fixpoint span_digits (s : pystr) : pystr * pystr :=
  match s with
  | c :: s' => if is_digit c then let '(a, b) := span_digits s' in (c :: a, b) else ([], s)
  | [] => ([], [])
  end.

(** An exponent that ends the text. *)
Definition exponent_value (s : pystr) : option Z :=
  match s with
  | [] => Some 0
  | c :: r =>
      if negb ((c =? 101) || (c =? 69))%N then None else
      let '(neg, ds) := match r with
                        | d :: r' => if (d =? 45)%N then (true, r') else if (d =? 43)%N then (false, r') else (false, r)
                        | [] => (false, r)
                        end in
      if bool_decide (ds = []) || negb (forallb is_digit ds) then None else
      Some (if neg : bool then - Z.of_N (digits_value ds) else Z.of_N (digits_value ds))
  end.

Definition float_body (neg : bool) (s : pystr) : option spec_float :=
  let word := py_lower s in
  if bool_decide (word = lit "inf") || bool_decide (word = lit "infinity") then Some (S754_infinity neg)
  else if bool_decide (word = lit "nan") then Some S754_nan
  else
    let '(ip, r) := span_digits s in
    let '(fp, r') := match r with
                     | c :: r0 => if (c =? 46)%N then span_digits r0 else ([], r)
                     | [] => ([], r)
                     end in
    if bool_decide (ip ++ fp = []) then None else
    e ← exponent_value r';
    Some (float_of_decimal neg (digits_value (ip ++ fp)) (e - Z.of_nat (length fp))).

Definition py_float (s : pystr) : option spec_float :=
  t ← drop_underscores false (py_strip s);
  if starts_with (lit "-") t then float_body true (drop 1 t)
  else float_body false (if starts_with (lit "+") t then drop 1 t else t).

(** [float(n)] of an integer; [None] is the [OverflowError]. *)
Definition float_of_int (n : Z) : option spec_float :=
  match binary_normalize prec emax n 0 false with
  | S754_infinity _ | S754_nan => None
  | f => Some f
  end.

(** [int(x)]: truncation; the error is [None] of an infinity or a NaN. *)
Definition trunc_float (x : spec_float) : option Z :=
  match x with
  | S754_zero _ => Some 0
  | S754_finite s m e =>
      let '(num, den) := fraction m e in Some (if s then - (num / den) else num / den)
  | _ => None
  end.

Example py_float_samples :
  py_float (lit " 1_0.5e-1 ") = Some (float_of_decimal false 105 (-2))
  ∧ py_float (lit "-.5") = Some (float_of_decimal true 5 (-1))
  ∧ py_float (lit "+Infinity") = Some (S754_infinity false)
  ∧ py_float (lit "1__0") = None ∧ py_float (lit "1e") = None ∧ py_float (lit ".") = None.
Proof. repeat split; vm_compute; reflexivity. Qed.

Example float_repr_samples :
  float_repr (float_of_decimal false 1 (-1)) = lit "0.1"
  ∧ float_repr (float_of_decimal true 25 (-1)) = lit "-2.5"
  ∧ float_repr (float_of_decimal false 1 22) = lit "1e+22"
  ∧ float_repr (float_of_decimal false 12345 (-9)) = lit "1.2345e-05"
  ∧ float_repr (float_of_decimal false 5684341886080801 (-29)) = lit "5.684341886080801e-14"
  ∧ float_repr (float_of_decimal false 9007199254740993 0) = lit "9007199254740992.0".
Proof. repeat split; vm_compute; reflexivity. Qed.
