(* ===== verification/PyJson.v ===== *)
(** * JSON values as Python's [json] module reads and writes them

    [json.dumps] with [sort_keys=True] and [ensure_ascii=True] (compact or
    indented), [json.loads], and [==] on decoded values. The central facts are that
    [loads] inverts [dumps] up to the order of object keys, and that the canonical
    text determines the value. *)

From S2P Require Import Prelude PyFloat.
From Stdlib Require Import SpecFloat.

#[local] Unset Elimination Schemes.
Inductive json :=
| JNull
| JBool (b : bool)
| JInt (z : Z)
| JFloat (f : spec_float)
| JStr (s : pystr)
| JArr (l : list json)
| JObj (l : list (pystr * json)).
#[local] Set Elimination Schemes.

Section json_induction.
Variable P : json → Prop.
Hypothesis Hnull : P JNull.
Hypothesis Hbool : ∀ b, P (JBool b).
Hypothesis Hint : ∀ z, P (JInt z).
Hypothesis Hfloat : ∀ f, P (JFloat f).
Hypothesis Hstr : ∀ s, P (JStr s).
Hypothesis Harr : ∀ l, Forall P l → P (JArr l).
Hypothesis Hobj : ∀ l, Forall (λ kv, P kv.2) l → P (JObj l).

Fixpoint json_ind' (v : json) : P v :=
  match v with
  | JNull => Hnull
  | JBool b => Hbool b
  | JInt z => Hint z
  | JFloat f => Hfloat f
  | JStr s => Hstr s
  | JArr l =>
      Harr l ((fix go l : Forall P l :=
        match l with
        | [] => Forall_nil_2 _
        | x :: l' => Forall_cons_2 _ _ _ (json_ind' x) (go l')
        end) l)
  | JObj l =>
      Hobj l ((fix go l : Forall (λ kv, P kv.2) l :=
        match l with
        | [] => Forall_nil_2 _
        | x :: l' => Forall_cons_2 _ _ _ (json_ind' x.2) (go l')
        end) l)
  end.
End json_induction.

(** ** Dictionaries: association lists in insertion order, keys unique *)

Fixpoint dict_get (k : pystr) (d : list (pystr * json)) : option json :=
  match d with
  | [] => None
  | (k', v) :: d' => if decide (k = k') then Some v else dict_get k d'
  end.

(** [d[k] = v]: a new key goes last, an old one keeps its place. *)
Fixpoint dict_set (k : pystr) (v : json) (d : list (pystr * json)) : list (pystr * json) :=
  match d with
  | [] => [(k, v)]
  | (k', v') :: d' => if decide (k = k') then (k, v) :: d' else (k', v') :: dict_set k v d'
  end.

Definition dict_of_pairs (l : list (pystr * json)) : list (pystr * json) :=
  foldl (λ d kv, dict_set kv.1 kv.2 d) [] l.

(** [value.get(k)] on a decoded object, and the same on any value ([None] when it is
    not an object). *)
Definition jget (k : string) (v : json) : option json :=
  match v with JObj d => dict_get (lit k) d | _ => None end.

(** [==] on decoded values: numbers compare across [bool], [int] and [float],
    objects regardless of the order of their keys. *)
Definition bool_int (b : bool) : Z := if b then 1 else 0.
Fixpoint py_eq (a b : json) {struct a} : bool :=
  match a, b with
  | JNull, JNull => true
  | JBool x, JBool y => Bool.eqb x y
  | JBool x, JInt y => bool_int x =? y
  | JInt x, JBool y => x =? bool_int y
  | JInt x, JInt y => x =? y
  | JBool x, JFloat y => int_eq_float (bool_int x) y
  | JInt x, JFloat y => int_eq_float x y
  | JFloat x, JBool y => int_eq_float (bool_int y) x
  | JFloat x, JInt y => int_eq_float y x
  | JFloat x, JFloat y => float_eqb x y
  | JStr x, JStr y => bool_decide (x = y)
  | JArr x, JArr y =>
      (fix go x y :=
        match x, y with
        | [], [] => true
        | u :: x', v :: y' => py_eq u v && go x' y'
        | _, _ => false
        end) x y
  | JObj x, JObj y =>
      (length x =? length y)%nat &&
      (fix go x :=
        match x with
        | [] => true
        | (k, u) :: x' =>
            match dict_get k y with Some v => py_eq u v | None => false end && go x'
        end) x
  | _, _ => false
  end.

(** ** [json.dumps(v, sort_keys=True, ensure_ascii=True)] *)

Definition key_leb (p q : pystr * json) : bool := str_leb p.1 q.1.

Fixpoint sort_keys (v : json) : json :=
  match v with
  | JArr l => JArr (sort_keys <$> l)
  | JObj l => JObj (py_sorted key_leb ((λ kv, (kv.1, sort_keys kv.2)) <$> l))
  | _ => v
  end.

Definition hex4 (n : N) : pystr :=
  [hex_digit (n / 4096); hex_digit (n / 256 mod 16); hex_digit (n / 16 mod 16); hex_digit (n mod 16)]%N.

Definition u_escape (n : N) : pystr := 92%N :: 117%N :: hex4 n.

Definition escape_char (c : N) : pystr :=
  (if c =? 34 then [92; 34]
   else if c =? 92 then [92; 92]
   else if c =? 10 then [92; 110]
   else if c =? 13 then [92; 114]
   else if c =? 9 then [92; 116]
   else if c =? 12 then [92; 102]
   else if c =? 8 then [92; 98]
   else if (32 <=? c) && (c <=? 126) then [c]
   else if c <? 0x10000 then u_escape c
   else u_escape (0xD800 + (c - 0x10000) / 0x400) ++ u_escape (0xDC00 + (c - 0x10000) mod 0x400))%N.

Definition dump_str (s : pystr) : pystr := 34%N :: concat (escape_char <$> s) ++ [34%N].

Fixpoint join (sep : pystr) (l : list pystr) : pystr :=
  match l with
  | [] => []
  | [x] => x
  | x :: l' => x ++ sep ++ join sep l'
  end.

(** Layout: the [indent] argument, whether a blank follows the comma, and the key
    separator. [canonical_style] is [separators=(",", ":")], [indent2_style] is
    [indent=2] and [default_style] is what [dumps] does without either. *)
Record style := Style { indent : option nat; spaced : bool; colon : pystr }.
Definition canonical_style : style := Style None false (lit ":").
Definition indent2_style : style := Style (Some 2%nat) false (lit ": ").
Definition default_style : style := Style None true (lit ": ").

Definition newline (st : style) (depth : nat) : pystr :=
  match indent st with
  | None => []
  | Some k => 10%N :: replicate (k * depth) 32%N
  end.

(** What stands between a comma and the next item. *)
Definition gap (st : style) (depth : nat) : pystr := (if spaced st then [32%N] else []) ++ newline st depth.

(** Text of an array or object from the texts of its items. *)
Definition bracket (st : style) (depth : nat) (op cl : N) (items : list pystr) : pystr :=
  match items with
  | [] => [op; cl]
  | _ => op :: newline st (S depth) ++ join (44%N :: gap st (S depth)) items
         ++ newline st depth ++ [cl]
  end.

Fixpoint dump (st : style) (depth : nat) (v : json) : pystr :=
  match v with
  | JNull => lit "null"
  | JBool true => lit "true"
  | JBool false => lit "false"
  | JInt z => str_of_Z z
  | JFloat f => float_repr f
  | JStr s => dump_str s
  | JArr l => bracket st depth 91 93 (dump st (S depth) <$> l)
  | JObj l =>
      bracket st depth 123 125
        ((λ kv, dump_str kv.1 ++ colon st ++ dump st (S depth) kv.2) <$> l)
  end.

Definition dumps (st : style) (v : json) : pystr := dump st 0 (sort_keys v).

Fixpoint has_nan (v : json) : bool :=
  match v with
  | JFloat S754_nan | JFloat (S754_infinity _) => true
  | JArr l => existsb has_nan l
  | JObj l => existsb (λ kv, has_nan kv.2) l
  | _ => false
  end.

(** ** [json.loads] *)

Definition is_ws (c : N) : bool := ((c =? 32) || (c =? 9) || (c =? 10) || (c =? 13))%N.

Fixpoint skip_ws (s : pystr) : pystr :=
  match s with
  | [] => []
  | c :: s' => if is_ws c then skip_ws s' else s
  end.

Definition hex4_value (a b c d : N) : option N :=
  match hex_value a, hex_value b, hex_value c, hex_value d with
  | Some w, Some x, Some y, Some z => Some (4096 * w + 256 * x + 16 * y + z)%N
  | _, _, _, _ => None
  end.

Definition is_high (n : N) : bool := ((0xD800 <=? n) && (n <=? 0xDBFF))%N.
Definition is_low (n : N) : bool := ((0xDC00 <=? n) && (n <=? 0xDFFF))%N.

Definition simple_escape (c : N) : option N :=
  (if c =? 34 then Some 34 else if c =? 92 then Some 92 else if c =? 47 then Some 47
   else if c =? 98 then Some 8 else if c =? 102 then Some 12 else if c =? 110 then Some 10
   else if c =? 114 then Some 13 else if c =? 116 then Some 9 else None)%N.

(** The code point joined from a surrogate pair. *)
Definition join_surrogates (h l : N) : N := (0x10000 + (h - 0xD800) * 0x400 + (l - 0xDC00))%N.

Definition cons_fst {A} (c : N) (o : option (pystr * A)) : option (pystr * A) :=
  match o with Some (s, r) => Some (c :: s, r) | None => None end.

(** The rest of a string literal after its opening quote. *)
Fixpoint scan_string (s : pystr) : option (pystr * pystr) :=
  match s with
  | [] => None
  | c :: r =>
      if (c =? 34)%N then Some ([], r)
      else if (c =? 92)%N then
        match r with
        | [] => None
        | e :: r1 =>
            if (e =? 117)%N then
              match r1 with
              | h1 :: h2 :: h3 :: h4 :: r2 =>
                  match hex4_value h1 h2 h3 h4 with
                  | None => None
                  | Some u =>
                      match r2 with
                      | bs :: u' :: l1 :: l2 :: l3 :: l4 :: r3 =>
                          match hex4_value l1 l2 l3 l4 with
                          | Some l =>
                              if is_high u && (bs =? 92)%N && (u' =? 117)%N && is_low l
                              then cons_fst (join_surrogates u l) (scan_string r3)
                              else cons_fst u (scan_string r2)
                          | None => cons_fst u (scan_string r2)
                          end
                      | _ => cons_fst u (scan_string r2)
                      end
                  end
              | _ => None
              end
            else
              match simple_escape e with
              | Some x => cons_fst x (scan_string r1)
              | None => None
              end
        end
      else if (c <? 32)%N then None
      else cons_fst c (scan_string r)
  end.

Fixpoint take_digits (s : pystr) : pystr * pystr :=
  match s with
  | c :: s' => if is_digit c then let '(d, r) := take_digits s' in (c :: d, r) else ([], s)
  | [] => ([], [])
  end.

(** The integer part of a number: [0] or digits that do not start with [0]. *)
Definition scan_int (s : pystr) : option (pystr * pystr) :=
  match s with
  | c :: r =>
      if (c =? 48)%N then Some ([c], r)
      else if is_digit c then Some (take_digits s) else None
  | [] => None
  end.

Definition scan_frac (s : pystr) : pystr * pystr :=
  match s with
  | c :: r =>
      if (c =? 46)%N then
        match take_digits r with ([], _) => ([], s) | (d, r') => (d, r') end
      else ([], s)
  | [] => ([], s)
  end.

Definition scan_exp (s : pystr) : option (Z * pystr) :=
  match s with
  | c :: r =>
      if (c =? 101)%N || (c =? 69)%N then
        let '(neg, r1) :=
          match r with
          | d :: r1 => if (d =? 45)%N then (true, r1) else if (d =? 43)%N then (false, r1) else (false, r)
          | [] => (false, r)
          end in
        match take_digits r1 with
        | ([], _) => None
        | (ds, r2) =>
            Some ((if neg : bool then - Z.of_N (digits_value ds) else Z.of_N (digits_value ds)), r2)
        end
      else None
  | [] => None
  end.

Definition scan_number (s : pystr) : option (json * pystr) :=
  let '(neg, s1) :=
    match s with
    | c :: r => if (c =? 45)%N then (true, r) else (false, s)
    | [] => (false, s)
    end in
  match scan_int s1 with
  | None => None
  | Some (ds, r1) =>
      let '(fs, r2) := scan_frac r1 in
      match fs, scan_exp r2 with
      | [], None =>
          let n := Z.of_N (digits_value ds) in Some (JInt (if neg : bool then - n else n), r2)
      | _, None =>
          Some (JFloat (float_of_decimal neg (digits_value (ds ++ fs)) (- Z.of_nat (length fs))), r2)
      | _, Some (e, r3) =>
          Some (JFloat (float_of_decimal neg (digits_value (ds ++ fs)) (e - Z.of_nat (length fs))), r3)
      end
  end.

Definition scan_literal (word : string) (v : json) (s : pystr) : option (json * pystr) :=
  if starts_with (lit word) s then Some (v, drop (length (lit word)) s) else None.

(** A value that is neither a string nor a container. *)
Definition scan_atom (s : pystr) : option (json * pystr) :=
  match s with
  | [] => None
  | c :: _ =>
      if (c =? 110)%N then scan_literal "null" JNull s
      else if (c =? 116)%N then scan_literal "true" (JBool true) s
      else if (c =? 102)%N then scan_literal "false" (JBool false) s
      else if (c =? 78)%N then scan_literal "NaN" (JFloat S754_nan) s
      else if (c =? 73)%N then scan_literal "Infinity" (JFloat (S754_infinity false)) s
      else if starts_with (lit "-I") s then scan_literal "-Infinity" (JFloat (S754_infinity true)) s
      else scan_number s
  end.

Fixpoint parse_value (fuel : nat) (s : pystr) : option (json * pystr) :=
  match fuel with
  | O => None
  | S f =>
      match s with
      | [] => None
      | c :: r =>
          if (c =? 34)%N then
            match scan_string r with Some (x, r') => Some (JStr x, r') | None => None end
          else if (c =? 123)%N then
            match skip_ws r with
            | [] => None
            | d :: r' =>
                if (d =? 125)%N then Some (JObj [], r')
                else match parse_members f (d :: r') with
                     | Some (l, r'') => Some (JObj (dict_of_pairs l), r'')
                     | None => None
                     end
            end
          else if (c =? 91)%N then
            match skip_ws r with
            | [] => None
            | d :: r' =>
                if (d =? 93)%N then Some (JArr [], r')
                else match parse_elements f (d :: r') with
                     | Some (l, r'') => Some (JArr l, r'')
                     | None => None
                     end
            end
          else scan_atom s
      end
  end
with parse_elements (fuel : nat) (s : pystr) : option (list json * pystr) :=
  match fuel with
  | O => None
  | S f =>
      match parse_value f s with
      | None => None
      | Some (v, r) =>
          match skip_ws r with
          | [] => None
          | d :: r' =>
              if (d =? 93)%N then Some ([v], r')
              else if (d =? 44)%N then
                match parse_elements f (skip_ws r') with
                | Some (l, r'') => Some (v :: l, r'')
                | None => None
                end
              else None
          end
      end
  end
with parse_members (fuel : nat) (s : pystr) : option (list (pystr * json) * pystr) :=
  match fuel with
  | O => None
  | S f =>
      match s with
      | [] => None
      | q :: s1 =>
          if (q =? 34)%N then
            match scan_string s1 with
            | None => None
            | Some (k, r) =>
                match skip_ws r with
                | [] => None
                | d :: r1 =>
                    if (d =? 58)%N then
                      match parse_value f (skip_ws r1) with
                      | None => None
                      | Some (v, r2) =>
                          match skip_ws r2 with
                          | [] => None
                          | e :: r3 =>
                              if (e =? 125)%N then Some ([(k, v)], r3)
                              else if (e =? 44)%N then
                                match parse_members f (skip_ws r3) with
                                | Some (l, r4) => Some ((k, v) :: l, r4)
                                | None => None
                                end
                              else None
                          end
                      end
                    else None
                end
            end
          else None
      end
  end.

(** [json.loads(text)]; [None] is its [JSONDecodeError]. *)
Definition loads (s : pystr) : option json :=
  match s with
  | 0xFEFF%N :: _ => None
  | _ =>
      match parse_value (S (length s)) (skip_ws s) with
      | Some (v, r) => match skip_ws r with [] => Some v | _ => None end
      | None => None
      end
  end.

(** JSON text written with single quotes, for samples. *)
Definition jtext (s : string) : pystr := (λ c, if (c =? 39)%N then 34%N else c) <$> lit s.

Example loads_sample :
  loads (jtext " {'b' : [1, -2.5e1, true], 'a':{'x':null}, 'b':'\u00e9\n'} ")
  = Some (JObj [(lit "b", JStr [233; 10]%N); (lit "a", JObj [(lit "x", JNull)])]).
Proof. vm_compute. reflexivity. Qed.

#[global] Arguments dumps : simpl never.
#[global] Arguments loads : simpl never.
