(* ===== verification/PyJsonFacts.v ===== *)
(** * [json.loads] inverts [json.dumps]

    The round trip for values without floats whose strings are Unicode scalar
    values, the key sort that [dumps] performs, and injectivity of the canonical
    text, which is what makes a digest of it identify the value. *)

From S2P Require Import Prelude PyFloat PyJson.

(** A Unicode scalar value: any code point except the surrogates. *)
Definition scalar (c : N) : bool :=
  ((c <? 0xD800) || (0xDFFF <? c) && (c <? 0x110000))%N.

Fixpoint exact (v : json) : bool :=
  match v with
  | JFloat _ => false
  | JStr s => forallb scalar s
  | JArr l => forallb exact l
  | JObj l => forallb (λ kv, forallb scalar kv.1 && exact kv.2) l && negb (has_dups (fst <$> l))
  | _ => true
  end.

(** ** Hexadecimal digits *)

Lemma hex_value_digit n : (n < 16)%N → hex_value (hex_digit n) = Some n.
Proof.
  intros. unfold hex_value, hex_digit.
  destruct (N.ltb_spec n 10); repeat (case_match; guards; rewrite ?N.leb_le, ?N.leb_gt, ?andb_false_iff in *);
    f_equal; try lia.
Qed.

Lemma hex4_value_hex4 n : (n < 65536)%N →
  hex4_value (hex_digit (n / 4096)) (hex_digit (n / 256 mod 16)) (hex_digit (n / 16 mod 16))
    (hex_digit (n mod 16)) = Some n.
Proof.
  intros. unfold hex4_value. rewrite !hex_value_digit by lia. f_equal. lia.
Qed.

(** ** String literals *)

Lemma scan_u_escape n r : (n < 65536)%N → is_high n = false →
  scan_string (u_escape n ++ r) = cons_fst n (scan_string r).
Proof.
  intros Hn Hh. unfold u_escape, hex4. cbn [app scan_string N.eqb Pos.eqb].
  rewrite hex4_value_hex4 by done.
  destruct r as [|? [|? [|? [|? [|? [|? r]]]]]]; try done.
  rewrite Hh; simpl. by destruct (hex4_value _ _ _ _).
Qed.

Lemma scan_u_pair h l r : (h < 65536)%N → (l < 65536)%N → is_high h = true → is_low l = true →
  scan_string (u_escape h ++ u_escape l ++ r) = cons_fst (join_surrogates h l) (scan_string r).
Proof.
  intros Hn Hl Hh Hlow. unfold u_escape, hex4. cbn [app scan_string N.eqb Pos.eqb].
  rewrite !hex4_value_hex4 by done. by rewrite Hh, Hlow.
Qed.

Lemma scan_escape c r : scalar c = true →
  scan_string (escape_char c ++ r) = cons_fst c (scan_string r).
Proof.
  unfold scalar, escape_char. intros Hs.
  repeat (case_match; [match goal with H : (_ =? _)%N = true |- _ => apply N.eqb_eq in H as -> end;
    reflexivity|]).
  destruct ((32 <=? c)%N && (c <=? 126)%N) eqn:Hp.
  { guards. rewrite N.leb_le in *. cbn [app scan_string].
    rewrite H, H0. destruct (N.ltb_spec c 32); [lia|done]. }
  assert (is_high c = false) as Hh.
  { unfold is_high. apply andb_false_iff. rewrite !N.leb_gt.
    apply orb_true_iff in Hs as [Hs|[Hs ?]%andb_true_iff]; rewrite ?N.ltb_lt in *; lia. }
  destruct (N.ltb_spec c 0x10000); [by apply scan_u_escape|].
  assert (c < 0x110000)%N.
  { apply orb_true_iff in Hs as [Hs|[_ Hs]%andb_true_iff]; rewrite ?N.ltb_lt in *; lia. }
  rewrite <- app_assoc.
  assert ((c - 0x10000) / 0x400 < 0x400)%N by (apply N.Div0.div_lt_upper_bound; lia).
  pose proof (N.mod_lt (c - 0x10000) 0x400 ltac:(lia)).
  rewrite scan_u_pair; try (unfold is_high, is_low; rewrite ?andb_true_iff, ?N.leb_le); try lia.
  f_equal. unfold join_surrogates. pose proof (N.div_mod' (c - 0x10000) 0x400). lia.
Qed.

Lemma scan_string_dump s r : forallb scalar s = true →
  scan_string (concat (escape_char <$> s) ++ 34%N :: r) = Some (s, r).
Proof.
  induction s as [|c s IH]; csimpl; intros Hs; [done|]. guards.
  rewrite <- app_assoc, scan_escape by done. by rewrite IH.
Qed.

(** ** Integers *)

Definition all_digits (s : pystr) : Prop := Forall (λ c, is_digit c = true) s.

Lemma digits_value_app s t : digits_value (s ++ t) = foldl (λ acc c, 10 * acc + (c - 48))%N (digits_value s) t.
Proof. unfold digits_value. by rewrite foldl_app. Qed.

Lemma digit_char_ok n : (n < 10)%N → is_digit (48 + n) = true.
Proof. intros. unfold is_digit. rewrite andb_true_iff, !N.leb_le. lia. Qed.

(** What [str] writes for a natural number: digits, of that value, without a leading zero. *)
Definition decimal (n : N) (s : pystr) : Prop :=
  all_digits s ∧ digits_value s = n ∧ s ≠ [] ∧ (n ≠ 0%N → head s ≠ Some 48%N) ∧ (n = 0%N → s = [48%N]).

Lemma decimal_step n s : (10 <= n)%N → decimal (n / 10) s → decimal n (s ++ [(48 + n mod 10)%N]).
Proof.
  intros Hn (Hd & Hv & Hne & Hz & _).
  assert (n / 10 ≠ 0)%N by (intros ?%N.div_small_iff; lia).
  repeat split; [..|intros; lia].
  - apply Forall_app; split; [done|]. constructor; [|constructor].
    apply digit_char_ok, N.mod_lt. lia.
  - rewrite digits_value_app, Hv. simpl. pose proof (N.div_mod' n 10). lia.
  - by destruct s.
  - intros _. destruct s; [done|]. auto.
Qed.

Lemma digits_fuel_spec f n acc : (N.to_nat (N.log2 n) < f)%nat →
  ∃ s, digits_fuel f n acc = s ++ acc ∧ decimal n s.
Proof.
  revert n acc. induction f as [|f IH]; intros n acc Hf; [lia|]. simpl.
  destruct (N.ltb_spec n 10) as [Hn|Hn].
  - exists [(48 + n mod 10)%N]. split; [done|]. rewrite N.mod_small by done.
    repeat split; try done.
    + constructor; [by apply digit_char_ok|constructor].
    + unfold digits_value. simpl. lia.
    + intros ? [= ?]. lia.
    + intros ->. done.
  - assert (N.log2 (n / 10) < N.log2 n)%N.
    { assert (0 < n / 10)%N by (apply N.div_str_pos; lia).
      apply N.log2_lt_pow2; [done|].
      pose proof (N.log2_spec n ltac:(lia)) as [_ Hup]. rewrite N.pow_succ_r' in Hup.
      apply N.Div0.div_lt_upper_bound. lia. }
    destruct (IH (n / 10)%N ((48 + n mod 10)%N :: acc) ltac:(lia)) as (s & Hs & Hdec).
    exists (s ++ [(48 + n mod 10)%N]). rewrite Hs, <- app_assoc. split; [done|].
    by apply decimal_step.
Qed.

Lemma digits_decimal n : decimal n (digits n).
Proof.
  unfold digits. destruct (digits_fuel_spec (S (N.to_nat (N.log2 n))) n [] ltac:(lia)) as (s & Hs & ?).
  by rewrite Hs, app_nil_r.
Qed.

(** Text that cannot continue a number. *)
Definition number_end (r : pystr) : Prop :=
  match r with
  | [] => True
  | c :: _ => is_digit c = false ∧ (c =? 46 = false)%N ∧ (c =? 101 = false)%N ∧ (c =? 69 = false)%N
  end.

Lemma take_digits_app s r : all_digits s → number_end r → take_digits (s ++ r) = (s, r).
Proof.
  intros Hs Hr. induction Hs as [|c s Hc Hs IH]; simpl.
  - destruct r as [|c r]; [done|]. destruct Hr as [Hr _]. simpl. by rewrite Hr.
  - by rewrite Hc, IH.
Qed.

Lemma scan_int_digits n r : number_end r → scan_int (digits n ++ r) = Some (digits n, r).
Proof.
  intros Hr. pose proof (digits_decimal n) as (Hd & Hv & Hne & Hz & H0).
  destruct (decide (n = 0%N)) as [->|Hn]; [by rewrite H0|].
  destruct (digits n) as [|c s] eqn:E; [done|].
  cbn [scan_int app]. destruct (N.eqb_spec c 48); [subst; by destruct (Hz Hn)|].
  rewrite (Forall_inv Hd). f_equal. exact (take_digits_app (c :: s) r Hd Hr).
Qed.

Lemma number_end_stop r : number_end r → scan_frac r = ([], r) ∧ scan_exp r = None.
Proof. destruct r as [|c r]; [done|]. intros (? & Hd & He & HE). simpl. by rewrite Hd, He, HE. Qed.

Lemma digits_head n : ∃ c s, digits n = c :: s ∧ is_digit c = true.
Proof.
  pose proof (digits_decimal n) as (Hd & _ & Hne & _). destruct (digits n) as [|c s]; [done|].
  inversion Hd; eauto.
Qed.

Lemma is_digit_range c : is_digit c = true → (48 <= c <= 57)%N.
Proof. unfold is_digit. rewrite andb_true_iff, !N.leb_le. done. Qed.

Lemma scan_number_str z r : number_end r → scan_number (str_of_Z z ++ r) = Some (JInt z, r).
Proof.
  intros Hr. pose proof (number_end_stop r Hr) as [Hf He].
  unfold scan_number, str_of_Z. destruct (Z.ltb_spec z 0).
  - simpl. rewrite scan_int_digits, Hf, He by done.
    destruct (digits_decimal (Z.abs_N z)) as (_ & -> & _). do 3 f_equal. lia.
  - destruct (digits_head (Z.to_N z)) as (c & s & E & Hc). pose proof (is_digit_range c Hc).
    rewrite E. simpl. destruct (N.eqb_spec c 45); [lia|].
    change (c :: s ++ r) with ((c :: s) ++ r). rewrite <- E, scan_int_digits, Hf, He by done.
    destruct (digits_decimal (Z.to_N z)) as (_ & -> & _). do 3 f_equal. lia.
Qed.

(** ** White space and layout *)

Definition blank (w : pystr) : Prop := forallb is_ws w = true.

Definition style_ok (st : style) : Prop := ∃ w, colon st = 58%N :: w ∧ blank w.

Lemma canonical_style_ok : style_ok canonical_style.
Proof. by exists []. Qed.
Lemma indent2_style_ok : style_ok indent2_style.
Proof. by exists [32%N]. Qed.

Lemma default_style_ok : style_ok default_style.
Proof. by exists [32%N]. Qed.

Lemma newline_blank st d : blank (newline st d).
Proof.
  unfold newline, blank. destruct (indent st) as [k|]; [simpl|done].
  generalize (k * d)%nat. intros n. induction n; [done|]. simpl. done.
Qed.

Lemma gap_blank st d : blank (gap st d).
Proof. unfold gap, blank. rewrite forallb_app. apply andb_true_iff. split; [by destruct (spaced st)|apply newline_blank]. Qed.

Lemma skip_blank w s : blank w → skip_ws (w ++ s) = skip_ws s.
Proof. unfold blank. induction w as [|c w IH]; simpl; [done|]. intros; guards. by rewrite H, IH. Qed.

Lemma skip_ws_stop c s : is_ws c = false → skip_ws (c :: s) = c :: s.
Proof. simpl. by intros ->. Qed.

Lemma number_end_blank w c r : blank w → number_end (c :: r) → number_end (w ++ c :: r).
Proof.
  unfold blank. destruct w as [|x w]; [done|]. simpl. intros; guards.
  unfold is_ws in *. repeat match goal with H : (_ || _) = true |- _ => apply orb_true_iff in H as [H|H] end;
    apply N.eqb_eq in H as ->; done.
Qed.

Create HintDb json.
#[export] Hint Resolve newline_blank gap_blank default_style_ok canonical_style_ok indent2_style_ok : json.

(** ** The first character of a value *)

Definition value_start (c : N) : Prop :=
  is_ws c = false ∧ (c =? 93)%N = false ∧ (c =? 125)%N = false.

Lemma dump_start st d v : exact v = true → ∃ c s, dump st d v = c :: s ∧ value_start c.
Proof.
  destruct v as [|[]|z|f|s|l|l]; intros Hv; try (eexists _, _; split; [reflexivity|done]); [..|done| |].
  - simpl. unfold str_of_Z. destruct (z <? 0); [by eexists _, _|].
    destruct (digits_head (Z.to_N z)) as (c & s & -> & Hc%is_digit_range).
    eexists _, _; split; [done|]. unfold value_start, is_ws.
    rewrite !orb_false_iff, !N.eqb_neq. lia.
  - simpl. unfold bracket. destruct (_ <$> l); by eexists _, _.
  - simpl. unfold bracket. destruct (_ <$> l); by eexists _, _.
Qed.

Definition parses (v : json) : Prop := ∀ st d f r,
  style_ok st → exact v = true → (length (dump st d v) <= f)%nat → number_end r →
  parse_value f (dump st d v ++ r) = Some (v, r).

Lemma parses_int z : parses (JInt z).
Proof.
  intros st d f r _ _ Hf Hr. cbn [dump] in *.
  assert (∃ c s, str_of_Z z = c :: s ∧ (c = 45%N ∧ (∃ c' s', s = c' :: s' ∧ is_digit c' = true)
    ∨ is_digit c = true)) as (c & s & E & Hc).
  { unfold str_of_Z. destruct (digits_head (Z.abs_N z)) as (c & s & E & Hd).
    destruct (digits_head (Z.to_N z)) as (c' & s' & E' & Hd').
    destruct (z <? 0); eexists _, _; split; [done| |done|by right].
    left. split; [done|]. by eexists _, _. }
  pose proof (scan_number_str z r Hr) as Hn. rewrite E in *. destruct f as [|f]; [simpl in Hf; lia|].
  assert (starts_with (lit "-I") ((c :: s) ++ r) = false) as HI.
  { destruct Hc as [(-> & c' & s' & -> & Hd%is_digit_range)|Hd%is_digit_range].
    - change (starts_with _ _) with ((73 =? c')%N && true).
      apply andb_false_iff. left. apply N.eqb_neq. lia.
    - change (starts_with _ _) with ((45 =? c)%N && starts_with (lit "I") (s ++ r)).
      apply andb_false_iff. left. apply N.eqb_neq. lia. }
  assert (c = 45 ∨ (48 <= c <= 57))%N as Hc' by (destruct Hc as [[-> _]|?%is_digit_range]; auto).
  cbn [parse_value app] in *. unfold scan_atom.
  rewrite HI, Hn.
  repeat match goal with
  | |- context [ (c =? ?k)%N ] => destruct (N.eqb_spec c k); [lia|]
  end.
  done.
Qed.

Lemma parses_str s : parses (JStr s).
Proof.
  intros st d f r _ Hs Hf _. destruct f as [|f]; [simpl in Hf; lia|].
  cbn [dump]. unfold dump_str. cbn [app parse_value N.eqb Pos.eqb].
  rewrite <- app_assoc. simpl. by rewrite scan_string_dump.
Qed.

Lemma join_cons sep x y l : join sep (x :: y :: l) = x ++ sep ++ join sep (y :: l).
Proof. done. Qed.

(** A list of items after its first character is known not to be skipped. *)
Lemma skip_ws_join sep c s l x : is_ws c = false → skip_ws (join sep ((c :: s) :: l) ++ x) = join sep ((c :: s) :: l) ++ x.
Proof. intros. destruct l; by apply skip_ws_stop. Qed.

Lemma parse_elements_join st d l r f : style_ok st →
  Forall parses l → forallb exact l = true → l ≠ [] →
  (length (join (44%N :: gap st (S d)) (dump st (S d) <$> l)) < f)%nat →
  parse_elements f (join (44%N :: gap st (S d)) (dump st (S d) <$> l)
    ++ newline st d ++ 93%N :: r) = Some (l, r).
Proof.
  intros Hst HP. revert f. induction HP as [|v l Hv HP IH]; intros f He Hne Hf; [done|].
  apply andb_true_iff in He as [He1 He2]. destruct f as [|f]; [lia|]. cbn [parse_elements].
  rewrite fmap_cons in *. destruct l as [|v' l].
  - cbn [fmap list_fmap join] in *. rewrite Hv; [|done|done|lia|by apply number_end_blank; auto with json].
    by rewrite skip_blank by auto with json.
  - rewrite fmap_cons, join_cons, !length_app in *. cbn [length] in Hf.
    rewrite <- !app_assoc. cbn [app]. rewrite Hv; [|done|done|lia|done].
    rewrite skip_ws_stop by done. cbn [N.eqb Pos.eqb].
    destruct (dump_start st (S d) v') as (c & s & E & Hc & _); [by apply andb_true_iff in He2 as [? _]|].
    rewrite skip_blank by auto with json. rewrite E in *. rewrite skip_ws_join by done.
    by rewrite IH by (done || lia).
Qed.

Lemma parse_members_join st d l r f : style_ok st →
  Forall (λ kv, parses kv.2) l → forallb (λ kv, forallb scalar kv.1 && exact kv.2) l = true → l ≠ [] →
  let item kv := dump_str kv.1 ++ colon st ++ dump st (S d) kv.2 in
  (length (join (44%N :: gap st (S d)) (item <$> l)) < f)%nat →
  parse_members f (join (44%N :: gap st (S d)) (item <$> l)
    ++ newline st d ++ 125%N :: r) = Some (l, r).
Proof.
  intros Hst HP He Hne item. destruct Hst as (w & Hcol & Hw) eqn:E0. clear E0. revert f He Hne.
  induction HP as [|[k v] l Hv HP IH]; intros f He Hne Hf; [done|]. simpl in Hv.
  apply andb_true_iff in He as [[Hk He1]%andb_true_iff He2].
  destruct f as [|f]; [lia|]. rewrite fmap_cons in *.
  assert (∀ x, item (k, v) ++ x
    = 34%N :: concat (escape_char <$> k) ++ 34%N :: 58%N :: w ++ dump st (S d) v ++ x) as Hitem.
  { intros x. unfold item, dump_str. rewrite Hcol. cbn [fst snd app].
    rewrite <- !app_assoc. cbn [app]. by rewrite <- ?app_assoc. }
  destruct (dump_start st (S d) v He1) as (c & s & E & Hc & _).
  assert (length (dump st (S d) v) < length (item (k, v)))%nat.
  { unfold item, dump_str. simpl. rewrite !length_app. lia. }
  assert (∀ x, skip_ws (w ++ dump st (S d) v ++ x) = dump st (S d) v ++ x) as Hsk.
  { intros x. rewrite skip_blank, E by done. by apply skip_ws_stop. }
  destruct l as [|kv' l].
  - cbn [fmap list_fmap join] in *. rewrite Hitem. cbn [parse_members N.eqb Pos.eqb].
    rewrite scan_string_dump by done. rewrite skip_ws_stop by done. cbn [N.eqb Pos.eqb].
    rewrite Hsk, Hv; [|by eexists|done|lia|by apply number_end_blank; auto with json].
    by rewrite skip_blank by auto with json.
  - rewrite fmap_cons, join_cons, !length_app in *. cbn [length] in Hf.
    rewrite <- !app_assoc, Hitem. cbn [app parse_members N.eqb Pos.eqb].
    rewrite scan_string_dump by done. rewrite skip_ws_stop by done. cbn [N.eqb Pos.eqb].
    rewrite Hsk, Hv; [|by eexists|done|lia|done].
    rewrite skip_ws_stop by done. cbn [N.eqb Pos.eqb].
    rewrite skip_blank by auto with json.
    assert (item kv' = 34%N :: (concat (escape_char <$> kv'.1) ++ [34%N]) ++ colon st ++ dump st (S d) kv'.2) as E'
      by done.
    rewrite E' in *. rewrite skip_ws_join by done. by rewrite IH by (done || lia).
Qed.

(** ** The round trip *)

Lemma dict_set_fresh k v d : k ∉ (fst <$> d) → dict_set k v d = d ++ [(k, v)].
Proof.
  induction d as [|[k' v'] d IH]; csimpl; [done|]. rewrite not_elem_of_cons. intros [? ?].
  rewrite decide_False by done. f_equal. auto.
Qed.

Lemma dict_of_pairs_NoDup l : NoDup (fst <$> l) → dict_of_pairs l = l.
Proof.
  unfold dict_of_pairs. change l with ([] ++ l) at 1 3. generalize (@nil (list N * json)).
  induction l as [|[k v] l IH]; intros d Hd; simpl; [by rewrite app_nil_r|].
  rewrite fmap_app in Hd. csimpl in Hd.
  rewrite dict_set_fresh.
  - rewrite IH, <- app_assoc; [done|]. by rewrite <- app_assoc, fmap_app.
  - intros Hin. apply NoDup_app in Hd as (_ & Hd & _). apply (Hd k Hin). by left.
Qed.

Lemma parses_all v : parses v.
Proof.
  induction v as [|b|z|x|s|l IH|l IH] using json_ind'; try done.
  - intros st d [|f] r _ _ Hf _; [simpl in Hf; lia|done].
  - intros st d [|f] r _ _ Hf _; [destruct b; simpl in Hf; lia|by destruct b].
  - apply parses_int.
  - apply parses_str.
  - intros st d [|f] r Hst He Hf Hr; [cbn [dump] in Hf; unfold bracket in Hf; destruct (_ <$> l); simpl in Hf; lia|].
    destruct l as [|v l]; [done|]. cbn [dump] in *. unfold bracket in *.
    rewrite fmap_cons in *. destruct (dump_start st (S d) v) as (c & s & E & Hc & H93 & _).
    { by apply andb_true_iff in He as [? _]. }
    cbn [app length parse_value N.eqb Pos.eqb] in *. rewrite !length_app in Hf. cbn [length] in Hf.
    rewrite <- !app_assoc. rewrite skip_blank by auto with json.
    rewrite E. rewrite skip_ws_join by done.
    assert (∃ t, join (44%N :: gap st (S d)) ((c :: s) :: (dump st (S d) <$> l)) = c :: t) as (t & Et).
    { destruct (dump st (S d) <$> l); by eexists. }
    rewrite Et. cbn [app]. rewrite H93, app_comm_cons, <- Et, <- E, <- fmap_cons. cbn [app].
    rewrite parse_elements_join; try done. rewrite fmap_cons. lia.
  - intros st d [|f] r Hst He Hf Hr; [cbn [dump] in Hf; unfold bracket in Hf; destruct (_ <$> l); simpl in Hf; lia|].
    destruct l as [|v l]; [done|]. cbn [dump] in *. unfold bracket in *.
    rewrite fmap_cons in *. cbn [exact] in He. apply andb_true_iff in He as [He Hd].
    guards. apply has_dups_false in Hd.
    cbn [app length parse_value N.eqb Pos.eqb] in *. rewrite !length_app in Hf. cbn [length] in Hf.
    rewrite <- !app_assoc. rewrite skip_blank by auto with json.
    pose proof (parse_members_join st d (v :: l) r f Hst IH He ltac:(done)) as Hm.
    cbv zeta in Hm. rewrite fmap_cons in Hm.
    match type of Hm with context [join ?sep (?x :: ?k)] =>
      assert (∃ t, join sep (x :: k) = 34%N :: t) as (t & Et) by (destruct k; by eexists) end.
    rewrite Et in *. cbn [app] in *. rewrite skip_ws_stop by done. cbn [N.eqb Pos.eqb].
    cbn [app] in *. rewrite Hm by lia. by rewrite dict_of_pairs_NoDup.
Qed.

Lemma number_end_of_blank w : blank w → number_end w.
Proof.
  destruct w as [|c w]; [done|]. unfold blank. simpl. intros [Hc _]%andb_true_iff.
  unfold is_ws in Hc. rewrite !orb_true_iff, !N.eqb_eq in Hc.
  destruct Hc as [[[-> | ->] | ->] | ->]; done.
Qed.

(** A document followed by white space. *)
Lemma loads_dump_blank st v w : style_ok st → exact v = true → blank w → loads (dump st 0 v ++ w) = Some v.
Proof.
  intros Hst He Hw.
  pose proof (parses_all v st 0%nat (S (length (dump st 0 v ++ w))) w Hst He) as H.
  specialize (H ltac:(rewrite length_app; lia) (number_end_of_blank w Hw)).
  destruct (dump_start st 0 v He) as (c & s & E & Hc & _).
  unfold loads. rewrite E in *. cbn [app] in *. rewrite skip_ws_stop, H by done.
  assert (skip_ws w = []) as -> by (rewrite <- (app_nil_r w), skip_blank by done; done).
  repeat case_match; done.
Qed.

Lemma loads_dump st v : style_ok st → exact v = true → loads (dump st 0 v) = Some v.
Proof. intros. rewrite <- (app_nil_r (dump st 0 v)). by apply loads_dump_blank. Qed.

(** ** Key order *)

Definition sort_item (kv : list N * json) : list N * json := (kv.1, sort_keys kv.2).

Lemma sort_keys_obj l : sort_keys (JObj l) = JObj (py_sorted key_leb (sort_item <$> l)).
Proof. done. Qed.

Lemma keys_sort_item (l : list (list N * json)) : fst <$> (sort_item <$> l) = fst <$> l.
Proof. rewrite <- list_fmap_compose. done. Qed.

Lemma sort_keys_keys l : fst <$> py_sorted key_leb (sort_item <$> l) ≡ₚ fst <$> l.
Proof. by rewrite py_sorted_perm, keys_sort_item. Qed.

Lemma forallb_perm {A} (f : A → bool) l k : l ≡ₚ k → forallb f l = forallb f k.
Proof. induction 1; simpl; [done|by f_equal|by destruct (f x), (f y)|congruence]. Qed.

Lemma has_dups_perm {A} `{EqDecision A} (l k : list A) : l ≡ₚ k → has_dups l = has_dups k.
Proof.
  intros H. destruct (has_dups l) eqn:E, (has_dups k) eqn:E'; try done; exfalso.
  - apply has_dups_false in E'. rewrite <- H in E'. apply has_dups_false in E'. congruence.
  - apply has_dups_false in E. rewrite H in E. apply has_dups_false in E. congruence.
Qed.

Lemma forallb_Forall_eq {A} (f g : A → bool) l : Forall (λ x, f x = g x) l → forallb f l = forallb g l.
Proof. induction 1; simpl; congruence. Qed.

Lemma forallb_fmap {A B} (f : B → bool) (g : A → B) (l : list A) : forallb f (g <$> l) = forallb (f ∘ g) l.
Proof. induction l; csimpl; congruence. Qed.

Lemma exact_sort_keys v : exact (sort_keys v) = exact v.
Proof.
  induction v as [|b|z|x|s|l IH|l IH] using json_ind'; try done.
  - simpl. rewrite forallb_fmap. by apply forallb_Forall_eq.
  - rewrite sort_keys_obj. cbn [exact]. f_equal; [|f_equal; apply has_dups_perm, sort_keys_keys].
    rewrite (forallb_perm _ _ _ (py_sorted_perm _ _)), forallb_fmap. apply forallb_Forall_eq.
    eapply Forall_impl; [exact IH|]. intros [k u] Hu. simpl in *. by rewrite Hu.
Qed.

(** [json.loads(json.dumps(v, sort_keys=True))] is [v] with its keys sorted. *)
Lemma loads_dumps st v : style_ok st → exact v = true → loads (dumps st v) = Some (sort_keys v).
Proof. intros. apply loads_dump; [done|]. by rewrite exact_sort_keys. Qed.

Lemma loads_dumps_blank st v w : style_ok st → exact v = true → blank w →
  loads (dumps st v ++ w) = Some (sort_keys v).
Proof. intros. apply loads_dump_blank; try done. by rewrite exact_sort_keys. Qed.

(** The text identifies the value up to key order. *)
Lemma dumps_inj st v w : style_ok st → exact v = true → exact w = true →
  dumps st v = dumps st w → sort_keys v = sort_keys w.
Proof.
  intros Hst Hv Hw E. apply loads_dumps with (st := st) in Hv, Hw; [|done..]. congruence.
Qed.

(** On items with distinct keys the key order is a total order, so a permutation of
    the items is printed as the same text. *)
Lemma insert_key_ordered (x : list N * json) l :
  ordered key_leb l → ordered key_leb (insert_sorted key_leb x l).
Proof.
  unfold key_leb. induction 1 as [|y l Hs IH Hhd]; simpl; [repeat constructor|].
  destruct (str_leb x.1 y.1) eqn:E; [repeat (done || constructor)|].
  constructor; [done|].
  assert (str_leb y.1 x.1 = true) by (destruct (leb_total x.1 y.1); congruence).
  destruct Hhd as [|z l Hyz]; simpl; [by constructor|]. destruct (str_leb x.1 z.1); by constructor.
Qed.

Lemma sort_by_key_ordered l : ordered key_leb (py_sorted key_leb l).
Proof. induction l; [constructor|]. by apply insert_key_ordered. Qed.

Lemma sort_keys_idemp v : sort_keys (sort_keys v) = sort_keys v.
Proof.
  induction v as [|b|z|x|s|l IH|l IH] using json_ind'; try done.
  - simpl. f_equal. rewrite <- list_fmap_compose.
    induction IH as [|v l Hv _ IH]; [done|]. csimpl. by rewrite Hv, IH.
  - rewrite sort_keys_obj, sort_keys_obj. f_equal.
    assert (sort_item <$> py_sorted key_leb (sort_item <$> l) = py_sorted key_leb (sort_item <$> l)) as ->.
    { assert (Forall (λ kv, sort_item kv = kv) (py_sorted key_leb (sort_item <$> l))) as HF.
      { rewrite py_sorted_perm. apply Forall_fmap. eapply Forall_impl; [exact IH|].
        intros [k u] Hu. unfold sort_item. simpl in *. by rewrite Hu. }
      induction HF as [|kv k Hkv _ IHk]; [done|]. csimpl. by rewrite Hkv, IHk. }
    apply py_sorted_ordered_id, sort_by_key_ordered.
Qed.

Lemma dumps_sort_keys st v : dumps st (sort_keys v) = dumps st v.
Proof. unfold dumps. by rewrite sort_keys_idemp. Qed.

(** ** Lookups after sorting *)

Lemma dict_get_elem k v d : NoDup (fst <$> d) → dict_get k d = Some v ↔ (k, v) ∈ d.
Proof.
  induction d as [|[k' v'] d IH]; csimpl; intros Hd; [by split; [|intros ?%not_elem_of_nil]|].
  apply NoDup_cons in Hd as [Hk Hd]. rewrite elem_of_cons. case_decide; subst.
  - split; [intros [= ->]; by left|]. intros [[= ->]|Hin]; [done|].
    destruct Hk. apply list_elem_of_fmap. by exists (k', v).
  - rewrite IH by done. split; [by right|]. by intros [[= ??]|?].
Qed.

Lemma dict_get_perm k d d' : NoDup (fst <$> d) → d ≡ₚ d' → dict_get k d = dict_get k d'.
Proof.
  intros Hd Hp. assert (NoDup (fst <$> d')) by (by rewrite <- Hp).
  destruct (dict_get k d) as [v|] eqn:E.
  - apply dict_get_elem in E; [|done]. rewrite Hp in E. symmetry. by apply dict_get_elem.
  - destruct (dict_get k d') as [v|] eqn:E'; [|done].
    apply dict_get_elem in E'; [|done]. rewrite <- Hp in E'. apply dict_get_elem in E'; [|done]. congruence.
Qed.

Lemma dict_get_sort k l : NoDup (fst <$> l) →
  dict_get k (py_sorted key_leb (sort_item <$> l)) = sort_keys <$> dict_get k l.
Proof.
  intros Hl. erewrite dict_get_perm; [| |apply py_sorted_perm].
  - clear. induction l as [|[k' v] l IH]; [done|]. csimpl. by case_decide.
  - by rewrite sort_keys_keys.
Qed.

(** Two objects with the same canonical text agree on every key. *)
Lemma sort_keys_obj_get a b k : NoDup (fst <$> a) → NoDup (fst <$> b) →
  sort_keys (JObj a) = sort_keys (JObj b) → sort_keys <$> dict_get k a = sort_keys <$> dict_get k b.
Proof.
  intros Ha Hb E. rewrite !sort_keys_obj in E.
  assert (py_sorted key_leb (sort_item <$> a) = py_sorted key_leb (sort_item <$> b)) as E' by congruence.
  rewrite <- !dict_get_sort by done. by rewrite E'.
Qed.

(** Two dictionary displays with the same keys and the same canonical text have the
    same values, item by item. *)
Lemma sort_keys_zip (ks : list (list N)) (vs ws : list json) :
  NoDup ks → length vs = length ks → length ws = length ks →
  sort_keys (JObj (zip ks vs)) = sort_keys (JObj (zip ks ws)) →
  sort_keys <$> vs = sort_keys <$> ws.
Proof.
  intros Hk Hv Hw E. apply list_eq. intros i. rewrite !list_lookup_fmap.
  destruct (decide (i < length ks)%nat) as [Hi|Hi].
  - destruct (lookup_lt_is_Some_2 ks i Hi) as [k Ek].
    destruct (lookup_lt_is_Some_2 vs i ltac:(lia)) as [v Ev].
    destruct (lookup_lt_is_Some_2 ws i ltac:(lia)) as [w Ew].
    assert (∀ us u, length us = length ks → us !! i = Some u → dict_get k (zip ks us) = Some u) as Hget.
    { intros us u Hus Eu. apply dict_get_elem; [by rewrite fst_zip by lia|].
      apply list_elem_of_lookup. exists i. apply lookup_zip_with_Some. eauto. }
    assert (∀ us : list json, length us = length ks → NoDup (fst <$> zip ks us)) as Hnd.
    { intros us Hus. by rewrite fst_zip by lia. }
    pose proof (sort_keys_obj_get _ _ k (Hnd vs Hv) (Hnd ws Hw) E) as H.
    rewrite (Hget vs v), (Hget ws w) in H by done. by rewrite Ev, Ew.
  - rewrite !lookup_ge_None_2 by lia. done.
Qed.

(** Replacing values by values with the same canonical form keeps the text. *)
Lemma sort_keys_obj_ext a b :
  Forall2 (λ x y, x.1 = y.1 ∧ sort_keys x.2 = sort_keys y.2) a b →
  sort_keys (JObj a) = sort_keys (JObj b).
Proof.
  intros H. rewrite !sort_keys_obj. do 2 f_equal. unfold sort_item.
  induction H as [|[??] [??] a b [E1 E2] _ IH]; [done|]. csimpl in *. by rewrite E1, E2, IH.
Qed.

Lemma exact_no_nan v : exact v = true → has_nan v = false.
Proof.
  induction v as [|b|z|x|s|l IH|l IH] using json_ind'; try done; simpl.
  - intros He. induction IH as [|v l Hv _ IHl]; [done|]. simpl in *. guards.
    rewrite Hv by done. auto.
  - intros [He _]%andb_true_iff. induction IH as [|v l Hv _ IHl]; [done|]. simpl in *. guards.
    rewrite Hv by done. auto.
Qed.

(** ** Decimal text *)

Lemma str_of_Z_digits z : ∃ neg ds, str_of_Z z = (if neg : bool then 45%N :: ds else ds) ∧ decimal (Z.abs_N z) ds
  ∧ neg = (z <? 0).
Proof.
  unfold str_of_Z. destruct (Z.ltb_spec z 0).
  - exists true, (digits (Z.abs_N z)). split_and!; [done|apply digits_decimal|done].
  - exists false, (digits (Z.to_N z)). split_and!; [done| |done].
    replace (Z.abs_N z) with (Z.to_N z) by lia. apply digits_decimal.
Qed.

Lemma digit_facts c : is_digit c = true → (c < 0x80)%N ∧ is_space c = false ∧ (c =? 45)%N = false ∧ (c =? 43)%N = false.
Proof.
  intros [? ?]%is_digit_range. split; [lia|]. rewrite !N.eqb_neq. split; [|lia].
  unfold is_space. repeat (apply orb_false_iff; split); rewrite ?andb_false_iff, ?N.leb_gt, ?N.eqb_neq; lia.
Qed.

Lemma digits_ascii ds : all_digits ds → Forall (λ c, (c < 0x80)%N) ds ∧ Forall (λ c, is_space c = false) ds.
Proof. intros H. split; (eapply Forall_impl; [exact H|]); intros c Hc; by destruct (digit_facts c Hc) as (? & ? & _). Qed.

Lemma str_of_Z_ascii z : Forall (λ c, (c < 0x80)%N) (str_of_Z z) ∧ Forall (λ c, is_space c = false) (str_of_Z z).
Proof.
  destruct (str_of_Z_digits z) as (neg & ds & -> & (Hd & _) & _). apply digits_ascii in Hd as [? ?].
  destruct neg; split; try done; by constructor.
Qed.

Lemma int_digits_value p acc ds : all_digits ds → (p = true ∨ ds ≠ []) →
  int_digits p acc ds = Some (foldl (λ a c, 10 * a + (c - 48))%N acc ds).
Proof.
  intros H. revert p acc. induction H as [|c ds Hc _ IH]; intros p acc Hp; simpl; [by destruct Hp as [->|?]|].
  rewrite Hc. apply IH. by left.
Qed.

Lemma digits_no_sign c ds : all_digits ds → is_digit c = false → starts_with [c] ds = false.
Proof.
  intros [|d ds' Hd _] Hc; [done|]. cbn [starts_with].
  destruct (N.eqb_spec c d); [congruence|done].
Qed.

(** [int(str(z)) == z] *)
Lemma py_int_str z : py_int (str_of_Z z) = Some z.
Proof.
  unfold py_int. rewrite py_strip_id by apply str_of_Z_ascii.
  destruct (str_of_Z_digits z) as (neg & ds & -> & (Hd & Hv & Hne & _) & Hneg).
  assert (int_digits false 0%N ds = Some (Z.abs_N z)) as Hi by (rewrite int_digits_value by auto; f_equal; exact Hv).
  change (lit "-") with [45%N]. change (lit "+") with [43%N]. destruct neg; symmetry in Hneg.
  - change (starts_with [45%N] (45%N :: ds)) with true. cbn [drop]. rewrite drop_0, Hi. simpl. f_equal. apply Z.ltb_lt in Hneg. lia.
  - rewrite !digits_no_sign, Hi by done. simpl. f_equal. apply Z.ltb_ge in Hneg. lia.
Qed.

(** ** The text is ASCII *)

Definition ascii_text (s : pystr) : Prop := Forall (λ c, (c < 0x80)%N) s.

Lemma hex_digit_ascii n : (n < 16)%N → (hex_digit n < 0x80)%N.
Proof. intros. unfold hex_digit. destruct (N.ltb_spec n 10); lia. Qed.

Lemma u_escape_ascii c : (c < 0x10000)%N → ascii_text (u_escape c).
Proof. intros. unfold u_escape, hex4, ascii_text. repeat apply Forall_cons_2; [lia|lia|apply hex_digit_ascii; lia..|constructor]. Qed.

Lemma escape_char_ascii c : scalar c = true → ascii_text (escape_char c).
Proof.
  intros Hc. assert (c < 0x110000)%N as Hlt.
  { unfold scalar in Hc. apply orb_true_iff in Hc as [H%N.ltb_lt|H]; [lia|]. guards. by apply N.ltb_lt. }
  unfold escape_char.
  repeat match goal with |- context [(if ?b then _ else _)] => destruct b eqn:? end;
    try (repeat apply Forall_cons_2; [lia..|constructor]).
  - guards. match goal with H : (c <=? 126)%N = true |- _ => apply N.leb_le in H end. repeat constructor. lia.
  - apply u_escape_ascii. by apply N.ltb_lt.
  - match goal with H : (c <? 0x10000)%N = false |- _ => apply N.ltb_ge in H end.
    apply Forall_app. split; apply u_escape_ascii; lia.
Qed.

Lemma dump_str_ascii s : forallb scalar s = true → ascii_text (dump_str s).
Proof.
  intros Hs. unfold dump_str, ascii_text. constructor; [lia|]. apply Forall_app. split; [|repeat constructor; lia].
  rewrite forallb_forall in Hs. apply Forall_concat, Forall_fmap, Forall_forall. intros c Hc%list_elem_of_In.
  by apply escape_char_ascii, Hs.
Qed.

Lemma join_ascii sep l : ascii_text sep → Forall ascii_text l → ascii_text (join sep l).
Proof.
  intros Hs. induction 1 as [|x [|y l] Hx _ IH]; [constructor|done|].
  change (ascii_text (x ++ sep ++ join sep (y :: l))). unfold ascii_text in *. by rewrite !Forall_app.
Qed.

Lemma newline_ascii st d : ascii_text (newline st d).
Proof. unfold newline. destruct (indent st); [|constructor]. constructor; [lia|]. apply Forall_replicate. lia. Qed.

Lemma bracket_ascii st d op cl items : (op < 0x80)%N → (cl < 0x80)%N → Forall ascii_text items →
  ascii_text (bracket st d op cl items).
Proof.
  intros Ho Hc Hi. unfold bracket. destruct items as [|x l]; [repeat constructor; lia|].
  constructor; [done|]. unfold ascii_text. rewrite !Forall_app. split_and!; try apply newline_ascii; [|by repeat constructor].
  apply join_ascii; [|done]. constructor; [lia|]. apply Forall_app. split; [|apply newline_ascii].
  destruct (spaced st); repeat constructor; lia.
Qed.

Lemma dump_ascii st d v : ascii_text (colon st) → exact v = true → ascii_text (dump st d v).
Proof.
  intros Hst. revert d. induction v as [|b|z|f|s|l IH|l IH] using json_ind'; intros d He; try done.
  - by repeat constructor.
  - by destruct b; repeat constructor.
  - apply str_of_Z_ascii.
  - by apply dump_str_ascii.
  - cbn [dump exact] in *. rewrite forallb_forall in He. apply bracket_ascii; [done..|]. apply Forall_fmap.
    rewrite Forall_forall in *. intros x Hx. apply IH; [done|]. by apply He, list_elem_of_In.
  - cbn [dump exact] in *. guards. rewrite forallb_forall in *. apply bracket_ascii; [done..|]. apply Forall_fmap.
    rewrite Forall_forall in *. intros x Hx. unfold compose, ascii_text. rewrite !Forall_app.
    match goal with H : (∀ x, In x l → _) |- _ => specialize (H x ltac:(by apply list_elem_of_In)) end. guards.
    split_and!; [by apply dump_str_ascii|done|]. by apply IH.
Qed.

Lemma dumps_ascii st v : ascii_text (colon st) → exact v = true → ascii_text (dumps st v).
Proof. intros ? ?. apply dump_ascii; [done|]. by rewrite exact_sort_keys. Qed.
