(* ===== verification/Hash.v ===== *)
(** * Digests: SHA-256 ([hashlib]) and CRC-32 ([zlib])

    Both are executable. The round constants of SHA-256 are computed from their
    definition (fractional parts of roots of the first primes). *)

From S2P Require Import Prelude.

(** ** Big-endian integers *)

Fixpoint be_bytes (n : nat) (x : N) : pybytes :=
  match n with
  | O => []
  | S k => be_bytes k (x / 256)%N ++ [(x mod 256)%N]
  end.

Definition be_value (b : pybytes) : N := foldl (λ acc x, 256 * acc + x)%N 0%N b.

Definition is_bytes (b : pybytes) : Prop := Forall (λ x, (x < 256)%N) b.

Lemma length_be_bytes n x : length (be_bytes n x) = n.
Proof. revert x. induction n as [|n IH]; intros x; simpl; [done|]. rewrite length_app, IH. simpl. lia. Qed.

Lemma be_bytes_ok n x : is_bytes (be_bytes n x).
Proof.
  revert x. induction n as [|n IH]; intros x; simpl; [constructor|].
  apply Forall_app. split; [apply IH|]. repeat constructor. lia.
Qed.

(** Encoding then decoding is the value modulo the width. *)
Lemma be_value_bytes n x : be_value (be_bytes n x) = (x mod 256 ^ N.of_nat n)%N.
Proof.
  revert x. induction n as [|n IH]; intros x; [by rewrite N.mod_1_r|].
  cbn [be_bytes]. unfold be_value in *. rewrite foldl_app, IH. simpl.
  replace (N.of_nat (S n)) with (N.succ (N.of_nat n)) by lia.
  rewrite N.pow_succ_r', N.Div0.mod_mul_r. lia.
Qed.

Lemma be_value_small n x : (x < 256 ^ N.of_nat n)%N → be_value (be_bytes n x) = x.
Proof. intros. by rewrite be_value_bytes, N.mod_small. Qed.

(** ** SHA-256 *)

Definition primes_below (n : nat) : list N :=
  filter (λ p, forallb (λ d, negb (p mod d =? 0)%N) (N.of_nat <$> seq 2 (N.to_nat p - 2)) = true)
    (N.of_nat <$> seq 2 n).

(** Integer cube root, bit by bit. *)
Definition icbrt (n : N) : N :=
  foldr (λ b r, let r' := (r + 2 ^ N.of_nat b)%N in if (r' ^ 3 <=? n)%N then r' else r) 0%N
    (seq 0 44).

Definition round_constants : list N :=
  Eval vm_compute in ((λ p, icbrt (p * 2 ^ 96) mod 2 ^ 32)%N <$> primes_below 310).

Definition initial_state : list N :=
  Eval vm_compute in ((λ p, N.sqrt (p * 2 ^ 64) mod 2 ^ 32)%N <$> primes_below 18).

Definition mask32 : N := 0xFFFFFFFF.
Definition add32 (x y : N) : N := N.land (x + y) mask32.
Definition rotr32 (n x : N) : N := N.lor (N.shiftr x n) (N.land (N.shiftl x (32 - n)) mask32).
Definition xor3 (a b c : N) : N := N.lxor a (N.lxor b c).
Definition choose (x y z : N) : N := N.lxor (N.land x y) (N.land (N.lxor x mask32) z).
Definition majority (x y z : N) : N := xor3 (N.land x y) (N.land x z) (N.land y z).

(** The next word of the schedule from the previous ones, latest first. *)
Definition next_word (w : list N) : N :=
  let s0 x := xor3 (rotr32 7 x) (rotr32 18 x) (N.shiftr x 3) in
  let s1 x := xor3 (rotr32 17 x) (rotr32 19 x) (N.shiftr x 10) in
  add32 (add32 (s1 (nth 1 w 0%N)) (nth 6 w 0%N)) (add32 (s0 (nth 14 w 0%N)) (nth 15 w 0%N)).

Fixpoint schedule (n : nat) (w : list N) : list N :=
  match n with
  | O => reverse w
  | S k => schedule k (next_word w :: w)
  end.

Definition hash_state : Type := N * N * N * N * N * N * N * N.

Definition hash_round (st : hash_state) (kw : N) : hash_state :=
  let '(a, b, c, d, e, f, g, h) := st in
  let t1 := add32 (add32 h (xor3 (rotr32 6 e) (rotr32 11 e) (rotr32 25 e))) (add32 (choose e f g) kw) in
  let t2 := add32 (xor3 (rotr32 2 a) (rotr32 13 a) (rotr32 22 a)) (majority a b c) in
  (add32 t1 t2, a, b, c, add32 d t1, e, f, g).

Definition add_state (x y : hash_state) : hash_state :=
  let '(a, b, c, d, e, f, g, h) := x in
  let '(a', b', c', d', e', f', g', h') := y in
  (add32 a a', add32 b b', add32 c c', add32 d d', add32 e e', add32 f f', add32 g g', add32 h h').

Fixpoint words (n : nat) (b : pybytes) : list N :=
  match n with
  | O => []
  | S k => be_value (take 4 b) :: words k (drop 4 b)
  end.

Definition compress (st : hash_state) (block : pybytes) : hash_state :=
  let w := schedule 48 (reverse (words 16 block)) in
  add_state st (foldl hash_round st (zip_with add32 round_constants w)).

Fixpoint hash_blocks (fuel : nat) (st : hash_state) (b : pybytes) : hash_state :=
  match fuel, b with
  | S f, _ :: _ => hash_blocks f (compress st (take 64 b)) (drop 64 b)
  | _, _ => st
  end.

Definition sha_pad (m : pybytes) : pybytes :=
  let n := Z.of_nat (length m) in
  m ++ [128%N] ++ replicate (Z.to_nat ((55 - n) mod 64)) 0%N ++ be_bytes 8 (8 * Z.to_N n).

Definition state_of_list (l : list N) : hash_state :=
  let g i := nth i l 0%N in (g 0, g 1, g 2, g 3, g 4, g 5, g 6, g 7)%nat.

Definition sha256 (m : pybytes) : pybytes :=
  let p := sha_pad m in
  let '(a, b, c, d, e, f, g, h) := hash_blocks (length p) (state_of_list initial_state) p in
  concat (be_bytes 4 <$> [a; b; c; d; e; f; g; h]).

(** [hashlib.sha256(m).hexdigest()]; a hash object fed by several [update] calls
    digests the concatenation of what it was fed. *)
Definition hexdigest (m : pybytes) : pystr := tohex (sha256 m).

Example sha256_abc :
  hexdigest (lit "abc") = lit "ba7816bf8f01cfea414140de5dae2223b00361a396177a9cb410ff61f20015ad".
Proof. vm_compute. reflexivity. Qed.

Example sha256_two_blocks :
  hexdigest (lit "abcdbcdecdefdefgefghfghighijhijkijkljklmklmnlmnomnopnopq")
  = lit "248d6a61d20638b8e5c026930c3e6039a33ce45964ff2167f6ecedd419db06c1".
Proof. vm_compute. reflexivity. Qed.

Lemma sha256_length m : length (sha256 m) = 32%nat.
Proof.
  unfold sha256. destruct (hash_blocks _ _ _) as [[[[[[[a b] c] d] e] f] g] h].
  cbn [fmap list_fmap concat]. by rewrite !length_app, !length_be_bytes.
Qed.

Lemma sha256_bytes m : is_bytes (sha256 m).
Proof.
  unfold sha256. destruct (hash_blocks _ _ _) as [[[[[[[a b] c] d] e] f] g] h].
  cbn [fmap list_fmap concat]. unfold is_bytes. rewrite !Forall_app.
  repeat split; first [apply be_bytes_ok | constructor].
Qed.

(** ** Hexadecimal text *)

Definition is_lower_hex (c : N) : bool := ((48 <=? c) && (c <=? 57) || (97 <=? c) && (c <=? 102))%N.

Lemma hex_digit_lower n : (n < 16)%N → is_lower_hex (hex_digit n) = true.
Proof.
  intros. unfold is_lower_hex, hex_digit. rewrite orb_true_iff, !andb_true_iff, !N.leb_le.
  destruct (N.ltb_spec n 10); lia.
Qed.

Lemma tohex_length b : length (tohex b) = (2 * length b)%nat.
Proof. unfold tohex. induction b; csimpl; [done|]. lia. Qed.

Lemma tohex_lower b : is_bytes b → Forall (λ c, is_lower_hex c = true) (tohex b).
Proof.
  unfold tohex. induction 1 as [|x b Hx Hb IH]; csimpl; [constructor|].
  repeat constructor; try apply hex_digit_lower; [lia..|done].
Qed.

Lemma hexdigest_length m : length (hexdigest m) = 64%nat.
Proof. unfold hexdigest. by rewrite tohex_length, sha256_length. Qed.

Lemma hex_digit_value n : (n < 16)%N → hex_value (hex_digit n) = Some n ∧ is_ascii_space (hex_digit n) = false.
Proof.
  intros. unfold hex_value, hex_digit, is_ascii_space.
  destruct (N.ltb_spec n 10); (split; [|apply orb_false_iff; rewrite andb_false_iff, N.eqb_neq, !N.leb_gt; lia]);
    repeat (case_match; guards; rewrite ?N.leb_le, ?N.leb_gt, ?andb_false_iff in *); f_equal; lia.
Qed.

(** [bytes.fromhex(b.hex()) == b]. *)
Lemma fromhex_tohex b : is_bytes b → fromhex (tohex b) = Some b.
Proof.
  unfold tohex. induction 1 as [|x b Hx Hb IH]; csimpl; [done|].
  destruct (hex_digit_value (x / 16)) as [-> ->]; [lia|].
  destruct (hex_digit_value (x mod 16)) as [-> _]; [lia|].
  rewrite IH. f_equal. f_equal. lia.
Qed.

Lemma lower_hex_facts c : is_lower_hex c = true →
  is_space c = false ∧ lower_char c = c ∧ c ≠ 45%N ∧ c ≠ 43%N ∧ c ≠ 120%N ∧ c ≠ 88%N.
Proof.
  unfold is_lower_hex, is_space, lower_char. intros [[??]%andb_true_iff|[??]%andb_true_iff]%orb_true_iff;
    rewrite ?N.leb_le in *; (split; [|split; [|lia]]).
  1,3: repeat (apply orb_false_iff; split); rewrite ?andb_false_iff, ?N.leb_gt, ?N.eqb_neq; lia.
  all: destruct (N.leb_spec 65 c), (N.leb_spec c 90); simpl; lia.
Qed.

Lemma tohex_py_lower b : is_bytes b → py_lower (tohex b) = tohex b.
Proof.
  intros H%tohex_lower. unfold py_lower. induction H as [|c s Hc _ IH]; csimpl; [done|].
  rewrite IH. f_equal. by apply lower_hex_facts.
Qed.

Lemma int16_digits_tohex b p acc : is_bytes b → (p = true ∨ b ≠ []) →
  int16_digits p acc (tohex b) = Some (foldl (λ a x, 256 * a + x)%N acc b).
Proof.
  intros Hb. unfold tohex. revert p acc. induction Hb as [|x b Hx _ IH]; intros p acc Hp.
  { by destruct Hp as [->|?]. }
  csimpl. destruct (hex_digit_value (x / 16)) as [-> _]; [lia|].
  destruct (hex_digit_value (x mod 16)) as [-> _]; [lia|].
  rewrite IH by auto. do 2 f_equal. lia.
Qed.

Lemma hex_no_prefix p s : Forall (λ c, is_lower_hex c = true) s →
  Exists (λ c, is_lower_hex c = false) p → starts_with p s = false.
Proof.
  intros Hs Hp. revert s Hs. induction Hp as [c p Hc|c p _ IH]; intros s Hs; destruct Hs as [|d s Hd Hs]; simpl; try done.
  - destruct (N.eqb_spec c d); [|done]. congruence.
  - rewrite IH by done. by destruct (c =? d)%N.
Qed.

(** [int(b.hex(), 16)] is the big-endian value. *)
Lemma py_int16_tohex b : is_bytes b → b ≠ [] → py_int16 (tohex b) = Some (Z.of_N (be_value b)).
Proof.
  intros Hb Hne. pose proof (tohex_lower _ Hb) as Hl. unfold py_int16, int16_body.
  rewrite py_strip_id by (eapply Forall_impl; [exact Hl|]; intros c Hc; by apply lower_hex_facts).
  rewrite !hex_no_prefix by (done || (by left) || (by right; left)). simpl.
  by rewrite int16_digits_tohex by auto.
Qed.

Lemma be_bytes_value b : is_bytes b → be_bytes (length b) (be_value b) = b.
Proof.
  unfold be_value. induction b as [|x b IH] using rev_ind; [done|].
  intros [Hb Hx]%Forall_app. apply Forall_inv in Hx. rewrite length_app, Nat.add_comm, foldl_app. simpl.
  set (v := foldl _ 0%N b) in *.
  assert ((256 * v + x) / 256 = v ∧ (256 * v + x) mod 256 = x)%N as [Hd Hm].
  { clearbody v. split; [symmetry; apply (N.div_unique _ _ _ x)|symmetry; apply (N.mod_unique _ _ v)]; lia. }
  change (be_bytes (length b) ((256 * v + x) / 256)%N ++ [((256 * v + x) mod 256)%N] = b ++ [x]).
  rewrite Hd, Hm, IH; done.
Qed.

Lemma hexdigest_inj m m' : hexdigest m = hexdigest m' → sha256 m = sha256 m'.
Proof.
  intros E. apply (f_equal fromhex) in E. unfold hexdigest in E.
  rewrite !fromhex_tohex in E by apply sha256_bytes. congruence.
Qed.

(** ** CRC-32 *)

Definition crc_bit (c : N) : N :=
  if N.odd c then N.lxor (N.shiftr c 1) 0xEDB88320 else N.shiftr c 1.

Definition crc_byte (c x : N) : N := Nat.iter 8 crc_bit (N.lxor c x).

(** [zlib.crc32(data, crc)] *)
Definition crc32 (data : pybytes) (crc : N) : N :=
  N.lxor (foldl crc_byte (N.lxor crc 0xFFFFFFFF) data) 0xFFFFFFFF.

Example crc32_check : crc32 (lit "123456789") 0 = 0xCBF43926%N.
Proof. vm_compute. reflexivity. Qed.

Lemma crc32_nil crc : crc32 [] crc = crc.
Proof. unfold crc32. simpl. by rewrite N.lxor_assoc, N.lxor_nilpotent, N.lxor_0_r. Qed.

(** Feeding the running value chunk by chunk gives the checksum of the whole. *)
Lemma crc32_app a b crc : crc32 (a ++ b) crc = crc32 b (crc32 a crc).
Proof.
  unfold crc32. rewrite foldl_app. by rewrite N.lxor_assoc, N.lxor_nilpotent, N.lxor_0_r.
Qed.

(** [f"{crc & 0xFFFFFFFF:08x}"] *)
Definition crc_hex (c : N) : pystr := tohex (be_bytes 4 (N.land c 0xFFFFFFFF)).

Lemma crc_hex_int c : (c < 2 ^ 32)%N → py_int16 (crc_hex c) = Some (Z.of_N c).
Proof.
  intros Hc. unfold crc_hex. rewrite py_int16_tohex by (apply be_bytes_ok || done).
  change 0xFFFFFFFF%N with (N.ones 32). rewrite N.land_ones, N.mod_small by done.
  by rewrite be_value_small.
Qed.

#[global] Arguments sha256 : simpl never.
#[global] Arguments hexdigest : simpl never.
#[global] Arguments crc32 : simpl never.
