(* ===== verification/Memory.v ===== *)
(** * Engine-neutral memory contracts ([coldsnap_core/memory.py])

    Regions and their preservation policies, provider capabilities, the layout
    descriptor and the immutable checkpoint plan with their canonical digests, and
    the two admission functions that decide whether a checkpoint may release memory:
    [require_checkpoint_plan] for one provider and [agree_checkpoint_plans] across
    ranks. *)

From S2P Require Import Prelude PyFloat PyJson PyJsonFacts Hash.

(** ** Enumerations *)

Inductive PreservationPolicy := PRESERVE | DISCARD | RECREATE | EXTERNAL_POLICY.
Inductive MemoryLayoutKind := CONTIGUOUS | PER_LAYER | UNIFIED | OPAQUE.
Inductive MemoryCheckpointAction := RETAIN | RELEASE_BACKING | UNMAP_PAGES | REMAP_PAGES | REPLAY_MAPPING.
Inductive MemoryTransportAction := TRANSPORT_RETAIN | DETACH_REGISTRATIONS | REATTACH_REGISTRATIONS.

#[global] Instance policy_eq_dec : EqDecision PreservationPolicy.
Proof. solve_decision. Defined.
#[global] Instance kind_eq_dec : EqDecision MemoryLayoutKind.
Proof. solve_decision. Defined.
#[global] Instance action_eq_dec : EqDecision MemoryCheckpointAction.
Proof. solve_decision. Defined.
#[global] Instance transport_eq_dec : EqDecision MemoryTransportAction.
Proof. solve_decision. Defined.

Definition policy_value (p : PreservationPolicy) : pystr :=
  lit match p with
      | PRESERVE => "preserve" | DISCARD => "discard"
      | RECREATE => "recreate" | EXTERNAL_POLICY => "external"
      end.
Definition kind_value (k : MemoryLayoutKind) : pystr :=
  lit match k with
      | CONTIGUOUS => "contiguous" | PER_LAYER => "per-layer" | UNIFIED => "unified" | OPAQUE => "opaque"
      end.
Definition action_value (a : MemoryCheckpointAction) : pystr :=
  lit match a with
      | RETAIN => "retain" | RELEASE_BACKING => "release-backing" | UNMAP_PAGES => "unmap-pages"
      | REMAP_PAGES => "remap-pages" | REPLAY_MAPPING => "replay-mapping"
      end.
Definition transport_value (a : MemoryTransportAction) : pystr :=
  lit match a with
      | TRANSPORT_RETAIN => "retain" | DETACH_REGISTRATIONS => "detach-registrations"
      | REATTACH_REGISTRATIONS => "reattach-registrations"
      end.

(** A policy is a [str] enumeration: it compares by its value. *)
Definition policy_leb (p q : PreservationPolicy) : bool := str_leb (policy_value p) (policy_value q).

(** ** Regions *)

Record MemoryRegion := Region {
  r_name : pystr;
  r_policy : PreservationPolicy;
  stable_address : bool;
}.
#[global] Instance region_eq_dec : EqDecision MemoryRegion.
Proof. solve_decision. Defined.

(** [MemoryRegion(...)] with its [__post_init__] checks. *)
Definition MemoryRegion_new (r : MemoryRegion) : res MemoryRegion :=
  _ ← raise_if (bool_decide (r_name r = []) || negb (bool_decide (py_strip (r_name r) = r_name r))
                || existsb is_space (r_name r))
        ValueError "invalid memory region name";
  _ ← raise_if (bool_decide (r_policy r = EXTERNAL_POLICY) && stable_address r)
        ValueError "external memory cannot promise provider-owned addresses";
  mret r.

Definition WEIGHTS := Region (lit "weights") PRESERVE true.
Definition KV_CACHE := Region (lit "kv_cache") DISCARD true.
Definition CUDA_GRAPH := Region (lit "cuda_graph") RECREATE true.
Definition WORKSPACE := Region (lit "workspace") RECREATE true.
Definition EXTERNAL := Region (lit "external") EXTERNAL_POLICY false.

Definition STANDARD_REGIONS : list (pystr * MemoryRegion) :=
  (λ r, (r_name r, r)) <$> [WEIGHTS; KV_CACHE; CUDA_GRAPH; WORKSPACE; EXTERNAL].

Definition find_region (k : pystr) : option MemoryRegion :=
  snd <$> find (λ kr, bool_decide (kr.1 = k)) STANDARD_REGIONS.

(** A requested region is a name or a region object. *)
Definition region_ref : Type := pystr + MemoryRegion.

Fixpoint resolve_loop (values : list region_ref) (seen : list pystr) (result : list MemoryRegion)
    : res (list MemoryRegion) :=
  match values with
  | [] => mret result
  | v :: values' =>
      region ← match v with
               | inr r => mret r
               | inl k => of_option MemoryCapabilityError "unknown memory region" (find_region k)
               end;
      _ ← raise_if (bool_decide (r_name region ∈ seen)) ValueError "duplicate memory region";
      resolve_loop values' (r_name region :: seen) (result ++ [region])
  end.

Definition resolve_regions (values : option (list region_ref)) : res (list MemoryRegion) :=
  match values with
  | None => mret (snd <$> STANDARD_REGIONS)
  | Some l => resolve_loop l [] []
  end.

(** ** Provider capabilities *)

Record ProviderCapabilities := Capabilities {
  cap_provider : pystr;
  tagged_regions : bool;
  stable_virtual_addresses : bool;
  scoped_interception : bool;
  allocation_enumeration : bool;
  external_snapshot_store : bool;
  graph_regions : bool;
  per_device_synchronization : bool;
  cap_provider_abi : Z;
  native_backing_stores : list pystr;
  exact_address_reservation : bool;
  page_granular_mapping : bool;
  batched_mapping : bool;
  release_backing_retain_va : bool;
  sentinel_backing : bool;
  distributed_atomic_mapping : bool;
  revisioned_limits : bool;
  mapping_recipe_replay : bool;
  transport_registration_ownership : bool;
  background_reserve : bool;
  checkpoint_quiescence : bool;
}.

(** [bool(getattr(self, attribute, False))] *)
Definition capability (c : ProviderCapabilities) (attribute : string) : bool :=
  let named := String.eqb attribute in
  if named "provider" then negb (bool_decide (cap_provider c = []))
  else if named "tagged_regions" then tagged_regions c
  else if named "stable_virtual_addresses" then stable_virtual_addresses c
  else if named "scoped_interception" then scoped_interception c
  else if named "allocation_enumeration" then allocation_enumeration c
  else if named "external_snapshot_store" then external_snapshot_store c
  else if named "graph_regions" then graph_regions c
  else if named "per_device_synchronization" then per_device_synchronization c
  else if named "provider_abi" then negb (cap_provider_abi c =? 0)
  else if named "native_backing_stores" then negb (bool_decide (native_backing_stores c = []))
  else if named "exact_address_reservation" then exact_address_reservation c
  else if named "page_granular_mapping" then page_granular_mapping c
  else if named "batched_mapping" then batched_mapping c
  else if named "release_backing_retain_va" then release_backing_retain_va c
  else if named "sentinel_backing" then sentinel_backing c
  else if named "distributed_atomic_mapping" then distributed_atomic_mapping c
  else if named "revisioned_limits" then revisioned_limits c
  else if named "mapping_recipe_replay" then mapping_recipe_replay c
  else if named "transport_registration_ownership" then transport_registration_ownership c
  else if named "background_reserve" then background_reserve c
  else if named "checkpoint_quiescence" then checkpoint_quiescence c
  else false.

(** [capabilities.require(attribute, operation)]; the message names the capability. *)
Definition require (c : ProviderCapabilities) (attribute operation : string) : res unit :=
  raise_if (negb (capability c attribute)) MemoryCapabilityError ("provider cannot " ++ operation)%string.

(** ** Canonical text and digest *)

Definition canonical_json (v : json) : res pystr :=
  _ ← raise_if (has_nan v) ValueError "Out of range float values are not JSON compliant";
  mret (dumps canonical_style v).

Definition canonical_digest (v : json) : res pystr :=
  payload ← canonical_json v; mret (lit "sha256:" ++ hexdigest payload).

Definition MIB : Z := 1024 * 1024.

(** ** Layout descriptor *)

Record MemoryLayoutDescriptor := Layout {
  l_format : Z;
  l_provider : pystr;
  l_provider_abi : Z;
  region : MemoryRegion;
  device : pystr;
  base_address : option Z;
  logical_bytes : Z;
  allocation_granularity : Z;
  mapping_granularity : Z;
  layout_kind : MemoryLayoutKind;
  groups : list pystr;
  extent_count : Z;
  transport_registration_mode : pystr;
  extension_json : pystr;
  layout_digest : pystr;
}.

Definition JStrs (l : list pystr) : json := JArr (JStr <$> l).

(** The [fields] dictionary whose canonical text is digested. *)
Definition layout_fields (d : MemoryLayoutDescriptor) (extension : json) : json := JObj [
  (lit "format", JInt (l_format d));
  (lit "provider", JStr (l_provider d));
  (lit "provider_abi", JInt (l_provider_abi d));
  (lit "region", JObj [
    (lit "name", JStr (r_name (region d)));
    (lit "policy", JStr (policy_value (r_policy (region d))));
    (lit "stable_address", JBool (stable_address (region d)))]);
  (lit "device", JStr (device d));
  (lit "base_address", match base_address d with Some a => JInt a | None => JNull end);
  (lit "logical_bytes", JInt (logical_bytes d));
  (lit "allocation_granularity", JInt (allocation_granularity d));
  (lit "mapping_granularity", JInt (mapping_granularity d));
  (lit "layout_kind", JStr (kind_value (layout_kind d)));
  (lit "groups", JStrs (groups d));
  (lit "extent_count", JInt (extent_count d));
  (lit "transport_registration_mode", JStr (transport_registration_mode d));
  (lit "extension", extension)].

(** The field checks of [validate] before the extension is re-encoded. *)
Definition layout_guard (d : MemoryLayoutDescriptor) (extension : json) : bool :=
  negb (l_format d =? 1)
  || bool_decide (l_provider d = [])
  || (l_provider_abi d <=? 0)
  || bool_decide (device d = [])
  || match base_address d with Some a => a <? 0 | None => false end
  || (stable_address (region d) && (0 <? logical_bytes d) && bool_decide (base_address d = None))
  || (logical_bytes d <? 0)
  || (allocation_granularity d <=? 0)
  || (mapping_granularity d <=? 0)
  || (extent_count d <? 0)
  || negb (Bool.eqb (logical_bytes d =? 0) (extent_count d =? 0))
  || bool_decide (transport_registration_mode d = [])
  || has_dups (groups d)
  || existsb (λ g, bool_decide (g = [])) (groups d)
  || match extension with JObj _ => false | _ => true end.

Definition layout_validate (d : MemoryLayoutDescriptor) : res unit :=
  extension ← of_option ValueError "memory layout extension is invalid JSON" (loads (extension_json d));
  _ ← raise_if (layout_guard d extension) ValueError "memory layout descriptor is invalid";
  text ← canonical_json extension;
  _ ← raise_if (negb (bool_decide (extension_json d = text))
                || (MIB <? Z.of_nat (length (extension_json d))))
        ValueError "memory layout descriptor is invalid";
  digest ← canonical_digest (layout_fields d extension);
  raise_if (negb (bool_decide (layout_digest d = digest)))
    ValueError "memory layout digest does not match descriptor".

(** [MemoryLayoutDescriptor.create(...)]; [extension] is [dict(extension or {})]. *)
Definition layout_create (provider : pystr) (provider_abi : Z) (reg : MemoryRegion) (dev : pystr)
    (base : option Z) (bytes alloc_gran map_gran : Z) (kind : MemoryLayoutKind)
    (grps : list pystr) (extents : Z) (mode : pystr) (extension : list (pystr * json))
    : res MemoryLayoutDescriptor :=
  ext_text ← canonical_json (JObj extension);
  _ ← raise_if (MIB <? Z.of_nat (length ext_text)) ValueError "memory layout extension exceeds 1 MiB";
  let draft digest :=
    Layout 1 provider provider_abi reg dev base bytes alloc_gran map_gran kind grps extents mode
      ext_text digest in
  digest ← canonical_digest (layout_fields (draft []) (JObj extension));
  let result := draft digest in
  _ ← layout_validate result;
  mret result.

(** The [extension] property: a fresh copy of the decoded payload. *)
Definition layout_extension (d : MemoryLayoutDescriptor) : res (list (pystr * json)) :=
  value ← of_option ValueError "JSONDecodeError" (loads (extension_json d));
  match value with
  | JObj e => mret e
  | _ => Raise (Exn ValueError "memory layout extension is not an object")
  end.

(** ** Residency statistics *)

Record MemoryResidencyStats := Stats {
  s_format : Z;
  s_provider : pystr;
  s_region : pystr;
  s_logical_bytes : Z;
  mapped_physical_bytes : Z;
  reserved_physical_bytes : Z;
  preserved_bytes : Z;
  discardable_bytes : Z;
  externally_hydrated_bytes : Z;
  allocation_count : Z;
  page_count : Z;
  released_mapping_count : Z;
  lifecycle_revision : Z;
  lifecycle_epoch : pystr;
}.

Definition stats_validate (s : MemoryResidencyStats) : res unit :=
  raise_if
    (negb (s_format s =? 1)
     || bool_decide (s_provider s = [])
     || bool_decide (s_region s = [])
     || bool_decide (lifecycle_epoch s = [])
     || existsb (λ v, v <? 0)
          [s_logical_bytes s; mapped_physical_bytes s; reserved_physical_bytes s; preserved_bytes s;
           discardable_bytes s; externally_hydrated_bytes s; allocation_count s; page_count s;
           released_mapping_count s; lifecycle_revision s]
     || (allocation_count s <? released_mapping_count s)
     || (mapped_physical_bytes s <? preserved_bytes s + discardable_bytes s + externally_hydrated_bytes s))
    ValueError "memory residency statistics are invalid".

(** ** Checkpoint plan *)

Record MemoryCheckpointPlan := Plan {
  p_format : Z;
  generation : pystr;
  owner : pystr;
  p_provider : pystr;
  p_provider_abi : Z;
  layout_digests : list (pystr * pystr);
  policies : list (pystr * PreservationPolicy);
  actions : list MemoryCheckpointAction;
  mapped_bytes_before : Z;
  mapped_bytes_after : Z;
  reserved_bytes_before : Z;
  reserved_bytes_after : Z;
  transport_actions : list MemoryTransportAction;
  participants : list pystr;
  quiescence_evidence : pystr;
  terminal_on_failure : bool;
  abort_safe : bool;
  plan_digest : pystr;
}.

Definition plan_fields (p : MemoryCheckpointPlan) : json := JObj [
  (lit "format", JInt (p_format p));
  (lit "generation", JStr (generation p));
  (lit "owner", JStr (owner p));
  (lit "provider", JStr (p_provider p));
  (lit "provider_abi", JInt (p_provider_abi p));
  (lit "layout_digests", JArr ((λ nd, JStrs [nd.1; nd.2]) <$> layout_digests p));
  (lit "policies", JArr ((λ np, JStrs [np.1; policy_value np.2]) <$> policies p));
  (lit "actions", JStrs (action_value <$> actions p));
  (lit "mapped_bytes_before", JInt (mapped_bytes_before p));
  (lit "mapped_bytes_after", JInt (mapped_bytes_after p));
  (lit "reserved_bytes_before", JInt (reserved_bytes_before p));
  (lit "reserved_bytes_after", JInt (reserved_bytes_after p));
  (lit "transport_actions", JStrs (transport_value <$> transport_actions p));
  (lit "participants", JStrs (participants p));
  (lit "quiescence_evidence", JStr (quiescence_evidence p));
  (lit "terminal_on_failure", JBool (terminal_on_failure p));
  (lit "abort_safe", JBool (abort_safe p))].

Notation digest_leb := (pair_leb str_leb str_leb).
Notation name_policy_leb := (pair_leb str_leb policy_leb).

Definition plan_guard (p : MemoryCheckpointPlan) : bool :=
  negb (p_format p =? 1)
  || bool_decide (generation p = [])
  || bool_decide (owner p = [])
  || bool_decide (p_provider p = [])
  || (p_provider_abi p <=? 0)
  || bool_decide (layout_digests p = [])
  || bool_decide (participants p = [])
  || negb (bool_decide (sorted_set str_leb (participants p) = participants p))
  || negb (bool_decide (owner p ∈ participants p))
  || bool_decide (quiescence_evidence p = [])
  || bool_decide (actions p = [])
  || negb (bool_decide (sorted_set digest_leb (layout_digests p) = layout_digests p))
  || negb (bool_decide (sorted_set name_policy_leb (policies p) = policies p))
  || has_dups (fst <$> layout_digests p)
  || has_dups (fst <$> policies p)
  || negb (set_eqb (fst <$> layout_digests p) (fst <$> policies p))
  || has_dups (actions p)
  || has_dups (transport_actions p)
  || existsb (λ v, v <? 0) [mapped_bytes_before p; mapped_bytes_after p;
                            reserved_bytes_before p; reserved_bytes_after p].

Definition plan_validate (p : MemoryCheckpointPlan) : res unit :=
  _ ← raise_if (plan_guard p) ValueError "memory checkpoint plan is invalid";
  digest ← canonical_digest (plan_fields p);
  raise_if (negb (bool_decide (plan_digest p = digest)))
    ValueError "memory checkpoint plan digest does not match plan".

Fixpoint check_layouts (provider : pystr) (abi : Z) (layouts : list MemoryLayoutDescriptor) : res unit :=
  match layouts with
  | [] => mret tt
  | l :: layouts' =>
      _ ← layout_validate l;
      _ ← raise_if (negb (bool_decide (l_provider l = provider)) || negb (l_provider_abi l =? abi))
            ValueError "memory checkpoint layout provider differs from plan provider";
      check_layouts provider abi layouts'
  end.

(** [MemoryCheckpointPlan.create(...)] *)
Definition plan_create (gen own provider : pystr) (provider_abi : Z)
    (layouts : list MemoryLayoutDescriptor) (acts : list MemoryCheckpointAction)
    (mapped_before mapped_after reserved_before reserved_after : Z)
    (transport : list MemoryTransportAction) (parts : list pystr) (evidence : pystr)
    (terminal abort : bool) : res MemoryCheckpointPlan :=
  _ ← check_layouts provider provider_abi layouts;
  let draft digest :=
    Plan 1 gen own provider provider_abi
      (py_sorted digest_leb ((λ l, (r_name (region l), layout_digest l)) <$> layouts))
      (py_sorted name_policy_leb ((λ l, (r_name (region l), r_policy (region l))) <$> layouts))
      acts mapped_before mapped_after reserved_before reserved_after transport
      (sort_str parts) evidence terminal abort digest in
  digest ← canonical_digest (plan_fields (draft []));
  let plan := draft digest in
  _ ← plan_validate plan;
  mret plan.

(** ** Admission of one provider's plan *)

(** What the admission uses of a provider: its capabilities and, when it has one,
    the [prepare_checkpoint] operation, whose answer may be some other object
    ([None]). *)
Record provider := Provider {
  capabilities : ProviderCapabilities;
  prepare_checkpoint : option (list MemoryRegion → pystr → res (option MemoryCheckpointPlan));
}.

Definition action_requirements (a : MemoryCheckpointAction) : list string :=
  match a with
  | RETAIN => []
  | RELEASE_BACKING => ["release_backing_retain_va"]
  | UNMAP_PAGES => ["page_granular_mapping"]
  | REMAP_PAGES => ["page_granular_mapping"; "exact_address_reservation"]
  | REPLAY_MAPPING => ["mapping_recipe_replay"; "exact_address_reservation"]
  end%string.

Fixpoint require_all (c : ProviderCapabilities) (names : list string) (operation : string) : res unit :=
  match names with
  | [] => mret tt
  | n :: names' => _ ← require c n operation; require_all c names' operation
  end.

(** [dict(pairs)] for pairs of names and policies. *)
Definition policy_dict (l : list (pystr * PreservationPolicy)) : gmap pystr PreservationPolicy :=
  list_to_map (reverse l).

Definition require_checkpoint_plan (pr : provider) (regions : option (list region_ref)) (gen : pystr)
    : res MemoryCheckpointPlan :=
  let c := capabilities pr in
  _ ← require c "checkpoint_quiescence" "prepare a memory checkpoint";
  operation ← of_option MemoryCapabilityError "provider has no prepare_checkpoint operation"
                (prepare_checkpoint pr);
  requested ← resolve_regions regions;
  answer ← operation requested gen;
  plan ← of_option MemoryCapabilityError "memory provider returned an invalid checkpoint plan" answer;
  _ ← plan_validate plan;
  _ ← raise_if (negb (bool_decide (p_provider plan = cap_provider c))
                || negb (p_provider_abi plan =? cap_provider_abi c))
        MemoryCapabilityError "memory checkpoint plan provider identity differs from active provider";
  _ ← raise_if (negb (bool_decide (generation plan = gen)))
        MemoryCapabilityError "memory checkpoint plan generation differs from request";
  resolved ← resolve_regions regions;
  _ ← raise_if (negb (set_eqb (fst <$> layout_digests plan) (r_name <$> resolved)))
        MemoryCapabilityError "memory checkpoint plan region inventory differs from request";
  _ ← raise_if (negb (bool_decide
                  (policy_dict (policies plan) = policy_dict ((λ r, (r_name r, r_policy r)) <$> resolved))))
        MemoryCapabilityError "memory checkpoint plan policies differ from requested regions";
  _ ← mapM (λ a, require_all c (action_requirements a) "execute checkpoint action") (actions plan);
  _ ← (if existsb (λ a, negb (bool_decide (a = TRANSPORT_RETAIN))) (transport_actions plan)
       then require c "transport_registration_ownership" "execute checkpoint transport-registration actions"
       else mret tt);
  _ ← (if (1 <? length (participants plan))%nat
          && existsb (λ a, negb (bool_decide (a = RETAIN))) (actions plan)
       then require c "distributed_atomic_mapping" "coordinate a distributed memory checkpoint"
       else mret tt);
  mret plan.

(** ** Agreement across ranks *)

(** What every rank's plan must share. *)
Definition plan_common (p : MemoryCheckpointPlan) :=
  (generation p, p_provider p, p_provider_abi p, policies p, actions p, transport_actions p,
   participants p, terminal_on_failure p, abort_safe p).

Definition agreement_fields (plans : list MemoryCheckpointPlan) : json := JObj [
  (lit "format", JInt 1);
  (lit "kind", JStr (lit "coldsnap-memory-checkpoint-plan-agreement"));
  (lit "plans", JArr ((λ od, JStrs [od.1; od.2])
                       <$> sort_str_pairs ((λ p, (owner p, plan_digest p)) <$> plans)))].

Definition agree_checkpoint_plans (plans : list MemoryCheckpointPlan) : res pystr :=
  first ← of_option MemoryCapabilityError "distributed checkpoint has no participant plans" (head plans);
  _ ← mapM plan_validate plans;
  _ ← raise_if
        (negb (length (remove_dups (plan_common <$> plans)) =? 1)%nat
         || negb (length plans =? length (participants first))%nat
         || negb (set_eqb (owner <$> plans) (participants first)))
        MemoryCapabilityError
        "distributed memory checkpoint plans disagree on policy, generation, or participants";
  canonical_digest (agreement_fields plans).

(** ** The disabled controller *)

Definition NoopRegionController_capabilities : ProviderCapabilities :=
  Capabilities (lit "noop") false false false false false false false 1 [] false false false false
    false false false false false false false.

#[global] Arguments layout_fields : simpl never.
#[global] Arguments layout_guard : simpl never.
#[global] Arguments plan_fields : simpl never.
#[global] Arguments plan_guard : simpl never.
#[global] Arguments agreement_fields : simpl never.
#[global] Arguments canonical_digest : simpl never.
#[global] Arguments canonical_json : simpl never.
