(* ===== verification/MemorySpec.v ===== *)
(** * What the memory contracts guarantee

    Digest binding of layouts and plans, creation and validation, admission by
    [require_checkpoint_plan], and agreement across ranks. *)

From S2P Require Import Prelude PyFloat PyJson PyJsonFacts Hash Memory.

(** ** Enumerations are determined by their values *)

Lemma policy_value_inj p q : policy_value p = policy_value q → p = q.
Proof. by destruct p, q. Qed.
Lemma kind_value_inj p q : kind_value p = kind_value q → p = q.
Proof. by destruct p, q. Qed.
Lemma action_value_inj p q : action_value p = action_value q → p = q.
Proof. by destruct p, q. Qed.
Lemma transport_value_inj p q : transport_value p = transport_value q → p = q.
Proof. by destruct p, q. Qed.

#[global] Instance policy_total : TotalLeb policy_leb.
Proof.
  split; unfold policy_leb; [intros; apply leb_total|intros x y z; apply leb_trans|].
  intros x y ??. by apply policy_value_inj, leb_antisym.
Qed.

(** ** Digests *)

Lemma canonical_digest_Ok v d : canonical_digest v = Ok d →
  has_nan v = false ∧ d = lit "sha256:" ++ hexdigest (dumps canonical_style v).
Proof. unfold canonical_digest, canonical_json. intros. by res_inv. Qed.

Lemma canonical_digest_no_nan v : has_nan v = false →
  canonical_digest v = Ok (lit "sha256:" ++ hexdigest (dumps canonical_style v)).
Proof. unfold canonical_digest, canonical_json. by intros ->. Qed.

(** Equal digests of values with different texts are a collision of SHA-256 between
    those two texts. *)
Definition text_collision (v w : json) : Prop :=
  dumps canonical_style v ≠ dumps canonical_style w
  ∧ sha256 (dumps canonical_style v) = sha256 (dumps canonical_style w).

Lemma digest_binding v w d : exact v = true → exact w = true →
  canonical_digest v = Ok d → canonical_digest w = Ok d →
  sort_keys v = sort_keys w ∨ text_collision v w.
Proof.
  intros Hv Hw [_ Ev]%canonical_digest_Ok [_ Ew]%canonical_digest_Ok.
  assert (sha256 (dumps canonical_style v) = sha256 (dumps canonical_style w)) as Hsha.
  { apply hexdigest_inj, (app_inv_head (lit "sha256:")). congruence. }
  destruct (decide (dumps canonical_style v = dumps canonical_style w)) as [E|E]; [left|by right].
  by apply dumps_inj with (st := canonical_style); [apply canonical_style_ok|..].
Qed.

Lemma sort_keys_JStrs l : sort_keys (JStrs l) = JStrs l.
Proof. unfold JStrs. simpl. f_equal. rewrite <- list_fmap_compose. done. Qed.

Lemma JStr_fmap_inj (l k : list pystr) : JStr <$> l = JStr <$> k → l = k.
Proof. apply list_fmap_eq_inj. by intros ?? [= ->]. Qed.

Lemma sort_keys_JStrs_list {A} (f : A → list pystr) (l : list A) :
  sort_keys (JArr ((λ x, JStrs (f x)) <$> l)) = JArr ((λ x, JStrs (f x)) <$> l).
Proof.
  simpl. f_equal. rewrite <- list_fmap_compose. apply list_fmap_ext. intros i x _. apply sort_keys_JStrs.
Qed.

Definition plan_keys : list pystr :=
  lit <$> ["format"; "generation"; "owner"; "provider"; "provider_abi"; "layout_digests"; "policies";
    "actions"; "mapped_bytes_before"; "mapped_bytes_after"; "reserved_bytes_before";
    "reserved_bytes_after"; "transport_actions"; "participants"; "quiescence_evidence";
    "terminal_on_failure"; "abort_safe"]%string.

Definition plan_values (p : MemoryCheckpointPlan) : list json := [
  JInt (p_format p); JStr (generation p); JStr (owner p); JStr (p_provider p); JInt (p_provider_abi p);
  JArr ((λ nd, JStrs [nd.1; nd.2]) <$> layout_digests p);
  JArr ((λ np, JStrs [np.1; policy_value np.2]) <$> policies p);
  JStrs (action_value <$> actions p);
  JInt (mapped_bytes_before p); JInt (mapped_bytes_after p);
  JInt (reserved_bytes_before p); JInt (reserved_bytes_after p);
  JStrs (transport_value <$> transport_actions p); JStrs (participants p);
  JStr (quiescence_evidence p); JBool (terminal_on_failure p); JBool (abort_safe p)].

Lemma plan_fields_zip p : plan_fields p = JObj (zip plan_keys (plan_values p)).
Proof. done. Qed.

Lemma plan_keys_NoDup : NoDup plan_keys.
Proof. by apply (bool_decide_unpack _). Qed.

(** The canonical text of a plan determines everything but its digest field. *)
Lemma plan_fields_inj p q : sort_keys (plan_fields p) = sort_keys (plan_fields q) →
  plan_digest p = plan_digest q → p = q.
Proof.
  rewrite !plan_fields_zip. intros E Hd.
  apply sort_keys_zip in E; [|apply plan_keys_NoDup|done..].
  unfold plan_values in E. rewrite !fmap_cons, !sort_keys_JStrs, !sort_keys_JStrs_list in E.
  cbn [sort_keys] in E. injection E as E1 E2 E3 E4 E5 E6 E7 E8 E9 E10 E11 E12 E13 E14 E15 E16 E17.
  apply JStr_fmap_inj in E8, E13, E14.
  apply list_fmap_eq_inj in E6; [|by intros [??] [??] [= -> ->]].
  apply list_fmap_eq_inj in E7; [|intros [??] [??] [= -> ?]; f_equal; by apply policy_value_inj].
  apply list_fmap_eq_inj in E8; [|exact action_value_inj].
  apply list_fmap_eq_inj in E13; [|exact transport_value_inj].
  destruct p, q; cbn in *; subst; reflexivity.
Qed.

(** ** Layout descriptors *)

(** The digested fields of a descriptor, with its extension decoded. *)
Definition layout_decoded (d : MemoryLayoutDescriptor) : json :=
  layout_fields d (default JNull (loads (extension_json d))).

Lemma layout_validate_Ok d : layout_validate d = Ok tt ↔
  ∃ e, loads (extension_json d) = Some e ∧ layout_guard d e = false ∧ has_nan e = false
    ∧ extension_json d = dumps canonical_style e ∧ Z.of_nat (length (extension_json d)) <= MIB
    ∧ canonical_digest (layout_fields d e) = Ok (layout_digest d).
Proof.
  unfold layout_validate, canonical_json. split.
  - intros H. res_inv. guards. subst. eexists; repeat split; try done; first [lia|congruence].
  - intros (e & -> & Hg & Hn & Ht & Hl & Hd). simpl. rewrite Hg, Hn. simpl.
    rewrite bool_decide_true by done. destruct (Z.ltb_spec MIB (Z.of_nat (length (extension_json d)))); [lia|].
    simpl. rewrite Hd. simpl. by rewrite bool_decide_true.
Qed.

Definition layout_keys : list pystr :=
  lit <$> ["format"; "provider"; "provider_abi"; "region"; "device"; "base_address"; "logical_bytes";
    "allocation_granularity"; "mapping_granularity"; "layout_kind"; "groups"; "extent_count";
    "transport_registration_mode"; "extension"]%string.
Definition region_keys : list pystr := lit <$> ["name"; "policy"; "stable_address"]%string.

Definition region_values (r : MemoryRegion) : list json :=
  [JStr (r_name r); JStr (policy_value (r_policy r)); JBool (stable_address r)].

Definition layout_values (d : MemoryLayoutDescriptor) (e : json) : list json := [
  JInt (l_format d); JStr (l_provider d); JInt (l_provider_abi d);
  JObj (zip region_keys (region_values (region d))); JStr (device d);
  match base_address d with Some a => JInt a | None => JNull end;
  JInt (logical_bytes d); JInt (allocation_granularity d); JInt (mapping_granularity d);
  JStr (kind_value (layout_kind d)); JStrs (groups d); JInt (extent_count d);
  JStr (transport_registration_mode d); e].

Lemma layout_fields_zip d e : layout_fields d e = JObj (zip layout_keys (layout_values d e)).
Proof. done. Qed.
Lemma layout_keys_NoDup : NoDup layout_keys.
Proof. by apply (bool_decide_unpack _). Qed.
Lemma region_keys_NoDup : NoDup region_keys.
Proof. by apply (bool_decide_unpack _). Qed.

Lemma region_fields_inj r s :
  sort_keys (JObj (zip region_keys (region_values r))) = sort_keys (JObj (zip region_keys (region_values s))) →
  r = s.
Proof.
  intros E. apply sort_keys_zip in E; [|apply region_keys_NoDup|done..].
  unfold region_values in E. rewrite !fmap_cons in E. cbn [sort_keys] in E.
  injection E as E1 E2 E3. apply policy_value_inj in E2. destruct r, s; cbn in *; by subst.
Qed.

Lemma sort_keys_base (b : option Z) :
  sort_keys (match b with Some a => JInt a | None => JNull end) = match b with Some a => JInt a | None => JNull end.
Proof. by destruct b. Qed.

Lemma layout_fields_inj d1 d2 e1 e2 : sort_keys (layout_fields d1 e1) = sort_keys (layout_fields d2 e2) →
  extension_json d1 = dumps canonical_style e1 → extension_json d2 = dumps canonical_style e2 →
  layout_digest d1 = layout_digest d2 → d1 = d2.
Proof.
  rewrite !layout_fields_zip. intros E H1 H2 Hd.
  apply sort_keys_zip in E; [|apply layout_keys_NoDup|done..].
  unfold layout_values in E. rewrite !fmap_cons, !sort_keys_JStrs, !sort_keys_base in E.
  remember (sort_keys (JObj (zip region_keys (region_values (region d1))))) as R1 eqn:HR1.
  remember (sort_keys (JObj (zip region_keys (region_values (region d2))))) as R2 eqn:HR2.
  injection E as E1 E2 E3 E4 E5 E6 E7 E8 E9 E10 E11 E12 E13 E14.
  rewrite HR1, HR2 in E4. apply region_fields_inj in E4. apply kind_value_inj in E10. clear HR1 HR2.
  apply JStr_fmap_inj in E11.
  assert (extension_json d1 = extension_json d2) by (unfold dumps in *; congruence).
  assert (base_address d1 = base_address d2) by (destruct (base_address d1), (base_address d2); congruence).
  clear E6 E14 H1 H2. destruct d1, d2; cbn in *; subst; reflexivity.
Qed.

(** ** Digest binding *)

(** A layout digest identifies the descriptor: two descriptors that both validate
    and carry the same [layout_digest] are equal in every field (the decoded extension
    included), unless their two canonical texts are an explicit SHA-256 collision. *)
Theorem layout_digest_binding d1 d2 :
  layout_validate d1 = Ok tt → layout_validate d2 = Ok tt →
  exact (layout_decoded d1) = true → exact (layout_decoded d2) = true →
  layout_digest d1 = layout_digest d2 →
  d1 = d2 ∨ text_collision (layout_decoded d1) (layout_decoded d2).
Proof.
  intros (e1 & L1 & _ & _ & T1 & _ & D1)%layout_validate_Ok
    (e2 & L2 & _ & _ & T2 & _ & D2)%layout_validate_Ok.
  unfold layout_decoded. rewrite L1, L2. cbn [from_option id]. intros X1 X2 Hd. rewrite <- Hd in D2.
  destruct (digest_binding _ _ _ X1 X2 D1 D2); [left|by right].
  by eapply layout_fields_inj.
Qed.

(** A plan digest identifies the plan: two validated plans with the same
    [plan_digest] are the same plan, unless their two canonical texts are an explicit
    SHA-256 collision. *)
Theorem plan_digest_binding p q :
  plan_validate p = Ok tt → plan_validate q = Ok tt →
  exact (plan_fields p) = true → exact (plan_fields q) = true →
  plan_digest p = plan_digest q →
  p = q ∨ text_collision (plan_fields p) (plan_fields q).
Proof.
  unfold plan_validate. intros Hp Hq Xp Xq Hd. res_inv. guards. subst.
  match goal with
  | Dp : canonical_digest (plan_fields p) = Ok _, Dq : canonical_digest (plan_fields q) = Ok _ |- _ =>
      rewrite Hd in Dp; destruct (digest_binding _ _ _ Xp Xq Dp Dq); [left|by right]
  end.
  by apply plan_fields_inj.
Qed.

(** ** Creating descriptors *)

Lemma layout_fields_ext d e e' : sort_keys e = sort_keys e' →
  sort_keys (layout_fields d e) = sort_keys (layout_fields d e').
Proof. intros H. apply sort_keys_obj_ext. repeat constructor; done. Qed.

(** [create] accepts every argument list that meets the field contract, and what it
    returns validates, carries the arguments, and gives the extension back with its keys
    sorted. *)
Theorem layout_create_complete provider abi reg dev base bytes ag mg kind grps extents mode ext :
  let draft := Layout 1 provider abi reg dev base bytes ag mg kind grps extents mode
                 (dumps canonical_style (JObj ext)) [] in
  exact (layout_fields draft (JObj ext)) = true →
  layout_guard draft (JObj ext) = false →
  Z.of_nat (length (dumps canonical_style (JObj ext))) <= MIB →
  ∃ d e, layout_create provider abi reg dev base bytes ag mg kind grps extents mode ext = Ok d
    ∧ layout_validate d = Ok tt
    ∧ layout_extension d = Ok e ∧ JObj e = sort_keys (JObj ext)
    ∧ d = Layout 1 provider abi reg dev base bytes ag mg kind grps extents mode
            (dumps canonical_style (JObj ext)) (layout_digest d).
Proof.
  intros draft X G L. unfold layout_create.
  assert (exact (JObj ext) = true) as Xe.
  { unfold layout_fields in X. cbn [exact] in X. apply andb_true_iff in X as [X _].
    rewrite forallb_forall in X. specialize (X (lit "extension", JObj ext)).
    apply andb_true_iff in X as [_ X]; [done|]. simpl. tauto. }
  unfold canonical_json at 1. rewrite (exact_no_nan _ Xe). simpl.
  destruct (Z.ltb_spec MIB (Z.of_nat (length (dumps canonical_style (JObj ext))))); [lia|]. simpl.
  fold draft. rewrite (canonical_digest_no_nan _ (exact_no_nan _ X)). simpl.
  set (d := Layout _ _ _ _ _ _ _ _ _ _ _ _ _ _ _).
  pose proof (loads_dumps canonical_style _ canonical_style_ok Xe) as Hl. rewrite sort_keys_obj in Hl.
  assert (layout_validate d = Ok tt) as Hv.
  { apply layout_validate_Ok. exists (sort_keys (JObj ext)). repeat split; try done.
    - apply exact_no_nan. by rewrite exact_sort_keys.
    - by rewrite dumps_sort_keys.
    - assert (dumps canonical_style (layout_fields d (sort_keys (JObj ext)))
        = dumps canonical_style (layout_fields draft (JObj ext))) as E.
      { unfold dumps. rewrite (layout_fields_ext d (sort_keys (JObj ext)) (JObj ext)); [done|].
        apply sort_keys_idemp. }
      rewrite canonical_digest_no_nan, E; [done|]. apply exact_no_nan.
      rewrite <- exact_sort_keys, (layout_fields_ext d _ (JObj ext)), exact_sort_keys; [done|].
      apply sort_keys_idemp. }
  exists d, (py_sorted key_leb (sort_item <$> ext)). rewrite Hv. repeat split; try done.
  unfold layout_extension. simpl. by rewrite Hl.
Qed.

(** ** Plans *)

Lemma plan_validate_Ok p : plan_validate p = Ok tt ↔
  plan_guard p = false ∧ canonical_digest (plan_fields p) = Ok (plan_digest p).
Proof.
  unfold plan_validate. split.
  - intros H. res_inv. guards. by subst.
  - intros [-> Hd]. simpl. rewrite Hd. simpl. by rewrite bool_decide_true.
Qed.

Lemma check_layouts_Ok pr abi ls : check_layouts pr abi ls = Ok tt ↔
  Forall (λ l, layout_validate l = Ok tt ∧ l_provider l = pr ∧ l_provider_abi l = abi) ls.
Proof.
  induction ls as [|l ls IH]; simpl; [split; [constructor|done]|]. split.
  - intros H. res_inv. guards. destruct x. constructor; [|by apply IH]. repeat split; [done..|lia].
  - inversion 1 as [|?? (Hl & Hp & Ha) Hls]; subst. rewrite Hl. simpl.
    rewrite bool_decide_true, Z.eqb_refl by done. by apply IH.
Qed.

(** [MemoryCheckpointPlan.create] does not depend on the order in which layouts or
    participants are listed: reordering either gives the very same plan, digest
    included, so ranks that enumerate regions differently still agree. *)
Theorem plan_create_order_independent gen own pr abi ls ls' acts mb ma rb ra tr parts parts' ev term ab plan :
  ls ≡ₚ ls' → parts ≡ₚ parts' →
  plan_create gen own pr abi ls acts mb ma rb ra tr parts ev term ab = Ok plan →
  plan_create gen own pr abi ls' acts mb ma rb ra tr parts' ev term ab = Ok plan.
Proof.
  intros Hl Hp. unfold plan_create. intros H. apply bind_Ok in H as ([] & Hc & H).
  apply check_layouts_Ok in Hc. rewrite Hl in Hc. apply check_layouts_Ok in Hc. rewrite Hc.
  cbn [mbind res_bind].
  rewrite (py_sorted_perm_eq digest_leb ((λ l, (r_name (region l), layout_digest l)) <$> ls')
    ((λ l, (r_name (region l), layout_digest l)) <$> ls)) by (by rewrite Hl).
  rewrite (py_sorted_perm_eq name_policy_leb ((λ l, (r_name (region l), r_policy (region l))) <$> ls')
    ((λ l, (r_name (region l), r_policy (region l))) <$> ls)) by (by rewrite Hl).
  by rewrite (py_sorted_perm_eq str_leb parts' parts) by (by rewrite Hp).
Qed.

Lemma plan_guard_false p : plan_guard p = false →
  participants p ≠ [] ∧ NoDup (participants p) ∧ owner p ∈ participants p ∧ actions p ≠ []
  ∧ NoDup (fst <$> layout_digests p) ∧ NoDup (fst <$> policies p)
  ∧ (∀ n, n ∈ fst <$> layout_digests p ↔ n ∈ fst <$> policies p)
  ∧ NoDup (actions p) ∧ NoDup (transport_actions p).
Proof.
  unfold plan_guard. intros H. guards.
  repeat match goal with
  | H : sorted_set _ _ = _ |- _ => apply sorted_set_id in H as [? _]; [|apply _]
  | H : has_dups _ = false |- _ => apply has_dups_false in H
  | H : set_eqb _ _ = true |- _ => pose proof (proj1 (set_eqb_spec _ _) H) as Hset; clear H
  end.
  repeat split; first [assumption|apply Hset].
Qed.

(** What [create] returns is a plan over exactly the given layouts: one digest and
    one policy per layout, every layout valid and of the plan's provider, region names
    pairwise distinct, and the owner among the sorted, distinct participants. *)
Theorem plan_create_sound gen own pr abi ls acts mb ma rb ra tr parts ev term ab plan :
  plan_create gen own pr abi ls acts mb ma rb ra tr parts ev term ab = Ok plan →
  plan_validate plan = Ok tt
  ∧ layout_digests plan ≡ₚ (λ l, (r_name (region l), layout_digest l)) <$> ls
  ∧ policies plan ≡ₚ (λ l, (r_name (region l), r_policy (region l))) <$> ls
  ∧ Forall (λ l, layout_validate l = Ok tt ∧ l_provider l = pr ∧ l_provider_abi l = abi) ls
  ∧ NoDup (r_name <$> (region <$> ls))
  ∧ participants plan ≡ₚ parts ∧ NoDup parts ∧ own ∈ parts.
Proof.
  unfold plan_create. intros H. res_inv.
  match goal with H : check_layouts _ _ _ = Ok ?u |- _ => destruct u; apply check_layouts_Ok in H end.
  match goal with H : plan_validate _ = Ok ?u |- _ => destruct u; pose proof H as Hv end.
  apply plan_validate_Ok in Hv as [(_ & Hnd & Hin & _ & Hn & _)%plan_guard_false _]. simpl in *.
  rewrite py_sorted_perm in Hnd. rewrite py_sorted_perm in Hin. rewrite py_sorted_perm in Hn. rewrite <- list_fmap_compose in Hn.
  split_and!; try assumption; try apply py_sorted_perm. by rewrite <- list_fmap_compose.
Qed.

(** ** Regions *)

Definition refers (v : region_ref) (r : MemoryRegion) : Prop :=
  match v with inr r' => r = r' | inl k => find_region k = Some r end.

Lemma resolve_loop_Ok values seen acc rs : resolve_loop values seen acc = Ok rs ↔
  ∃ new, rs = acc ++ new ∧ Forall2 refers values new ∧ NoDup (r_name <$> new)
    ∧ ∀ n, n ∈ r_name <$> new → n ∉ seen.
Proof.
  revert seen acc. induction values as [|v values IH]; intros seen acc; simpl.
  - split.
    + intros [= <-]. exists []. rewrite app_nil_r. repeat split; [constructor..|]. by intros ? ?%not_elem_of_nil.
    + intros (new & -> & H & _). inversion H; subst. by rewrite app_nil_r.
  - split.
    + intros H. res_inv. guards. apply IH in H as (new & -> & HF & Hnd & Hd).
      exists (x :: new). rewrite <- app_assoc. csimpl. split; [done|]. split; [|split].
      * constructor; [|done]. destruct v; simpl in *; res_inv; done.
      * constructor; [|done]. intros Hin. destruct (Hd _ Hin). by left.
      * intros n [->|Hn]%elem_of_cons; [done|]. intros ?. destruct (Hd _ Hn). by right.
    + intros (new & -> & HF & Hnd & Hd). inversion HF as [|? r ? new' Hr HF']; subst. csimpl in *.
      apply NoDup_cons in Hnd as [Hr1 Hr2].
      assert ((match v with inr r0 => mret r0
        | inl k => of_option MemoryCapabilityError "unknown memory region" (find_region k) end) = Ok r) as ->.
      { destruct v; simpl in *; [by rewrite Hr|by subst]. }
      simpl. rewrite bool_decide_false by (apply Hd; by left). simpl.
      apply IH. exists new'. rewrite <- app_assoc. repeat split; try done.
      intros n Hn [->|?]%elem_of_cons; [done|]. eapply Hd; [by right|done].
Qed.

(** [resolve_regions] succeeds exactly when every requested name is a standard
    region (or is a region object) and no region name repeats, and then returns one
    region per request in the caller's order. *)
Theorem resolve_regions_spec values rs :
  resolve_regions (Some values) = Ok rs ↔ Forall2 refers values rs ∧ NoDup (r_name <$> rs).
Proof.
  simpl. rewrite resolve_loop_Ok. split.
  - by intros (new & -> & ? & ? & _).
  - intros [? ?]. exists rs. repeat split; try done. by intros ?? ?%not_elem_of_nil.
Qed.

Lemma resolve_regions_NoDup values rs : resolve_regions values = Ok rs → NoDup (r_name <$> rs).
Proof.
  destruct values as [l|].
  - simpl. by intros (new & -> & _ & ? & _)%resolve_loop_Ok.
  - intros [= <-]. by apply (bool_decide_unpack _).
Qed.

(** ** Admission *)

Lemma require_Ok c n op : require c n op = Ok tt ↔ capability c n = true.
Proof. unfold require. rewrite raise_if_Ok, negb_false_iff. done. Qed.

Lemma require_all_Ok c ns op : require_all c ns op = Ok tt ↔ Forall (λ n, capability c n = true) ns.
Proof.
  induction ns as [|n ns IH]; simpl; [split; [constructor|done]|]. split.
  - intros H. res_inv. destruct x. constructor; [by eapply require_Ok|by apply IH].
  - inversion 1; subst. rewrite (proj2 (require_Ok c n op)) by done. by apply IH.
Qed.

Lemma policy_dict_lookup l n p : NoDup (fst <$> l) → policy_dict l !! n = Some p ↔ (n, p) ∈ l.
Proof.
  intros H. unfold policy_dict. rewrite <- elem_of_list_to_map.
  - by rewrite reverse_Permutation.
  - by rewrite reverse_Permutation.
Qed.

(** C19. A plan that [require_checkpoint_plan] admits validates, belongs to the active
    provider and the requested generation, covers exactly the requested regions with
    exactly their preservation policies, and uses only physical, transport and
    distributed actions whose capabilities the provider advertises. *)
Theorem require_checkpoint_plan_sound pr regions gen plan :
  require_checkpoint_plan pr regions gen = Ok plan →
  let c := capabilities pr in
  ∃ requested, resolve_regions regions = Ok requested ∧ plan_validate plan = Ok tt
    ∧ checkpoint_quiescence c = true
    ∧ p_provider plan = cap_provider c ∧ p_provider_abi plan = cap_provider_abi c ∧ generation plan = gen
    ∧ fst <$> layout_digests plan ≡ₚ r_name <$> requested
    ∧ policies plan ≡ₚ (λ r, (r_name r, r_policy r)) <$> requested
    ∧ (∀ a, a ∈ actions plan → Forall (λ n, capability c n = true) (action_requirements a))
    ∧ (∀ a, a ∈ transport_actions plan → a ≠ TRANSPORT_RETAIN → transport_registration_ownership c = true)
    ∧ (∀ a, a ∈ actions plan → a ≠ RETAIN → (1 < length (participants plan))%nat →
        distributed_atomic_mapping c = true).
Proof.
  unfold require_checkpoint_plan. intros H. res_inv. guards.
  repeat match goal with u : unit |- _ => destruct u end.
  match goal with H1 : resolve_regions _ = Ok ?a, H2 : resolve_regions _ = Ok ?b |- _ =>
    rewrite H1 in H2; injection H2 as <-; rename H1 into Hres end.
  match goal with H : plan_validate _ = Ok tt |- _ => pose proof H as Hv end.
  apply plan_validate_Ok in Hv as [(_ & _ & _ & _ & Hn & Hp & _)%plan_guard_false _].
  pose proof (resolve_regions_NoDup _ _ Hres) as Hr.
  match goal with H : mapM _ _ = Ok _ |- _ => apply mapM_unit_inv in H; rewrite Forall_forall in H; rename H into Hacts end.
  match goal with H : (if existsb _ (transport_actions _) then _ else _) = _ |- _ => rename H into Htr end.
  match goal with H : (if (_ && _) then _ else _) = _ |- _ => rename H into Hdist end.
  match goal with H : require _ "checkpoint_quiescence" _ = Ok _ |- _ => apply require_Ok in H end.
  eexists; split; [done|]. repeat split; try done; try lia.
  - match goal with H : set_eqb _ _ = true |- _ => rewrite set_eqb_spec in H; rename H into Hset end.
    by apply NoDup_Permutation.
  - match goal with H : policy_dict _ = policy_dict _ |- _ => rename H into Hpol end.
    assert (NoDup (fst <$> ((λ r, (r_name r, r_policy r)) <$> x1))) by (by rewrite <- list_fmap_compose).
    apply NoDup_Permutation; [by eapply NoDup_fmap_1|by eapply NoDup_fmap_1|].
    intros [n p]. by rewrite <- !policy_dict_lookup, Hpol.
  - intros a Ha. by eapply require_all_Ok, Hacts.
  - intros a Ha Hne. erewrite existsb_elem in Htr; [by apply require_Ok in Htr|exact Ha|].
    by rewrite bool_decide_false.
  - intros a Ha Hne Hlen. apply Nat.ltb_lt in Hlen. rewrite Hlen in Hdist.
    erewrite existsb_elem in Hdist; [by apply require_Ok in Hdist|exact Ha|].
    by rewrite bool_decide_false.
Qed.

(** ** Agreement *)

Lemma agree_Ok plans digest : agree_checkpoint_plans plans = Ok digest ↔
  ∃ first, head plans = Some first ∧ Forall (λ p, plan_validate p = Ok tt) plans
    ∧ length (remove_dups (plan_common <$> plans)) = 1%nat
    ∧ length plans = length (participants first)
    ∧ (∀ x, x ∈ owner <$> plans ↔ x ∈ participants first)
    ∧ canonical_digest (agreement_fields plans) = Ok digest.
Proof.
  unfold agree_checkpoint_plans. split.
  - intros H. res_inv. guards. rewrite Nat.eqb_eq in *.
    match goal with H : set_eqb _ _ = true |- _ => rewrite set_eqb_spec in H end.
    eexists; split_and!; try done. by eapply mapM_unit_inv.
  - intros (first & -> & Hv & H1 & H2 & H3 & Hd). cbn [mbind res_bind of_option].
    destruct (mapM plan_validate plans) eqn:E.
    2:{ apply mapM_unit_Ok in Hv. by rewrite E in Hv. }
    apply set_eqb_spec in H3. by rewrite H1, H2, H3, !Nat.eqb_refl.
Qed.

Lemma remove_dups_one {A} `{EqDecision A} (l : list A) x y :
  length (remove_dups l) = 1%nat → x ∈ l → y ∈ l → x = y.
Proof.
  intros H Hx Hy. rewrite <- elem_of_remove_dups in Hx, Hy.
  destruct (remove_dups l) as [|z [|]]; try done.
  apply list_elem_of_singleton in Hx, Hy. congruence.
Qed.

Lemma agree_common plans digest p q : agree_checkpoint_plans plans = Ok digest →
  p ∈ plans → q ∈ plans → plan_common p = plan_common q.
Proof.
  intros (first & _ & _ & H & _)%agree_Ok Hp Hq.
  eapply remove_dups_one; [exact H|by apply list_elem_of_fmap_2..].
Qed.

(** When the ranks agree, every plan validates, all plans share generation,
    provider, policies, actions, participants and failure policy, and the owners are the
    participants, each exactly once: no rank is missing and none is counted twice. *)
Theorem agree_checkpoint_plans_sound plans digest :
  agree_checkpoint_plans plans = Ok digest →
  plans ≠ [] ∧ Forall (λ p, plan_validate p = Ok tt) plans
  ∧ (∀ p q, p ∈ plans → q ∈ plans → plan_common p = plan_common q)
  ∧ (∀ p, p ∈ plans → owner <$> plans ≡ₚ participants p).
Proof.
  intros H. pose proof H as (first & Hh & Hv & _ & Hl & Ho & _)%agree_Ok.
  assert (first ∈ plans) as Hin by (destruct plans; simplify_eq/=; by left).
  split_and!; [by intros ->|done|intros; by eapply agree_common|].
  intros p Hp. assert (participants p = participants first) as ->.
  { by injection (agree_common _ _ p first H Hp Hin). }
  rewrite Forall_forall in Hv. apply same_set_perm; [|by rewrite length_fmap|done].
  apply Hv, plan_validate_Ok in Hin as [(_ & ? & _)%plan_guard_false _]. done.
Qed.

(** The group receipt does not depend on the order in which the plans arrive. *)
Theorem agree_checkpoint_plans_order plans plans' digest :
  plans ≡ₚ plans' → agree_checkpoint_plans plans = Ok digest → agree_checkpoint_plans plans' = Ok digest.
Proof.
  intros Hp H. pose proof H as (first & Hh & Hv & H1 & Hl & Ho & Hd)%agree_Ok.
  destruct plans' as [|first' plans']; [by apply Permutation_nil_r in Hp; subst|].
  assert (first ∈ plans) as Hin by (destruct plans; simplify_eq/=; by left).
  assert (participants first' = participants first) as E.
  { assert (first' ∈ plans) as Hin' by (rewrite Hp; by left).
    by injection (agree_common _ _ _ _ H Hin' Hin). }
  apply agree_Ok. exists first'. rewrite E. split_and!; [done|by rewrite <- Hp| |by rewrite <- Hp| |].
  - assert (remove_dups (plan_common <$> plans) ≡ₚ remove_dups (plan_common <$> first' :: plans')) as <-; [|done].
    apply NoDup_Permutation; [apply NoDup_remove_dups..|].
    intros x. by rewrite !elem_of_remove_dups, Hp.
  - intros x. by rewrite <- Ho, Hp.
  - rewrite <- Hd. unfold agreement_fields.
    by rewrite (py_sorted_perm_eq digest_leb ((λ p, (owner p, plan_digest p)) <$> first' :: plans')
      ((λ p, (owner p, plan_digest p)) <$> plans)) by (by rewrite Hp).
Qed.

(** The group receipt binds every accepted plan: two agreements with the same receipt
    are over the same owners with the same plan digests, unless their canonical texts
    are an explicit SHA-256 collision. *)
Theorem agreement_binding plans plans' digest :
  agree_checkpoint_plans plans = Ok digest → agree_checkpoint_plans plans' = Ok digest →
  exact (agreement_fields plans) = true → exact (agreement_fields plans') = true →
  (λ p, (owner p, plan_digest p)) <$> plans ≡ₚ (λ p, (owner p, plan_digest p)) <$> plans'
  ∨ text_collision (agreement_fields plans) (agreement_fields plans').
Proof.
  intros (_ & _ & _ & _ & _ & _ & D)%agree_Ok (_ & _ & _ & _ & _ & _ & D')%agree_Ok X X'.
  destruct (digest_binding _ _ _ X X' D D') as [E|]; [left|by right].
  apply (sort_keys_obj_get _ _ (lit "plans")) in E;
    [|by apply (bool_decide_unpack _)..].
  change (Some (sort_keys (JArr ((λ od, JStrs [od.1; od.2]) <$> sort_str_pairs ((λ p, (owner p, plan_digest p)) <$> plans))))
    = Some (sort_keys (JArr ((λ od, JStrs [od.1; od.2]) <$> sort_str_pairs ((λ p, (owner p, plan_digest p)) <$> plans'))))) in E.
  rewrite !sort_keys_JStrs_list in E. injection E as E.
  apply list_fmap_eq_inj in E; [|by intros [??] [??] [= -> ->]].
  by rewrite <- (py_sorted_perm digest_leb), E, py_sorted_perm.
Qed.

(** ** Concrete instances *)

Definition blank_layout : MemoryLayoutDescriptor :=
  Layout 0 [] 0 WEIGHTS [] None 0 0 0 OPAQUE [] 0 [] [] [].

Definition sample_layout_create (r : MemoryRegion) : res MemoryLayoutDescriptor :=
  layout_create (lit "cumem") 2 r (lit "cuda:0") (Some 4096) 8192 4096 4096 PER_LAYER
    [lit "attn"; lit "mlp"] 2 (lit "none") [(lit "pages", JArr [JInt 1; JNull]); (lit "a", JBool true)].

Definition sample_weights : MemoryLayoutDescriptor :=
  Eval vm_compute in ok_or blank_layout (sample_layout_create WEIGHTS).
Definition sample_kv : MemoryLayoutDescriptor :=
  Eval vm_compute in ok_or blank_layout (sample_layout_create KV_CACHE).

Definition blank_plan : MemoryCheckpointPlan := Plan 0 [] [] [] 0 [] [] [] 0 0 0 0 [] [] [] false false [].

#[local] Notation sample_create own layouts parts :=
  (plan_create (lit "gen-7") (lit own) (lit "cumem") 2 layouts [UNMAP_PAGES; REMAP_PAGES] 8192 0 8192 8192
    [DETACH_REGISTRATIONS] (lit <$> parts) (lit "quiesced") true false).

Definition sample_plan0 : MemoryCheckpointPlan :=
  Eval vm_compute in ok_or blank_plan (sample_create "rank0" [sample_kv; sample_weights] ["rank1"; "rank0"]%string).
Definition sample_plan1 : MemoryCheckpointPlan :=
  Eval vm_compute in ok_or blank_plan (sample_create "rank1" [sample_kv; sample_weights] ["rank1"; "rank0"]%string).

Definition sample_provider : provider :=
  Provider
    (Capabilities (lit "cumem") true true true true true true true 2 [] true true true true true true true
       true true true true)
    (Some (λ _ _, Ok (Some sample_plan0))).

Definition sample_receipt : pystr :=
  Eval vm_compute in ok_or [] (agree_checkpoint_plans [sample_plan1; sample_plan0]).

Lemma sample_weights_valid : layout_validate sample_weights = Ok tt.
Proof. vm_compute. reflexivity. Qed.
Lemma sample_plan0_created :
  sample_create "rank0" [sample_kv; sample_weights] ["rank1"; "rank0"]%string = Ok sample_plan0.
Proof. vm_compute. reflexivity. Qed.
Lemma sample_plan0_valid : plan_validate sample_plan0 = Ok tt.
Proof. vm_compute. reflexivity. Qed.
Lemma sample_agreement : agree_checkpoint_plans [sample_plan1; sample_plan0] = Ok sample_receipt.
Proof. vm_compute. reflexivity. Qed.

Lemma layout_digest_binding_witness :
  sample_weights = sample_weights
  ∨ text_collision (layout_decoded sample_weights) (layout_decoded sample_weights).
Proof.
  apply (layout_digest_binding sample_weights sample_weights sample_weights_valid sample_weights_valid);
    vm_compute; reflexivity.
Defined.

Lemma plan_digest_binding_witness :
  sample_plan0 = sample_plan0 ∨ text_collision (plan_fields sample_plan0) (plan_fields sample_plan0).
Proof.
  apply (plan_digest_binding sample_plan0 sample_plan0 sample_plan0_valid sample_plan0_valid);
    vm_compute; reflexivity.
Defined.

Lemma layout_create_complete_witness :
  ∃ d e, layout_create (lit "cumem") 2 KV_CACHE (lit "cuda:0") (Some 4096) 8192 4096 4096 PER_LAYER
      [lit "attn"] 2 (lit "none") [(lit "b", JInt 1); (lit "a", JNull)] = Ok d
    ∧ layout_validate d = Ok tt ∧ layout_extension d = Ok e
    ∧ JObj e = sort_keys (JObj [(lit "b", JInt 1); (lit "a", JNull)])
    ∧ d = Layout 1 (lit "cumem") 2 KV_CACHE (lit "cuda:0") (Some 4096) 8192 4096 4096 PER_LAYER
            [lit "attn"] 2 (lit "none")
            (dumps canonical_style (JObj [(lit "b", JInt 1); (lit "a", JNull)])) (layout_digest d).
Proof. apply layout_create_complete; vm_compute; first [reflexivity|discriminate]. Defined.

Lemma plan_create_order_independent_witness :
  sample_create "rank0" [sample_weights; sample_kv] ["rank0"; "rank1"]%string = Ok sample_plan0.
Proof.
  apply (plan_create_order_independent (lit "gen-7") (lit "rank0") (lit "cumem") 2
    [sample_kv; sample_weights] [sample_weights; sample_kv] [UNMAP_PAGES; REMAP_PAGES] 8192 0 8192 8192
    [DETACH_REGISTRATIONS] (lit <$> ["rank1"; "rank0"]%string) (lit <$> ["rank0"; "rank1"]%string)
    (lit "quiesced") true false sample_plan0);
    [apply perm_swap|apply perm_swap|exact sample_plan0_created].
Defined.

Lemma plan_create_sound_witness : participants sample_plan0 ≡ₚ lit <$> ["rank1"; "rank0"]%string.
Proof.
  apply (plan_create_sound (lit "gen-7") (lit "rank0") (lit "cumem") 2
    [sample_kv; sample_weights] [UNMAP_PAGES; REMAP_PAGES] 8192 0 8192 8192
    [DETACH_REGISTRATIONS] (lit <$> ["rank1"; "rank0"]%string) (lit "quiesced") true false sample_plan0
    sample_plan0_created).
Defined.

Lemma require_checkpoint_plan_sound_witness :
  ∃ requested,
    resolve_regions (Some [inl (lit "weights"); inr KV_CACHE]) = Ok requested
    ∧ generation sample_plan0 = lit "gen-7".
Proof.
  destruct (require_checkpoint_plan_sound sample_provider (Some [inl (lit "weights"); inr KV_CACHE])
    (lit "gen-7") sample_plan0) as (rs & H & _ & _ & _ & _ & Hg & _); [vm_compute; reflexivity|].
  exists rs. split; [exact H|exact Hg].
Defined.

Lemma agree_checkpoint_plans_sound_witness :
  owner <$> [sample_plan1; sample_plan0] ≡ₚ participants sample_plan0.
Proof.
  apply (agree_checkpoint_plans_sound [sample_plan1; sample_plan0] sample_receipt sample_agreement).
  right. left.
Defined.

Lemma agree_checkpoint_plans_order_witness :
  agree_checkpoint_plans [sample_plan0; sample_plan1] = Ok sample_receipt.
Proof.
  apply (agree_checkpoint_plans_order [sample_plan1; sample_plan0]); [apply perm_swap|exact sample_agreement].
Defined.

Lemma agreement_binding_witness :
  let plans := [sample_plan1; sample_plan0] in
  (λ p, (owner p, plan_digest p)) <$> plans ≡ₚ (λ p, (owner p, plan_digest p)) <$> plans
  ∨ text_collision (agreement_fields plans) (agreement_fields plans).
Proof.
  apply (agreement_binding [sample_plan1; sample_plan0] [sample_plan1; sample_plan0] sample_receipt
    sample_agreement sample_agreement); vm_compute; reflexivity.
Defined.
