(* ===== verification/Checkpoint.v ===== *)
(** * External resources across a checkpoint ([coldsnap_core/checkpoint.py])

    Adapters register resources that cannot enter a process image; [prepare] suspends
    all of them or rolls back, [restore] resumes what [prepare] suspended. The
    registry is modelled twice: operation by operation as the code runs them, and as
    a step relation in which other threads act between the calls to the adapters. *)

From S2P Require Import Prelude PyFloat PyJson PyJsonFacts Hash.

(** ** [assert_no_io_uring] *)

(** What the check reads of [/proc]; each read can raise. *)
Record procfs := Procfs {
  fd_dir : Z → res (list pystr);
  fd_target : Z → pystr → res pystr;
  task_dir : Z → res (list pystr);
  task_comm : Z → pystr → res pystr;
}.

Definition is_not_found (c : exc_class) : bool := bool_decide (c = FileNotFoundError).

Inductive finding :=
| UringFd (pid : Z) (fd : pystr)
| UringThread (pid : Z) (task : pystr) (name : pystr).

Definition uring_target (t : pystr) : bool :=
  bool_decide (t = lit "anon_inode:[io_uring]") || bool_decide (t = lit "anon_inode:io_uring").
Definition uring_comm (name : pystr) : bool :=
  starts_with (lit "iou-wrk-") name || starts_with (lit "iou-sqp-") name.

(** [try: x = m except FileNotFoundError: continue]: [None] continues the loop. *)
Definition or_continue {A} (m : res A) : res (option A) :=
  match m with
  | Ok a => Ok (Some a)
  | Raise e => if is_not_found (exc e) then Ok None else Raise e
  end.

(** [except OSError as error: raise CheckpointResourceError(...) from error] *)
Definition os_error_as {A} (what : string) (m : res A) : res A :=
  py_except m is_os_error (λ _, Raise (Exn CheckpointResourceError what)).

Fixpoint scan_fds (p : procfs) (pid : Z) (entries : list pystr) (remaining : list finding)
    : res (list finding) :=
  match entries with
  | [] => mret remaining
  | fd :: entries' =>
      target ← os_error_as "cannot inspect checkpoint descriptor" (or_continue (fd_target p pid fd));
      match target with
      | None => scan_fds p pid entries' remaining
      | Some t =>
          scan_fds p pid entries' (if uring_target t then remaining ++ [UringFd pid fd] else remaining)
      end
  end.

Fixpoint scan_tasks (p : procfs) (pid : Z) (tasks : list pystr) (remaining : list finding)
    : res (list finding) :=
  match tasks with
  | [] => mret remaining
  | t :: tasks' =>
      name ← or_continue (py_strip <$> task_comm p pid t);
      match name with
      | None => scan_tasks p pid tasks' remaining
      | Some n =>
          scan_tasks p pid tasks' (if uring_comm n then remaining ++ [UringThread pid t n] else remaining)
      end
  end.

Fixpoint scan_pids (p : procfs) (pids : list Z) (remaining : list finding) : res (list finding) :=
  match pids with
  | [] => mret remaining
  | pid :: pids' =>
      entries ← os_error_as "cannot inspect checkpoint descriptors" (or_continue (fd_dir p pid));
      match entries with
      | None => scan_pids p pids' remaining
      | Some es =>
          remaining1 ← scan_fds p pid es remaining;
          remaining2 ← os_error_as "cannot inspect checkpoint threads"
            (tasks ← or_continue (task_dir p pid);
             match tasks with None => mret remaining1 | Some ts => scan_tasks p pid ts remaining1 end);
          scan_pids p pids' remaining2
      end
  end.

Definition assert_no_io_uring (p : procfs) (pids : list Z) : res unit :=
  remaining ← scan_pids p pids [];
  raise_if (negb (bool_decide (length remaining = 0%nat)))
    CheckpointResourceError "io_uring resources remain after checkpoint prepare".

(** ** The adapter interface

    An adapter is external code acting on a world [W]. [suspended] says which
    resources currently have their external handles closed. The laws are the
    protocol's documentation: [prepare] suspends atomically or leaves the resource
    usable when it raises; [restore] reconstructs that resource; neither touches
    another resource. *)

Notation report := (list (pystr * json)) (only parsing).

Class CheckpointResource (R W : Type) `{EqDecision R} := {
  res_prepare : R → W → res report * W;
  res_restore : R → W → res report * W;
  suspended : W → R → bool;
  prepare_suspends r w x w' : res_prepare r w = (Ok x, w') →
    ∀ r', suspended w' r' = bool_decide (r' = r) || suspended w r';
  prepare_raises r w e w' : res_prepare r w = (Raise e, w') →
    ∀ r', suspended w' r' = suspended w r';
  restore_resumes r w x w' : res_restore r w = (Ok x, w') →
    ∀ r', suspended w' r' = negb (bool_decide (r' = r)) && suspended w r';
  restore_raises r w e w' : res_restore r w = (Raise e, w') →
    ∀ r', r' ≠ r → suspended w' r' = suspended w r';
}.

(** ** The registry *)

Inductive Phase := Active | Preparing | Prepared | Restoring | Failed.
#[global] Instance phase_eq_dec : EqDecision Phase.
Proof. solve_decision. Defined.

Section registry.
Context {R W : Type} `{CheckpointResource R W}.

Record registry := Registry {
  resources : list (pystr * R);
  prepared : list (pystr * R);
  phase : Phase;
  sequence : Z;
  last_report : option json;
}.

Definition new_registry : registry := Registry [] [] Active 0 None.

Definition set_phase (p : Phase) (g : registry) : registry :=
  Registry (resources g) (prepared g) p (sequence g) (last_report g).

(** [f"{kind}-{sequence}"] *)
Definition resource_name (kind : pystr) (n : Z) : pystr := kind ++ lit "-" ++ str_of_Z n.

Definition register (r : R) (kind : pystr) (g : registry) : res (pystr * registry) :=
  _ ← raise_if (negb (bool_decide (phase g = Active))) CheckpointResourceError "cannot register a resource";
  _ ← raise_if (bool_decide (kind = [])) CheckpointResourceError "invalid checkpoint resource contract";
  let n := sequence g + 1 in
  let name := resource_name kind n in
  mret (name, Registry (resources g ++ [(name, r)]) (prepared g) (phase g) n (last_report g)).

Definition remove_name (name : pystr) (l : list (pystr * R)) : list (pystr * R) :=
  filter (λ nr, nr.1 ≠ name) l.

(** [unregister], and the disappearance of a weakly held entry when its object is
    collected, have the same effect on the dictionary. *)
Definition unregister (name : pystr) (g : registry) : registry :=
  Registry (remove_name name (resources g)) (prepared g) (phase g) (sequence g) (last_report g).

(** [{"name": name, **report}] *)
Definition named_report (name : pystr) (rep : report) : json :=
  JObj (foldl (λ d kv, dict_set kv.1 kv.2 d) [(lit "name", JStr name)] rep).

Definition registry_result (ph : string) (reports : list json) : json := JObj [
  (lit "format", JInt 1); (lit "kind", JStr (lit "coldsnap-checkpoint-resources"));
  (lit "phase", JStr (lit ph)); (lit "resources", JArr reports)].

(** The loop over [resource.prepare()]: what was prepared so far, the reports so far,
    and the exception that stopped it, if any. *)
Fixpoint prepare_loop (items : list (pystr * R)) (dn : list (pystr * R)) (reports : list json) (w : W)
    : list (pystr * R) * list json * option exn * W :=
  match items with
  | [] => (dn, reports, None, w)
  | (name, r) :: items' =>
      match res_prepare r w with
      | (Ok rep, w') => prepare_loop items' (dn ++ [(name, r)]) (reports ++ [named_report name rep]) w'
      | (Raise e, w') => (dn, reports, Some e, w')
      end
  end.

(** Rolling back [reversed(prepared)]; returns the names whose restore raised. *)
Fixpoint rollback_loop (items : list (pystr * R)) (failures : list pystr) (w : W) : list pystr * W :=
  match items with
  | [] => (failures, w)
  | (name, r) :: items' =>
      match res_restore r w with
      | (Ok _, w') => rollback_loop items' failures w'
      | (Raise _, w') => rollback_loop items' (failures ++ [name]) w'
      end
  end.

Definition prepare_failed (failures : list pystr) : exn :=
  Exn CheckpointResourceError
    (if failures then "checkpoint resource prepare failed"
     else "checkpoint resource prepare failed; rollback failed").

(** [ResourceRegistry.prepare]; [uring] is the call [assert_no_io_uring()] in the world
    it runs in. *)
Definition prepare (uring : W → res unit) (g : registry) (w : W) : res json * registry * W :=
  match phase g with
  | Prepared =>
      (of_option AssertionError "report" (last_report g), g, w)
  | Active =>
      let items := resources g in
      let g1 := set_phase Preparing g in
      let '(dn, reports, stopped, w1) := prepare_loop items [] [] w in
      let error := match stopped with
                   | Some e => Some e
                   | None => match uring w1 with Ok _ => None | Raise e => Some e end
                   end in
      match error with
      | Some _ =>
          let '(failures, w2) := rollback_loop (reverse dn) [] w1 in
          let ph := match failures with [] => Active | _ => Failed end in
          (Raise (prepare_failed failures), set_phase ph g1, w2)
      | None =>
          let rep := registry_result "prepared" reports in
          (Ok rep, Registry (resources g1) dn Prepared (sequence g1) (Some rep), w1)
      end
  | _ => (Raise (Exn CheckpointResourceError "cannot prepare resources"), g, w)
  end.

Fixpoint restore_loop (items : list (pystr * R)) (reports : list json) (w : W) : res (list json) * W :=
  match items with
  | [] => (Ok reports, w)
  | (name, r) :: items' =>
      match res_restore r w with
      | (Ok rep, w') => restore_loop items' (reports ++ [named_report name rep]) w'
      | (Raise e, w') => (Raise e, w')
      end
  end.

(** [ResourceRegistry.restore] *)
Definition restore (g : registry) (w : W) : res json * registry * W :=
  match phase g with
  | Prepared =>
      let g1 := set_phase Restoring g in
      let items := prepared g in
      match restore_loop items [] w with
      | (Raise _, w1) =>
          (Raise (Exn CheckpointResourceError "checkpoint resource restore failed"), set_phase Failed g1, w1)
      | (Ok reports, w1) =>
          (Ok (registry_result "restored" reports),
           Registry (resources g1) [] Active (sequence g1) None, w1)
      end
  | _ => (Raise (Exn CheckpointResourceError "cannot restore resources"), g, w)
  end.

(** ** The registry as a step relation

    The lock is held only while the phase changes, so between two adapter calls other
    threads run. [run] is the thread inside [prepare] or [restore], if any; every other
    operation is one locked section and hence one step. *)

Notation item := (list N * R)%type.

Inductive runner :=
| Idle
| InPrepare (todo dn : list item) (reports : list json)
| InRollback (todo : list item) (failures : list pystr)
| InRestore (todo : list item) (reports : list json).

Record sys := Sys { reg : registry; run : runner; world : W }.

Variable uring : W → res unit.

Inductive step : sys → sys → Prop :=
| step_register r kind name g g' k w :
    register r kind g = Ok (name, g') → step (Sys g k w) (Sys g' k w)
| step_unregister name g k w : step (Sys g k w) (Sys (unregister name g) k w)
| step_prepare_begin g w : phase g = Active →
    step (Sys g Idle w) (Sys (set_phase Preparing g) (InPrepare (resources g) [] []) w)
| step_prepare_one g name r todo dn reports rep w w' : res_prepare r w = (Ok rep, w') →
    step (Sys g (InPrepare ((name, r) :: todo) dn reports) w)
         (Sys g (InPrepare todo (dn ++ [(name, r)]) (reports ++ [named_report name rep])) w')
| step_prepare_raises g name r todo dn reports e w w' : res_prepare r w = (Raise e, w') →
    step (Sys g (InPrepare ((name, r) :: todo) dn reports) w) (Sys g (InRollback (reverse dn) []) w')
| step_uring_raises g dn reports e w : uring w = Raise e →
    step (Sys g (InPrepare [] dn reports) w) (Sys g (InRollback (reverse dn) []) w)
| step_prepare_commit g dn reports w : uring w = Ok tt →
    step (Sys g (InPrepare [] dn reports) w)
         (Sys (Registry (resources g) dn Prepared (sequence g) (Some (registry_result "prepared" reports))) Idle w)
| step_rollback_one g name r todo failures rep w w' : res_restore r w = (Ok rep, w') →
    step (Sys g (InRollback ((name, r) :: todo) failures) w) (Sys g (InRollback todo failures) w')
| step_rollback_raises g name r todo failures e w w' : res_restore r w = (Raise e, w') →
    step (Sys g (InRollback ((name, r) :: todo) failures) w)
         (Sys g (InRollback todo (failures ++ [name])) w')
| step_rollback_end g failures w :
    step (Sys g (InRollback [] failures) w)
         (Sys (set_phase (match failures with [] => Active | _ => Failed end) g) Idle w)
| step_restore_begin g w : phase g = Prepared →
    step (Sys g Idle w) (Sys (set_phase Restoring g) (InRestore (prepared g) []) w)
| step_restore_one g name r todo reports rep w w' : res_restore r w = (Ok rep, w') →
    step (Sys g (InRestore ((name, r) :: todo) reports) w)
         (Sys g (InRestore todo (reports ++ [named_report name rep])) w')
| step_restore_raises g name r todo reports e w w' : res_restore r w = (Raise e, w') →
    step (Sys g (InRestore ((name, r) :: todo) reports) w) (Sys (set_phase Failed g) Idle w')
| step_restore_commit g reports w :
    step (Sys g (InRestore [] reports) w)
         (Sys (Registry (resources g) [] Active (sequence g) None) Idle w).

(** What holds between any two steps: the phase names the thread that is inside, an
    [Active] registry leaves nothing suspended, and a [Prepared] one has suspended
    exactly the resources it will restore. *)
Definition coherent (s : sys) : Prop :=
  match run s with
  | Idle =>
      match phase (reg s) with
      | Active => ∀ r, suspended (world s) r = false
      | Prepared => ∀ r, suspended (world s) r = true ↔ r ∈ snd <$> prepared (reg s)
      | Failed => True
      | _ => False
      end
  | InPrepare _ dn _ =>
      phase (reg s) = Preparing ∧ ∀ r, suspended (world s) r = true ↔ r ∈ snd <$> dn
  | InRollback todo failures =>
      phase (reg s) = Preparing ∧ (failures = [] → ∀ r, suspended (world s) r = true → r ∈ snd <$> todo)
  | InRestore todo _ =>
      phase (reg s) = Restoring ∧ ∀ r, suspended (world s) r = true → r ∈ snd <$> todo
  end.

Lemma coherent_shrinks (todo : list item) name r w w' :
  (∀ r', suspended w r' = true → r' ∈ snd <$> (name, r) :: todo) →
  (∀ r', suspended w' r' = negb (bool_decide (r' = r)) && suspended w r') →
  ∀ r', suspended w' r' = true → r' ∈ snd <$> todo.
Proof.
  intros Hs Hw r' Hr. rewrite Hw in Hr. apply andb_true_iff in Hr as [Hne Hr]. guards.
  apply Hs in Hr. csimpl in Hr. by apply elem_of_cons in Hr as [->|?].
Qed.

Lemma coherent_grows (dn : list item) name r w w' :
  (∀ r', suspended w r' = true ↔ r' ∈ snd <$> dn) →
  (∀ r', suspended w' r' = bool_decide (r' = r) || suspended w r') →
  ∀ r', suspended w' r' = true ↔ r' ∈ snd <$> dn ++ [(name, r)].
Proof.
  intros Hs Hw r'. rewrite Hw, orb_true_iff, bool_decide_eq_true, Hs, fmap_app, elem_of_app.
  csimpl. rewrite list_elem_of_singleton. tauto.
Qed.

Lemma register_Ok r kind g name g' : register r kind g = Ok (name, g') ↔
  phase g = Active ∧ kind ≠ [] ∧ name = resource_name kind (sequence g + 1)
  ∧ g' = Registry (resources g ++ [(name, r)]) (prepared g) (phase g) (sequence g + 1) (last_report g).
Proof.
  unfold register. split.
  - intros E. res_inv. guards. simplify_eq. split_and!; done.
  - intros (Hp & Hk & -> & ->). by rewrite (bool_decide_true _ Hp), (bool_decide_false _ Hk).
Qed.

Lemma step_coherent s s' : coherent s → step s s' → coherent s'.
Proof.
  intros Hc Hstep. destruct Hstep; unfold coherent in *; simpl in *.
  - match goal with E : register _ _ _ = _ |- _ => apply register_Ok in E as (_ & _ & _ & ->) end.
    by destruct k.
  - done.
  - match goal with E : phase _ = Active |- _ => rewrite E in Hc end.
    split; [done|]. intros r. rewrite Hc. by split; [|intros ?%not_elem_of_nil].
  - destruct Hc as [? Hs]. split; [done|]. apply (coherent_grows dn name r w); [done|]. by apply (prepare_suspends r w rep).
  - destruct Hc as [? Hs]. split; [done|]. intros _ r' Hr. rewrite (prepare_raises r w e w') in Hr by done.
    rewrite fmap_reverse, elem_of_reverse. by apply Hs.
  - destruct Hc as [? Hs]. split; [done|]. intros _ r' Hr. rewrite fmap_reverse, elem_of_reverse. by apply Hs.
  - by destruct Hc.
  - destruct Hc as [? Hs]. split; [done|]. intros Hf. apply (coherent_shrinks todo name r w); [by apply Hs|].
    by apply (restore_resumes r w rep).
  - destruct Hc as [? Hs]. split; [done|]. by destruct failures.
  - destruct Hc as [? Hs]. destruct failures as [|f fs]; [|done]. simpl. intros r.
    destruct (suspended w r) eqn:E; [|done]. by apply (Hs eq_refl), not_elem_of_nil in E.
  - match goal with E : phase _ = Prepared |- _ => rewrite E in Hc end.
    split; [done|]. intros r. apply Hc.
  - destruct Hc as [? Hs]. split; [done|]. apply (coherent_shrinks todo name r w); [done|].
    by apply (restore_resumes r w rep).
  - done.
  - destruct Hc as [? Hs]. intros r. destruct (suspended w r) eqn:E; [|done].
    by apply Hs, not_elem_of_nil in E.
Qed.

(** ** Names *)

(** Every name was issued by [register], and none was issued twice. *)
Definition named_ok (g : registry) : Prop :=
  0 <= sequence g ∧ NoDup (fst <$> resources g)
  ∧ Forall (λ nr, ∃ kind n, nr.1 = resource_name kind n ∧ 1 <= n <= sequence g) (resources g).

Lemma digits_no_dash n : 45%N ∉ digits n.
Proof.
  pose proof (digits_decimal n) as (Hd & _). intros Hin.
  unfold all_digits in Hd. rewrite Forall_forall in Hd. by specialize (Hd _ Hin).
Qed.

Lemma split_last_dash (a b s t : pystr) : 45%N ∉ s → 45%N ∉ t →
  a ++ 45%N :: s = b ++ 45%N :: t → s = t.
Proof.
  revert b. induction a as [|x a IH]; intros [|y b] Hs Ht E; simplify_eq/=; [done|..|by eapply IH].
  - destruct Hs. rewrite elem_of_app. right. left.
  - destruct Ht. rewrite elem_of_app. right. left.
Qed.

Lemma digits_inj n m : digits n = digits m → n = m.
Proof.
  intros E. destruct (digits_decimal n) as (_ & <- & _), (digits_decimal m) as (_ & <- & _).
  by rewrite E.
Qed.

Lemma resource_name_inj k k' n n' : 0 <= n → 0 <= n' →
  resource_name k n = resource_name k' n' → n = n'.
Proof.
  unfold resource_name, str_of_Z. intros ??. destruct (Z.ltb_spec n 0), (Z.ltb_spec n' 0); try lia.
  intros E. apply split_last_dash in E; [|apply digits_no_dash..]. apply digits_inj in E. lia.
Qed.

Lemma step_named s s' : named_ok (reg s) → step s s' → named_ok (reg s').
Proof.
  unfold named_ok. intros Hn Hstep. destruct Hstep; simpl in *; try done.
  - match goal with E : register _ _ _ = _ |- _ => apply register_Ok in E as (_ & _ & -> & ->) end.
    simpl. destruct Hn as (Hseq & Hnd & HF). split; [lia|]. split.
    + rewrite fmap_app. apply NoDup_app. split; [done|]. split; [|repeat constructor; by apply not_elem_of_nil].
      intros n Hin Heq. csimpl in Heq. apply list_elem_of_singleton in Heq. subst.
      apply list_elem_of_fmap in Hin as (nr & E & Hin). rewrite Forall_forall in HF.
      destruct (HF _ Hin) as (k' & n' & E' & Hn'). rewrite <- E in E'.
      apply resource_name_inj in E'; lia.
    + apply Forall_app. split.
      * eapply Forall_impl; [exact HF|]. intros nr (k' & n' & ? & ?). exists k', n'. split; [done|lia].
      * constructor; [|constructor]. eexists _, _. split; [done|]. lia.
  - destruct Hn as (? & Hnd & HF). split; [done|]. unfold remove_name. split.
    + by apply NoDup_fmap_filter.
    + rewrite Forall_forall in *. intros x [_ Hx]%list_elem_of_filter. auto.
Qed.

(** ** Invariants of every reachable state *)

(** A state reached from a fresh registry in a world where nothing is suspended. *)
Definition reachable (s : sys) : Prop :=
  ∃ w0, (∀ r, suspended w0 r = false) ∧ rtc step (Sys new_registry Idle w0) s.

Lemma reachable_ind' (P : sys → Prop) :
  (∀ w0, (∀ r, suspended w0 r = false) → P (Sys new_registry Idle w0)) →
  (∀ s s', P s → step s s' → P s') → ∀ s, reachable s → P s.
Proof.
  intros H0 Hs s (w0 & Hw & Hr). revert Hr. apply (rtc_ind_r P); [by apply H0|].
  intros x y _ Hxy Hx. by eapply Hs.
Qed.

Lemma reachable_coherent s : reachable s → coherent s.
Proof. apply reachable_ind'; [done|]. intros ??. apply step_coherent. Qed.

Lemma reachable_named s : reachable s → named_ok (reg s).
Proof.
  apply (reachable_ind' (λ s, named_ok (reg s))); [|intros ??; apply step_named].
  intros w0 _. split_and!; simpl; [lia|constructor..].
Qed.

(** C24. Under any interleaving of registrations, removals, [prepare] and [restore], the
    phase is consistent with the thread inside, an [Active] registry leaves no resource
    suspended, a [Prepared] registry has suspended exactly the resources it holds for
    [restore], and the registered names are distinct, each carrying the sequence number
    of its registration. *)
Theorem registry_invariant s : reachable s → coherent s ∧ named_ok (reg s).
Proof. split; [by apply reachable_coherent|by apply reachable_named]. Qed.

(** ** The operations refine the steps *)

(** What the call inside returns to its caller when its next step is its last one. *)
Definition returned (k : runner) : res json :=
  match k with
  | InPrepare _ _ reports => Ok (registry_result "prepared" reports)
  | InRollback _ failures => Raise (prepare_failed failures)
  | InRestore [] reports => Ok (registry_result "restored" reports)
  | _ => Raise (Exn CheckpointResourceError "checkpoint resource restore failed")
  end.

(** [alone s out s']: from [s] the thread inside takes every step, no other thread
    acts, and its call returns [out] leaving [s']. *)
Inductive alone : sys → res json → sys → Prop :=
| alone_last s s' : step s s' → run s ≠ Idle → run s' = Idle → alone s (returned (run s)) s'
| alone_more s s1 out s' : step s s1 → run s ≠ Idle → run s1 ≠ Idle → run s1 ≠ run s →
    alone s1 out s' → alone s out s'.

Lemma alone_steps s out s' : alone s out s' → rtc step s s'.
Proof. induction 1; [by apply rtc_once|by eapply rtc_l]. Qed.

(** The thread inside has one next step. *)
Lemma own_step_functional s s1 s2 : run s ≠ Idle → run s1 ≠ run s → run s2 ≠ run s →
  step s s1 → step s s2 → s1 = s2.
Proof.
  intros Hs H1 H2 Hs1 Hs2. destruct Hs1; simpl in *; try done; inversion Hs2; subst; simpl in *; try done; congruence.
Qed.

Lemma alone_functional s out1 s1 out2 s2 : alone s out1 s1 → alone s out2 s2 → out1 = out2 ∧ s1 = s2.
Proof.
  intros Ha. revert out2 s2. induction Ha as [s s' Hs Hi Hd|s s' out s1 Hs Hi Hn Hm _ IH]; intros out2 s2 Hb.
  - inversion Hb as [? ? Hs2 _ Hd2|? s3 ? ? Hs2 _ Hn2 Hm2]; subst.
    + split; [done|]. eapply (own_step_functional s); [done|congruence|congruence|done..].
    + assert (s' = s3) as -> by (eapply (own_step_functional s); [done|congruence|done..]). congruence.
  - inversion Hb as [? ? Hs2 _ Hd2|? s3 ? ? Hs2 _ Hn2 Hm2 Hb3]; subst.
    + assert (s' = s2) as -> by (eapply (own_step_functional s); [done|done|congruence|done..]). congruence.
    + assert (s' = s3) as -> by (by eapply (own_step_functional s)). by apply IH.
Qed.

Lemma cons_self {A} (x : A) (l : list A) : l ≠ x :: l.
Proof. intros E. apply (f_equal length) in E. simpl in E. lia. Qed.

Lemma prepare_loop_alone g items dn reports w dn' reports' stopped w' out s' :
  prepare_loop items dn reports w = (dn', reports', stopped, w') →
  alone match stopped with
        | None => Sys g (InPrepare [] dn' reports') w'
        | Some _ => Sys g (InRollback (reverse dn') []) w'
        end out s' →
  alone (Sys g (InPrepare items dn reports) w) out s'.
Proof.
  revert dn reports w. induction items as [|[name r] items IH]; intros dn reports w E Ha; simpl in E; [by simplify_eq|].
  destruct (res_prepare r w) as [[rep|e] w1] eqn:Er; simplify_eq;
    (eapply alone_more; [by econstructor|done|done| |by eauto]); [|done].
  simpl. intros [= Hl%cons_self _ _]. done.
Qed.

Lemma rollback_loop_alone g items failures w failures' w' :
  rollback_loop items failures w = (failures', w') →
  alone (Sys g (InRollback items failures) w) (Raise (prepare_failed failures'))
    (Sys (set_phase (match failures' with [] => Active | _ => Failed end) g) Idle w').
Proof.
  revert failures w. induction items as [|[name r] items IH]; intros failures w E; simpl in E.
  { simplify_eq. apply (alone_last (Sys g (InRollback [] failures') w')); [apply step_rollback_end|done..]. }
  destruct (res_restore r w) as [[rep|e] w1] eqn:Er;
    (eapply alone_more; [by econstructor|done|done| |by apply IH]); simpl; intros [= Hl%cons_self]; done.
Qed.

Lemma restore_loop_alone g items reports w out w' :
  restore_loop items reports w = (out, w') →
  alone (Sys g (InRestore items reports) w)
    match out with
    | Ok reports' => Ok (registry_result "restored" reports')
    | Raise _ => Raise (Exn CheckpointResourceError "checkpoint resource restore failed")
    end
    match out with
    | Ok _ => Sys (Registry (resources g) [] Active (sequence g) None) Idle w'
    | Raise _ => Sys (set_phase Failed g) Idle w'
    end.
Proof.
  revert reports w. induction items as [|[name r] items IH]; intros reports w E; simpl in E.
  { simplify_eq. by apply (alone_last (Sys g (InRestore [] reports) w')); [apply step_restore_commit|..]. }
  destruct (res_restore r w) as [[rep|e] w1] eqn:Er.
  - eapply alone_more; [by econstructor|done|done| |by apply IH]. simpl. intros [= Hl%cons_self _]. done.
  - simplify_eq. apply (alone_last (Sys g (InRestore ((name, r) :: items) reports) w)); [by eapply step_restore_raises|done..].
Qed.

(** The states in which a call to [prepare] or [restore] has just been admitted. *)
Definition prepare_entered (g : registry) (w : W) : sys :=
  Sys (set_phase Preparing g) (InPrepare (resources g) [] []) w.
Definition restore_entered (g : registry) (w : W) : sys :=
  Sys (set_phase Restoring g) (InRestore (prepared g) []) w.

Lemma prepare_alone g w out g' w' : phase g = Active → prepare uring g w = (out, g', w') →
  alone (prepare_entered g w) out (Sys g' Idle w').
Proof.
  unfold prepare, prepare_entered. intros -> E.
  destruct (prepare_loop (resources g) [] [] w) as [[[dn reports] stopped] w1] eqn:El.
  apply (prepare_loop_alone (set_phase Preparing g) _ _ _ _ _ _ _ _ _ _ El).
  destruct stopped as [e|]; [|destruct (uring w1) as [[]|e] eqn:Eu].
  - destruct (rollback_loop (reverse dn) [] w1) as [failures w2] eqn:Er. simplify_eq. by apply rollback_loop_alone.
  - simplify_eq. by apply (alone_last (Sys (set_phase Preparing g) (InPrepare [] dn reports) w')); [apply step_prepare_commit|..].
  - destruct (rollback_loop (reverse dn) [] w1) as [failures w2] eqn:Er. simplify_eq.
    eapply alone_more; [by eapply step_uring_raises|done..|by apply rollback_loop_alone].
Qed.

Lemma restore_alone g w out g' w' : phase g = Prepared → restore g w = (out, g', w') →
  alone (restore_entered g w) out (Sys g' Idle w').
Proof.
  unfold restore, restore_entered. intros -> E.
  destruct (restore_loop (prepared g) [] w) as [o w1] eqn:El.
  apply (restore_loop_alone (set_phase Restoring g)) in El. destruct o; by simplify_eq.
Qed.

Lemma prepare_steps g w out g' w' : prepare uring g w = (out, g', w') →
  rtc step (Sys g Idle w) (Sys g' Idle w').
Proof.
  intros E. destruct (decide (phase g = Active)) as [Hp|Hp].
  - eapply rtc_l; [by apply step_prepare_begin|]. by eapply alone_steps, prepare_alone.
  - unfold prepare in E. destruct (phase g); simplify_eq; apply rtc_refl.
Qed.

Lemma restore_steps g w out g' w' : restore g w = (out, g', w') →
  rtc step (Sys g Idle w) (Sys g' Idle w').
Proof.
  intros E. destruct (decide (phase g = Prepared)) as [Hp|Hp].
  - eapply rtc_l; [by apply step_restore_begin|]. by eapply alone_steps, restore_alone.
  - unfold restore in E. destruct (phase g); simplify_eq; apply rtc_refl.
Qed.

Lemma prepare_reachable g w out g' w' : reachable (Sys g Idle w) →
  prepare uring g w = (out, g', w') → reachable (Sys g' Idle w').
Proof. intros (w0 & Hw & Hr) E%prepare_steps. exists w0. split; [done|by etrans]. Qed.

Lemma restore_reachable g w out g' w' : reachable (Sys g Idle w) →
  restore g w = (out, g', w') → reachable (Sys g' Idle w').
Proof. intros (w0 & Hw & Hr) E%restore_steps. exists w0. split; [done|by etrans]. Qed.

(** C25. Both operations are exactly the runs of the interleaved system in which no other
    thread acts. From an [Active] registry [prepare] is admitted by one step, and it
    returns or raises [out] and leaves registry [g'] and world [w'] if and only if the
    thread inside, taking all the steps, ends its call with that outcome in that idle
    state; likewise [restore] from a [Prepared] one. From any other phase neither
    operation is admitted and nothing changes: [prepare] of a [Prepared] registry
    returns the report it kept, every other call raises. Whatever the adapters and the
    ring check do, the state left by a call from a reachable state is reachable. *)
Theorem operations_refine_steps g w out g' w' :
  (phase g = Active → step (Sys g Idle w) (prepare_entered g w)
    ∧ (prepare uring g w = (out, g', w') ↔ alone (prepare_entered g w) out (Sys g' Idle w')))
  ∧ (phase g = Prepared → step (Sys g Idle w) (restore_entered g w)
    ∧ (restore g w = (out, g', w') ↔ alone (restore_entered g w) out (Sys g' Idle w')))
  ∧ (phase g ≠ Active → prepare uring g w = (out, g', w') → g' = g ∧ w' = w
    ∧ (phase g = Prepared → out = of_option AssertionError "report" (last_report g))
    ∧ (phase g ≠ Prepared → out = Raise (Exn CheckpointResourceError "cannot prepare resources")))
  ∧ (phase g ≠ Prepared → restore g w = (out, g', w') →
    g' = g ∧ w' = w ∧ out = Raise (Exn CheckpointResourceError "cannot restore resources"))
  ∧ (reachable (Sys g Idle w) → prepare uring g w = (out, g', w') ∨ restore g w = (out, g', w') →
    reachable (Sys g' Idle w')).
Proof.
  split_and!.
  - intros Hp. split; [by apply step_prepare_begin|]. split; [by apply prepare_alone|]. intros Ha.
    destruct (prepare uring g w) as [[out1 g1] w1] eqn:E. apply prepare_alone in E; [|done].
    destruct (alone_functional _ _ _ _ _ E Ha) as [-> [= -> ->]]. done.
  - intros Hp. split; [by apply step_restore_begin|]. split; [by apply restore_alone|]. intros Ha.
    destruct (restore g w) as [[out1 g1] w1] eqn:E. apply restore_alone in E; [|done].
    destruct (alone_functional _ _ _ _ _ E Ha) as [-> [= -> ->]]. done.
  - unfold prepare. destruct (phase g); intros; by simplify_eq.
  - unfold restore. destruct (phase g); intros; by simplify_eq.
  - intros Hr [E|E]; [by eapply prepare_reachable|by eapply restore_reachable].
Qed.

(** ** Outcomes of the operations *)

Lemma prepare_loop_all items dn reports w dn' reports' w' :
  prepare_loop items dn reports w = (dn', reports', None, w') → dn' = dn ++ items.
Proof.
  revert dn reports w. induction items as [|[name r] items IH]; intros dn reports w E; simpl in E.
  { simplify_eq. by rewrite app_nil_r. }
  destruct (res_prepare r w) as [[rep|e] w1]; [|done]. apply IH in E as ->. by rewrite <- app_assoc.
Qed.

(** The adapters of [items] were called in order and all of them suspended their
    resource. *)
Inductive all_prepared : list item → W → W → Prop :=
| all_prepared_nil w : all_prepared [] w w
| all_prepared_cons name r items rep w w1 w2 : res_prepare r w = (Ok rep, w1) →
    all_prepared items w1 w2 → all_prepared ((name, r) :: items) w w2.

(** The adapters of [items] were asked in order to resume, and exactly those of
    [failures] raised. *)
Inductive rolled_back : list item → W → list pystr → W → Prop :=
| rolled_back_nil w : rolled_back [] w [] w
| rolled_back_ok name r items failures rep w w1 w2 : res_restore r w = (Ok rep, w1) →
    rolled_back items w1 failures w2 → rolled_back ((name, r) :: items) w failures w2
| rolled_back_raises name r items failures e w w1 w2 : res_restore r w = (Raise e, w1) →
    rolled_back items w1 failures w2 → rolled_back ((name, r) :: items) w (name :: failures) w2.

Lemma prepare_loop_split items dn reports w dn' reports' stopped w' :
  prepare_loop items dn reports w = (dn', reports', stopped, w') →
  ∃ first rest w1, items = first ++ rest ∧ dn' = dn ++ first ∧ all_prepared first w w1
    ∧ match stopped with
      | None => rest = [] ∧ w' = w1
      | Some e => ∃ name r rest', rest = (name, r) :: rest' ∧ res_prepare r w1 = (Raise e, w')
      end.
Proof.
  revert dn reports w. induction items as [|[name r] items IH]; intros dn reports w E; simpl in E.
  { simplify_eq. exists [], [], w'. split_and!; [done|by rewrite app_nil_r|constructor|done..]. }
  destruct (res_prepare r w) as [[rep|e] w1] eqn:Er.
  - apply IH in E as (first & rest & w2 & -> & -> & Ha & Hs). exists ((name, r) :: first), rest, w2.
    rewrite <- app_assoc. split_and!; try done. by econstructor.
  - simplify_eq. exists [], ((name, r) :: items), w. split_and!; [done|by rewrite app_nil_r|constructor|by eauto].
Qed.

Lemma rollback_loop_spec items failures w failures' w' :
  rollback_loop items failures w = (failures', w') →
  ∃ more, failures' = failures ++ more ∧ rolled_back items w more w'.
Proof.
  revert failures w. induction items as [|[name r] items IH]; intros failures w E; simpl in E.
  { simplify_eq. exists []. split; [by rewrite app_nil_r|constructor]. }
  destruct (res_restore r w) as [[rep|e] w1] eqn:Er; apply IH in E as (more & -> & Hm).
  - exists more. split; [done|]. by eapply rolled_back_ok.
  - exists (name :: more). rewrite <- app_assoc. split; [done|]. by eapply rolled_back_raises.
Qed.

(** C22. [prepare] from an [Active] registry (reached from a fresh one by any interleaving)
    is all or nothing. If it returns, every registered resource (and no other) is
    suspended, no ring remains, and the registry holds them for [restore]. If it raises,
    the registered adapters up to some point were suspended in order, and then either
    the next adapter raised or, all of them being suspended, the ring check did; those
    suspended were asked to resume in the opposite order; and if none of these refused,
    everything is usable again and the registry is [Active] with the plain error, while
    if some did the registry is [Failed] with the error that says so. *)
Theorem prepare_all_or_nothing g w out g' w' :
  reachable (Sys g Idle w) → phase g = Active → prepare uring g w = (out, g', w') →
  resources g' = resources g ∧ sequence g' = sequence g ∧
  match out with
  | Ok rep =>
      phase g' = Prepared ∧ prepared g' = resources g ∧ last_report g' = Some rep ∧ uring w' = Ok tt
      ∧ ∀ r, suspended w' r = true ↔ r ∈ snd <$> resources g
  | Raise error => prepared g' = prepared g ∧ ∃ first rest w1 w2 failures,
      resources g = first ++ rest ∧ all_prepared first w w1
      ∧ ((∃ name r rest' e, rest = (name, r) :: rest' ∧ res_prepare r w1 = (Raise e, w2))
         ∨ rest = [] ∧ w2 = w1 ∧ ∃ e, uring w1 = Raise e)
      ∧ rolled_back (reverse first) w2 failures w'
      ∧ (failures = [] ∧ phase g' = Active ∧ (∀ r, suspended w' r = false)
           ∧ error = Exn CheckpointResourceError "checkpoint resource prepare failed"
         ∨ failures ≠ [] ∧ phase g' = Failed
           ∧ error = Exn CheckpointResourceError "checkpoint resource prepare failed; rollback failed")
  end.
Proof.
  intros Hr Hp E. assert (coherent (Sys g' Idle w')) as Hc.
  { apply reachable_coherent. by eapply prepare_reachable. }
  unfold prepare in E. rewrite Hp in E. unfold coherent in Hc. simpl in Hc.
  destruct (prepare_loop (resources g) [] [] w) as [[[dn reports] stopped] w2] eqn:El.
  destruct (prepare_loop_split _ _ _ _ _ _ _ _ El) as (first & rest & w1 & Hit & Hdn & Ha & Hstop). simpl in Hdn. subst dn.
  destruct stopped as [e|]; [|destruct (uring w2) as [[]|e] eqn:Eu].
  2: { destruct Hstop as [-> ->]. rewrite app_nil_r in Hit. subst first. simplify_eq. simpl in *. auto 10. }
  all: destruct (rollback_loop (reverse first) [] w2) as [failures w3] eqn:Eb; injection E as <- <- <-;
    apply rollback_loop_spec in Eb as (more & -> & Hb); simpl in *; split_and!; try done;
    exists first, rest, w1, w2, more; split_and!; try done; try (by destruct more; auto 10).
  - destruct Hstop as (name & r & rest' & -> & He). left. by eauto 10.
  - destruct Hstop as [-> ->]. right. by eauto.
Qed.

(** A registry that failed stays failed: no operation of any thread leaves the phase,
    and no adapter is called again. *)
Lemma failed_step s s' : step s s' → run s = Idle → phase (reg s) = Failed →
  run s' = Idle ∧ phase (reg s') = Failed ∧ world s' = world s.
Proof.
  intros Hs. destruct Hs; simpl; intros Hrun Hph; simplify_eq; try congruence; try done.
  match goal with E : register _ _ _ = _ |- _ => apply register_Ok in E as (? & _) end. congruence.
Qed.

(** [Failed] is absorbing: once a rollback or a restore has raised, no sequence of
    steps by any threads leaves the phase or touches the world again. *)
Theorem failed_absorbing s s' :
  rtc step s s' → run s = Idle → phase (reg s) = Failed →
  run s' = Idle ∧ phase (reg s') = Failed ∧ world s' = world s.
Proof.
  induction 1 as [s|x y z Hxy _ IH]; [done|]. intros Hrun Hph.
  destruct (failed_step _ _ Hxy Hrun Hph) as (H1 & H2 & <-). auto.
Qed.

Lemma prepare_loop_total items dn reports w :
  Forall (λ nr, ∀ w, is_ok (res_prepare nr.2 w).1 = true) items →
  ∃ reports' w', prepare_loop items dn reports w = (dn ++ items, reports', None, w').
Proof.
  intros Hok. revert dn reports w. induction Hok as [|[name r] items Hr _ IH]; intros dn reports w; simpl.
  { rewrite app_nil_r. eauto. }
  specialize (Hr w). simpl in Hr. destruct (res_prepare r w) as [[rep|e] w1]; [|done].
  destruct (IH (dn ++ [(name, r)]) (reports ++ [named_report name rep]) w1) as (rs & w' & ->).
  rewrite <- app_assoc. eauto.
Qed.

Lemma restore_loop_total items reports w :
  Forall (λ nr, ∀ w, is_ok (res_restore nr.2 w).1 = true) items →
  ∃ reports' w', restore_loop items reports w = (Ok reports', w').
Proof.
  intros Hok. revert reports w. induction Hok as [|[name r] items Hr _ IH]; intros reports w; simpl; [eauto|].
  specialize (Hr w). simpl in Hr. destruct (res_restore r w) as [[rep|e] w1]; [|done]. apply IH.
Qed.

(** When no registered adapter raises and no ring remains, [prepare] followed by [restore]
    succeeds and is a round trip: the registry is [Active] with the same resources and
    sequence number, and nothing is left suspended. *)
Theorem prepare_restore_round_trip g w :
  reachable (Sys g Idle w) → phase g = Active →
  Forall (λ nr, ∀ w, is_ok (res_prepare nr.2 w).1 = true) (resources g) →
  Forall (λ nr, ∀ w, is_ok (res_restore nr.2 w).1 = true) (resources g) →
  (∀ w, uring w = Ok tt) →
  ∃ rep g1 w1 rep' g2 w2,
    prepare uring g w = (Ok rep, g1, w1) ∧ restore g1 w1 = (Ok rep', g2, w2)
    ∧ g2 = Registry (resources g) [] Active (sequence g) None
    ∧ ∀ r, suspended w2 r = false.
Proof.
  intros Hr Hp Hok Hok' Hu.
  destruct (prepare_loop_total (resources g) [] [] w Hok) as (reports & w1 & El).
  assert (prepare uring g w = (Ok (registry_result "prepared" reports),
    Registry (resources g) (resources g) Prepared (sequence g) (Some (registry_result "prepared" reports)), w1)) as Ep.
  { unfold prepare. by rewrite Hp, El, Hu. }
  set (g1 := Registry _ _ _ _ _) in Ep.
  destruct (restore_loop_total (prepared g1) [] w1 Hok') as (reports' & w2 & Er).
  assert (restore g1 w1 = (Ok (registry_result "restored" reports'),
    Registry (resources g) [] Active (sequence g) None, w2)) as Ers.
  { unfold restore. subst g1. simpl in *. by rewrite Er. }
  eexists _, _, _, _, _, _. split_and!; [exact Ep|exact Ers|done|].
  apply prepare_reachable in Ep; [|done]. apply restore_reachable in Ers; [|done].
  by apply reachable_coherent in Ers.
Qed.
End registry.

(** ** The ring check *)

Lemma or_continue_Ok {A} (m : res A) o : or_continue m = Ok o →
  match o with Some a => m = Ok a | None => ∃ e, m = Raise e end.
Proof.
  destruct m as [a|e]; simpl; [by intros [= <-]|]. destruct (is_not_found _); [|done]. intros [= <-]. eauto.
Qed.

Lemma os_error_as_Ok {A} what (m : res A) a : os_error_as what m = Ok a → m = Ok a.
Proof. unfold os_error_as, py_except. destruct m as [b|e]; [done|]. by destruct (is_os_error _). Qed.

Lemma scan_fds_Ok p pid es rem out : scan_fds p pid es rem = Ok out →
  rem `prefix_of` out ∧ (out = rem → ∀ fd t, fd ∈ es → fd_target p pid fd = Ok t → uring_target t = false).
Proof.
  revert rem. induction es as [|fd es IH]; intros rem E; simpl in E; res_inv.
  { split; [done|]. intros _ ? ? ?%not_elem_of_nil. done. }
  match goal with H : os_error_as _ _ = Ok _ |- _ => apply os_error_as_Ok, or_continue_Ok in H as Ht end.
  destruct x as [t|].
  - apply IH in E as [Hp Hn]. destruct (uring_target t) eqn:Et.
    + split; [by apply prefix_app_l in Hp|]. intros ->. destruct Hp as [k Hk].
      apply (f_equal length) in Hk. rewrite !length_app in Hk. simpl in Hk. lia.
    + split; [done|]. intros Ho fd' t' [->|Hin]%elem_of_cons Hf; [congruence|]. by eapply Hn.
  - destruct Ht as [e He]. apply IH in E as [Hp Hn]. split; [done|].
    intros Ho fd' t' [->|Hin]%elem_of_cons Hf; [congruence|]. by eapply Hn.
Qed.

Lemma scan_tasks_Ok p pid ts rem out : scan_tasks p pid ts rem = Ok out →
  rem `prefix_of` out ∧ (out = rem → ∀ t n, t ∈ ts → task_comm p pid t = Ok n → uring_comm (py_strip n) = false).
Proof.
  revert rem. induction ts as [|t ts IH]; intros rem E; simpl in E; res_inv.
  { split; [done|]. intros _ ? ? ?%not_elem_of_nil. done. }
  match goal with H : or_continue _ = Ok _ |- _ => apply or_continue_Ok in H as Ht end.
  destruct x as [n|].
  - apply IH in E as [Hp Hn]. destruct (uring_comm n) eqn:Et.
    + split; [by apply prefix_app_l in Hp|]. intros ->. destruct Hp as [k Hk].
      apply (f_equal length) in Hk. rewrite !length_app in Hk. simpl in Hk. lia.
    + split; [done|]. intros Ho t' n' [->|Hin]%elem_of_cons Hf; [|by eapply Hn].
      rewrite Hf in Ht. by injection Ht as <-.
  - destruct Ht as [e He]. apply IH in E as [Hp Hn]. split; [done|].
    intros Ho t' n' [->|Hin]%elem_of_cons Hf; [by rewrite Hf in He|]. by eapply Hn.
Qed.

Lemma scan_pids_Ok p pids rem out : scan_pids p pids rem = Ok out →
  rem `prefix_of` out ∧ (out = rem → ∀ pid es, pid ∈ pids → fd_dir p pid = Ok es →
    (∀ fd t, fd ∈ es → fd_target p pid fd = Ok t → uring_target t = false)
    ∧ (∀ ts t n, task_dir p pid = Ok ts → t ∈ ts → task_comm p pid t = Ok n → uring_comm (py_strip n) = false)).
Proof.
  revert rem. induction pids as [|pid pids IH]; intros rem E; simpl in E; res_inv.
  { split; [done|]. intros _ ? ? ?%not_elem_of_nil. done. }
  match goal with H : os_error_as _ _ = Ok _ |- _ => apply os_error_as_Ok, or_continue_Ok in H as Hd end.
  destruct x as [es|].
  - res_inv. apply IH in E as [Hp Hn].
    match goal with H : scan_fds _ _ _ _ = Ok _ |- _ => apply scan_fds_Ok in H as [Hp1 Hf] end.
    match goal with H : os_error_as _ _ = Ok _ |- _ => apply os_error_as_Ok in H as Ht end.
    apply bind_Ok in Ht as (ts & Hts%or_continue_Ok & Ht).
    assert (x `prefix_of` x0 ∧ (x0 = x → ∀ ts t n, task_dir p pid = Ok ts → t ∈ ts →
      task_comm p pid t = Ok n → uring_comm (py_strip n) = false)) as [Hp2 Hc].
    { destruct ts as [ts|].
      - apply scan_tasks_Ok in Ht as [? Hc]. split; [done|]. intros Heq ts' t n Hts'.
        rewrite Hts in Hts'. injection Hts' as <-. by apply Hc.
      - destruct Hts as [e He]. res_inv. split; [done|]. intros _ ts' t n Hts'. congruence. }
    assert (rem `prefix_of` x0) as Hp3 by (by transitivity x).
    split; [by transitivity x0|]. intros ->.
    assert (x0 = rem) as -> by (by apply (anti_symm prefix)).
    assert (x = rem) as -> by (by apply (anti_symm prefix)).
    intros pid' es' [->|Hin]%elem_of_cons Hd'; [|by apply Hn]. rewrite Hd in Hd'. injection Hd' as <-.
    split; [by apply Hf|by apply Hc].
  - destruct Hd as [e He]. apply IH in E as [Hp Hn]. split; [done|].
    intros Ho pid' es' [->|Hin]%elem_of_cons Hd'; [congruence|]. by apply Hn.
Qed.

(** If [assert_no_io_uring] returns, then in every inspected process whose descriptor
    directory could be read no readable descriptor is an io_uring and no readable thread
    name belongs to a ring worker or poller. *)
Theorem assert_no_io_uring_sound p pids pid es :
  assert_no_io_uring p pids = Ok tt → pid ∈ pids → fd_dir p pid = Ok es →
  (∀ fd t, fd ∈ es → fd_target p pid fd = Ok t → uring_target t = false)
  ∧ (∀ ts t n, task_dir p pid = Ok ts → t ∈ ts → task_comm p pid t = Ok n → uring_comm (py_strip n) = false).
Proof.
  unfold assert_no_io_uring. intros E. res_inv. guards.
  match goal with H : scan_pids _ _ _ = Ok _ |- _ => apply scan_pids_Ok in H as [_ Hs] end.
  apply Hs. by apply nil_length_inv.
Qed.

(** ** A concrete world

    Numbered handles in a set of suspended ones; handle 7 cannot be suspended, handle 8
    cannot be resumed. *)
Definition handle_prepare (r : nat) (w : gset nat) : res report * gset nat :=
  if decide (r = 7%nat) then (Raise (Exn RuntimeError "busy"), w) else (Ok [], {[r]} ∪ w).
Definition handle_restore (r : nat) (w : gset nat) : res report * gset nat :=
  if decide (r = 8%nat) then (Raise (Exn RuntimeError "gone"), w) else (Ok [], w ∖ {[r]}).

#[refine, global] Instance handle_resource : CheckpointResource nat (gset nat) :=
  {| res_prepare := handle_prepare; res_restore := handle_restore; suspended w r := bool_decide (r ∈ w) |}.
Proof.
  - unfold handle_prepare. intros r w x w' E r'. destruct (decide (r = 7%nat)); simplify_eq.
    rewrite <- bool_decide_or. apply bool_decide_ext. set_solver.
  - unfold handle_prepare. intros r w e w' E r'. by destruct (decide (r = 7%nat)); simplify_eq.
  - unfold handle_restore. intros r w x w' E r'. destruct (decide (r = 8%nat)); simplify_eq.
    rewrite <- bool_decide_not, <- bool_decide_and. apply bool_decide_ext. set_solver.
  - unfold handle_restore. intros r w e w' E r' _. by destruct (decide (r = 8%nat)); simplify_eq.
Defined.

Definition no_ring (w : gset nat) : res unit := Ok tt.

(** Two usable handles registered as ["reader-1"] and ["pinned-2"]. *)
Definition sample_registry : registry :=
  Registry [(lit "reader-1", 3%nat); (lit "pinned-2", 4%nat)] [] Active 2 None.

Lemma sample_reachable : reachable no_ring (Sys sample_registry Idle ∅).
Proof.
  exists ∅. split; [done|].
  eapply rtc_l; [apply (step_register no_ring 3%nat (lit "reader") (lit "reader-1")); by vm_compute|].
  eapply rtc_l; [apply (step_register no_ring 4%nat (lit "pinned") (lit "pinned-2")); by vm_compute|].
  apply rtc_refl.
Defined.

Lemma registry_invariant_witness :
  coherent (Sys sample_registry Idle ∅) ∧ named_ok sample_registry.
Proof. exact (registry_invariant no_ring (Sys sample_registry Idle ∅) sample_reachable). Defined.

Definition sample_prepared := prepare no_ring sample_registry ∅.

Lemma operations_refine_steps_witness :
  alone no_ring (prepare_entered sample_registry ∅) sample_prepared.1.1 (Sys sample_prepared.1.2 Idle sample_prepared.2).
Proof.
  apply (operations_refine_steps no_ring sample_registry ∅ sample_prepared.1.1 sample_prepared.1.2 sample_prepared.2);
    [reflexivity|]. by vm_compute.
Defined.

Lemma prepare_all_or_nothing_witness :
  phase sample_prepared.1.2 = Prepared ∧ suspended sample_prepared.2 3%nat = true.
Proof.
  pose proof (prepare_all_or_nothing no_ring sample_registry ∅ sample_prepared.1.1 sample_prepared.1.2
    sample_prepared.2 sample_reachable eq_refl eq_refl) as (_ & _ & Hp & _ & _ & _ & Hs).
  split; [exact Hp|]. apply Hs. by vm_compute; left.
Defined.

Lemma prepare_restore_round_trip_witness : ∃ rep g1 w1 rep' g2 w2,
  prepare no_ring sample_registry ∅ = (Ok rep, g1, w1) ∧ restore g1 w1 = (Ok rep', g2, w2)
  ∧ g2 = sample_registry ∧ ∀ r, suspended w2 r = false.
Proof.
  apply (prepare_restore_round_trip no_ring sample_registry ∅ sample_reachable eq_refl).
  - repeat constructor.
  - repeat constructor.
  - done.
Defined.

(** Handle 8 is suspended, then handle 7 refuses: the rollback cannot resume handle 8. *)
Definition broken_registry : registry :=
  Registry [(lit "a-1", 8%nat); (lit "b-2", 7%nat)] [] Active 2 None.
Definition broken := prepare no_ring broken_registry ∅.

Lemma failed_absorbing_witness :
  phase broken.1.2 = Failed ∧ phase (unregister (lit "a-1") broken.1.2) = Failed.
Proof.
  split; [by vm_compute|].
  refine (proj1 (proj2 (failed_absorbing no_ring (Sys broken.1.2 Idle broken.2)
    (Sys (unregister (lit "a-1") broken.1.2) Idle broken.2) _ _ _))); [|by vm_compute..].
  apply rtc_once, step_unregister.
Defined.

Definition quiet_proc : procfs := Procfs
  (λ _, Ok [lit "0"; lit "1"])
  (λ _ fd, if bool_decide (fd = lit "0") then Ok (lit "/dev/null") else Raise (Exn FileNotFoundError "gone"))
  (λ _, Ok [lit "41"]) (λ _ _, Ok (lit "python3")).

Lemma assert_no_io_uring_sound_witness : uring_target (lit "/dev/null") = false.
Proof.
  refine (proj1 (assert_no_io_uring_sound quiet_proc [41] 41 [lit "0"; lit "1"] _ _ _) (lit "0") _ _ _);
    [by vm_compute|left|done|left|by vm_compute].
Defined.
