(* ===== verification/Hydration.v ===== *)
(** * Native transfers between CUDA memory and files ([coldsnap_core/hydration.py])

    The extents and options Python builds for the native transport, the policy that
    chooses a backend, and the environment that selects the library. The library is a
    parameter: two entry points acting on a world and two probes. Its request
    validation ([native/coldsnap_hydration.cpp]) is modelled too, because the policy
    promises never to send it a layout it rejects. *)

From Stdlib Require Import SpecFloat.
From S2P Require Import Prelude PyFloat Hash.

Definition HYDRATION_LIBRARY_ENV := lit "COLDSNAP_HYDRATION_NATIVE_LIBRARY".
Definition HYDRATION_BACKEND_ENV := lit "COLDSNAP_HYDRATION_BACKEND".
Definition HYDRATION_LIBRARY_SHA256_ENV := lit "COLDSNAP_HYDRATION_NATIVE_SHA256".
Definition CAPTURE_BACKEND_ENV := lit "COLDSNAP_CAPTURE_BACKEND".
Definition ABI_VERSION : Z := 1.

Definition BACKENDS : list (pystr * Z) := [(lit "buffered", 1); (lit "direct", 2); (lit "gds", 3)].
Definition CAPTURE_BACKENDS : list (pystr * Z) := [(lit "buffered", 1); (lit "direct", 2)].
Definition VERIFY_NONE : Z := 0.
Definition VERIFY_CRC32 : Z := 1.
Definition VERIFY_CRC32_SHA256 : Z := 2.
Definition REGISTER_DEVICE_BUFFERS : Z := 1.
Definition CAPTURE_FILE_SHA256 : Z := 1.
Definition CAPTURE_VERIFY_READBACK : Z := 2.
Definition CAPTURE_PAD_EXTENTS : Z := 4.
Definition DIRECT_ALIGNMENT : Z := 4096.

Fixpoint assoc {A} (k : pystr) (l : list (pystr * A)) : option A :=
  match l with
  | [] => None
  | (k', v) :: l' => if decide (k' = k) then Some v else assoc k l'
  end.

(** ** Extents *)

(** [len(s) != n or s.lower() != s], then [bytes.fromhex(s)]. *)
Definition check_hex (n : nat) (s : pystr) (c : exc_class) : res unit :=
  _ ← raise_if (negb (bool_decide (length s = n)) || negb (bool_decide (py_lower s = s)))
      c "must be lowercase hex digits";
  _ ← of_option c "is not hexadecimal" (fromhex s);
  mret tt.

Record HydrationExtent := HExtent {
  h_file_offset : Z; destination : Z; h_length : Z;
  h_crc32 : option pystr; h_sha256 : option pystr;
}.

(** [HydrationExtent(...)] with its [__post_init__]. *)
Definition HydrationExtent_new (e : HydrationExtent) : res HydrationExtent :=
  _ ← raise_if ((h_file_offset e <? 0) || (destination e <=? 0) || (h_length e <=? 0))
      ValueError "hydration extent offset, destination, and length are invalid";
  _ ← match h_crc32 e with Some s => check_hex 8 s ValueError | None => mret tt end;
  _ ← match h_sha256 e with
      | Some s =>
          _ ← raise_if (bool_decide (h_crc32 e = None)) ValueError "hydration SHA-256 requires CRC32";
          check_hex 64 s ValueError
      | None => mret tt
      end;
  mret e.

Record CaptureExtent := CExtent {
  c_file_offset : Z; source : Z; c_length : Z; checksum : pystr;
}.

Definition checksum_ids : list (pystr * Z) := [(lit "none", 0); (lit "crc32", 1); (lit "crc32+sha256", 2)].

Definition CaptureExtent_new (e : CaptureExtent) : res CaptureExtent :=
  _ ← raise_if ((c_file_offset e <? 0) || (source e <=? 0) || (c_length e <=? 0))
      ValueError "capture extent offset, source, and length are invalid";
  _ ← raise_if (negb (bool_decide (checksum e ∈ [lit "none"; lit "crc32"; lit "crc32+sha256"])))
      ValueError "capture checksum must be none, crc32, or crc32+sha256";
  mret e.

(** ** The native structures; every integer field has its C width. *)

Record NativeExtent := NExtent {
  ne_file_offset : Z; ne_destination : Z; ne_length : Z;
  ne_verification : Z; ne_expected_crc32 : Z; ne_expected_sha256 : pybytes;
}.

Record NativeOptions := NOptions {
  o_abi_version : Z; o_backend : Z; o_queue_depth : Z; o_flags : Z;
  o_chunk_bytes : Z; o_cuda_device : Z; o_reserved : Z;
}.

Record NativeResult := NResult {
  r_abi_version : Z; r_backend : Z; r_bytes : Z; r_chunks : Z; r_verified_extents : Z;
  r_initialization_ns : Z; r_io_service_ns : Z; r_io_wait_ns : Z; r_checksum_ns : Z;
  r_cuda_enqueue_ns : Z; r_cuda_synchronize_ns : Z; r_total_ns : Z;
}.

Record NativeCaptureExtent := NCExtent {
  nc_source : Z; nc_file_offset : Z; nc_length : Z; nc_checksum : Z; nc_reserved : Z;
}.

Record NativeCaptureDigest := NCDigest { nd_crc32 : N; nd_sha256 : pybytes }.

Record NativeCaptureResult := NCResult {
  cr_abi_version : Z; cr_backend : Z; cr_bytes : Z; cr_file_bytes : Z; cr_chunks : Z;
  cr_checksummed_extents : Z; cr_initialization_ns : Z; cr_io_service_ns : Z; cr_io_wait_ns : Z;
  cr_checksum_ns : Z; cr_cuda_enqueue_ns : Z; cr_cuda_synchronize_ns : Z; cr_durability_ns : Z;
  cr_verification_ns : Z; cr_total_ns : Z; cr_file_sha256 : pybytes;
}.

(** ** Results *)

Record HydrationMetrics := HMetrics {
  m_backend : pystr; m_bytes : Z; m_chunks : Z; m_verified_extents : Z;
  m_initialization_s : spec_float; m_io_service_s : spec_float; m_io_wait_s : spec_float;
  m_checksum_s : spec_float; m_cuda_enqueue_s : spec_float; m_cuda_synchronize_s : spec_float;
  m_total_s : spec_float;
}.

Record CaptureDigest := CDigest { d_crc32 : option pystr; d_sha256 : option pystr }.

Record CaptureMetrics := CMetrics {
  k_backend : pystr; k_bytes : Z; k_file_bytes : Z; k_chunks : Z; k_checksummed_extents : Z;
  k_initialization_s : spec_float; k_io_service_s : spec_float; k_io_wait_s : spec_float;
  k_checksum_s : spec_float; k_cuda_enqueue_s : spec_float; k_cuda_synchronize_s : spec_float;
  k_durability_s : spec_float; k_verification_s : spec_float; k_total_s : spec_float;
}.

Record CaptureResult := CResult {
  metrics : CaptureMetrics; digests : list CaptureDigest; file_sha256 : option pystr;
}.

(** [ns * 1e-9]: the integer is converted to the nearest float first. *)
Definition to_seconds (ns : Z) : spec_float :=
  SFmul prec emax (binary_normalize prec emax ns 0 false) (float_of_decimal false 1 (-9)).

(** ** The library *)

(** A digest array has one entry per extent; [nat → _] is the memory behind it. *)
Record library (W : Type) := Library {
  coldsnap_hydrate_file : pybytes → list NativeExtent → NativeOptions → W → Z * NativeResult * W;
  coldsnap_hydration_backend_available : Z → Z;
  coldsnap_capture_file : option (pybytes → list NativeCaptureExtent → NativeOptions → W →
    Z * (nat → NativeCaptureDigest) * NativeCaptureResult * W);
  coldsnap_capture_backend_available : option (Z → Z);
  image : pybytes;
}.
Arguments coldsnap_hydrate_file {W}.
Arguments coldsnap_hydration_backend_available {W}.
Arguments coldsnap_capture_file {W}.
Arguments coldsnap_capture_backend_available {W}.
Arguments image {W}.

Section hydrator.
Context {W : Type} (lib : library W).

Definition backend_id (backend : pystr) : res Z :=
  of_option ValueError "hydration backend must be buffered, direct, or gds" (assoc backend BACKENDS).

Definition available (backend : pystr) : res bool :=
  id ← backend_id backend;
  mret (negb (coldsnap_hydration_backend_available lib id =? 0)).

Definition capture_available (backend : pystr) : res bool :=
  id ← of_option ValueError "capture backend must be buffered or direct" (assoc backend CAPTURE_BACKENDS);
  match coldsnap_capture_file lib, coldsnap_capture_backend_available lib with
  | Some _, Some probe => mret (negb (probe id =? 0))
  | _, _ => mret false
  end.

Definition capture_direct_compatible (pad_extents : bool) (extents : list CaptureExtent) : bool :=
  forallb (λ e, (c_file_offset e mod DIRECT_ALIGNMENT =? 0)
                && (pad_extents || (c_length e mod DIRECT_ALIGNMENT =? 0))) extents.

Definition resolve_capture_backend (backend : pystr) (extents : list CaptureExtent) (pad_extents : bool)
    : res pystr :=
  if negb (bool_decide (backend = lit "auto")) then
    _ ← raise_if (negb (bool_decide (backend ∈ CAPTURE_BACKENDS.*1)))
        ValueError "capture backend must be auto, buffered, or direct";
    ok ← capture_available backend;
    _ ← raise_if (negb ok) HydrationError "native capture backend is unavailable";
    mret backend
  else
    direct ← (if capture_direct_compatible pad_extents extents then capture_available (lit "direct") else mret false);
    if direct : bool then mret (lit "direct") else
    buffered ← capture_available (lit "buffered");
    if buffered : bool then mret (lit "buffered") else
    Raise (Exn HydrationError "native capture auto policy found no compatible buffered/direct backend").

Definition direct_compatible (extents : list HydrationExtent) : bool :=
  forallb (λ e, (h_file_offset e mod DIRECT_ALIGNMENT =? 0) && (h_length e mod DIRECT_ALIGNMENT =? 0)) extents.

Definition resolve_backend (backend : pystr) (extents : list HydrationExtent) : res pystr :=
  if negb (bool_decide (backend = lit "auto")) then
    _ ← backend_id backend; mret backend
  else
    direct ← (if direct_compatible extents then available (lit "direct") else mret false);
    if direct : bool then mret (lit "direct") else
    buffered ← available (lit "buffered");
    if buffered : bool then mret (lit "buffered") else
    Raise (Exn HydrationError "native hydration auto policy found no compatible buffered/direct backend").

(** [_native_extent]; [from_buffer_copy] needs at least 32 bytes. *)
Definition native_extent (preverified : bool) (e : HydrationExtent) : res NativeExtent :=
  let verification :=
    if preverified || bool_decide (h_crc32 e = None) then VERIFY_NONE
    else if bool_decide (h_sha256 e = None) then VERIFY_CRC32
    else VERIFY_CRC32_SHA256 in
  digest ← match h_sha256 e with
           | Some ((_ :: _) as s) => of_option ValueError "non-hexadecimal number found" (fromhex s)
           | _ => mret (replicate 32 0%N)
           end;
  crc ← match h_crc32 e with
        | Some ((_ :: _) as s) => of_option ValueError "invalid literal for int() with base 16" (py_int16 s)
        | _ => mret 0
        end;
  _ ← raise_if (length digest <? 32)%nat ValueError "Buffer size too small";
  mret (NExtent (u64 (h_file_offset e)) (u64 (destination e)) (u64 (h_length e))
          verification (u32 crc) (take 32 digest)).

(** Everything [hydrate] does before it enters the library. *)
Definition hydrate_request (extents : list HydrationExtent) (backend : pystr)
    (chunk_bytes queue_depth cuda_device : Z) (preverified register_device_buffers : bool)
    : res (pystr * list NativeExtent * NativeOptions) :=
  _ ← raise_if (bool_decide (length extents = 0%nat)) ValueError "hydration requires at least one extent";
  _ ← raise_if ((chunk_bytes <=? 0) || negb (chunk_bytes mod 4096 =? 0))
      ValueError "hydration chunk size must be 4096-byte aligned";
  _ ← raise_if (negb ((1 <=? queue_depth) && (queue_depth <=? 64)))
      ValueError "hydration queue depth must be between 1 and 64";
  backend ← resolve_backend backend extents;
  _ ← raise_if (bool_decide (backend = lit "gds") && negb preverified) HydrationError
      "GDS cannot validate device-direct bytes; use an immutable preverified artifact";
  id ← backend_id backend;
  native_extents ← mapM (native_extent preverified) extents;
  mret (backend, native_extents,
    NOptions ABI_VERSION id (u32 queue_depth) (if register_device_buffers then REGISTER_DEVICE_BUFFERS else 0)
      (u64 chunk_bytes) (i32 cuda_device) 0).

Definition hydration_metrics (backend : pystr) (r : NativeResult) : HydrationMetrics :=
  HMetrics backend (r_bytes r) (r_chunks r) (r_verified_extents r)
    (to_seconds (r_initialization_ns r)) (to_seconds (r_io_service_ns r)) (to_seconds (r_io_wait_ns r))
    (to_seconds (r_checksum_ns r)) (to_seconds (r_cuda_enqueue_ns r)) (to_seconds (r_cuda_synchronize_ns r))
    (to_seconds (r_total_ns r)).

(** [hydrate]; [path] is [os.fsencode(Path(path))]. *)
Definition hydrate (path : pybytes) (extents : list HydrationExtent) (backend : pystr)
    (chunk_bytes queue_depth cuda_device : Z) (preverified register_device_buffers : bool) (w : W)
    : res HydrationMetrics * W :=
  match hydrate_request extents backend chunk_bytes queue_depth cuda_device preverified
          register_device_buffers with
  | Raise e => (Raise e, w)
  | Ok (backend, native_extents, options) =>
      let '(status, result, w') := coldsnap_hydrate_file lib path native_extents options w in
      (_ ← raise_if (negb (status =? 0)) HydrationError "native hydration failed";
       _ ← raise_if (negb (r_abi_version result =? ABI_VERSION) || negb (r_backend result =? o_backend options))
           HydrationError "native hydration result has an incompatible ABI";
       mret (hydration_metrics backend result), w')
  end.

(** The layout loop of [capture]. *)
Fixpoint check_capture_layout (pad_extents : bool) (previous_end : Z) (extents : list CaptureExtent) : res unit :=
  match extents with
  | [] => mret tt
  | e :: extents' =>
      _ ← raise_if (c_file_offset e <? previous_end)
          ValueError "capture extents must be ordered and non-overlapping";
      let previous_end := c_file_offset e + c_length e in
      _ ← raise_if (pad_extents && negb (c_file_offset e mod DIRECT_ALIGNMENT =? 0))
          ValueError "padded capture offsets must be 4096-byte aligned";
      check_capture_layout pad_extents
        (if pad_extents then (previous_end + DIRECT_ALIGNMENT - 1) / DIRECT_ALIGNMENT * DIRECT_ALIGNMENT
         else previous_end) extents'
  end.

Definition native_capture_extent (e : CaptureExtent) : res NativeCaptureExtent :=
  id ← of_option KeyError "checksum" (assoc (checksum e) checksum_ids);
  mret (NCExtent (u64 (source e)) (u64 (c_file_offset e)) (u64 (c_length e)) id 0).

Definition capture_flags (file_sha256 verify_readback pad_extents : bool) : Z :=
  let flags := 0 in
  let flags := if file_sha256 then Z.lor flags CAPTURE_FILE_SHA256 else flags in
  let flags := if verify_readback then Z.lor flags CAPTURE_VERIFY_READBACK else flags in
  if pad_extents then Z.lor flags CAPTURE_PAD_EXTENTS else flags.

(** Everything [capture] does before it enters the library. *)
Definition capture_request (extents : list CaptureExtent) (requested : pystr)
    (chunk_bytes queue_depth cuda_device : Z) (file_sha256 verify_readback pad_extents : bool)
    : res (pystr * list NativeCaptureExtent * NativeOptions) :=
  _ ← raise_if (bool_decide (length extents = 0%nat)) ValueError "capture requires at least one extent";
  _ ← raise_if ((chunk_bytes <=? 0) || negb (chunk_bytes mod DIRECT_ALIGNMENT =? 0))
      ValueError "capture chunk size must be 4096-byte aligned";
  _ ← raise_if (negb ((1 <=? queue_depth) && (queue_depth <=? 64)))
      ValueError "capture queue depth must be between 1 and 64";
  _ ← check_capture_layout pad_extents 0 extents;
  backend ← resolve_capture_backend requested extents pad_extents;
  _ ← raise_if (if coldsnap_capture_file lib then false else true)
      HydrationError "native transfer library does not expose the capture ABI";
  id ← (if bool_decide (requested = lit "auto") && bool_decide (backend = lit "direct") then mret 0
        else of_option KeyError "backend" (assoc backend CAPTURE_BACKENDS));
  native_extents ← mapM native_capture_extent extents;
  mret (backend, native_extents,
    NOptions ABI_VERSION id (u32 queue_depth) (capture_flags file_sha256 verify_readback pad_extents)
      (u64 chunk_bytes) (i32 cuda_device) 0).

Definition capture_digest (e : CaptureExtent) (d : NativeCaptureDigest) : CaptureDigest :=
  CDigest (if bool_decide (checksum e = lit "none") then None else Some (crc_hex (nd_crc32 d)))
          (if bool_decide (checksum e = lit "crc32+sha256") then Some (tohex (nd_sha256 d)) else None).

(** [{value: name for name, value in _CAPTURE_BACKENDS.items()}] *)
Definition actual_backend (id : Z) : option pystr :=
  if id =? 1 then Some (lit "buffered") else if id =? 2 then Some (lit "direct") else None.

Definition capture_metrics (backend : pystr) (r : NativeCaptureResult) : CaptureMetrics :=
  CMetrics backend (cr_bytes r) (cr_file_bytes r) (cr_chunks r) (cr_checksummed_extents r)
    (to_seconds (cr_initialization_ns r)) (to_seconds (cr_io_service_ns r)) (to_seconds (cr_io_wait_ns r))
    (to_seconds (cr_checksum_ns r)) (to_seconds (cr_cuda_enqueue_ns r)) (to_seconds (cr_cuda_synchronize_ns r))
    (to_seconds (cr_durability_ns r)) (to_seconds (cr_verification_ns r)) (to_seconds (cr_total_ns r)).

Definition capture (path : pybytes) (extents : list CaptureExtent) (requested : pystr)
    (chunk_bytes queue_depth cuda_device : Z) (want_sha256 verify_readback pad_extents : bool) (w : W)
    : res CaptureResult * W :=
  match capture_request extents requested chunk_bytes queue_depth cuda_device want_sha256
          verify_readback pad_extents, coldsnap_capture_file lib with
  | Raise e, _ => (Raise e, w)
  | Ok _, None => (Raise (Exn HydrationError "native transfer library does not expose the capture ABI"), w)
  | Ok (backend, native_extents, options), Some capture_file =>
      let '(status, memory, result, w') := capture_file path native_extents options w in
      (_ ← raise_if (negb (status =? 0)) HydrationError "native capture failed";
       _ ← raise_if (negb (cr_abi_version result =? ABI_VERSION)
                     || bool_decide (actual_backend (cr_backend result) = None)
                     || (negb (o_backend options =? 0) && negb (cr_backend result =? o_backend options)))
           HydrationError "native capture result has an incompatible ABI";
       backend ← of_option KeyError "backend" (actual_backend (cr_backend result));
       mret (CResult (capture_metrics backend result)
               (zip_with capture_digest extents (memory <$> seq 0 (length extents)))
               (if want_sha256 then Some (tohex (cr_file_sha256 result)) else None)), w')
  end.
End hydrator.

(** ** Selecting the library from the environment *)

Section environment.
Context {W : Type} (environ : pystr → option pystr) (is_file : pystr → bool) (CDLL : pystr → res (library W)).

(** [NativeHydrator(path)] *)
Definition NativeHydrator_new (path : pystr) : res (library W) :=
  _ ← raise_if (negb (is_file path)) HydrationError "native hydration library does not exist";
  CDLL path.

(** [os.environ.get(k)] that is set and not empty. *)
Definition env_nonempty (k : pystr) : option pystr :=
  match environ k with Some ((_ :: _) as v) => Some v | _ => None end.

Definition native_transport : res (library W) :=
  path ← of_option HydrationError "native hydration library is required" (env_nonempty HYDRATION_LIBRARY_ENV);
  hydrator ← NativeHydrator_new path;
  _ ← match env_nonempty HYDRATION_LIBRARY_SHA256_ENV with
      | None => mret tt
      | Some expected =>
          _ ← check_hex 64 expected HydrationError;
          raise_if (negb (bool_decide (hexdigest (image hydrator) = expected)))
            HydrationError "native transfer library SHA-256 mismatch"
      end;
  mret hydrator.

Definition hydrator_from_env : res (option (library W * pystr)) :=
  let backend := default (lit "python") (environ HYDRATION_BACKEND_ENV) in
  if bool_decide (backend = lit "python") then mret None else
  _ ← raise_if (negb (bool_decide (backend ∈ BACKENDS.*1 ++ [lit "auto"])))
      ValueError "hydration backend must be python, auto, buffered, direct, or gds";
  hydrator ← native_transport;
  mret (Some (hydrator, backend)).

(** [any(transport.capture_available(item) for item in _CAPTURE_BACKENDS)] *)
Fixpoint any_capture (t : library W) (backends : list pystr) : res bool :=
  match backends with
  | [] => mret false
  | b :: backends' => ok ← capture_available t b; if ok : bool then mret true else any_capture t backends'
  end.

Definition capture_from_env : res (option (library W * pystr)) :=
  let backend := default (lit "python") (environ CAPTURE_BACKEND_ENV) in
  if bool_decide (backend = lit "python") then mret None else
  _ ← raise_if (negb (bool_decide (backend ∈ CAPTURE_BACKENDS.*1 ++ [lit "auto"])))
      ValueError "capture backend must be python, auto, buffered, or direct";
  transport ← native_transport;
  any ← any_capture transport CAPTURE_BACKENDS.*1;
  _ ← raise_if (negb any) HydrationError "native transfer library does not expose an available capture backend";
  mret (Some (transport, backend)).
End environment.

(** ** The library's own admission ([native/coldsnap_hydration.cpp])

    Unsigned arithmetic wraps at 64 bits; [UINT64_MAX - length] cannot, as [length] is
    a [uint64_t]. *)

Definition UINT64_MAX : Z := 2 ^ 64 - 1.

Definition native_throw (b : bool) (m : string) : res unit := raise_if b RuntimeError m.

Definition empty_path (path : pybytes) : bool := match path with [] => true | c :: _ => (c =? 0)%N end.

Definition validate_extent (e : NativeExtent) : res unit :=
  native_throw ((ne_destination e =? 0) || (ne_length e =? 0) || (UINT64_MAX <? ne_length e)
    || (UINT64_MAX - ne_length e <? ne_file_offset e) || (UINT64_MAX - ne_length e <? ne_destination e))
    "invalid hydration extent".

Definition validate_request (path : pybytes) (extents : list NativeExtent) (options : NativeOptions) : res unit :=
  _ ← native_throw (empty_path path) "hydration path is empty";
  _ ← native_throw (bool_decide (length extents = 0%nat)) "hydration has no extents";
  _ ← native_throw (negb (o_abi_version options =? 1)) "unsupported hydration ABI version";
  _ ← native_throw ((o_backend options <? 1) || (3 <? o_backend options)) "unsupported hydration backend";
  _ ← native_throw ((o_queue_depth options =? 0) || (64 <? o_queue_depth options))
      "hydration queue depth must be between 1 and 64";
  _ ← native_throw ((o_chunk_bytes options =? 0) || negb (o_chunk_bytes options mod 4096 =? 0)
                    || (UINT64_MAX <? o_chunk_bytes options))
      "hydration chunk size must be positive and 4096-byte aligned";
  _ ← native_throw (negb (Z.land (o_flags options) (u32 (Z.lnot 1)) =? 0) || negb (o_reserved options =? 0))
      "unsupported hydration options or flags";
  _ ← mapM validate_extent extents;
  mret tt.

(** [Job] and [CaptureJob]: one read or write of at most [chunk_bytes]. *)
Record Job := MkJob { extent_index : nat; j_file_offset : Z; j_address : Z; j_length : Z }.

(** The [while (copied < length)] loop. [fuel] bounds its rounds: with a positive
    chunk there are at most [length / chunk + 1] of them. *)
Fixpoint chunk_jobs (fuel : nat) (index : nat) (off addr len chunk copied : Z) : list Job :=
  match fuel with
  | O => []
  | S fuel' =>
      if copied <? len then
        let count := Z.min chunk (len - copied) in
        MkJob index (u64 (off + copied)) (u64 (addr + copied)) count
        :: chunk_jobs fuel' index off addr len chunk (u64 (copied + count))
      else []
  end.

Definition rounds (len chunk : Z) : nat := S (Z.to_nat (len / chunk + 1)).

Definition make_jobs (extents : list NativeExtent) (chunk : Z) : list Job :=
  concat (imap (λ i e, chunk_jobs (rounds (ne_length e) chunk) i (ne_file_offset e) (ne_destination e)
                         (ne_length e) chunk 0) extents).

Definition make_capture_jobs (extents : list NativeCaptureExtent) (chunk : Z) : list Job :=
  concat (imap (λ i e, chunk_jobs (rounds (nc_length e) chunk) i (nc_file_offset e) (nc_source e)
                         (nc_length e) chunk 0) extents).

Definition validate_direct_jobs (jobs : list Job) : res unit :=
  _ ← mapM (λ j, native_throw (negb (j_file_offset j mod 4096 =? 0) || negb (j_length j mod 4096 =? 0))
                   "direct hydration requires 4096-byte aligned offsets and lengths") jobs;
  mret tt.

Definition direct_capture_jobs_compatible (jobs : list Job) (padded : bool) : bool :=
  forallb (λ j, (j_file_offset j mod 4096 =? 0) && (padded || (j_length j mod 4096 =? 0))) jobs.

Definition padded_capture_length (len : Z) : res Z :=
  _ ← native_throw (UINT64_MAX - 4095 <? len) "padded capture extent length overflows uint64";
  mret ((len + 4095) / 4096 * 4096).

Fixpoint validate_capture_extents (padded : bool) (previous_end : Z) (extents : list NativeCaptureExtent) : res unit :=
  match extents with
  | [] => mret tt
  | e :: extents' =>
      _ ← native_throw ((nc_source e =? 0) || (nc_length e =? 0) || negb (nc_reserved e =? 0)
            || (2 <? nc_checksum e) || (UINT64_MAX <? nc_length e)
            || (UINT64_MAX - nc_length e <? nc_file_offset e) || (UINT64_MAX - nc_length e <? nc_source e)
            || (nc_file_offset e <? previous_end)) "invalid or overlapping capture extent";
      stored ← (if padded then padded_capture_length (nc_length e) else mret (nc_length e));
      _ ← native_throw ((padded && negb (nc_file_offset e mod 4096 =? 0)) || (UINT64_MAX - stored <? nc_file_offset e))
          "invalid padded capture extent layout";
      validate_capture_extents padded (u64 (nc_file_offset e + stored)) extents'
  end.

Definition validate_capture_request (path : pybytes) (extents : list NativeCaptureExtent) (options : NativeOptions)
    : res unit :=
  _ ← native_throw (empty_path path) "capture path is empty";
  _ ← native_throw (bool_decide (length extents = 0%nat)) "capture has no extents";
  _ ← native_throw (negb (o_abi_version options =? 1)) "unsupported capture ABI version";
  _ ← native_throw (2 <? o_backend options) "unsupported capture backend";
  _ ← native_throw ((o_queue_depth options =? 0) || (64 <? o_queue_depth options))
      "capture queue depth must be between 1 and 64";
  _ ← native_throw ((o_chunk_bytes options =? 0) || negb (o_chunk_bytes options mod 4096 =? 0)
                    || (UINT64_MAX <? o_chunk_bytes options))
      "capture chunk size must be positive and 4096-byte aligned";
  _ ← native_throw (negb (Z.land (o_flags options) (u32 (Z.lnot 7)) =? 0) || negb (o_reserved options =? 0))
      "unsupported capture options or flags";
  _ ← validate_capture_extents (negb (Z.land (o_flags options) 4 =? 0)) 0 extents;
  native_throw (negb (Z.land (o_flags options) 2 =? 0)
                && negb (existsb (λ e, negb (nc_checksum e =? 0)) extents)
                && (Z.land (o_flags options) 1 =? 0))
    "capture readback requires an extent checksum or file SHA-256".
