(* ===== verification/HydrationSpec.v ===== *)
(** * Theorems about native transfers

    What Python admits, the library admits; the [auto] policies never select direct I/O
    for a layout it rejects; verification is never dropped silently; and the pinned
    library is the one that is used. *)

From Stdlib Require Import SpecFloat.
From S2P Require Import Prelude Ranges PyFloat Hash Hydration.

(** ** Arithmetic of the widths *)

Lemma u64_id z : 0 <= z < 2 ^ 64 → u64 z = z.
Proof. intros. unfold u64. by apply Z.mod_small. Qed.
Lemma u32_id z : 0 <= z < 2 ^ 32 → u32 z = z.
Proof. intros. unfold u32. by apply Z.mod_small. Qed.

Ltac bools :=
  repeat match goal with
  | H : (_ =? _) = true |- _ => apply Z.eqb_eq in H
  | H : (_ =? _) = false |- _ => apply Z.eqb_neq in H
  | H : (_ <? _) = true |- _ => apply Z.ltb_lt in H
  | H : (_ <? _) = false |- _ => apply Z.ltb_ge in H
  | H : (_ <=? _) = true |- _ => apply Z.leb_le in H
  | H : (_ <=? _) = false |- _ => apply Z.leb_gt in H
  end.

(** Close a goal [b = false] whose atoms are integer comparisons. *)
Ltac close_guard :=
  unfold UINT64_MAX in *; repeat rewrite orb_false_iff; repeat rewrite negb_false_iff;
  repeat rewrite Z.eqb_neq; repeat rewrite Z.ltb_ge; repeat rewrite Z.leb_gt; repeat rewrite Z.eqb_eq.

(** ** Chunking *)

(** The bytes one job moves, as file offsets. *)
Definition job_range (j : Job) : list Z := seqZ (j_file_offset j) (j_length j).

Lemma chunk_jobs_tile fuel i off addr len chunk copied :
  0 < chunk → 0 <= copied <= len → 0 <= off → 0 <= addr → off + len < 2 ^ 64 → addr + len < 2 ^ 64 →
  len - copied <= Z.of_nat fuel * chunk →
  concat (job_range <$> chunk_jobs fuel i off addr len chunk copied) = seqZ (off + copied) (len - copied)
  ∧ Forall (λ j, extent_index j = i ∧ 0 < j_length j <= chunk ∧ off + copied <= j_file_offset j
       ∧ (chunk | j_file_offset j - (off + copied)) ∧ j_address j - addr = j_file_offset j - off
       ∧ (j_length j = chunk ∨ j_file_offset j + j_length j = off + len))
     (chunk_jobs fuel i off addr len chunk copied).
Proof.
  intros Hc. revert copied. induction fuel as [|fuel IH]; intros copied Hcp Ho Ha Hol Hal Hf.
  { assert (copied = len) as -> by lia. rewrite Z.sub_diag. split; [done|constructor]. }
  cbn [chunk_jobs]. destruct (Z.ltb_spec copied len) as [Hlt|Hge].
  - set (count := Z.min chunk (len - copied)).
    assert (0 < count <= chunk ∧ copied + count <= len) as [? ?] by lia.
    rewrite !u64_id by lia.
    destruct (IH (copied + count)) as [E F]; try lia.
    csimpl. unfold job_range at 1. simpl. rewrite E. split.
    + replace (len - copied) with (count + (len - (copied + count))) by lia.
      rewrite seqZ_app by lia. f_equal. f_equal. lia.
    + constructor.
      * simpl. split_and!; try lia. exists 0. lia.
      * destruct (Z.min_spec chunk (len - copied)) as [[??]|[??]].
        -- assert (count = chunk) as Hcc by lia.
           eapply Forall_impl; [exact F|]. intros j (? & ? & ? & [q ?] & ? & ?).
           split_and!; try done; try lia. exists (q + 1). lia.
        -- assert (copied + count = len) as Hend by lia.
           destruct fuel as [|fuel']; [constructor|]. cbn [chunk_jobs].
           destruct (Z.ltb_spec (copied + count) len); [lia|]. constructor.
  - assert (copied = len) as -> by lia. rewrite Z.sub_diag. split; [done|constructor].
Qed.

Lemma rounds_enough len chunk : 0 < chunk → 0 <= len → len - 0 <= Z.of_nat (rounds len chunk) * chunk.
Proof. intros. unfold rounds. assert (0 <= len / chunk) by (apply Z.div_pos; lia). nia. Qed.

Definition job_moves (j : Job) : list (Z * Z) := moves (j_file_offset j) (j_address j) (j_length j).

Lemma chunk_jobs_moves i off addr len chunk : 0 < chunk → 0 <= len → 0 <= off → 0 <= addr →
  off + len < 2 ^ 64 → addr + len < 2 ^ 64 →
  concat (job_moves <$> chunk_jobs (rounds len chunk) i off addr len chunk 0) = moves off addr len.
Proof.
  intros. destruct (chunk_jobs_tile (rounds len chunk) i off addr len chunk 0) as [E F];
    try lia; [by apply rounds_enough|].
  rewrite Z.add_0_r, Z.sub_0_r in E. unfold moves. rewrite <- E. clear E.
  induction F as [|j js Hj _ IH]; csimpl; [done|]. rewrite fmap_app, <- IH. f_equal.
  unfold job_moves, moves, job_range. apply list_fmap_ext. intros k o _. f_equal. lia.
Qed.

(** What the library accepted, in the ranges of its C types. *)
Definition native_ok (e : NativeExtent) : Prop :=
  0 < ne_destination e ∧ 0 < ne_length e ∧ 0 <= ne_file_offset e
  ∧ ne_file_offset e + ne_length e < 2 ^ 64 ∧ ne_destination e + ne_length e < 2 ^ 64.

Lemma mapM_imap_concat {A B} (f : nat → A → list Job) (g : A → list B) (h : Job → list B) l n :
  (∀ i e, e ∈ l → concat (h <$> f i e) = g e) →
  concat (h <$> concat (imap (λ i, f (n + i)%nat) l)) = concat (g <$> l).
Proof.
  revert n. induction l as [|e l IH]; intros n Hf; [done|].
  rewrite imap_cons. csimpl. rewrite fmap_app, concat_app, Hf by left. f_equal.
  rewrite <- (IH (S n)); [|intros; apply Hf; by right].
  do 3 f_equal. apply imap_ext. intros i x _. simpl. f_equal. lia.
Qed.

(** Splitting a transfer into jobs is exact: for admitted extents and a positive
    chunk, the jobs move every byte of every extent exactly once, in order, from its
    file offset to its device address; no round is lost to the loop bound. *)
Theorem make_jobs_moves extents chunk : 0 < chunk → Forall native_ok extents →
  concat (job_moves <$> make_jobs extents chunk)
  = concat ((λ e, moves (ne_file_offset e) (ne_destination e) (ne_length e)) <$> extents).
Proof.
  intros Hc Hok. unfold make_jobs.
  apply (mapM_imap_concat (λ i e, chunk_jobs (rounds (ne_length e) chunk) i (ne_file_offset e)
    (ne_destination e) (ne_length e) chunk 0) _ _ _ 0%nat).
  intros i e He. rewrite Forall_forall in Hok. destruct (Hok e He) as (? & ? & ? & ? & ?).
  apply chunk_jobs_moves; lia.
Qed.

(** ** Requests *)

Lemma HydrationExtent_inv e e' : HydrationExtent_new e = Ok e' →
  e' = e ∧ 0 <= h_file_offset e ∧ 0 < destination e ∧ 0 < h_length e
  ∧ (∀ s, h_crc32 e = Some s → length s = 8%nat) ∧ (h_crc32 e = None → h_sha256 e = None).
Proof.
  unfold HydrationExtent_new. intros E. res_inv. guards. bools. split_and!; try lia; [done|..].
  - intros s Hs. rewrite Hs in *. unfold check_hex in *. res_inv. guards. done.
  - intros Hn. destruct (h_sha256 e'); [|done]. res_inv. guards. done.
Qed.

(** The extent lies in the 64-bit offsets and addresses. *)
Definition in_range (e : HydrationExtent) : Prop :=
  h_file_offset e + h_length e < 2 ^ 64 ∧ destination e + h_length e < 2 ^ 64.

Lemma native_extent_Ok pre e ne : native_extent pre e = Ok ne →
  ne_file_offset ne = u64 (h_file_offset e) ∧ ne_destination ne = u64 (destination e)
  ∧ ne_length ne = u64 (h_length e)
  ∧ ne_verification ne = (if pre || bool_decide (h_crc32 e = None) then VERIFY_NONE
                          else if bool_decide (h_sha256 e = None) then VERIFY_CRC32 else VERIFY_CRC32_SHA256).
Proof. unfold native_extent. intros E. res_inv. done. Qed.

Lemma backend_id_range b id : backend_id b = Ok id → 1 <= id <= 3 ∧ (id = 2 ↔ b = lit "direct") ∧ (id = 3 ↔ b = lit "gds").
Proof.
  unfold backend_id. intros E. res_inv. simpl in E. repeat case_decide; simplify_eq; split_and!; done || lia.
Qed.

Lemma auto_direct {W} (lib : library W) extents :
  resolve_backend lib (lit "auto") extents = Ok (lit "direct") → direct_compatible extents = true.
Proof.
  unfold resolve_backend. rewrite bool_decide_true by done. simpl negb. cbv iota.
  intros E. res_inv. destruct (direct_compatible extents); [done|]. res_inv. simplify_eq.
  destruct x; res_inv; done.
Qed.

(** Jobs of an aligned extent are aligned. *)
Lemma chunk_jobs_aligned i off addr len chunk : 0 < chunk → chunk mod 4096 = 0 → 0 <= len → 0 <= off → 0 <= addr →
  off + len < 2 ^ 64 → addr + len < 2 ^ 64 → off mod 4096 = 0 →
  Forall (λ j, j_file_offset j mod 4096 = 0 ∧ (len mod 4096 = 0 → j_length j mod 4096 = 0))
    (chunk_jobs (rounds len chunk) i off addr len chunk 0).
Proof.
  intros Hc Hcm ? ? ? ? ? Hom. destruct (chunk_jobs_tile (rounds len chunk) i off addr len chunk 0) as [_ F];
    try lia; [by apply rounds_enough|].
  eapply Forall_impl; [exact F|]. intros j (_ & _ & _ & Hdiv & _ & Hend). rewrite Z.add_0_r in Hdiv.
  assert ((4096 | j_file_offset j)) as Hj.
  { apply Z.mod_divide in Hcm, Hom; [|done..].
    replace (j_file_offset j) with (off + (j_file_offset j - off)) by lia.
    apply Z.divide_add_r; [done|]. by transitivity chunk. }
  split; [by apply Z.mod_divide|]. intros Hlm.
  destruct Hend as [->|Hend]; [done|]. apply Z.mod_divide in Hom, Hlm; [|done..]. apply Z.mod_divide; [done|].
  replace (j_length j) with (off + len - j_file_offset j) by lia.
  by apply Z.divide_sub_r; [apply Z.divide_add_r|].
Qed.

Lemma Forall_concat_imap {A B} (P : B → Prop) (f : nat → A → list B) l n :
  (∀ i x, x ∈ l → Forall P (f i x)) → Forall P (concat (imap (λ i, f (n + i)%nat) l)).
Proof.
  revert n. induction l as [|x l IH]; intros n Hf; [constructor|].
  rewrite imap_cons. simpl. apply Forall_app. split; [apply Hf; left|].
  replace (imap ((λ i, f (n + i)%nat) ∘ S) l) with (imap (λ i, f (S n + i)%nat) l).
  - apply IH. intros. apply Hf. by right.
  - apply imap_ext. intros i y _. simpl. f_equal. lia.
Qed.

Lemma make_jobs_aligned nes chunk : 0 < chunk → chunk mod 4096 = 0 → Forall native_ok nes →
  Forall (λ e, ne_file_offset e mod 4096 = 0 ∧ ne_length e mod 4096 = 0) nes →
  validate_direct_jobs (make_jobs nes chunk) = Ok tt.
Proof.
  intros Hc Hcm Hok Ha. unfold validate_direct_jobs.
  assert (Forall (λ j, j_file_offset j mod 4096 = 0 ∧ j_length j mod 4096 = 0) (make_jobs nes chunk)) as HF.
  { apply (Forall_concat_imap _ (λ i e, chunk_jobs (rounds (ne_length e) chunk) i (ne_file_offset e)
      (ne_destination e) (ne_length e) chunk 0) nes 0%nat).
    rewrite Forall_forall in Hok, Ha. intros i e He. destruct (Hok e He) as (? & ? & ? & ? & ?), (Ha e He).
    eapply Forall_impl; [apply chunk_jobs_aligned; lia|]. intros j [? Hl]. auto. }
  assert (is_ok (mapM (λ j, native_throw (negb (j_file_offset j mod 4096 =? 0) || negb (j_length j mod 4096 =? 0))
    "direct hydration requires 4096-byte aligned offsets and lengths") (make_jobs nes chunk)) = true) as HM.
  { apply mapM_unit_Ok. eapply Forall_impl; [exact HF|]. intros j [-> ->]. done. }
  by destruct (mapM _ _).
Qed.

Lemma flags_ok (b : bool) : Z.land (if b then REGISTER_DEVICE_BUFFERS else 0) (u32 (Z.lnot 1)) = 0.
Proof. by destruct b. Qed.

(** What remains of an extent in the 64-bit fields of the native structure can be moved:
    an address, a length, and ends that do not pass the last offset or address. *)
Definition representable (e : HydrationExtent) : Prop :=
  0 < u64 (destination e) ∧ 0 < u64 (h_length e)
  ∧ u64 (h_file_offset e) + u64 (h_length e) < 2 ^ 64 ∧ u64 (destination e) + u64 (h_length e) < 2 ^ 64.

Lemma u64_bounds z : 0 <= u64 z < 2 ^ 64.
Proof. apply Z.mod_pos_bound. lia. Qed.

Lemma u64_aligned z : z mod 4096 = 0 → u64 z mod 4096 = 0.
Proof.
  unfold u64. intros Hz. apply Z.mod_divide in Hz as [q ->]; [|done]. apply Z.mod_divide; [done|].
  change (2 ^ 64) with (2 ^ 52 * 4096). rewrite Z.mul_mod_distr_r by done. by exists (q mod 2 ^ 52).
Qed.

Lemma validate_extent_exact pre e ne : native_extent pre e = Ok ne →
  (validate_extent ne = Ok tt ↔ representable e) ∧ (representable e → native_ok ne).
Proof.
  intros (Ho & Hd & Hl & _)%native_extent_Ok. unfold validate_extent, native_throw, UINT64_MAX, representable, native_ok.
  rewrite raise_if_Ok, Ho, Hd, Hl. pose proof (u64_bounds (h_file_offset e)). pose proof (u64_bounds (destination e)).
  pose proof (u64_bounds (h_length e)). split; [|lia]. rewrite !orb_false_iff, !Z.eqb_neq, !Z.ltb_ge. lia.
Qed.

Lemma validate_extents_exact pre extents nes : mapM (native_extent pre) extents = Ok nes →
  (mapM validate_extent nes = Ok ((λ _, tt) <$> nes) ↔ Forall representable extents)
  ∧ (Forall representable extents → Forall native_ok nes).
Proof.
  intros E%mapM_Ok. rewrite mapM_Ok. induction E as [|e ne es nes He _ [IH1 IH2]]; csimpl.
  { repeat split; constructor. }
  apply validate_extent_exact in He as [He1 He2]. rewrite Forall_cons, <- He1, <- IH1. split.
  - split; [by inversion 1|by intros [? ?]; constructor].
  - intros [? ?]. constructor; [by apply He2, He1|by apply IH2, IH1].
Qed.

Lemma mapM_units {A} (f : A → res unit) l us : mapM f l = Ok us → us = (λ _, tt) <$> l.
Proof. intros E%mapM_Ok%Forall2_length. revert us E. induction l as [|x l IH]; intros [|[] us] E; csimpl; try done. f_equal. apply IH. simpl in E. lia. Qed.

(** A request that Python built is rejected by the library only for its path, a chunk
    size that its field truncates to nothing, or an extent. *)
Lemma request_validated {W} (lib : library W) path extents requested chunk depth device pre reg b nes o :
  hydrate_request lib extents requested chunk depth device pre reg = Ok (b, nes, o) →
  validate_request path nes o = Ok tt ↔ empty_path path = false ∧ u64 chunk ≠ 0 ∧ Forall representable extents.
Proof.
  intros E. unfold hydrate_request in E. res_inv. guards. bools. simplify_eq.
  match goal with H : backend_id _ = Ok _ |- _ => apply backend_id_range in H as (Hid & _ & _) end.
  match goal with H : mapM (native_extent _) _ = Ok _ |- _ => pose proof (validate_extents_exact _ _ _ H) as [<- _];
    apply mapM_Ok, Forall2_length in H end.
  unfold validate_request, native_throw. cbn [o_abi_version o_backend o_queue_depth o_chunk_bytes o_flags o_reserved].
  rewrite flags_ok, (u32_id depth) by lia. pose proof (u64_bounds chunk). rewrite (u64_aligned chunk) by done. split.
  - intros E. res_inv. guards. bools. split_and!; try done.
    match goal with H : mapM validate_extent _ = Ok _ |- _ => by rewrite H, (mapM_units _ _ _ H) end.
  - intros (-> & Hc & ->). repeat (apply raise_if_bind; [try done|]); [..|done].
    + apply bool_decide_eq_false. lia.
    + close_guard. lia.
    + close_guard. lia.
    + unfold UINT64_MAX. rewrite !orb_false_iff, Z.eqb_neq, Z.ltb_ge. split_and!; [done|done|lia].
Qed.

(** C23. What the native library checks of a request and what Python already guarantees.
    Of every request [hydrate] builds, the library's [validate_request] accepts exactly
    those with a nonempty path, a chunk size whose 64-bit field is not zero and extents
    whose 64-bit fields have an address, a length, and ends that do not pass the last
    offset or address; the ABI version, backend, queue depth, chunk alignment, flags and
    extent count never cause a rejection. For constructed extents with fields and a
    chunk size below 2^64 what is left is the path and the two end bounds, offset plus
    length and destination plus length below 2^64, which Python does not check. A
    request chosen as direct under [auto] that is accepted also passes the alignment
    check of every job, and a GDS request asks for no verification. *)
Theorem hydrate_request_admitted {W} (lib : library W) path extents requested chunk depth device pre reg b nes o :
  hydrate_request lib extents requested chunk depth device pre reg = Ok (b, nes, o) →
  (validate_request path nes o = Ok tt ↔ empty_path path = false ∧ u64 chunk ≠ 0 ∧ Forall representable extents)
  ∧ (Forall (λ e, HydrationExtent_new e = Ok e ∧ h_file_offset e < 2 ^ 64 ∧ destination e < 2 ^ 64 ∧ h_length e < 2 ^ 64) extents →
     chunk < 2 ^ 64 →
     validate_request path nes o = Ok tt ↔ empty_path path = false ∧ Forall in_range extents)
  ∧ (requested = lit "auto" → o_backend o = 2 → validate_request path nes o = Ok tt →
     validate_direct_jobs (make_jobs nes (o_chunk_bytes o)) = Ok tt)
  ∧ (o_backend o = 3 → Forall (λ ne, ne_verification ne = VERIFY_NONE) nes).
Proof.
  intros E. pose proof (request_validated _ path _ _ _ _ _ _ _ _ _ _ E) as Hv. rewrite Hv.
  unfold hydrate_request in E. res_inv. guards. bools. simplify_eq. cbn [o_backend o_chunk_bytes].
  match goal with H : backend_id _ = Ok _ |- _ => apply backend_id_range in H as (Hid & Hdir & Hgds) end.
  match goal with H : mapM (native_extent _) _ = Ok _ |- _ => rename H into Hm end. split_and!; [done|..].
  - intros Hext Hch. rewrite u64_id by lia. split.
    + intros (? & _ & Hr). split; [done|]. eapply Forall_impl; [apply Forall_and; split; [exact Hext|exact Hr]|].
      intros e [((_ & ? & ? & ? & _)%HydrationExtent_inv & ? & ? & ?) Hr']. unfold representable in Hr'. unfold in_range.
      rewrite !u64_id in Hr' by lia. lia.
    + intros [? Hr]. split_and!; [done|lia|]. eapply Forall_impl; [apply Forall_and; split; [exact Hext|exact Hr]|].
      intros e [((_ & ? & ? & ? & _)%HydrationExtent_inv & ? & ? & ?) Hr']. unfold representable. unfold in_range in Hr'.
      rewrite !u64_id by lia. lia.
  - intros -> Hx (_ & Hc & Hr). apply Hdir in Hx as ->. pose proof (u64_bounds chunk).
    apply make_jobs_aligned; [lia|by apply u64_aligned|by eapply validate_extents_exact|].
    match goal with H : resolve_backend _ _ _ = Ok _ |- _ => apply auto_direct in H as Hall end.
    unfold direct_compatible, DIRECT_ALIGNMENT in Hall. apply mapM_Ok in Hm. clear -Hm Hall. revert Hall.
    induction Hm as [|e ne es nes (Ho & _ & Hl & _)%native_extent_Ok _ IH]; intros Hall; [constructor|].
    simpl in Hall. guards. bools. constructor; [|by apply IH]. rewrite Ho, Hl. split; by apply u64_aligned.
  - intros ->. assert (b = lit "gds") as -> by by apply Hgds.
    match goal with H : bool_decide _ && negb pre = false |- _ =>
      rewrite bool_decide_true in H by done; simpl in H; apply negb_false_iff in H; subst pre end.
    apply mapM_Ok in Hm. clear -Hm. induction Hm as [|e ne es nes He _ IH]; constructor; [|done].
    by apply native_extent_Ok in He as (_ & _ & _ & ->).
Qed.

(** ** Digests cross from capture to hydration *)

Lemma check_hex_tohex n b c : is_bytes b → length b = n → check_hex (2 * n) (tohex b) c = Ok tt.
Proof.
  intros Hb Hn. unfold check_hex. apply raise_if_bind.
  - rewrite tohex_length, Hn, tohex_py_lower by done. by rewrite !bool_decide_true by done.
  - by rewrite fromhex_tohex.
Qed.

Lemma tohex_nonempty b : b ≠ [] → ∃ c s, tohex b = c :: s.
Proof. destruct b as [|x b]; [done|]. intros _. unfold tohex. csimpl. eauto. Qed.

(** A native digest whose fields have their C widths. *)
Definition digest_ok (d : NativeCaptureDigest) : Prop :=
  (nd_crc32 d < 2 ^ 32)%N ∧ is_bytes (nd_sha256 d) ∧ length (nd_sha256 d) = 32%nat.

Lemma crc_hex_ok c : check_hex 8 (crc_hex c) ValueError = Ok tt.
Proof. apply (check_hex_tohex 4); [apply be_bytes_ok|apply length_be_bytes]. Qed.

Lemma native_extent_crc e crc sha digest :
  h_crc32 e = Some crc → crc ≠ [] → py_int16 crc = Some (Z.of_N sha) → (sha < 2 ^ 32)%N →
  match h_sha256 e with Some s => s ≠ [] ∧ fromhex s = Some digest | None => digest = replicate 32 0%N end →
  length digest = 32%nat →
  native_extent false e = Ok (NExtent (u64 (h_file_offset e)) (u64 (destination e)) (u64 (h_length e))
    (if h_sha256 e then VERIFY_CRC32_SHA256 else VERIFY_CRC32) (Z.of_N sha) digest).
Proof.
  intros Hc Hne Hi Hlt Hs Hl. unfold native_extent. rewrite Hc. destruct crc as [|c crc]; [done|].
  rewrite (bool_decide_false (Some (c :: crc) = None)) by done. simpl orb. cbv iota.
  destruct (h_sha256 e) as [s|].
  - destruct Hs as [Hs Hf]. destruct s as [|c' s]; [done|].
    rewrite bool_decide_false by done. cbv iota. rewrite Hf. cbn [of_option mbind res_bind]. rewrite Hi.
    cbn [of_option mbind res_bind]. apply raise_if_bind; [by rewrite Hl|].
    rewrite u32_id, take_ge by lia. done.
  - subst digest. rewrite bool_decide_true by done. cbn [mret res_ret of_option mbind res_bind]. rewrite Hi.
    cbn [of_option mbind res_bind]. apply raise_if_bind; [done|].
    rewrite u32_id, take_ge by (simpl; lia). done.
Qed.

Lemma HydrationExtent_ok off dst len crc sha : 0 <= off → 0 < dst → 0 < len →
  match crc with Some s => check_hex 8 s ValueError = Ok tt | None => sha = None end →
  match sha with Some s => check_hex 64 s ValueError = Ok tt | None => True end →
  HydrationExtent_new (HExtent off dst len crc sha) = Ok (HExtent off dst len crc sha).
Proof.
  intros ? ? ? Hc Hs. unfold HydrationExtent_new. cbn [h_file_offset destination h_length h_crc32 h_sha256].
  apply raise_if_bind; [close_guard; lia|]. destruct crc as [c|]; [rewrite Hc|subst sha; done].
  destruct sha as [t|]; [|done]. cbn [mbind res_bind]. rewrite bool_decide_false by done.
  cbn [raise_if mbind res_bind]. by rewrite Hs.
Qed.

Lemma crc_hex_nonempty c : crc_hex c ≠ [].
Proof. unfold crc_hex. by destruct (tohex_nonempty (be_bytes 4 (N.land c 0xFFFFFFFF))) as (? & ? & ->). Qed.

(** A digest written by [capture] reads back exactly: the extent built from it is
    accepted, and the native extent of a later [hydrate] asks for the same checksum
    mode and expects the very CRC-32 and SHA-256 the library computed at capture. *)
Theorem capture_digest_round_trip e d off dst len :
  CaptureExtent_new e = Ok e → digest_ok d → 0 <= off → 0 < dst → 0 < len →
  let cd := capture_digest e d in
  let he := HExtent off dst len (d_crc32 cd) (d_sha256 cd) in
  HydrationExtent_new he = Ok he
  ∧ ∃ ne, native_extent false he = Ok ne
      ∧ Some (ne_verification ne) = assoc (checksum e) checksum_ids
      ∧ (ne_verification ne ≠ VERIFY_NONE → ne_expected_crc32 ne = Z.of_N (nd_crc32 d))
      ∧ (ne_verification ne = VERIFY_CRC32_SHA256 → ne_expected_sha256 ne = nd_sha256 d).
Proof.
  intros He (Hc & Hs & Hl) Ho Hd Hn cd he. unfold CaptureExtent_new in He. res_inv. guards.
  match goal with H : checksum e ∈ _ |- _ => rename H into Hk end.
  assert (tohex (nd_sha256 d) ≠ []) as Hne.
  { destruct (tohex_nonempty (nd_sha256 d)) as (? & ? & ->); [by destruct (nd_sha256 d)|done]. }
  repeat (apply elem_of_cons in Hk as [Hk|Hk]); [..|by apply elem_of_nil in Hk].
  - assert (cd = CDigest None None) as Ecd by (unfold cd, capture_digest; rewrite Hk; done).
    subst he. rewrite Ecd. split; [by apply HydrationExtent_ok|]. eexists. split; [done|]. by rewrite Hk.
  - assert (cd = CDigest (Some (crc_hex (nd_crc32 d))) None) as Ecd by (unfold cd, capture_digest; rewrite Hk; done).
    subst he. rewrite Ecd. split; [apply HydrationExtent_ok; [lia..|exact (crc_hex_ok _)|done]|]. eexists. split.
    { eapply native_extent_crc; cbn [h_sha256 h_crc32 d_crc32 d_sha256]; eauto using crc_hex_nonempty, crc_hex_int. }
    by rewrite Hk.
  - assert (cd = CDigest (Some (crc_hex (nd_crc32 d))) (Some (tohex (nd_sha256 d)))) as Ecd
      by (unfold cd, capture_digest; rewrite Hk; done).
    subst he. rewrite Ecd. split.
    { apply HydrationExtent_ok; [lia..|exact (crc_hex_ok _)|]. by apply (check_hex_tohex 32). }
    eexists. split.
    { eapply native_extent_crc; cbn [h_sha256 h_crc32 d_crc32 d_sha256]; eauto using crc_hex_nonempty, crc_hex_int, fromhex_tohex. }
    by rewrite Hk.
Qed.

(** ** Capture requests *)

Definition capture_in_range (e : CaptureExtent) : Prop :=
  c_file_offset e + c_length e + 4095 < 2 ^ 64 ∧ source e + c_length e < 2 ^ 64.

Definition capture_ok (e : CaptureExtent) : Prop := CaptureExtent_new e = Ok e ∧ capture_in_range e.

Lemma native_capture_extent_Ok e ne : capture_ok e → native_capture_extent e = Ok ne →
  ne = NCExtent (source e) (c_file_offset e) (c_length e) (nc_checksum ne) 0
  ∧ 0 <= nc_checksum ne <= 2 ∧ (nc_checksum ne = 0 ↔ checksum e = lit "none")
  ∧ 0 <= c_file_offset e ∧ 0 < source e ∧ 0 < c_length e.
Proof.
  intros [Hn [? ?]] E. unfold CaptureExtent_new in Hn. res_inv. guards. bools.
  unfold native_capture_extent in E. res_inv. simpl.
  match goal with H : assoc _ _ = Some _ |- _ => rename H into Ha end.
  rewrite !u64_id by lia. unfold checksum_ids in Ha. simpl in Ha.
  assert (0 <= x1 <= 2 ∧ (x1 = 0 ↔ checksum e = lit "none")) as [? ?].
  { repeat case_decide; simplify_eq; (split; [lia|]); (split; [done || congruence|congruence]). }
  split_and!; done || lia.
Qed.

Lemma capture_layout_native pad prev extents nes :
  Forall capture_ok extents → 0 <= prev →
  check_capture_layout pad prev extents = Ok tt → mapM native_capture_extent extents = Ok nes →
  validate_capture_extents pad prev nes = Ok tt.
Proof.
  intros Hok Hprev Hc HM%mapM_Ok. revert prev Hprev Hc Hok.
  induction HM as [|e ne extents nes He _ IH]; intros prev Hprev Hc Hok; [done|].
  apply Forall_cons in Hok as [He' Hok].
  destruct (native_capture_extent_Ok e ne He' He) as (Ene & Hck & _ & ? & ? & ?).
  destruct He' as [_ [? ?]]. cbn [check_capture_layout] in Hc. res_inv. bools.
  match goal with H : pad && _ = false |- _ => rename H into Hpad end.
  cbn [validate_capture_extents]. rewrite Ene. cbn [nc_source nc_file_offset nc_length nc_checksum nc_reserved].
  apply raise_if_bind; [close_guard; lia|]. unfold DIRECT_ALIGNMENT in *. destruct pad.
  - apply andb_false_iff in Hpad as [?|Hpad]; [done|]. apply negb_false_iff in Hpad. rewrite Hpad. bools.
    unfold padded_capture_length, native_throw, UINT64_MAX.
    rewrite (proj2 (Z.ltb_ge _ _)) by lia. cbn [raise_if mbind res_bind mret res_ret].
    apply raise_if_bind; [close_guard; lia|]. rewrite u64_id by lia.
    replace (c_file_offset e + (c_length e + 4095) / 4096 * 4096)
      with ((c_file_offset e + c_length e + 4096 - 1) / 4096 * 4096) by lia.
    apply IH; [lia|done|done].
  - cbn [mret res_ret mbind res_bind andb orb]. apply raise_if_bind; [close_guard; lia|].
    rewrite u64_id by lia. apply IH; [lia|done|done].
Qed.

Lemma capture_flags_ok a b c :
  Z.land (capture_flags a b c) (u32 (Z.lnot 7)) = 0
  ∧ negb (Z.land (capture_flags a b c) 4 =? 0) = c
  ∧ negb (Z.land (capture_flags a b c) 2 =? 0) = b ∧ (Z.land (capture_flags a b c) 1 =? 0) = negb a.
Proof. by destruct a, b, c. Qed.

Lemma capture_auto_direct {W} (lib : library W) extents pad :
  resolve_capture_backend lib (lit "auto") extents pad = Ok (lit "direct") →
  capture_direct_compatible pad extents = true.
Proof.
  unfold resolve_capture_backend. rewrite bool_decide_true by done. simpl negb. cbv iota.
  intros E. res_inv. destruct (capture_direct_compatible pad extents); [done|]. res_inv. simplify_eq.
  destruct x; res_inv; done.
Qed.

Lemma make_capture_jobs_aligned pad nes chunk : 0 < chunk → chunk mod 4096 = 0 →
  Forall (λ e, 0 <= nc_file_offset e ∧ 0 <= nc_source e ∧ 0 <= nc_length e
    ∧ nc_file_offset e + nc_length e < 2 ^ 64 ∧ nc_source e + nc_length e < 2 ^ 64
    ∧ nc_file_offset e mod 4096 = 0 ∧ (pad = false → nc_length e mod 4096 = 0)) nes →
  direct_capture_jobs_compatible (make_capture_jobs nes chunk) pad = true.
Proof.
  intros Hc Hcm Hok. unfold direct_capture_jobs_compatible. apply forallb_forall. intros j Hj%list_elem_of_In.
  assert (Forall (λ j, j_file_offset j mod 4096 = 0 ∧ (pad = false → j_length j mod 4096 = 0))
    (make_capture_jobs nes chunk)) as HF.
  { apply (Forall_concat_imap _ (λ i e, chunk_jobs (rounds (nc_length e) chunk) i (nc_file_offset e)
      (nc_source e) (nc_length e) chunk 0) nes 0%nat).
    rewrite Forall_forall in Hok. intros i e He. destruct (Hok e He) as (? & ? & ? & ? & ? & ? & Hp).
    eapply Forall_impl; [apply chunk_jobs_aligned; lia|]. intros j' [? Hl]. auto. }
  rewrite Forall_forall in HF. destruct (HF j Hj) as [-> Hp]. destruct pad; [done|]. by rewrite Hp.
Qed.

Lemma capture_requests_range extents nes : Forall capture_ok extents →
  mapM native_capture_extent extents = Ok nes →
  Forall2 (λ e ne, capture_ok e ∧ native_capture_extent e = Ok ne) extents nes.
Proof.
  intros Hok E%mapM_Ok. revert Hok. induction E; intros Hok; [constructor|].
  apply Forall_cons in Hok as [? ?]. constructor; auto.
Qed.

Lemma capture_aligned_all pad extents nes : capture_direct_compatible pad extents = true →
  Forall2 (λ e ne, capture_ok e ∧ native_capture_extent e = Ok ne) extents nes →
  Forall (λ e, 0 <= nc_file_offset e ∧ 0 <= nc_source e ∧ 0 <= nc_length e
    ∧ nc_file_offset e + nc_length e < 2 ^ 64 ∧ nc_source e + nc_length e < 2 ^ 64
    ∧ nc_file_offset e mod 4096 = 0 ∧ (pad = false → nc_length e mod 4096 = 0)) nes.
Proof.
  unfold capture_direct_compatible, DIRECT_ALIGNMENT. intros Hall HF. revert Hall.
  induction HF as [|e ne es nes [He En] _ IH]; intros Hall; [constructor|].
  simpl in Hall. guards. bools. constructor; [|by apply IH].
  destruct (native_capture_extent_Ok _ _ He En) as (-> & _ & _ & ? & ? & ?). destruct He as [_ [? ?]].
  simpl. split_and!; try lia. intros ->. simpl in *. by bools.
Qed.

Lemma capture_checksum_exists extents nes e :
  Forall2 (λ e ne, capture_ok e ∧ native_capture_extent e = Ok ne) extents nes →
  e ∈ extents → checksum e ≠ lit "none" → existsb (λ ne, negb (nc_checksum ne =? 0)) nes = true.
Proof.
  intros HF He Hk. apply list_elem_of_lookup in He as [i Hi].
  destruct (Forall2_lookup_l _ _ _ _ _ HF Hi) as (ne & Hne & Hok & En).
  destruct (native_capture_extent_Ok _ _ Hok En) as (_ & _ & Hz & _).
  apply (existsb_elem _ _ ne); [by eapply list_elem_of_lookup_2|].
  apply negb_true_iff, Z.eqb_neq. tauto.
Qed.

Lemma capture_backend_range {W} (lib : library W) requested extents pad b id :
  resolve_capture_backend lib requested extents pad = Ok b →
  (if bool_decide (requested = lit "auto") && bool_decide (b = lit "direct") then mret 0
   else of_option KeyError "backend" (assoc b CAPTURE_BACKENDS)) = Ok id →
  0 <= id <= 2.
Proof.
  intros _ E. destruct (_ && _); res_inv; [lia|]. simpl in E. repeat case_decide; simplify_eq; lia.
Qed.

(** The Python guards of [capture] imply the native ones: the request it builds from
    constructed, ordered extents within 64 bits passes [validate_capture_request]
    (Python and the library agree on the padded layout), provided a requested readback
    has a digest to compare; and when [auto] asks for direct I/O every job is
    compatible with it. *)
Theorem capture_request_admitted {W} (lib : library W) path extents requested chunk depth device fsha rb pad b nes o :
  Forall capture_ok extents → chunk < 2 ^ 64 → empty_path path = false →
  (rb = true → fsha = true ∨ ∃ e, e ∈ extents ∧ checksum e ≠ lit "none") →
  capture_request lib extents requested chunk depth device fsha rb pad = Ok (b, nes, o) →
  validate_capture_request path nes o = Ok tt
  ∧ (o_backend o = 0 → requested = lit "auto" ∧ b = lit "direct"
       ∧ direct_capture_jobs_compatible (make_capture_jobs nes (o_chunk_bytes o)) pad = true).
Proof.
  intros Hext Hch Hpath Hrb E. unfold capture_request in E. res_inv. guards. bools.
  simplify_eq. cbn [o_abi_version o_backend o_queue_depth o_flags o_chunk_bytes o_reserved].
  match goal with H : mapM _ _ = Ok _ |- _ => pose proof (capture_requests_range _ _ Hext H) as HF; rename H into HM end.
  match goal with H : resolve_capture_backend _ _ _ _ = Ok _, H' : (if _ && _ then _ else _) = Ok _ |- _ =>
    pose proof (capture_backend_range _ _ _ _ _ _ H H') as Hid; rename H into Hres, H' into Hsel end.
  match goal with H : check_capture_layout _ _ _ = Ok ?u |- _ => destruct u; rename H into Hlay end.
  rewrite !u64_id, !u32_id by (unfold DIRECT_ALIGNMENT in *; lia). split.
  - destruct (capture_flags_ok fsha rb pad) as (F1 & F2 & F3 & F4).
    unfold validate_capture_request, native_throw.
    cbn [o_abi_version o_backend o_queue_depth o_flags o_chunk_bytes o_reserved].
    rewrite Hpath, F1, F2, F3, F4. unfold DIRECT_ALIGNMENT, ABI_VERSION in *.
    do 2 (apply raise_if_bind; [try done|]).
    { apply bool_decide_eq_false. apply Forall2_length in HF. lia. }
    repeat (apply raise_if_bind; [close_guard; lia|]).
    rewrite (capture_layout_native _ _ _ _ Hext (Z.le_refl 0) Hlay HM). cbn [mbind res_bind].
    apply raise_if_Ok. destruct rb; [|done]. destruct (Hrb eq_refl) as [->|(e & He & Hk)]; [by rewrite andb_false_r|].
    by rewrite (capture_checksum_exists _ _ _ HF He Hk).
  - intros ->. destruct (bool_decide (requested = lit "auto") && bool_decide (b = lit "direct")) eqn:Ea.
    + guards. subst. split_and!; try done. apply make_capture_jobs_aligned; try done.
      apply capture_aligned_all with extents; [|done]. by eapply capture_auto_direct.
    + res_inv. simpl in Hsel. repeat case_decide; simplify_eq.
Qed.

(** ** The pinned library *)

Lemma native_transport_pinned {W} environ is_file (CDLL : pystr → res (library W)) lib pin :
  native_transport environ is_file CDLL = Ok lib →
  env_nonempty environ HYDRATION_LIBRARY_SHA256_ENV = Some pin →
  hexdigest (image lib) = pin ∧ ∃ path, env_nonempty environ HYDRATION_LIBRARY_ENV = Some path
    ∧ is_file path = true ∧ CDLL path = Ok lib.
Proof.
  unfold native_transport, NativeHydrator_new. intros E Hp. rewrite Hp in E. res_inv. guards. split; [done|]. eauto.
Qed.

(** With a library digest pinned in the environment, neither [hydrator_from_env] nor
    [capture_from_env] ever returns a library whose bytes hash to anything else, and
    the returned one is the file the environment names. *)
Theorem env_library_pinned {W} environ is_file (CDLL : pystr → res (library W)) lib backend pin :
  hydrator_from_env environ is_file CDLL = Ok (Some (lib, backend))
  ∨ capture_from_env environ is_file CDLL = Ok (Some (lib, backend)) →
  env_nonempty environ HYDRATION_LIBRARY_SHA256_ENV = Some pin →
  hexdigest (image lib) = pin ∧ ∃ path, env_nonempty environ HYDRATION_LIBRARY_ENV = Some path
    ∧ is_file path = true ∧ CDLL path = Ok lib.
Proof.
  unfold hydrator_from_env, capture_from_env. intros [E|E] Hp; destruct (bool_decide (default _ _ = _)); res_inv;
    simplify_eq; by apply native_transport_pinned.
Qed.

(** The length and case checks of an extent do not make its CRC-32 eight digits:
    [bytes.fromhex] skips blanks, so text with two blanks is admitted, and is then
    either read as a 24-bit checksum or raises inside [hydrate]. *)
Theorem crc32_admits_blanks :
  let trailing := HExtent 0 1 1 (Some (lit "abcdef  ")) None in
  let inner := HExtent 0 1 1 (Some (lit "ab cd ef")) None in
  HydrationExtent_new trailing = Ok trailing
  ∧ (ne_expected_crc32 <$> native_extent false trailing) = Ok 0x00abcdef
  ∧ HydrationExtent_new inner = Ok inner
  ∧ native_extent false inner = Raise (Exn ValueError "invalid literal for int() with base 16").
Proof. by vm_compute. Qed.

(** ** Witnesses *)

(** A library that accepts what its validation accepts and moves nothing. *)
Definition echo_result (o : NativeOptions) : NativeResult := NResult 1 (o_backend o) 0 0 0 0 0 0 0 0 0 0.
Definition echo_library : library unit := Library unit
  (λ path es o w, (if is_ok (validate_request path es o) then 0 else -1, echo_result o, w))
  (λ b, if b <=? 2 then 1 else 0) None (Some (λ _, 1)) (lit "ELF").
Definition capture_library : library unit := Library unit
  (coldsnap_hydrate_file echo_library) (coldsnap_hydration_backend_available echo_library)
  (Some (λ path es o w, (if is_ok (validate_capture_request path es o) then 0 else -1,
     λ _, NCDigest 0 (replicate 32 0%N), NCResult 1 2 0 0 0 0 0 0 0 0 0 0 0 0 0 (replicate 32 0%N), w)))
  (Some (λ _, 1)) (lit "ELF").

Definition sample_extents : list HydrationExtent :=
  [HExtent 0 65536 8192 (Some (lit "0a1b2c3d")) None; HExtent 8192 131072 4096 None None].
Definition sample_request :=
  ok_or ([], [], NOptions 0 0 0 0 0 0 0) (hydrate_request echo_library sample_extents (lit "auto") 4096 8 0 false true).

Lemma make_jobs_moves_witness :
  length (make_jobs sample_request.1.2 4096) = 3%nat
  ∧ concat (job_moves <$> make_jobs sample_request.1.2 4096)
    = moves 0 65536 8192 ++ moves 8192 131072 4096.
Proof.
  split; [by vm_compute|]. rewrite (make_jobs_moves sample_request.1.2 4096); [by vm_compute|done|].
  repeat (constructor; [vm_compute; intuition congruence|]). constructor.
Defined.

Lemma hydrate_request_admitted_witness :
  sample_request.1.1 = lit "direct" ∧ validate_request (lit "/snap/blob") sample_request.1.2 sample_request.2 = Ok tt.
Proof.
  split; [by vm_compute|].
  refine (proj2 (proj1 (hydrate_request_admitted echo_library (lit "/snap/blob") sample_extents (lit "auto") 4096 8 0 false true
    sample_request.1.1 sample_request.1.2 sample_request.2 _)) _); [by vm_compute|].
  split_and!; [done|done|]. repeat constructor.
Defined.

Lemma capture_digest_round_trip_witness :
  let cd := capture_digest (CExtent 0 1 1 (lit "crc32+sha256")) (NCDigest 7 (replicate 32 9%N)) in
  let he := HExtent 0 4096 1 (d_crc32 cd) (d_sha256 cd) in
  HydrationExtent_new he = Ok he.
Proof.
  refine (proj1 (capture_digest_round_trip (CExtent 0 1 1 (lit "crc32+sha256")) (NCDigest 7 (replicate 32 9%N))
    0 4096 1 _ _ _ _ _)); [by vm_compute| |lia..].
  split_and!; [done| |done]. repeat constructor.
Defined.

Definition sample_captures : list CaptureExtent :=
  [CExtent 0 65536 5000 (lit "crc32"); CExtent 8192 131072 100 (lit "none")].
Definition sample_capture_request :=
  ok_or ([], [], NOptions 0 0 0 0 0 0 0)
    (capture_request capture_library sample_captures (lit "auto") 4096 4 0 false true true).

Lemma sample_captures_ok : Forall capture_ok sample_captures.
Proof.
  repeat (constructor; [split; [by vm_compute|unfold capture_in_range; simpl; lia]|]). constructor.
Qed.

Lemma capture_request_admitted_witness :
  o_backend sample_capture_request.2 = 0
  ∧ validate_capture_request (lit "/snap/blob") sample_capture_request.1.2 sample_capture_request.2 = Ok tt.
Proof.
  split; [by vm_compute|].
  refine (proj1 (capture_request_admitted capture_library (lit "/snap/blob") sample_captures (lit "auto") 4096 4 0
    false true true sample_capture_request.1.1 sample_capture_request.1.2 sample_capture_request.2
    sample_captures_ok _ _ _ _)); [lia|by vm_compute| |by vm_compute].
  intros _. right. exists (CExtent 0 65536 5000 (lit "crc32")). split; [left|done].
Defined.

Definition elf_pin : pystr := Eval vm_compute in hexdigest (lit "ELF").
Definition sample_environ (k : pystr) : option pystr :=
  if bool_decide (k = HYDRATION_LIBRARY_ENV) then Some (lit "/opt/lib.so")
  else if bool_decide (k = HYDRATION_LIBRARY_SHA256_ENV) then Some elf_pin
  else Some (lit "auto").

Lemma elf_hash : hexdigest (lit "ELF") = elf_pin.
Proof. by vm_compute. Qed.

Lemma sample_from_env {W} (lib : library W) : image lib = lit "ELF" →
  hydrator_from_env sample_environ (λ _, true) (λ _, Ok lib) = Ok (Some (lib, lit "auto")).
Proof.
  intros Hi. unfold hydrator_from_env, native_transport, NativeHydrator_new.
  assert (env_nonempty sample_environ HYDRATION_LIBRARY_ENV = Some (lit "/opt/lib.so")) as -> by by vm_compute.
  assert (env_nonempty sample_environ HYDRATION_LIBRARY_SHA256_ENV = Some elf_pin) as -> by by vm_compute.
  assert (default (lit "python") (sample_environ HYDRATION_BACKEND_ENV) = lit "auto") as -> by by vm_compute.
  assert (check_hex 64 elf_pin HydrationError = Ok tt) as Eh by by vm_compute.
  cbn [of_option mbind res_bind raise_if negb]. rewrite Eh, Hi, elf_hash. by vm_compute.
Qed.

Lemma env_library_pinned_witness : hexdigest (image capture_library) = elf_pin.
Proof.
  refine (proj1 (env_library_pinned sample_environ (λ _, true) (λ _, Ok capture_library) capture_library
    (lit "auto") elf_pin (or_introl (sample_from_env capture_library eq_refl)) _)). by vm_compute.
Defined.
