(* ===== verification/Coord.v ===== *)
(** * The coordinator: client, wire format and server

    The Python client ([runtime/shared/coldsnap_coord.py]) and the Go service it talks
    to ([internal/coord/protocol.go], [internal/coord/server.go]). The client sees the
    network as a function from the request bytes to the pieces [recv] returns. *)

From Stdlib Require Import SpecFloat.
From S2P Require Import Prelude PyFloat Hash.

Definition MAGIC : pybytes := lit "CSKV".
Definition VERSION : N := 1.

Definition OP_SET : N := 1.
Definition OP_GET : N := 2.
Definition OP_DELETE : N := 3.
Definition OP_HEALTH : N := 4.
Definition OP_ADD : N := 5.
Definition OP_APPEND : N := 6.

Definition STATUS_OK : N := 0.
Definition STATUS_NOT_FOUND : N := 1.
Definition STATUS_UNAUTHORIZED : N := 2.
Definition STATUS_INVALID : N := 3.
Definition STATUS_TIMEOUT : N := 4.
Definition STATUS_TOO_LARGE : N := 5.
Definition STATUS_INTERNAL : N := 6.

(** Lengths are compared in [Z]: a 16 MiB bound is no literal in [nat]. *)
Definition len (b : pybytes) : Z := Z.of_nat (length b).
Definition max_value : Z := 16 * 1024 ^ 2.
Definition max_key : Z := 64 * 1024.

(** ** Endpoints *)

Record Endpoint := MkEndpoint { address : pystr; scope : pystr; token : pystr }.

Definition Endpoint_parse (value : pystr) : res Endpoint :=
  match py_split value with
  | [f0; f1; f2; f3] =>
      _ ← raise_if (negb (bool_decide (f0 = lit "coldsnap-coord-v1"))) ValueError "invalid coordinator endpoint";
      let endpoint := MkEndpoint f1 f2 f3 in
      _ ← raise_if (existsb (λ f, bool_decide (f = []) || existsb is_space f) [f1; f2; f3])
          ValueError "coordinator endpoint fields must not contain whitespace";
      mret endpoint
  | _ => Raise (Exn ValueError "invalid coordinator endpoint")
  end.

(** [Endpoint.read]: the size and the text of the file, each read of which can raise. *)
Definition Endpoint_read (st_size : res Z) (read_text : res pystr) : res Endpoint :=
  size ← st_size;
  _ ← raise_if (16 * 1024 <? size) ValueError "coordinator endpoint is too large";
  text ← read_text;
  Endpoint_parse text.

Definition split_address (value : pystr) : res (pystr * Z) :=
  let parts := if starts_with (lit "[") value then rpartition (lit "]:") (drop 1 value)
               else rpartition (lit ":") value in
  match parts with
  | None => Raise (Exn ValueError "invalid coordinator address")
  | Some (host, port_text) =>
      _ ← raise_if (bool_decide (host = []) || bool_decide (port_text = []) || negb (forallb is_digit port_text))
          ValueError "invalid coordinator address";
      port ← of_option ValueError "invalid literal for int()" (py_int port_text);
      _ ← raise_if (negb ((0 <? port) && (port <? 65536))) ValueError "invalid coordinator port";
      mret (host, port)
  end.

(** ** Requests *)

Definition encode (s : pystr) : res pybytes := of_option UnicodeError "surrogates not allowed" (utf8_encode s).

(** [round(timeout * 1000)] *)
Definition timeout_ms (timeout : spec_float) : res Z :=
  of_option ValueError "cannot convert float NaN to integer"
    (py_round (SFmul prec emax timeout (float_of_decimal false 1000 0))).

(** One unsigned field of [struct.pack]. *)
Definition pack_uint (n : nat) (z : Z) : res pybytes :=
  _ ← raise_if ((z <? 0) || (256 ^ Z.of_nat n <=? z)) StructError "argument out of range";
  mret (be_bytes n (Z.to_N z)).

(** [struct.Struct("!4sBBHIIIII").pack(...)] *)
Definition pack_request (operation : N) (ms token_len key_len value_len total : Z) : res pybytes :=
  op ← pack_uint 1 (Z.of_N operation);
  ms ← pack_uint 4 ms;
  tl ← pack_uint 4 token_len;
  kl ← pack_uint 4 key_len;
  vl ← pack_uint 4 value_len;
  tot ← pack_uint 4 total;
  mret (MAGIC ++ [VERSION] ++ op ++ [0; 0]%N ++ ms ++ tl ++ kl ++ vl ++ tot).

(** [f"{endpoint.scope}/{key}".encode() if key else b""] *)
Definition scoped_key (e : Endpoint) (key : pystr) : res pybytes :=
  match key with [] => mret [] | _ => encode (scope e ++ lit "/" ++ key) end.

Definition encode_request (e : Endpoint) (operation : N) (key : pystr) (value : pybytes) (timeout : spec_float)
    : res pybytes :=
  _ ← raise_if (float_ltb timeout (S754_zero false) || float_ltb (float_of_decimal false 4294967295 (-3)) timeout)
      ValueError "coordinator timeout is out of range";
  tok ← encode (token e);
  sk ← scoped_key e key;
  let total := len tok + len sk + len value in
  _ ← raise_if ((64 * 1024 <? len sk) || (max_value <? len value) || (0xFFFFFFFF <? total))
      ValueError "coordinator request exceeds configured limit";
  ms ← timeout_ms timeout;
  header ← pack_request operation ms (len tok) (len sk) (len value) total;
  mret (header ++ tok ++ sk ++ value).

(** ** Receiving

    [chunks] is what successive calls of [recv] can return: each call hands over at most
    [remaining] bytes of the next piece; an empty piece, or none, is a closed socket. *)
Fixpoint recv_exact (chunks : list pybytes) (remaining : nat) : res (pybytes * list pybytes) :=
  match remaining with
  | O => mret ([], chunks)
  | _ =>
      match chunks with
      | [] | [] :: _ => Raise (Exn ConnectionError "coordinator closed an incomplete response")
      | chunk :: chunks' =>
          let got := take remaining chunk in
          match drop remaining chunk with
          | [] =>
              '(rest, later) ← recv_exact chunks' (remaining - length got);
              mret (got ++ rest, later)
          | surplus => mret (got, surplus :: chunks')
          end
      end
  end.

(** The body of [_request] after the status is known. *)
Definition status_result (status : N) (body : pybytes) : res pybytes :=
  if (status =? STATUS_OK)%N then mret body
  else if (status =? STATUS_NOT_FOUND)%N then Raise (Exn CoordinatorNotFound "key")
  else if (status =? STATUS_TIMEOUT)%N then Raise (Exn TimeoutError "timed out waiting for coordinator key")
  else if (status =? STATUS_UNAUTHORIZED)%N then Raise (Exn PermissionError "coordinator authentication failed")
  else if (status =? STATUS_INVALID)%N then Raise (Exn CoordinatorError "coordinator invalid request")
  else if (status =? STATUS_TOO_LARGE)%N then Raise (Exn CoordinatorError "coordinator request too large")
  else Raise (Exn CoordinatorError "coordinator request failed").

Definition byte_at (b : pybytes) (i : nat) : N := default 0%N (b !! i).

(** Reading the response off the socket. *)
Definition read_response (chunks : list pybytes) : res pybytes :=
  '(header, chunks1) ← recv_exact chunks 12;
  let value_length := be_value (take 4 (drop 8 header)) in
  _ ← raise_if (negb (bool_decide (take 4 header = MAGIC)) || negb (byte_at header 4 =? VERSION)%N)
      CoordinatorError "unsupported coordinator response";
  _ ← raise_if (max_value <? Z.of_N value_length) CoordinatorError "coordinator response exceeds configured limit";
  '(body, _) ← recv_exact chunks1 (N.to_nat value_length);
  status_result (byte_at header 5) body.

Section client.
Context {W : Type} (e : Endpoint) (exchange : pystr → Z → pybytes → W → res (list pybytes) * W).

Definition request (operation : N) (key : pystr) (value : pybytes) (timeout : spec_float) (w : W)
    : res pybytes * W :=
  match (req ← encode_request e operation key value timeout;
         hp ← split_address (address e); mret (req, hp)) with
  | Raise x => (Raise x, w)
  | Ok (req, (host, port)) =>
      let '(chunks, w') := exchange host port req w in
      (cs ← chunks; read_response cs, w')
  end.

Definition no_wait : spec_float := S754_zero false.

Definition health (w : W) : res unit * W :=
  let '(r, w') := request OP_HEALTH [] [] no_wait w in (_ ← r; mret tt, w').
(** [set] of a [str] encodes it first. *)
Definition set_value (key : pystr) (value : pybytes + pystr) (w : W) : res unit * W :=
  match (match value with inl b => mret b | inr s => encode s end) with
  | Raise x => (Raise x, w)
  | Ok encoded => let '(r, w') := request OP_SET key encoded no_wait w in (_ ← r; mret tt, w')
  end.
Definition get (key : pystr) (wait : spec_float) (w : W) : res pybytes * W := request OP_GET key [] wait w.
Definition wait (key : pystr) (timeout : spec_float) (w : W) : res pystr * W :=
  let '(r, w') := get key timeout w in
  (b ← r; of_option UnicodeError "invalid UTF-8" (utf8_decode b), w').
Definition delete_key (key : pystr) (w : W) : res unit * W :=
  let '(r, w') := request OP_DELETE key [] no_wait w in (_ ← r; mret tt, w').
(** [str(amount)] is ASCII, hence its own encoding. *)
Definition add (key : pystr) (amount : Z) (w : W) : res Z * W :=
  let '(r, w') := request OP_ADD key (str_of_Z amount) no_wait w in
  (b ← r; s ← of_option UnicodeError "invalid UTF-8" (utf8_decode b);
   of_option ValueError "invalid literal for int()" (py_int s), w').
Definition append (key : pystr) (value : pybytes) (w : W) : res unit * W :=
  let '(r, w') := request OP_APPEND key value no_wait w in (_ ← r; mret tt, w').
End client.

(** ** The Go service *)

Record Request := MkRequest { r_operation : N; r_timeout_ms : Z; r_token : pybytes; r_key : pybytes; r_value : pybytes }.
Record Response := MkResponse { s_status : N; s_value : pybytes }.

(** [binary.BigEndian.Uint32(header[i:i+4])] *)
Definition uint32_at (b : pybytes) (i : nat) : Z := Z.of_N (be_value (take 4 (drop i b))).

(** [ReadRequest]: a rejected request is answered with a status and the error's text. *)
Definition ReadRequest (maxKey maxValue : Z) (input : pybytes) : Response + Request :=
  let reject st m := inl (MkResponse st (lit m)) in
  if (length input <? 28)%nat then
    reject STATUS_INVALID (if bool_decide (input = []) then "EOF" else "unexpected EOF")
  else
  let header := take 28 input in
  let rest := drop 28 input in
  if negb (bool_decide (take 4 header = MAGIC)) || negb (byte_at header 4 =? VERSION)%N then
    reject STATUS_INVALID "unsupported coordinator protocol"
  else
  let tokenLength := uint32_at header 12 in
  let keyLength := uint32_at header 16 in
  let valueLength := uint32_at header 20 in
  let totalLength := uint32_at header 24 in
  if (tokenLength <? 1) || (keyLength <? 0) || (valueLength <? 0)
     || negb (totalLength =? tokenLength + keyLength + valueLength) then
    reject STATUS_INVALID "invalid coordinator request lengths"
  else if (maxKey <? keyLength) || (maxValue <? valueLength) || (maxKey + maxValue + 4096 <? totalLength) then
    reject STATUS_TOO_LARGE "coordinator request exceeds configured limits"
  else if (length rest <? Z.to_nat totalLength)%nat then
    reject STATUS_INVALID (if bool_decide (rest = []) then "EOF" else "unexpected EOF")
  else
  let payload := take (Z.to_nat totalLength) rest in
  let t := Z.to_nat tokenLength in
  let k := Z.to_nat keyLength in
  inr (MkRequest (byte_at header 5) (uint32_at header 8) (take t payload) (take k (drop t payload))
         (drop (t + k) payload)).

(** [WriteResponse] *)
Definition WriteResponse (r : Response) : pybytes :=
  MAGIC ++ [VERSION; s_status r; 0; 0]%N ++ be_bytes 4 (N.of_nat (length (s_value r))) ++ s_value r.

Record Server := MkServer {
  Token : pybytes; MaxKey : Z; MaxValue : Z; MaxWait_ms : Z; values : gmap (list N) (list N);
}.

Definition NewServer (tok : pybytes) : Server := MkServer tok max_key max_value (60 * 60 * 1000) ∅.

Definition with_values (s : Server) (m : gmap (list N) (list N)) : Server :=
  MkServer (Token s) (MaxKey s) (MaxValue s) (MaxWait_ms s) m.

Definition MaxInt64 : Z := 2 ^ 63 - 1.
Definition MinInt64 : Z := - 2 ^ 63.

(** [strconv.ParseInt(s, 10, 64)]: a sign, then decimal digits only, within 64 bits. *)
Definition ParseInt (s : pybytes) : option Z :=
  let '(neg, ds) := match s with
                    | c :: r => if (c =? 45)%N then (true, r) else if (c =? 43)%N then (false, r) else (false, s)
                    | [] => (false, s)
                    end in
  if bool_decide (ds = []) || negb (forallb is_digit ds) then None else
  let n := (if neg : bool then - Z.of_N (digits_value ds) else Z.of_N (digits_value ds)) in
  if (MinInt64 <=? n) && (n <=? MaxInt64) then Some n else None.

(** A handler answers at once, or waits for the key to appear. *)
Inductive outcome :=
| Reply (r : Response) (s : Server)
| Waiting (key : pybytes).

Definition key_required : Response := MkResponse STATUS_INVALID (lit "key is required").
Definition ok (v : pybytes) : Response := MkResponse STATUS_OK v.

Definition execute (s : Server) (r : Request) : outcome :=
  let op := r_operation r in
  let key := r_key r in
  let stored := values s !! key in
  if (op =? OP_HEALTH)%N then Reply (ok []) s
  else if negb (bool_decide (op ∈ [OP_SET; OP_GET; OP_DELETE; OP_ADD; OP_APPEND])) then
    Reply (MkResponse STATUS_INVALID (lit "unsupported operation")) s
  else if bool_decide (key = []) then Reply key_required s
  else if (op =? OP_SET)%N then Reply (ok []) (with_values s (<[key := r_value r]> (values s)))
  else if (op =? OP_DELETE)%N then Reply (ok []) (with_values s (delete key (values s)))
  else if (op =? OP_ADD)%N then
    match ParseInt (r_value r) with
    | None => Reply (MkResponse STATUS_INVALID (lit "add value must be an integer")) s
    | Some delta =>
        match (match stored with None => Some 0 | Some v => ParseInt v end) with
        | None => Reply (MkResponse STATUS_INVALID (lit "stored value is not an integer")) s
        | Some current =>
            if (0 <? delta) && (MaxInt64 - delta <? current) || (delta <? 0) && (current <? MinInt64 - delta) then
              Reply (MkResponse STATUS_INVALID (lit "add result overflows int64")) s
            else
              let encoded := str_of_Z (current + delta) in
              Reply (ok encoded) (with_values s (<[key := encoded]> (values s)))
        end
    end
  else if (op =? OP_APPEND)%N then
    let old := default [] stored in
    if MaxValue s <? len old + len (r_value r) then
      Reply (MkResponse STATUS_TOO_LARGE (lit "appended value exceeds coordinator limit")) s
    else Reply (ok []) (with_values s (<[key := old ++ r_value r]> (values s)))
  else
    match stored with
    | Some v => Reply (ok v) s
    | None => if r_timeout_ms r <=? 0 then Reply (MkResponse STATUS_NOT_FOUND []) s else Waiting key
    end.

(** [handle]: read, authenticate, bound the wait, execute. *)
Definition handle (s : Server) (input : pybytes) : outcome :=
  match ReadRequest (MaxKey s) (MaxValue s) input with
  | inl response => Reply response s
  | inr r =>
      if negb (bool_decide (r_token r = Token s)) then
        Reply (MkResponse STATUS_UNAUTHORIZED (lit "invalid token")) s
      else if (0 <? MaxWait_ms s) && (MaxWait_ms s <? r_timeout_ms r) then
        Reply (MkResponse STATUS_INVALID (lit "wait exceeds coordinator limit")) s
      else execute s r
  end.
