(* ===== verification/CoordSpec.v ===== *)
(** * Theorems about the coordinator

    The client over the wire to the service implements a key/value store: encoding then
    [ReadRequest] is the identity, [WriteResponse] then [read_response] is the
    status's result however the socket cuts the stream, and the service keeps its
    values within the client's response limit. *)

From Stdlib Require Import SpecFloat.
From S2P Require Import Prelude PyFloat PyJson PyJsonFacts Hash Coord.

(** ** Receiving *)

Definition pieces_of (chunks : list pybytes) (b : pybytes) : Prop :=
  concat chunks = b ∧ Forall (λ c : pybytes, c ≠ []) chunks.

(** [_recv_exact] does not depend on how the stream is cut into pieces: it returns
    exactly the first [n] bytes and leaves the others, or raises [ConnectionError] when
    the peer closed before sending that many. *)
Lemma recv_exact_spec chunks b n : pieces_of chunks b →
  match recv_exact chunks n with
  | Ok (got, rest) => (n <= length b)%nat ∧ got = take n b ∧ pieces_of rest (drop n b)
  | Raise e => exc e = ConnectionError ∧ (length b < n)%nat
  end.
Proof.
  intros [<- Hne]. revert n. induction Hne as [|c chunks Hc Hne IH]; intros n; destruct n as [|n].
  - simpl. split_and!; [lia|done|split; [done|constructor]].
  - simpl. split; [done|lia].
  - simpl. split_and!; [lia|done|split; [done|by constructor]].
  - destruct c as [|x c]; [done|]. cbn [recv_exact].
    destruct (drop (S n) (x :: c)) as [|y d] eqn:Ed.
    + assert (length (x :: c) <= S n)%nat as Hl by (apply (f_equal length) in Ed; rewrite length_drop in Ed; simpl in *; lia).
      rewrite (take_ge (x :: c)) by done. specialize (IH (S n - length (x :: c))%nat).
      destruct (recv_exact chunks (S n - length (x :: c))) as [[got rest]|e];
        cbn [mbind res_bind mret res_ret concat]; rewrite length_app.
      * destruct IH as (? & -> & ?). split_and!; [lia| |].
        -- by rewrite take_app_ge by done.
        -- by rewrite drop_app_ge by done.
      * destruct IH as [? ?]. split; [done|lia].
    + assert (S n < length (x :: c))%nat as Hl by (apply (f_equal length) in Ed; rewrite length_drop in Ed; simpl in *; lia).
      cbn [mbind res_bind mret res_ret concat]. rewrite length_app. split_and!; [lia| |].
      * by rewrite take_app_le by lia.
      * rewrite drop_app_le, Ed by lia. split; [done|by constructor].
Qed.

Lemma recv_exact_app chunks a b : pieces_of chunks (a ++ b) →
  ∃ rest, recv_exact chunks (length a) = Ok (a, rest) ∧ pieces_of rest b.
Proof.
  intros Hp. pose proof (recv_exact_spec chunks (a ++ b) (length a) Hp) as H.
  destruct (recv_exact _ _) as [[got rest]|e].
  - destruct H as (_ & -> & H). rewrite take_app_length, drop_app_length in *. eauto.
  - destruct H as [_ H]. rewrite length_app in H. lia.
Qed.

(** ** Responses *)

Definition response_header (r : Response) : pybytes :=
  MAGIC ++ [VERSION; s_status r; 0; 0]%N ++ be_bytes 4 (N.of_nat (length (s_value r))).

Lemma WriteResponse_header r : WriteResponse r = response_header r ++ s_value r.
Proof. unfold WriteResponse, response_header. by rewrite <- !app_assoc. Qed.

Lemma len_small (v : pybytes) : len v <= max_value → (N.of_nat (length v) < 256 ^ N.of_nat 4)%N.
Proof. unfold len, max_value. change (256 ^ N.of_nat 4)%N with 4294967296%N. lia. Qed.

Lemma response_fields r : len (s_value r) <= max_value →
  take 4 (response_header r) = MAGIC ∧ byte_at (response_header r) 4 = VERSION
  ∧ byte_at (response_header r) 5 = s_status r
  ∧ be_value (take 4 (drop 8 (response_header r))) = N.of_nat (length (s_value r))
  ∧ length (response_header r) = 12%nat.
Proof.
  intros H%len_small. split_and!; try done. by etrans; [|exact (be_value_small 4 _ H)].
Qed.

(** Whatever the sizes in which the socket delivers it, a response written by the
    service is read back as its status's result: the value on success, and the
    exception of each failure status. Bytes after it are not consumed. *)
Lemma response_round_trip chunks r extra : len (s_value r) <= max_value →
  pieces_of chunks (WriteResponse r ++ extra) →
  read_response chunks = status_result (s_status r) (s_value r).
Proof.
  intros Hl Hp. rewrite WriteResponse_header, <- app_assoc in Hp.
  destruct (response_fields r Hl) as (E1 & E2 & E3 & E4 & E5).
  destruct (recv_exact_app _ _ _ Hp) as (rest & Eh & Hp'). rewrite E5 in Eh.
  destruct (recv_exact_app _ _ _ Hp') as (rest' & Ev & _).
  unfold read_response. rewrite Eh. cbn [mbind res_bind]. rewrite E1, E2, E3, E4.
  rewrite bool_decide_true by done. rewrite N.eqb_refl. cbn [negb orb raise_if mbind res_bind].
  apply raise_if_bind; [apply Z.ltb_ge; unfold len in Hl; lia|]. by rewrite Nat2N.id, Ev.
Qed.

(** A response cut short anywhere, by a peer that closes, is never taken for a
    complete one: reading it raises [ConnectionError]. *)
Theorem response_truncated chunks r n : len (s_value r) <= max_value →
  (n < length (WriteResponse r))%nat → pieces_of chunks (take n (WriteResponse r)) →
  ∃ m, read_response chunks = Raise (Exn ConnectionError m).
Proof.
  intros Hl Hn Hp. rewrite WriteResponse_header in *. destruct (response_fields r Hl) as (E1 & E2 & E3 & E4 & E5).
  rewrite length_app in Hn. unfold read_response.
  pose proof (recv_exact_spec _ _ 12 Hp) as H. destruct (recv_exact chunks 12) as [[h rest]|[c m]].
  - destruct H as (H12 & -> & Hp'). rewrite length_take, length_app in H12.
    rewrite take_take, Nat.min_l, <- E5, take_app_length by lia.
    cbn [mbind res_bind]. rewrite E1, E2, E4, bool_decide_true, N.eqb_refl by done. rewrite <- E5 in Hp'.
    cbn [negb orb raise_if mbind res_bind]. rewrite (proj2 (Z.ltb_ge _ _)) by (unfold len in Hl; lia).
    cbn [raise_if mbind res_bind]. rewrite Nat2N.id.
    pose proof (recv_exact_spec _ _ (length (s_value r)) Hp') as H'.
    destruct (recv_exact rest _) as [[b rest']|[c m]].
    + destruct H' as [H' _]. rewrite length_drop, length_take, length_app in H'. lia.
    + destruct H' as [Hc _]. simpl in Hc. subst c. simpl. eauto.
  - destruct H as [Hc _]. simpl in Hc. subst c. simpl. eauto.
Qed.

(** ** Requests *)

Lemma pack_uint_Ok n z b : pack_uint n z = Ok b →
  b = be_bytes n (Z.to_N z) ∧ 0 <= z < 256 ^ Z.of_nat n.
Proof.
  unfold pack_uint. intros E. res_inv. guards.
  match goal with H : (_ <? _) = false, H' : (_ <=? _) = false |- _ => apply Z.ltb_ge in H; apply Z.leb_gt in H' end.
  done.
Qed.

Lemma uint_value n z : 0 <= z < 256 ^ Z.of_nat n → Z.of_N (be_value (be_bytes n (Z.to_N z))) = z.
Proof.
  intros [? ?]. rewrite be_value_small; [lia|]. apply N2Z.inj_lt.
  by rewrite Z2N.id, N2Z.inj_pow, nat_N_Z by done.
Qed.

Lemma pack_uint_ok n z : 0 <= z < 256 ^ Z.of_nat n → pack_uint n z = Ok (be_bytes n (Z.to_N z)).
Proof.
  intros. unfold pack_uint. apply raise_if_bind; [|done]. apply orb_false_iff.
  rewrite Z.ltb_ge, Z.leb_gt. lia.
Qed.

Definition request_header (op : pybytes) (ms tl kl vl tot : pybytes) : pybytes :=
  MAGIC ++ [VERSION] ++ op ++ [0; 0]%N ++ ms ++ tl ++ kl ++ vl ++ tot.

(** The fields of a header built from encoded integers. *)
Lemma header_fields op ms tl kl vl tot :
  let h := request_header (be_bytes 1 op) (be_bytes 4 ms) (be_bytes 4 tl) (be_bytes 4 kl) (be_bytes 4 vl) (be_bytes 4 tot) in
  length h = 28%nat ∧ take 4 h = MAGIC ∧ byte_at h 4 = VERSION ∧ byte_at h 5 = (op mod 256)%N
  ∧ uint32_at h 8 = Z.of_N (be_value (be_bytes 4 ms)) ∧ uint32_at h 12 = Z.of_N (be_value (be_bytes 4 tl))
  ∧ uint32_at h 16 = Z.of_N (be_value (be_bytes 4 kl)) ∧ uint32_at h 20 = Z.of_N (be_value (be_bytes 4 vl))
  ∧ uint32_at h 24 = Z.of_N (be_value (be_bytes 4 tot)).
Proof. by split_and!. Qed.

Lemma encode_request_Ok e op key value t req : encode_request e op key value t = Ok req →
  ∃ tok sk ms, utf8_encode (token e) = Some tok ∧ scoped_key e key = Ok sk ∧ timeout_ms t = Ok ms
    ∧ len sk <= max_key ∧ len value <= max_value ∧ 0 <= ms < 2 ^ 32
    ∧ len tok + len sk + len value < 2 ^ 32
    ∧ req = request_header (be_bytes 1 op) (be_bytes 4 (Z.to_N ms)) (be_bytes 4 (Z.to_N (len tok)))
        (be_bytes 4 (Z.to_N (len sk))) (be_bytes 4 (Z.to_N (len value)))
        (be_bytes 4 (Z.to_N (len tok + len sk + len value))) ++ tok ++ sk ++ value.
Proof.
  unfold encode_request, encode, pack_request. intros E. res_inv. guards.
  repeat match goal with H : (_ <? _) = false |- _ => apply Z.ltb_ge in H end.
  repeat match goal with H : pack_uint _ _ = Ok _ |- _ => apply pack_uint_Ok in H as (? & ?) end. subst.
  rewrite N2Z.id in *. change (256 ^ Z.of_nat 4) with (2 ^ 32) in *.
  unfold max_key. eexists _, _, _. split_and!; try done; lia.
Qed.

(** Encoding a request and reading it back on the service is the identity: the same
    operation, wait, token, scoped key and value, for every request the client admits
    with a token of 1 to 4096 bytes. *)
Lemma request_round_trip e op key value t req tok :
  encode_request e op key value t = Ok req → (op < 256)%N → utf8_encode (token e) = Some tok →
  1 <= len tok <= 4096 →
  ∃ sk ms, scoped_key e key = Ok sk ∧ timeout_ms t = Ok ms
    ∧ ReadRequest max_key max_value req = inr (MkRequest op ms tok sk value).
Proof.
  intros (tok' & sk & ms & Et & Es & Em & Hk & Hv & Hms & Htot & ->)%encode_request_Ok Hop Htok Hl.
  assert (tok' = tok) as -> by congruence. exists sk, ms. split_and!; [done|done|].
  pose proof (header_fields op (Z.to_N ms) (Z.to_N (len tok)) (Z.to_N (len sk)) (Z.to_N (len value))
    (Z.to_N (len tok + len sk + len value))) as (E0 & E1 & E2 & E3 & E4 & E5 & E6 & E7 & E8).
  set (h := request_header _ _ _ _ _ _) in *.
  assert (0 <= len tok ∧ 0 <= len sk ∧ 0 <= len value) as (? & ? & ?) by (unfold len; lia).
  assert (∀ z, 0 <= z < 2 ^ 32 → Z.of_N (be_value (be_bytes 4 (Z.to_N z))) = z) as Hu by (intros; by apply uint_value).
  rewrite Hu in E4 by lia. rewrite Hu in E5 by lia. rewrite Hu in E6 by lia. rewrite Hu in E7 by lia.
  rewrite Hu in E8 by lia. rewrite N.mod_small in E3 by done.
  unfold ReadRequest. rewrite length_app, E0.
  rewrite (proj2 (Nat.ltb_ge _ _)) by lia. rewrite <- E0, take_app_length, drop_app_length. cbv zeta.
  rewrite E1, E2, E3, E4, E5, E6, E7, E8, bool_decide_true, N.eqb_refl by done. cbn [negb orb].
  unfold max_key, max_value in *.
  rewrite (proj2 (Z.ltb_ge (len tok) 1)), (proj2 (Z.ltb_ge (len sk) 0)), (proj2 (Z.ltb_ge (len value) 0)), Z.eqb_refl by lia.
  cbn [negb orb]. rewrite !(proj2 (Z.ltb_ge _ _)) by lia. cbn [orb].
  assert (length (tok ++ sk ++ value) = Z.to_nat (len tok + len sk + len value)) as Hlen
    by (unfold len; rewrite !length_app; lia).
  rewrite <- Hlen, (proj2 (Nat.ltb_ge _ _)), firstn_all by lia.
  replace (Z.to_nat (len tok)) with (length tok) by (unfold len; lia).
  replace (Z.to_nat (len sk)) with (length sk) by (unfold len; lia).
  rewrite take_app_length, <- drop_drop, !drop_app_length, take_app_length. done.
Qed.

(** ** The service's values *)

(** Every stored value fits a response the client accepts. *)
Definition values_ok (s : Server) : Prop := MaxValue s = max_value ∧ map_Forall (λ _ v, len v <= max_value) (values s).

Lemma digits_length_fuel f n acc : (length (digits_fuel f n acc) <= f + length acc)%nat.
Proof.
  revert n acc. induction f as [|f IH]; intros n acc; simpl; [lia|].
  destruct (n <? 10)%N; simpl; [lia|]. specialize (IH (n / 10)%N ((48 + n mod 10)%N :: acc)). simpl in IH. lia.
Qed.

Lemma str_of_Z_length z : MinInt64 <= z <= MaxInt64 → len (str_of_Z z) <= 70.
Proof.
  intros [? ?]. assert (∀ n, (n <= 2 ^ 63)%N → (length (digits n) <= 64)%nat) as Hd.
  { intros n Hn. unfold digits. pose proof (digits_length_fuel (S (N.to_nat (N.log2 n))) n []) as H'.
    assert (N.log2 n <= 63)%N by (rewrite <- (N.log2_pow2 63) by done; by apply N.log2_le_mono). simpl in *. lia. }
  unfold len, str_of_Z, MinInt64, MaxInt64 in *. destruct (Z.ltb_spec z 0); simpl.
  - specialize (Hd (Z.abs_N z)). lia.
  - specialize (Hd (Z.to_N z)). lia.
Qed.

Lemma ParseInt_range s n : ParseInt s = Some n → MinInt64 <= n <= MaxInt64.
Proof.
  unfold ParseInt. destruct (match s with [] => _ | _ => _ end) as [neg ds].
  destruct (_ || _); [done|].
  match goal with |- (if ?c then _ else _) = _ → _ => destruct c eqn:Ec end; [|done].
  intros [= <-]. apply andb_true_iff in Ec as [?%Z.leb_le ?%Z.leb_le]. done.
Qed.

Lemma add_in_range delta current : MinInt64 <= delta <= MaxInt64 → MinInt64 <= current <= MaxInt64 →
  (0 <? delta) && (MaxInt64 - delta <? current) || (delta <? 0) && (current <? MinInt64 - delta) = false ↔
  MinInt64 <= current + delta <= MaxInt64.
Proof.
  unfold MinInt64, MaxInt64. intros. rewrite orb_false_iff, !andb_false_iff, !Z.ltb_ge. lia.
Qed.

Lemma ReadRequest_value mk mv input r : ReadRequest mk mv input = inr r → len (r_value r) <= mv.
Proof.
  unfold ReadRequest. intros E. repeat (case_match; [done|]). simplify_eq. simpl.
  repeat match goal with H : _ || _ = false |- _ => apply orb_false_iff in H as [? ?] end.
  repeat match goal with H : (_ <? _) = false |- _ => apply Z.ltb_ge in H end.
  repeat match goal with H : negb _ = false |- _ => apply negb_false_iff in H end.
  repeat match goal with H : (_ =? _) = true |- _ => apply Z.eqb_eq in H end.
  unfold len. rewrite length_drop, length_take. lia.
Qed.

Definition same_config (s s' : Server) : Prop :=
  Token s' = Token s ∧ MaxKey s' = MaxKey s ∧ MaxWait_ms s' = MaxWait_ms s.

Lemma with_values_ok s k v : values_ok s → len v <= max_value →
  values_ok (with_values s (<[k := v]> (values s))) ∧ same_config s (with_values s (<[k := v]> (values s))).
Proof. intros [? ?] ?. split; [split; [done|]|done]. by apply map_Forall_insert_2. Qed.

Lemma execute_values_ok s q r s' : values_ok s → len (r_value q) <= max_value → execute s q = Reply r s' →
  values_ok s' ∧ same_config s s' ∧ len (s_value r) <= max_value.
Proof.
  intros Hok Hq. pose proof Hok as [Hm Hv].
  assert (∀ st v, len v <= max_value → Reply (MkResponse st v) s = Reply r s' →
    values_ok s' ∧ same_config s s' ∧ len (s_value r) <= max_value) as Hsame by (intros st v ? [= <- <-]; done).
  assert (∀ k v w, len v <= max_value → len w <= max_value →
    Reply (ok w) (with_values s (<[k := v]> (values s))) = Reply r s' →
    values_ok s' ∧ same_config s s' ∧ len (s_value r) <= max_value) as Hins.
  { intros k v w Hl Hl' [= <- <-]. destruct (with_values_ok s k v Hok Hl). done. }
  assert (len [] <= max_value) as Hnil by done.
  unfold execute. cbv zeta.
  destruct (r_operation q =? OP_HEALTH)%N; [by apply Hsame|].
  destruct (negb _); [by apply Hsame|]. destruct (bool_decide (r_key q = [])); [by apply Hsame|].
  destruct (r_operation q =? OP_SET)%N; [by apply Hins|].
  destruct (r_operation q =? OP_DELETE)%N.
  { intros [= <- <-]. split_and!; try done. split; [done|]. by apply map_Forall_delete. }
  destruct (r_operation q =? OP_ADD)%N.
  { destruct (ParseInt (r_value q)) as [delta|] eqn:Ed; [|by apply Hsame].
    destruct (match values s !! r_key q with Some v => ParseInt v | None => Some 0 end) as [cur|] eqn:Ec; [|by apply Hsame].
    match goal with |- context [if ?c then _ else _] => destruct c eqn:Eo end; [by apply Hsame|].
    apply ParseInt_range in Ed. assert (MinInt64 <= cur <= MaxInt64) as Hc.
    { destruct (values s !! r_key q); [by apply ParseInt_range in Ec|]. injection Ec as <-. done. }
    apply add_in_range in Eo; [|done..]. apply str_of_Z_length in Eo.
    assert (len (str_of_Z (cur + delta)) <= max_value) by (unfold max_value; lia). by apply Hins. }
  destruct (r_operation q =? OP_APPEND)%N.
  { destruct (Z.ltb_spec (MaxValue s) (len (default [] (values s !! r_key q)) + len (r_value q))); [by apply Hsame|].
    apply Hins; [|done]. unfold len in *. rewrite length_app. lia. }
  destruct (values s !! r_key q) as [v|] eqn:Es.
  { apply Hsame. by apply (map_Forall_lookup_1 _ _ _ _ Hv Es). }
  destruct (r_timeout_ms q <=? 0); [by apply Hsame|done].
Qed.

(** Whatever bytes arrive, valid or not, the service keeps every stored value within
    the size the client accepts in a response, and never changes its limits or token;
    an [add] that would leave 64 bits, and an [append] that would outgrow the limit,
    are refused. *)
Theorem handle_values_ok s input r s' : values_ok s → handle s input = Reply r s' →
  values_ok s' ∧ same_config s s' ∧ len (s_value r) <= max_value.
Proof.
  intros Hok E. unfold handle in E.
  destruct (ReadRequest (MaxKey s) (MaxValue s) input) as [resp|q] eqn:Er.
  - injection E as <- <-. split_and!; try done. unfold ReadRequest in Er.
    repeat (case_match; [simplify_eq; by repeat case_match|]). done.
  - destruct (negb _); [by injection E as <- <-|]. destruct (_ && _); [by injection E as <- <-|].
    apply (execute_values_ok s q); try done. destruct Hok as [<- _]. by eapply ReadRequest_value.
Qed.

Lemma ParseInt_str z : ParseInt (str_of_Z z) = if (MinInt64 <=? z) && (z <=? MaxInt64) then Some z else None.
Proof.
  destruct (str_of_Z_digits z) as (neg & ds & -> & (Hd & Hv & Hne & _) & Hneg).
  unfold ParseInt. assert (forallb is_digit ds = true) as Hall
    by (apply forallb_forall; intros c Hc; unfold all_digits in Hd; rewrite List.Forall_forall in Hd; by apply Hd).
  destruct neg; symmetry in Hneg.
  - simpl. rewrite bool_decide_false, Hall, Hv by done. simpl. apply Z.ltb_lt in Hneg.
    replace (- Z.of_N (Z.abs_N z)) with z by lia. done.
  - destruct Hd as [|c ds' Hc Hd]; [done|]. destruct (digit_facts c Hc) as (_ & _ & -> & ->).
    rewrite bool_decide_false, Hall, Hv by done. simpl. apply Z.ltb_ge in Hneg.
    replace (Z.of_N (Z.abs_N z)) with z by lia. done.
Qed.

(** ** The client over the service is a store *)

Inductive command :=
| CHealth
| CSet (key : pystr) (value : pybytes)
| CGet (key : pystr) (wait : spec_float)
| CDelete (key : pystr)
| CAdd (key : pystr) (amount : Z)
| CAppend (key : pystr) (value : pybytes).

Inductive answer := AUnit | ABytes (b : pybytes) | AInt (z : Z).

Definition answer_unit {W} (p : res unit * W) : res answer * W := ((λ _, AUnit) <$> p.1, p.2).

Definition run {W} (e : Endpoint) (ex : pystr → Z → pybytes → W → res (list pybytes) * W) (c : command) (w : W)
    : res answer * W :=
  match c with
  | CHealth => answer_unit (health e ex w)
  | CSet k v => answer_unit (set_value e ex k (inl v) w)
  | CGet k t => let '(r, w') := get e ex k t w in (ABytes <$> r, w')
  | CDelete k => answer_unit (delete_key e ex k w)
  | CAdd k n => let '(r, w') := add e ex k n w in (AInt <$> r, w')
  | CAppend k v => answer_unit (append e ex k v w)
  end.

Definition int64 (z : Z) : bool := (MinInt64 <=? z) && (z <=? MaxInt64).

(** What the coordinator promises: a map from scoped keys to bounded values, counters
    that are decimal text within 64 bits, and a wait that ends in a timeout when no one
    else writes the key. *)
Definition store_step (sk : pybytes) (ms : Z) (c : command) (m : gmap (list N) (list N))
    : res answer * gmap (list N) (list N) :=
  match c with
  | CHealth => (Ok AUnit, m)
  | CSet _ v => (Ok AUnit, <[sk := v]> m)
  | CGet _ _ =>
      (match m !! sk with
       | Some v => Ok (ABytes v)
       | None => if ms =? 0 then Raise (Exn CoordinatorNotFound "key")
                 else Raise (Exn TimeoutError "timed out waiting for coordinator key")
       end, m)
  | CDelete _ => (Ok AUnit, delete sk m)
  | CAdd _ n =>
      match (if int64 n then match m !! sk with None => Some 0 | Some v => ParseInt v end else None) with
      | Some current =>
          if int64 (current + n) then (Ok (AInt (current + n)), <[sk := str_of_Z (current + n)]> m)
          else (Raise (Exn CoordinatorError "coordinator invalid request"), m)
      | None => (Raise (Exn CoordinatorError "coordinator invalid request"), m)
      end
  | CAppend _ v =>
      let new := default [] (m !! sk) ++ v in
      if max_value <? len new then (Raise (Exn CoordinatorError "coordinator request too large"), m)
      else (Ok AUnit, <[sk := new]> m)
  end.

(** The service behind a socket that cuts the response into [pieces]. A wait no one
    satisfies is answered [STATUS_TIMEOUT]. *)
Definition server_exchange (pieces : pybytes → list pybytes) (host : pystr) (port : Z) (req : pybytes) (s : Server)
    : res (list pybytes) * Server :=
  match handle s req with
  | Reply r s' => (Ok (pieces (WriteResponse r)), s')
  | Waiting _ => (Ok (pieces (WriteResponse (MkResponse STATUS_TIMEOUT []))), s)
  end.

(** A client configured for this service. *)
Record connected (e : Endpoint) (s : Server) (pieces : pybytes → list pybytes) : Prop := {
  conn_token : utf8_encode (token e) = Some (Token s);
  conn_token_length : 1 <= len (Token s) <= 4096;
  conn_max_key : MaxKey s = max_key;
  conn_values : values_ok s;
  conn_address : is_ok (split_address (address e)) = true;
  conn_pieces b : pieces_of (pieces b) b;
}.

Lemma request_runs e s pieces op key value t sk ms r s' :
  connected e s pieces → (op < 256)%N →
  scoped_key e key = Ok sk → len sk <= max_key → len value <= max_value →
  (float_ltb t (S754_zero false) || float_ltb (float_of_decimal false 4294967295 (-3)) t) = false →
  timeout_ms t = Ok ms → 0 <= ms < 2 ^ 32 → (MaxWait_ms s <= 0 ∨ ms <= MaxWait_ms s) →
  match execute s (MkRequest op ms (Token s) sk value) with
  | Reply r s' => (r, s')
  | Waiting _ => (MkResponse STATUS_TIMEOUT [], s)
  end = (r, s') →
  request e (server_exchange pieces) op key value t s = (status_result (s_status r) (s_value r), s').
Proof.
  intros Hcon Hop Hsk Hlk Hlv Ht Hms Hmsr Hwait Hex. destruct Hcon as [Htok Htl Hmk Hok Had Hpc].
  pose proof Hok as [Hmv _].
  assert (∃ req, encode_request e op key value t = Ok req) as [req Ereq].
  { unfold encode_request, encode. rewrite Ht, Htok, Hsk. cbn [raise_if of_option mbind res_bind].
    rewrite (proj2 (orb_false_iff _ _)).
    2: { unfold max_key, max_value, len in *. rewrite orb_false_iff, !Z.ltb_ge. lia. }
    cbn [raise_if mbind res_bind]. rewrite Hms. cbn [mbind res_bind]. unfold pack_request.
    unfold max_key, max_value, len in *.
    rewrite !pack_uint_ok by (change (256 ^ Z.of_nat 4) with (2 ^ 32); change (256 ^ Z.of_nat 1) with 256; lia).
    cbn [mbind res_bind mret res_ret]. eauto. }
  destruct (request_round_trip e op key value t req (Token s) Ereq Hop Htok Htl) as (sk' & ms' & Esk & Ems & Erd).
  assert (sk' = sk) as -> by congruence. assert (ms' = ms) as -> by congruence.
  unfold request. rewrite Ereq. cbn [mbind res_bind].
  destruct (split_address (address e)) as [[host port]|]; [|done]. cbn [mbind res_bind mret res_ret].
  unfold server_exchange, handle. rewrite Hmk, Hmv, Erd. cbn [r_token r_timeout_ms].
  rewrite bool_decide_true by done. cbn [negb].
  rewrite (proj2 (andb_false_iff _ _)) by (rewrite !Z.ltb_ge; lia).
  assert (len (s_value r) <= max_value) as Hr.
  { destruct (execute s _) as [r0 s0|k] eqn:Ee; [|by injection Hex as <- <-].
    injection Hex as -> ->. by apply execute_values_ok in Ee as (_ & _ & ?). }
  destruct (execute s _) as [r0 s0|k]; injection Hex as -> ->; cbn [mbind res_bind];
    f_equal; apply (response_round_trip _ _ []); rewrite ?app_nil_r; auto.
Qed.

Lemma with_values_id s : with_values s (values s) = s.
Proof. by destruct s. Qed.

Lemma utf8_char_nonempty c b : utf8_char c = Some b → b ≠ [].
Proof. unfold utf8_char. intros E. repeat case_match; simplify_eq; done. Qed.

Lemma scoped_key_nonempty e k sk : k ≠ [] → scoped_key e k = Ok sk → sk ≠ [].
Proof.
  unfold scoped_key, encode. destruct k as [|c k]; [done|]. intros _ E. res_inv.
  remember (scope e ++ lit "/" ++ c :: k) as t eqn:Et. destruct t as [|d t]; [by destruct (scope e)|].
  simpl in E. destruct (utf8_char d) as [b|] eqn:Ed; [|done]. apply utf8_char_nonempty in Ed.
  destruct (utf8_encode t); [|done]. simplify_eq. by destruct b.
Qed.

(** The key names a scoped key of admissible size. *)
Definition key_ok (e : Endpoint) (k : pystr) (sk : pybytes) : Prop :=
  k ≠ [] ∧ scoped_key e k = Ok sk ∧ len sk <= max_key.

Definition command_ok (e : Endpoint) (s : Server) (sk : pybytes) (ms : Z) (c : command) : Prop :=
  match c with
  | CHealth => True
  | CSet k v | CAppend k v => key_ok e k sk ∧ len v <= max_value
  | CDelete k => key_ok e k sk
  | CAdd k n => key_ok e k sk ∧ len (str_of_Z n) <= max_value
  | CGet k t => key_ok e k sk ∧ timeout_ms t = Ok ms ∧ 0 <= ms < 2 ^ 32
      ∧ (MaxWait_ms s <= 0 ∨ ms <= MaxWait_ms s)
      ∧ (float_ltb t (S754_zero false) || float_ltb (float_of_decimal false 4294967295 (-3)) t) = false
  end.

Section refinement.
Context (e : Endpoint) (s : Server) (pieces : pybytes → list pybytes) (Hcon : connected e s pieces).

(** A request without a wait, answered at once. *)
Lemma request_now op k v sk r s' : (op < 256)%N → key_ok e k sk → len v <= max_value →
  execute s (MkRequest op 0 (Token s) sk v) = Reply r s' →
  request e (server_exchange pieces) op k v no_wait s = (status_result (s_status r) (s_value r), s').
Proof.
  intros Hop (Hk & Hsk & Hl) Hv Hex.
  apply (request_runs e s pieces op k v no_wait sk 0); try done; [lia|by rewrite Hex].
Qed.

Lemma add_refines k n sk : key_ok e k sk → len (str_of_Z n) <= max_value →
  run e (server_exchange pieces) (CAdd k n) s
  = let '(a, m) := store_step sk 0 (CAdd k n) (values s) in (a, with_values s m).
Proof.
  intros Hk Hn. pose proof Hk as (Hk1 & Hk2 & _). pose proof (scoped_key_nonempty _ _ _ Hk1 Hk2) as Hne.
  assert (execute s (MkRequest OP_ADD 0 (Token s) sk (str_of_Z n)) =
    match ParseInt (str_of_Z n) with
    | None => Reply (MkResponse STATUS_INVALID (lit "add value must be an integer")) s
    | Some delta =>
        match (match values s !! sk with None => Some 0 | Some v => ParseInt v end) with
        | None => Reply (MkResponse STATUS_INVALID (lit "stored value is not an integer")) s
        | Some current =>
            if (0 <? delta) && (MaxInt64 - delta <? current) || (delta <? 0) && (current <? MinInt64 - delta) then
              Reply (MkResponse STATUS_INVALID (lit "add result overflows int64")) s
            else
              Reply (ok (str_of_Z (current + delta))) (with_values s (<[sk := str_of_Z (current + delta)]> (values s)))
        end
    end) as Ex.
  { unfold execute. cbn [r_operation r_key r_value]. by rewrite (bool_decide_false _ Hne). }
  rewrite ParseInt_str in Ex. cbn [run store_step]. unfold add. fold (int64 n) in Ex.
  destruct (int64 n) eqn:En.
  2: { rewrite (request_now OP_ADD k _ sk _ _ eq_refl Hk Hn Ex). by rewrite with_values_id. }
  destruct (match values s !! sk with None => Some 0 | Some v => ParseInt v end) as [cur|] eqn:Ec.
  2: { rewrite (request_now OP_ADD k _ sk _ _ eq_refl Hk Hn Ex). by rewrite with_values_id. }
  assert (MinInt64 <= cur <= MaxInt64) as Hc.
  { destruct (values s !! sk); [by apply ParseInt_range in Ec|]. by injection Ec as <-. }
  assert (MinInt64 <= n <= MaxInt64) as Hr by (apply andb_true_iff in En as [?%Z.leb_le ?%Z.leb_le]; done).
  pose proof (add_in_range n cur Hr Hc) as Hov. unfold int64 at 1.
  destruct ((0 <? n) && (MaxInt64 - n <? cur) || (n <? 0) && (cur <? MinInt64 - n)) eqn:Eo.
  - rewrite (request_now OP_ADD k _ sk _ _ eq_refl Hk Hn Ex).
    rewrite (proj2 (andb_false_iff _ _)); [by rewrite with_values_id|].
    rewrite !Z.leb_gt. destruct (Z_lt_dec (cur + n) MinInt64); [by left|]. right.
    destruct (Z_lt_dec MaxInt64 (cur + n)); [done|]. exfalso. assert (true = false) by (apply Hov; lia). done.
  - rewrite (request_now OP_ADD k _ sk _ _ eq_refl Hk Hn Ex). destruct Hov as [Hov _]. specialize (Hov eq_refl).
    rewrite (proj2 (andb_true_iff _ _)) by (rewrite !Z.leb_le; lia).
    change (status_result _ _) with (Ok (str_of_Z (cur + n)) : res (list N)). cbn [mbind res_bind].
    destruct (utf8_ascii (str_of_Z (cur + n))) as [_ ->]; [apply str_of_Z_ascii|].
    cbn [of_option mbind res_bind]. by rewrite py_int_str.
Qed.
End refinement.

(** C20. The client over the wire, through any segmentation of the stream, to the service
    is the abstract store: every admissible command returns the store's answer or
    raises its exception, and changes the service's values exactly as the store. *)
Theorem client_refines_store e s pieces sk ms c :
  connected e s pieces → command_ok e s sk ms c →
  run e (server_exchange pieces) c s
  = let '(a, m) := store_step sk ms c (values s) in (a, with_values s m).
Proof.
  intros Hcon Hc. destruct c as [|k v|k t|k|k n|k v]; cbn [command_ok] in Hc.
  - cbn [run store_step]. unfold health. rewrite with_values_id.
    rewrite (request_runs e s pieces OP_HEALTH [] [] no_wait [] 0 (ok []) s); try done; lia.
  - destruct Hc as [Hk Hv]. pose proof Hk as (Hk1 & Hk2 & _). pose proof (scoped_key_nonempty _ _ _ Hk1 Hk2) as Hne.
    cbn [run store_step]. unfold set_value. cbn [mret res_ret].
    rewrite (request_now e s pieces Hcon OP_SET k v sk (ok []) (with_values s (<[sk := v]> (values s)))); try done.
    unfold execute. cbn [r_key]. by rewrite (bool_decide_false _ Hne).
  - destruct Hc as (Hk & Ht & Hms & Hw & Hf). pose proof Hk as (Hk1 & Hk2 & Hk3).
    pose proof (scoped_key_nonempty _ _ _ Hk1 Hk2) as Hne. cbn [run store_step]. unfold get. rewrite with_values_id.
    destruct (values s !! sk) as [v|] eqn:Ev.
    + rewrite (request_runs e s pieces OP_GET k [] t sk ms (ok v) s); try done.
      unfold execute. cbn [r_key r_timeout_ms]. by rewrite (bool_decide_false _ Hne), Ev.
    + destruct (Z.eqb_spec ms 0) as [->|Hnz].
      * rewrite (request_runs e s pieces OP_GET k [] t sk 0 (MkResponse STATUS_NOT_FOUND []) s); try done.
        unfold execute. cbn [r_key r_timeout_ms]. by rewrite (bool_decide_false _ Hne), Ev.
      * rewrite (request_runs e s pieces OP_GET k [] t sk ms (MkResponse STATUS_TIMEOUT []) s); try done.
        unfold execute. cbn [r_key r_timeout_ms]. rewrite (bool_decide_false _ Hne), Ev.
        by rewrite (proj2 (Z.leb_gt ms 0)) by lia.
  - pose proof Hc as (Hk1 & Hk2 & _). pose proof (scoped_key_nonempty _ _ _ Hk1 Hk2) as Hne.
    cbn [run store_step]. unfold delete_key.
    rewrite (request_now e s pieces Hcon OP_DELETE k [] sk (ok []) (with_values s (delete sk (values s)))); try done.
    unfold execute. cbn [r_key]. by rewrite (bool_decide_false _ Hne).
  - destruct Hc as [Hk Hn]. by rewrite (add_refines e s pieces Hcon k n sk Hk Hn).
  - destruct Hc as [Hk Hv]. pose proof Hk as (Hk1 & Hk2 & _). pose proof (scoped_key_nonempty _ _ _ Hk1 Hk2) as Hne.
    pose proof (conn_values _ _ _ Hcon) as [Hmv _]. cbn [run store_step]. unfold append.
    assert (execute s (MkRequest OP_APPEND 0 (Token s) sk v) =
      if max_value <? len (default [] (values s !! sk) ++ v) then
        Reply (MkResponse STATUS_TOO_LARGE (lit "appended value exceeds coordinator limit")) s
      else Reply (ok []) (with_values s (<[sk := default [] (values s !! sk) ++ v]> (values s)))) as Ex.
    { unfold execute. cbn [r_key r_value]. rewrite (bool_decide_false _ Hne), Hmv. unfold len. rewrite length_app.
      by rewrite Nat2Z.inj_add. }
    destruct (max_value <? len (default [] (values s !! sk) ++ v));
      rewrite (request_now e s pieces Hcon OP_APPEND k v sk _ _ eq_refl Hk Hv Ex); [by rewrite with_values_id|done].
Qed.

(** ** Endpoint files *)

(** [fmt.Sprintf("%s %s %s %s", ...)] as the service writes it. *)
Definition Endpoint_String (e : Endpoint) : pystr :=
  lit "coldsnap-coord-v1" ++ lit " " ++ address e ++ lit " " ++ scope e ++ lit " " ++ token e.

Definition field_ok (f : pystr) : Prop := f ≠ [] ∧ Forall (λ c, is_space c = false) f.

Lemma split_words_field w f r : field_ok f → w = [] →
  split_words w (f ++ lit " " ++ r) = f :: split_words [] r.
Proof. intros [Hne Hs] ->. rewrite split_words_app by done. by destruct f. Qed.

Lemma split_words_fields w s : Forall (λ c, is_space c = false) w → Forall field_ok (split_words w s).
Proof.
  revert w. induction s as [|c s IH]; intros w Hw; simpl.
  - destruct w; [constructor|]. constructor; [by split|constructor].
  - destruct (is_space c) eqn:Ec.
    + destruct w as [|d w]; [by apply IH|]. constructor; [by split|by apply IH].
    + apply IH, Forall_app. split; [done|by constructor].
Qed.

(** The endpoint a client parses is the one the service wrote: parsing accepts the
    written form of every endpoint whose fields are non-empty and free of blanks and
    returns it, and any text it accepts has such fields, so the two forms agree. *)
Theorem endpoint_round_trip :
  (∀ e, field_ok (address e) → field_ok (scope e) → field_ok (token e) →
     Endpoint_parse (Endpoint_String e) = Ok e)
  ∧ (∀ v e, Endpoint_parse v = Ok e →
       field_ok (address e) ∧ field_ok (scope e) ∧ field_ok (token e)
       ∧ Endpoint_parse (Endpoint_String e) = Ok e).
Proof.
  assert (∀ e, field_ok (address e) → field_ok (scope e) → field_ok (token e) →
     Endpoint_parse (Endpoint_String e) = Ok e) as Hrt.
  { intros [a s t] Ha Hs Ht. unfold Endpoint_parse, Endpoint_String, py_split. cbn [address scope token] in *.
    assert (field_ok (lit "coldsnap-coord-v1")) as Hm by (split; [done|by repeat constructor]).
    rewrite !split_words_field by done. destruct Ha, Hs, Ht.
    assert (split_words [] t = [t]) as ->.
    { pose proof (split_words_app [] t []) as E. rewrite app_nil_r in E. rewrite E by done. by destruct t. }
    rewrite bool_decide_true by done. cbn [negb raise_if mbind res_bind].
    apply raise_if_bind; [|done].
    assert (∀ f, f ≠ [] → Forall (λ c, is_space c = false) f → bool_decide (f = []) || existsb is_space f = false) as Hf.
    { intros f Hf Hfs. rewrite bool_decide_false by done. simpl. clear Hf.
      induction Hfs as [|x f Hx _ IH]; simpl; [done|]. by rewrite Hx, IH. }
    cbn [existsb]. rewrite !Hf by done. done. }
  split; [done|]. intros v e E.
  assert (field_ok (address e) ∧ field_ok (scope e) ∧ field_ok (token e)) as (? & ? & ?).
  { unfold Endpoint_parse in E. pose proof (split_words_fields [] v ltac:(constructor)) as HF.
    unfold py_split in E. destruct (split_words [] v) as [|f0 [|f1 [|f2 [|f3 [|]]]]]; try done. res_inv.
    repeat match goal with H : Forall _ (_ :: _) |- _ => apply Forall_cons in H as [? ?] end. done. }
  auto.
Qed.

(** ** Witnesses *)

Definition sample_endpoint : Endpoint := MkEndpoint (lit "10.0.0.7:4091") (lit "job-1") (lit "0123456789abcdef").
Definition sample_server : Server :=
  with_values (NewServer (lit "0123456789abcdef")) {[ lit "job-1/ready" := lit "41" ]}.

(** A socket that delivers the response one byte at a time. *)
Definition bytewise (b : pybytes) : list pybytes := (λ x, [x]) <$> b.

Lemma bytewise_pieces b : pieces_of (bytewise b) b.
Proof.
  unfold bytewise. split.
  - induction b; csimpl; [done|]. by f_equal.
  - apply Forall_fmap, Forall_true. done.
Qed.

Lemma sample_values_ok : values_ok sample_server.
Proof. split; [done|]. apply map_Forall_singleton. by vm_compute. Qed.

Lemma sample_connected : connected sample_endpoint sample_server bytewise.
Proof.
  split; [by vm_compute|by vm_compute|reflexivity|exact sample_values_ok|by vm_compute|exact bytewise_pieces].
Qed.

Lemma response_truncated_witness : ∃ m,
  read_response (bytewise (take 13 (WriteResponse (ok (lit "41"))))) = Raise (Exn ConnectionError m).
Proof.
  refine (response_truncated (bytewise (take 13 (WriteResponse (ok (lit "41"))))) (ok (lit "41")) 13 _ _ (bytewise_pieces _)).
  - by vm_compute.
  - apply Nat.ltb_lt. by vm_compute.
Defined.

Definition sample_bytes : pybytes := lit "GET / HTTP/1.1".

Lemma handle_values_ok_witness : values_ok sample_server ∧
  len (s_value (MkResponse STATUS_INVALID (lit "unexpected EOF"))) <= max_value.
Proof.
  pose proof (handle_values_ok sample_server sample_bytes (MkResponse STATUS_INVALID (lit "unexpected EOF")) sample_server
    sample_values_ok ltac:(by vm_compute)) as (H1 & _ & H2). exact (conj H1 H2).
Defined.

(** Adding to the counter another participant left. *)
Lemma client_refines_store_witness :
  run sample_endpoint (server_exchange bytewise) (CAdd (lit "ready") 1) sample_server
  = (Ok (AInt 42), with_values sample_server {[ lit "job-1/ready" := lit "42" ]}).
Proof.
  rewrite (client_refines_store sample_endpoint sample_server bytewise (lit "job-1/ready") 0 (CAdd (lit "ready") 1)
    sample_connected).
  - by vm_compute.
  - split; [split_and!; by vm_compute|by vm_compute].
Defined.

Lemma endpoint_round_trip_witness : Endpoint_parse (Endpoint_String sample_endpoint) = Ok sample_endpoint.
Proof.
  apply (proj1 endpoint_round_trip); (split; [done|by repeat constructor]).
Defined.
