(* ===== verification/Topology.v ===== *)
(** * Worker identity and rank resolution ([coldsnap_core/topology.py])

    The execution graph names the workers of a launch unit and the rank namespaces
    (groups) they belong to; a process finds its worker and its global rank from the
    graph and its environment. *)

From S2P Require Import Prelude PyFloat PyJson PyJsonFacts.

Definition EXECUTION_GRAPH_ENV := lit "COLDSNAP_EXECUTION_GRAPH".

Definition is_alnum (c : N) : bool :=
  ((48 <=? c) && (c <=? 57) || (65 <=? c) && (c <=? 90) || (97 <=? c) && (c <=? 122))%N.
Definition is_id_char (c : N) : bool := (is_alnum c || (c =? 46) || (c =? 95) || (c =? 45))%N.

(** [_ID.fullmatch]: a letter or digit, then at most 127 identifier characters. *)
Definition id_match (s : pystr) : bool :=
  match s with
  | [] => false
  | c :: r => is_alnum c && forallb is_id_char r && (length r <=? 127)%nat
  end.

Definition environment : Type := pystr → option pystr.

(** The graph [execution_graph] returns; a group stays as decoded. *)
Record graph := Graph {
  unit_id : pystr;
  by_process_slot : list (pystr * pystr);
  groups : list (pystr * json);
}.

Definition as_str (v : json) : option pystr := match v with JStr s => Some s | _ => None end.
Definition as_dict (v : json) : option (list (pystr * json)) := match v with JObj d => Some d | _ => None end.

(** [group["ranks"]] of a world group, [None] when it is not one. *)
Definition world_ranks (group : json) : option (list (pystr * json)) :=
  d ← as_dict group;
  kind ← dict_get (lit "kind") d ≫= as_str;
  ranks ← dict_get (lit "ranks") d ≫= as_dict;
  if ends_with (lit ":world") kind then Some ranks else None.

Definition is_world_group (group : json) : bool := if world_ranks group then true else false.

(** The structural test on the decoded graph. *)
Definition graph_fields (v : json) : option (pystr * list (pystr * json) * list (pystr * json)) :=
  d ← as_dict v;
  u ← dict_get (lit "unit") d ≫= as_str;
  slots ← dict_get (lit "by_process_slot") d ≫= as_dict;
  gs ← dict_get (lit "groups") d ≫= as_dict;
  if id_match u && negb (bool_decide (length slots = 0%nat)) then Some (u, slots, gs) else None.

Definition worker_of (v : json) : option pystr :=
  w ← as_str v; if id_match w then Some w else None.

Definition execution_graph (env : environment) (required : bool) : res (option graph) :=
  match env EXECUTION_GRAPH_ENV with
  | None | Some [] =>
      if required then Raise (Exn RuntimeError "execution graph is required") else mret None
  | Some raw =>
      v ← of_option RuntimeError "execution graph is invalid JSON" (loads raw);
      '(u, slots, gs) ← of_option RuntimeError "execution graph has an invalid structure" (graph_fields v);
      workers ← of_option RuntimeError "execution graph contains an invalid worker"
        (mapM (λ kv, (λ w, (kv.1, w)) <$> worker_of kv.2) slots);
      mret (Some (Graph u workers gs))
  end.

(** The graph passed in, or the one of the environment, which must be there. *)
Definition graph_or_env (g : option graph) (env : environment) : res graph :=
  match g with
  | Some g => mret g
  | None => o ← execution_graph env true; of_option AssertionError "graph" o
  end.

Fixpoint slot_lookup (k : pystr) (slots : list (pystr * pystr)) : option pystr :=
  match slots with
  | [] => None
  | (k', w) :: slots' => if decide (k' = k) then Some w else slot_lookup k slots'
  end.

(** Elements of a set comprehension: [list] and [dict] values are not hashable. *)
Definition hashable (v : json) : bool := match v with JArr _ | JObj _ => false | _ => true end.

Fixpoint set_add (v : json) (acc : list json) : list json :=
  match acc with
  | [] => [v]
  | w :: acc' => if py_eq w v then acc else w :: set_add v acc'
  end.

(** [{group["ranks"].get(rank) for group in groups if world and present}] *)
Fixpoint world_members (rank : pystr) (gs : list (pystr * json)) (acc : list json) : res (list json) :=
  match gs with
  | [] => mret acc
  | (_, group) :: gs' =>
      match world_ranks group ≫= dict_get rank with
      | None | Some JNull => world_members rank gs' acc
      | Some v =>
          _ ← raise_if (negb (hashable v)) TypeError "unhashable type";
          world_members rank gs' (set_add v acc)
      end
  end.

Definition worker_id (g : option graph) (env : environment) : res pystr :=
  g ← graph_or_env g env;
  match (local_rank ← env (lit "LOCAL_RANK"); slot_lookup local_rank (by_process_slot g)) with
  | Some w => mret w
  | None =>
      match by_process_slot g with
      | [(_, w)] => mret w
      | _ =>
          matches ← match env (lit "RANK") with
                    | None => mret []
                    | Some rank => world_members rank (groups g) []
                    end;
          match matches with
          | [v] => of_option RuntimeError "ColdSnap worker identity is invalid" (worker_of v)
          | _ => Raise (Exn RuntimeError "cannot resolve ColdSnap worker from local or group rank")
          end
      end
  end.

(** The first of the three variables that is set decides. *)
Fixpoint explicit_rank (env : environment) (names : list pystr) : res (option Z) :=
  match names with
  | [] => mret None
  | name :: names' =>
      match env name with
      | None => explicit_rank env names'
      | Some raw =>
          rank ← of_option RuntimeError "not a valid rank" (py_int raw);
          _ ← raise_if (rank <? 0) RuntimeError "not a valid rank";
          mret (Some rank)
      end
  end.

Definition RANK_NAMES : list pystr := [lit "RANK"; lit "COLDSNAP_RANK"; lit "COLDSNAP_EXPECTED_RANK"].

(** Ranks a group gives to [worker], added to the set [acc]. *)
Fixpoint group_ranks (worker : pystr) (ranks : list (pystr * json)) (acc : list Z) : res (list Z) :=
  match ranks with
  | [] => mret acc
  | (text, member) :: ranks' =>
      if negb (py_eq member (JStr worker)) then group_ranks worker ranks' acc else
      rank ← of_option RuntimeError "ColdSnap world group contains an invalid rank" (py_int text);
      _ ← raise_if ((rank <? 0) || negb (bool_decide (str_of_Z rank = text)))
          RuntimeError "ColdSnap world group contains an invalid rank";
      group_ranks worker ranks' (if bool_decide (rank ∈ acc) then acc else acc ++ [rank])
  end.

Fixpoint topology_ranks (worker : pystr) (gs : list (pystr * json)) (acc : list Z) : res (list Z) :=
  match gs with
  | [] => mret acc
  | (_, group) :: gs' =>
      match world_ranks group with
      | None => topology_ranks worker gs' acc
      | Some ranks => acc' ← group_ranks worker ranks acc; topology_ranks worker gs' acc'
      end
  end.

Definition topology_rank (g : option graph) (env : environment) : res (option Z) :=
  g ← match g with Some g => mret (Some g) | None => execution_graph env false end;
  match g with
  | None => mret None
  | Some g =>
      worker ← worker_id (Some g) env;
      matches ← topology_ranks worker (groups g) [];
      _ ← raise_if (1 <? length matches)%nat RuntimeError "ColdSnap worker has conflicting global ranks in world groups";
      mret (head matches)
  end.

Definition global_rank (g : option graph) (env : environment) (required : bool) : res (option Z) :=
  explicit ← explicit_rank env RANK_NAMES;
  topology ← topology_rank g env;
  match explicit, topology with
  | Some x, Some t =>
      _ ← raise_if (negb (x =? t)) RuntimeError "explicit global rank disagrees with execution topology";
      mret (Some t)
  | None, Some t => mret (Some t)
  | Some x, None => mret (Some x)
  | None, None =>
      _ ← raise_if required RuntimeError "cannot resolve ColdSnap global rank";
      mret None
  end.

(** [isinstance(group.get("size"), int)]; [bool] is a subclass. *)
Definition size_is_int (group : json) : bool :=
  match (d ← as_dict group; dict_get (lit "size") d) with
  | Some (JInt _) | Some (JBool _) => true
  | _ => false
  end.

Definition contains_rank (rank : Z) (group : json) : bool :=
  size_is_int group
  && match world_ranks group with
     | Some ranks => if dict_get (str_of_Z rank) ranks then true else false
     | None => false
     end.

Definition world_group (rank : Z) (g : option graph) (env : environment) : res (pystr * json) :=
  g ← graph_or_env g env;
  match filter (λ kv, contains_rank rank kv.2 = true) (groups g) with
  | [kv] => mret kv
  | _ => Raise (Exn RuntimeError "runtime rank does not identify exactly one world group")
  end.

(** ** Theorems *)

(** Every rank a world group of the graph assigns, as written. *)
Definition world_entries (gs : list (pystr * json)) : list (pystr * json) :=
  concat ((λ kv, default [] (world_ranks kv.2)) <$> gs).

Lemma group_ranks_Ok w ranks acc acc' : group_ranks w ranks acc = Ok acc' → NoDup acc → Forall (Z.le 0) acc →
  NoDup acc' ∧ Forall (Z.le 0) acc' ∧ (∀ r, r ∈ acc → r ∈ acc')
  ∧ (∀ t m, (t, m) ∈ ranks → py_eq m (JStr w) = true → ∃ r, r ∈ acc' ∧ t = str_of_Z r)
  ∧ (∀ r, r ∈ acc' → r ∈ acc ∨ ∃ m, (str_of_Z r, m) ∈ ranks ∧ py_eq m (JStr w) = true).
Proof.
  revert acc. induction ranks as [|[text member] ranks IH]; intros acc E Hnd Hpos; cbn [group_ranks] in E.
  { res_inv. split_and!; try done; [|by left]. by intros t m ?%elem_of_nil. }
  destruct (py_eq member (JStr w)) eqn:Em; cbn [negb] in E.
  - res_inv. guards. subst.
    match goal with H : (_ <? 0) = false |- _ => apply Z.ltb_ge in H end.
    set (acc1 := if bool_decide (x ∈ acc) then acc else acc ++ [x]) in *.
    assert (NoDup acc1 ∧ Forall (Z.le 0) acc1 ∧ (∀ r, r ∈ acc1 ↔ r ∈ acc ∨ r = x)) as (Hnd1 & Hpos1 & Hin1).
    { unfold acc1. case_bool_decide as Hx; [split_and!; try done; naive_solver|]. split_and!.
      - apply NoDup_app. split_and!; [done| |apply NoDup_singleton]. by intros y ? ->%list_elem_of_singleton.
      - apply Forall_app. split; [done|]. by repeat constructor.
      - intros r. by rewrite elem_of_app, list_elem_of_singleton. }
    apply IH in E as (? & ? & Hsub & Hall & Hsrc); [|done..]. split_and!; try done.
    + intros r Hr. apply Hsub, Hin1. by left.
    + intros t m [[= -> ->]|Ht]%elem_of_cons Hm; [|by eapply Hall]. exists x. split; [|done].
      apply Hsub, Hin1. by right.
    + intros r Hr. apply Hsrc in Hr as [[?| ->]%Hin1|(m & ? & ?)]; [by left| |].
      * right. exists member. split; [left|done].
      * right. exists m. split; [by right|done].
  - apply IH in E as (? & ? & Hsub & Hall & Hsrc); [|done..]. split_and!; try done.
    + intros t m [[= -> ->]|Ht]%elem_of_cons Hm; [congruence|by eapply Hall].
    + intros r [?|(m & ? & ?)]%Hsrc; [by left|]. right. exists m. split; [by right|done].
Qed.

Lemma topology_ranks_Ok w gs acc acc' : topology_ranks w gs acc = Ok acc' → NoDup acc → Forall (Z.le 0) acc →
  NoDup acc' ∧ Forall (Z.le 0) acc' ∧ (∀ r, r ∈ acc → r ∈ acc')
  ∧ (∀ t m, (t, m) ∈ world_entries gs → py_eq m (JStr w) = true → ∃ r, r ∈ acc' ∧ t = str_of_Z r).
Proof.
  unfold world_entries. revert acc. induction gs as [|[k group] gs IH]; intros acc E Hnd Hpos; cbn [topology_ranks] in E.
  { res_inv. split_and!; try done. by intros t m ?%elem_of_nil. }
  csimpl. destruct (world_ranks group) as [ranks|] eqn:Ew; simpl; [|by apply IH].
  res_inv. match goal with H : group_ranks _ _ _ = Ok _ |- _ => apply group_ranks_Ok in H as (? & ? & Hs1 & Hall1 & _) end; [|done..].
  apply IH in E as (? & ? & Hsub & Hall); [|done..]. split_and!; try done; [auto|].
  intros t m [Ht|Ht]%elem_of_app Hm; [|by eapply Hall].
  destruct (Hall1 t m Ht Hm) as (r & Hr & ->). eauto.
Qed.

Lemma explicit_rank_pos env names x : explicit_rank env names = Ok (Some x) → 0 <= x.
Proof.
  induction names as [|n names IH]; simpl; [done|]. destruct (env n); [|done]. intros E. res_inv.
  simplify_eq. by match goal with H : (_ <? 0) = false |- _ => apply Z.ltb_ge in H end.
Qed.

(** A resolved global rank is consistent with everything that states one: it is not
    negative, equals an explicit rank of the environment, and is the only rank any
    world group of the graph gives to this worker, written canonically. *)
Theorem global_rank_sound g env required w r :
  worker_id (Some g) env = Ok w → global_rank (Some g) env required = Ok (Some r) →
  0 <= r ∧ (∀ x, explicit_rank env RANK_NAMES = Ok (Some x) → x = r)
  ∧ (∀ t m, (t, m) ∈ world_entries (groups g) → py_eq m (JStr w) = true → t = str_of_Z r).
Proof.
  intros Hw E. unfold global_rank in E. apply bind_Ok in E as (explicit & Ex & E).
  apply bind_Ok in E as (topology & Et & E). unfold topology_rank in Et. cbn [mret res_ret mbind res_bind] in Et.
  rewrite Hw in Et. cbn [mbind res_bind] in Et. apply bind_Ok in Et as (matches & Em & Et). res_inv.
  destruct (topology_ranks_Ok _ _ _ _ Em (NoDup_nil_2) (Forall_nil_2 _)) as (_ & Hpos & _ & Hall).
  match goal with H : (1 <? _)%nat = false |- _ => apply Nat.ltb_ge in H end.
  assert (∀ t m, (t, m) ∈ world_entries (groups g) → py_eq m (JStr w) = true →
    ∃ r', head matches = Some r' ∧ t = str_of_Z r') as Hhead.
  { intros t m Ht Hm. destruct (Hall t m Ht Hm) as (r' & Hr' & ->). exists r'. split; [|done].
    destruct matches as [|y [|]]; simpl in *; [by apply elem_of_nil in Hr'| |lia].
    by apply list_elem_of_singleton in Hr' as ->. }
  assert (∀ y, head matches = Some y → 0 <= y) as Hp0.
  { intros y. destruct Hpos as [|z l Hz]; [done|]. by intros [= <-]. }
  rewrite Ex. destruct explicit as [ex|], (head matches) as [t0|] eqn:Eh; res_inv; simplify_eq; split_and!; auto.
  - match goal with H : negb _ = false |- _ => apply negb_false_iff, Z.eqb_eq in H end. by intros ? [= <-].
  - intros t m Ht Hm. by destruct (Hhead t m Ht Hm) as (r' & [= <-] & ->).
  - by eapply explicit_rank_pos.
  - by intros ? [= <-].
  - intros t m Ht Hm. by destruct (Hhead t m Ht Hm) as (r' & ? & _).
  - done.
  - intros t m Ht Hm. by destruct (Hhead t m Ht Hm) as (r' & [= <-] & ->).
Qed.

Lemma group_ranks_total w r ranks acc : 0 <= r → (∀ x, x ∈ acc → x = r) →
  (∀ t m, (t, m) ∈ ranks → py_eq m (JStr w) = true → t = str_of_Z r) →
  ∃ acc', group_ranks w ranks acc = Ok acc' ∧ (∀ x, x ∈ acc' → x = r).
Proof.
  intros Hr. revert acc. induction ranks as [|[text member] ranks IH]; intros acc Hacc Hall; cbn [group_ranks]; [eauto|].
  destruct (py_eq member (JStr w)) eqn:Em; cbn [negb].
  - rewrite (Hall text member) by (left || done). rewrite py_int_str. cbn [of_option mbind res_bind].
    rewrite (proj2 (Z.ltb_ge r 0)), (bool_decide_true (str_of_Z r = str_of_Z r)) by done. cbn [orb negb raise_if mbind res_bind].
    apply IH; [|intros t m Ht; apply Hall; by right].
    case_bool_decide; [done|]. intros x [?| ->%list_elem_of_singleton]%elem_of_app; auto.
  - apply IH; [done|]. intros t m Ht. apply Hall. by right.
Qed.

Lemma topology_ranks_total w r gs acc : 0 <= r → (∀ x, x ∈ acc → x = r) →
  (∀ t m, (t, m) ∈ world_entries gs → py_eq m (JStr w) = true → t = str_of_Z r) →
  ∃ acc', topology_ranks w gs acc = Ok acc' ∧ (∀ x, x ∈ acc' → x = r).
Proof.
  intros Hr. unfold world_entries. revert acc.
  induction gs as [|[k group] gs IH]; intros acc Hacc Hall; cbn [topology_ranks]; [eauto|]. csimpl in Hall.
  destruct (world_ranks group) as [ranks|]; simpl in Hall; [|by apply IH].
  destruct (group_ranks_total w r ranks acc) as (acc1 & -> & Hacc1); [done..| |].
  { intros t m Ht. apply Hall, elem_of_app. by left. }
  cbn [mbind res_bind]. apply IH; [done|]. intros t m Ht. apply Hall, elem_of_app. by right.
Qed.

(** The graph alone suffices: when the worker resolves and every world group that
    lists it does so under the one rank [r], the rank resolves to [r] without any
    rank variable, and also with one that says the same. *)
Theorem global_rank_complete g env required w r m :
  worker_id (Some g) env = Ok w → 0 <= r →
  (explicit_rank env RANK_NAMES = Ok None ∨ explicit_rank env RANK_NAMES = Ok (Some r)) →
  (str_of_Z r, m) ∈ world_entries (groups g) → py_eq m (JStr w) = true →
  (∀ t m', (t, m') ∈ world_entries (groups g) → py_eq m' (JStr w) = true → t = str_of_Z r) →
  global_rank (Some g) env required = Ok (Some r).
Proof.
  intros Hw Hr Hex Hin Hm Hall.
  destruct (topology_ranks_total w r (groups g) []) as (acc & Ea & Hacc); [done|by intros x ?%elem_of_nil|done|].
  destruct (topology_ranks_Ok _ _ _ _ Ea (NoDup_nil_2) (Forall_nil_2 _)) as (Hnd & _ & _ & Hsrc).
  destruct (Hsrc _ _ Hin Hm) as (r' & Hr' & _). pose proof (Hacc _ Hr') as ->.
  assert (acc = [r]) as ->.
  { destruct Hnd as [|y acc Hy Hnd]; [by apply elem_of_nil in Hr'|].
    assert (y = r) as -> by (apply Hacc; left). f_equal. destruct acc as [|z acc]; [done|].
    destruct Hy. rewrite <- (Hacc z) at 1 by (right; left). left. }
  assert (topology_rank (Some g) env = Ok (Some r)) as Et.
  { unfold topology_rank. cbn [mret res_ret mbind res_bind]. rewrite Hw. cbn [mbind res_bind]. by rewrite Ea. }
  unfold global_rank. destruct Hex as [-> | ->]; cbn [mbind res_bind]; rewrite Et; cbn [mbind res_bind]; [done|].
  by rewrite Z.eqb_refl.
Qed.

(** [world_group] succeeds exactly when one group of the graph is a world group with
    an integer size that lists the rank, and returns that group. *)
Theorem world_group_spec g env rank kv :
  NoDup (fst <$> groups g) →
  world_group rank (Some g) env = Ok kv ↔
  kv ∈ groups g ∧ contains_rank rank kv.2 = true
  ∧ ∀ kv', kv' ∈ groups g → contains_rank rank kv'.2 = true → kv' = kv.
Proof.
  intros Hnd%NoDup_fmap_1. unfold world_group, graph_or_env. cbn [mret res_ret mbind res_bind].
  pose proof (λ x, list_elem_of_filter (λ kv, contains_rank rank kv.2 = true) (groups g) x) as Hf.
  assert (NoDup (filter (λ kv, contains_rank rank kv.2 = true) (groups g))) as Hn by by apply NoDup_filter.
  destruct (filter _ (groups g)) as [|a [|b l]].
  - split; [done|]. intros (H1 & H2 & _). assert (kv ∈ []) as []%elem_of_nil by by apply Hf.
  - split.
    + intros [= <-]. assert (contains_rank rank a.2 = true ∧ a ∈ groups g) as [? ?] by (apply Hf; left).
      split_and!; try done. intros kv' ? ?. assert (kv' ∈ [a]) as ?%list_elem_of_singleton by by apply Hf. done.
    + intros (H1 & H2 & _). assert (kv ∈ [a]) as ->%list_elem_of_singleton by by apply Hf. done.
  - split; [done|]. intros (H1 & H2 & Hu). exfalso.
    assert (contains_rank rank a.2 = true ∧ a ∈ groups g) as [? ?] by (apply Hf; left).
    assert (contains_rank rank b.2 = true ∧ b ∈ groups g) as [? ?] by (apply Hf; right; left).
    assert (a = b) as -> by (rewrite (Hu a), (Hu b) by done; done).
    apply NoDup_cons in Hn as [Hn _]. destruct Hn. left.
Qed.

(** ** Witnesses: two workers of one unit in one world group *)

Definition sample_world : json := JObj [
  (lit "kind", JStr (lit "vllm:world")); (lit "size", JInt 2);
  (lit "ranks", JObj [(lit "0", JStr (lit "w0")); (lit "1", JStr (lit "w1"))])].
Definition sample_graph : graph :=
  Graph (lit "unit-0") [(lit "0", lit "w0"); (lit "1", lit "w1")] [(lit "g", sample_world)].
Definition sample_env : environment := λ k,
  if bool_decide (k = lit "LOCAL_RANK") then Some (lit "1") else None.

Lemma global_rank_sound_witness :
  global_rank (Some sample_graph) sample_env true = Ok (Some 1) ∧ lit "1" = str_of_Z 1.
Proof.
  split; [by vm_compute|].
  refine (proj2 (proj2 (global_rank_sound sample_graph sample_env true (lit "w1") 1 _ _)) (lit "1") (JStr (lit "w1")) _ _);
    [by vm_compute..| |by vm_compute].
  change (world_entries (groups sample_graph)) with [(lit "0", JStr (lit "w0")); (lit "1", JStr (lit "w1"))].
  right. left.
Defined.

Lemma global_rank_complete_witness : global_rank (Some sample_graph) sample_env true = Ok (Some 1).
Proof.
  apply (global_rank_complete sample_graph sample_env true (lit "w1") 1 (JStr (lit "w1"))); try by vm_compute.
  - by left.
  - change (world_entries (groups sample_graph)) with [(lit "0", JStr (lit "w0")); (lit "1", JStr (lit "w1"))].
    right. left.
  - change (world_entries (groups sample_graph)) with [(lit "0", JStr (lit "w0")); (lit "1", JStr (lit "w1"))].
    intros t m [[= -> ->]|[[= -> ->]|[]%elem_of_nil]%elem_of_cons]%elem_of_cons; by vm_compute.
Defined.

Lemma world_group_spec_witness : world_group 1 (Some sample_graph) sample_env = Ok (lit "g", sample_world).
Proof.
  apply (world_group_spec sample_graph sample_env 1 (lit "g", sample_world)).
  - apply NoDup_singleton.
  - split_and!; [left|by vm_compute|]. by intros kv' ->%list_elem_of_singleton.
Defined.
