(* ===== verification/Validation.v ===== *)
(** * Payload validation ([coldsnap_core/validation.py])

    A payload is admitted from a cached record, after a full hash of its bytes, or by an
    external validator. What the code reads of the outside (stat results, reads, the
    marker, the answer of a validator) is an argument of the operations; what it
    writes (the record's text) is part of their result. *)

From Stdlib Require Import SpecFloat.
From S2P Require Import Prelude PyFloat PyJson Hash.

Definition RECORD_FORMAT : Z := 1.
Definition RECORD_KIND := lit "coldsnap-payload-validation".
Definition RESULT_KIND := lit "coldsnap-payload-validation-result".
Definition PROVIDER := lit "sha256-cache-v1".
Definition RECORD_SUFFIX := lit ".coldsnap-validation.json".
Definition DEFAULT_HASH_CHUNK_BYTES : Z := 16 * 1024 ^ 2.
Definition VALIDATION_TRANSPORT_ENV := lit "COLDSNAP_PAYLOAD_VALIDATION_TRANSPORT".
Definition VALIDATION_COMMAND_ENV := lit "COLDSNAP_PAYLOAD_VALIDATION_COMMAND".
Definition VALIDATION_RPC_SOCKET_ENV := lit "COLDSNAP_PAYLOAD_VALIDATION_RPC_SOCKET".
Definition VALIDATION_RPC_TOKEN_FILE_ENV := lit "COLDSNAP_PAYLOAD_VALIDATION_RPC_TOKEN_FILE".
Definition VALIDATION_TIMEOUT_ENV := lit "COLDSNAP_PAYLOAD_VALIDATION_TIMEOUT_SECONDS".
Definition MAX_RPC_MESSAGE_BYTES : Z := Z.shiftl 1 20.
Definition MAX_RPC_TOKEN_BYTES : Z := 4096.

(** [raise PayloadValidationError(reason, ...)] *)
Definition reject (reason : string) : exn := Exn (PayloadValidationError reason) reason.
Definition reject_if (b : bool) (reason : string) : res unit :=
  raise_if b (PayloadValidationError reason) reason.

(** [value.removeprefix("sha256:")], 64 lower-case characters that [bytes.fromhex]
    accepts, with the prefix put back. *)
Definition normalize_sha256 (value : pystr) : res pystr :=
  let digest := removeprefix (lit "sha256:") value in
  _ ← reject_if (negb (bool_decide (length digest = 64%nat)) || negb (bool_decide (py_lower digest = digest)))
      "invalid_expected_digest";
  _ ← reject_if (if fromhex digest then false else true) "invalid_expected_digest";
  mret (lit "sha256:" ++ digest).

(** A path: its parent with the separator, and its last component. *)
Record Path := MkPath { p_parent : pystr; p_name : pystr }.
#[global] Instance Path_eq_dec : EqDecision Path.
Proof. solve_decision. Defined.
Definition path_str (p : Path) : pystr := p_parent p ++ p_name p.

Definition validation_record_path (blob : Path) : Path := MkPath (p_parent blob) (p_name blob ++ RECORD_SUFFIX).

(** ** Stat results *)

Record stat_result := Stat {
  st_dev : Z; st_ino : Z; st_size : Z; st_mtime_ns : Z;
  st_ctime_ns : Z; st_uid : Z; st_gid : Z; st_mode : Z;
}.

Definition S_IFMT (mode : Z) : Z := Z.land mode 0xF000.
Definition S_ISREG (mode : Z) : bool := S_IFMT mode =? 0x8000.
Definition S_ISSOCK (mode : Z) : bool := S_IFMT mode =? 0xC000.
Definition S_IMODE (mode : Z) : Z := Z.land mode 0xFFF.
(** [mode & 0o077]: group and other bits. *)
Definition shared_bits (mode : Z) : Z := Z.land mode 0x3F.

Definition content_identity (v : stat_result) : json := JObj [
  (lit "device", JInt (st_dev v)); (lit "inode", JInt (st_ino v));
  (lit "size", JInt (st_size v)); (lit "mtime_ns", JInt (st_mtime_ns v))].
Definition diagnostic_identity (v : stat_result) : json := JObj [
  (lit "ctime_ns", JInt (st_ctime_ns v)); (lit "uid", JInt (st_uid v));
  (lit "gid", JInt (st_gid v)); (lit "mode", JInt (S_IMODE (st_mode v)))].

(** [_open_regular_file]: [os.open] may raise, then the type of the opened file. *)
Definition open_regular_file (opened : res Z) : res unit :=
  mode ← opened; reject_if (negb (S_ISREG mode)) "unusable_path".

(** ** Hashing *)

(** What a descriptor shows while it is hashed: a stat, the reads until one is empty,
    and a stat. *)
Record descriptor := Descriptor { before_stat : stat_result; reads : list pybytes; after_stat : stat_result }.

(** [digest.update] per read and [hashed += len(chunk)]. *)
Definition read_all (chunks : list pybytes) : pybytes * Z :=
  foldl (λ acc c, (acc.1 ++ c, acc.2 + Z.of_nat (length c))) ([], 0) chunks.

Definition hash_descriptor (d : descriptor) (chunk_bytes : Z) : res (pystr * Z * stat_result) :=
  _ ← raise_if (chunk_bytes <=? 0) ValueError "hash chunk size must be positive";
  let '(bytes, hashed) := read_all (reads d) in
  _ ← reject_if (negb (py_eq (content_identity (before_stat d)) (content_identity (after_stat d))))
      "changed_during_validation";
  mret (lit "sha256:" ++ hexdigest bytes, hashed, after_stat d).

Definition file_sha256 (opened : res Z) (d : descriptor) (chunk_bytes : Z) : res pystr :=
  _ ← open_regular_file opened;
  '(digest, _, _) ← hash_descriptor d chunk_bytes;
  mret (removeprefix (lit "sha256:") digest).

(** ** Records *)

(** [record.get(k) == v]; a missing key is [None]. *)
Definition field_is (k : string) (v : json) (d : list (pystr * json)) : bool :=
  py_eq (default JNull (dict_get (lit k) d)) v.

Definition expected_field (bytes : Z) (sha : pystr) : json :=
  JObj [(lit "bytes", JInt bytes); (lit "sha256", JStr sha)].

Definition record_matches (record : option json) (blob : Path) (sha : pystr) (bytes : Z) (identity : json) : bool :=
  match record with
  | Some (JObj d) =>
      field_is "format" (JInt RECORD_FORMAT) d && field_is "kind" (JStr RECORD_KIND) d
      && field_is "provider" (JStr PROVIDER) d && field_is "blob" (JStr (p_name blob)) d
      && field_is "expected" (expected_field bytes sha) d && field_is "content_identity" identity d
  | _ => false
  end.

Definition make_record (blob : Path) (sha : pystr) (bytes : Z) (v : stat_result) (evidence : pystr) (now : Z) : json :=
  JObj [
    (lit "format", JInt RECORD_FORMAT); (lit "kind", JStr RECORD_KIND); (lit "provider", JStr PROVIDER);
    (lit "blob", JStr (p_name blob)); (lit "expected", expected_field bytes sha);
    (lit "content_identity", content_identity v); (lit "diagnostic_identity", diagnostic_identity v);
    (lit "content_evidence", JStr evidence); (lit "validated_unix_ns", JInt now)].

(** The text [_write_json_atomic] leaves in the marker, with mode 0o600. *)
Definition record_text (record : json) : pystr := dumps indent2_style record ++ lit "
".

(** [publish_validation_record]: the record and the text it wrote. [written] is the
    outcome of the atomic write. *)
Definition publish_validation_record (blob : Path) (expected_sha256 : pystr) (expected_bytes : Z) (evidence : pystr)
    (opened : res Z) (value : stat_result) (now : Z) (written : res unit) : res (json * pystr) :=
  sha ← normalize_sha256 expected_sha256;
  _ ← open_regular_file opened;
  _ ← reject_if (negb (st_size value =? expected_bytes)) "size_mismatch";
  let record := make_record blob sha expected_bytes value evidence now in
  _ ← written;
  mret (record, record_text record).

(** ** Local validation *)

(** Everything one local validation observes, in the order it happens. *)
Record observation := Observation {
  opened : res Z; initial_stat : stat_result;
  marker_mode : res Z; marker_text : res pystr;
  hashing : descriptor;
  reopened : res Z; publish_stat : stat_result; written : res unit; now_ns : Z;
  seconds : spec_float;
}.

Definition validation_result (reason evidence : string) (hashed : Z) (secs : spec_float) (marker : Path)
    (identity diagnostics : json) : json := JObj [
  (lit "format", JInt RECORD_FORMAT); (lit "kind", JStr RESULT_KIND); (lit "provider", JStr PROVIDER);
  (lit "decision", JStr (lit "accept")); (lit "reason", JStr (lit reason));
  (lit "content_evidence", JStr (lit evidence)); (lit "bytes_hashed", JInt hashed);
  (lit "seconds", JFloat secs); (lit "record", JStr (path_str marker));
  (lit "content_identity", identity); (lit "diagnostic_identity", diagnostics)].

(** The guarded read of the marker: its mode bits and its record. An exception ends the
    block but keeps what was assigned before it. *)
Definition read_marker (o : observation) : res (bool * option json) :=
  let caught c := is_os_error c || is_value_error c in
  match marker_mode o with
  | Raise e => if caught (exc e) then mret (false, None) else Raise e
  | Ok mode =>
      let mode_ok := S_ISREG mode && (shared_bits mode =? 0) in
      match marker_text o with
      | Raise e => if caught (exc e) then mret (mode_ok, None) else Raise e
      | Ok text => mret (mode_ok, loads text)
      end
  end.

(** [_validate_payload_python]: the result, and the marker text it published. *)
Definition validate_payload_python (blob : Path) (expected_sha256 : pystr) (expected_bytes : Z) (marker : Path)
    (chunk_bytes : Z) (o : observation) : res (json * option pystr) :=
  sha ← normalize_sha256 expected_sha256;
  _ ← open_regular_file (opened o);
  let identity := content_identity (initial_stat o) in
  _ ← reject_if (negb (st_size (initial_stat o) =? expected_bytes)) "size_mismatch";
  '(mode_ok, record) ← read_marker o;
  if mode_ok && record_matches record blob sha expected_bytes identity then
    mret (validation_result "cached_validation" "cached-full-sha256" 0 (seconds o) marker identity
            (diagnostic_identity (initial_stat o)), None)
  else
    '(digest, hashed, value) ← hash_descriptor (hashing o) chunk_bytes;
    _ ← reject_if (negb (bool_decide (digest = sha))) "digest_mismatch";
    '(_, text) ← publish_validation_record blob sha expected_bytes (lit "full-sha256-this-operation")
                   (reopened o) (publish_stat o) (now_ns o) (written o);
    mret (validation_result "revalidated_existing" "full-sha256-this-operation" hashed (seconds o) marker
            (content_identity value) (diagnostic_identity value), Some text).

(** ** External validation *)

Section external.
Context (environ : pystr → option pystr).
(** [str(v)] of a decoded value; on a string it is the string. *)
Context (py_str : json → pystr).

(** [float(raw)] and the range test [0 < value <= 86400]. *)
Definition validation_timeout : res spec_float :=
  let raw := default (lit "1800") (environ VALIDATION_TIMEOUT_ENV) in
  value ← of_option (PayloadValidationError "invalid_external_configuration") "invalid_external_configuration" (py_float raw);
  _ ← reject_if (negb (SFltb (S754_zero false) value && SFleb value (float_of_decimal false 86400 0)))
      "invalid_external_configuration";
  mret value.

Definition nonempty (o : option pystr) : bool := match o with Some (_ :: _) => true | _ => false end.

Definition validation_transport : res pystr :=
  let configured := py_lower (py_strip (default (lit "auto") (environ VALIDATION_TRANSPORT_ENV))) in
  _ ← reject_if (negb (bool_decide (configured ∈ [lit "auto"; lit "python"; lit "cli"; lit "rpc"])))
      "invalid_external_configuration";
  if negb (bool_decide (configured = lit "auto")) then mret configured
  else if nonempty (environ VALIDATION_RPC_SOCKET_ENV) then mret (lit "rpc")
  else if nonempty (environ VALIDATION_COMMAND_ENV) then mret (lit "cli")
  else mret (lit "python").

(** [v[k]] with a string subscript. *)
Definition subscript (k : string) (v : json) : res json :=
  match v with
  | JObj d => of_option KeyError k (dict_get (lit k) d)
  | _ => Raise (Exn TypeError "indices must be integers or slices, not str")
  end.

(** [int(v)] and [float(v)] of a decoded value. *)
Definition int_of_json (v : json) : res Z :=
  match v with
  | JBool b => mret (bool_int b)
  | JInt z => mret z
  | JFloat f =>
      match f with
      | S754_nan => Raise (Exn ValueError "cannot convert float NaN to integer")
      | S754_infinity _ => Raise (Exn OverflowError "cannot convert float infinity to integer")
      | _ => of_option ValueError "int" (trunc_float f)
      end
  | JStr s => of_option ValueError "invalid literal for int()" (py_int s)
  | _ => Raise (Exn TypeError "int() argument must be a string or a real number")
  end.
Definition float_of_json (v : json) : res spec_float :=
  match v with
  | JBool b => of_option OverflowError "int too large to convert to float" (float_of_int (bool_int b))
  | JInt z => of_option OverflowError "int too large to convert to float" (float_of_int z)
  | JFloat f => mret f
  | JStr s => of_option ValueError "could not convert string to float" (py_float s)
  | _ => Raise (Exn TypeError "float() argument must be a string or a real number")
  end.

(** [a[k] != v] *)
Definition differs (a : json) (k : string) (v : json) : res bool := x ← subscript k a; mret (negb (py_eq x v)).

(** [c1 or c2 or ...] of raising tests: the first true one decides. *)
Fixpoint any_true (l : list (res bool)) : res bool :=
  match l with
  | [] => mret false
  | m :: l' => b ← m; if b : bool then mret true else any_true l'
  end.

(** [{name: int(v[name]) for name in names}] *)
Definition int_fields (v : json) (names : list string) : res (list (pystr * json)) :=
  mapM (λ n, x ← subscript n v; z ← int_of_json x; mret (lit n, JInt z)) names.

Definition admission_body (admission : json) (blob marker : Path) (sha : pystr) (bytes : Z) : res json :=
  validation ← subscript "validation" admission;
  bad ← any_true [
    differs admission "format" (JInt RECORD_FORMAT); differs admission "kind" (JStr RESULT_KIND);
    differs admission "decision" (JStr (lit "accept")); differs admission "path" (JStr (path_str blob));
    differs admission "bytes" (JInt bytes); differs admission "sha256" (JStr sha);
    differs validation "record" (JStr (path_str marker)); differs validation "provider" (JStr PROVIDER)];
  _ ← raise_if bad ValueError "admission identity differs from the request";
  content ← int_fields validation ["device"; "inode"; "size"; "mtime_ns"]%string;
  diagnostics ← int_fields validation ["ctime_ns"; "uid"; "gid"; "mode"]%string;
  _ ← raise_if (match dict_get (lit "size") content with Some (JInt z) => negb (z =? bytes) | _ => true end)
      ValueError "admission content size differs from the request";
  reason ← subscript "reason" validation;
  evidence ← subscript "content_evidence" validation;
  hashed ← subscript "bytes_hashed" validation ≫= int_of_json;
  secs ← subscript "seconds" validation ≫= float_of_json;
  mret (JObj [
    (lit "format", JInt RECORD_FORMAT); (lit "kind", JStr RESULT_KIND); (lit "provider", JStr PROVIDER);
    (lit "decision", JStr (lit "accept")); (lit "reason", JStr (py_str reason));
    (lit "content_evidence", JStr (py_str evidence)); (lit "bytes_hashed", JInt hashed);
    (lit "seconds", JFloat secs); (lit "record", JStr (path_str marker));
    (lit "content_identity", JObj content); (lit "diagnostic_identity", JObj diagnostics)]).

Definition is_lookup_error (c : exc_class) : bool :=
  bool_decide (c = KeyError) || bool_decide (c = TypeError) || is_value_error c.

Definition normalize_external_admission (admission : json) (blob marker : Path) (sha : pystr) (bytes : Z) : res json :=
  py_except (admission_body admission blob marker sha bytes) is_lookup_error
    (λ _, Raise (reject "invalid_external_admission")).

(** *** The command transport *)

(** [shlex.split]: POSIX quoting, words split at white space. The state is the quote in
    force; [word] is the word being read, if any. [None] is the [ValueError]. *)
Inductive shlex_state := Plain | Quoted (q : N) | Escaped (back : option N).

Fixpoint shlex_go (st : shlex_state) (word : option pystr) (s : pystr) : option (list pystr) :=
  match s with
  | [] =>
      match st with
      | Plain => Some (match word with Some w => [w] | None => [] end)
      | _ => None
      end
  | c :: s' =>
      match st with
      | Plain =>
          if ((c =? 32) || (c =? 9) || (c =? 13) || (c =? 10))%N then
            match word with
            | Some w => cons w <$> shlex_go Plain None s'
            | None => shlex_go Plain None s'
            end
          else if (c =? 92)%N then shlex_go (Escaped None) (Some (default [] word)) s'
          else if ((c =? 39) || (c =? 34))%N then shlex_go (Quoted c) (Some (default [] word)) s'
          else shlex_go Plain (Some (default [] word ++ [c])) s'
      | Quoted q =>
          if (c =? q)%N then shlex_go Plain word s'
          else if (c =? 92)%N && (q =? 34)%N then shlex_go (Escaped (Some q)) word s'
          else shlex_go st (Some (default [] word ++ [c])) s'
      | Escaped None => shlex_go Plain (Some (default [] word ++ [c])) s'
      | Escaped (Some q) =>
          (* inside double quotes a backslash escapes only itself and the quote *)
          let w := default [] word in
          shlex_go (Quoted q) (Some (if (c =? 92)%N || (c =? q)%N then w ++ [c] else w ++ [92%N; c])) s'
      end
  end.
Definition shlex_split (s : pystr) : option (list pystr) := shlex_go Plain None s.

Fixpoint components (word : pystr) (s : pystr) : list pystr :=
  match s with
  | [] => [word]
  | c :: s' => if (c =? 47)%N then word :: components [] s' else components (word ++ [c]) s'
  end.

(** [path.is_absolute() and Path(os.path.normpath(path)) == path]: [Path] has removed
    empty and [.] components, so only a [..] component changes under [normpath]. *)
Definition clean_absolute (p : pystr) : bool :=
  starts_with (lit "/") p && negb (bool_decide (lit ".." ∈ components [] p)).

Definition config_error : exn := reject "invalid_external_configuration".

(** The command line of the validator. *)
Definition cli_command (is_file : pystr → bool) (blob marker : Path) (sha : pystr) (bytes : Z) : res (list pystr) :=
  let configured := default [] (environ VALIDATION_COMMAND_ENV) in
  command ← match shlex_split configured with Some c => mret c | None => Raise config_error end;
  executable ← match command with e :: _ => mret e | [] => Raise config_error end;
  _ ← reject_if (negb (clean_absolute executable) || negb (is_file executable)) "invalid_external_configuration";
  mret (command ++ [lit "--path"; path_str blob; lit "--record"; path_str marker;
                    lit "--expected-sha256"; sha; lit "--expected-bytes"; str_of_Z bytes]).

(** [run] is [subprocess.run]: the return code and standard output, or an exception
    ([TimeoutExpired] is raised as [TimeoutError] here). *)
Definition validate_payload_cli (is_file : pystr → bool) (run : list pystr → spec_float → res (Z * pystr))
    (blob marker : Path) (sha : pystr) (bytes : Z) : res json :=
  command ← cli_command is_file blob marker sha bytes;
  timeout ← validation_timeout;
  '(code, stdout) ← py_except (run command timeout) is_os_error (λ _, Raise (reject "external_validation_failed"));
  _ ← reject_if (negb (code =? 0)) "external_validation_failed";
  admission ← of_option (PayloadValidationError "invalid_external_admission") "invalid_external_admission" (loads stdout);
  normalize_external_admission admission blob marker sha bytes.

(** *** The RPC transport *)

Definition private_token_file (v : stat_result) : bool :=
  S_ISREG (st_mode v) && (shared_bits (st_mode v) =? 0) && (0 <? st_size v) && (st_size v <=? MAX_RPC_TOKEN_BYTES).

(** [_open_private_rpc_token] and the read of at most 4097 bytes behind it. *)
Definition load_token (opened : res stat_result) (data : res pybytes) : res pystr :=
  v ← opened;
  _ ← raise_if (negb (private_token_file v)) OSError "RPC token file must be a small private regular file";
  b ← data;
  s ← of_option UnicodeError "invalid UTF-8" (utf8_decode (take (Z.to_nat (MAX_RPC_TOKEN_BYTES + 1)) b));
  mret (py_strip s).

Definition rpc_token (socket_stat : res stat_result) (opened : res stat_result) (data : res pybytes) : res pystr :=
  token ← py_except
    (v ← socket_stat;
     _ ← raise_if (negb (S_ISSOCK (st_mode v)) || negb (shared_bits (st_mode v) =? 0))
         OSError "RPC socket must be a private Unix socket";
     load_token opened data)
    (λ c, is_os_error c || bool_decide (c = UnicodeError))
    (λ _, Raise config_error);
  _ ← reject_if ((Z.of_nat (length token) <? 16)
                 || existsb (λ c, bool_decide (c ∈ [32; 9; 13; 10; 0]%N)) token) "invalid_external_configuration";
  mret token.

Definition rpc_request (identifier token : pystr) (blob marker : Path) (sha : pystr) (bytes : Z) : json := JObj [
  (lit "format", JInt 1); (lit "id", JStr identifier); (lit "token", JStr token);
  (lit "options", JObj [
     (lit "path", JStr (path_str blob)); (lit "record", JStr (path_str marker));
     (lit "expected_sha256", JStr sha); (lit "expected_bytes", JInt bytes)])].

(** The receive loop; [chunks] are the non-empty results of [recv], an empty one ends it. *)
Fixpoint recv_response (chunks : list pybytes) (received : Z) (acc : pybytes) : res pybytes :=
  match chunks with
  | [] | [] :: _ => mret acc
  | chunk :: chunks' =>
      let received := received + Z.of_nat (length chunk) in
      _ ← reject_if (MAX_RPC_MESSAGE_BYTES <? received) "invalid_external_admission";
      recv_response chunks' received (acc ++ chunk)
  end.

Definition rpc_response_body (identifier : pystr) (data : pybytes) : res json :=
  response ← of_option ValueError "invalid JSON" (utf8_decode data ≫= loads);
  bad ← any_true [differs response "format" (JInt 1); differs response "id" (JStr identifier)];
  _ ← raise_if bad ValueError "response identity differs from the request";
  ok ← subscript "ok" response;
  _ ← reject_if (match ok with JBool true => false | _ => true end) "external_validation_failed";
  subscript "admission" response.

(** [exchange] connects, sends and returns what [recv] delivers, or raises. *)
Definition validate_payload_rpc (socket_stat opened : res stat_result) (token_data : res pybytes)
    (identifier : pystr) (exchange : pybytes → spec_float → res (list pybytes))
    (blob marker : Path) (sha : pystr) (bytes : Z) : res json :=
  let rpc_path := default [] (environ VALIDATION_RPC_SOCKET_ENV) in
  let token_path := default [] (environ VALIDATION_RPC_TOKEN_FILE_ENV) in
  _ ← reject_if (negb (clean_absolute rpc_path) || negb (clean_absolute token_path)) "invalid_external_configuration";
  token ← rpc_token socket_stat opened token_data;
  timeout ← validation_timeout;
  message ← of_option UnicodeError "surrogates not allowed"
    (utf8_encode (dumps canonical_style (rpc_request identifier token blob marker sha bytes)));
  chunks ← py_except (exchange (message ++ [10%N]) timeout) is_os_error
             (λ _, Raise (reject "external_validation_failed"));
  data ← recv_response chunks 0 [];
  admission ← py_except (rpc_response_body identifier data) is_lookup_error
                (λ _, Raise (reject "invalid_external_admission"));
  normalize_external_admission admission blob marker sha bytes.

(** ** Admission *)

(** The validators [validate_payload] dispatches to. *)
Definition validate_payload (blob : Path) (expected_sha256 : pystr) (record_path : option Path) (chunk_bytes : Z)
    (python : pystr → Path → res (json * option pystr)) (cli rpc : pystr → Path → res json)
    : res (json * option pystr) :=
  sha ← normalize_sha256 expected_sha256;
  let marker := default (validation_record_path blob) record_path in
  transport ← validation_transport;
  if bool_decide (transport = lit "python") || negb (bool_decide (marker = validation_record_path blob))
     || negb (chunk_bytes =? DEFAULT_HASH_CHUNK_BYTES)
  then python sha marker
  else if bool_decide (transport = lit "cli") then (λ r, (r, None)) <$> cli sha marker
  else (λ r, (r, None)) <$> rpc sha marker.

(** [verify_validation_record] after [validate_payload] returned [result]: the record in
    the marker extended with the digest and the result. *)
Definition merge_dict (a b : list (pystr * json)) : list (pystr * json) :=
  foldl (λ d kv, dict_set kv.1 kv.2 d) a b.

Definition verify_validation_record (expected_sha256 : pystr) (result : res json) (marker_text : res pystr) : res json :=
  r ← result;
  py_except
    (text ← marker_text;
     record ← of_option ValueError "invalid JSON" (loads text);
     sha ← normalize_sha256 expected_sha256;
     match record with
     | JObj d => mret (JObj (merge_dict d [(lit "sha256", JStr (removeprefix (lit "sha256:") sha)); (lit "validation", r)]))
     | _ => Raise (Exn TypeError "unsupported operand type(s) for |")
     end)
    (λ c, is_os_error c || is_value_error c)
    (λ _, Raise (reject "record_unreadable")).
End external.
