(* ===== verification/ValidationSpec.v ===== *)
(** * Theorems about payload validation

    An admission is backed by evidence: a full hash of the bytes that were read while
    the file's identity held still, or a private record that such a validation wrote
    for the same name, size, digest and identity. *)

From Stdlib Require Import SpecFloat.
From S2P Require Import Prelude PyFloat PyJson PyJsonFacts Hash Validation.

(** ** Digests *)

Lemma removeprefix_app p s : removeprefix p (p ++ s) = s.
Proof.
  unfold removeprefix. assert (starts_with p (p ++ s) = true) as ->; [|by rewrite drop_app_length].
  induction p as [|c p IH]; simpl; [done|]. by rewrite N.eqb_refl.
Qed.

Lemma normalize_Ok v n : normalize_sha256 v = Ok n →
  ∃ d, n = lit "sha256:" ++ d ∧ length d = 64%nat ∧ py_lower d = d ∧ is_Some (fromhex d)
    ∧ d = removeprefix (lit "sha256:") v.
Proof.
  unfold normalize_sha256, reject_if. intros E. res_inv. guards.
  eexists. split_and!; try done. by destruct (fromhex _).
Qed.

(** [normalize_sha256] is idempotent, so admitting an already normalised digest is safe. *)
Lemma normalize_idemp v n : normalize_sha256 v = Ok n → normalize_sha256 n = Ok n.
Proof.
  intros (d & -> & Hl & Hlow & [b Hb] & _)%normalize_Ok.
  unfold normalize_sha256, reject_if. rewrite removeprefix_app, Hb, Hl, Hlow.
  by rewrite !bool_decide_true by done.
Qed.

(** ** Hashing *)

Lemma read_all_spec chunks : read_all chunks = (concat chunks, zsum ((λ c, Z.of_nat (length c)) <$> chunks)).
Proof.
  unfold read_all. assert (∀ a n, foldl (λ acc c, (acc.1 ++ c, acc.2 + Z.of_nat (length c))) (a, n) chunks
    = (a ++ concat chunks, n + zsum ((λ c, Z.of_nat (length c)) <$> chunks))) as H; [|by rewrite H].
  induction chunks as [|c chunks IH]; intros a n; csimpl; [by rewrite app_nil_r, Z.add_0_r|].
  rewrite IH, <- app_assoc. f_equal. lia.
Qed.

(** Two stats with the same content identity. *)
Definition same_identity (a b : stat_result) : Prop :=
  st_dev a = st_dev b ∧ st_ino a = st_ino b ∧ st_size a = st_size b ∧ st_mtime_ns a = st_mtime_ns b.

Lemma py_eq_identity a b : py_eq (content_identity a) (content_identity b) = true ↔ same_identity a b.
Proof.
  assert (py_eq (content_identity a) (content_identity b) =
    (st_dev a =? st_dev b) && ((st_ino a =? st_ino b) && ((st_size a =? st_size b) && ((st_mtime_ns a =? st_mtime_ns b) && true))))
    as -> by reflexivity.
  unfold same_identity. rewrite !andb_true_iff, !Z.eqb_eq. tauto.
Qed.

(** ** Local validation *)

(** C26. A local validation admits only on evidence. If it published a record, the bytes
    it read hash to the expected digest while the content identity did not change, all
    of them are counted, and the published record states that digest, size and the
    current identity. If not, a regular marker that no group or other may access holds
    a record for this name, digest, size and identity. *)
Theorem validate_python_sound blob sha bytes marker chunk o r published :
  validate_payload_python blob sha bytes marker chunk o = Ok (r, published) →
  ∃ n, normalize_sha256 sha = Ok n ∧ st_size (initial_stat o) = bytes
  ∧ match published with
    | Some text =>
        n = lit "sha256:" ++ hexdigest (concat (reads (hashing o)))
        ∧ same_identity (before_stat (hashing o)) (after_stat (hashing o))
        ∧ jget "bytes_hashed" r = Some (JInt (Z.of_nat (length (concat (reads (hashing o))))))
        ∧ st_size (publish_stat o) = bytes
        ∧ text = record_text (make_record blob n bytes (publish_stat o) (lit "full-sha256-this-operation") (now_ns o))
    | None => ∃ mode text record,
        marker_mode o = Ok mode ∧ S_ISREG mode = true ∧ shared_bits mode = 0
        ∧ marker_text o = Ok text ∧ loads text = Some record
        ∧ record_matches (Some record) blob n bytes (content_identity (initial_stat o)) = true
    end.
Proof.
  unfold validate_payload_python. intros E. apply bind_Ok in E as (n & En & E). exists n. split; [done|].
  apply bind_Ok in E as (? & _ & E). apply bind_Ok in E as (? & Hs & E). apply raise_if_Ok in Hs. guards.
  apply Z.eqb_eq in Hs. split; [done|]. apply bind_Ok in E as ([mode_ok record] & Em & E).
  destruct (mode_ok && record_matches record blob n bytes (content_identity (initial_stat o))) eqn:Ec.
  - res_inv. simplify_eq. apply andb_true_iff in Ec as [-> Hmatch].
    unfold read_marker in Em. destruct (marker_mode o) as [mode|e]; [|destruct (_ || _); res_inv; simplify_eq].
    destruct (marker_text o) as [text|e]; [|destruct (_ || _); res_inv; simplify_eq; done].
    res_inv. simplify_eq. destruct (loads text) as [rec|] eqn:El; [|done].
    match goal with H : S_ISREG _ && _ = true |- _ => apply andb_true_iff in H as [? ?%Z.eqb_eq] end. eauto 10.
  - apply bind_Ok in E as ([[digest hashed] value] & Eh & E). apply bind_Ok in E as (? & Hd & E).
    apply raise_if_Ok in Hd. guards. subst digest. apply bind_Ok in E as ([rec text] & Ep & E). res_inv. simplify_eq.
    unfold hash_descriptor in Eh. apply bind_Ok in Eh as (? & _ & Eh). rewrite read_all_spec in Eh.
    apply bind_Ok in Eh as (? & Hi & Eh). apply raise_if_Ok in Hi. apply negb_false_iff, py_eq_identity in Hi.
    res_inv. simplify_eq. unfold publish_validation_record in Ep.
    rewrite (normalize_idemp _ _ En) in Ep. cbn [mbind res_bind] in Ep. apply bind_Ok in Ep as (? & _ & Ep).
    apply bind_Ok in Ep as (? & Hz & Ep). apply raise_if_Ok in Hz. apply negb_false_iff, Z.eqb_eq in Hz.
    apply bind_Ok in Ep as (? & _ & Ep). res_inv. simplify_eq. split_and!; try done.
    simpl. do 2 f_equal. clear. induction (reads (hashing o)); csimpl; [done|]. rewrite length_app. unfold zsum in *. simpl. lia.
Qed.

(** ** The cache *)

Lemma record_exact blob n bytes v ev now :
  forallb scalar (p_name blob) = true → forallb scalar n = true → forallb scalar ev = true →
  exact (make_record blob n bytes v ev now) = true.
Proof.
  intros Hb Hn He. unfold make_record. cbn [exact]. apply andb_true_iff. split; [|by vm_compute].
  cbn [forallb fst snd exact expected_field content_identity diagnostic_identity].
  rewrite Hb, Hn, He. by vm_compute.
Qed.

Definition record_items (blob : Path) (n : pystr) (bytes : Z) (v : stat_result) (ev : pystr) (now : Z)
    : list (list N * json) :=
  match make_record blob n bytes v ev now with JObj d => d | _ => [] end.

Lemma record_items_NoDup blob n bytes v ev now : NoDup (fst <$> record_items blob n bytes v ev now).
Proof. apply has_dups_false. by vm_compute. Qed.

(** One field of a record read back. *)
Lemma field_is_sorted k w l : NoDup (fst <$> l) → field_is k w (py_sorted key_leb (sort_item <$> l))
  = py_eq (default JNull (sort_keys <$> dict_get (lit k) l)) w.
Proof. intros H. unfold field_is. by rewrite dict_get_sort. Qed.

(** A published record is an exact cache key: read back from the marker, it matches
    a request if and only if the request has the same file name, digest, size, device,
    inode and modification time. The digest cannot be reused for replaced bytes, and
    the same unchanged file is never hashed again. *)
Theorem record_round_trip blob n bytes v ev now blob' n' bytes' v' :
  forallb scalar (p_name blob) = true → forallb scalar n = true → forallb scalar ev = true →
  record_matches (loads (record_text (make_record blob n bytes v ev now))) blob' n' bytes' (content_identity v') = true
  ↔ p_name blob = p_name blob' ∧ n = n' ∧ bytes = bytes' ∧ same_identity v v'.
Proof.
  intros Hb Hn He. unfold record_text.
  rewrite loads_dumps_blank; [|exact indent2_style_ok|by apply record_exact|by vm_compute].
  change (make_record blob n bytes v ev now) with (JObj (record_items blob n bytes v ev now)).
  rewrite sort_keys_obj. unfold record_matches. rewrite !field_is_sorted by apply record_items_NoDup.
  set (l := record_items blob n bytes v ev now).
  assert (dict_get (lit "format") l = Some (JInt 1)) as -> by reflexivity.
  assert (dict_get (lit "kind") l = Some (JStr RECORD_KIND)) as -> by reflexivity.
  assert (dict_get (lit "provider") l = Some (JStr PROVIDER)) as -> by reflexivity.
  assert (dict_get (lit "blob") l = Some (JStr (p_name blob))) as -> by reflexivity.
  assert (dict_get (lit "expected") l = Some (expected_field bytes n)) as -> by reflexivity.
  assert (dict_get (lit "content_identity") l = Some (content_identity v)) as -> by reflexivity.
  cbn [fmap option_fmap option_map default from_option id].
  assert (py_eq (sort_keys (JInt 1)) (JInt RECORD_FORMAT) = true) as -> by reflexivity.
  assert (py_eq (sort_keys (JStr RECORD_KIND)) (JStr RECORD_KIND) = true) as -> by reflexivity.
  assert (py_eq (sort_keys (JStr PROVIDER)) (JStr PROVIDER) = true) as -> by reflexivity.
  assert (py_eq (sort_keys (JStr (p_name blob))) (JStr (p_name blob')) = bool_decide (p_name blob = p_name blob')) as -> by reflexivity.
  assert (py_eq (sort_keys (expected_field bytes n)) (expected_field bytes' n') =
    (bytes =? bytes') && (bool_decide (n = n') && true)) as -> by reflexivity.
  assert (py_eq (sort_keys (content_identity v)) (content_identity v') =
    (st_dev v =? st_dev v') && ((st_ino v =? st_ino v') && ((st_mtime_ns v =? st_mtime_ns v') && ((st_size v =? st_size v') && true))))
    as -> by reflexivity.
  unfold same_identity. rewrite !andb_true_iff, !Z.eqb_eq, !bool_decide_eq_true. tauto.
Qed.

(** ** External validation *)

Lemma any_true_false l : any_true l = Ok false → Forall (λ m, m = Ok false) l.
Proof.
  induction l as [|m l IH]; cbn [any_true]; [constructor|]. intros E. res_inv. destruct x; res_inv; [done|].
  constructor; auto.
Qed.

Lemma subscript_Ok k v x : subscript k v = Ok x → ∃ d, v = JObj d ∧ dict_get (lit k) d = Some x.
Proof. destruct v; try done. cbn [subscript]. intros E. res_inv. eauto. Qed.

(** [v[k] == w] *)
Definition has_field (v : json) (k : string) (w : json) : Prop :=
  ∃ d x, v = JObj d ∧ dict_get (lit k) d = Some x ∧ py_eq x w = true.

Lemma differs_false v k w : differs v k w = Ok false → has_field v k w.
Proof.
  unfold differs. intros E. res_inv. apply subscript_Ok in H as (d & -> & Hd).
  match goal with H : negb _ = false |- _ => apply negb_false_iff in H end. by exists d, x.
Qed.

Lemma py_except_Ok {A} (m : res A) c h a : (∀ e, is_ok (h e) = false) → py_except m c h = Ok a → m = Ok a.
Proof.
  intros Hh. destruct m as [b|e]; [done|]. simpl. destruct (c (exc e)); [|done]. intros E. specialize (Hh e). by rewrite E in Hh.
Qed.

Lemma admission_fields py_str adm blob marker sha bytes r :
  normalize_external_admission py_str adm blob marker sha bytes = Ok r →
  has_field adm "format" (JInt 1) ∧ has_field adm "kind" (JStr RESULT_KIND)
  ∧ has_field adm "decision" (JStr (lit "accept")) ∧ has_field adm "path" (JStr (path_str blob))
  ∧ has_field adm "bytes" (JInt bytes) ∧ has_field adm "sha256" (JStr sha)
  ∧ (∃ d v, adm = JObj d ∧ dict_get (lit "validation") d = Some v
      ∧ has_field v "record" (JStr (path_str marker)) ∧ has_field v "provider" (JStr PROVIDER))
  ∧ (jget "content_identity" r ≫= jget "size") = Some (JInt bytes).
Proof.
  unfold normalize_external_admission. intros E%py_except_Ok; [|done]. unfold admission_body in E.
  apply bind_Ok in E as (v & Ev & E). apply bind_Ok in E as (bad & Hbad & E). apply bind_Ok in E as (? & Hb & E).
  apply raise_if_Ok in Hb. subst bad. apply any_true_false in Hbad.
  repeat (apply Forall_cons in Hbad as [?%differs_false Hbad]).
  apply bind_Ok in E as (content & Hc & E). apply bind_Ok in E as (diag & _ & E). apply bind_Ok in E as (? & Hsz & E).
  apply raise_if_Ok in Hsz. res_inv. apply subscript_Ok in Ev as (d & -> & Hv).
  split_and!; try done; [by exists d, v|].
  destruct (dict_get (lit "size") content) as [[]|] eqn:Esz; try done.
  apply negb_false_iff, Z.eqb_eq in Hsz. subst. exact Esz.
Qed.

Lemma recv_response_bound chunks received acc data : received = Z.of_nat (length acc) →
  received <= MAX_RPC_MESSAGE_BYTES → recv_response chunks received acc = Ok data →
  Z.of_nat (length data) <= MAX_RPC_MESSAGE_BYTES.
Proof.
  revert received acc. induction chunks as [|c chunks IH]; intros received acc Hr Hle E; [simpl in E; res_inv; lia|].
  destruct c as [|x c]; [simpl in E; res_inv; lia|]. cbn [recv_response] in E.
  apply bind_Ok in E as (? & Hm & E). apply raise_if_Ok, Z.ltb_ge in Hm.
  eapply IH; [|exact Hm|exact E]. rewrite length_app. lia.
Qed.

(** An admission over RPC is authentic and about this payload: the socket and token
    file were private, the token well formed, the answer within its size limit and
    carrying this request's identifier, and the admission names exactly this path,
    record, size and digest. *)
Theorem validate_rpc_sound environ py_str socket_stat opened token_data identifier exchange blob marker sha bytes r :
  validate_payload_rpc environ py_str socket_stat opened token_data identifier exchange blob marker sha bytes = Ok r →
  ∃ sv tv token message timeout chunks data response admission,
    socket_stat = Ok sv ∧ S_ISSOCK (st_mode sv) = true ∧ shared_bits (st_mode sv) = 0
    ∧ opened = Ok tv ∧ private_token_file tv = true ∧ 16 <= Z.of_nat (length token)
    ∧ utf8_encode (dumps canonical_style (rpc_request identifier token blob marker sha bytes)) = Some message
    ∧ exchange (message ++ [10%N]) timeout = Ok chunks ∧ recv_response chunks 0 [] = Ok data
    ∧ Z.of_nat (length data) <= MAX_RPC_MESSAGE_BYTES
    ∧ (utf8_decode data ≫= loads) = Some response ∧ has_field response "id" (JStr identifier)
    ∧ subscript "ok" response = Ok (JBool true) ∧ subscript "admission" response = Ok admission
    ∧ has_field admission "path" (JStr (path_str blob)) ∧ has_field admission "bytes" (JInt bytes)
    ∧ has_field admission "sha256" (JStr sha).
Proof.
  unfold validate_payload_rpc. intros E. apply bind_Ok in E as (? & _ & E).
  apply bind_Ok in E as (token & Ht & E). apply bind_Ok in E as (timeout & _ & E).
  apply bind_Ok in E as (message & Hmsg & E). apply of_option_Ok in Hmsg.
  apply bind_Ok in E as (chunks & Hx & E). apply py_except_Ok in Hx; [|done].
  apply bind_Ok in E as (data & Hd & E). apply bind_Ok in E as (admission & Ha & E).
  apply py_except_Ok in Ha; [|done]. unfold rpc_response_body in Ha.
  apply bind_Ok in Ha as (response & Hr & Ha). apply of_option_Ok in Hr.
  apply bind_Ok in Ha as (bad & Hbad & Ha). apply bind_Ok in Ha as (? & Hb & Ha). apply raise_if_Ok in Hb. subst bad.
  apply any_true_false in Hbad. repeat (apply Forall_cons in Hbad as [?%differs_false Hbad]).
  apply bind_Ok in Ha as (okv & Hok & Ha). apply bind_Ok in Ha as (? & Hz & Ha). apply raise_if_Ok in Hz.
  destruct okv as [|[]| | | | |]; try done.
  unfold rpc_token in Ht. apply bind_Ok in Ht as (token' & Ht & Ht2). apply py_except_Ok in Ht; [|done].
  apply bind_Ok in Ht as (sv & Hsv & Ht). apply bind_Ok in Ht as (? & Hs & Ht). apply raise_if_Ok in Hs. guards.
  match goal with H : (shared_bits _ =? 0) = true |- _ => apply Z.eqb_eq in H end. unfold load_token in Ht. apply bind_Ok in Ht as (tv & Htv & Ht).
  apply bind_Ok in Ht as (? & Hp & Ht). apply raise_if_Ok, negb_false_iff in Hp.
  apply bind_Ok in Ht2 as (? & Hl & Ht2). apply raise_if_Ok in Hl. guards.
  match goal with H : (_ <? 16) = false |- _ => apply Z.ltb_ge in H end. injection Ht2 as ->.
  apply admission_fields in E as (_ & _ & _ & ? & ? & ? & _).
  exists sv, tv, token, message, timeout, chunks, data, response, admission. split_and!; try done.
  by eapply recv_response_bound; [| |exact Hd].
Qed.

(** ** Errors of an external admission *)

(** The string subset of [str]. *)
Definition str_of_string (v : json) : pystr := match v with JStr s => s | _ => [] end.

Definition sample_blob : Path := MkPath (lit "/snap/") (lit "weights.bin").
Definition sample_marker : Path := validation_record_path sample_blob.
Definition sample_sha : pystr := Eval vm_compute in lit "sha256:" ++ hexdigest (lit "abc").

Definition admission_text (device : string) : pystr :=
  jtext ("{'format':1,'kind':'coldsnap-payload-validation-result','decision':'accept','path':'/snap/weights.bin',"
  ++ "'bytes':3,'sha256':'")%string ++ sample_sha ++ jtext ("','validation':{'provider':'sha256-cache-v1',"
  ++ "'record':'/snap/weights.bin.coldsnap-validation.json','device':" ++ device
  ++ ",'inode':5,'size':3,'mtime_ns':7,'ctime_ns':8,'uid':0,'gid':0,'mode':420,"
  ++ "'reason':'cached_validation','content_evidence':'cached-full-sha256','bytes_hashed':0,'seconds':0.25}}")%string.

Lemma any_true_class l e : any_true l = Raise e → ∃ m, m ∈ l ∧ m = Raise e.
Proof.
  induction l as [|m l IH]; cbn [any_true]; [done|]. destruct m as [[]|e']; cbn [mbind res_bind]; [done| |].
  - intros E. apply IH in E as (m & ? & ?). exists m. split; [by right|done].
  - intros [= ->]. exists (Raise e). split; [left|done].
Qed.

(** Exceptions of the pieces: lookups raise what the handler catches, conversions may
    also overflow. *)
Definition caught (c : exc_class) : Prop := is_lookup_error c = true.
Definition caught_or_overflow (c : exc_class) : Prop := caught c ∨ c = OverflowError.

Lemma subscript_class k v e : subscript k v = Raise e → caught (exc e).
Proof. destruct v; cbn [subscript]; [intros [= <-]; done..|]. unfold of_option. destruct (dict_get _ _); [done|]. by intros [= <-]. Qed.

Lemma bind_Raise {A B} (m : res A) (f : A → res B) e : (m ≫= f) = Raise e →
  m = Raise e ∨ ∃ a, m = Ok a ∧ f a = Raise e.
Proof. destruct m as [a|e']; simpl; [eauto|]. intros [= ->]. by left. Qed.

Lemma int_of_json_class v e : int_of_json v = Raise e → caught_or_overflow (exc e).
Proof.
  destruct v as [|b|z|f|s|l|l]; cbn [int_of_json]; try done; try (intros [= <-]; by left).
  - destruct f; try (intros [= <-]; (by left) || by right). unfold of_option. destruct (trunc_float _); [done|]. intros [= <-]. by left.
  - unfold of_option. destruct (py_int s); [done|]. intros [= <-]. by left.
Qed.

Lemma float_of_json_class v e : float_of_json v = Raise e → caught_or_overflow (exc e).
Proof.
  destruct v as [|b|z|f|s|l|l]; cbn [float_of_json]; try done; try (intros [= <-]; by left); unfold of_option.
  - destruct (float_of_int _); [done|]. intros [= <-]. by right.
  - destruct (float_of_int _); [done|]. intros [= <-]. by right.
  - destruct (py_float s); [done|]. intros [= <-]. by left.
Qed.

Lemma int_fields_class v names e : int_fields v names = Raise e → caught_or_overflow (exc e).
Proof.
  unfold int_fields. induction names as [|n names IH]; [done|]. simpl mapM. intros E.
  apply bind_Raise in E as [E|(x & _ & E)].
  - apply bind_Raise in E as [E|(y & _ & E)]; [left; by eapply subscript_class|].
    apply bind_Raise in E as [E|(z & _ & E)]; [by eapply int_of_json_class|done].
  - apply bind_Raise in E as [E|(y & _ & E)]; [by apply IH|done].
Qed.

(** What a malformed admission can raise: a [PayloadValidationError] with reason
    [invalid_external_admission], or an [OverflowError] of a number conversion, which
    the handler does not catch; the JSON text [Infinity] for a device number makes the
    latter happen. *)
Theorem external_admission_errors :
  (∀ py_str adm blob marker sha bytes e,
     normalize_external_admission py_str adm blob marker sha bytes = Raise e →
     exc e = PayloadValidationError "invalid_external_admission" ∨ exc e = OverflowError)
  ∧ (loads (admission_text "Infinity") ≫= λ adm,
       match normalize_external_admission str_of_string adm sample_blob sample_marker sample_sha 3 with
       | Raise e => Some (exc e) | Ok _ => None end) = Some OverflowError.
Proof.
  split; [|by vm_compute]. intros py_str adm blob marker sha bytes e. unfold normalize_external_admission, py_except.
  destruct (admission_body py_str adm blob marker sha bytes) as [r|e'] eqn:E; [done|].
  assert (caught_or_overflow (exc e')) as Hc.
  2: { destruct (is_lookup_error (exc e')) eqn:Ec; [intros [= <-]; by left|].
       intros [= <-]. destruct Hc as [Hc|?]; [unfold caught in Hc; congruence|by right]. }
  unfold admission_body in E. apply bind_Raise in E as [E|(v & _ & E)]; [left; by eapply subscript_class|].
  apply bind_Raise in E as [E|(bad & _ & E)].
  { apply any_true_class in E as (m & Hm & Em). left.
    assert (∃ a k w, m = differs a k w) as (a & k & w & ->).
    { repeat (apply elem_of_cons in Hm as [->|Hm]; [by eexists _, _, _|]). by apply elem_of_nil in Hm. }
    unfold differs in Em. apply bind_Raise in Em as [Em|(x & _ & Em)]; [by eapply subscript_class|done]. }
  apply bind_Raise in E as [E|(? & _ & E)]; [destruct bad; [injection E as <-; by left|done]|].
  apply bind_Raise in E as [E|(content & _ & E)]; [by eapply int_fields_class|].
  apply bind_Raise in E as [E|(diag & _ & E)]; [by eapply int_fields_class|].
  apply bind_Raise in E as [E|(? & _ & E)].
  { unfold raise_if in E. destruct (match dict_get _ _ with Some _ => _ | None => _ end); [injection E as <-; by left|done]. }
  apply bind_Raise in E as [E|(reason & _ & E)]; [left; by eapply subscript_class|].
  apply bind_Raise in E as [E|(evidence & _ & E)]; [left; by eapply subscript_class|].
  apply bind_Raise in E as [E|(hashed & _ & E)].
  { apply bind_Raise in E as [E|(v0 & _ & E)]; [left; by eapply subscript_class|by eapply int_of_json_class]. }
  apply bind_Raise in E as [E|(secs & _ & E)]; [|done].
  apply bind_Raise in E as [E|(v0 & _ & E)]; [left; by eapply subscript_class|by eapply float_of_json_class].
Qed.

(** ** Witnesses *)

Definition sample_stat : stat_result := Stat 1 5 3 7 8 0 0 0x81A4.
Definition other_stat : stat_result := Stat 1 6 3 7 8 0 0 0x81A4.

(** A first validation without a marker: the bytes [abc] arrive in two reads. *)
Definition first_run : observation := Observation (Ok 0x81A4) sample_stat
  (Raise (Exn FileNotFoundError "marker")) (Raise (Exn FileNotFoundError "marker"))
  (Descriptor sample_stat [lit "a"; lit "bc"] sample_stat) (Ok 0x81A4) sample_stat (Ok tt) 99 (S754_zero false).

Definition first_text : pystr := Eval vm_compute in
  record_text (make_record sample_blob sample_sha 3 sample_stat (lit "full-sha256-this-operation") 99).
Definition first_result : json := Eval vm_compute in
  validation_result "revalidated_existing" "full-sha256-this-operation" 3 (S754_zero false) sample_marker
    (content_identity sample_stat) (diagnostic_identity sample_stat).

Lemma first_run_accepts :
  validate_payload_python sample_blob sample_sha 3 sample_marker 4096 first_run = Ok (first_result, Some first_text).
Proof. by vm_compute. Qed.

Lemma validate_python_sound_witness :
  ∃ n, normalize_sha256 sample_sha = Ok n ∧ st_size (initial_stat first_run) = 3 ∧
    n = lit "sha256:" ++ hexdigest (concat (reads (hashing first_run))).
Proof.
  destruct (validate_python_sound sample_blob sample_sha 3 sample_marker 4096 first_run first_result (Some first_text)
    first_run_accepts) as (n & Hn & Hs & Hd & _).
  exact (ex_intro _ n (conj Hn (conj Hs Hd))).
Defined.

Lemma record_round_trip_witness :
  record_matches (loads (record_text (make_record sample_blob sample_sha 3 sample_stat (lit "e") 99)))
    sample_blob sample_sha 3 (content_identity sample_stat) = true
  ∧ ¬ record_matches (loads (record_text (make_record sample_blob sample_sha 3 sample_stat (lit "e") 99)))
    sample_blob sample_sha 3 (content_identity other_stat) = true.
Proof.
  split.
  - apply (record_round_trip sample_blob sample_sha 3 sample_stat (lit "e") 99 sample_blob sample_sha 3 sample_stat);
      [by vm_compute..|done].
  - intros H. apply (record_round_trip sample_blob sample_sha 3 sample_stat (lit "e") 99 sample_blob sample_sha 3 other_stat) in H;
      [|by vm_compute..]. destruct H as (_ & _ & _ & _ & H & _). discriminate H.
Defined.

Definition rpc_environ (k : pystr) : option pystr :=
  if bool_decide (k = VALIDATION_RPC_SOCKET_ENV) then Some (lit "/run/v.sock")
  else if bool_decide (k = VALIDATION_RPC_TOKEN_FILE_ENV) then Some (lit "/run/v.token") else None.
Definition rpc_answer : pystr := Eval vm_compute in
  jtext "{'format':1,'id':'r1','ok':true,'admission':" ++ admission_text "1" ++ jtext "}".
Definition rpc_run := validate_payload_rpc rpc_environ str_of_string (Ok (Stat 0 0 0 0 0 0 0 0xC180))
  (Ok (Stat 0 0 17 0 0 0 0 0x8180)) (Ok (lit "0123456789abcdef
")) (lit "r1") (λ _ _, Ok [take 40 rpc_answer; drop 40 rpc_answer]) sample_blob sample_marker sample_sha 3.
Definition rpc_result : json := Eval vm_compute in ok_or JNull rpc_run.

Lemma rpc_run_accepts : rpc_run = Ok rpc_result.
Proof. by vm_compute. Qed.

Lemma validate_rpc_sound_witness : ∃ admission, has_field admission "sha256" (JStr sample_sha).
Proof.
  destruct (validate_rpc_sound rpc_environ str_of_string (Ok (Stat 0 0 0 0 0 0 0 0xC180))
    (Ok (Stat 0 0 17 0 0 0 0 0x8180)) (Ok (lit "0123456789abcdef
")) (lit "r1") (λ _ _, Ok [take 40 rpc_answer; drop 40 rpc_answer]) sample_blob sample_marker sample_sha 3 rpc_result
    rpc_run_accepts) as (? & ? & ? & ? & ? & ? & ? & ? & admission & H).
  do 16 destruct H as [_ H]. exact (ex_intro _ admission H).
Defined.
