(* ===== verification/Artifact.v ===== *)
(** * Semantic tensor artifacts ([coldsnap_core/artifact.py])

    Capturing the registered CUDA storages of a model into one blob with a manifest, and
    restoring them, by name and layout, into the storages of another process. Device
    memory is a function from addresses to bytes, the artifact directory a map from
    file names to contents. The local file system is assumed not to fail; the locks
    that serialise captures with restores are left out. *)

From S2P Require Import Prelude PyFloat PyJson Hash Hydration Validation.

Definition ARTIFACT_FORMAT : Z := 1.
Definition ARTIFACT_KIND := lit "coldsnap-pytorch-semantic-weights".
Definition ALIGNMENT : Z := 4096.

Definition align (value : Z) : Z := (value + ALIGNMENT - 1) / ALIGNMENT * ALIGNMENT.

(** ** Device memory *)

Definition memory : Type := Z → N.
Definition mread (m : memory) (p n : Z) : pybytes := m <$> seqZ p n.
Definition mwrite (m : memory) (p : Z) (data : pybytes) : memory := λ a,
  if (p <=? a) && (a <? p + Z.of_nat (length data)) then default 0%N (data !! Z.to_nat (a - p)) else m a.

(** ** Models *)

Record storage := Storage { s_data_ptr : Z; s_nbytes : Z }.

Record tensor := Tensor {
  t_cuda : bool; t_index : option Z; dtype : pystr; shape : list Z; stride : list Z;
  t_data_ptr : Z; numel : Z; element_size : Z; untyped_storage : storage;
}.

Record model := Model {
  named_parameters : list (pystr * tensor);
  named_buffers : list (pystr * tensor);
  named_modules : list (pystr * list pystr);
}.

(** [nonpersistent_buffers]: the full names of the buffers each module marks. *)
Definition non_persistent (m : model) : list pystr :=
  concat ((λ ml : pystr * list pystr, (λ local, if bool_decide (ml.1 = []) then local else ml.1 ++ lit "." ++ local) <$> ml.2) <$> named_modules m).

Fixpoint register_tensors (kind : string) (skip : list pystr) (l : list (pystr * tensor)) (acc : list (pystr * tensor))
    : res (list (pystr * tensor)) :=
  match l with
  | [] => mret acc
  | (name, t) :: l' =>
      if bool_decide (name ∈ skip) then register_tensors kind skip l' acc
      else if t_cuda t && (0 <? numel t) then
        let key := lit kind ++ lit ":" ++ name in
        _ ← raise_if (bool_decide (key ∈ acc.*1)) ArtifactError "duplicate registered tensor";
        register_tensors kind skip l' (acc ++ [(key, t)])
      else register_tensors kind skip l' acc
  end.

(** [_registered_cuda_tensors]; only buffers are checked against the non-persistent set. *)
Definition registered_cuda_tensors (m : model) : res (list (pystr * tensor)) :=
  params ← register_tensors "parameter" [] (named_parameters m) [];
  tensors ← register_tensors "buffer" (non_persistent m) (named_buffers m) params;
  _ ← raise_if (bool_decide (length tensors = 0%nat)) ArtifactError "model has no registered CUDA tensors";
  mret tensors.

Definition JInts (l : list Z) : json := JArr (JInt <$> l).

Definition tensor_reference (name : pystr) (t : tensor) (storage_pointer : Z) : json := JObj [
  (lit "name", JStr name); (lit "dtype", JStr (dtype t)); (lit "shape", JInts (shape t));
  (lit "stride", JInts (stride t)); (lit "storage_offset_bytes", JInt (t_data_ptr t - storage_pointer));
  (lit "nbytes", JInt (numel t * element_size t))].

(** [(pointer, nbytes, device_index)] of a tensor's storage. *)
Definition storage_key (t : tensor) : Z * Z * Z :=
  (s_data_ptr (untyped_storage t), s_nbytes (untyped_storage t), default 0 (t_index t)).

Definition group : Type := (Z * Z * Z) * (tensor * list json).

(** [groups[key]]: appended to, or created in last place. *)
Fixpoint add_to_group (key : Z * Z * Z) (t : tensor) (ref : json) (gs : list group) : list group :=
  match gs with
  | [] => [(key, (t, [ref]))]
  | (k, (t0, refs)) :: gs' =>
      if decide (k = key) then (k, (t0, refs ++ [ref])) :: gs' else (k, (t0, refs)) :: add_to_group key t ref gs'
  end.

Definition name_leb (a b : pystr * tensor) : bool := str_leb a.1 b.1.

(** [item[1][0]["name"]] *)
Definition group_name (g : tensor * list json) : pystr :=
  match g.2 with
  | JObj d :: _ => match dict_get (lit "name") d with Some (JStr s) => s | _ => [] end
  | _ => []
  end.
Definition group_leb (a b : tensor * list json) : bool := str_leb (group_name a) (group_name b).

Definition group_tensors (tensors : list (pystr * tensor)) : list group :=
  foldl (λ gs nt, add_to_group (storage_key nt.2) nt.2
                    (tensor_reference nt.1 nt.2 (s_data_ptr (untyped_storage nt.2))) gs)
    [] (py_sorted name_leb tensors).

Definition storage_groups (m : model) : res (list (tensor * list json)) :=
  tensors ← registered_cuda_tensors m;
  mret (py_sorted group_leb (snd <$> group_tensors tensors)).

(** ** Identity *)

(** A line of [_identity_mismatches], with the path it names. *)
Inductive mismatch := Unexpected (path : pystr) | Missing (path : pystr) | Differs (path : pystr).

(** [sorted(expected.keys() | actual.keys())] *)
Definition key_union (a b : list (pystr * json)) : list pystr := sorted_set str_leb (a.*1 ++ b.*1).

(** [_identity_mismatches]; [fuel] bounds the nesting, which [json_depth] measures. *)
Fixpoint identity_mismatches (fuel : nat) (expected actual : json) (path : pystr) : list mismatch :=
  match fuel with
  | O => [Differs path]
  | S fuel' =>
      match expected, actual with
      | JObj e, JObj a =>
          concat ((λ key,
            let child := path ++ lit "." ++ key in
            match dict_get key e, dict_get key a with
            | None, _ => [Unexpected child]
            | _, None => [Missing child]
            | Some x, Some y => identity_mismatches fuel' x y child
            end) <$> key_union e a)
      | _, _ => if py_eq expected actual then [] else [Differs path]
      end
  end.

Fixpoint json_depth (v : json) : nat :=
  match v with
  | JObj l => S (foldr (λ kv n, Nat.max (json_depth kv.2) n) 0%nat l)
  | _ => 1%nat
  end.

Definition mismatches (expected actual : json) (path : pystr) : list mismatch :=
  identity_mismatches (json_depth expected) expected actual path.

(** ** Manifests *)

(** The artifact directory: the manifest's bytes and the blob's, if present. *)
Record directory := Directory { manifest_file : option pybytes; blob_file : option pybytes }.

(** [value.get(k)] where [value] must be a dictionary. *)
Definition getattr_get (k : string) (v : json) : res (option json) :=
  match v with JObj d => mret (dict_get (lit k) d) | _ => Raise (Exn AttributeError "object has no attribute 'get'") end.

Definition opt_is (o : option json) (v : json) : bool := py_eq (default JNull o) v.

(** [load_manifest]; [blob] is the size of the file the caller selected instead of the
    artifact's own, if it did. *)
Definition load_manifest (d : directory) (identity : option json) (external_blob : option (option Z)) (blob_offset : Z)
    : res json :=
  text ← of_option ArtifactError "artifact manifest is missing" (manifest_file d);
  decoded ← of_option UnicodeError "invalid UTF-8" (utf8_decode text);
  manifest ← of_option ArtifactError "cannot read artifact manifest" (loads decoded);
  format ← getattr_get "format" manifest;
  kind ← (if opt_is format (JInt ARTIFACT_FORMAT) then getattr_get "kind" manifest else mret None);
  _ ← raise_if (negb (opt_is format (JInt ARTIFACT_FORMAT)) || negb (opt_is kind (JStr ARTIFACT_KIND)))
      ArtifactError "artifact format or kind is incompatible";
  stored ← getattr_get "identity" manifest;
  _ ← match identity with
      | None => mret tt
      | Some i => raise_if (negb (bool_decide (length (mismatches i (default JNull stored) (lit "identity")) = 0%nat)))
                    ArtifactError "artifact compatibility mismatch"
      end;
  _ ← raise_if (blob_offset <? 0) ArtifactError "artifact blob offset cannot be negative";
  size ← of_option ArtifactError "artifact blob is missing"
    (match external_blob with
     | None => (λ b, Z.of_nat (length b)) <$> blob_file d
     | Some size => size
     end);
  bytes ← getattr_get "blob_bytes" manifest;
  n ← int_of_json (default (JInt (-1)) bytes);
  let expected_end := blob_offset + n in
  _ ← raise_if (match external_blob with None => negb (size =? expected_end) | Some _ => size <? expected_end end)
      ArtifactError "artifact blob size mismatch";
  mret manifest.

Definition is_compatible (d : directory) (identity : json) : res bool :=
  match load_manifest d (Some identity) None 0 with
  | Ok _ => mret true
  | Raise e => if bool_decide (exc e = ArtifactError) then mret false else Raise e
  end.

(** The exceptions caught by [except RuntimeError]. *)
Definition is_runtime_error (c : exc_class) : bool :=
  match c with RuntimeError | ArtifactError | PayloadValidationError _ => true | _ => false end.

(** [verify_preverified]: [validate] is [validate_payload] on the blob for a digest, and
    [marker_text] the marker read afterwards. *)
Definition verify_preverified (py_str : json → pystr) (validate : pystr → res json) (marker_text : res pystr)
    (manifest : json) : res json :=
  py_except
    (v ← getattr_get "blob_sha256" manifest;
     let sha := match v with None => [] | Some (JStr s) => s | Some w => py_str w end in
     verify_validation_record sha (validate sha) marker_text)
    (λ c, is_os_error c || is_runtime_error c || is_value_error c)
    (λ _, Raise (Exn ArtifactError "preverified artifact admission failed")).

(** ** Capture *)

(** [(tensor, refs, offset, storage_bytes)] *)
Definition placed : Type := tensor * list json * Z * Z.

Fixpoint layout_from (position : Z) (groups : list (tensor * list json)) : list placed * Z :=
  match groups with
  | [] => ([], position)
  | (t, refs) :: groups' =>
      let offset := align position in
      let nbytes := s_nbytes (untyped_storage t) in
      let '(rest, total) := layout_from (offset + nbytes) groups' in
      ((t, refs, offset, nbytes) :: rest, total)
  end.

Definition zeros (n : Z) : pybytes := replicate (Z.to_nat n) 0%N.

(** Bytes of a file from [pos] on replaced by [data]; a gap is filled with zeros. *)
Definition file_write (f : pybytes) (pos : Z) (data : pybytes) : pybytes :=
  let f' := f ++ zeros (pos - Z.of_nat (length f)) in
  take (Z.to_nat pos) f' ++ data ++ drop (Z.to_nat pos + length data) f'.

(** An unbuffered file, the bytes fed to the two SHA-256 objects, and the CRC. *)
Record writer := Writer { w_file : pybytes; w_pos : Z; w_storage : pybytes; w_blob : pybytes; w_crc : N }.

Section capture.
(** One [write] transfers at most [write_limit] bytes (0x7ffff000 on Linux) and returns
    the count, which the code ignores. *)
Context (write_limit : Z).

Definition raw_write (f : pybytes) (pos : Z) (data : pybytes) : pybytes * Z :=
  let sent := take (Z.to_nat write_limit) data in
  (file_write f pos sent, pos + Z.of_nat (length sent)).

(** The [while copied < storage_bytes] loop; each round copies at least one byte, so
    [storage_bytes] rounds suffice. *)
Fixpoint copy_out (fuel : nat) (stage_size : Z) (raw : pybytes) (copied : Z) (w : writer) : writer :=
  match fuel with
  | O => w
  | S fuel' =>
      if copied <? Z.of_nat (length raw) then
        let count := Z.min stage_size (Z.of_nat (length raw) - copied) in
        let view := take (Z.to_nat count) (drop (Z.to_nat copied) raw) in
        let '(f, pos) := raw_write (w_file w) (w_pos w) view in
        copy_out fuel' stage_size raw (copied + count)
          (Writer f pos (w_storage w ++ view) (w_blob w ++ view) (crc32 view (w_crc w)))
      else w
  end.

Definition entry_json (offset nbytes : Z) (crc sha : pystr) (refs : list json) : json := JObj [
  (lit "offset", JInt offset); (lit "nbytes", JInt nbytes); (lit "crc32", JStr crc);
  (lit "sha256", JStr sha); (lit "refs", JArr refs)].

(** The loop over the layout: file, hashed bytes, position hashed so far, entries. *)
Fixpoint write_storages (stage_size : Z) (m : memory) (layout : list placed) (f blob : pybytes) (written : Z)
    : pybytes * pybytes * list json :=
  match layout with
  | [] => (f, blob, [])
  | (t, refs, offset, nbytes) :: layout' =>
      let '(f1, blob1) :=
        if negb (offset =? written) then
          let padding := zeros (offset - written) in
          ((raw_write f written padding).1, blob ++ padding)
        else (f, blob) in
      let raw := mread m (s_data_ptr (untyped_storage t)) nbytes in
      let w := copy_out (Z.to_nat nbytes) stage_size raw 0 (Writer f1 offset [] blob1 0) in
      let entry := entry_json offset nbytes (crc_hex (w_crc w)) (hexdigest (w_storage w)) refs in
      let '(f2, blob2, entries) := write_storages stage_size m layout' (w_file w) (w_blob w) (offset + nbytes) in
      (f2, blob2, entry :: entries)
  end.

(** [max(...)] of a non-empty list. *)
Definition py_max (l : list Z) : res Z :=
  match l with [] => Raise (Exn ValueError "max() arg is an empty sequence") | x :: l' => mret (foldl Z.max x l') end.

(** The Python branch: the blob's bytes, its digest, the entries. *)
Definition capture_python (chunk_bytes : Z) (m : memory) (groups : list (tensor * list json))
    (layout : list placed) (total : Z) : res (pybytes * pystr * list json) :=
  largest ← py_max ((λ g, s_nbytes (untyped_storage g.1)) <$> groups);
  let stage_size := Z.min chunk_bytes largest in
  let '(f, blob, entries) := write_storages stage_size m layout (zeros total) [] 0 in
  mret (f, hexdigest blob, entries).

Definition canonical_bytes (v : json) : pybytes := dumps canonical_style v.

Definition manifest_json (identity : json) (blob_bytes : Z) (blob_sha256 : pystr) (entries : list json) : json := JObj [
  (lit "format", JInt ARTIFACT_FORMAT); (lit "kind", JStr ARTIFACT_KIND); (lit "identity", identity);
  (lit "identity_sha256", JStr (hexdigest (canonical_bytes identity)));
  (lit "blob", JStr (lit "weights.blob")); (lit "blob_bytes", JInt blob_bytes);
  (lit "blob_sha256", JStr blob_sha256); (lit "storages", JArr entries)].

Record ArtifactMetrics := AMetrics { am_operation : pystr; am_backend : pystr; am_bytes : Z; am_storages : Z }.

(** The native branch. [native] is what [capture_from_env] returned; [blob_after] is the
    temporary blob the library wrote. *)
Definition capture_extents (layout : list placed) : res (list CaptureExtent) :=
  mapM (λ p, let '(t, _, offset, nbytes) := p in
     CaptureExtent_new (CExtent offset (s_data_ptr (untyped_storage t)) nbytes (lit "crc32+sha256"))) layout.

Definition native_entry (pd : placed * CaptureDigest) : res json :=
  let '((_, refs, offset, nbytes), d) := pd in
  match d_crc32 d, d_sha256 d with
  | Some crc, Some sha => mret (entry_json offset nbytes crc sha refs)
  | _, _ => Raise (Exn ArtifactError "native capture omitted requested digests")
  end.

Definition first_device (layout : list placed) : Z :=
  match layout with (t, _, _, _) :: _ => default 0 (t_index t) | [] => 0 end.

Definition capture_native {W} (lib : library W) (backend : pystr) (blob_after : W → pybytes) (path : pybytes)
    (chunk_bytes queue_depth : Z) (layout : list placed) (total : Z) (w : W)
    : res (pystr * pybytes * pystr * list json) * W :=
  match (_ ← raise_if (negb (chunk_bytes mod ALIGNMENT =? 0)) ValueError "native capture chunk size must be 4096-byte aligned";
         capture_extents layout) with
  | Raise e => (Raise e, w)
  | Ok extents =>
      let '(r, w') := Hydration.capture lib path extents backend chunk_bytes queue_depth (first_device layout) true false false w in
      (result ← r;
       _ ← raise_if (negb (k_bytes (metrics result) =? zsum ((λ p : placed, p.2) <$> layout))
                     || negb (k_file_bytes (metrics result) =? total)
                     || bool_decide (Hydration.file_sha256 result = None))
           ArtifactError "native capture returned an invalid byte contract";
       sha ← of_option AssertionError "file_sha256" (Hydration.file_sha256 result);
       _ ← raise_if (negb (bool_decide (length layout = length (digests result))))
           ValueError "zip() argument lengths differ";
       entries ← mapM native_entry (zip layout (digests result));
       mret (k_backend (metrics result), blob_after w', sha, entries), w')
  end.

(** [int(entry["nbytes"])] of an entry just built. *)
Definition entry_nbytes (entry : json) : Z :=
  match jget "nbytes" entry with Some (JInt z) => z | _ => 0 end.

(** The common end of [capture]: the manifest, and both files in place. *)
Definition publish (identity : json) (blob : pybytes) (blob_sha256 : pystr) (total : Z) (backend : pystr)
    (entries : list json) : directory * ArtifactMetrics :=
  (Directory (Some (canonical_bytes (manifest_json identity total blob_sha256 entries) ++ [10%N])) (Some blob),
   AMetrics (lit "capture") backend (zsum (entry_nbytes <$> entries)) (Z.of_nat (length entries))).

(** The checks of [capture], the storages and where they go. *)
Definition capture_plan (d : directory) (mdl : model) (identity : json) (chunk_bytes queue_depth : Z)
    (replace : bool) : res (list (tensor * list json) * list placed * Z) :=
  _ ← raise_if (chunk_bytes <=? 0) ValueError "capture chunk size must be positive";
  _ ← raise_if (negb ((1 <=? queue_depth) && (queue_depth <=? 64))) ValueError "capture queue depth must be between 1 and 64";
  _ ← (if replace then mret tt else
       match load_manifest d (Some identity) None 0 with
       | Ok _ => Raise (Exn ArtifactError "a compatible artifact already exists")
       | Raise e => if bool_decide (exc e = ArtifactError) then mret tt else Raise e
       end);
  groups ← storage_groups mdl;
  let '(layout, total) := layout_from 0 groups in
  mret (groups, layout, total).

(** [SemanticTensorArtifact.capture]: [native] is the outcome of [capture_from_env]. *)
Definition capture_artifact {W} (native : res (option (library W * pystr))) (blob_after : W → pybytes) (path : pybytes)
    (d : directory) (mdl : model) (m : memory) (identity : json) (chunk_bytes queue_depth : Z) (replace : bool) (w : W)
    : res (directory * ArtifactMetrics) * W :=
  match (p ← capture_plan d mdl identity chunk_bytes queue_depth replace; n ← native; mret (p, n)) with
  | Raise e => (Raise e, w)
  | Ok (groups, layout, total, Some (lib, backend)) =>
      let '(r, w') := capture_native lib backend blob_after path chunk_bytes queue_depth layout total w in
      ('(used, blob, sha, entries) ← r; mret (publish identity blob sha total used entries), w')
  | Ok (groups, layout, total, None) =>
      ('(blob, sha, entries) ← capture_python chunk_bytes m groups layout total;
       mret (publish identity blob sha total (lit "python") entries), w)
  end.
End capture.

(** ** Matching a manifest with a model *)

Fixpoint tensor_lookup (k : pystr) (l : list (pystr * tensor)) : option tensor :=
  match l with
  | [] => None
  | (k', t) :: l' => if decide (k' = k) then Some t else tensor_lookup k l'
  end.

(** [name not in tensors] and the lookup; a list or dictionary is not hashable. *)
Definition find_tensor (tensors : list (pystr * tensor)) (name : json) : res (pystr * tensor) :=
  match name with
  | JStr s => (λ t, (s, t)) <$> of_option ArtifactError "fresh model is missing tensor" (tensor_lookup s tensors)
  | JArr _ | JObj _ => Raise (Exn TypeError "unhashable type")
  | _ => Raise (Exn ArtifactError "fresh model is missing tensor")
  end.

(** [entry.get("refs") or []]: what is left must be a list, whose first element is read. *)
Definition refs_of (entry : json) : res (list json) :=
  v ← getattr_get "refs" entry;
  match v with
  | None | Some JNull | Some (JBool false) | Some (JInt 0) | Some (JStr []) | Some (JArr []) | Some (JObj []) => mret []
  | Some (JFloat f) => if int_eq_float 0 f then mret [] else Raise (Exn TypeError "object is not subscriptable")
  | Some (JArr l) => mret l
  | Some (JObj _) => Raise (Exn KeyError "0")
  | Some (JStr _) => Raise (Exn AttributeError "'str' object has no attribute 'get'")
  | Some _ => Raise (Exn TypeError "object is not subscriptable")
  end.

(** [ref.get("name")] *)
Definition ref_name (ref : json) : res json := v ← getattr_get "name" ref; mret (default JNull v).

(** The inner loop over the references of one storage. *)
Fixpoint check_refs (tensors : list (pystr * tensor)) (key : Z * Z * Z) (refs : list json) (saved : list pystr)
    : res (list pystr) :=
  match refs with
  | [] => mret saved
  | ref :: refs' =>
      name ← ref_name ref;
      _ ← raise_if (match name with JStr s => bool_decide (s ∈ saved) | _ => false end)
          ArtifactError "artifact repeats tensor reference";
      '(s, t) ← find_tensor tensors name;
      _ ← raise_if (negb (bool_decide (storage_key t = key))) ArtifactError "tensor alias layout changed";
      _ ← raise_if (negb (bool_decide (length (mismatches ref (tensor_reference s t key.1.1) (lit "tensor")) = 0%nat)))
          ArtifactError "tensor layout mismatch";
      check_refs tensors key refs' (saved ++ [s])
  end.

(** The loop over the entries of the manifest. *)
Fixpoint resolve_entries (tensors : list (pystr * tensor)) (entries : list json) (saved : list pystr)
    (used : list (Z * Z * Z)) : res (list (tensor * json) * list pystr) :=
  match entries with
  | [] => mret ([], saved)
  | entry :: entries' =>
      refs ← refs_of entry;
      first ← of_option ArtifactError "artifact storage has no semantic references" (head refs);
      first_name ← ref_name first;
      '(_, t) ← find_tensor tensors first_name;
      let key := storage_key t in
      _ ← raise_if (bool_decide (key ∈ used)) ArtifactError "multiple artifact storages resolve to one tensor";
      nbytes ← getattr_get "nbytes" entry;
      n ← int_of_json (default (JInt (-1)) nbytes);
      _ ← raise_if (negb (s_nbytes (untyped_storage t) =? n)) ArtifactError "storage size mismatch";
      saved1 ← check_refs tensors key refs saved;
      '(rest, saved2) ← resolve_entries tensors entries' saved1 (key :: used);
      mret ((t, entry) :: rest, saved2)
  end.

Definition resolve_storages (mdl : model) (entries : list json) : res (list (tensor * json)) :=
  tensors ← registered_cuda_tensors mdl;
  '(resolved, saved) ← resolve_entries tensors entries [] [];
  _ ← raise_if (existsb (λ nt, negb (bool_decide (nt.1 ∈ saved))) tensors)
      ArtifactError "fresh model has uncaptured CUDA tensors";
  mret resolved.

(** ** Restore *)

(** [int(entry[k])] *)
Definition entry_int (k : string) (entry : json) : res Z := v ← subscript k entry; int_of_json v.

(** The bytes of a file from [pos] on, at most [count] and fewer at its end. *)
Definition file_read (f : pybytes) (pos count : Z) : pybytes := take (Z.to_nat count) (drop (Z.to_nat pos) f).

(** [stream.readinto(view)] of a file without a buffer at [pos]: one system call, which hands
    over at most as many bytes as [readinto] says, or fails. *)
Definition raw_read (readinto : Z → Z → res Z) (f : pybytes) (pos count : Z) : res pybytes :=
  k ← readinto pos count; mret (file_read f pos (Z.min count k)).

(** The [while copied < remaining] loop: memory, hashed bytes, CRC. Bytes reach the
    device before they are verified. *)
Fixpoint copy_in (readinto : Z → Z → res Z) (fuel : nat) (stage_size : Z) (f : pybytes) (pos dest remaining copied : Z)
    (m : memory) (hashed : pybytes) (crc : N) : res (pybytes * N) * memory :=
  match fuel with
  | O => (Ok (hashed, crc), m)
  | S fuel' =>
      if copied <? remaining then
        let count := Z.min stage_size (remaining - copied) in
        match raw_read readinto f (pos + copied) count with
        | Raise e => (Raise e, m)
        | Ok view =>
            if negb (Z.of_nat (length view) =? count) then
              (Raise (Exn ArtifactError "artifact blob ended while reading storage"), m)
            else copy_in readinto fuel' stage_size f pos dest remaining (copied + count)
                   (mwrite m (dest + copied) view) (hashed ++ view) (crc32 view crc)
        end
      else (Ok (hashed, crc), m)
  end.

(** One storage of the Python branch of [restore]. *)
Definition restore_storage (readinto : Z → Z → res Z) (preverified : bool) (stage_size blob_offset : Z) (f : pybytes) (te : tensor * json)
    (m : memory) : res Z * memory :=
  let '(t, entry) := te in
  match (n ← entry_int "nbytes" entry; offset ← entry_int "offset" entry; mret (n, offset)) with
  | Raise e => (Raise e, m)
  | Ok (n, offset) =>
      match copy_in readinto (Z.to_nat n) stage_size f (blob_offset + offset) (s_data_ptr (untyped_storage t)) n 0 m [] 0 with
      | (Raise e, m') => (Raise e, m')
      | (Ok (hashed, crc), m') =>
          (_ ← raise_if (negb preverified && negb (opt_is (jget "crc32" entry) (JStr (crc_hex crc))))
               ArtifactError "artifact storage CRC32 mismatch";
           _ ← raise_if (negb preverified && negb (opt_is (jget "sha256" entry) (JStr (hexdigest hashed))))
               ArtifactError "artifact storage SHA-256 mismatch";
           mret n, m')
      end
  end.

Fixpoint restore_loop (readinto : Z → Z → res Z) (preverified : bool) (stage_size blob_offset : Z) (f : pybytes) (resolved : list (tensor * json))
    (restored : Z) (m : memory) : res Z * memory :=
  match resolved with
  | [] => (Ok restored, m)
  | te :: resolved' =>
      match restore_storage readinto preverified stage_size blob_offset f te m with
      | (Raise e, m') => (Raise e, m')
      | (Ok n, m') => restore_loop readinto preverified stage_size blob_offset f resolved' (restored + n) m'
      end
  end.

Definition restore_python (readinto : Z → Z → res Z) (preverified : bool) (chunk_bytes blob_offset : Z) (f : pybytes)
    (resolved : list (tensor * json)) (m : memory) : res Z * memory :=
  match (ns ← mapM (λ te, entry_int "nbytes" te.2) resolved; py_max ns) with
  | Raise e => (Raise e, m)
  | Ok largest => restore_loop readinto preverified (Z.min chunk_bytes largest) blob_offset f resolved 0 m
  end.

(** The transfers [_hydrate_native_extents] makes: aligned extents by direct I/O, the
    others buffered, unless the caller chose another backend. *)
Definition is_aligned (e : HydrationExtent) : bool :=
  (h_file_offset e mod DIRECT_ALIGNMENT =? 0) && (h_length e mod DIRECT_ALIGNMENT =? 0).

Definition nonempty_group (backend : string) (l : list HydrationExtent) : list (pystr * list HydrationExtent) :=
  match l with [] => [] | _ => [(lit backend, l)] end.

Definition extent_groups {W} (lib : library W) (backend : pystr) (extents : list HydrationExtent)
    : res (list (pystr * list HydrationExtent)) :=
  if bool_decide (backend ∈ [lit "auto"; lit "direct"]) then
    direct ← (if bool_decide (backend = lit "direct") then mret true else available lib (lit "direct"));
    let aligned := filter (λ e, is_aligned e = true) extents in
    let residual := filter (λ e, is_aligned e = false) extents in
    mret (if direct : bool then nonempty_group "direct" aligned ++ nonempty_group "buffered" residual
          else nonempty_group "buffered" extents)
  else mret [(backend, extents)].

Fixpoint hydrate_groups {W} (lib : library W) (path : pybytes) (chunk_bytes queue_depth cuda_device : Z)
    (preverified : bool) (groups : list (pystr * list HydrationExtent)) (used : list pystr) (restored : Z) (w : W)
    : res (list pystr * Z) * W :=
  match groups with
  | [] => (Ok (used, restored), w)
  | (backend, extents) :: groups' =>
      match hydrate lib path extents backend chunk_bytes queue_depth cuda_device preverified false w with
      | (Raise e, w') => (Raise e, w')
      | (Ok ms, w') =>
          hydrate_groups lib path chunk_bytes queue_depth cuda_device preverified groups'
            (used ++ [m_backend ms]) (restored + m_bytes ms) w'
      end
  end.

Definition hydrate_native_extents {W} (lib : library W) (path : pybytes) (extents : list HydrationExtent)
    (backend : pystr) (chunk_bytes queue_depth cuda_device : Z) (preverified : bool) (w : W) : res (pystr * Z) * W :=
  match extent_groups lib backend extents with
  | Raise e => (Raise e, w)
  | Ok groups =>
      let '(r, w') := hydrate_groups lib path chunk_bytes queue_depth cuda_device preverified groups [] 0 w in
      ((λ ub, (join (lit "+") ub.1, ub.2)) <$> r, w')
  end.

(** [entry.get(k)] as the optional text [HydrationExtent] takes; anything else fails its
    checks ([len] or [lower] of a non-string). *)
Definition entry_text (k : string) (entry : json) : res (option pystr) :=
  match jget k entry with
  | None | Some JNull => mret None
  | Some (JStr s) => mret (Some s)
  | Some _ => Raise (Exn TypeError "object has no len() or lower()")
  end.

Definition restore_extent (blob_offset : Z) (te : tensor * json) : res HydrationExtent :=
  let '(t, entry) := te in
  offset ← entry_int "offset" entry;
  n ← entry_int "nbytes" entry;
  crc ← entry_text "crc32" entry;
  sha ← entry_text "sha256" entry;
  HydrationExtent_new (HExtent (blob_offset + offset) (s_data_ptr (untyped_storage t)) n crc sha).

(** The elements a [for] loop takes from a decoded value. *)
Definition iterate (v : json) : res (list json) :=
  match v with
  | JArr l => mret l
  | JObj d => mret (JStr <$> d.*1)
  | JStr s => mret ((λ c, JStr [c]) <$> s)
  | _ => Raise (Exn TypeError "object is not iterable")
  end.

Definition resolved_device (resolved : list (tensor * json)) : Z :=
  match resolved with (t, _) :: _ => default 0 (t_index t) | [] => 0 end.

(** [SemanticTensorArtifact.restore]. [native] is the outcome of [hydrator_from_env], and
    its library acts on device memory; [external] is the blob selected instead of the
    artifact's own; [readinto] the reads of the Python branch; [verify] is [verify_preverified] on the manifest. A storage keeps
    its address, since nothing here moves it, so the final comparison of addresses
    always holds. *)
Definition restore_artifact (readinto : Z → Z → res Z) (native : res (option (library memory * pystr))) (path : pybytes) (verify : json → res unit)
    (d : directory) (external : option (option pybytes)) (mdl : model) (identity : json)
    (chunk_bytes queue_depth blob_offset : Z) (preverified : bool) (m : memory) : res ArtifactMetrics * memory :=
  match (_ ← raise_if ((chunk_bytes <=? 0) || negb (chunk_bytes mod ALIGNMENT =? 0))
             ValueError "restore chunk size must be positive and 4096-byte aligned";
         manifest ← load_manifest d (Some identity) ((λ b : option pybytes, (λ f, Z.of_nat (length f)) <$> b) <$> external) blob_offset;
         _ ← (if preverified && bool_decide (external = None) then verify manifest else mret tt);
         v ← subscript "storages" manifest;
         entries ← iterate v;
         resolved ← resolve_storages mdl entries;
         n ← native;
         f ← of_option FileNotFoundError "blob" (match external with None => blob_file d | Some b => b end);
         mret (resolved, n, f)) with
  | Raise e => (Raise e, m)
  | Ok (resolved, Some (lib, backend), _) =>
      match mapM (restore_extent blob_offset) resolved with
      | Raise e => (Raise e, m)
      | Ok extents =>
          let '(r, m') := hydrate_native_extents lib path extents backend chunk_bytes queue_depth
                            (resolved_device resolved) preverified m in
          ((λ ub, AMetrics (lit "restore") ub.1 ub.2 (Z.of_nat (length resolved))) <$> r, m')
      end
  | Ok (resolved, None, f) =>
      let '(r, m') := restore_python readinto preverified chunk_bytes blob_offset f resolved m in
      ((λ n, AMetrics (lit "restore") (lit "python") n (Z.of_nat (length resolved))) <$> r, m')
  end.
