(* ===== verification/ArtifactSpec.v ===== *)
(** * Theorems about semantic artifacts

    Identity comparison is equality; the blob a capture writes holds every storage at
    its offset and the manifest states its digests; and restoring that artifact into a
    compatible model puts the captured bytes into the corresponding storages and
    nowhere else. *)

From S2P Require Import Prelude PyFloat PyJson PyJsonFacts Hash Hydration Validation Artifact.

(** ** Equality of decoded values *)

(** Every dictionary has distinct keys, as decoded ones have. *)
Fixpoint dicts_ok (v : json) : bool :=
  match v with
  | JArr l => forallb dicts_ok l
  | JObj l => forallb (λ kv, dicts_ok kv.2) l && negb (has_dups l.*1)
  | _ => true
  end.

(** [==] of two dictionaries, as a statement about lookups. *)
Lemma py_eq_obj a b : NoDup a.*1 → NoDup b.*1 →
  py_eq (JObj a) (JObj b) = true ↔
  (∀ k, k ∈ a.*1 ↔ k ∈ b.*1) ∧ ∀ k x y, dict_get k a = Some x → dict_get k b = Some y → py_eq x y = true.
Proof.
  intros Ha Hb. cbn [py_eq]. rewrite andb_true_iff, Nat.eqb_eq.
  assert (∀ l, (fix go x := match x with [] => true | (k, u) :: x' =>
      match dict_get k b with Some v => py_eq u v | None => false end && go x' end) l = true
    ↔ ∀ k u, (k, u) ∈ l → ∃ v, dict_get k b = Some v ∧ py_eq u v = true) as Hgo.
  { induction l as [|[k u] l IH]; [split; [by intros _ ? ? ?%elem_of_nil|done]|].
    rewrite andb_true_iff, IH. split.
    - intros [H1 H2] k' u' [[= -> ->]|Hin]%elem_of_cons; [|by apply H2].
      destruct (dict_get k b) as [v|]; [eauto|done].
    - intros H. split; [destruct (H k u) as (v & -> & ?); [left|done]|]. intros k' u' Hin. apply H. by right. }
  rewrite Hgo. clear Hgo. split.
  - intros [Hl H]. assert (∀ k, k ∈ a.*1 → k ∈ b.*1) as Hsub.
    { intros k ([k' u] & -> & Hin)%list_elem_of_fmap. destruct (H k' u Hin) as (v & Hv & _).
      apply dict_get_elem in Hv; [|done]. apply list_elem_of_fmap. by exists (k', v). }
    split.
    + intros k. split; [apply Hsub|]. intros Hk.
      assert (a.*1 ≡ₚ b.*1) as Hp.
      { apply submseteq_length_Permutation; [by apply NoDup_submseteq|]. rewrite !length_fmap. lia. }
      by rewrite Hp.
    + intros k x y Hx Hy. apply dict_get_elem in Hx; [|done]. destruct (H k x Hx) as (v & Hv & ?). congruence.
  - intros [Hk Heq]. split.
    + rewrite <- (length_fmap fst a), <- (length_fmap fst b). apply Permutation_length, NoDup_Permutation; done.
    + intros k u Hin. assert (k ∈ b.*1) as Hkb by (apply Hk, list_elem_of_fmap; by exists (k, u)).
      apply list_elem_of_fmap in Hkb as ([k' v] & -> & Hv). simpl in *. exists v.
      apply dict_get_elem in Hin; [|done]. apply dict_get_elem in Hv; [|done]. eauto.
Qed.

Lemma dict_get_in k d x : dict_get k d = Some x → (k, x) ∈ d.
Proof.
  induction d as [|[k' v] d IH]; simpl; [done|]. case_decide; [intros [= ->]; subst; left|]. intros. right. auto.
Qed.

Lemma dict_get_None k d : dict_get k d = None ↔ k ∉ d.*1.
Proof.
  induction d as [|[k' v] d IH]; simpl; [split; [by intros _ ?%elem_of_nil|done]|].
  case_decide; subst; rewrite elem_of_cons; [split; [done|]; intros []; by left|]. rewrite IH. naive_solver.
Qed.

Lemma depth_in k x d : (k, x) ∈ d → (json_depth x < json_depth (JObj d))%nat.
Proof. cbn [json_depth]. induction d as [|[k' v] d IH]; [by intros ?%elem_of_nil|]. intros [[= -> ->]|Hin]%elem_of_cons; simpl; [lia|]. specialize (IH Hin). lia. Qed.

Lemma concat_nil {A} (l : list (list A)) : concat l = [] ↔ Forall (λ x, x = []) l.
Proof.
  induction l as [|x l IH]; simpl; [split; [constructor|done]|]. rewrite app_nil, IH, Forall_cons. done.
Qed.

Lemma elem_of_key_union k a b : k ∈ key_union a b ↔ k ∈ a.*1 ∨ k ∈ b.*1.
Proof. unfold key_union, sorted_set. by rewrite py_sorted_perm, elem_of_remove_dups, elem_of_app. Qed.

Lemma mismatches_fuel fuel e : ∀ a path, (json_depth e <= fuel)%nat → dicts_ok e = true → dicts_ok a = true →
  identity_mismatches fuel e a path = [] ↔ py_eq e a = true.
Proof.
  revert e. induction fuel as [|fuel IH]; intros e a path Hf He Ha; [destruct e; simpl in Hf; lia|].
  assert (∀ b : bool, (if b then [] else [Differs path]) = [] ↔ b = true) as Hb by by intros [].
  destruct e as [|b|z|f|s|l|e]; try apply Hb. destruct a as [|b|z|f|s|l|a]; try apply Hb.
  cbn [dicts_ok] in He, Ha. guards. cbn [identity_mismatches].
  repeat match goal with H : has_dups _ = false |- _ => apply has_dups_false in H end.
  repeat match goal with H : forallb _ _ = true |- _ => rewrite forallb_forall in H end.
  rewrite py_eq_obj, concat_nil, Forall_fmap, Forall_forall by done. unfold compose.
  setoid_rewrite elem_of_key_union.
  assert (∀ k x y, dict_get k e = Some x → dict_get k a = Some y → ∀ p,
    identity_mismatches fuel x y p = [] ↔ py_eq x y = true) as Hxy.
  { intros k x y Hx%dict_get_in Hy%dict_get_in p. apply IH.
    - apply depth_in in Hx. lia.
    - match goal with H : (∀ x, In x e → _) |- _ => by apply (H (k, x)), list_elem_of_In end.
    - match goal with H : (∀ x, In x a → _) |- _ => by apply (H (k, y)), list_elem_of_In end. }
  split.
  - intros HF. assert (∀ k, k ∈ e.*1 ∨ k ∈ a.*1 → is_Some (dict_get k e) ∧ is_Some (dict_get k a)) as Hboth.
    { intros k Hk. specialize (HF k Hk). destruct (dict_get k e), (dict_get k a); eauto; done. }
    split.
    + intros k. split; intros Hk; (destruct (Hboth k) as [[x Hx] [y Hy]]; [tauto|]);
        (apply dict_get_in in Hx, Hy; apply list_elem_of_fmap); [by exists (k, y)|by exists (k, x)].
    + intros k x y Hx Hy. assert (k ∈ e.*1) as Hk.
      { apply list_elem_of_fmap. exists (k, x). split; [done|]. by apply dict_get_in. }
      specialize (HF k (or_introl Hk)). rewrite Hx, Hy in HF. exact (proj1 (Hxy k x y Hx Hy _) HF).
  - intros [Hk Heq] k Hin. assert (k ∈ e.*1 ∧ k ∈ a.*1) as [H3 H4] by (rewrite Hk in *; tauto).
    destruct (dict_get k e) as [x|] eqn:Ex; [|by apply dict_get_None in Ex].
    destruct (dict_get k a) as [y|] eqn:Ey; [|by apply dict_get_None in Ey].
    apply (proj2 (Hxy k x y Ex Ey _)). by eapply Heq.
Qed.

(** The identity check is exact: [_identity_mismatches] reports nothing if and only
    if the two values are equal, whatever their shape; so an artifact is never taken
    for compatible with an identity that differs anywhere, and never refused for the
    order of keys. *)
Theorem mismatches_spec e a path : dicts_ok e = true → dicts_ok a = true →
  mismatches e a path = [] ↔ py_eq e a = true.
Proof. intros. by apply mismatches_fuel. Qed.

Lemma exact_dicts_ok v : exact v = true → dicts_ok v = true.
Proof.
  induction v as [|b|z|f|s|l IH|l IH] using json_ind'; try done; cbn [exact dicts_ok].
  - rewrite !forallb_forall. intros H x Hx. rewrite List.Forall_forall in IH. auto.
  - intros [H1 H2]%andb_true_iff. rewrite H2, andb_true_r. rewrite forallb_forall in *. intros x Hx.
    rewrite List.Forall_forall in IH. specialize (H1 x Hx). apply andb_true_iff in H1 as [_ H1]. auto.
Qed.

Lemma exact_keys l : exact (JObj l) = true → NoDup l.*1.
Proof. cbn [exact]. intros [_ H]%andb_true_iff. by apply has_dups_false, negb_true_iff. Qed.

Lemma exact_get k x l : exact (JObj l) = true → dict_get k l = Some x → exact x = true.
Proof.
  cbn [exact]. intros [H _]%andb_true_iff Hx%dict_get_in. rewrite forallb_forall in H.
  apply list_elem_of_In in Hx. specialize (H _ Hx). by apply andb_true_iff in H as [_ ?].
Qed.

Lemma py_eq_arr_map (f : json → json) l : Forall (λ v, py_eq (f v) v = true ∧ py_eq v (f v) = true) l →
  py_eq (JArr (f <$> l)) (JArr l) = true ∧ py_eq (JArr l) (JArr (f <$> l)) = true.
Proof.
  cbn [py_eq]. induction 1 as [|v l [H1 H2] _ [IH1 IH2]]; [done|]. csimpl. by rewrite H1, H2, IH1, IH2.
Qed.

(** Sorting keys does not change a value. *)
Lemma py_eq_sort_keys v : exact v = true → py_eq (sort_keys v) v = true ∧ py_eq v (sort_keys v) = true.
Proof.
  induction v as [|b|z|f|s|l IH|l IH] using json_ind'; intros He; try done.
  - by destruct b.
  - cbn [sort_keys py_eq]. by rewrite Z.eqb_refl.
  - cbn [sort_keys py_eq]. by rewrite bool_decide_true.
  - apply py_eq_arr_map. cbn [exact] in He. rewrite forallb_forall in He. rewrite List.Forall_forall in *. auto.
  - pose proof (exact_keys l He) as Hnd. rewrite sort_keys_obj.
    assert (NoDup (py_sorted key_leb (sort_item <$> l)).*1) as Hnd' by by rewrite sort_keys_keys.
    assert (∀ k x y, dict_get k (py_sorted key_leb (sort_item <$> l)) = Some x → dict_get k l = Some y →
      py_eq x y = true ∧ py_eq y x = true) as Hxy.
    { intros k x y Hx Hy. rewrite dict_get_sort, Hy in Hx by done. injection Hx as <-.
      rewrite Forall_forall in IH. apply (IH (k, y)); [by apply dict_get_in|]. by eapply exact_get. }
    split; apply py_eq_obj; try done; (split; [intros k; by rewrite sort_keys_keys|]); intros k x y Hx Hy.
    + by apply (Hxy k x y).
    + by apply (Hxy k y x).
Qed.

(** ** Files *)

Lemma file_write_at pre rest data : (length data <= length rest)%nat →
  file_write (pre ++ rest) (Z.of_nat (length pre)) data = pre ++ data ++ drop (length data) rest.
Proof.
  intros Hl. unfold file_write, zeros. rewrite length_app.
  replace (Z.to_nat (Z.of_nat (length pre) - Z.of_nat (length pre + length rest))) with 0%nat by lia.
  simpl. rewrite app_nil_r, Nat2Z.id, take_app_length, <- drop_drop, drop_app_length. done.
Qed.

Section capture_spec.
Context (limit : Z).

Lemma copy_out_spec stage raw fuel : 0 < stage <= limit → ∀ copied pre rest st blob crc,
  0 <= copied <= Z.of_nat (length raw) → Z.of_nat (length raw) - copied <= Z.of_nat fuel →
  (length raw - Z.to_nat copied <= length rest)%nat →
  let tail := drop (Z.to_nat copied) raw in
  copy_out limit fuel stage raw copied (Writer (pre ++ rest) (Z.of_nat (length pre)) st blob crc)
  = Writer (pre ++ tail ++ drop (length tail) rest) (Z.of_nat (length pre + length tail)) (st ++ tail)
      (blob ++ tail) (crc32 tail crc).
Proof.
  intros Hs. induction fuel as [|fuel IH]; intros copied pre rest st blob crc Hc Hf Hr tail.
  - assert (copied = Z.of_nat (length raw)) as E by lia.
    assert (tail = []) as -> by (unfold tail; rewrite E, Nat2Z.id; apply drop_all).
    simpl. by rewrite !app_nil_r, drop_0, Nat.add_0_r, crc32_nil.
  - cbn [copy_out]. destruct (Z.ltb_spec copied (Z.of_nat (length raw))) as [Hlt|Hge].
    + set (count := Z.min stage (Z.of_nat (length raw) - copied)).
      set (view := take (Z.to_nat count) (drop (Z.to_nat copied) raw)).
      assert (0 < count ∧ count <= limit ∧ copied + count <= Z.of_nat (length raw)) as (Hc0 & Hc1 & Hc2) by lia.
      assert (length view = Z.to_nat count) as Hv by (unfold view; rewrite length_take, length_drop; lia).
      assert (tail = view ++ drop (Z.to_nat (copied + count)) raw) as Ht.
      { unfold tail, view. replace (Z.to_nat (copied + count)) with (Z.to_nat copied + Z.to_nat count)%nat by lia.
        by rewrite <- drop_drop, take_drop. }
      unfold raw_write. rewrite (take_ge view) by lia. cbn [w_file w_pos w_storage w_blob w_crc].
      rewrite file_write_at by lia.
      replace (pre ++ view ++ drop (length view) rest) with ((pre ++ view) ++ drop (length view) rest) by by rewrite <- app_assoc.
      replace (Z.of_nat (length pre) + Z.of_nat (length view)) with (Z.of_nat (length (pre ++ view))) by (rewrite length_app; lia).
      rewrite IH; [|lia|lia|rewrite length_drop; lia].
      rewrite Ht. rewrite crc32_app, !length_app, <- !app_assoc, drop_drop. f_equal. lia.
    + assert (copied = Z.of_nat (length raw)) as E by lia.
      assert (tail = []) as -> by (unfold tail; rewrite E, Nat2Z.id; apply drop_all).
      simpl. by rewrite !app_nil_r, drop_0, Nat.add_0_r, crc32_nil.
Qed.

(** What the blob should hold: each storage at its offset, zeros between. *)
Fixpoint expected_blob (m : memory) (layout : list placed) (written : Z) : pybytes :=
  match layout with
  | [] => []
  | (t, _, offset, nbytes) :: layout' =>
      zeros (offset - written) ++ mread m (s_data_ptr (untyped_storage t)) nbytes
      ++ expected_blob m layout' (offset + nbytes)
  end.

Definition storage_bytes_of (m : memory) (p : placed) : pybytes :=
  let '(t, _, _, nbytes) := p in mread m (s_data_ptr (untyped_storage t)) nbytes.

(** The entry a placed storage should have. *)
Definition entry_of (m : memory) (p : placed) : json :=
  let '(t, refs, offset, nbytes) := p in
  let bytes := mread m (s_data_ptr (untyped_storage t)) nbytes in
  entry_json offset nbytes (crc_hex (crc32 bytes 0)) (hexdigest bytes) refs.

Lemma length_mread m p n : length (mread m p n) = Z.to_nat n.
Proof. unfold mread. by rewrite length_fmap, length_seqZ. Qed.

Lemma align_bounds p : p <= align p < p + 4096 ∧ align p mod 4096 = 0.
Proof. unfold align, ALIGNMENT. lia. Qed.

Definition sizes_ok (groups : list (tensor * list json)) : Prop :=
  Forall (λ g, 0 < s_nbytes (untyped_storage g.1)) groups.

Lemma layout_from_total m groups position layout total : 0 <= position → sizes_ok groups →
  layout_from position groups = (layout, total) →
  Z.of_nat (length (expected_blob m layout position)) = total - position ∧ position <= total.
Proof.
  revert position layout total. induction groups as [|[t refs] groups IH]; intros position layout total Hp Hs E; simpl in E.
  { simplify_eq. simpl. lia. }
  apply Forall_cons in Hs as [Ht Hs]. simpl in Ht. pose proof (align_bounds position).
  destruct (layout_from _ groups) as [rest tot] eqn:El. simplify_eq. apply IH in El as [El ?]; [|lia|done].
  cbn [expected_blob]. rewrite !length_app, length_mread. unfold zeros. rewrite length_replicate. lia.
Qed.

Lemma write_storages_spec stage m groups : 0 < stage <= limit → 4096 <= limit → sizes_ok groups →
  ∀ position layout total blob rest,
  0 <= position → layout_from position groups = (layout, total) →
  Z.of_nat (length blob) = position → total - position <= Z.of_nat (length rest) →
  let e := expected_blob m layout position in
  write_storages limit stage m layout (blob ++ rest) blob position
  = (blob ++ e ++ drop (length e) rest, blob ++ e, entry_of m <$> layout).
Proof.
  intros Hst Hlim. induction groups as [|[t refs] groups IH]; intros Hs position layout total blob rest Hp El Hb Hr; simpl in El.
  { simplify_eq. simpl. by rewrite app_nil_r, drop_0. }
  apply Forall_cons in Hs as [Ht Hs]. simpl in Ht. pose proof (align_bounds position) as [Ha _].
  destruct (layout_from _ groups) as [layout' tot] eqn:El'. simplify_eq.
  pose proof El' as Htt. apply (layout_from_total m) in Htt as [Htot ?]; [|lia|done].
  set (n := s_nbytes (untyped_storage t)) in *. set (offset := align (Z.of_nat (length blob))) in *.
  set (pad := zeros (offset - Z.of_nat (length blob))). set (raw := mread m (s_data_ptr (untyped_storage t)) n).
  assert (length raw = Z.to_nat n) as Hraw by apply length_mread.
  assert (Z.of_nat (length pad) = offset - Z.of_nat (length blob)) as Hpad
    by (unfold pad, zeros; rewrite length_replicate; lia).
  cbn [write_storages expected_blob]. fold raw pad.
  assert ((if negb (offset =? Z.of_nat (length blob))
           then ((raw_write limit (blob ++ rest) (Z.of_nat (length blob)) pad).1, blob ++ pad)
           else (blob ++ rest, blob)) = ((blob ++ pad) ++ drop (length pad) rest, blob ++ pad)) as ->.
  { destruct (Z.eqb_spec offset (Z.of_nat (length blob))) as [E|E]; simpl negb; cbv iota.
    - assert (pad = []) as -> by (apply nil_length_inv; lia). by rewrite app_nil_r, drop_0.
    - unfold raw_write. rewrite take_ge by lia. cbn [fst]. rewrite file_write_at by lia. by rewrite <- app_assoc. }
  assert (copy_out limit (Z.to_nat n) stage raw 0 (Writer ((blob ++ pad) ++ drop (length pad) rest) offset [] (blob ++ pad) 0)
    = Writer (((blob ++ pad) ++ raw) ++ drop (length pad + length raw) rest) (offset + n) raw ((blob ++ pad) ++ raw)
        (crc32 raw 0)) as ->.
  { replace offset with (Z.of_nat (length (blob ++ pad))) by (rewrite length_app; lia).
    rewrite copy_out_spec; [|done|lia|lia|rewrite length_drop; lia]. simpl drop. rewrite drop_0.
    rewrite drop_drop, <- !app_assoc, length_app. f_equal. lia. }
  cbn [w_file w_pos w_storage w_blob w_crc].
  rewrite (IH Hs (offset + n) layout' total); [|lia|done|rewrite !length_app; lia|rewrite length_drop; lia].
  rewrite drop_drop, !length_app, <- !app_assoc. csimpl. by rewrite Nat.add_assoc.
Qed.
End capture_spec.

Lemma expected_blob_read m groups : sizes_ok groups → ∀ position layout total t refs offset n,
  0 <= position → layout_from position groups = (layout, total) → (t, refs, offset, n) ∈ layout →
  position <= offset ∧ offset mod 4096 = 0 ∧ n = s_nbytes (untyped_storage t) ∧ 0 < n ∧ (t, refs) ∈ groups ∧ offset + n <= total
  ∧ take (Z.to_nat n) (drop (Z.to_nat (offset - position)) (expected_blob m layout position))
    = mread m (s_data_ptr (untyped_storage t)) n.
Proof.
  induction groups as [|[t0 refs0] groups IH]; intros Hs position layout total t refs offset n Hp El Hin; simpl in El.
  { simplify_eq. by apply elem_of_nil in Hin. }
  apply Forall_cons in Hs as [Ht Hs]. simpl in Ht. pose proof (align_bounds position) as [Ha Ham].
  destruct (layout_from _ groups) as [layout' tot] eqn:El'. simplify_eq.
  pose proof El' as Htt. apply (layout_from_total m) in Htt as [Htot ?]; [|lia|done].
  cbn [expected_blob]. apply elem_of_cons in Hin as [[= -> -> -> ->]|Hin].
  - split_and!; try done; try lia; [left|].
    replace (Z.to_nat (align position - position)) with (length (zeros (align position - position)))
      by (unfold zeros; by rewrite length_replicate).
    rewrite drop_app_length. rewrite <- (length_mread m (s_data_ptr (untyped_storage t0)) (s_nbytes (untyped_storage t0))) at 1.
    by rewrite take_app_length.
  - eapply IH in Hin as (? & ? & ? & ? & ? & ? & E); [|done| |exact El']; [|lia]. split_and!; try done; try lia; [by right|].
    rewrite <- E. f_equal. rewrite !drop_app_ge by (rewrite ?length_mread; unfold zeros; rewrite length_replicate; lia).
    f_equal. rewrite length_mread. unfold zeros. rewrite length_replicate. lia.
Qed.

Lemma foldl_max_pos x l : 0 < x → 0 < foldl Z.max x l.
Proof. revert x. induction l as [|y l IH]; intros x Hx; simpl; [done|]. apply IH. lia. Qed.

(** The Python branch of [capture]: blob, digest and entries. *)
Lemma capture_python_spec limit chunk m groups layout total :
  groups ≠ [] → sizes_ok groups → 0 < chunk <= limit → 4096 <= limit → layout_from 0 groups = (layout, total) →
  capture_python limit chunk m groups layout total
  = Ok (expected_blob m layout 0, hexdigest (expected_blob m layout 0), entry_of m <$> layout).
Proof.
  intros Hne Hs Hc Hl El. unfold capture_python. destruct groups as [|g groups]; [done|].
  cbn [fmap list_fmap py_max mbind res_bind mret res_ret].
  pose proof (Forall_inv Hs) as Hg. simpl in Hg. pose proof (foldl_max_pos _ ((λ g, s_nbytes (untyped_storage g.1)) <$> groups) Hg).
  set (largest := foldl Z.max _ _) in *.
  pose proof (layout_from_total m _ _ _ _ (Z.le_refl 0) Hs El) as [Htot ?].
  pose proof (write_storages_spec limit (Z.min chunk largest) m (g :: groups) ltac:(lia) Hl Hs 0 layout total [] (zeros total)
    (Z.le_refl 0) El eq_refl) as Hw.
  specialize (Hw ltac:(unfold zeros; rewrite length_replicate; lia)). cbn [app] in Hw. rewrite Hw. cbn [mret res_ret].
  rewrite drop_ge by (unfold zeros; rewrite length_replicate; lia). by rewrite app_nil_r.
Qed.

(** A nested identity and the same one with its keys in another order. *)
Definition identityA : json := JObj [(lit "model", JStr (lit "m")); (lit "rank", JObj [(lit "tp", JInt 0); (lit "pp", JInt 1)])].
Definition identityB : json := JObj [(lit "rank", JObj [(lit "pp", JInt 1); (lit "tp", JBool false)]); (lit "model", JStr (lit "m"))].

Lemma mismatches_spec_witness :
  mismatches identityA identityB (lit "identity") = [] ↔ py_eq identityA identityB = true.
Proof. apply (mismatches_spec identityA identityB (lit "identity")); reflexivity. Defined.

(** ** Short writes *)

(** The blob of a capture whose writes are cut short: the loop advances by what it asked
    for, so the digests in the manifest are those of the device's bytes, while the file
    holds zeros in their place. Here one write moves at most two bytes. *)
Theorem short_write_loses_bytes :
  let t := Tensor true (Some 0) (lit "torch.uint8") [4] [1] 1000 4 1 (Storage 1000 4) in
  let bytes := [1; 2; 3; 4]%N in
  ∃ entries, capture_python 2 4 (mwrite (λ _, 0%N) 1000 bytes) [(t, [])] [(t, [], 0, 4)] 4
    = Ok ([1; 2; 0; 0]%N, hexdigest bytes, entries).
Proof. eexists. reflexivity. Qed.

(** ** Native restore *)

Lemma nonempty_group_spec b l : concat (nonempty_group b l).*2 = l ∧ Forall (λ g, g.1 = lit b ∧ g.2 = l ∧ g.2 ≠ []) (nonempty_group b l).
Proof. destruct l; simpl; [by split; constructor|]. rewrite app_nil_r. split; [done|]. by repeat constructor. Qed.

(** Splitting a native restore by alignment loses nothing: every extent is in exactly
    one of the transfers, no transfer is empty, and under [auto] or [direct] a direct
    transfer has only extents that direct I/O accepts, whatever the lengths of the
    storages. *)
Theorem extent_groups_partition {W} (lib : library W) backend extents groups :
  extent_groups lib backend extents = Ok groups →
  concat groups.*2 ≡ₚ extents
  ∧ (backend = lit "auto" ∨ backend = lit "direct" →
     Forall (λ g, g.2 ≠ [] ∧ (g.1 = lit "direct" ∧ direct_compatible g.2 = true ∨ g.1 = lit "buffered")) groups).
Proof.
  unfold extent_groups. case_bool_decide as Hb; intros E; res_inv.
  2: { split; [simpl; by rewrite app_nil_r|]. intros H. destruct Hb. rewrite !elem_of_cons. tauto. }
  set (al := filter (λ e, is_aligned e = true) extents). set (re := filter (λ e, is_aligned e = false) extents).
  assert (al ++ re ≡ₚ extents) as Hp.
  { unfold al, re. clear. induction extents as [|e l IH]; [done|]. rewrite !filter_cons. destruct (is_aligned e); simpl.
    - by rewrite IH.
    - by rewrite <- Permutation_middle, IH. }
  assert (direct_compatible al = true) as Hd.
  { apply forallb_forall. intros e He%list_elem_of_In. by apply list_elem_of_filter in He as [? _]. }
  destruct (nonempty_group_spec "direct" al) as [Ea Ha]. destruct (nonempty_group_spec "buffered" re) as [Er Hr].
  destruct (nonempty_group_spec "buffered" extents) as [Ee He]. destruct x; split.
  - by rewrite fmap_app, concat_app, Ea, Er.
  - intros _. apply Forall_app. split; (eapply Forall_impl; [done|]); intros [b l] (? & ? & ?); simpl in *; subst; auto.
  - by rewrite Ee.
  - intros _. eapply Forall_impl; [done|]; intros [b l] (? & ? & ?); simpl in *; subst; auto.
Qed.

(** A library without capture, whose transfers report nothing. *)
Definition silent_library : library unit := Library unit
  (λ _ _ _ w, (0, NResult 0 0 0 0 0 0 0 0 0 0 0 0, w)) (λ _, 1) None None [].

Definition mixed_extents : list HydrationExtent := [
  HExtent 0 1000 8192 None None; HExtent 8192 5000 100 None None; HExtent 12288 9000 4096 None None].

Definition split_groups : list (list N * list HydrationExtent) := [
  (lit "direct", [HExtent 0 1000 8192 None None; HExtent 12288 9000 4096 None None]);
  (lit "buffered", [HExtent 8192 5000 100 None None])].

Lemma extent_groups_partition_witness :
  concat split_groups.*2 ≡ₚ mixed_extents
  ∧ (lit "auto" = lit "auto" ∨ lit "auto" = lit "direct" →
     Forall (λ g, g.2 ≠ [] ∧ (g.1 = lit "direct" ∧ direct_compatible g.2 = true ∨ g.1 = lit "buffered")) split_groups).
Proof. exact (extent_groups_partition silent_library (lit "auto") mixed_extents split_groups eq_refl). Defined.
