(* ===== verification/ArtifactRestore.v ===== *)
(** * Restoring an artifact

    The copy loop of [restore] reproduces the bytes it read, the groups of a model
    partition its registered tensors, a manifest captured from one model resolves against
    any compatible one, and together: restore after capture puts the captured bytes
    into the corresponding storages and nowhere else. *)

From S2P Require Import Prelude PyFloat PyJson PyJsonFacts Hash Hydration Validation Artifact ArtifactSpec.

(** ** Device memory *)

Lemma mwrite_nil m p a : mwrite m p [] a = m a.
Proof. unfold mwrite. simpl length. destruct (Z.leb_spec p a), (Z.ltb_spec a (p + Z.of_nat 0)); simpl; done || lia. Qed.

Lemma mwrite_app m p u v a : mwrite (mwrite m p u) (p + Z.of_nat (length u)) v a = mwrite m p (u ++ v) a.
Proof.
  unfold mwrite. rewrite length_app.
  destruct (Z.leb_spec p a), (Z.ltb_spec a (p + Z.of_nat (length u))), (Z.leb_spec (p + Z.of_nat (length u)) a),
    (Z.ltb_spec a (p + Z.of_nat (length u) + Z.of_nat (length v))), (Z.ltb_spec a (p + Z.of_nat (length u + length v)));
    simpl; try done; try lia.
  - by rewrite lookup_app_l by lia.
  - rewrite lookup_app_r by lia. do 2 f_equal. lia.
Qed.

Lemma mwrite_ext m m' p d a : (∀ a, m a = m' a) → mwrite m p d a = mwrite m' p d a.
Proof. intros H. unfold mwrite. by rewrite H. Qed.

Lemma mread_mwrite m m' p d : (∀ a, m' a = mwrite m p d a) → mread m' p (Z.of_nat (length d)) = d.
Proof.
  intros H. apply list_eq. intros i. unfold mread. rewrite list_lookup_fmap.
  destruct (decide (i < length d)%nat) as [Hi|Hi].
  - rewrite lookup_seqZ_lt by lia. simpl. rewrite H. unfold mwrite.
    destruct (Z.leb_spec p (p + Z.of_nat i)), (Z.ltb_spec (p + Z.of_nat i) (p + Z.of_nat (length d))); try lia. simpl.
    replace (Z.to_nat (p + Z.of_nat i - p)) with i by lia. apply lookup_lt_is_Some in Hi as [x ->]. done.
  - rewrite lookup_seqZ_ge by lia. symmetry. apply lookup_ge_None. lia.
Qed.

Definition inside (p n a : Z) : Prop := p <= a < p + n.

Lemma mwrite_outside m p d a : ¬ inside p (Z.of_nat (length d)) a → mwrite m p d a = m a.
Proof.
  unfold inside, mwrite. intros H.
  destruct (Z.leb_spec p a), (Z.ltb_spec a (p + Z.of_nat (length d))); simpl; done || lia.
Qed.

Lemma mread_ext m m' p n : (∀ a, inside p n a → m a = m' a) → mread m p n = mread m' p n.
Proof.
  intros H. unfold mread. apply list_fmap_ext. intros i x [-> ?]%lookup_seqZ. apply H. unfold inside. lia.
Qed.

(** ** One storage *)

Lemma length_file_read f pos n : 0 <= pos → 0 <= n → pos + n <= Z.of_nat (length f) → length (file_read f pos n) = Z.to_nat n.
Proof. intros. unfold file_read. rewrite length_take, length_drop. lia. Qed.

Lemma file_read_split f pos n c : 0 <= pos → 0 <= c <= n → file_read f pos n = file_read f pos c ++ file_read f (pos + c) (n - c).
Proof.
  intros. unfold file_read. replace (Z.to_nat (pos + c)) with (Z.to_nat pos + Z.to_nat c)%nat by lia.
  rewrite <- drop_drop. replace (Z.to_nat n) with (Z.to_nat c + Z.to_nat (n - c))%nat by lia.
  by rewrite take_take_drop.
Qed.

(** No read of at most [stage] bytes fails or stops before the end of the file. *)
Definition whole_reads (readinto : Z → Z → res Z) (stage : Z) : Prop := ∀ pos count, 0 < count <= stage → ∃ k, readinto pos count = Ok k ∧ count <= k.
Lemma whole_reads_less readinto stage stage' : stage' <= stage → whole_reads readinto stage → whole_reads readinto stage'.
Proof. intros Hle Hw pos count Hc. apply Hw. lia. Qed.
(** How a restore fails over its reads. *)
Definition read_failure (readinto : Z → Z → res Z) (e : exn) : Prop :=
  e = Exn ArtifactError "artifact blob ended while reading storage" ∨ ∃ pos count, readinto pos count = Raise e.

Section reads.
Context (readinto : Z → Z → res Z).

(** One read in range gives all it was asked for, or the restore fails. *)
Lemma raw_read_cases f pos count : 0 <= pos → 0 < count → pos + count <= Z.of_nat (length f) →
  (raw_read readinto f pos count = Ok (file_read f pos count) ∧ length (file_read f pos count) = Z.to_nat count)
  ∨ (∀ stage, count <= stage → ¬ whole_reads readinto stage)
    ∧ ((∃ e, raw_read readinto f pos count = Raise e ∧ read_failure readinto e) ∨ ∃ v, raw_read readinto f pos count = Ok v ∧ Z.of_nat (length v) ≠ count).
Proof.
  intros Hp Hc Hl. unfold raw_read. destruct (readinto pos count) as [k|e] eqn:Er; cbn [mbind res_bind mret res_ret].
  - destruct (Z.le_gt_cases count k) as [Hk|Hk].
    + left. rewrite Z.min_l by done. split; [done|]. apply length_file_read; lia.
    + right. split; [intros stage Hs Hw; destruct (Hw pos count) as (k' & E & ?); [lia|]; rewrite Er in E; injection E as <-; lia|].
      right. eexists. split; [done|]. unfold file_read. rewrite length_take, length_drop. lia.
  - right. split; [intros stage Hs Hw; destruct (Hw pos count) as (k' & E & ?); [lia|]; by rewrite Er in E|]. left. exists e. split; [done|]. right. by exists pos, count.
Qed.

Lemma copy_in_spec stage f pos dest n fuel : 0 < stage → 0 <= pos → pos + n <= Z.of_nat (length f) →
  ∀ copied m hashed crc, 0 <= copied <= n → n - copied <= Z.of_nat fuel →
  let tail := file_read f (pos + copied) (n - copied) in
  ∃ o m', copy_in readinto fuel stage f pos dest n copied m hashed crc = (o, m')
    ∧ (∀ a, ¬ inside (dest + copied) (n - copied) a → m' a = m a)
    ∧ match o with
      | Ok p => p = (hashed ++ tail, crc32 tail crc) ∧ ∀ a, m' a = mwrite m (dest + copied) tail a
      | Raise e => read_failure readinto e ∧ ¬ whole_reads readinto stage
      end.
Proof.
  intros Hs Hp Hn. induction fuel as [|fuel IH]; intros copied m hashed crc Hc Hf tail.
  - assert (tail = []) as -> by (apply nil_length_inv; unfold tail; rewrite length_file_read; lia).
    eexists _, m. split; [reflexivity|]. rewrite app_nil_r, crc32_nil. split_and!; [done..|]. intros a. by rewrite mwrite_nil.
  - cbn [copy_in]. destruct (Z.ltb_spec copied n) as [Hlt|Hge].
    + set (count := Z.min stage (n - copied)). assert (0 < count <= n - copied) as Hcount by lia.
      destruct (raw_read_cases f (pos + copied) count) as [[-> Hl]|[Hw [(e & -> & He)|(v & -> & Hv)]]]; [lia..| | |].
      2: { exists (Raise e), m. split; [done|]. split; [done|]. split; [done|apply Hw; lia]. }
      2: { eexists _, m. rewrite (proj2 (Z.eqb_neq _ _) Hv). cbn [negb]. split; [reflexivity|]. split; [done|]. split; [by left|apply Hw; lia]. }
      rewrite Hl. rewrite Z2Nat.id, Z.eqb_refl by lia. simpl negb. cbv iota.
      destruct (IH (copied + count) (mwrite m (dest + copied) (file_read f (pos + copied) count))
        (hashed ++ file_read f (pos + copied) count) (crc32 (file_read f (pos + copied) count) crc)) as (o & m' & E & Hout & Hm); [lia..|].
      exists o, m'. split; [exact E|]. split.
      { intros a Ha. rewrite Hout by (unfold inside in *; lia). apply mwrite_outside. rewrite Hl. unfold inside in *. lia. }
      destruct o as [p|e]; [|done]. destruct Hm as [-> Hm].
      assert (tail = file_read f (pos + copied) count ++ file_read f (pos + (copied + count)) (n - (copied + count))) as Ht.
      { unfold tail. rewrite (file_read_split _ _ _ count) by lia. f_equal. f_equal; lia. }
      rewrite Ht, <- app_assoc, crc32_app. split; [done|]. intros a. rewrite Hm, <- mwrite_app. rewrite Hl.
      f_equal. lia.
    + assert (tail = []) as -> by (apply nil_length_inv; unfold tail; rewrite length_file_read; lia).
      eexists _, m. split; [reflexivity|]. rewrite app_nil_r, crc32_nil. split_and!; [done..|]. intros a. by rewrite mwrite_nil.
Qed.

(** A resolved storage whose entry describes the bytes [data] found at its offset of [f]
    and whose destination is [p]. *)
Definition ready (blob_offset : Z) (f : pybytes) (te : tensor * json) (job : Z * pybytes) : Prop :=
  s_data_ptr (untyped_storage te.1) = job.1 ∧ entry_int "nbytes" te.2 = Ok (Z.of_nat (length job.2))
  ∧ (∃ o, entry_int "offset" te.2 = Ok o ∧ 0 <= blob_offset + o
        ∧ blob_offset + o + Z.of_nat (length job.2) <= Z.of_nat (length f)
        ∧ file_read f (blob_offset + o) (Z.of_nat (length job.2)) = job.2)
  ∧ jget "crc32" te.2 = Some (JStr (crc_hex (crc32 job.2 0))) ∧ jget "sha256" te.2 = Some (JStr (hexdigest job.2)).

Lemma restore_storage_spec preverified stage blob_offset f te job m : 0 < stage → ready blob_offset f te job →
  ∃ o m', restore_storage readinto preverified stage blob_offset f te m = (o, m')
    ∧ (∀ a, ¬ inside job.1 (Z.of_nat (length job.2)) a → m' a = m a)
    ∧ match o with
      | Ok n => n = Z.of_nat (length job.2) ∧ ∀ a, m' a = mwrite m job.1 job.2 a
      | Raise e => read_failure readinto e ∧ ¬ whole_reads readinto stage
      end.
Proof.
  intros Hs (Hp & Hn & (o & Ho & Ho0 & Hlen & Hr) & Hcrc & Hsha). destruct te as [t entry], job as [p data]. simpl in *.
  unfold restore_storage. rewrite Hn, Ho. cbn [mbind res_bind mret res_ret]. rewrite Hp.
  destruct (copy_in_spec stage f (blob_offset + o) p (Z.of_nat (length data)) (Z.to_nat (Z.of_nat (length data))) Hs Ho0 Hlen
    0 m [] 0%N) as (out & m' & E & Hout & Hm); [lia..|].
  rewrite !Z.add_0_r, !Z.sub_0_r in *. rewrite Hr in Hm. rewrite E. destruct out as [[hashed crc]|e]; [|by exists (Raise e), m'].
  destruct Hm as [[= -> ->] Hm]. eexists _, m'. split; [reflexivity|]. split; [done|]. cbn [app]. rewrite Hcrc, Hsha.
  unfold opt_is. cbn [default from_option id py_eq]. rewrite !bool_decide_true by done. by destruct preverified.
Qed.

Definition disjoint_jobs (a b : Z * pybytes) : Prop :=
  ∀ x, inside a.1 (Z.of_nat (length a.2)) x → ¬ inside b.1 (Z.of_nat (length b.2)) x.

Lemma restore_loop_spec preverified stage blob_offset f resolved jobs : 0 < stage →
  Forall2 (ready blob_offset f) resolved jobs → ForallOrdPairs disjoint_jobs jobs → ∀ restored m,
  ∃ o m', restore_loop readinto preverified stage blob_offset f resolved restored m = (o, m')
    ∧ (∀ a, Forall (λ j, ¬ inside j.1 (Z.of_nat (length j.2)) a) jobs → m' a = m a)
    ∧ match o with
      | Ok total => total = restored + zsum ((λ j, Z.of_nat (length j.2)) <$> jobs) ∧ Forall (λ j, mread m' j.1 (Z.of_nat (length j.2)) = j.2) jobs
      | Raise e => read_failure readinto e ∧ ¬ whole_reads readinto stage
      end.
Proof.
  intros Hs. induction 1 as [|te job resolved jobs Hte _ IH]; intros Hd restored m.
  - exists (Ok restored), m. cbn [restore_loop]. split; [done|]. split; [done|]. split; [cbn; lia|constructor].
  - inversion Hd as [|? ? Hd1 Hd2]; subst. cbn [restore_loop].
    destruct (restore_storage_spec preverified stage blob_offset f te job m Hs Hte) as (o1 & m1 & -> & Hout1 & Hm1). destruct o1 as [n|e].
    2: { exists (Raise e), m1. split; [done|]. split; [|done]. intros a [Ha _]%Forall_cons. by apply Hout1. }
    destruct Hm1 as [-> Hm1]. destruct (IH Hd2 (restored + Z.of_nat (length job.2)) m1) as (o & m' & -> & Hout & Hread). exists o, m'. split_and!; [done| |].
    + intros a [Ha1 Ha2]%Forall_cons. by rewrite Hout, Hout1.
    + destruct o as [total|e]; [|done]. destruct Hread as [-> Hread]. split; [unfold zsum; csimpl; lia|]. constructor; [|done].
      rewrite <- (mread_mwrite m m1 job.1 job.2 Hm1) at 2. apply mread_ext. intros a Ha.
      apply Hout. eapply Forall_impl; [exact Hd1|]. intros j Hj. by apply Hj.
Qed.
End reads.

(** ** The groups of a model *)

Lemma register_tensors_names kind skip l acc r : NoDup acc.*1 → register_tensors kind skip l acc = Ok r → NoDup r.*1.
Proof.
  revert acc. induction l as [|[name t] l IH]; intros acc Hn E; cbn [register_tensors] in E; [by res_inv|].
  destruct (bool_decide (name ∈ skip)); [by eapply IH|]. destruct (t_cuda t && (0 <? numel t)); [|by eapply IH].
  res_inv. guards. eapply IH; [|done]. rewrite fmap_app. apply NoDup_app. split_and!; [done| |apply NoDup_singleton].
  intros y Hy ->%list_elem_of_singleton. done.
Qed.

Lemma registered_names mdl tensors : registered_cuda_tensors mdl = Ok tensors → NoDup tensors.*1 ∧ tensors ≠ [].
Proof.
  unfold registered_cuda_tensors. intros H. res_inv. guards. split; [|by intros ->].
  eapply register_tensors_names; [|done]. eapply register_tensors_names; [|done]. constructor.
Qed.

Lemma tensor_lookup_elem name t l : NoDup l.*1 → tensor_lookup name l = Some t ↔ (name, t) ∈ l.
Proof.
  induction l as [|[k u] l IH]; intros Hn; [split; [done|by intros ?%elem_of_nil]|].
  apply NoDup_cons in Hn as [Hk Hn]. simpl in *. rewrite elem_of_cons. case_decide as Hd; subst.
  - split; [intros [= ->]; by left|]. intros [[= ->]|Hin]; [done|]. destruct Hk. apply list_elem_of_fmap. by exists (name, t).
  - rewrite IH by done. naive_solver.
Qed.

Notation named := (list N * tensor)%type (only parsing).
(** A group: its first tensor, which stands for the storage, and its other aliases. *)
Definition part : Type := named * list named.
Definition members (p : part) : list named := p.1 :: p.2.
Definition part_key (p : part) : Z * Z * Z := storage_key p.1.2.
Definition reference (nt : named) : json := tensor_reference nt.1 nt.2 (s_data_ptr (untyped_storage nt.2)).
Definition group_of (p : part) : tensor * list json := (p.1.2, reference <$> members p).

Arguments members _ : simpl never.
Arguments group_of _ : simpl never.
Arguments reference _ : simpl never.

Definition parts_ok (P : list part) : Prop :=
  Forall (λ p, Forall (λ nt, storage_key nt.2 = part_key p) (members p)) P ∧ NoDup (part_key <$> P).

Lemma group_of_snoc p nt : group_of (p.1, p.2 ++ [nt]) = (p.1.2, (reference <$> members p) ++ [reference nt]).
Proof. unfold group_of, members. cbn [fst snd]. by rewrite !fmap_cons, fmap_app. Qed.

Lemma add_to_group_spec nt P : parts_ok P → ∃ P',
  add_to_group (storage_key nt.2) nt.2 (reference nt) ((λ p, (part_key p, group_of p)) <$> P)
  = (λ p, (part_key p, group_of p)) <$> P'
  ∧ concat (members <$> P') ≡ₚ nt :: concat (members <$> P)
  ∧ (∀ k, k ∈ part_key <$> P' ↔ k = storage_key nt.2 ∨ k ∈ part_key <$> P) ∧ parts_ok P'.
Proof.
  induction P as [|p P IH]; intros [HF Hn].
  - exists [(nt, [])]. split_and!; [done..| |].
    + intros k. rewrite fmap_cons, !fmap_nil, list_elem_of_singleton, elem_of_nil. unfold part_key. simpl. tauto.
    + split; [|apply NoDup_singleton]. by repeat constructor.
  - csimpl. apply Forall_cons in HF as [Hp HF]. rewrite fmap_cons in Hn. apply NoDup_cons in Hn as [Hk Hn]. unfold group_of at 1. case_decide as Hd.
    + exists ((p.1, p.2 ++ [nt]) :: P). csimpl. split_and!.
      * by rewrite group_of_snoc.
      * transitivity ((members p ++ [nt]) ++ concat (members <$> P)); [done|].
        rewrite <- (app_assoc (members p)). symmetry. apply (Permutation_middle (members p)).
      * intros k. change (part_key (p.1, p.2 ++ [nt])) with (part_key p). rewrite elem_of_cons, <- Hd. naive_solver.
      * split; [|by constructor]. constructor; [|done]. change (members _) with (members p ++ [nt]).
        apply Forall_app. split; [done|]. by repeat constructor.
    + destruct (IH (conj HF Hn)) as (P' & -> & Hperm & Hkeys & HF' & Hn'). exists (p :: P'). csimpl. split_and!.
      * done.
      * rewrite Hperm. symmetry. apply (Permutation_middle (members p)).
      * intros k. rewrite !elem_of_cons, Hkeys. naive_solver.
      * split; [by constructor|]. constructor; [|done]. rewrite Hkeys. naive_solver.
Qed.

Lemma group_fold_spec l P : parts_ok P → ∃ P',
  foldl (λ gs nt, add_to_group (storage_key nt.2) nt.2 (reference nt) gs) ((λ p, (part_key p, group_of p)) <$> P) l
  = (λ p, (part_key p, group_of p)) <$> P'
  ∧ concat (members <$> P') ≡ₚ l ++ concat (members <$> P) ∧ parts_ok P'.
Proof.
  revert P. induction l as [|nt l IH]; intros P HP; simpl; [by exists P|].
  destruct (add_to_group_spec nt P HP) as (P1 & -> & Hperm & _ & HP1).
  destruct (IH P1 HP1) as (P' & -> & Hperm' & HP'). exists P'. split_and!; [done| |done].
  rewrite Hperm', Hperm. symmetry. apply Permutation_middle.
Qed.

(** The groups partition the registered tensors by storage. *)
Lemma storage_groups_spec mdl tensors : registered_cuda_tensors mdl = Ok tensors → ∃ P,
  storage_groups mdl = Ok (group_of <$> P) ∧ concat (members <$> P) ≡ₚ tensors ∧ parts_ok P.
Proof.
  intros Hr. unfold storage_groups, group_tensors. rewrite Hr. cbn [mbind res_bind mret res_ret].
  destruct (group_fold_spec (py_sorted name_leb tensors) []) as (P & E & Hperm & HF & Hn); [split; constructor|].
  simpl fmap in E. pose proof (py_sorted_perm group_leb (snd <$> ((λ p, (part_key p, group_of p)) <$> P))) as Hs.
  rewrite <- (list_fmap_compose _ _ P) in Hs. apply Permutation_map_inv in Hs as (P' & Es & Hp). exists P'. split_and!.
  - trans (Ok (py_sorted group_leb (snd <$> ((λ p, (part_key p, group_of p)) <$> P)))); [by rewrite <- E|].
    rewrite <- list_fmap_compose. by rewrite Es.
  - rewrite <- Hp, Hperm, app_nil_r. apply py_sorted_perm.
  - split; by rewrite <- Hp.
Qed.

(** ** Resolving a manifest against another model *)

(** Two processes registered the same tensors: same names, references and storage sizes,
    and the same tensors share a storage. *)
Record compatible (ta tb : list named) : Prop := {
  co_names : ta.*1 ≡ₚ tb.*1;
  co_reference : ∀ n a b, (n, a) ∈ ta → (n, b) ∈ tb → reference (n, a) = reference (n, b);
  co_nbytes : ∀ n a b, (n, a) ∈ ta → (n, b) ∈ tb → s_nbytes (untyped_storage a) = s_nbytes (untyped_storage b);
  co_alias : ∀ n a b n' a' b', (n, a) ∈ ta → (n, b) ∈ tb → (n', a') ∈ ta → (n', b') ∈ tb →
    storage_key a = storage_key a' ↔ storage_key b = storage_key b';
}.

(** What [dict.get] finds in a value read back from its sorted text. *)
Lemma getattr_sorted k d : NoDup d.*1 → getattr_get k (sort_keys (JObj d)) = Ok (sort_keys <$> dict_get (lit k) d).
Proof. intros H. rewrite sort_keys_obj. cbn [getattr_get]. by rewrite dict_get_sort. Qed.

Lemma jget_sorted k d : NoDup d.*1 → jget k (sort_keys (JObj d)) = sort_keys <$> dict_get (lit k) d.
Proof. intros H. rewrite sort_keys_obj. cbn [jget]. by rewrite dict_get_sort. Qed.

Lemma reference_get nt : ref_name (sort_keys (reference nt)) = Ok (JStr nt.1).
Proof. unfold ref_name, reference, tensor_reference. rewrite getattr_sorted; [done|]. by apply has_dups_false. Qed.

Section resolve.
Context (ta tb : list named).
Hypothesis Ha : NoDup ta.*1.
Hypothesis Hb : NoDup tb.*1.
Hypothesis Hco : compatible ta tb.
Hypothesis Hexact : Forall (λ nt, exact (reference nt) = true) ta.

Lemma counterpart n a : (n, a) ∈ ta → ∃ b, (n, b) ∈ tb ∧ tensor_lookup n tb = Some b.
Proof.
  intros Hin. assert (n ∈ tb.*1) as Hn.
  { rewrite <- (co_names _ _ Hco). apply list_elem_of_fmap. by exists (n, a). }
  apply list_elem_of_fmap in Hn as ([n' b] & -> & Hin'). exists b. split; [done|]. by apply tensor_lookup_elem.
Qed.

Lemma find_counterpart n a b : (n, a) ∈ ta → (n, b) ∈ tb → find_tensor tb (JStr n) = Ok (n, b).
Proof. intros _ H. simpl. by rewrite (proj2 (tensor_lookup_elem _ _ _ Hb) H). Qed.

Lemma check_refs_spec n0 a0 b0 l : (n0, a0) ∈ ta → (n0, b0) ∈ tb →
  Forall (λ nt, nt ∈ ta ∧ storage_key nt.2 = storage_key a0) l → ∀ saved, NoDup (saved ++ l.*1) →
  check_refs tb (storage_key b0) (sort_keys <$> (reference <$> l)) saved = Ok (saved ++ l.*1).
Proof.
  intros H1 H2. induction 1 as [|[n a] l [Hin Hk] _ IH]; intros saved Hn; [csimpl; by rewrite app_nil_r|].
  rewrite !fmap_cons in *. cbn [check_refs]. rewrite reference_get. cbn [mbind res_bind fst]. destruct (counterpart n a Hin) as (b & Hinb & _).
  apply raise_if_bind.
  { apply bool_decide_eq_false. intros Hs. apply NoDup_app in Hn as (_ & Hd & _). apply (Hd n Hs). left. }
  rewrite (find_counterpart n a b) by done. cbn [mbind res_bind]. simpl in Hk, Hn.
  assert (storage_key b = storage_key b0) as Hkb by by apply (co_alias _ _ Hco n a b n0 a0 b0).
  apply raise_if_bind; [by rewrite bool_decide_true|].
  apply raise_if_bind.
  { apply negb_false_iff, bool_decide_eq_true. apply length_zero_iff_nil.
    replace (tensor_reference n b (storage_key b0).1.1) with (reference (n, b)) by (rewrite <- Hkb; done).
    rewrite <- (co_reference _ _ Hco n a b) by done.
    rewrite Forall_forall in Hexact. pose proof (Hexact _ Hin) as He. unfold mismatches. apply mismatches_fuel; [done| | |].
    - apply exact_dicts_ok. by rewrite exact_sort_keys.
    - by apply exact_dicts_ok.
    - by apply py_eq_sort_keys. }
  rewrite IH; [|by rewrite <- app_assoc]. by rewrite <- app_assoc.
Qed.

(** What an entry must say of its group. *)
Definition describes (p : part) (e : json) : Prop :=
  getattr_get "refs" e = Ok (Some (JArr (sort_keys <$> (reference <$> members p))))
  ∧ getattr_get "nbytes" e = Ok (Some (JInt (s_nbytes (untyped_storage p.1.2)))).

Definition target_of (p : part) (t : tensor) : Prop := (p.1.1, t) ∈ tb.

Lemma resolve_entries_spec E : Forall (λ pe, describes pe.1 pe.2) E → parts_ok E.*1 →
  Forall (λ p, Forall (λ nt, nt ∈ ta) (members p)) E.*1 → ∀ saved used,
  NoDup (saved ++ (concat (members <$> E.*1)).*1) →
  Forall (λ p, ∀ b, target_of p b → storage_key b ∉ used) E.*1 →
  ∃ R, resolve_entries tb E.*2 saved used = Ok (R, saved ++ (concat (members <$> E.*1)).*1)
       ∧ Forall2 (λ pe te, te.2 = pe.2 ∧ target_of pe.1 te.1) E R.
Proof.
  induction 1 as [|[p e] E [Hrefs Hn] _ IH]; intros [HF Hnd] Hin saved used Hsaved Hused.
  { exists []. csimpl. by rewrite app_nil_r. }
  rewrite !fmap_cons in *. cbn [concat fst snd] in *. rewrite fmap_app in *.
  apply Forall_cons in HF as [Hp HF]. apply NoDup_cons in Hnd as [Hk Hnd]. apply Forall_cons in Hin as [Hi Hin].
  apply Forall_cons in Hused as [Hu Hused]. pose proof (Forall_inv Hi) as Hina.
  destruct p as [[n a] rest]. destruct (counterpart n a Hina) as (b & Hinb & Hlook).
  assert (resolve_entries tb (e :: E.*2) saved used
    = ('(rest, saved2) ← resolve_entries tb E.*2 (saved ++ (members ((n, a), rest)).*1) (storage_key b :: used);
       mret ((b, e) :: rest, saved2))) as ->.
  { cbn [resolve_entries]. unfold refs_of. rewrite Hrefs, Hn. cbn [mbind res_bind mret res_ret head of_option fst snd].
    change (members ((n, a), rest)) with ((n, a) :: rest). rewrite !fmap_cons. cbn [head hd_error of_option mbind res_bind mret res_ret].
    rewrite reference_get. cbn [mbind res_bind fst]. rewrite (find_counterpart n a b) by done. cbn [mbind res_bind].
    apply raise_if_bind; [apply bool_decide_eq_false; by apply Hu|]. cbn [default from_option id int_of_json mbind res_bind mret res_ret].
    apply raise_if_bind; [rewrite <- (co_nbytes _ _ Hco n a b) by done; by rewrite Z.eqb_refl|].
    rewrite <- !fmap_cons. rewrite (check_refs_spec n a b); [done|done|done| |].
    - change ((n, a) :: rest) with (members ((n, a), rest)). rewrite Forall_forall in *. naive_solver.
    - change ((n, a) :: rest) with (members ((n, a), rest)). rewrite app_assoc in Hsaved.
      by apply NoDup_app in Hsaved as [? _]. }
  rewrite app_assoc in Hsaved. destruct (IH (conj HF Hnd) Hin _ (storage_key b :: used) Hsaved) as (R & -> & HR).
  - apply Forall_forall. intros q Hq c Hc [Hcb|Hcu]%elem_of_cons; [|by apply (proj1 (Forall_forall _ _) Hused q Hq c)].
    apply Hk. apply list_elem_of_fmap. exists q. split; [|done]. destruct q as [[n' a'] rest'].
    rewrite Forall_forall in Hin. pose proof (Forall_inv (Hin _ Hq)) as Ha'. unfold part_key. simpl.
    by apply (co_alias _ _ Hco n a b n' a' c).
  - exists ((b, e) :: R). cbn [mbind res_bind mret res_ret]. split; [by rewrite <- app_assoc|]. by constructor.
Qed.
End resolve.

(** ** The manifest of a capture, read back *)

Lemma hex_scalar b : is_bytes b → forallb scalar (tohex b) = true.
Proof.
  intros H%tohex_lower. apply forallb_forall. intros c Hc%list_elem_of_In. rewrite Forall_forall in H.
  specialize (H c Hc). unfold is_lower_hex in H. unfold scalar. apply orb_true_iff. left. apply N.ltb_lt.
  apply orb_true_iff in H as [[? H]%andb_true_iff|[? H]%andb_true_iff]; apply N.leb_le in H; lia.
Qed.

Lemma exact_entry m t refs offset n : Forall (λ r, exact r = true) refs → exact (entry_of m (t, refs, offset, n)) = true.
Proof.
  intros H. unfold entry_of, entry_json. cbn [exact]. apply andb_true_iff. split; [|by vm_compute].
  cbn [forallb fst snd exact]. unfold crc_hex, hexdigest. rewrite !hex_scalar by eauto using be_bytes_ok, sha256_bytes.
  assert (forallb exact refs = true) as ->; [|by vm_compute].
  rewrite Forall_forall in H. apply forallb_forall. intros r Hr%list_elem_of_In. auto.
Qed.

Definition entry_items (m : memory) (p : placed) : list (list N * json) :=
  match entry_of m p with JObj d => d | _ => [] end.

Lemma entry_of_items m p : entry_of m p = JObj (entry_items m p) ∧ NoDup (entry_items m p).*1.
Proof. destruct p as [[[t refs] o] n]. split; [done|]. by apply has_dups_false. Qed.

(** The fields of an entry read back. *)
Lemma entry_fields m t refs o n : let e := sort_keys (entry_of m (t, refs, o, n)) in
  let bytes := mread m (s_data_ptr (untyped_storage t)) n in
  getattr_get "refs" e = Ok (Some (JArr (sort_keys <$> refs))) ∧ getattr_get "nbytes" e = Ok (Some (JInt n))
  ∧ entry_int "nbytes" e = Ok n ∧ entry_int "offset" e = Ok o
  ∧ jget "crc32" e = Some (JStr (crc_hex (crc32 bytes 0))) ∧ jget "sha256" e = Some (JStr (hexdigest bytes)).
Proof.
  intros e bytes. unfold e. destruct (entry_of_items m (t, refs, o, n)) as [-> Hn].
  unfold entry_int. rewrite !getattr_sorted, !jget_sorted by done.
  assert (∀ k, subscript k (sort_keys (JObj (entry_items m (t, refs, o, n))))
    = of_option KeyError k (sort_keys <$> dict_get (lit k) (entry_items m (t, refs, o, n)))) as Hs.
  { intros k. rewrite sort_keys_obj. cbn [subscript]. by rewrite dict_get_sort. }
  rewrite !Hs. done.
Qed.

Definition manifest_items (identity : json) (total : Z) (sha : pystr) (entries : list json) : list (list N * json) :=
  match manifest_json identity total sha entries with JObj d => d | _ => [] end.

Lemma load_items l identity blob : exact (JObj l) = true → exact identity = true →
  dict_get (lit "format") l = Some (JInt ARTIFACT_FORMAT) → dict_get (lit "kind") l = Some (JStr ARTIFACT_KIND) →
  dict_get (lit "identity") l = Some identity → dict_get (lit "blob_bytes") l = Some (JInt (Z.of_nat (length blob))) →
  load_manifest (Directory (Some (canonical_bytes (JObj l) ++ [10%N])) (Some blob)) (Some identity) None 0
  = Ok (sort_keys (JObj l)).
Proof.
  intros Hl Hi Hf Hk Hid Hb. pose proof (exact_keys l Hl) as Hn.
  unfold load_manifest. cbn [manifest_file blob_file of_option mbind res_bind].
  unfold canonical_bytes. assert (ascii_text (dumps canonical_style (JObj l) ++ [10%N])) as Ha%utf8_ascii.
  { apply Forall_app. split; [|by repeat constructor]. apply dumps_ascii; [by repeat constructor|done]. }
  rewrite (proj2 Ha). cbn [of_option mbind res_bind].
  rewrite loads_dumps_blank; [|apply canonical_style_ok|done|by vm_compute]. cbn [of_option mbind res_bind].
  rewrite !getattr_sorted, Hf, Hk, Hid, Hb by done.
  cbn [mbind res_bind fmap option_fmap option_map default from_option id].
  assert (opt_is (Some (sort_keys (JInt ARTIFACT_FORMAT))) (JInt ARTIFACT_FORMAT) = true) as -> by reflexivity.
  assert (opt_is (Some (sort_keys (JStr ARTIFACT_KIND))) (JStr ARTIFACT_KIND) = true) as Hkind by by vm_compute.
  cbn [mbind res_bind negb orb]. rewrite Hkind. cbn [mbind res_bind negb raise_if mret res_ret].
  assert (mismatches identity (sort_keys identity) (lit "identity") = []) as ->.
  { apply mismatches_fuel; [done|by apply exact_dicts_ok|apply exact_dicts_ok; by rewrite exact_sort_keys|].
    by apply py_eq_sort_keys. }
  cbn [length]. rewrite bool_decide_true by done.
  cbn [negb raise_if mbind res_bind mret res_ret of_option sort_keys int_of_json]. change (0 <? 0) with false.
  cbn [negb raise_if mbind res_bind mret res_ret of_option fmap option_fmap option_map].
  by rewrite Z.add_0_l, Z.eqb_refl.
Qed.

Lemma exact_manifest identity total sha entries : exact identity = true → Forall (λ e, exact e = true) entries →
  forallb scalar sha = true → exact (JObj (manifest_items identity total sha entries)) = true.
Proof.
  intros Hi He Hs. unfold manifest_items, manifest_json. cbn [exact]. apply andb_true_iff. split; [|by vm_compute].
  cbn [forallb fst snd exact]. unfold hexdigest. rewrite Hi, Hs, !hex_scalar by apply sha256_bytes.
  assert (forallb exact entries = true) as ->; [|by vm_compute].
  rewrite Forall_forall in He. apply forallb_forall. intros r Hr%list_elem_of_In. auto.
Qed.

(** ** Capture as a whole *)

Lemma layout_parts P : ∀ position layout total, layout_from position (group_of <$> P) = (layout, total) →
  Forall2 (λ (p : part) (pl : placed), ∃ o, pl = (p.1.2, reference <$> members p, o, s_nbytes (untyped_storage p.1.2))) P layout.
Proof.
  induction P as [|p P IH]; intros position layout total E; [simpl in E; simplify_eq; constructor|].
  change (group_of <$> p :: P) with ((p.1.2, reference <$> members p) :: (group_of <$> P)) in E.
  cbn [layout_from] in E. destruct (layout_from _ (group_of <$> P)) as [rest tot] eqn:El. simplify_eq.
  constructor; [by eexists|]. by eapply IH.
Qed.

Lemma parts_elem P ta p : concat (members <$> P) ≡ₚ ta → p ∈ P → ∀ nt, nt ∈ members p → nt ∈ ta.
Proof.
  intros Hp Hin nt Hnt. rewrite <- Hp. apply list_elem_of_In, in_concat. exists (members p).
  split; apply list_elem_of_In; [|done]. apply list_elem_of_fmap. eauto.
Qed.

Lemma elem_parts P ta nt : concat (members <$> P) ≡ₚ ta → nt ∈ ta → ∃ p, p ∈ P ∧ nt ∈ members p.
Proof.
  intros Hp Hin. rewrite <- Hp in Hin. apply list_elem_of_In, in_concat in Hin as (l & Hl & Hnt).
  apply list_elem_of_In in Hl, Hnt. apply list_elem_of_fmap in Hl as (p & -> & ?). eauto.
Qed.

Lemma parts_sizes P ta : concat (members <$> P) ≡ₚ ta → Forall (λ nt, 0 < s_nbytes (untyped_storage nt.2)) ta →
  sizes_ok (group_of <$> P).
Proof.
  intros Hp Hs. apply Forall_fmap, Forall_forall. intros p Hin. rewrite Forall_forall in Hs.
  apply (Hs p.1). eapply parts_elem; [done..|]. left.
Qed.

Section captured.
Context {W : Type} (limit : Z) (blob_after : W → pybytes) (path : pybytes) (d : directory) (mdl : model) (m : memory)
  (identity : json) (chunk depth : Z) (replace : bool) (ta : list named).
Hypothesis Hreg : registered_cuda_tensors mdl = Ok ta.
Hypothesis Hsizes : Forall (λ nt, 0 < s_nbytes (untyped_storage nt.2)) ta.
Hypothesis Hchunk : chunk <= limit.
Hypothesis Hlimit : 4096 <= limit.

(** Unless a check of [capture] fails, the files it publishes. *)
Lemma captured w : is_ok (capture_plan d mdl identity chunk depth replace) = true → ∃ P layout total,
  concat (members <$> P) ≡ₚ ta ∧ parts_ok P ∧ layout_from 0 (group_of <$> P) = (layout, total)
  ∧ sizes_ok (group_of <$> P) ∧ P ≠ []
  ∧ capture_artifact limit (Ok None) blob_after path d mdl m identity chunk depth replace w
    = (Ok (publish identity (expected_blob m layout 0) (hexdigest (expected_blob m layout 0)) total (lit "python")
             (entry_of m <$> layout)), w).
Proof.
  intros Hplan. destruct (storage_groups_spec mdl ta Hreg) as (P & HP & Hperm & Hok).
  destruct (layout_from 0 (group_of <$> P)) as [layout total] eqn:El. exists P, layout, total.
  pose proof (parts_sizes _ _ Hperm Hsizes) as Hs.
  assert (P ≠ []) as Hne.
  { intros ->. destruct (registered_names _ _ Hreg) as [_ []]. symmetry. by apply Permutation_nil_l. }
  split_and!; try done. unfold capture_artifact.
  destruct (capture_plan d mdl identity chunk depth replace) as [r|e] eqn:E; [|done].
  unfold capture_plan in E. res_inv. guards. rewrite HP in *. res_inv. rewrite El in *. res_inv.
  cbn [mbind res_bind mret res_ret]. rewrite (capture_python_spec limit chunk m (group_of <$> P) layout total); [done| |done|lia|done..].
  by destruct P.
Qed.

(** Every storage of the model is in the blob. *)
Lemma blob_holds P layout total nt : concat (members <$> P) ≡ₚ ta → parts_ok P →
  layout_from 0 (group_of <$> P) = (layout, total) → sizes_ok (group_of <$> P) → nt ∈ ta →
  ∃ t refs offset, (t, refs, offset, s_nbytes (untyped_storage nt.2)) ∈ layout ∧ storage_key t = storage_key nt.2
    ∧ reference nt ∈ refs ∧ 0 <= offset ∧ offset mod 4096 = 0
    ∧ file_read (expected_blob m layout 0) offset (s_nbytes (untyped_storage nt.2))
      = mread m (s_data_ptr (untyped_storage nt.2)) (s_nbytes (untyped_storage nt.2)).
Proof.
  intros Hperm [HF _] El Hs Hin. destruct (elem_parts _ _ _ Hperm Hin) as (p & Hp & Hnt).
  pose proof (layout_parts _ _ _ _ El) as HL. apply list_elem_of_lookup in Hp as [i Hi].
  destruct (Forall2_lookup_l _ _ _ _ _ HL Hi) as (pl & Hpl & o & ->).
  rewrite Forall_forall in HF. apply list_elem_of_lookup_2 in Hi, Hpl.
  pose proof (HF p Hi) as Hk. rewrite Forall_forall in Hk. specialize (Hk nt Hnt). unfold part_key in Hk.
  assert (s_nbytes (untyped_storage nt.2) = s_nbytes (untyped_storage p.1.2)
    ∧ s_data_ptr (untyped_storage nt.2) = s_data_ptr (untyped_storage p.1.2)) as [-> ->] by (unfold storage_key in Hk; by simplify_eq).
  destruct (expected_blob_read m _ Hs 0 layout total _ _ _ _ (Z.le_refl 0) El Hpl) as (? & ? & _ & _ & _ & _ & E).
  rewrite Z.sub_0_r in E. exists p.1.2, (reference <$> members p), o. split_and!; try done.
  apply list_elem_of_fmap. eauto.
Qed.
End captured.

(** Capture is complete and self-describing: with valid arguments it succeeds, and
    the artifact it publishes holds every registered tensor's storage, byte for byte, at
    a 4096-byte aligned offset of the blob, in an entry that lists the tensor and states
    the CRC32 and SHA-256 of exactly those bytes; the manifest states the blob's own
    length and SHA-256. *)
Theorem capture_complete {W} limit (blob_after : W → pybytes) path d mdl m identity chunk depth ta (w : W) :
  registered_cuda_tensors mdl = Ok ta → Forall (λ nt, 0 < s_nbytes (untyped_storage nt.2)) ta →
  0 < chunk <= limit → 4096 <= limit → 1 <= depth <= 64 →
  ∃ blob entries metrics,
    capture_artifact limit (Ok None) blob_after path d mdl m identity chunk depth true w
    = (Ok (Directory (Some (canonical_bytes (manifest_json identity (Z.of_nat (length blob)) (hexdigest blob) entries)
                            ++ [10%N])) (Some blob), metrics), w)
    ∧ Forall (λ nt, let n := s_nbytes (untyped_storage nt.2) in
        let bytes := mread m (s_data_ptr (untyped_storage nt.2)) n in
        ∃ offset refs, offset mod 4096 = 0 ∧ file_read blob offset n = bytes ∧ reference nt ∈ refs
          ∧ entry_json offset n (crc_hex (crc32 bytes 0)) (hexdigest bytes) refs ∈ entries) ta.
Proof.
  intros Hreg Hsz Hc Hl Hd.
  assert (is_ok (capture_plan d mdl identity chunk depth true) = true) as Hplan.
  { unfold capture_plan. destruct (storage_groups_spec mdl ta Hreg) as (P & -> & _).
    replace (chunk <=? 0) with false by lia. replace ((1 <=? depth) && (depth <=? 64)) with true by lia.
    simpl. by destruct (layout_from 0 (group_of <$> P)). }
  destruct (captured limit blob_after path d mdl m identity chunk depth true ta Hreg Hsz ltac:(lia) Hl w Hplan)
    as (P & layout & total & Hperm & Hok & El & Hs & _ & E).
  pose proof (layout_from_total m _ _ _ _ (Z.le_refl 0) Hs El) as [Ht _]. rewrite Z.sub_0_r in Ht.
  exists (expected_blob m layout 0), (entry_of m <$> layout). eexists. split; [rewrite E, Ht; done|].
  apply Forall_forall. intros nt Hin n bytes.
  destruct (blob_holds m ta P layout total nt Hperm Hok El Hs Hin) as (t & refs & o & Hpl & Hk & Href & _ & Hal & Hr).
  exists o, refs. split_and!; try done. apply list_elem_of_fmap. eexists. split; [|done].
  assert (s_data_ptr (untyped_storage t) = s_data_ptr (untyped_storage nt.2)) as Hp by (unfold storage_key in Hk; congruence).
  unfold entry_of. by rewrite Hp.
Qed.

(** Storages of one process never overlap. *)
Definition storages_disjoint (tb : list named) : Prop := ∀ n b n' b', (n, b) ∈ tb → (n', b') ∈ tb →
  storage_key b ≠ storage_key b' → ∀ x, inside (s_data_ptr (untyped_storage b)) (s_nbytes (untyped_storage b)) x →
  ¬ inside (s_data_ptr (untyped_storage b')) (s_nbytes (untyped_storage b')) x.

Section round_trip.
Context (ta tb : list named) (m : memory).
Hypothesis Ha : NoDup ta.*1.
Hypothesis Hco : compatible ta tb.
Hypothesis Hdis : storages_disjoint tb.

(** The copy a resolved storage asks for. *)
Definition job_of (x : part * placed) (te : tensor * json) : Z * pybytes :=
  (s_data_ptr (untyped_storage te.1), storage_bytes_of m x.2).

(** A group, where it went, and the storage it resolved to. *)
Definition matched (blob : pybytes) (x : part * placed) (te : tensor * json) : Prop :=
  te.2 = sort_keys (entry_of m x.2) ∧ target_of tb x.1 te.1 ∧ x.1.1 ∈ ta
  ∧ ∃ refs o, x.2 = (x.1.1.2, refs, o, s_nbytes (untyped_storage x.1.1.2)) ∧ 0 <= o
    ∧ o + s_nbytes (untyped_storage x.1.1.2) <= Z.of_nat (length blob)
    ∧ file_read blob o (s_nbytes (untyped_storage x.1.1.2)) = storage_bytes_of m x.2
    ∧ 0 < s_nbytes (untyped_storage x.1.1.2).

Lemma matched_length blob x te : matched blob x te →
  Z.of_nat (length (job_of x te).2) = s_nbytes (untyped_storage x.1.1.2)
  ∧ s_nbytes (untyped_storage te.1) = s_nbytes (untyped_storage x.1.1.2).
Proof.
  intros (_ & Ht & Hin & refs & o & E & _ & _ & _ & Hn). unfold job_of. rewrite E. cbn [fst snd storage_bytes_of].
  rewrite length_mread, Z2Nat.id by lia. split; [done|]. symmetry. destruct x as [[[n a] rest] pl].
  by apply (co_nbytes _ _ Hco n).
Qed.

Lemma matched_ready blob x te : matched blob x te → ready 0 blob te (job_of x te).
Proof.
  intros Hm. pose proof (matched_length _ _ _ Hm) as [Hl _]. destruct Hm as (E & _ & _ & refs & o & Ex & Ho & Hb & Hr & Hn).
  unfold ready. rewrite Hl, E. unfold job_of. rewrite Ex in *. cbn [fst snd storage_bytes_of] in *.
  destruct (entry_fields m x.1.1.2 refs o (s_nbytes (untyped_storage x.1.1.2))) as (_ & _ & -> & -> & -> & ->).
  split_and!; try done. by exists o.
Qed.

Lemma jobs_elem blob T R j : Forall2 (matched blob) T R → j ∈ zip_with job_of T R →
  ∃ x te, j = job_of x te ∧ x ∈ T ∧ matched blob x te.
Proof.
  intros HT (i & x & te & -> & Hx & Hte)%elem_of_lookup_zip_with_1.
  exists x, te. split_and!; [done|by eapply list_elem_of_lookup_2|]. by eapply Forall2_lookup_lr.
Qed.

Lemma matched_alias blob blob' x te x' te' : matched blob x te → matched blob' x' te' →
  part_key x.1 = part_key x'.1 ↔ storage_key te.1 = storage_key te'.1.
Proof.
  intros (_ & Ht & Hin & _) (_ & Ht' & Hin' & _). destruct x as [[[n a] rest] pl], x' as [[[n' a'] rest'] pl'].
  by apply (co_alias _ _ Hco n a te.1 n' a' te'.1).
Qed.

Lemma matched_disjoint blob T R : Forall2 (matched blob) T R → NoDup (part_key <$> T.*1) →
  ForallOrdPairs disjoint_jobs (zip_with job_of T R).
Proof.
  induction 1 as [|x te T R Hx HT IH]; intros Hn; [constructor|]. rewrite !fmap_cons in Hn.
  apply NoDup_cons in Hn as [Hk Hn]. cbn [zip_with]. constructor; [|by apply IH].
  apply Forall_forall. intros j Hj. destruct (jobs_elem _ _ _ _ HT Hj) as (x' & te' & -> & Hin' & Hx').
  unfold disjoint_jobs. rewrite (proj1 (matched_length _ _ _ Hx)), (proj1 (matched_length _ _ _ Hx')).
  rewrite <- (proj2 (matched_length _ _ _ Hx)), <- (proj2 (matched_length _ _ _ Hx')).
  eapply Hdis; [apply Hx|apply Hx'|]. intros E%(matched_alias _ _ _ _ _ _ Hx Hx'). apply Hk. rewrite E.
  apply list_elem_of_fmap. exists x'.1. split; [done|]. apply list_elem_of_fmap. eauto.
Qed.
End round_trip.

Lemma zip_parts {A B} (R : A → B → Prop) P L : Forall2 R P L → (zip P L).*1 = P ∧ (zip P L).*2 = L.
Proof. intros H%Forall2_length. split; [apply fst_zip|apply snd_zip]; lia. Qed.

Lemma zip_matches {A B} (R : A → B → Prop) P L : Forall2 R P L → Forall (λ x, R x.1 x.2) (zip P L).
Proof. induction 1; simpl; constructor; done. Qed.

Lemma Forall2_with {A B} (Q : A → Prop) (R S : A → B → Prop) l k :
  Forall Q l → Forall2 R l k → (∀ x y, Q x → R x y → S x y) → Forall2 S l k.
Proof. intros HQ HR H. induction HR; [constructor|]. apply Forall_cons in HQ as [? ?]. constructor; auto. Qed.

(** The captured entries resolve, each to the storage of the same tensors. *)
Lemma captured_resolves mdl ta tb m P layout total :
  registered_cuda_tensors mdl = Ok tb → NoDup ta.*1 → compatible ta tb → Forall (λ nt, exact (reference nt) = true) ta →
  concat (members <$> P) ≡ₚ ta → parts_ok P → layout_from 0 (group_of <$> P) = (layout, total) →
  sizes_ok (group_of <$> P) →
  ∃ R, resolve_storages mdl (sort_keys <$> (entry_of m <$> layout)) = Ok R
       ∧ Forall2 (matched ta tb m (expected_blob m layout 0)) (zip P layout) R.
Proof.
  intros Hreg Ha Hco Hex Hperm Hok El Hs. destruct (registered_names _ _ Hreg) as [Hb _].
  pose proof (layout_parts _ _ _ _ El) as HL. destruct (zip_parts _ _ _ HL) as [HP HL2].
  set (T := zip P layout) in *. set (E := (λ x : part * placed, (x.1, sort_keys (entry_of m x.2))) <$> T).
  assert (E.*1 = P) as E1 by (unfold E; by rewrite <- list_fmap_compose).
  assert (E.*2 = sort_keys <$> (entry_of m <$> layout)) as E2.
  { unfold E. rewrite <- list_fmap_compose. trans (sort_keys <$> (entry_of m <$> T.*2)); [|exact (f_equal (λ l : list placed, sort_keys <$> (entry_of m <$> l)) HL2)].
    by rewrite <- !list_fmap_compose. }
  assert ((concat (members <$> P)).*1 ≡ₚ ta.*1) as Hnames by by rewrite Hperm.
  destruct (resolve_entries_spec ta tb Hb Hco Hex E) with (saved := @nil (list N)) (used := @nil (Z * Z * Z))
    as (R & HR & HF); rewrite ?E1.
  - apply Forall_fmap. eapply Forall_impl; [apply (zip_matches _ _ _ HL)|]. intros [p pl] [o Ho]. cbn [fst snd] in Ho. subst pl. unfold compose, describes.
    cbn [fst snd]. by destruct (entry_fields m p.1.2 (reference <$> members p) o (s_nbytes (untyped_storage p.1.2))) as (-> & -> & _).
  - done.
  - apply Forall_forall. intros p Hp. apply Forall_forall. by eapply parts_elem.
  - by rewrite app_nil_l, Hnames.
  - apply Forall_forall. by intros p _ b _ ?%elem_of_nil.
  - rewrite E1, app_nil_l, E2 in HR. exists R. split.
    + unfold resolve_storages. rewrite Hreg. cbn [mbind res_bind]. rewrite HR. cbn [mbind res_bind].
      apply raise_if_bind; [|done]. apply not_true_iff_false. intros ([n b] & Hin & Hn)%existsb_exists.
      apply negb_true_iff, bool_decide_eq_false in Hn. apply Hn. rewrite Hnames, (co_names _ _ Hco).
      apply list_elem_of_fmap. exists (n, b). split; [done|]. by apply list_elem_of_In.
    + apply Forall2_fmap_l in HF. eapply Forall2_with; [|exact HF|].
      * apply Forall_forall. intros x Hx. exact (conj Hx (proj1 (Forall_forall _ _) (zip_matches _ _ _ HL) x Hx)).
      * intros [p pl] te [Hx [o Ho]] [Hte Htg]. cbn [fst snd] in *. apply elem_of_zip_r in Hx as Hpl.
        apply elem_of_zip_l in Hx. rewrite Ho in Hpl.
        destruct (expected_blob_read m _ Hs 0 layout total _ _ _ _ (Z.le_refl 0) El Hpl) as (? & ? & _ & ? & _ & ? & Er).
        pose proof (layout_from_total m _ _ _ _ (Z.le_refl 0) Hs El) as [Ht _]. rewrite Z.sub_0_r in Er.
        split_and!; [done|done|eapply parts_elem; [done..|left]|]. exists (reference <$> members p), o.
        cbn [fst snd]. subst pl. split_and!; try done; lia.
Qed.

(** The Python branch of [restore] on matched storages. *)
Lemma restore_python_spec readinto preverified chunk blob ta tb mA T R m : 0 < chunk → T ≠ [] → NoDup (part_key <$> T.*1) →
  compatible ta tb → storages_disjoint tb → Forall2 (matched ta tb mA blob) T R →
  ∃ o m', restore_python readinto preverified chunk 0 blob R m = (o, m')
    ∧ (∀ a, (∀ n b, (n, b) ∈ tb → ¬ inside (s_data_ptr (untyped_storage b)) (s_nbytes (untyped_storage b)) a) → m' a = m a)
    ∧ match o with
      | Ok total => ∀ x te, matched ta tb mA blob x te → (x, te) ∈ zip T R →
          mread m' (s_data_ptr (untyped_storage te.1)) (s_nbytes (untyped_storage te.1)) = storage_bytes_of mA x.2
      | Raise e => read_failure readinto e ∧ ¬ whole_reads readinto chunk
      end.
Proof.
  intros Hc Hne Hn Hco Hdis HT. set (jobs := zip_with (job_of mA) T R).
  assert (Forall2 (ready 0 blob) R jobs) as Hready.
  { unfold jobs. clear Hn Hne. induction HT; simpl; constructor; [by eapply matched_ready|done]. }
  pose proof (matched_disjoint _ _ _ Hco Hdis _ _ _ HT Hn) as Hd.
  assert (mapM (λ te, entry_int "nbytes" te.2) R = Ok ((λ j, Z.of_nat (length j.2)) <$> jobs)) as Hns.
  { apply mapM_Ok, Forall2_fmap_r. eapply Forall2_impl; [exact Hready|]. intros te j Hr. apply Hr. }
  unfold restore_python. rewrite Hns. cbn [mbind res_bind].
  assert (∃ big, py_max ((λ j, Z.of_nat (length j.2)) <$> jobs) = Ok big ∧ 0 < big) as (big & -> & Hbig).
  { unfold jobs. destruct HT as [|x te T R Hx HT]; [done|]. cbn [zip_with]. rewrite fmap_cons. eexists. split; [done|].
    apply foldl_max_pos. rewrite (proj1 (matched_length _ _ _ Hco _ _ _ Hx)). by destruct Hx as (_ & _ & _ & ? & ? & _ & _ & _ & _ & ?). }
  destruct (restore_loop_spec readinto preverified (Z.min chunk big) 0 blob R jobs ltac:(lia) Hready Hd 0 m) as (o & m' & -> & Hout & Hread).
  exists o, m'. split_and!; [done| |].
  - intros a Hout'. apply Hout. apply Forall_forall. intros j Hj. destruct (jobs_elem _ _ _ _ _ _ _ HT Hj) as (x & te & -> & _ & Hx).
    rewrite (proj1 (matched_length _ _ _ Hco _ _ _ Hx)), <- (proj2 (matched_length _ _ _ Hco _ _ _ Hx)).
    by apply (Hout' x.1.1.1), Hx.
  - destruct o as [total|e]; [|split; [apply Hread|intros Hw; apply Hread; eapply whole_reads_less; [|done]; lia]]. destruct Hread as [_ Hread].
    intros x te Hx Hin. rewrite (proj2 (matched_length _ _ _ Hco _ _ _ Hx)), <- (proj1 (matched_length _ _ _ Hco _ _ _ Hx)).
    rewrite Forall_forall in Hread. apply (Hread (job_of mA x te)). unfold jobs.
    apply list_elem_of_lookup in Hin as [i Hi]. apply lookup_zip_with_Some in Hi as (? & ? & [= <- <-] & H1 & H2).
    eapply elem_of_lookup_zip_with_2; [done..|]. done.
Qed.

Lemma captured_loads identity m P layout total ta : exact identity = true → Forall (λ nt, exact (reference nt) = true) ta →
  concat (members <$> P) ≡ₚ ta → layout_from 0 (group_of <$> P) = (layout, total) → sizes_ok (group_of <$> P) →
  load_manifest (Directory (Some (canonical_bytes (manifest_json identity total (hexdigest (expected_blob m layout 0))
      (entry_of m <$> layout)) ++ [10%N])) (Some (expected_blob m layout 0))) (Some identity) None 0
  = Ok (sort_keys (JObj (manifest_items identity total (hexdigest (expected_blob m layout 0)) (entry_of m <$> layout)))).
Proof.
  intros Hid Hex Hperm El Hs. pose proof (layout_from_total m _ _ _ _ (Z.le_refl 0) Hs El) as [Ht _]. rewrite Z.sub_0_r in Ht.
  apply load_items; [|done..|by rewrite Ht]. apply exact_manifest; [done| |apply hex_scalar, sha256_bytes].
  apply Forall_fmap, Forall_forall. intros pl Hpl. pose proof (layout_parts _ _ _ _ El) as HL.
  apply list_elem_of_lookup in Hpl as [i Hi]. destruct (Forall2_lookup_r _ _ _ _ _ HL Hi) as (p & Hp & o & ->).
  apply exact_entry. apply Forall_fmap, Forall_forall. intros nt Hnt. rewrite Forall_forall in Hex. apply Hex.
  eapply parts_elem; [done| |done]. by eapply list_elem_of_lookup_2.
Qed.

Lemma captured_storages identity total sha entries : 
  subscript "storages" (sort_keys (JObj (manifest_items identity total sha entries))) = Ok (JArr (sort_keys <$> entries)).
Proof.
  rewrite sort_keys_obj. cbn [subscript]. rewrite dict_get_sort by by apply has_dups_false.
  assert (dict_get (lit "storages") (manifest_items identity total sha entries) = Some (JArr entries)) as -> by reflexivity.
  done.
Qed.

(** C1. Capture then restore, both without a native library: an artifact captured from one
    process and restored into a compatible one, whose storages live at other addresses and whose
    tensors may be registered in another order, puts into the storage of every tensor exactly the
    bytes the captured process held for it, and changes no other byte. Whatever the reads of the
    restore do, one that returns has done so, and one that raises failed over a read that was
    short or raised, having written no byte outside the storages; when no read of at most a chunk
    is short or raises, it returns. Provided: the chunk and the padding of the capture fit into
    one write call of the system, storages are not empty, the identity and the references have no
    floats, the restore's chunk is a positive multiple of 4096, distinct storages of the new
    process do not overlap, and an artifact declared preverified is accepted as such. *)
Theorem capture_restore_round_trip {W} limit (blob_after : W → pybytes) path d mdlA mA identity chunk depth replace ta (w w' : W) d' cm
    mdlB tb readinto verify chunk' depth' preverified mB :
  registered_cuda_tensors mdlA = Ok ta → registered_cuda_tensors mdlB = Ok tb →
  Forall (λ nt, 0 < s_nbytes (untyped_storage nt.2)) ta → Forall (λ nt, exact (reference nt) = true) ta →
  exact identity = true → chunk <= limit → 4096 <= limit →
  compatible ta tb → storages_disjoint tb → 0 < chunk' → chunk' mod 4096 = 0 →
  (preverified = true → ∀ manifest, load_manifest d' (Some identity) None 0 = Ok manifest → verify manifest = Ok tt) →
  capture_artifact limit (Ok None) blob_after path d mdlA mA identity chunk depth replace w = (Ok (d', cm), w') →
  ∃ r mB', restore_artifact readinto (Ok None) path verify d' None mdlB identity chunk' depth' 0 preverified mB = (r, mB')
    ∧ (∀ x, (∀ n b, (n, b) ∈ tb → ¬ inside (s_data_ptr (untyped_storage b)) (s_nbytes (untyped_storage b)) x) → mB' x = mB x)
    ∧ match r with
      | Ok rm => ∀ n a b, (n, a) ∈ ta → (n, b) ∈ tb →
          mread mB' (s_data_ptr (untyped_storage b)) (s_nbytes (untyped_storage b))
          = mread mA (s_data_ptr (untyped_storage a)) (s_nbytes (untyped_storage a))
      | Raise e => read_failure readinto e
      end
    ∧ (whole_reads readinto chunk' → is_ok r = true).
Proof.
  intros HrA HrB Hsz Hex Hid Hc Hl Hco Hdis Hc0 Hcm Hver Hcap.
  destruct (registered_names _ _ HrA) as [Ha _]. destruct (registered_names _ _ HrB) as [Hb _].
  assert (is_ok (capture_plan d mdlA identity chunk depth replace) = true) as Hplan.
  { unfold capture_artifact in Hcap. by destruct (capture_plan _ _ _ _ _ _); [|simpl in Hcap; simplify_eq]. }
  destruct (captured limit blob_after path d mdlA mA identity chunk depth replace ta HrA Hsz Hc Hl w Hplan)
    as (P & layout & total & Hperm & Hok & El & Hs & Hne & E).
  rewrite Hcap in E. unfold publish in E.
  assert (d' = Directory (Some (canonical_bytes (manifest_json identity total (hexdigest (expected_blob mA layout 0))
    (entry_of mA <$> layout)) ++ [10%N])) (Some (expected_blob mA layout 0))) as -> by congruence. clear E Hcap.
  pose proof (layout_from_total mA _ _ _ _ (Z.le_refl 0) Hs El) as [Ht _]. rewrite Z.sub_0_r in Ht.
  pose proof (layout_parts _ _ _ _ El) as HL. destruct (zip_parts _ _ _ HL) as [HzP HzL].
  destruct (captured_resolves mdlB ta tb mA P layout total HrB Ha Hco Hex Hperm Hok El Hs) as (R & HR & HT).
  destruct (restore_python_spec readinto preverified chunk' (expected_blob mA layout 0) ta tb mA (zip P layout) R mB Hc0)
    as (o & m' & Hrest & Hout & Hread); [destruct HL; done|rewrite HzP; apply Hok|done..|].
  exists ((λ n, AMetrics (lit "restore") (lit "python") n (Z.of_nat (length R))) <$> o), m'. split_and!; [|done| |].
  3: { intros Hw. destruct o; [done|]. by destruct Hread. }
  - unfold restore_artifact, ALIGNMENT. replace (chunk' <=? 0) with false by lia. rewrite Hcm. cbn [orb negb raise_if mbind res_bind].
    change (0 =? 0) with true. cbn [negb raise_if mbind res_bind mret res_ret fmap option_fmap option_map].
    rewrite (captured_loads identity mA P layout total ta) by done. cbn [mbind res_bind].
    rewrite bool_decide_true by done. rewrite andb_true_r. match goal with |- context [if preverified then ?v else ?r] =>
      replace (if preverified then v else r) with (Ok tt) by (destruct preverified; [by rewrite (Hver eq_refl _ (captured_loads identity mA P layout total ta Hid Hex Hperm El Hs))|done]) end.
    cbn [mbind res_bind]. rewrite captured_storages. cbn [mbind res_bind iterate mret res_ret]. rewrite HR.
    cbn [mbind res_bind of_option blob_file mret res_ret]. by rewrite Hrest.
  - destruct o as [n|e]; [|by destruct Hread]. cbn [fmap res_fmap]. clear Hout. intros k a b Hka Hkb. destruct (elem_parts _ _ _ Hperm Hka) as (p & Hp & Hmem).
    pose proof Hp as Hp'. rewrite <- HzP in Hp. apply list_elem_of_fmap in Hp as (x & -> & Hx).
    apply list_elem_of_lookup in Hx as [i Hi]. destruct (Forall2_lookup_l _ _ _ _ _ HT Hi) as (te & Hte & Hm).
    destruct Hok as [HF _]. rewrite Forall_forall in HF. pose proof (HF x.1 Hp') as Hk. rewrite Forall_forall in Hk.
    specialize (Hk (k, a) Hmem). cbn [snd] in Hk. pose proof Hm as (_ & Htg & Hin & refs & o & Ex & _).
    specialize (Hread x te Hm). rewrite Ex in Hread. cbn [storage_bytes_of] in Hread.
    assert (storage_key te.1 = storage_key b) as Hkb'.
    { destruct x as [[[n0 a0] rest] pl]. apply (co_alias _ _ Hco n0 a0 te.1 k a b); done. }
    unfold part_key, storage_key in *. simplify_eq.
    match goal with H1 : s_data_ptr _ = s_data_ptr (untyped_storage b), H2 : s_nbytes _ = s_nbytes (untyped_storage b) |- _ =>
      rewrite <- H1, <- H2 end.
    match goal with H1 : s_data_ptr (untyped_storage a) = _, H2 : s_nbytes (untyped_storage a) = _ |- _ => rewrite H1, H2 end.
    apply Hread. eapply elem_of_lookup_zip_with_2; done.
Qed.

(** ** A tied model and a copy of it at other addresses *)

Definition byte_tensor (p n offset count : Z) : tensor :=
  Tensor true (Some 0) (lit "torch.uint8") [count] [1] (p + offset) count 1 (Storage p n).

Definition modelA : model := Model
  [(lit "w", byte_tensor 1000 4 0 4); (lit "v", byte_tensor 2000 2 0 2)] [(lit "half", byte_tensor 1000 4 2 2)] [].
Definition modelB : model := Model
  [(lit "v", byte_tensor 7000 2 0 2); (lit "w", byte_tensor 9000 4 0 4)]
  [(lit "half", byte_tensor 9000 4 2 2); (lit "m.cache", byte_tensor 400 8 0 8)] [([], []); (lit "m", [lit "cache"])].
Definition memoryA : memory := λ a, Z.to_N (a mod 251).

Definition tensorsA : list named := [(lit "parameter:w", byte_tensor 1000 4 0 4);
  (lit "parameter:v", byte_tensor 2000 2 0 2); (lit "buffer:half", byte_tensor 1000 4 2 2)].
Definition tensorsB : list named := [(lit "parameter:v", byte_tensor 7000 2 0 2);
  (lit "parameter:w", byte_tensor 9000 4 0 4); (lit "buffer:half", byte_tensor 9000 4 2 2)].

Ltac pick_tensors := repeat match goal with
  | H : _ ∈ tensorsA |- _ => unfold tensorsA in H
  | H : _ ∈ tensorsB |- _ => unfold tensorsB in H
  | H : _ ∈ _ :: _ |- _ => apply elem_of_cons in H as [[= ? ?]|H]
  | H : _ ∈ [] |- _ => by apply elem_of_nil in H
  end; subst; try done.

Lemma registeredA : registered_cuda_tensors modelA = Ok tensorsA.
Proof. reflexivity. Qed.
Lemma registeredB : registered_cuda_tensors modelB = Ok tensorsB.
Proof. reflexivity. Qed.

Lemma compatibleAB : compatible tensorsA tensorsB.
Proof.
  split.
  - unfold tensorsA, tensorsB. simpl. apply Permutation_swap.
  - intros n a b H1 H2. pick_tensors.
  - intros n a b H1 H2. pick_tensors.
  - intros n a b n' a' b' H1 H2 H3 H4. pick_tensors.
Qed.

Lemma disjointB : storages_disjoint tensorsB.
Proof. intros n b n' b' H1 H2 Hk x. unfold inside. pick_tensors; simpl; lia. Qed.

Lemma positiveA : Forall (λ nt, 0 < s_nbytes (untyped_storage nt.2)) tensorsA.
Proof. by repeat constructor. Qed.
Lemma exactA : Forall (λ nt, exact (reference nt) = true) tensorsA.
Proof. by repeat constructor. Qed.

Definition no_files : directory := Directory None None.

(** Capturing the first model. *)
Lemma capture_complete_witness : ∃ blob entries metrics,
  capture_artifact 8192 (Ok None) (λ _ : unit, []) [] no_files modelA memoryA (JObj []) 8192 4 true tt
  = (Ok (Directory (Some (canonical_bytes (manifest_json (JObj []) (Z.of_nat (length blob)) (hexdigest blob) entries)
                          ++ [10%N])) (Some blob), metrics), tt)
  ∧ Forall (λ nt, let n := s_nbytes (untyped_storage nt.2) in
      let bytes := mread memoryA (s_data_ptr (untyped_storage nt.2)) n in
      ∃ offset refs, offset mod 4096 = 0 ∧ file_read blob offset n = bytes ∧ reference nt ∈ refs
        ∧ entry_json offset n (crc_hex (crc32 bytes 0)) (hexdigest bytes) refs ∈ entries) tensorsA.
Proof.
  apply (capture_complete 8192 (λ _ : unit, []) [] no_files modelA memoryA (JObj []) 8192 4 tensorsA tt);
    [exact registeredA|exact positiveA|lia..].
Defined.

(** Restoring it into the second. *)
Lemma capture_restore_round_trip_witness : ∃ d' cm rm mB',
  capture_artifact 8192 (Ok None) (λ _ : unit, []) [] no_files modelA memoryA (JObj []) 8192 4 true tt = (Ok (d', cm), tt)
  ∧ restore_artifact (λ _ count, Ok (Z.min count 4096)) (Ok None) [] (λ _, Ok tt) d' None modelB (JObj []) 4096 4 0 true (λ _, 0%N) = (Ok rm, mB')
  ∧ (∀ n a b, (n, a) ∈ tensorsA → (n, b) ∈ tensorsB →
       mread mB' (s_data_ptr (untyped_storage b)) (s_nbytes (untyped_storage b))
       = mread memoryA (s_data_ptr (untyped_storage a)) (s_nbytes (untyped_storage a)))
  ∧ ∀ x, (∀ n b, (n, b) ∈ tensorsB → ¬ inside (s_data_ptr (untyped_storage b)) (s_nbytes (untyped_storage b)) x) → mB' x = 0%N.
Proof.
  destruct (captured 8192 (λ _ : unit, []) [] no_files modelA memoryA (JObj []) 8192 4 true tensorsA registeredA positiveA
    ltac:(lia) ltac:(lia) tt eq_refl) as (P & layout & total & _ & _ & _ & _ & _ & E).
  set (p := publish _ _ _ _ _ _) in E. destruct p as [d' cm] eqn:Ep.
  destruct (capture_restore_round_trip 8192 (λ _ : unit, []) [] no_files modelA memoryA (JObj []) 8192 4 true tensorsA tt tt d' cm
    modelB tensorsB (λ _ count, Ok (Z.min count 4096)) (λ _, Ok tt) 4096 4 true (λ _, 0%N) registeredA registeredB positiveA exactA eq_refl
    ltac:(lia) ltac:(lia) compatibleAB disjointB ltac:(lia) eq_refl (λ _ _ _, eq_refl) E) as (r & mB' & Hr & Hout & Hread & Hok).
  destruct r as [rm|e].
  - exists d', cm, rm, mB'. split; [exact E|]. split; [exact Hr|]. split; [exact Hread|exact Hout].
  - exfalso. discriminate Hok. intros pos count Hc. exists (Z.min count 4096). split; [reflexivity|lia].
Defined.
