(* ===== verification/KvCapacity.v ===== *)
(** * The KV capacity guard ([coldsnap_vllm_kv_capacity.py])

    The clamp applied to vLLM's automatic KV estimate, and its installation around
    [determine_available_memory]. Attributes of vLLM objects are untyped in the code, so
    they are decoded values here, [JNull] standing for a missing attribute; the worker's
    own method and the multimodal reservation are parameters. *)

From Stdlib Require Import SpecFloat.
From S2P Require Import Prelude PyFloat PyJson Validation.

Definition KV_CAPACITY_GUARD_ENV := lit "COLDSNAP_KV_CAPACITY_GUARD".

Definition contract (m : string) : exn := Exn VllmContractError m.

(** [_boolean] *)
Definition boolean (value : option pystr) : res bool :=
  let normalized := match value with None => lit "0" | Some v => py_lower (py_strip v) end in
  if bool_decide (normalized ∈ [lit "0"; lit "false"; lit "no"; lit "off"; []]) then mret false
  else if bool_decide (normalized ∈ [lit "1"; lit "true"; lit "yes"; lit "on"]) then mret true
  else Raise (contract "must be a boolean").

Definition kv_capacity_guard_enabled (environ : pystr → option pystr) : res bool :=
  boolean (environ KV_CAPACITY_GUARD_ENV).

(** ** The clamp *)

Record GuardStatus := Status {
  reported_bytes : Z; requested_memory_bytes : Z; total_consumed_bytes : Z; peak_activation_memory_bytes : Z;
  unreserved_limit_bytes : Z; guarded_bytes : Z; selected_bytes : Z; clamped : bool;
}.

(** The attributes of a GPU worker the guard reads, and the two it writes. [cache_config]
    is its [kv_cache_memory_bytes], [model_config] its [multimodal_config] and
    [parallel_config] its [_api_process_count], if set. *)
Record worker := Worker {
  cache_config : option json;
  requested_memory : json; total_consumed : json; peak_activation_memory : json;
  model_config : option json;
  parallel_config : option (option json);
  guard_status : option GuardStatus;
  available_kv_cache_memory_bytes : option Z;
}.

(** [type(value) in {int, float} and not value < 0], and [int(value)]. *)
Definition capacity_field (value : json) : res Z :=
  match value with
  | JInt z => _ ← raise_if (z <? 0) VllmContractError "lacks a nonnegative numeric capacity input"; mret z
  | JFloat f =>
      _ ← raise_if (float_ltb f (S754_zero false)) VllmContractError "lacks a nonnegative numeric capacity input";
      int_of_json (JFloat f)
  | _ => Raise (contract "lacks a nonnegative numeric capacity input")
  end.

Section guard.
(** [reserve_mm_ipc_gpu_memory(limit, multimodal_config, api_process_count)] of vLLM. *)
Context (reserve : Z → json → json → res json).

(** The computation of [_guard_automatic_capacity] up to the status. *)
Definition guard_limit (w : worker) (reported : Z) : res GuardStatus :=
  requested ← capacity_field (requested_memory w);
  consumed ← capacity_field (total_consumed w);
  peak ← capacity_field (peak_activation_memory w);
  let limit := requested - consumed - peak in
  _ ← raise_if (limit <=? 0) VllmContractError "non-KV memory exceeds the requested-memory envelope";
  multimodal ← of_option VllmContractError "lacks model or parallel config" (model_config w);
  count ← of_option VllmContractError "lacks model or parallel config" (parallel_config w);
  reserved ← reserve limit multimodal (default (JInt 1) count);
  guarded ← int_of_json reserved;
  _ ← raise_if (guarded <=? 0) VllmContractError "KV capacity guard left no memory for the cache";
  let selected := Z.min reported guarded in
  mret (Status reported requested consumed peak limit guarded selected (selected <? reported)).

Definition guard_automatic_capacity (w : worker) (reported : json) : res Z * worker :=
  match reported with
  | JInt n =>
      if n <=? 0 then (Raise (contract "must return positive integer bytes"), w) else
      match cache_config w with
      | None => (Raise (contract "GPU worker lacks cache_config"), w)
      | Some JNull =>
          match guard_limit w n with
          | Raise e => (Raise e, w)
          | Ok st =>
              (Ok (selected_bytes st),
               Worker (cache_config w) (requested_memory w) (total_consumed w) (peak_activation_memory w)
                 (model_config w) (parallel_config w) (Some st)
                 (if clamped st then Some (unreserved_limit_bytes st) else available_kv_cache_memory_bytes w))
          end
      | Some _ => (Ok n, w)
      end
  | _ => (Raise (contract "must return positive integer bytes"), w)
  end.

(** ** Installation *)

(** A method of a worker class, and whether it carries the guard's marker. *)
Record method := Method { marked : bool; call : worker → res json * worker }.

(** A class found in the worker module; classes are compared by identity. *)
Record worker_class := WorkerClass { class_id : Z; determine : option method }.

(** The module: what [Worker] and [GPUWorker] name, when they name a class, and whether
    it has the reservation function. *)
Record worker_module := WorkerModule { attr_Worker : option worker_class; attr_GPUWorker : option worker_class; has_reserve : bool }.

(** [_worker_class]: exactly one class behind the two names. *)
Definition find_worker_class (m : worker_module) : res worker_class :=
  match attr_Worker m, attr_GPUWorker m with
  | Some c, None | None, Some c => mret c
  | Some c, Some d => if class_id c =? class_id d then mret c else Raise (contract "must expose one supported worker class")
  | None, None => Raise (contract "must expose one supported worker class")
  end.

(** The wrapper around the worker's method. *)
Definition guarded_method (original : method) : method :=
  Method true (λ w,
    let '(r, w') := call original w in
    match r with
    | Raise e => (Raise e, w')
    | Ok reported => let '(n, w'') := guard_automatic_capacity w' reported in (JInt <$> n, w'')
    end).

Definition set_determine (id : Z) (f : method) (c : worker_class) : worker_class :=
  if class_id c =? id then WorkerClass (class_id c) (Some f) else c.

Definition install_worker_hook (m : worker_module) : res worker_module :=
  c ← find_worker_class m;
  original ← of_option VllmContractError "GPU worker lacks determine_available_memory" (determine c);
  _ ← raise_if (negb (has_reserve m)) VllmContractError "GPU worker lacks multimodal reservation";
  if marked original then mret m
  else mret (WorkerModule (set_determine (class_id c) (guarded_method original) <$> attr_Worker m)
               (set_determine (class_id c) (guarded_method original) <$> attr_GPUWorker m) (has_reserve m)).
End guard.

(** [install_kv_capacity_guard]: the module flag and the registered import callbacks. *)
Definition install_kv_capacity_guard (environ : pystr → option pystr) (installed : bool) (callbacks : list (pystr * pystr))
    : res bool * (bool * list (pystr * pystr)) :=
  match kv_capacity_guard_enabled environ with
  | Raise e => (Raise e, (installed, callbacks))
  | Ok enabled =>
      if negb enabled || installed then (Ok enabled, (installed, callbacks))
      else (Ok enabled, (true, callbacks ++ [(lit "vllm.v1.worker.gpu_worker", lit "kv-capacity-guard")]))
  end.

(** ** Theorems *)

Lemma trunc_nonneg f z : float_ltb f (S754_zero false) = false → trunc_float f = Some z → 0 <= z.
Proof.
  destruct f as [s|s| |[] m e]; try done; [by intros _ [= <-]|]. intros _. unfold trunc_float, fraction.
  destruct (Z.leb_spec 0 e); intros [= <-].
  - rewrite Z.div_1_r. apply Z.mul_nonneg_nonneg; [lia|]. apply Z.pow_nonneg. lia.
  - apply Z.div_pos; [lia|]. apply Z.pow_pos_nonneg; lia.
Qed.

Lemma capacity_field_nonneg v z : capacity_field v = Ok z → 0 <= z.
Proof.
  destruct v as [| |n|f| | |]; simpl; intros E; res_inv; try done; [by apply Z.ltb_ge|].
  destruct f; res_inv; by eapply trunc_nonneg.
Qed.

(** C30. What the guard returns for an automatic estimate: with the requested, consumed and
    peak memory decoded from the worker, the reservation function of vLLM is asked about
    exactly the envelope left over, requested minus consumed minus peak, which is positive;
    the capacity returned is the smaller of the reported estimate and the reservation's
    answer, positive and never above the estimate, so that whenever the reservation
    answers no more than it was given, the capacity with the consumed and peak memory
    stays within the requested memory. The worker's own figure becomes that envelope
    exactly when the estimate was cut. An explicit capacity and its worker are left
    alone. *)
Theorem guard_bounds reserve w n k w' :
  guard_automatic_capacity reserve w (JInt n) = (Ok k, w') →
  match cache_config w with
  | Some JNull => ∃ requested consumed peak multimodal count answer reserved,
      capacity_field (requested_memory w) = Ok requested ∧ capacity_field (total_consumed w) = Ok consumed
      ∧ capacity_field (peak_activation_memory w) = Ok peak
      ∧ model_config w = Some multimodal ∧ parallel_config w = Some count
      ∧ reserve (requested - consumed - peak) multimodal (default (JInt 1) count) = Ok answer
      ∧ int_of_json answer = Ok reserved
      ∧ 0 <= consumed ∧ 0 <= peak ∧ 0 < requested - consumed - peak
      ∧ k = Z.min n reserved ∧ 0 < k <= n
      ∧ (reserved <= requested - consumed - peak → k + consumed + peak <= requested)
      ∧ available_kv_cache_memory_bytes w'
        = (if k <? n then Some (requested - consumed - peak) else available_kv_cache_memory_bytes w)
  | _ => k = n ∧ w' = w
  end.
Proof.
  intros E. cbn [guard_automatic_capacity] in E. destruct (Z.leb_spec n 0) as [|Hn]; [done|].
  destruct (cache_config w) as [v|] eqn:Ec; [|done].
  destruct v; try (by simplify_eq). destruct (guard_limit reserve w n) as [st|] eqn:El; [|done]. simplify_eq.
  unfold guard_limit in El. res_inv. cbn [selected_bytes clamped unreserved_limit_bytes available_kv_cache_memory_bytes].
  repeat match goal with H : (_ <=? 0) = false |- _ => apply Z.leb_gt in H end.
  repeat match goal with H : capacity_field _ = Ok _ |- _ => pose proof (capacity_field_nonneg _ _ H); revert H end.
  intros Hp Hc Hq. eexists _, _, _, _, _, _, _. split_and!; try done; lia.
Qed.

(** Installing the guard is idempotent: on a module it accepts, the class it finds
    then carries the guarded version of the method it had, and installing again changes
    nothing, so an estimate is never clamped twice. *)
Theorem install_guards_once reserve m m' :
  install_worker_hook reserve m = Ok m' →
  install_worker_hook reserve m' = Ok m'
  ∧ ∃ c c' original, find_worker_class m = Ok c ∧ determine c = Some original ∧ find_worker_class m' = Ok c'
    ∧ class_id c' = class_id c
    ∧ determine c' = Some (if marked original then original else guarded_method reserve original).
Proof.
  intros E. assert (E0 := E). unfold install_worker_hook in E.
  apply bind_Ok in E as (c & Hc & E). apply bind_Ok in E as (original & Ho & E). apply of_option_Ok in Ho.
  apply bind_Ok in E as ([] & Hr & E). apply raise_if_Ok in Hr. destruct (marked original) eqn:Em; res_inv.
  { split; [done|]. exists c, c, original. by rewrite Em. }
  set (m' := WorkerModule _ _ _). assert (find_worker_class m' = Ok (set_determine (class_id c) (guarded_method reserve original) c)) as Hc'.
  { unfold m', find_worker_class in *. cbn [attr_Worker attr_GPUWorker]. unfold set_determine.
    destruct (attr_Worker m) as [a|], (attr_GPUWorker m) as [b|]; simpl in *; try done.
    - destruct (Z.eqb_spec (class_id a) (class_id b)) as [Hab|]; [|done]. res_inv. rewrite <- Hab, Z.eqb_refl. cbn [class_id]. by rewrite Z.eqb_refl.
    - by res_inv.
    - by res_inv. }
  assert (determine (set_determine (class_id c) (guarded_method reserve original) c) = Some (guarded_method reserve original)) as Hd
    by (unfold set_determine; by rewrite Z.eqb_refl).
  split.
  - unfold install_worker_hook. rewrite Hc'. cbn [mbind res_bind]. rewrite Hd. cbn [of_option mbind res_bind].
    change (has_reserve m') with (has_reserve m). rewrite Hr. done.
  - exists c, (set_determine (class_id c) (guarded_method reserve original) c), original. rewrite Em. split_and!; try done.
    unfold set_determine. by rewrite Z.eqb_refl.
Qed.

(** ** A worker whose estimate exceeds its envelope *)

Definition sample_worker : worker :=
  Worker (Some JNull) (JInt 1000) (JInt 600) (JFloat (float_of_decimal false 1005 (-1))) (Some JNull) (Some None) None (Some 900).

Definition keep (l : Z) (_ _ : json) : res json := Ok (JInt l).

Lemma guard_bounds_witness : ∃ requested consumed peak reserved,
  capacity_field (JInt 1000) = Ok requested ∧ capacity_field (JInt 600) = Ok consumed
  ∧ capacity_field (JFloat (float_of_decimal false 1005 (-1))) = Ok peak
  ∧ 300 = Z.min 900 reserved ∧ 300 + consumed + peak <= requested.
Proof.
  destruct (guard_bounds keep sample_worker 900 300 (guard_automatic_capacity keep sample_worker (JInt 900)).2
    (eq_refl : guard_automatic_capacity keep sample_worker (JInt 900) = _))
    as (requested & consumed & peak & mm & count & answer & reserved & Hq & Hc & Hp & _ & _ & Ha & Hi & _ & _ & _ & Hk & _ & Hb & _).
  exists requested, consumed, peak, reserved. split_and!; try done.
  apply Hb. injection Ha as <-. injection Hi as <-. reflexivity.
Defined.

Definition sample_module : worker_module :=
  WorkerModule None (Some (WorkerClass 7 (Some (Method false (λ w, (Ok (JInt 900), w)))))) true.

Lemma install_guards_once_witness : ∃ m',
  install_worker_hook keep sample_module = Ok m' ∧ install_worker_hook keep m' = Ok m'.
Proof.
  eexists. split; [reflexivity|]. apply (install_guards_once keep sample_module). reflexivity.
Defined.
