(* ===== verification/Layout.v ===== *)
(** * Semantic replay of weight allocations ([coldsnap_layout.py])

    Finding the tensors of a model, and matching the allocations of a capture with those
    of a fresh process by what they hold instead of where they are. References in a
    saved entry have the types the capture gives them. *)

From S2P Require Import Prelude PyJson Artifact.

(** ** The tensors of a model

    Python objects are addresses of a heap; [id] is the address. *)

Inductive object :=
| OTensor
| OAtom  (** [None], text, a number, a dtype or a device *)
| ODict (items : list (pystr * pystr * Z))  (** [str(key)], [repr(key)] and the value *)
| OSequence (items : list Z)
| ODataclass (fields : list (pystr * Z))
| OOther (visible : bool) (attributes : list (pystr * Z)).
  (** [visible]: the type's module is one the walk enters; no [vars] is no attribute *)

(** [seen_tensors], [seen_objects], and the [(path, id)] found. *)
Record walk := Walk { seen_tensors : list Z; seen_objects : list Z; found : list (pystr * Z) }.

Definition fst_leb {B} (a b : pystr * B) : bool := str_leb a.1 b.1.
Definition key_of_leb (a b : pystr * pystr * Z) : bool := str_leb a.1.1 b.1.1.

Section visit.
Context (heap : Z → object).

Definition enumerate {A} (l : list A) : list (Z * A) := zip (seqZ 0 (Z.of_nat (length l))) l.

(** What [visit] descends into: the path suffix and the value of each child. *)
Definition children (o : object) : list (pystr * Z) :=
  match o with
  | ODict items => (λ k : pystr * pystr * Z, (lit "[" ++ k.1.2 ++ lit "]", k.2)) <$> py_sorted key_of_leb items
  | OSequence items => (λ iv : Z * Z, (lit "[" ++ str_of_Z iv.1 ++ lit "]", iv.2)) <$> enumerate items
  | ODataclass fields => (λ f : pystr * Z, (lit "." ++ f.1, f.2)) <$> fields
  | OOther true attributes => (λ a : pystr * Z, (lit "." ++ a.1, a.2)) <$> py_sorted fst_leb attributes
  | _ => []
  end.

Definition is_atom (o : object) : bool := match o with OAtom => true | _ => false end.

Fixpoint visit (depth : nat) (path : pystr) (value : Z) (w : walk) : walk :=
  match heap value with
  | OTensor =>
      if bool_decide (value ∈ seen_tensors w) then w
      else Walk (value :: seen_tensors w) (seen_objects w) (found w ++ [(path, value)])
  | o =>
      match depth with
      | O => w
      | S depth' =>
          if is_atom o || bool_decide (value ∈ seen_objects w) then w
          else foldl (λ w c, visit depth' (path ++ c.1) c.2 w)
                 (Walk (seen_tensors w) (value :: seen_objects w) (found w)) (children o)
      end
  end.

(** A module: its prepared experts, if the chain of attributes leads to any, and [vars]. *)
Record nn_module := NNModule { prepared_experts : option Z; module_vars : list (pystr * Z) }.

Record net := Net {
  net_parameters : list (pystr * Z); net_buffers : list (pystr * Z); net_modules : list (pystr * nn_module) }.

Definition prefix_of (module_name : pystr) : pystr := match module_name with [] => lit "<root>" | _ => module_name end.

Definition visit_experts (w : walk) (nm : pystr * nn_module) : walk :=
  match prepared_experts nm.2 with
  | Some v => visit 16 (prefix_of nm.1 ++ lit ".quant_method.moe_kernel.fused_experts._prepared_experts") v w
  | None => w
  end.

Definition standard_module_attrs : list pystr := [lit "_parameters"; lit "_buffers"; lit "_modules"].

Definition visit_vars (w : walk) (nm : pystr * nn_module) : walk :=
  foldl (λ w av, if bool_decide (av.1 ∈ standard_module_attrs) then w
                 else visit 16 (prefix_of nm.1 ++ lit "." ++ av.1) av.2 w)
    w (py_sorted fst_leb (module_vars nm.2)).

Definition model_tensors (n : net) : list (pystr * pystr * Z) :=
  let registered := ((λ nt : pystr * Z, (nt.1, lit "parameter", nt.2)) <$> net_parameters n)
                    ++ ((λ nt : pystr * Z, (nt.1, lit "buffer", nt.2)) <$> net_buffers n) in
  let w0 := Walk (registered.*2) [] [] in
  let w1 := foldl visit_experts w0 (net_modules n) in
  let w2 := foldl visit_vars w1 (net_modules n) in
  registered ++ ((λ pv : pystr * Z, (pv.1, lit "object", pv.2)) <$> found w2).
End visit.

(** ** Allocations *)

Definition GIB : Z := 1024 ^ 3.

Definition tensor_nbytes (t : tensor) : Z := numel t * element_size t.

(** [for index, (base, size) in enumerate(allocations)] *)
Fixpoint find_from (index : nat) (ptr nbytes : Z) (allocations : list (Z * Z)) : option nat :=
  match allocations with
  | [] => None
  | (base, size) :: rest =>
      if (base <=? ptr) && (ptr + nbytes <=? base + size) then Some index else find_from (S index) ptr nbytes rest
  end.
Definition find_allocation : Z → Z → list (Z * Z) → option nat := find_from 0.

Record ref := Ref {
  ref_name : pystr; ref_kind : pystr; ref_shape : list Z; ref_stride : list Z; ref_dtype : pystr;
  ref_nbytes : Z; allocation_offset : Z;
}.

(** The tuple [reference_fingerprint] sorts. *)
Definition ref_tuple : Type := pystr * (pystr * (list Z * (list Z * (pystr * (Z * Z))))).
Definition tuple_of (r : ref) : ref_tuple :=
  (ref_name r, (ref_kind r, (ref_shape r, (ref_stride r, (ref_dtype r, (ref_nbytes r, allocation_offset r)))))).

Fixpoint ints_leb (a b : list Z) : bool :=
  match a, b with
  | [], _ => true
  | _ :: _, [] => false
  | x :: a', y :: b' => if x =? y then ints_leb a' b' else x <? y
  end.

Definition tuple_leb : ref_tuple → ref_tuple → bool :=
  pair_leb str_leb (pair_leb str_leb (pair_leb ints_leb (pair_leb ints_leb (pair_leb str_leb (pair_leb Z.leb Z.leb))))).

Definition reference_fingerprint (refs : list ref) : list ref_tuple := py_sorted tuple_leb (tuple_of <$> refs).

Record saved_entry := Saved { entry_size : Z; entry_refs : list ref }.

(** ** The replay map *)

(** The allocation a tensor is charged to, and its reference there. *)
Definition current_ref (current : list (Z * Z)) (nkt : pystr * pystr * tensor) : option (nat * ref) :=
  let '(name, kind, t) := nkt in
  if negb (t_cuda t) || (numel t =? 0) then None else
  let nbytes := tensor_nbytes t in
  let ptr := t_data_ptr t in
  index ← match find_allocation ptr nbytes current with
          | Some i => Some i
          | None => find_allocation (s_data_ptr (untyped_storage t)) (s_nbytes (untyped_storage t)) current
          end;
  alloc ← current !! index;
  Some (index, Ref name kind (shape t) (stride t) (dtype t) nbytes (ptr - alloc.1)).

Definition current_refs (current : list (Z * Z)) (tensors : list (pystr * pystr * tensor)) : list (list ref) :=
  let placed := omap (current_ref current) tensors in
  (λ i, (λ ir : nat * ref, ir.2) <$> filter (λ ir : nat * ref, ir.1 = i) placed) <$> seq 0 (length current).

(** [d.setdefault(fingerprint, []).append(index)] *)
Fixpoint index_add (fp : list ref_tuple) (i : nat) (d : list (list ref_tuple * list nat)) : list (list ref_tuple * list nat) :=
  match d with
  | [] => [(fp, [i])]
  | (k, l) :: d' => if decide (k = fp) then (k, l ++ [i]) :: d' else (k, l) :: index_add fp i d'
  end.

(** The dictionary of the non-empty fingerprints of a list of references. *)
Definition by_fingerprint (all_refs : list (list ref)) : list (list ref_tuple * list nat) :=
  foldl (λ d ir, match reference_fingerprint ir.2 with [] => d | fp => index_add fp ir.1 d end)
    [] (zip (seq 0 (length all_refs)) all_refs).

Fixpoint fp_get (fp : list ref_tuple) (d : list (list ref_tuple * list nat)) : list nat :=
  match d with
  | [] => []
  | (k, l) :: d' => if decide (k = fp) then l else fp_get fp d'
  end.

(** The matching loop: [mapping] as an association list. *)
Fixpoint match_all (saved : list saved_entry) (current : list (Z * Z)) (cur : list (list ref_tuple * list nat))
    (src : list (list ref_tuple * list nat)) : res (list (nat * nat)) :=
  match src with
  | [] => mret []
  | (fp, source_indices) :: src' =>
      source_index ← of_option IndexError "list index out of range" (head source_indices);
      current_index ← match fp_get fp cur with
                      | [i] => mret i
                      | _ => Raise (Exn RuntimeError "semantic replay cannot place source allocation")
                      end;
      entry ← of_option IndexError "list index out of range" (saved !! source_index);
      alloc ← of_option IndexError "list index out of range" (current !! current_index);
      _ ← raise_if (negb (entry_size entry =? alloc.2)) RuntimeError "semantic allocation size mismatch";
      rest ← match_all saved current cur src';
      mret ((source_index, current_index) :: rest)
  end.

Fixpoint nat_get (i : nat) (m : list (nat * nat)) : option nat :=
  match m with [] => None | (k, v) :: m' => if decide (k = i) then Some v else nat_get i m' end.

Definition replay_entry (current : list (Z * Z)) (mapping : list (nat * nat)) (ie : nat * saved_entry)
    : res (nat * Z * saved_entry) :=
  index ← of_option KeyError "mapping" (nat_get ie.1 mapping);
  alloc ← of_option IndexError "list index out of range" (current !! index);
  mret (index, alloc.1, ie.2).

(** [semantic_replay_map]: the replay, the unmatched allocations, the number of matches. *)
Definition semantic_replay_map (saved : list saved_entry) (current : list (Z * Z)) (tensors : list (pystr * pystr * tensor))
    : res (list (nat * Z * saved_entry) * list nat * nat) :=
  let refs := current_refs current tensors in
  let src := by_fingerprint (entry_refs <$> saved) in
  let cur := by_fingerprint refs in
  _ ← raise_if (existsb (λ kl, negb (bool_decide (length kl.2 = 1%nat))) src
                || existsb (λ kl, negb (bool_decide (length kl.2 = 1%nat))) cur)
      RuntimeError "semantic replay contains ambiguous allocation fingerprints";
  mapping ← match_all saved current cur src;
  let used := mapping.*2 in
  _ ← raise_if (existsb (λ ir, negb (bool_decide (ir.2 = [])) && negb (bool_decide (ir.1 ∈ used))) (zip (seq 0 (length refs)) refs))
      RuntimeError "fresh model has unmatched referenced allocations";
  replay ← mapM (replay_entry current mapping) (zip (seq 0 (length saved)) saved);
  let extras := filter (λ i, i ∉ used) (seq 0 (length current)) in
  let extra_bytes := zsum ((λ i, from_option snd 0 (current !! i)) <$> extras) in
  _ ← raise_if ((16 <? Z.of_nat (length extras)) || (GIB <? extra_bytes))
      RuntimeError "semantic replay extras exceed safety bound";
  mret (replay, extras, length mapping).
