(* ===== verification/LayoutSpec.v ===== *)
(** * Theorems about semantic replay

    The object walk lists every tensor once, and an accepted replay is a size-preserving
    injection of the saved allocations into the fresh ones that hold the same tensors. *)

From S2P Require Import Prelude PyJson Artifact Layout.

(** ** The walk *)

(** The tensors found are new, distinct, and recorded as seen. *)
Definition walk_ok (start : list Z) (w : walk) : Prop :=
  seen_tensors w ≡ₚ (found w).*2 ++ start ∧ NoDup (found w).*2 ∧ (∀ v, v ∈ (found w).*2 → v ∉ start).

Lemma foldl_invariant {A B} (P : B → Prop) (f : B → A → B) l b : P b → (∀ b a, P b → P (f b a)) → P (foldl f b l).
Proof. intros Hb Hf. revert b Hb. induction l as [|a l IH]; intros b Hb; simpl; auto. Qed.

Lemma visit_ok heap start depth : ∀ path value w, walk_ok start w → walk_ok start (visit heap depth path value w).
Proof.
  assert (∀ path value w, walk_ok start w → heap value = OTensor →
    walk_ok start (if bool_decide (value ∈ seen_tensors w) then w
      else Walk (value :: seen_tensors w) (seen_objects w) (found w ++ [(path, value)]))) as Htensor.
  { intros path value w (Hs & Hn & Hd) _. case_bool_decide as Hv; [done|]. unfold walk_ok. cbn [seen_tensors found].
    rewrite Hs, elem_of_app in Hv. rewrite fmap_app. split_and!.
    - rewrite Hs. simpl. rewrite <- app_assoc. apply Permutation_middle.
    - apply NoDup_app. split_and!; [done| |apply NoDup_singleton]. intros x Hx ->%list_elem_of_singleton. tauto.
    - intros x [Hx|Hx%list_elem_of_singleton]%elem_of_app; [by apply Hd|subst; tauto]. }
  induction depth as [|depth IH]; intros path value w Hw; cbn [visit]; destruct (heap value) eqn:Eh; auto;
    destruct (_ || _); auto; (apply foldl_invariant; [done|auto]).
Qed.

(** The walk over backend-owned objects is exact about identity: whatever the object
    graph, shared or cyclic, [model_tensors] keeps the registered tensors first and adds
    each other tensor at most once, and none that is registered. *)
Theorem model_tensors_distinct heap n : ∃ objects,
  model_tensors heap n
  = ((λ nt : pystr * Z, (nt.1, lit "parameter", nt.2)) <$> net_parameters n)
    ++ ((λ nt : pystr * Z, (nt.1, lit "buffer", nt.2)) <$> net_buffers n)
    ++ ((λ pv : pystr * Z, (pv.1, lit "object", pv.2)) <$> objects)
  ∧ NoDup objects.*2 ∧ ∀ v, v ∈ objects.*2 → v ∉ (net_parameters n).*2 ∧ v ∉ (net_buffers n).*2.
Proof.
  unfold model_tensors. set (reg := (_ <$> net_parameters n) ++ (_ <$> net_buffers n)). set (w1 := foldl (visit_experts heap) _ _).
  exists (found (foldl (visit_vars heap) w1 (net_modules n))).
  assert (walk_ok (reg.*2) (foldl (visit_vars heap) w1 (net_modules n))) as (_ & Hn & Hd).
  { apply foldl_invariant.
    - apply foldl_invariant; [split_and!; [done|constructor|by intros v ?%elem_of_nil]|].
      intros w nm Hw. unfold visit_experts. destruct (prepared_experts nm.2); [|done]. by apply visit_ok.
    - intros w nm Hw. unfold visit_vars. apply foldl_invariant; [done|]. intros w' av Hw'.
      case_bool_decide; [done|]. by apply visit_ok. }
  split_and!; [unfold reg; by rewrite <- app_assoc|done|]. intros v Hv. specialize (Hd v Hv). unfold reg in Hd.
  rewrite fmap_app, <- !list_fmap_compose, elem_of_app in Hd. tauto.
Qed.

(** ** Fingerprints *)

#[global] Instance ints_total : TotalLeb ints_leb.
Proof.
  split.
  - intros x; induction x as [|a x IH]; intros [|b y]; simpl; auto.
    destruct (Z.eqb_spec a b), (Z.eqb_spec b a); subst; try done. rewrite !Z.ltb_lt. lia.
  - intros x; induction x as [|a x IH]; intros [|b y] [|c z]; simpl; auto; try done.
    destruct (Z.eqb_spec a b), (Z.eqb_spec b c), (Z.eqb_spec a c); subst; try done; rewrite ?Z.ltb_lt; eauto; try lia.
  - intros x; induction x as [|a x IH]; intros [|b y]; simpl; auto; try done.
    destruct (Z.eqb_spec a b), (Z.eqb_spec b a); subst; try done.
    + intros. f_equal. by apply IH.
    + rewrite !Z.ltb_lt. lia.
Qed.

#[global] Instance leb_total_Z : TotalLeb Z.leb.
Proof. split; intros *; rewrite ?Z.leb_le; lia. Qed.

#[global] Instance tuple_total : TotalLeb tuple_leb.
Proof. unfold tuple_leb. apply _. Qed.

#[global] Instance tuple_of_inj : Inj (=) (=) tuple_of.
Proof. intros [] []. unfold tuple_of. simpl. by intros [= -> -> -> -> -> -> ->]. Qed.

(** The fingerprint identifies the references up to their order. *)
Lemma fingerprint_eq a b : reference_fingerprint a = reference_fingerprint b ↔ a ≡ₚ b.
Proof.
  unfold reference_fingerprint. split; intros H.
  - assert (tuple_of <$> a ≡ₚ tuple_of <$> b) as Hp by by rewrite <- (py_sorted_perm tuple_leb), H, py_sorted_perm.
    apply Permutation_map_inv in Hp as (b' & E & Hp'). apply (inj (fmap tuple_of)) in E. by rewrite E.
  - apply py_sorted_perm_eq; [apply _|]. by rewrite H.
Qed.

Lemma fingerprint_nil a : reference_fingerprint a = [] ↔ a = [].
Proof. change (@nil ref_tuple) with (reference_fingerprint []) at 1. rewrite fingerprint_eq. apply Permutation_nil_r. Qed.

(** ** The fingerprint dictionaries *)

Definition fp_dict : Type := list (list ref_tuple * list nat).
Definition has (d : fp_dict) (fp : list ref_tuple) (i : nat) : Prop := ∃ l, (fp, l) ∈ d ∧ i ∈ l.

Lemma index_add_keys fp i d k : k ∈ (index_add fp i d).*1 ↔ k = fp ∨ k ∈ d.*1.
Proof.
  induction d as [|[k' l] d IH]; simpl; [rewrite list_elem_of_singleton, elem_of_nil; tauto|].
  case_decide; subst; simpl; rewrite !elem_of_cons, ?IH; tauto.
Qed.

Lemma index_add_NoDup fp i d : NoDup d.*1 → NoDup (index_add fp i d).*1.
Proof.
  induction d as [|[k l] d IH]; simpl; intros Hn; [apply NoDup_singleton|]. apply NoDup_cons in Hn as [Hk Hn].
  case_decide; simpl; constructor; auto. rewrite index_add_keys. naive_solver.
Qed.

Lemma has_cons k l d fp i : has ((k, l) :: d) fp i ↔ (fp = k ∧ i ∈ l) ∨ has d fp i.
Proof. unfold has. setoid_rewrite elem_of_cons. naive_solver. Qed.

Lemma index_add_has fp i d fp' j : has (index_add fp i d) fp' j ↔ (fp' = fp ∧ j = i) ∨ has d fp' j.
Proof.
  induction d as [|[k l] d IH]; simpl.
  - rewrite has_cons, list_elem_of_singleton. done.
  - case_decide; subst; rewrite !has_cons, ?IH, ?elem_of_app, ?list_elem_of_singleton; naive_solver.
Qed.

Lemma by_fingerprint_fold l d : let f := foldl (λ d ir, match reference_fingerprint ir.2 with [] => d | fp => index_add fp ir.1 d end) d l in
  (NoDup d.*1 → NoDup f.*1)
  ∧ ∀ fp i, has f fp i ↔ has d fp i ∨ fp ≠ [] ∧ ∃ r, (i, r) ∈ l ∧ reference_fingerprint r = fp.
Proof.
  revert d. induction l as [|[i r] l IH]; intros d; simpl.
  { split; [done|]. intros fp i. split; [by left|]. intros [?|(_ & r & ?%elem_of_nil & _)]; done. }
  destruct (reference_fingerprint r) as [|t fp0] eqn:E.
  - destruct (IH d) as [H1 H2]. split; [done|]. intros fp j. rewrite H2. setoid_rewrite elem_of_cons. naive_solver.
  - destruct (IH (index_add (t :: fp0) i d)) as [H1 H2]. split; [intros; by apply H1, index_add_NoDup|].
    intros fp j. rewrite H2, index_add_has. setoid_rewrite elem_of_cons. naive_solver.
Qed.

Lemma elem_of_zip_seq {A} (l : list A) i x : (i, x) ∈ zip (seq 0 (length l)) l ↔ l !! i = Some x.
Proof.
  rewrite list_elem_of_lookup. split.
  - intros [k Hk]. apply lookup_zip_with_Some in Hk as (j & y & [= -> ->] & Hj & Hy).
    apply lookup_seq in Hj as [-> ?]. done.
  - intros Hi. exists i. apply lookup_zip_with_Some. exists i, x. split_and!; [done| |done].
    apply lookup_seq. split; [lia|]. by apply lookup_lt_Some in Hi.
Qed.

Lemma by_fingerprint_spec all : NoDup (by_fingerprint all).*1
  ∧ ∀ fp i, has (by_fingerprint all) fp i ↔ fp ≠ [] ∧ ∃ r, all !! i = Some r ∧ reference_fingerprint r = fp.
Proof.
  destruct (by_fingerprint_fold (zip (seq 0 (length all)) all) []) as [H1 H2]. split; [apply H1; constructor|].
  intros fp i. unfold by_fingerprint. rewrite H2. setoid_rewrite elem_of_zip_seq. split; [|by right].
  intros [(l & ?%elem_of_nil & _)|?]; done.
Qed.

Lemma fp_get_has d fp i : i ∈ fp_get fp d → has d fp i.
Proof.
  induction d as [|[k l] d IH]; simpl; [by intros ?%elem_of_nil|]. rewrite has_cons. case_decide; subst; [by left|].
  right. auto.
Qed.

Lemma has_unique d fp i j : NoDup d.*1 → Forall (λ kl, length kl.2 = 1%nat) d → has d fp i → has d fp j → i = j.
Proof.
  intros Hn Hl (l & Hin & Hi) (l' & Hin' & Hj).
  assert (l = l') as <-.
  { clear Hl. induction d as [|[k m] d IH]; [by apply elem_of_nil in Hin|]. apply NoDup_cons in Hn as [Hk Hn]. simpl in *.
    apply elem_of_cons in Hin as [[= -> ->]|Hin]; apply elem_of_cons in Hin' as [[= E]|Hin']; subst; try done; auto.
    - destruct Hk. apply list_elem_of_fmap. by exists (k, l').
    - destruct Hk. apply list_elem_of_fmap. by exists (k, l). }
  rewrite Forall_forall in Hl. specialize (Hl _ Hin). simpl in Hl. destruct l as [|x [|]]; try done.
  apply list_elem_of_singleton in Hi, Hj. congruence.
Qed.

(** ** Matching *)

Lemma match_all_Ok saved current cur src mapping : match_all saved current cur src = Ok mapping →
  Forall2 (λ kl sc, has src kl.1 sc.1 ∧ has cur kl.1 sc.2
    ∧ ∃ e a, saved !! sc.1 = Some e ∧ current !! sc.2 = Some a ∧ entry_size e = a.2) src mapping.
Proof.
  revert mapping. induction src as [|[fp l] src IH]; intros mapping E; cbn [match_all] in E; [res_inv; constructor|].
  apply bind_Ok in E as (s & Hs%of_option_Ok & E). apply bind_Ok in E as (c & Hc & E).
  apply bind_Ok in E as (e & He%of_option_Ok & E). apply bind_Ok in E as (a & Ha%of_option_Ok & E).
  apply bind_Ok in E as ([] & Hsz%raise_if_Ok & E). apply bind_Ok in E as (rest & Hrest & E). res_inv.
  apply negb_false_iff, Z.eqb_eq in Hsz. constructor.
  - cbn [fst snd]. split_and!.
    + rewrite has_cons. left. split; [done|]. destruct l; simplify_eq/=. left.
    + apply fp_get_has. destruct (fp_get fp cur) as [|x [|]]; try done. res_inv. left.
    + by exists e, a.
  - eapply Forall2_impl; [by apply IH|]. intros kl sc (H1 & H2 & H3). split_and!; [|done..]. rewrite has_cons. by right.
Qed.

Lemma nat_get_elem i c m : nat_get i m = Some c → (i, c) ∈ m.
Proof. induction m as [|[k v] m IH]; simpl; [done|]. case_decide; [intros [= ->]; subst; left|]. intros. right. auto. Qed.

Lemma length_current_refs current tensors : length (current_refs current tensors) = length current.
Proof. unfold current_refs. by rewrite length_fmap, length_seq. Qed.

Section mapping.
Context (saved : list saved_entry) (current : list (Z * Z)) (refs : list (list ref)) (mapping : list (nat * nat)).
Let src := by_fingerprint (entry_refs <$> saved).
Let cur := by_fingerprint refs.
Hypothesis Hsrc : Forall (λ kl, length kl.2 = 1%nat) src.
Hypothesis Hcur : Forall (λ kl, length kl.2 = 1%nat) cur.
Hypothesis Hmatch : match_all saved current cur src = Ok mapping.

Definition same_allocation (s c : nat) : Prop := ∃ e a rs,
  saved !! s = Some e ∧ current !! c = Some a ∧ entry_size e = a.2 ∧ refs !! c = Some rs ∧ rs ≠ [] ∧ entry_refs e ≡ₚ rs.

Lemma mapping_same s c : (s, c) ∈ mapping → same_allocation s c.
Proof.
  intros Hin. apply match_all_Ok in Hmatch. apply list_elem_of_lookup in Hin as [i Hi].
  destruct (Forall2_lookup_r _ _ _ _ _ Hmatch Hi) as ([fp l] & _ & H1 & H2 & e & a & He & Ha & Hsz). cbn [fst snd] in *.
  apply by_fingerprint_spec in H1 as (Hne & r & Hr & Hfp). apply by_fingerprint_spec in H2 as (_ & rs & Hrs & Hfp').
  rewrite list_lookup_fmap, He in Hr. injection Hr as <-. exists e, a, rs. split_and!; try done.
  - intros ->. rewrite <- Hfp' in Hne. by destruct Hne.
  - apply fingerprint_eq. congruence.
Qed.

Lemma mapping_inj s s' c : (s, c) ∈ mapping → (s', c) ∈ mapping → s = s'.
Proof.
  intros Hin Hin'. destruct (mapping_same _ _ Hin) as (e & a & rs & He & _ & _ & Hrs & Hne & Hp).
  destruct (mapping_same _ _ Hin') as (e' & a' & rs' & He' & _ & _ & Hrs' & _ & Hp'). simplify_eq.
  assert (∀ k x, saved !! k = Some x → entry_refs x ≡ₚ rs → has src (reference_fingerprint rs) k) as Hhas.
  { intros k x Hk Hx. apply by_fingerprint_spec. split; [by rewrite fingerprint_nil|]. exists (entry_refs x).
    rewrite list_lookup_fmap, Hk. split; [done|]. by apply fingerprint_eq. }
  eapply has_unique; [apply by_fingerprint_spec|apply Hsrc|by eapply Hhas|by eapply Hhas].
Qed.

Lemma mapping_fun s c c' : (s, c) ∈ mapping → (s, c') ∈ mapping → c = c'.
Proof.
  intros Hin Hin'. destruct (mapping_same _ _ Hin) as (e & a & rs & He & _ & _ & Hrs & Hne & Hp).
  destruct (mapping_same _ _ Hin') as (e' & a' & rs' & He' & _ & _ & Hrs' & _ & Hp'). simplify_eq.
  assert (∀ k x, refs !! k = Some x → rs ≡ₚ x → has cur (reference_fingerprint rs) k) as Hhas.
  { intros k x Hk Hx. apply by_fingerprint_spec. split; [by rewrite fingerprint_nil|]. exists x.
    split; [done|]. symmetry. by apply fingerprint_eq. }
  eapply has_unique; [apply by_fingerprint_spec|apply Hcur|by eapply Hhas|eapply Hhas; [done|]]. by rewrite <- Hp.
Qed.
End mapping.

Lemma existsb_false_Forall {A} (f : A → bool) l : existsb f l = false → Forall (λ x, f x = false) l.
Proof. induction l as [|x l IH]; simpl; [constructor|]. intros; guards. constructor; auto. Qed.

Lemma replay_entries current mapping l i replay :
  mapM (replay_entry current mapping) (zip (seq i (length l)) l) = Ok replay →
  Forall2 (λ ie x, (ie.1, x.1.1) ∈ mapping ∧ current !! x.1.1 = Some (x.1.2, from_option snd 0 (current !! x.1.1)) ∧ x.2 = ie.2)
    (zip (seq i (length l)) l) replay.
Proof.
  intros H%mapM_Ok. eapply Forall2_impl; [exact H|]. intros [k e] x E. unfold replay_entry in E. res_inv. cbn [fst snd] in *.
  split_and!; [by apply nat_get_elem| |done]. 
  match goal with H : current !! _ = Some _ |- _ => rewrite H end. simpl. by destruct x1.
Qed.

(** C29. An accepted semantic replay is a placement: the replay lists the saved entries in
    order, each with a distinct fresh allocation of the same size, at that allocation's
    base, that holds exactly the tensors the entry held, with the same names, layouts
    and offsets; every fresh allocation that holds a tensor is used; and what is left
    over is at most 16 allocations and 1 GiB, none of which holds a tensor. *)
Theorem semantic_replay_sound saved current tensors replay extras n :
  semantic_replay_map saved current tensors = Ok (replay, extras, n) →
  let refs := current_refs current tensors in
  replay.*2 = saved ∧ NoDup (replay.*1).*1
  ∧ Forall (λ x, current !! x.1.1 = Some (x.1.2, entry_size x.2)
                 ∧ ∃ rs, refs !! x.1.1 = Some rs ∧ rs ≠ [] ∧ entry_refs x.2 ≡ₚ rs) replay
  ∧ (∀ i, (i < length current)%nat → i ∈ (replay.*1).*1 ∨ i ∈ extras ∧ refs !! i = Some [])
  ∧ NoDup extras ∧ (length extras <= 16)%nat
  ∧ zsum ((λ i, from_option snd 0 (current !! i)) <$> extras) <= GIB.
Proof.
  unfold semantic_replay_map. set (refs := current_refs current tensors). intros E.
  apply bind_Ok in E as ([] & Hdup%raise_if_Ok & E). apply orb_false_iff in Hdup as [Hsrc Hcur].
  apply bind_Ok in E as (mapping & Hmap & E). apply bind_Ok in E as ([] & Hun%raise_if_Ok & E).
  apply bind_Ok in E as (replay' & Hrep & E). apply bind_Ok in E as ([] & Hex%raise_if_Ok & E). res_inv. simplify_eq.
  apply orb_false_iff in Hex as [Hex1%Z.ltb_ge Hex2%Z.ltb_ge].
  assert (∀ d : fp_dict, existsb (λ kl, negb (bool_decide (length kl.2 = 1%nat))) d = false →
    Forall (λ kl, length kl.2 = 1%nat) d) as Hlen.
  { intros d Hd%existsb_false_Forall. eapply Forall_impl; [exact Hd|]. intros kl Hk. cbn beta in Hk. by guards. }
  apply Hlen in Hsrc, Hcur. clear Hlen. apply replay_entries in Hrep.
  pose proof (mapping_same saved current refs mapping Hmap) as Hsame.
  pose proof (mapping_inj saved current refs mapping Hsrc Hmap) as Hinj.
  pose proof (mapping_fun saved current refs mapping Hcur Hmap) as Hfun.
  assert (∀ i x, replay !! i = Some x → (i, x.1.1) ∈ mapping ∧ saved !! i = Some x.2
    ∧ current !! x.1.1 = Some (x.1.2, from_option snd 0 (current !! x.1.1))) as Hget.
  { intros i x Hi. destruct (Forall2_lookup_r _ _ _ _ _ Hrep Hi) as ([k e] & Hk & H1 & H2 & H3).
    apply lookup_zip_with_Some in Hk as (k' & e' & [= -> ->] & Hk & He). apply lookup_seq in Hk as [-> _]. cbn [fst snd] in *.
    by rewrite H3. }
  assert (length replay = length saved) as Hlen.
  { rewrite <- (Forall2_length _ _ _ Hrep), length_zip_with, length_seq. lia. }
  split_and!; try done; try lia.
  - apply list_eq. intros i. rewrite list_lookup_fmap. destruct (replay !! i) as [x|] eqn:Ei; simpl.
    + symmetry. by apply Hget.
    + symmetry. apply lookup_ge_None. apply lookup_ge_None in Ei. lia.
  - apply NoDup_alt. intros i j c Hi Hj. rewrite !list_lookup_fmap in Hi, Hj.
    destruct (replay !! i) as [x|] eqn:Ei; [|done]. destruct (replay !! j) as [y|] eqn:Ej; [|done]. simplify_eq/=.
    apply Hget in Ei as [Hm _]. apply Hget in Ej as [Hm' _].
    eapply Hinj; [exact Hm|congruence].
  - apply Forall_lookup_2. intros i x Hi. destruct (Hget i x Hi) as (Hm & Hs & Hc).
    destruct (Hsame _ _ Hm) as (e & a & rs & He & Ha & Hsz & Hrs & Hne & Hp). destruct a as [b sz]. rewrite Ha in Hc.
    simplify_eq/=. split; [by rewrite Ha|]. by exists rs.
  - intros i Hi. destruct (decide (i ∈ mapping.*2)) as [Hu|Hu].
    + left. apply list_elem_of_fmap in Hu as ([s c] & -> & Hin). simpl. destruct (Hsame _ _ Hin) as (e & _ & _ & He & _).
      destruct (lookup_lt_is_Some_2 replay s) as [x Hx]; [rewrite Hlen; by apply lookup_lt_Some in He|].
      destruct (Hget s x Hx) as [Hm _]. rewrite (Hfun s c x.1.1) by done.
      apply list_elem_of_fmap. exists x.1. split; [done|]. apply list_elem_of_fmap. exists x. split; [done|]. by eapply list_elem_of_lookup_2.
    + right. split.
      { apply list_elem_of_filter. split; [done|]. apply elem_of_seq. lia. }
      destruct (lookup_lt_is_Some_2 refs i) as [rs Hrs]; [unfold refs; rewrite length_current_refs; lia|].
      rewrite Hrs. f_equal. apply existsb_false_Forall in Hun. rewrite Forall_forall in Hun.
      specialize (Hun (i, rs)). rewrite elem_of_zip_seq in Hun. specialize (Hun Hrs). cbn [fst snd] in Hun.
      apply andb_false_iff in Hun as [Hun|Hun]; by guards.
  - apply NoDup_filter, NoDup_seq.
Qed.

(** ** Two saved allocations found again, in another order, beside a scratch one *)

Definition flat (p n : Z) : tensor := Tensor true (Some 0) (lit "torch.uint8") [n] [1] p n 1 (Storage p n).
Definition flat_ref (name : string) (n offset : Z) : ref := Ref (lit name) (lit "parameter") [n] [1] (lit "torch.uint8") n offset.

Definition sample_saved : list saved_entry :=
  [Saved 4096 [flat_ref "a" 16 0; flat_ref "b" 16 512]; Saved 8192 [flat_ref "c" 64 0]].
Definition sample_current : list (Z * Z) := [(100000, 8192); (200000, 512); (300000, 4096)].
Definition sample_tensors : list (list N * list N * tensor) :=
  [(lit "b", lit "parameter", flat 300512 16); (lit "c", lit "parameter", flat 100000 64); (lit "a", lit "parameter", flat 300000 16)].

Definition sample_replay : list (nat * Z * saved_entry) := Eval vm_compute in
  match semantic_replay_map sample_saved sample_current sample_tensors with Ok (r, _, _) => r | Raise _ => [] end.

Lemma semantic_replay_sound_witness :
  let refs := current_refs sample_current sample_tensors in
  sample_replay.*2 = sample_saved ∧ NoDup (sample_replay.*1).*1
  ∧ Forall (λ x, sample_current !! x.1.1 = Some (x.1.2, entry_size x.2)
                 ∧ ∃ rs, refs !! x.1.1 = Some rs ∧ rs ≠ [] ∧ entry_refs x.2 ≡ₚ rs) sample_replay
  ∧ (∀ i, (i < length sample_current)%nat → i ∈ (sample_replay.*1).*1 ∨ i ∈ [1%nat] ∧ refs !! i = Some [])
  ∧ NoDup [1%nat] ∧ (length [1%nat] <= 16)%nat
  ∧ zsum ((λ i, from_option snd 0 (sample_current !! i)) <$> [1%nat]) <= GIB.
Proof.
  apply (semantic_replay_sound sample_saved sample_current sample_tensors sample_replay [1%nat] 2). vm_compute. reflexivity.
Defined.
