(* ===== verification/Lifecycle.v ===== *)
(** * The lifecycle helper of an engine container ([coldsnap_lifecycle.py])

    Putting a backend to sleep and waking it over its HTTP interface, and keeping the
    hibernation evidence of its workers. The backend, the clock and the files are a
    [host]; times are integral nanoseconds; argument parsing is left out. *)

From S2P Require Import Prelude PyFloat PyJson Validation Artifact.

(** ** The host *)

Record host (W : Type) := Host {
  urlopen : pystr → pystr → option json → Z → ST W pybytes;  (** method, URL, body, timeout *)
  monotonic : W → Z;
  sleep : Z → W → W;
  state_files : W → res (list pystr);     (** the texts of [hibernate-states/*.json] *)
  provider_files : W → res (list pystr);  (** the texts of [hydration/*/activation-provider] *)
}.
Arguments urlopen {W}. Arguments monotonic {W}. Arguments sleep {W}.
Arguments state_files {W}. Arguments provider_files {W}.

Inductive Engine := vllm | sglang.
Inductive Action := Sleep | Wake | GetStatus.
Record Args := MkArgs {
  engine : Engine; action : Action; port : Z; model : pystr; health_path : pystr; prompt : pystr; expected : pystr;
  load_format : pystr; timeout : Z;
}.

Definition second : Z := 1000000000.
Definition GET := lit "GET".
Definition POST := lit "POST".

Section client.
Context {W : Type} (h : host W) (args : Args).
(** [str(v)] of a decoded value that is not a string. *)
Context (py_str : json → pystr).
(** [self.deadline] *)
Context (deadline : Z).

Definition base : pystr := lit "http://127.0.0.1:" ++ str_of_Z (port args).

(** [json.loads(raw) if raw else None] *)
Definition decode_reply (raw : pybytes) : res json :=
  match raw with
  | [] => mret JNull
  | _ => s ← of_option UnicodeError "invalid UTF-8" (utf8_decode raw); of_option ValueError "invalid JSON" (loads s)
  end.

(** [BackendClient.request] *)
Definition request (method path : pystr) (payload : option json) : ST W json := λ w,
  let limit := Z.max second (Z.min (600 * second) (deadline - monotonic h w)) in
  (raw ← urlopen h method (base ++ path) payload limit; lift (decode_reply raw)) w.

(** [any(value not in {"running", "sleeping"} for value in states)] *)
Fixpoint known_states (states : list json) : res (list pystr) :=
  match states with
  | [] => mret []
  | JStr s :: rest =>
      if bool_decide (s ∈ [lit "running"; lit "sleeping"]) then cons s <$> known_states rest
      else Raise (Exn RuntimeError "invalid SGLang lifecycle evidence")
  | (JArr _ | JObj _) :: _ => Raise (Exn TypeError "unhashable type")
  | _ :: _ => Raise (Exn RuntimeError "invalid SGLang lifecycle evidence")
  end.

Definition sglang_sleeping (texts : list pystr) : res bool :=
  states ← mapM (λ t, v ← of_option ValueError "invalid JSON" (loads t);
                      s ← getattr_get "state" v; mret (default JNull s)) texts;
  known ← known_states states;
  match known with
  | [] => Raise (Exn RuntimeError "invalid SGLang lifecycle evidence")
  | s :: _ =>
      _ ← raise_if (negb (bool_decide (length (remove_dups known) = 1%nat))) RuntimeError "invalid SGLang lifecycle evidence";
      mret (bool_decide (s = lit "sleeping"))
  end.

Definition vllm_sleeping (value : json) : res bool :=
  match jget "is_sleeping" value with
  | Some (JBool b) => mret b
  | _ => Raise (Exn RuntimeError "invalid /is_sleeping response")
  end.

(** [BackendClient.sleeping] *)
Definition sleeping : ST W bool :=
  match engine args with
  | vllm => value ← request GET (lit "/is_sleeping") None; lift (vllm_sleeping value)
  | sglang => λ w, lift (texts ← state_files h w; sglang_sleeping texts) w
  end.

(** The polling loops. A round of [wait_state] takes at least 100 ms and one of [health]
    250 ms, so the rounds left before the deadline bound the recursion. *)
Definition rounds (pause : Z) (w : W) : nat := Z.to_nat ((deadline - monotonic h w) / pause + 1).

Definition wait_pause : Z := 100000000.
Definition health_pause : Z := 250000000.

Fixpoint wait_loop (fuel : nat) (want : bool) (w : W) : res unit * W :=
  match fuel with
  | O => (Raise (Exn TimeoutError "backend sleep state did not converge"), w)
  | S fuel' =>
      if monotonic h w <? deadline then
        match sleeping w with
        | (Raise e, w') => (Raise e, w')
        | (Ok b, w') => if Bool.eqb b want then (Ok tt, w') else wait_loop fuel' want (sleep h wait_pause w')
        end
      else (Raise (Exn TimeoutError "backend sleep state did not converge"), w)
  end.
Definition wait_state (want : bool) : ST W unit := λ w, wait_loop (rounds wait_pause w) want w.

Fixpoint health_loop (fuel : nat) (w : W) : res unit * W :=
  match fuel with
  | O => (Raise (Exn TimeoutError "backend health did not become ready"), w)
  | S fuel' =>
      if monotonic h w <? deadline then
        match request GET (health_path args) None w with
        | (Ok _, w') => (Ok tt, w')
        | (Raise _, w') => health_loop fuel' (sleep h health_pause w')
        end
      else (Raise (Exn TimeoutError "backend health did not become ready"), w)
  end.
Definition health : ST W unit := λ w, health_loop (rounds health_pause w) w.

(** [v[0]] *)
Definition first_item (v : json) : res json :=
  match v with
  | JArr (x :: _) => mret x
  | JStr (c :: _) => mret (JStr [c])
  | JArr [] | JStr [] => Raise (Exn IndexError "index out of range")
  | JObj _ => Raise (Exn KeyError "0")
  | _ => Raise (Exn TypeError "object is not subscriptable")
  end.

(** The text of a chat completion, stripped. *)
Definition completion (value : json) : res pystr :=
  choices ← subscript "choices" value;
  choice ← first_item choices;
  message ← subscript "message" choice;
  content ← subscript "content" message;
  mret (py_strip (match content with JStr s => s | v => py_str v end)).

Definition chat_path := lit "/v1/chat/completions".

Definition infer : ST W bool :=
  value ← request POST chat_path (Some (JObj [
    (lit "model", JStr (model args));
    (lit "messages", JArr [JObj [(lit "role", JStr (lit "user")); (lit "content", JStr (prompt args))]]);
    (lit "max_tokens", JInt 64); (lit "temperature", JInt 0)]));
  actual ← lift (completion value);
  _ ← st_raise_if (negb (bool_decide (actual = expected args))) RuntimeError "validation response mismatch";
  mret true.

Definition memory_tags : json := JObj [(lit "tags", JArr [JStr (lit "kv_cache"); JStr (lit "weights"); JStr (lit "cuda_graph")])].

(** The request that suspends, and the ones that resume. *)
Definition sleep_path : pystr :=
  match engine args with vllm => lit "/sleep?level=1&mode=wait" | sglang => lit "/release_memory_occupation" end.

Definition request_sleep : ST W json :=
  match engine args with
  | vllm => request POST sleep_path None
  | sglang => request POST sleep_path (Some memory_tags)
  end.

Definition request_wake : ST W unit :=
  match engine args with
  | vllm => _ ← request POST (lit "/wake_up") None; mret tt
  | sglang =>
      _ ← request POST (lit "/resume_memory_occupation") (Some memory_tags);
      texts ← (λ w, lift (provider_files h w) w);
      let providers := remove_dups (py_strip <$> texts) in
      match providers with
      | [p] =>
          if bool_decide (p = lit "recovery") then
            _ ← request POST (lit "/update_weights_from_disk") (Some (JObj [
                  (lit "model_path", JStr (model args)); (lit "load_format", JStr (load_format args));
                  (lit "recapture_cuda_graph", JBool false)]));
            mret tt
          else st_raise_if (negb (bool_decide (p = lit "native"))) RuntimeError "invalid SGLang activation provider"
      | _ => lift (Raise (Exn RuntimeError "invalid SGLang activation provider"))
      end
  end.

Record ControlResult := Controlled { is_sleeping : bool; accepted : bool; elapsed : Z }.

(** [control] from its first probe on; [started] is when it began. *)
Definition control_steps (started : Z) : ST W ControlResult :=
  before ← sleeping;
  ok ← match action args with
       | Sleep =>
           if before : bool then mret false
           else _ ← health; ok ← infer; _ ← request_sleep; _ ← wait_state true; mret ok
       | Wake =>
           _ ← (if before : bool then _ ← request_wake; wait_state false else mret tt);
           _ ← health; infer
       | GetStatus => mret false
       end;
  final ← sleeping;
  (λ w, (Ok (Controlled final ok (monotonic h w - started)), w)) : ST W ControlResult.
End client.

(** [control]: the lock is taken without waiting; the deadline starts with the client. *)
Definition control {W} (h : host W) (py_str : json → pystr) (args : Args) (lock_free : bool) : ST W ControlResult := λ w,
  if lock_free then control_steps h args py_str (monotonic h w + timeout args) (monotonic h w) w
  else (Raise (Exn OSError "Resource temporarily unavailable"), w).

(** ** Hibernation evidence *)

Definition MAXIMUM_JSON_BYTES : Z := 1024 * 1024.
Definition MAXIMUM_EVIDENCE_BYTES : Z := 4 * 1024 * 1024.

Definition expected_workers (value : pystr) : res (list pystr) :=
  decoded ← of_option ValueError "invalid JSON" (loads value);
  workers ← match decoded with
            | JArr ((_ :: _) as l) =>
                mapM (λ v, match v with
                           | JStr ((_ :: _) as s) => mret s
                           | _ => Raise (Exn RuntimeError "lifecycle worker inventory is invalid")
                           end) l
            | _ => Raise (Exn RuntimeError "lifecycle worker inventory is invalid")
            end;
  _ ← raise_if (has_dups workers) RuntimeError "lifecycle worker inventory contains duplicates";
  mret workers.

(** A file of [hibernate-states]: its stem, its [lstat] and its text. *)
Record evidence_file := EvFile { ev_stem : pystr; ev_stat : stat_result; ev_text : pystr }.

Definition file_leb (a b : evidence_file) : bool := str_leb (ev_stem a ++ lit ".json") (ev_stem b ++ lit ".json").

(** The checks both commands make of a file, and its decoded object. *)
Definition read_evidence (f : evidence_file) : res json :=
  _ ← raise_if (negb (S_ISREG (st_mode (ev_stat f))) || (st_size (ev_stat f) <=? 0)
                || (MAXIMUM_EVIDENCE_BYTES <? st_size (ev_stat f))) RuntimeError "invalid hibernation evidence file";
  of_option ValueError "invalid JSON" (loads (ev_text f)).

(** [worker in expected] for a decoded value. *)
Definition known_worker (workers : list pystr) (worker : json) : res (option pystr) :=
  match worker with
  | JStr s => mret (if bool_decide (s ∈ workers) then Some s else None)
  | JArr _ | JObj _ => Raise (Exn TypeError "unhashable type")
  | _ => mret None
  end.

Record evidence_row := Row { row_worker : pystr; row_state : json; row_capture : json; row_pid : json; row_generation : json }.

Definition evidence_item (workers : list pystr) (capture : pystr) (f : evidence_file) : res evidence_row :=
  value ← read_evidence f;
  w ← getattr_get "worker_id" value;
  known ← known_worker workers (default JNull w);
  _ ← raise_if (bool_decide (known = None) || negb (opt_is (jget "capture_id" value) (JStr capture)))
      RuntimeError "hibernation evidence identity mismatch";
  mret (Row (default [] known) (default JNull (jget "state" value)) (default JNull (jget "capture_id" value))
          (default (JInt 0) (jget "pid" value)) (default (JStr []) (jget "generation" value))).

Definition evidence (capture workers_text : pystr) (files : list evidence_file) : res (list evidence_row) :=
  workers ← expected_workers workers_text;
  rows ← mapM (evidence_item workers capture) (py_sorted file_leb files);
  _ ← raise_if (negb (set_eqb (row_worker <$> rows) workers)) RuntimeError "hibernation evidence worker set mismatch";
  mret rows.

(** [value.update({...})] *)
Definition updated_evidence (state capture : pystr) (now : json) (d : list (pystr * json)) : list (pystr * json) :=
  merge_dict d [(lit "state", JStr state); (lit "capture_id", JStr capture); (lit "updated_unix", now);
                (lit "operation", JStr (lit "restore"))].

Definition evidence_text (d : list (pystr * json)) : pystr := dumps canonical_style (JObj d) ++ [10%N].

(** One file of [synchronize_evidence]: its worker and its new text; [now] is the clock
    when that file is reached. *)
Definition synchronize_item (workers seen : list pystr) (state capture : pystr) (now : pystr → json) (f : evidence_file)
    : res (pystr * evidence_file) :=
  value ← read_evidence f;
  w ← getattr_get "worker_id" value;
  known ← known_worker workers (default JNull w);
  worker ← match known with
           | Some s => _ ← raise_if (bool_decide (s ∈ seen) || negb (bool_decide (ev_stem f = s)))
                           RuntimeError "hibernation evidence worker identity mismatch"; mret s
           | None => Raise (Exn RuntimeError "hibernation evidence worker identity mismatch")
           end;
  _ ← raise_if (match jget "capture_id" value with None | Some JNull | Some (JStr _) => false | _ => true end)
      RuntimeError "invalid hibernation evidence capture identity";
  d ← match value with JObj d => mret d | _ => Raise (Exn AttributeError "update") end;
  mret (worker, EvFile (ev_stem f) (ev_stat f) (evidence_text (updated_evidence state capture (now (ev_stem f)) d))).

(** The loop: files are rewritten as it goes, so an error leaves the earlier ones new. *)
Fixpoint synchronize_loop (workers seen : list pystr) (state capture : pystr) (now : pystr → json) (files : list evidence_file)
    : res (list pystr) * list evidence_file :=
  match files with
  | [] => (Ok seen, [])
  | f :: rest =>
      match synchronize_item workers seen state capture now f with
      | Raise e => (Raise e, files)
      | Ok (worker, f') =>
          let '(r, rest') := synchronize_loop workers (worker :: seen) state capture now rest in (r, f' :: rest')
      end
  end.

Definition synchronize_evidence (state capture workers_text : pystr) (now : pystr → json) (files : list evidence_file)
    : res unit * list evidence_file :=
  match expected_workers workers_text with
  | Raise e => (Raise e, files)
  | Ok workers =>
      let '(r, files') := synchronize_loop workers [] state capture now (py_sorted file_leb files) in
      (seen ← r;
       raise_if (negb (set_eqb seen workers)) RuntimeError "hibernation evidence worker set mismatch", files')
  end.

(** [write_marker]: the bytes published as [lifecycle.json]. *)
Definition write_marker (stdin : pybytes) : res pybytes :=
  let data := take (Z.to_nat (MAXIMUM_JSON_BYTES + 1)) stdin in
  _ ← raise_if (bool_decide (data = []) || (MAXIMUM_JSON_BYTES <? Z.of_nat (length data))) RuntimeError "invalid lifecycle marker input";
  s ← of_option UnicodeError "invalid UTF-8" (utf8_decode data);
  value ← of_option ValueError "invalid JSON" (loads s);
  _ ← raise_if (match value with JObj _ => false | _ => true end) RuntimeError "lifecycle marker must be a JSON object";
  mret data.
