(* ===== verification/LifecycleSpec.v ===== *)
(** * Theorems about the lifecycle helper

    The polling loops end and, when the backend converges in time, succeed; a backend is
    suspended only after it answered the validation prompt; and the evidence files are
    rewritten exactly for the expected workers. *)

From S2P Require Import Prelude PyFloat PyJson Validation Artifact Lifecycle.

(** ** Time *)

(** The clock never runs backwards, and a pause takes at least its length. *)
Class HostClock {W} (h : host W) : Prop := {
  urlopen_clock me url body t w : monotonic h w <= monotonic h (urlopen h me url body t w).2;
  sleep_clock d w : 0 <= d → monotonic h w + d <= monotonic h (sleep h d w);
}.

Section polling.
Context {W : Type} (h : host W) `{!HostClock h} (args : Args) (deadline : Z).

Lemma bind_clock {A B} (m : ST W A) (k : A → ST W B) : (∀ w, monotonic h w <= monotonic h (m w).2) →
  (∀ a w, monotonic h w <= monotonic h (k a w).2) → ∀ w, monotonic h w <= monotonic h ((m ≫= k) w).2.
Proof.
  intros Hm Hk w. unfold mbind, st_bind. specialize (Hm w). destruct (m w) as [[a|e] w']; simpl in *; [|lia].
  specialize (Hk a w'). lia.
Qed.

Lemma request_clock me path payload w : monotonic h w <= monotonic h (request h args deadline me path payload w).2.
Proof.
  unfold request. apply bind_clock; [intros; apply urlopen_clock|]. intros raw w'. simpl. lia.
Qed.

Lemma sleeping_clock w : monotonic h w <= monotonic h (sleeping h args deadline w).2.
Proof.
  unfold sleeping. destruct (engine args); [|simpl; lia]. apply bind_clock; [apply request_clock|]. intros; simpl; lia.
Qed.

Lemma rounds_step pause w w' : 0 < pause → monotonic h w < deadline → monotonic h w + pause <= monotonic h w' →
  (rounds h deadline pause w' < rounds h deadline pause w)%nat.
Proof.
  intros Hp Hd Hw. unfold rounds. assert ((deadline - monotonic h w') / pause < (deadline - monotonic h w) / pause) as Hlt.
  { apply Z.lt_le_trans with ((deadline - monotonic h w') / pause + 1); [lia|].
    rewrite <- Z.div_add by lia. apply Z.div_le_mono; lia. }
  assert (0 <= (deadline - monotonic h w) / pause) by (apply Z.div_pos; lia). lia.
Qed.

Lemma rounds_pos pause w : 0 < pause → monotonic h w < deadline → (0 < rounds h deadline pause w)%nat.
Proof. intros Hp Hd. unfold rounds. assert (0 <= (deadline - monotonic h w) / pause) by (apply Z.div_pos; lia). lia. Qed.

(** With at least the rounds the clock allows, the bound never shows. *)
Lemma wait_loop_enough want fuel : ∀ fuel' w, (rounds h deadline wait_pause w <= fuel)%nat → (fuel <= fuel')%nat →
  wait_loop h args deadline fuel' want w = wait_loop h args deadline fuel want w.
Proof.
  induction fuel as [|fuel IH]; intros fuel' w Hr Hf.
  - destruct fuel' as [|fuel']; [done|]. cbn [wait_loop]. destruct (Z.ltb_spec (monotonic h w) deadline); [|done].
    pose proof (rounds_pos wait_pause w ltac:(done) ltac:(done)). lia.
  - destruct fuel' as [|fuel']; [lia|]. cbn [wait_loop]. destruct (Z.ltb_spec (monotonic h w) deadline) as [Hd|]; [|done].
    pose proof (sleeping_clock w) as Hc. destruct (sleeping h args deadline w) as [[b|e] w'] eqn:E; [|done].
    destruct (Bool.eqb b want); [done|]. apply IH; [|lia]. simpl in Hc.
    pose proof (sleep_clock wait_pause w' ltac:(done)).
    pose proof (rounds_step wait_pause w (sleep h wait_pause w') ltac:(done) Hd ltac:(lia)). lia.
Qed.

Lemma health_loop_enough fuel : ∀ fuel' w, (rounds h deadline health_pause w <= fuel)%nat → (fuel <= fuel')%nat →
  health_loop h args deadline fuel' w = health_loop h args deadline fuel w.
Proof.
  induction fuel as [|fuel IH]; intros fuel' w Hr Hf.
  - destruct fuel' as [|fuel']; [done|]. cbn [health_loop]. destruct (Z.ltb_spec (monotonic h w) deadline); [|done].
    pose proof (rounds_pos health_pause w ltac:(done) ltac:(done)). lia.
  - destruct fuel' as [|fuel']; [lia|]. cbn [health_loop]. destruct (Z.ltb_spec (monotonic h w) deadline) as [Hd|]; [|done].
    pose proof (request_clock GET (health_path args) None w) as Hc.
    destruct (request h args deadline GET (health_path args) None w) as [[v|e] w'] eqn:E; [done|]. apply IH; [|lia]. simpl in Hc.
    pose proof (sleep_clock health_pause w' ltac:(done)).
    pose proof (rounds_step health_pause w (sleep h health_pause w') ltac:(done) Hd ltac:(lia)). lia.
Qed.
End polling.

(** Polling ends: on a host whose clock does not run backwards and whose pauses last,
    both loops reach their result within the rounds the deadline leaves, so no larger
    bound on the recursion ever changes what [wait_state] and [health] return. *)
Theorem polling_terminates {W} (h : host W) args deadline : HostClock h → ∀ want w k,
  wait_loop h args deadline (rounds h deadline wait_pause w + k) want w = wait_state h args deadline want w
  ∧ health_loop h args deadline (rounds h deadline health_pause w + k) w = health h args deadline w.
Proof. intros Hh want w k. split; [apply wait_loop_enough|apply health_loop_enough]; lia || done. Qed.

Section liveness.
Context {W : Type} (h : host W) `{!HostClock h} (args : Args) (deadline converged slack : Z) (want : bool).
(** Probes answer; from [converged] on they answer [want]; a round takes at most [slack]. *)
Hypothesis Hprobe : ∀ w, ∃ b w', sleeping h args deadline w = (Ok b, w')
  ∧ (converged <= monotonic h w → b = want) ∧ monotonic h (sleep h wait_pause w') <= monotonic h w + slack.
Hypothesis Hslack : converged + slack <= deadline.

Lemma wait_loop_live fuel : ∀ w, (rounds h deadline wait_pause w <= fuel)%nat → monotonic h w < deadline →
  ∃ w', wait_loop h args deadline fuel want w = (Ok tt, w').
Proof.
  induction fuel as [|fuel IH]; intros w Hr Hd.
  { pose proof (rounds_pos h deadline wait_pause w ltac:(done) Hd). lia. }
  cbn [wait_loop]. rewrite (proj2 (Z.ltb_lt _ _) Hd). destruct (Hprobe w) as (b & w' & E & Hb & Hs).
  pose proof (sleeping_clock h args deadline w) as Hc. rewrite E in *. simpl in Hc.
  destruct (Bool.eqb b want) eqn:Eb; [by eexists|].
  pose proof (sleep_clock wait_pause w' ltac:(done)) as Hp.
  destruct (Z.le_gt_cases converged (monotonic h w)) as [Hcv|Hcv]; [rewrite Hb, Bool.eqb_reflx in Eb by done; done|].
  apply IH; [|lia]. pose proof (rounds_step h deadline wait_pause w (sleep h wait_pause w') ltac:(done) Hd ltac:(lia)). lia.
Qed.
End liveness.

(** C28. A backend that converges in time is seen to: if every probe answers, if from some
    moment on it answers the wanted state, and if a round never takes longer than the
    time between that moment and the deadline, [wait_state] returns without error. *)
Theorem wait_state_live {W} (h : host W) args deadline converged slack want w : HostClock h →
  (∀ w, ∃ b w', sleeping h args deadline w = (Ok b, w')
    ∧ (converged <= monotonic h w → b = want) ∧ monotonic h (sleep h wait_pause w') <= monotonic h w + slack) →
  converged + slack <= deadline → monotonic h w < deadline →
  ∃ w', wait_state h args deadline want w = (Ok tt, w').
Proof. intros Hh Hp Hs Hd. by apply (wait_loop_live h args deadline converged slack want Hp Hs). Qed.

(** ** What a backend is asked *)

Record call := Call { c_method : list N; c_url : list N; c_body : option json; c_reply : res (list N) }.

(** The same host, keeping the calls made to it. *)
Definition logged {W} (h : host W) : host (W * list call) := Host (W * list call)
  (λ me url body t s, let '(r, w') := urlopen h me url body t s.1 in (r, (w', s.2 ++ [Call me url body r])))
  (λ s, monotonic h s.1) (λ d s, (sleep h d s.1, s.2)) (λ s, state_files h s.1) (λ s, provider_files h s.1).

Section traces.
Context {W : Type} (h : host W) (args : Args) (py_str : json → list N) (deadline : Z).

Definition is_sleep (c : call) : Prop := c_method c = POST ∧ c_url c = base args ++ sleep_path args.

(** The backend answered the validation prompt as expected. *)
Definition accepts (c : call) : Prop := c_method c = POST ∧ c_url c = base args ++ chat_path
  ∧ ∃ raw v, c_reply c = Ok raw ∧ decode_reply raw = Ok v ∧ completion py_str v = Ok (expected args).

Definition grows {A} (P : call → Prop) (m : ST (W * list call) A) : Prop :=
  ∀ s, ∃ tr, (m s).2.2 = s.2 ++ tr ∧ Forall P tr.
Notation quiet := (grows (λ c, ¬ is_sleep c)).

(** Nothing is suspended before an accepted answer. *)
Definition guarded {A} (m : ST (W * list call) A) : Prop :=
  ∀ s, ∃ a b, (m s).2.2 = s.2 ++ a ++ b ∧ Forall (λ c, ¬ is_sleep c) a ∧ (Exists accepts a ∨ b = []).

Lemma grows_ret {A} P (r : res A) : grows P (lift r).
Proof. intros s. exists []. split; [by rewrite app_nil_r|constructor]. Qed.

Lemma grows_bind {A B} P (m : ST _ A) (k : A → ST _ B) : grows P m → (∀ a, grows P (k a)) → grows P (m ≫= k).
Proof.
  intros Hm Hk s. destruct (Hm s) as (tr & E & HF). unfold mbind, st_bind. destruct (m s) as [[a|e] s']; simpl in *; [|by exists tr].
  destruct (Hk a s') as (tr' & E' & HF'). exists (tr ++ tr'). rewrite E', E, <- app_assoc. split; [done|]. by apply Forall_app.
Qed.

Lemma grows_weaken {A} (P Q : call → Prop) (m : ST _ A) : (∀ c, P c → Q c) → grows P m → grows Q m.
Proof. intros H Hm s. destruct (Hm s) as (tr & E & HF). exists tr. split; [done|]. eapply Forall_impl; eauto. Qed.

Lemma request_trace me path payload s : ∃ r, let c := Call me (base args ++ path) payload r in
  (request (logged h) args deadline me path payload s).2.2 = s.2 ++ [c]
  ∧ (request (logged h) args deadline me path payload s).1 = (raw ← r; decode_reply raw).
Proof.
  unfold request, mbind, st_bind, logged, lift. cbn [urlopen monotonic].
  destruct (urlopen h me _ payload _ s.1) as [r w'] eqn:E. exists r. by destruct r.
Qed.

Lemma request_grows (P : call → Prop) me path payload : (∀ r, P (Call me (base args ++ path) payload r)) →
  grows P (request (logged h) args deadline me path payload).
Proof. intros HP s. destruct (request_trace me path payload s) as (r & E & _). eexists. split; [exact E|]. by repeat constructor. Qed.

Lemma sleeping_quiet : quiet (sleeping (logged h) args deadline).
Proof.
  unfold sleeping. destruct (engine args).
  - apply grows_bind; [|intros; apply grows_ret]. apply request_grows. by intros r [? _].
  - intros s. apply (grows_ret _ (texts ← state_files h s.1; sglang_sleeping texts) s).
Qed.

Lemma wait_quiet want : quiet (wait_state (logged h) args deadline want).
Proof.
  intros s. unfold wait_state. generalize (rounds (logged h) deadline wait_pause s). intros fuel. revert s.
  induction fuel as [|fuel IH]; intros s; cbn [wait_loop]; [by apply grows_ret|].
  destruct (_ <? _); [|by apply grows_ret]. destruct (sleeping_quiet s) as (tr & E & HF).
  destruct (sleeping (logged h) args deadline s) as [[b|e] s']; simpl in E; [|by exists tr].
  destruct (Bool.eqb b want); [by exists tr|]. destruct (IH (sleep (logged h) wait_pause s')) as (tr' & E' & HF').
  exists (tr ++ tr'). rewrite E'. simpl. rewrite E, <- app_assoc. split; [done|]. by apply Forall_app.
Qed.

Lemma health_quiet : quiet (health (logged h) args deadline).
Proof.
  intros s. unfold health. generalize (rounds (logged h) deadline health_pause s). intros fuel. revert s.
  induction fuel as [|fuel IH]; intros s; cbn [health_loop]; [by apply grows_ret|].
  destruct (_ <? _); [|by apply grows_ret]. destruct (request_grows (λ c, ¬ is_sleep c) GET (health_path args) None ltac:(by intros r [? _]) s) as (tr & E & HF).
  destruct (request (logged h) args deadline GET (health_path args) None s) as [[b|e] s']; simpl in E; [by exists tr|].
  destruct (IH (sleep (logged h) health_pause s')) as (tr' & E' & HF').
  exists (tr ++ tr'). rewrite E'. simpl. rewrite E, <- app_assoc. split; [done|]. by apply Forall_app.
Qed.
Lemma other_path path : path ≠ sleep_path args → ∀ me payload r, ¬ is_sleep (Call me (base args ++ path) payload r).
Proof. intros Hp me payload r [_ E]. cbn [c_url] in E. by apply app_inv_head in E. Qed.

Lemma chat_not_sleep : chat_path ≠ sleep_path args.
Proof. unfold chat_path, sleep_path. by destruct (engine args). Qed.

Lemma wake_quiet : quiet (request_wake (logged h) args deadline).
Proof.
  unfold request_wake. destruct (engine args) eqn:Ee.
  - apply grows_bind; [|intros; apply (grows_ret _ (Ok tt))]. apply request_grows, other_path. unfold sleep_path. by rewrite Ee.
  - apply grows_bind; [apply request_grows, other_path; unfold sleep_path; by rewrite Ee|]. intros _.
    apply grows_bind; [intros s; apply (grows_ret _ (provider_files h s.1) s)|]. intros texts.
    destruct (remove_dups _) as [|p [|]]; try apply grows_ret. case_bool_decide; [|apply grows_ret].
    apply grows_bind; [|intros; apply (grows_ret _ (Ok tt))]. apply request_grows, other_path. unfold sleep_path. by rewrite Ee.
Qed.

(** An inference that returns was answered as expected. *)
Lemma infer_trace s : ∃ c, (infer (logged h) args py_str deadline s).2.2 = s.2 ++ [c] ∧ ¬ is_sleep c
  ∧ (is_ok (infer (logged h) args py_str deadline s).1 = true → accepts c).
Proof.
  unfold infer. set (body := Some _). unfold mbind, st_bind, lift, st_raise_if.
  destruct (request_trace POST chat_path body s) as (r & E & Er).
  destruct (request (logged h) args deadline POST chat_path body s) as [[v|e] s'] eqn:Eq; cbn [fst snd] in *.
  2: { eexists. split_and!; [exact E|apply other_path, chat_not_sleep|done]. }
  exists (Call POST (base args ++ chat_path) body r). rewrite <- E. symmetry in Er. apply bind_Ok in Er as (raw & -> & Ed).
  split_and!; [|apply other_path, chat_not_sleep|].
  - destruct (completion py_str v); [|done]. by case_bool_decide.
  - destruct (completion py_str v) as [t|] eqn:Ec; [|done]. case_bool_decide; [|done]. intros _. subst t.
    split_and!; [done..|]. by exists raw, v.
Qed.

Lemma infer_quiet : quiet (infer (logged h) args py_str deadline).
Proof. intros s. destruct (infer_trace s) as (c & E & Hc & _). exists [c]. split; [done|]. by repeat constructor. Qed.

Lemma quiet_guarded {A} (m : ST _ A) : quiet m → guarded m.
Proof. intros Hm s. destruct (Hm s) as (tr & E & HF). exists tr, []. rewrite app_nil_r. auto. Qed.

Lemma guarded_after {A B} (m : ST _ A) (k : A → ST _ B) : quiet m → (∀ a, guarded (k a)) → guarded (m ≫= k).
Proof.
  intros Hm Hk s. destruct (Hm s) as (tr & E & HF). unfold mbind, st_bind. destruct (m s) as [[x|e] s']; simpl in *.
  - destruct (Hk x s') as (a & b & E' & Ha & Hb). exists (tr ++ a), b. rewrite E', E, <- !app_assoc. split_and!; [done|by apply Forall_app|].
    destruct Hb; [left|by right]. apply Exists_app. by right.
  - exists tr, []. rewrite app_nil_r. auto.
Qed.

Lemma guarded_then {A B} (m : ST _ A) (k : A → ST _ B) : guarded m → (∀ a, quiet (k a)) → guarded (m ≫= k).
Proof.
  intros Hm Hk s. destruct (Hm s) as (a & b & E & Ha & Hb). unfold mbind, st_bind. destruct (m s) as [[x|e] s']; simpl in *; [|by exists a, b].
  destruct (Hk x s') as (tr & E' & HF). destruct Hb as [Hb| ->].
  - exists a, (b ++ tr). rewrite E', E, <- !app_assoc. auto.
  - exists (a ++ tr), []. rewrite E', E, !app_nil_r, <- app_assoc. split_and!; [done|by apply Forall_app|auto].
Qed.

Lemma infer_guarded {A} (k : bool → ST (W * list call) A) : (∀ b, grows (λ _, True) (k b)) →
  guarded (infer (logged h) args py_str deadline ≫= k).
Proof.
  intros Hk s. destruct (infer_trace s) as (c & E & Hc & Hok). unfold mbind, st_bind.
  destruct (infer (logged h) args py_str deadline s) as [[x|e] s']; simpl in *.
  - destruct (Hk x s') as (tr & E' & _). exists [c], tr. rewrite E', E, <- app_assoc. split_and!; [done|by repeat constructor|].
    left. constructor. auto.
  - exists [c], []. split_and!; [done|by repeat constructor|auto].
Qed.

Lemma control_guarded started : guarded (control_steps (logged h) args py_str deadline started).
Proof.
  unfold control_steps. apply guarded_after; [apply sleeping_quiet|]. intros before.
  apply guarded_then; [|intros ok; apply grows_bind; [apply sleeping_quiet|]; intros final s; exists []; by rewrite app_nil_r].
  destruct (action args).
  - destruct before; [apply quiet_guarded, (grows_ret _ (Ok false))|]. apply guarded_after; [apply health_quiet|]. intros _.
    apply infer_guarded. intros ok. apply grows_bind; [|intros _; apply grows_bind; [|intros _; apply (grows_ret _ (Ok ok))]].
    + unfold request_sleep. destruct (engine args); by apply request_grows.
    + eapply grows_weaken; [|apply wait_quiet]. done.
  - apply quiet_guarded. apply grows_bind.
    + destruct before; [|apply (grows_ret _ (Ok tt))]. apply grows_bind; [apply wake_quiet|]. intros _. apply wait_quiet.
    + intros _. apply grows_bind; [apply health_quiet|]. intros _. apply infer_quiet.
  - apply quiet_guarded, (grows_ret _ (Ok false)).
Qed.
End traces.

(** C27. Nothing is suspended unvalidated: whatever the backend answers, in every trace of
    [control] the request that puts the engine to sleep comes after a chat completion
    whose answer, decoded and stripped, was the expected text. *)
Theorem sleep_after_inference {W} (h : host W) py_str args lock_free w r w' tr :
  control (logged h) py_str args lock_free (w, []) = (r, (w', tr)) →
  ∀ tr1 c tr2, tr = tr1 ++ c :: tr2 → is_sleep args c → ∃ c', c' ∈ tr1 ∧ accepts args py_str c'.
Proof.
  unfold control. destruct lock_free; [|intros [= <- <- <-] tr1 c tr2 E; by destruct tr1].
  intros E tr1 c tr2 -> Hc.
  destruct (control_guarded h args py_str (monotonic (logged h) (w, []) + timeout args) (monotonic (logged h) (w, [])) (w, []))
    as (a & b & Etr & Ha & Hb). rewrite E in Etr. cbn [snd app] in Etr. destruct Hb as [Hb| ->].
  - assert (∃ k, tr1 = a ++ k) as [k ->].
    { clear -Etr Ha Hc. revert tr1 Etr. induction a as [|x a IH]; intros tr1 Etr; [by exists tr1|].
      apply Forall_cons in Ha as [Hx Ha]. destruct tr1 as [|y tr1]; simpl in Etr.
      { injection Etr as -> _. by destruct (Hx Hc). }
      injection Etr as -> Etr. destruct (IH Ha tr1 Etr) as [k ->]. by exists k. }
    apply Exists_exists in Hb as (c' & Hin & Hacc). exists c'. split; [|done]. apply elem_of_app. by left.
  - rewrite app_nil_r in Etr. rewrite <- Etr in Ha. apply Forall_app in Ha as [_ Ha]. by apply Forall_inv in Ha.
Qed.

(** ** Evidence *)

Lemma dict_get_set k k' v d : dict_get k (dict_set k' v d) = if decide (k = k') then Some v else dict_get k d.
Proof.
  induction d as [|[k0 v0] d IH]; simpl; [by repeat case_decide|].
  repeat case_decide; subst; simpl; repeat case_decide; subst; try done; rewrite IH; by case_decide.
Qed.

(** How a file of evidence is rewritten: only the four fields change. *)
Definition rewritten (state capture : list N) (now : list N → json) (f f' : evidence_file) : Prop :=
  ev_stem f' = ev_stem f ∧ ev_stat f' = ev_stat f
  ∧ ∃ d d', loads (ev_text f) = Some (JObj d) ∧ ev_text f' = evidence_text d'
    ∧ dict_get (lit "worker_id") d' = Some (JStr (ev_stem f)) ∧ dict_get (lit "state") d' = Some (JStr state)
    ∧ dict_get (lit "capture_id") d' = Some (JStr capture) ∧ dict_get (lit "operation") d' = Some (JStr (lit "restore"))
    ∧ dict_get (lit "updated_unix") d' = Some (now (ev_stem f))
    ∧ ∀ k, k ∉ [lit "state"; lit "capture_id"; lit "updated_unix"; lit "operation"] → dict_get k d' = dict_get k d.

Lemma updated_get state capture now d : let d' := updated_evidence state capture now d in
  dict_get (lit "state") d' = Some (JStr state) ∧ dict_get (lit "capture_id") d' = Some (JStr capture)
  ∧ dict_get (lit "operation") d' = Some (JStr (lit "restore")) ∧ dict_get (lit "updated_unix") d' = Some now
  ∧ ∀ k, k ∉ [lit "state"; lit "capture_id"; lit "updated_unix"; lit "operation"] → dict_get k d' = dict_get k d.
Proof.
  unfold updated_evidence, merge_dict. cbn [foldl fst snd]. split_and!; try (rewrite !dict_get_set; reflexivity).
  intros k Hk. rewrite !dict_get_set, !not_elem_of_cons in *. destruct Hk as (? & ? & ? & ? & _). by rewrite !decide_False.
Qed.

Lemma synchronize_item_Ok workers seen state capture now f worker f' :
  synchronize_item workers seen state capture now f = Ok (worker, f') →
  worker = ev_stem f ∧ worker ∈ workers ∧ worker ∉ seen ∧ rewritten state capture now f f'.
Proof.
  unfold synchronize_item. intros E. apply bind_Ok in E as (value & Hv & E). apply bind_Ok in E as (wid & Hw & E).
  apply bind_Ok in E as (known & Hk & E). apply bind_Ok in E as (s & Hs & E). apply bind_Ok in E as ([] & _ & E).
  apply bind_Ok in E as (d & Hd & E). res_inv. simplify_eq. destruct value as [| | | | | |d0]; try done. res_inv.
  destruct known as [s0|]; [|done]. res_inv. guards.
  unfold read_evidence in Hv. res_inv. cbn [getattr_get] in Hw. res_inv.
  destruct (dict_get (lit "worker_id") d) as [[| | | |w| |]|] eqn:Ew; simpl in Hk; res_inv; simplify_eq; try done.
  case_bool_decide; simplify_eq. split_and!; try done. unfold rewritten. cbn [ev_stem ev_stat ev_text].
  destruct (updated_get state capture (now (ev_stem f)) d) as (? & ? & ? & ? & Hother). split_and!; try done.
  eexists d, _. split_and!; try done. rewrite Hother; [done|]. rewrite !not_elem_of_cons. split_and!; try discriminate. apply not_elem_of_nil.
Qed.

Lemma synchronize_loop_spec workers state capture now files : ∀ seen r files', NoDup seen →
  synchronize_loop workers seen state capture now files = (r, files') → ∃ updates rest,
  files = updates.*1 ++ rest ∧ files' = updates.*2 ++ rest ∧ Forall (λ u, rewritten state capture now u.1 u.2) updates
  ∧ ∀ all, r = Ok all → rest = [] ∧ all ≡ₚ (ev_stem <$> files) ++ seen ∧ NoDup all.
Proof.
  induction files as [|f files IH]; intros seen r files' Hn E; cbn [synchronize_loop] in E.
  { simplify_eq. exists [], []. split_and!; [done|done|constructor|]. intros all [= <-]. by split_and!. }
  destruct (synchronize_item workers seen state capture now f) as [[worker f']|e] eqn:Ef.
  - apply synchronize_item_Ok in Ef as (-> & _ & Hnew & Hrw).
    destruct (synchronize_loop workers (ev_stem f :: seen) state capture now files) as [r0 rest'] eqn:El. simplify_eq.
    apply IH in El as (updates & rest & -> & -> & HF & Hok); [|by constructor].
    exists ((f, f') :: updates), rest. split_and!; try done; [by constructor|]. intros all Hall.
    destruct (Hok all Hall) as (-> & Hp & Hnd). split_and!; try done. rewrite Hp. csimpl. by rewrite Permutation_middle.
  - simplify_eq. exists [], (f :: files). by split_and!.
Qed.

(** Synchronising the evidence is exact: whatever happens, each file is either
    untouched or rewritten with only its state, capture, time and operation changed; and
    when it succeeds all of them are rewritten and their names are exactly the expected
    workers, each once. *)
Theorem synchronize_evidence_spec state capture workers_text now files r files' :
  synchronize_evidence state capture workers_text now files = (r, files') → ∃ updates rest,
  files ≡ₚ updates.*1 ++ rest ∧ files' ≡ₚ updates.*2 ++ rest ∧ Forall (λ u, rewritten state capture now u.1 u.2) updates
  ∧ (r = Ok tt → rest = [] ∧ ∃ workers, expected_workers workers_text = Ok workers ∧ ev_stem <$> files ≡ₚ workers).
Proof.
  unfold synchronize_evidence. destruct (expected_workers workers_text) as [workers|e] eqn:Ew.
  2: { intros [= <- <-]. exists [], files. split_and!; done || constructor. }
  destruct (synchronize_loop workers [] state capture now (py_sorted file_leb files)) as [r0 files0] eqn:El. intros E. simplify_eq.
  apply synchronize_loop_spec in El as (updates & rest & Hf & -> & HF & Hok); [|constructor].
  pose proof (py_sorted_perm file_leb files) as Hperm. exists updates, rest. split_and!; try done; [by rewrite <- Hf, Hperm|].
  intros Hr. apply bind_Ok in Hr as (all & -> & Hset). apply raise_if_Ok, negb_false_iff in Hset. rewrite set_eqb_spec in Hset.
  destruct (Hok all eq_refl) as (-> & Hp & Hnd). split; [done|]. exists workers. split; [done|].
  rewrite app_nil_r, Hperm in Hp. rewrite <- Hp. unfold expected_workers in Ew. res_inv. apply NoDup_Permutation; try done.
  by apply has_dups_false.
Qed.

(** ** A backend that falls asleep a fifth of a second after its start *)

Definition toy_reply (url : list N) (clock : Z) : list N :=
  if ends_with (lit "/is_sleeping") url then
    (if 200000000 <=? clock then jtext "{'is_sleeping':true}" else jtext "{'is_sleeping':false}")
  else if ends_with chat_path url then jtext "{'choices':[{'message':{'content':' ok '}}]}"
  else [].

Definition toy_host : host Z := Host Z
  (λ _ url _ _ clock, (Ok (toy_reply url clock), clock + 1000)) (λ clock, clock) (λ d clock, clock + d)
  (λ _, Ok []) (λ _, Ok []).

#[global] Instance toy_clock : HostClock toy_host.
Proof. split; intros; simpl; lia. Qed.

Definition toy_args : Args :=
  MkArgs vllm Sleep 8000 (lit "m") (lit "/health") (lit "say ok") (lit "ok") (lit "auto") 2000000000.

Lemma toy_sleeping deadline w : sleeping toy_host toy_args deadline w = (Ok (200000000 <=? w), w + 1000).
Proof.
  unfold sleeping, request, mbind, st_bind, lift. cbn [engine toy_args urlopen toy_host]. unfold toy_reply.
  assert (ends_with (lit "/is_sleeping") (base toy_args ++ lit "/is_sleeping") = true) as -> by by vm_compute.
  destruct (200000000 <=? w).
  - assert (decode_reply (jtext "{'is_sleeping':true}") = Ok (JObj [(lit "is_sleeping", JBool true)])) as -> by by vm_compute.
    reflexivity.
  - assert (decode_reply (jtext "{'is_sleeping':false}") = Ok (JObj [(lit "is_sleeping", JBool false)])) as -> by by vm_compute.
    reflexivity.
Qed.

Lemma polling_terminates_witness :
  wait_loop toy_host toy_args 2000000000 (rounds toy_host 2000000000 wait_pause 0 + 7) true 0
  = wait_state toy_host toy_args 2000000000 true 0
  ∧ health_loop toy_host toy_args 2000000000 (rounds toy_host 2000000000 health_pause 0 + 7) 0
    = health toy_host toy_args 2000000000 0.
Proof. exact (polling_terminates toy_host toy_args 2000000000 toy_clock true 0 7). Defined.

Lemma wait_state_live_witness : ∃ w', wait_state toy_host toy_args 2000000000 true 0 = (Ok tt, w').
Proof.
  apply (wait_state_live toy_host toy_args 2000000000 200000000 200000000 true 0 toy_clock).
  - intros w. exists (200000000 <=? w), (w + 1000). split; [apply toy_sleeping|]. split.
    + intros H. by apply Z.leb_le.
    + cbn. unfold wait_pause. lia.
  - lia.
  - cbn. lia.
Defined.

(** Its trace when it is put to sleep. *)
Definition toy_run := control (logged toy_host) (λ _, []) toy_args true (0, []).
Definition toy_trace : list call := Eval vm_compute in toy_run.2.2.

Lemma sleep_after_inference_witness : ∃ c', c' ∈ take 3 toy_trace ∧ accepts toy_args (λ _, []) c'.
Proof.
  apply (sleep_after_inference toy_host (λ _, []) toy_args true 0 toy_run.1 toy_run.2.1 toy_trace) with
    (c := Call POST (base toy_args ++ sleep_path toy_args) None (Ok [])) (tr2 := drop 4 toy_trace).
  - unfold toy_run. by vm_compute.
  - by vm_compute.
  - done.
Defined.

Definition toy_evidence (stem : string) (text : string) : evidence_file :=
  EvFile (lit stem) (Stat 1 1 40 0 0 0 0 0x8180) (jtext text).
Definition toy_files : list evidence_file :=
  [toy_evidence "w1" "{'worker_id':'w1','state':'sleeping','pid':7}"; toy_evidence "w0" "{'worker_id':'w0','capture_id':'old'}"].
Definition toy_sync := synchronize_evidence (lit "running") (lit "cap") (jtext "['w0','w1']") (λ _, JInt 5) toy_files.

Lemma synchronize_evidence_spec_witness : toy_sync.1 = Ok tt ∧ ∃ updates rest,
  toy_files ≡ₚ updates.*1 ++ rest ∧ toy_sync.2 ≡ₚ updates.*2 ++ rest
  ∧ Forall (λ u, rewritten (lit "running") (lit "cap") (λ _, JInt 5) u.1 u.2) updates
  ∧ (toy_sync.1 = Ok tt → rest = [] ∧ ∃ workers, expected_workers (jtext "['w0','w1']") = Ok workers ∧ ev_stem <$> toy_files ≡ₚ workers).
Proof.
  split; [by vm_compute|].
  apply (synchronize_evidence_spec (lit "running") (lit "cap") (jtext "['w0','w1']") (λ _, JInt 5) toy_files toy_sync.1 toy_sync.2).
  unfold toy_sync. by destruct (synchronize_evidence _ _ _ _ _).
Defined.
