(* ===== verification/PyPath.v ===== *)
(** * Paths of Python's [pathlib] and [os.path]

    [PurePosixPath] and [normpath], as the startup plans, the capsule and the NCCL runtime
    compare them. *)

From S2P Require Import Prelude PyJson Validation.

(** A [PurePosixPath]: its root, [/] or [//] or none, and its parts. *)
Record purepath := PurePath { root : list N; parts : list (list N) }.

#[global] Instance purepath_eq_dec : EqDecision purepath.
Proof. solve_decision. Defined.

Definition path_root (s : list N) : list N :=
  if starts_with (lit "///") s then lit "/" else if starts_with (lit "//") s then lit "//"
  else if starts_with (lit "/") s then lit "/" else [].

Definition parse_path (s : list N) : purepath :=
  PurePath (path_root s) (filter (λ c, c ≠ [] ∧ c ≠ lit ".") (components [] s)).

(** [str(path)] *)
Definition path_text (p : purepath) : list N :=
  match root p, parts p with [], [] => lit "." | r, l => r ++ join (lit "/") l end.
Definition is_absolute_path (p : purepath) : bool := negb (bool_decide (root p = [])).

Definition child (p : purepath) (name : list N) : purepath := PurePath (root p) (parts p ++ [name]).

(** [p.relative_to(q)], as the parts that remain. *)
Fixpoint strip_parts (q p : list (list N)) : option (list (list N)) :=
  match q, p with
  | [], _ => Some p
  | x :: q', y :: p' => if decide (x = y) then strip_parts q' p' else None
  | _ :: _, [] => None
  end.
Definition relative_to (p q : purepath) : option (list (list N)) :=
  if decide (root p = root q) then strip_parts (parts q) (parts p) else None.

(** [p / s] *)
Definition path_join (p : purepath) (s : list N) : purepath :=
  let q := parse_path s in if is_absolute_path q then q else PurePath (root p) (parts p ++ parts q).

(** [Path(os.path.normpath(s))]: the loop of [normpath] over the parts. *)
Definition norm_step (rooted : bool) (done : list (list N)) (part : list N) : list (list N) :=
  if bool_decide (part ≠ lit "..") || (negb rooted && bool_decide (done = [])) || bool_decide (last done = Some (lit "..")) then done ++ [part]
  else take (length done - 1) done.
Definition norm_path (s : list N) : purepath :=
  let p := parse_path s in PurePath (root p) (foldl (norm_step (is_absolute_path p)) [] (parts p)).
