(* ===== verification/StartupPlan.v ===== *)
(** * Startup plans ([coldsnap_startup_plan.py])

    The policy around vLLM's startup plans: which saved plan may be applied when free
    memory has drifted, the agreement of all ranks before one skips profiling, the alias
    under which a plan is saved, the compiler-cache marker and the compiler identity.
    vLLM's own functions are parameters; plan files are a map from paths to payloads. *)

From stdpp Require Import gmap.
From S2P Require Import Prelude PyFloat PyJson Hash Validation PyPath.

Definition environment : Type := list N → option (list N).

(** ** Compiler defaults *)

(** [os.environ] as a map, and vLLM's registered variables, which read it when called. *)
Notation variables := (gmap (list N) (list N)) (only parsing).
Definition registry : Type := list N → option (variables → bool).

Definition AOT := lit "VLLM_USE_AOT_COMPILE".
Definition STANDALONE := lit "VLLM_USE_STANDALONE_COMPILE".
Definition MEGA := lit "VLLM_USE_MEGA_AOT_ARTIFACT".
Definition compile_defaults : list (list N * list N) :=
  [(STANDALONE, lit "2.9.0"); (AOT, lit "2.10.0"); (MEGA, lit "2.12.0.dev")].

Definition enabled_in (registered : registry) (env : variables) (name : list N) : bool :=
  match registered name with Some f => f env | None => false end.

(** One turn of the loop of [install_aot_compilation_defaults]. *)
Definition apply_default (registered : registry) (torch_at_least : list N → bool) (env : variables) (d : list N * list N) : variables :=
  let '(name, minimum_torch) := d in
  if bool_decide (registered name = None :> option _) then env
  else if bool_decide (is_Some (env !! name)) then env
  else if negb (torch_at_least minimum_torch) then env
  else if bool_decide (name = MEGA) && negb (forallb (enabled_in registered env) [AOT; STANDALONE]) then env
  else <[name := lit "1"]> env.

(** [install_aot_compilation_defaults]; [vllm] is whether vLLM could be imported. *)
Definition install_aot_compilation_defaults (vllm : bool) (registered : registry) (torch_at_least : list N → bool) (env : variables)
    : variables :=
  if negb vllm || enabled_in registered env (lit "VLLM_DISABLE_COMPILE_CACHE") then env
  else foldl (apply_default registered torch_at_least) env compile_defaults.

(** ** Agreement of the ranks *)

(** [_all_workers_admit_startup_plan]: [initialized] is whether the process group is, and
    [all_reduce] the minimum over its members. *)
Definition all_workers_admit (world_size : Z) (initialized : bool) (all_reduce : Z → Z) (locally_admitted : bool) : res bool :=
  if world_size <=? 1 then mret locally_admitted
  else
    _ ← raise_if (negb initialized) RuntimeError "cannot coordinate startup-plan admission before the distributed process group is initialized";
    mret (negb (all_reduce (bool_int locally_admitted) =? 0)).

(** ** The compiler-cache marker *)

Definition DEFAULT_VLLM_CACHE_ROOT := lit "/var/cache/coldsnap/runtime/vllm".
Definition VLLM_CACHE_ROOT_ENV := lit "VLLM_CACHE_ROOT".
Definition COMPILE_CACHE_MARKER := lit "coldsnap-compile-cache.json".
Definition MARKER_KIND := lit "coldsnap-vllm-compile-cache".

Definition vllm_cache_root (environ : environment) : res purepath :=
  let p := parse_path (default DEFAULT_VLLM_CACHE_ROOT (environ VLLM_CACHE_ROOT_ENV)) in
  _ ← raise_if (bool_decide (root p = [])) RuntimeError "VLLM_CACHE_ROOT must be an absolute path";
  mret p.

Definition is_namespace (s : list N) : bool := bool_decide (length s = 10%nat) && forallb is_lower_hex s.

Section marker.
Context (environ : environment) (is_dir : purepath → bool).

Definition compile_cache_directory (namespace : list N) : res purepath :=
  _ ← raise_if (negb (is_namespace namespace)) RuntimeError "compiler-cache marker has an invalid namespace";
  r ← vllm_cache_root environ;
  let directory := child (child r (lit "torch_compile_cache")) namespace in
  _ ← raise_if (negb (is_dir directory)) RuntimeError "compiler-cache marker references an unavailable directory";
  mret directory.

(** [_read_compile_cache_marker]; [marker] is the text of the marker, if it exists. *)
Definition read_compile_cache_marker (marker : option (list N)) : res (option purepath) :=
  _ ← vllm_cache_root environ;
  match marker with
  | None => mret None
  | Some text =>
      payload ← of_option RuntimeError "compiler-cache marker is unreadable" (loads text);
      namespace ← match payload, jget "namespace" payload with
                  | JObj _, Some (JStr s) =>
                      _ ← raise_if (negb (py_eq (default JNull (jget "schema" payload)) (JInt 1))
                                    || negb (py_eq (default JNull (jget "kind" payload)) (JStr MARKER_KIND)))
                          RuntimeError "compiler-cache marker is invalid";
                      mret s
                  | _, _ => Raise (Exn RuntimeError "compiler-cache marker is invalid")
                  end;
      Some <$> compile_cache_directory namespace
  end.

Definition marker_payload (namespace : list N) : json := JObj [
  (lit "schema", JInt 1); (lit "kind", JStr MARKER_KIND); (lit "namespace", JStr namespace)].

(** [_write_compile_cache_marker]: the marker afterwards. *)
Definition write_compile_cache_marker (cache_dir : json) : res (option (list N)) :=
  match cache_dir with
  | JNull | JStr [] => _ ← vllm_cache_root environ; mret None
  | JStr s =>
      r ← vllm_cache_root environ;
      rest ← of_option RuntimeError "compiler-cache directory is outside the ColdSnap cache root"
        (relative_to (parse_path s) (child r (lit "torch_compile_cache")));
      match rest with
      | [name] =>
          _ ← compile_cache_directory name;
          mret (Some (dumps default_style (marker_payload name) ++ [10%N]))
      | _ => Raise (Exn RuntimeError "compiler-cache directory has an invalid shape")
      end
  | _ => Raise (Exn RuntimeError "vLLM did not expose its compiler-cache directory")
  end.
End marker.

(** ** Memory admission *)

(** [isinstance(v, int)], which a [bool] is too. *)
Definition as_int (v : json) : option Z :=
  match v with JInt z => Some z | JBool b => Some (bool_int b) | _ => None end.

Definition plan_get (k : string) (plan : list (list N * json)) : json := default JNull (dict_get (lit k) plan).

Definition adjusted_plan_bytes (plan : list (list N * json)) (current_free_memory : json) (maximum_shortfall : Z) : option Z :=
  match as_int (plan_get "kv_cache_memory_bytes" plan), as_int (plan_get "free_memory_baseline" plan), as_int current_free_memory with
  | Some kv_bytes, Some baseline, Some free =>
      if (kv_bytes <=? 0) || (maximum_shortfall <=? 0) then None else
      let shortfall := baseline - free in
      if (shortfall <=? 0) || (maximum_shortfall <? shortfall) || (kv_bytes <=? shortfall) then None
      else Some (kv_bytes - shortfall)
  | _, _, _ => None
  end.

Definition MAX_SHORTFALL_ENV := lit "COLDSNAP_STARTUP_PLAN_MAX_SHORTFALL_BYTES".
Definition REQUIRED_FREE_MEMORY_ENV := lit "COLDSNAP_REQUIRED_FREE_MEMORY_BYTES".
Definition FREE_MEMORY_RESERVE_ENV := lit "COLDSNAP_FREE_MEMORY_RESERVE_BYTES".

Definition maximum_shortfall_bytes (environ : environment) : res Z :=
  value ← of_option RuntimeError "must be an integer" (py_int (default (lit "0") (environ MAX_SHORTFALL_ENV)));
  _ ← raise_if (value <? 0) RuntimeError "must not be negative";
  mret value.

(** The replacement of vLLM's [_applicable_kv_cache_memory_bytes], around [original]. *)
Definition applicable_kv_cache_memory_bytes (environ : environment) (original : list (list N * json) → json → res (option Z))
    (plan : list (list N * json)) (current_free_memory : json) : res (option Z) :=
  maximum_shortfall ← maximum_shortfall_bytes environ;
  match adjusted_plan_bytes plan current_free_memory maximum_shortfall with
  | None => original plan current_free_memory
  | Some adjusted => mret (Some adjusted)
  end.

Definition minimum_free_memory (baseline reserve : Z) : res Z :=
  _ ← raise_if ((baseline <=? 0) || (reserve <? 0)) RuntimeError "captured free-memory admission values are invalid";
  mret (baseline + reserve).

Definition validate_free_memory_admission (environ : environment) (current_free : Z) : res unit :=
  match environ REQUIRED_FREE_MEMORY_ENV with
  | None => mret tt
  | Some raw =>
      baseline ← of_option RuntimeError "must be an integer" (py_int raw);
      reserve ← of_option RuntimeError "must be an integer" (py_int (default (lit "0") (environ FREE_MEMORY_RESERVE_ENV)));
      required ← minimum_free_memory baseline reserve;
      raise_if (current_free <? required) RuntimeError "GPU unified-memory admission failed"
  end.

(** [init_device_then_validate]: vLLM's own initialisation first. *)
Definition init_device_then_validate {W A} (environ : environment) (current_free : W → Z) (original : W → res A * W) (w : W) : res A * W :=
  match original w with
  | (Raise e, w') => (Raise e, w')
  | (Ok a, w') => (_ ← validate_free_memory_admission environ (current_free w'); mret a, w')
  end.

Definition gb10_unified_memory_bytes (device_name : list N) (pages page_size : Z) : res Z :=
  _ ← raise_if (negb (contains (lit "gb10") (py_lower device_name))) RuntimeError "NVML did not expose device memory for a non-GB10 accelerator";
  let total := pages * page_size in
  _ ← raise_if ((pages <=? 0) || (page_size <=? 0) || (total <=? 0)) RuntimeError "host physical-memory discovery returned invalid values";
  mret total.

(** [get_device_total_memory]: [None] of [original] is [NVMLError_NotSupported]. *)
Definition get_device_total_memory (original : option (res Z)) (device_name : list N) (pages page_size : Z) : res Z :=
  match original with
  | Some r => r
  | None => gb10_unified_memory_bytes device_name pages page_size
  end.

(** ** The phase-stable fingerprint *)

(** What the wrappers read and write of a worker: its live configuration, the KV size in
    its cache configuration, and the two attributes ColdSnap adds. *)
Record plan_worker (C : Type) := PlanWorker {
  config : C; kv_cache_memory_bytes : option Z;
  initial_fingerprint : option (list N); configured_model_len : option Z;
}.
Arguments PlanWorker {C}. Arguments config {C}. Arguments kv_cache_memory_bytes {C}.
Arguments initial_fingerprint {C}. Arguments configured_model_len {C}.

Notation plan_files := (gmap (list N) json) (only parsing).

Section plans.
Context {C : Type}.
(** vLLM: the fingerprint of a configuration, the file of a fingerprint, the configured
    model length, and the two functions that are wrapped. *)
Context (fingerprint : C → list N) (plan_path : list N → list N) (max_model_len : C → json) (schema : json).
Context (original_apply : plan_worker C → res unit * plan_worker C).
Context (original_save : plan_worker C → Z → plan_files → res unit * (C * plan_files)).

(** [maybe_apply_startup_plan] up to its collective. *)
Definition remember (w : plan_worker C) : plan_worker C :=
  PlanWorker (config w) (kv_cache_memory_bytes w) (Some (fingerprint (config w)))
    (match as_int (max_model_len (config w)) with
     | Some n => if 0 <? n then Some n else configured_model_len w
     | None => configured_model_len w
     end).

Definition is_set {A} (o : option A) : bool := match o with Some _ => true | None => false end.

Definition set_kv (w : plan_worker C) (kv : option Z) : plan_worker C :=
  PlanWorker (config w) kv (initial_fingerprint w) (configured_model_len w).

Definition maybe_apply_startup_plan (agreed : bool → res bool) (w : plan_worker C) : res unit * plan_worker C :=
  let configured := kv_cache_memory_bytes w in
  match original_apply (remember w) with
  | (Raise e, w') => (Raise e, w')
  | (Ok result, w') =>
      if is_set configured then (Ok result, w') else
      let locally_admitted := is_set (kv_cache_memory_bytes w') in
      match agreed locally_admitted with
      | Raise e => (Raise e, w')
      | Ok true => (Ok result, w')
      | Ok false => (Ok result, if locally_admitted then set_kv w' None else w')
      end
  end.

Definition alias_payload (initial final : list N) (kv free : Z) : json := JObj [
  (lit "schema", schema); (lit "fingerprint", JStr initial); (lit "kv_cache_memory_bytes", JInt kv);
  (lit "free_memory_baseline", JInt free); (lit "coldsnap_alias_of", JStr final)].

(** [maybe_save_startup_plan]; [writable] is whether the alias could be written. *)
Definition maybe_save_startup_plan (writable : bool) (free_memory : Z) (w : plan_worker C) (kv : Z) (files : plan_files)
    : res unit * (plan_worker C * plan_files) :=
  match original_save w kv files with
  | (Raise e, (c, files')) => (Raise e, (PlanWorker c (kv_cache_memory_bytes w) (initial_fingerprint w) (configured_model_len w), files'))
  | (Ok result, (c, files')) =>
      let w' := PlanWorker c (kv_cache_memory_bytes w) (initial_fingerprint w) (configured_model_len w) in
      let initial := default [] (initial_fingerprint w') in
      let final := fingerprint (config w') in
      if bool_decide (initial = []) || bool_decide (initial = final) || negb writable then (Ok result, (w', files'))
      else (Ok result, (w', <[plan_path initial := alias_payload initial final kv free_memory]> files'))
  end.
End plans.

(** ** The compiler identity *)

(** What the compile hook reads and writes: the cache directory, the configured and the
    live model length, the hash attribute of the model configuration, the runner's and
    the model state's length and whether that state shares the configuration. *)
Record compile_state := CState {
  cache_dir : json; worker_configured : json; live_len : json; hash_len : option json;
  runner_len : json; state_shares : bool; state_len : json;
  marker_file : option (list N);
}.

(** The length [compute_hash] hashes. *)
Definition hashed_len (s : compile_state) : json := default (live_len s) (hash_len s).

Definition positive_int (v : json) : bool := match as_int v with Some n => 0 <? n | None => false end.
Definition is_int (v : json) : bool := is_set (as_int v).

Definition set_hash_len (o : option json) (s : compile_state) : compile_state :=
  CState (cache_dir s) (worker_configured s) (live_len s) o (runner_len s) (state_shares s) (state_len s) (marker_file s).
Definition set_cache_dir (d : json) (s : compile_state) : compile_state :=
  CState d (worker_configured s) (live_len s) (hash_len s) (runner_len s) (state_shares s) (state_len s) (marker_file s).
Definition set_state_len (n : json) (s : compile_state) : compile_state :=
  CState (cache_dir s) (worker_configured s) (live_len s) (hash_len s) (runner_len s) (state_shares s) n (marker_file s).
Definition set_marker (m : option (list N)) (s : compile_state) : compile_state :=
  CState (cache_dir s) (worker_configured s) (live_len s) (hash_len s) (runner_len s) (state_shares s) (state_len s) m.

Section compile.
Context (environ : environment) (is_dir : purepath → bool).
(** vLLM's [compile_or_warm_up_model], and whether [compute_hash] is callable. *)
Context {A : Type} (original : compile_state → res A * compile_state) (hash_callable : bool).

Definition env_text (name : string) : list N := py_strip (default [] (environ (lit name))).

Definition restoring : bool :=
  bool_decide (py_lower (env_text "COLDSNAP_PROCESS_TEMPLATE_RESTORE_LOAD_FORMAT") = lit "coldsnap")
  || bool_decide (env_text "COLDSNAP_PROCESS_TEMPLATE_RESTORED" = lit "1").

(** The captured cache directory, when restoring. *)
Definition select_cache (s : compile_state) : res compile_state :=
  if restoring then
    captured ← read_compile_cache_marker environ is_dir (marker_file s);
    mret (match captured with Some p => set_cache_dir (JStr (path_text p)) s | None => s end)
  else mret s.

(** The model state follows the fitted limit. *)
Definition align_state (s : compile_state) : compile_state :=
  if positive_int (live_len s) && state_shares s && is_int (state_len s) && py_eq (runner_len s) (live_len s)
     && negb (py_eq (state_len s) (live_len s))
  then set_state_len (live_len s) s else s.

Definition use_configured (s : compile_state) : bool :=
  positive_int (worker_configured s) && positive_int (live_len s) && negb (py_eq (worker_configured s) (live_len s)).

(** [original] between setting the hash attribute and putting it back. *)
Definition run_original (s : compile_state) : res A * compile_state :=
  if use_configured s then
    if negb hash_callable then (Raise (Exn RuntimeError "vLLM model configuration compute_hash is unavailable"), s)
    else
      let '(r, s') := original (set_hash_len (Some (worker_configured s)) s) in
      match hash_len s, hash_len s' with
      | None, None => (Raise (Exn AttributeError "_coldsnap_compile_hash_model_len"), s')
      | previous, _ => (r, set_hash_len previous s')
      end
  else original s.

Definition compile_with_configured_model_len (s : compile_state) : res A * compile_state :=
  match select_cache s with
  | Raise e => (Raise e, s)
  | Ok s1 =>
      match run_original (align_state s1) with
      | (Raise e, s2) => (Raise e, s2)
      | (Ok result, s2) =>
          if bool_decide (env_text "COLDSNAP_CAPTURE_LOAD_FORMAT" = []) then (Ok result, s2)
          else match write_compile_cache_marker environ is_dir (cache_dir s2) with
               | Raise e => (Raise e, s2)
               | Ok m => (Ok result, set_marker m s2)
               end
      end
  end.
End compile.
