(* ===== verification/StartupPlanSpec.v ===== *)
(** * Theorems about startup plans

    A drifted plan keeps the recorded envelope; ranks agree on whether to profile; a saved
    plan is found under the fingerprint of its lookup; the compiler-cache marker round
    trips; and compiling under a fitted limit hashes the configured one. *)

From stdpp Require Import gmap.
From S2P Require Import Prelude PyFloat PyJson PyJsonFacts Hash Validation PyPath StartupPlan.

(** ** Compiler defaults *)

Lemma apply_default_spec registered torch env d k : apply_default registered torch env d !! k
  = env !! k ∨ k = d.1 ∧ env !! k = None ∧ is_Some (registered k) ∧ apply_default registered torch env d !! k = Some (lit "1").
Proof.
  destruct d as [name minimum]. unfold apply_default. case_bool_decide as Hr; [by left|]. case_bool_decide as He; [by left|].
  destruct (negb (torch minimum)); [by left|]. destruct (_ && _); [by left|].
  destruct (decide (k = name)) as [->|Hk]; [right|left; by rewrite lookup_insert_ne].
  rewrite lookup_insert_eq. apply eq_None_not_Some in He. split_and!; try done. by apply not_eq_None_Some.
Qed.

(** Compiler defaults never override a recipe: every variable that was set keeps its
    value, and whatever is added is one of the three compiler switches, known to this
    vLLM, set to 1. *)
Theorem aot_defaults_conservative vllm registered torch env k :
  let env' := install_aot_compilation_defaults vllm registered torch env in
  env' !! k = env !! k ∨ env !! k = None ∧ env' !! k = Some (lit "1") ∧ k ∈ compile_defaults.*1 ∧ is_Some (registered k).
Proof.
  intros env'. unfold env', install_aot_compilation_defaults. destruct (_ || _); [by left|].
  assert (∀ l e, e !! k = env !! k ∨ env !! k = None ∧ e !! k = Some (lit "1") ∧ k ∈ compile_defaults.*1 ∧ is_Some (registered k) →
    (∀ d, d ∈ l → d ∈ compile_defaults) →
    let e' := foldl (apply_default registered torch) e l in
    e' !! k = env !! k ∨ env !! k = None ∧ e' !! k = Some (lit "1") ∧ k ∈ compile_defaults.*1 ∧ is_Some (registered k)) as H.
  { induction l as [|d l IH]; intros e He Hl; [done|]. simpl. apply IH; [|intros; apply Hl; by right].
    destruct (apply_default_spec registered torch e d k) as [E|(-> & E1 & Hr & E2)]; [by rewrite E|].
    right. destruct He as [He|(_ & He & _)]; [|congruence]. split_and!; [congruence|done| |done].
    apply list_elem_of_fmap. exists d. split; [done|]. apply Hl. left. }
  apply H; [by left|done].
Qed.

(** ** Drift *)

(** A drifted plan keeps its envelope: a reduced KV size is positive and smaller than
    the recorded one by exactly the memory that went missing, never more than the
    configured bound, so what the plan leaves to everything else is unchanged. *)
Theorem adjusted_plan_envelope plan free maximum n : adjusted_plan_bytes plan free maximum = Some n →
  ∃ kv baseline current, as_int (plan_get "kv_cache_memory_bytes" plan) = Some kv
    ∧ as_int (plan_get "free_memory_baseline" plan) = Some baseline ∧ as_int free = Some current
    ∧ 0 < n < kv ∧ current - n = baseline - kv ∧ 0 < kv - n <= maximum.
Proof.
  unfold adjusted_plan_bytes. intros E.
  destruct (as_int (plan_get "kv_cache_memory_bytes" plan)) as [kv|]; [|done].
  destruct (as_int (plan_get "free_memory_baseline" plan)) as [baseline|]; [|done].
  destruct (as_int free) as [current|]; [|done]. destruct (_ || _) eqn:E1 in E; [done|]. destruct (_ || _) eqn:E2 in E; [done|].
  simplify_eq. guards. exists kv, baseline, current. split_and!; try done; lia.
Qed.

(** ** Agreement *)

Section ranks.
Context {C : Type} (fingerprint : C → list N) (max_model_len : C → json)
  (original_apply : plan_worker C → res unit * plan_worker C).

(** What a rank brings to the collective, and the minimum every rank gets back. *)
Definition local_decision (w : plan_worker C) : Z :=
  bool_int (is_set (kv_cache_memory_bytes (original_apply (remember fingerprint max_model_len w)).2)).
Definition all_min (ws : list (plan_worker C)) : Z := foldr Z.min 1 (local_decision <$> ws).

(** Every rank of a job runs the wrapper; the reduction is over all of them. *)
Definition apply_rank (ws : list (plan_worker C)) (w : plan_worker C) : res unit * plan_worker C :=
  maybe_apply_startup_plan fingerprint max_model_len original_apply
    (all_workers_admit (Z.of_nat (length ws)) true (λ _, all_min ws)) w.

Lemma decision_range w : local_decision w = 0 ∨ local_decision w = 1.
Proof. unfold local_decision. destruct (is_set _); auto. Qed.

Lemma all_min_one ws : all_min ws = 1 ↔ Forall (λ w, local_decision w = 1) ws.
Proof.
  unfold all_min. induction ws as [|w ws IH]; csimpl; [split; [constructor|done]|]. rewrite Forall_cons, <- IH.
  assert (foldr Z.min 1 (local_decision <$> ws) <= 1) by (clear IH; induction ws; csimpl; lia).
  destruct (decision_range w); lia.
Qed.

Lemma all_min_range ws : all_min ws = 0 ∨ all_min ws = 1.
Proof. unfold all_min. induction ws as [|w ws IH]; csimpl; [by right|]. destruct (decision_range w); lia. Qed.
End ranks.

(** No rank waits for another: when every rank of a job starts without an explicit
    KV size and vLLM's own lookup does not raise, then after the wrapper either every
    rank keeps the size its plan gave it, or no rank has one and all of them profile. *)
Theorem ranks_agree {C} fingerprint (max_model_len : C → json) original_apply ws :
  Forall (λ w, kv_cache_memory_bytes w = None) ws →
  Forall (λ w, is_ok (original_apply (remember fingerprint max_model_len w)).1 = true) ws →
  let run := apply_rank fingerprint max_model_len original_apply ws in
  Forall (λ w, is_ok (run w).1 = true) ws
  ∧ (Forall (λ w, is_Some (kv_cache_memory_bytes (run w).2)
                  ∧ (run w).2 = (original_apply (remember fingerprint max_model_len w)).2) ws
     ∨ Forall (λ w, kv_cache_memory_bytes (run w).2 = None) ws).
Proof.
  intros Hn Ho run.
  assert (∀ w, w ∈ ws → let base := (original_apply (remember fingerprint max_model_len w)).2 in
    is_ok (run w).1 = true
    ∧ (all_min fingerprint max_model_len original_apply ws = 1 → is_Some (kv_cache_memory_bytes (run w).2) ∧ (run w).2 = base)
    ∧ (all_min fingerprint max_model_len original_apply ws = 0 → kv_cache_memory_bytes (run w).2 = None)) as H.
  { intros w Hw base. rewrite Forall_forall in Hn, Ho. specialize (Hn w Hw). specialize (Ho w Hw).
    assert (all_min fingerprint max_model_len original_apply ws = 1 → local_decision fingerprint max_model_len original_apply w = 1) as H1.
    { intros HF%all_min_one. rewrite Forall_forall in HF. auto. }
    assert (length ws = 1%nat → all_min fingerprint max_model_len original_apply ws = local_decision fingerprint max_model_len original_apply w) as H2.
    { destruct ws as [|x [|]]; try done. apply list_elem_of_singleton in Hw as ->. intros _. unfold all_min. simpl.
      destruct (decision_range fingerprint max_model_len original_apply x) as [-> | ->]; done. }
    unfold run, apply_rank, maybe_apply_startup_plan. rewrite Hn. unfold base, local_decision in *.
    destruct (original_apply (remember fingerprint max_model_len w)) as [[u|e] w']; [|done]. cbn [fst snd is_set] in *.
    unfold all_workers_admit. destruct (Z.leb_spec (Z.of_nat (length ws)) 1) as [Hl|Hl].
    - assert (length ws = 1%nat) as Hone by (destruct ws as [|? [|]]; simpl in *; [by apply elem_of_nil in Hw|done|lia]).
      rewrite (H2 Hone). destruct (kv_cache_memory_bytes w') eqn:Ek; simpl; rewrite ?Ek; split_and!; intros; try done; eauto.
    - simpl. destruct (all_min_range fingerprint max_model_len original_apply ws) as [E|E]; rewrite E in *; simpl.
      + destruct (kv_cache_memory_bytes w') eqn:Ek; simpl; rewrite ?Ek; split_and!; intros; done.
      + specialize (H1 eq_refl). destruct (kv_cache_memory_bytes w') eqn:Ek; simpl in *; rewrite ?Ek; split_and!; intros; try done; eauto. }
  split; [apply Forall_forall; intros w Hw; by apply H|].
  destruct (all_min_range fingerprint max_model_len original_apply ws) as [E|E]; [right|left];
    apply Forall_forall; intros w Hw; by apply H.
Qed.

(** ** The alias *)

(** A plan is found again: after a lookup and a save by the same worker, whatever
    profiling did to its configuration in between, the file the next identical lookup
    reads holds a plan with the saved KV size, provided vLLM's own save writes its plan
    under the fingerprint of the configuration it sees. *)
Theorem saved_plan_found {C} fingerprint (plan_path : list N → list N) (max_model_len : C → json) schema
    original_apply original_save agreed free w w1 w2 kv files files' :
  (∀ w, initial_fingerprint (original_apply w).2 = initial_fingerprint w) →
  (∀ w kv files c files', original_save w kv files = (Ok tt, (c, files')) →
     ∃ plan, files' !! plan_path (fingerprint c) = Some (JObj plan) ∧ dict_get (lit "kv_cache_memory_bytes") plan = Some (JInt kv)) →
  fingerprint (config w) ≠ [] →
  maybe_apply_startup_plan fingerprint max_model_len original_apply agreed w = (Ok tt, w1) →
  maybe_save_startup_plan fingerprint plan_path schema original_save true free w1 kv files = (Ok tt, (w2, files')) →
  ∃ plan, files' !! plan_path (fingerprint (config w)) = Some (JObj plan)
    ∧ dict_get (lit "kv_cache_memory_bytes") plan = Some (JInt kv).
Proof.
  intros Hkeep Hsave Hne Ha Hs.
  assert (initial_fingerprint w1 = Some (fingerprint (config w))) as Hi.
  { unfold maybe_apply_startup_plan in Ha. specialize (Hkeep (remember fingerprint max_model_len w)).
    destruct (original_apply _) as [[[]|e] w'] in Ha, Hkeep; [|done]. simpl in Hkeep.
    destruct (is_set (kv_cache_memory_bytes w)); [by simplify_eq|]. destruct (agreed _) as [[]|]; simplify_eq; [done|].
    by destruct (is_set _). }
  unfold maybe_save_startup_plan in Hs. destruct (original_save w1 kv files) as [[[]|e] [c fs]] eqn:Es; [|done].
  apply Hsave in Es. rewrite Hi in Hs. cbn [initial_fingerprint default from_option id config] in Hs.
  rewrite (bool_decide_false (fingerprint (config w) = [])) in Hs by done. cbn [orb negb] in Hs. rewrite orb_false_r in Hs.
  case_bool_decide as Hf; simplify_eq.
  - by rewrite Hf.
  - eexists. rewrite lookup_insert_eq. split; [reflexivity|reflexivity].
Qed.

(** ** The marker *)

Lemma strip_parts_Some q p rest : strip_parts q p = Some rest → p = q ++ rest.
Proof.
  revert p. induction q as [|x q IH]; intros p; simpl; [by intros [= ->]|]. destruct p as [|y p]; [done|].
  case_decide; [|done]. subst. intros H. f_equal. by apply IH.
Qed.

Lemma namespace_scalar s : is_namespace s = true → forallb scalar s = true.
Proof.
  unfold is_namespace. intros H. guards. rewrite forallb_forall in *. intros c Hc.
  match goal with H : (∀ x, In x s → _) |- _ => specialize (H c Hc); unfold is_lower_hex in H; apply orb_true_iff in H end.
  unfold scalar. apply orb_true_iff. left. apply N.ltb_lt.
  match goal with H : _ ∨ _ |- _ => destruct H as [[_ H]%andb_true_iff|[_ H]%andb_true_iff]; apply N.leb_le in H end; lia.
Qed.

Definition marker_items (name : list N) : list (list N * json) :=
  match marker_payload name with JObj d => d | _ => [] end.

Lemma marker_exact name : is_namespace name = true → exact (JObj (marker_items name)) = true.
Proof.
  intros Hns. unfold marker_items, marker_payload. cbn [exact]. apply andb_true_iff. split; [|by vm_compute].
  cbn [forallb fst snd exact]. rewrite (namespace_scalar name Hns). by vm_compute.
Qed.

Lemma read_marker_items environ is_dir r l name dir : vllm_cache_root environ = Ok r → exact (JObj l) = true →
  dict_get (lit "namespace") l = Some (JStr name) → dict_get (lit "schema") l = Some (JInt 1) →
  dict_get (lit "kind") l = Some (JStr MARKER_KIND) → compile_cache_directory environ is_dir name = Ok dir →
  read_compile_cache_marker environ is_dir (Some (dumps default_style (JObj l) ++ [10%N])) = Ok (Some dir).
Proof.
  intros Hr He H1 H2 H3 Hd. assert (NoDup l.*1) as Hn.
  { cbn [exact] in He. apply andb_true_iff in He as [_ He]. by apply has_dups_false, negb_true_iff. }
  unfold read_compile_cache_marker. rewrite Hr. cbn [mbind res_bind].
  rewrite loads_dumps_blank; [|apply default_style_ok|done|by vm_compute]. cbn [of_option mbind res_bind].
  rewrite sort_keys_obj. cbn [jget]. rewrite !dict_get_sort, H1, H2, H3 by done.
  cbn [fmap option_fmap option_map default from_option id sort_keys py_eq]. rewrite bool_decide_true by done.
  cbn [Z.eqb Pos.eqb negb orb raise_if mbind res_bind mret res_ret]. by rewrite Hd.
Qed.

(** The compiler-cache marker round trips: the marker written for a cache directory,
    read back, names that very directory; a marker is written only for a directory one
    level below the cache root with a ten-digit name. *)
Theorem marker_round_trip environ is_dir s text :
  write_compile_cache_marker environ is_dir (JStr s) = Ok (Some text) →
  read_compile_cache_marker environ is_dir (Some text) = Ok (Some (parse_path s))
  ∧ ∃ r name, vllm_cache_root environ = Ok r ∧ is_namespace name = true
    ∧ parse_path s = child (child r (lit "torch_compile_cache")) name ∧ is_dir (parse_path s) = true.
Proof.
  intros E. unfold write_compile_cache_marker in E. destruct s as [|c s]; [by res_inv|].
  apply bind_Ok in E as (r & Hr & E). apply bind_Ok in E as (rest & Hrest%of_option_Ok & E).
  destruct rest as [|name [|]]; try done. apply bind_Ok in E as (dir & Hdir & E).
  assert (text = dumps default_style (marker_payload name) ++ [10%N]) as -> by (unfold mret, res_ret in E; congruence). clear E.
  assert (parse_path (c :: s) = child (child r (lit "torch_compile_cache")) name) as Hp.
  { unfold relative_to in Hrest. case_decide as Hroot; [|done]. apply strip_parts_Some in Hrest.
    unfold child in *. cbn [root parts] in *. destruct (parse_path (c :: s)) as [rt pt]. simpl in *. by subst. }
  pose proof Hdir as Hdir0. unfold compile_cache_directory in Hdir. rewrite Hr in Hdir. cbn [mbind res_bind] in Hdir.
  apply bind_Ok in Hdir as ([] & Hns%raise_if_Ok & Hdir). apply bind_Ok in Hdir as ([] & Hd%raise_if_Ok & Hdir). res_inv.
  apply negb_false_iff in Hns, Hd. rewrite <- Hp in Hd, Hdir0. split; [|by exists r, name].
  apply (read_marker_items environ is_dir r (marker_items name) name); [done|by apply marker_exact|reflexivity..|done].
Qed.

(** ** The compiler identity *)

Lemma align_state_keeps s : hash_len (align_state s) = hash_len s ∧ live_len (align_state s) = live_len s
  ∧ worker_configured (align_state s) = worker_configured s.
Proof. unfold align_state. by destruct (_ && _). Qed.

Lemma select_cache_keeps environ is_dir s s' : select_cache environ is_dir s = Ok s' →
  hash_len s' = hash_len s ∧ live_len s' = live_len s ∧ worker_configured s' = worker_configured s.
Proof. unfold select_cache. destruct (restoring environ); intros E; res_inv; [|done]. by destruct x. Qed.

(** One compiler namespace: whatever vLLM's compilation does with the rest of its
    state, the hook leaves the hash attribute as it found it, also when compilation
    raises; and when the key is computed through the wrapped hash, it is that of the
    configured model length, while the live limit is untouched. *)
Theorem compile_identity environ is_dir hash_callable (original : compile_state → res json * compile_state) s :
  (∀ s, hash_len (original s).2 = hash_len s) → (∀ s, live_len (original s).2 = live_len s) →
  hash_len (compile_with_configured_model_len environ is_dir original hash_callable s).2 = hash_len s
  ∧ live_len (compile_with_configured_model_len environ is_dir original hash_callable s).2 = live_len s
  ∧ ((∀ s, (original s).1 = Ok (hashed_len s)) → hash_len s = None →
     positive_int (worker_configured s) = true → positive_int (live_len s) = true → ∀ v,
     (compile_with_configured_model_len environ is_dir original hash_callable s).1 = Ok v → v = worker_configured s ∨ v = live_len s ∧ py_eq (worker_configured s) v = true).
Proof.
  intros Hh Hl. unfold compile_with_configured_model_len.
  destruct (select_cache environ is_dir s) as [s1|e] eqn:E1; [|split_and!; [done..|]; intros; simpl in *; discriminate]. apply select_cache_keeps in E1 as (Eh & El & Ec).
  destruct (align_state_keeps s1) as (Eh2 & El2 & Ec2). rewrite Eh in Eh2. rewrite El in El2. rewrite Ec in Ec2. clear Eh El Ec.
  set (t := align_state s1) in *. clearbody t.
  assert (∀ p, run_original original hash_callable t = p → hash_len p.2 = hash_len s ∧ live_len p.2 = live_len s
    ∧ ((∀ s, (original s).1 = Ok (hashed_len s)) → hash_len s = None →
       positive_int (worker_configured s) = true → positive_int (live_len s) = true → ∀ v,
       p.1 = Ok v → v = worker_configured s ∨ v = live_len s ∧ py_eq (worker_configured s) v = true)) as Hrun.
  { intros p <-. unfold run_original, use_configured. rewrite El2, Ec2. destruct (_ && _) eqn:Eu.
    - destruct hash_callable; cbn [negb]; [|split_and!; [done..|]; intros; simpl in *; discriminate].
      pose proof (Hh (set_hash_len (Some (worker_configured s)) t)) as H1. pose proof (Hl (set_hash_len (Some (worker_configured s)) t)) as H2.
      destruct (original (set_hash_len (Some (worker_configured s)) t)) as [r s'] eqn:Eo. cbn [snd] in H1, H2. simpl in H1.
      rewrite H1.
      assert (∀ o, match o with Some j => (r, set_hash_len (Some j) s') | None => (r, set_hash_len None s') end = (r, set_hash_len o s')) as Ho by by intros [].
      rewrite Ho. cbn [fst snd hash_len live_len set_hash_len]. split_and!; [done|simpl in H2; congruence|].
      intros Hor _ _ _ v Hv. specialize (Hor (set_hash_len (Some (worker_configured s)) t)). rewrite Eo in Hor. unfold hashed_len in Hor. simpl in Hor, Hv. left. congruence.
    - split_and!; [by rewrite Hh|by rewrite Hl|]. intros Hor Hn Hp1 Hp2 v Hv. rewrite Hp1, Hp2 in Eu. simpl in Eu.
      apply negb_false_iff in Eu. right. rewrite Hor in Hv. unfold hashed_len in Hv. rewrite Eh2, Hn, El2 in Hv. simpl in Hv. simplify_eq. done. }
  destruct (run_original original hash_callable t) as [[a|e] s2] eqn:Er; specialize (Hrun _ eq_refl); cbn [fst snd] in Hrun; [|done].
  case_bool_decide; [done|]. destruct (write_compile_cache_marker _ _ _) as [m|e]; [done|]. destruct Hrun as (? & ? & _).
  split_and!; [done..|]. intros. simpl in *. discriminate.
Qed.

(** ** Samples *)

Definition sample_plan : list (list N * json) := [(lit "kv_cache_memory_bytes", JInt 100); (lit "free_memory_baseline", JInt 500)].

Lemma adjusted_plan_envelope_witness : ∃ kv baseline current,
  as_int (plan_get "kv_cache_memory_bytes" sample_plan) = Some kv
  ∧ as_int (plan_get "free_memory_baseline" sample_plan) = Some baseline ∧ as_int (JInt 470) = Some current
  ∧ 0 < 70 < kv ∧ current - 70 = baseline - kv ∧ 0 < kv - 70 <= 40.
Proof. apply (adjusted_plan_envelope sample_plan (JInt 470) 40 70). reflexivity. Defined.

(** Two ranks, of which only the first finds a plan; a configuration is its fingerprint. *)
Definition sample_apply (w : plan_worker (list N)) : res unit * plan_worker (list N) :=
  (Ok tt, if decide (config w = lit "rank0") then set_kv w (Some 100) else w).
Definition sample_ranks : list (plan_worker (list N)) :=
  [PlanWorker (lit "rank0") None None None; PlanWorker (lit "rank1") None None None].

Lemma ranks_agree_witness : let run := apply_rank id (λ _, JInt 8) sample_apply sample_ranks in
  Forall (λ w, is_ok (run w).1 = true) sample_ranks
  ∧ (Forall (λ w, is_Some (kv_cache_memory_bytes (run w).2)
                  ∧ (run w).2 = (sample_apply (remember id (λ _, JInt 8) w)).2) sample_ranks
     ∨ Forall (λ w, kv_cache_memory_bytes (run w).2 = None) sample_ranks).
Proof. apply (ranks_agree id (λ _, JInt 8) sample_apply sample_ranks); by repeat constructor. Defined.

(** A save that profiling has moved to another fingerprint. *)
Definition sample_save (w : plan_worker (list N)) (kv : Z) (files : gmap (list N) json)
    : res unit * (list N * gmap (list N) json) :=
  (Ok tt, (lit "after", <[lit "after" := JObj [(lit "kv_cache_memory_bytes", JInt kv)]]> files)).

Lemma saved_plan_found_witness :
  let run := maybe_save_startup_plan id id JNull sample_save true 9
    (remember id (λ _, JInt 8) (PlanWorker (lit "before") (Some 3) None None)) 77 ∅ in
  ∃ plan, run.2.2 !! lit "before" = Some (JObj plan) ∧ dict_get (lit "kv_cache_memory_bytes") plan = Some (JInt 77).
Proof.
  intros run.
  apply (saved_plan_found id id (λ _, JInt 8) JNull (λ w, (Ok tt, w)) sample_save (λ b, Ok b) 9
    (PlanWorker (lit "before") (Some 3) None None) (remember id (λ _, JInt 8) (PlanWorker (lit "before") (Some 3) None None))
    run.2.1 77 ∅ run.2.2).
  - done.
  - intros w kv files c files' [= <- <-]. eexists. by rewrite lookup_insert_eq.
  - discriminate.
  - reflexivity.
  - reflexivity.
Defined.

Definition sample_cache := lit "/cache//vllm/./torch_compile_cache/0123456789/".
Definition sample_environ (k : list N) : option (list N) :=
  if decide (k = VLLM_CACHE_ROOT_ENV) then Some (lit "/cache/vllm") else None.
Definition sample_marker : list N := Eval vm_compute in
  dumps default_style (marker_payload (lit "0123456789")) ++ [10%N].

Lemma marker_round_trip_witness :
  read_compile_cache_marker sample_environ (λ _, true) (Some sample_marker) = Ok (Some (parse_path sample_cache))
  ∧ ∃ r name, vllm_cache_root sample_environ = Ok r ∧ is_namespace name = true
    ∧ parse_path sample_cache = child (child r (lit "torch_compile_cache")) name ∧ true = true.
Proof. apply (marker_round_trip sample_environ (λ _, true) sample_cache sample_marker). vm_compute. reflexivity. Defined.

Definition sample_state : compile_state := CState JNull (JInt 4096) (JInt 1024) None (JInt 1024) true (JInt 4096) None.
Definition sample_compile (s : compile_state) : res json * compile_state := (Ok (hashed_len s), s).

Lemma compile_identity_witness :
  let run := compile_with_configured_model_len (λ _, None) (λ _, true) sample_compile true sample_state in
  hash_len run.2 = None ∧ live_len run.2 = JInt 1024
  ∧ ((∀ s, (sample_compile s).1 = Ok (hashed_len s)) → hash_len sample_state = None →
     positive_int (worker_configured sample_state) = true → positive_int (live_len sample_state) = true → ∀ v,
     run.1 = Ok v → v = JInt 4096 ∨ v = JInt 1024 ∧ py_eq (JInt 4096) v = true).
Proof. apply (compile_identity (λ _, None) (λ _, true) true sample_compile sample_state); done. Defined.
