(* ===== verification/Recovery.v ===== *)
(** * Recovery loader: reading checkpoints and planning the reads

    [integrations/vllm/coldsnap_recovery_loader.py], the part that decides which bytes
    of the safetensors files are read, by which rank, into which device addresses:
    the safetensors header and its tensor descriptors, the partition of descriptors
    among ranks, staging batches and their layout, the extents given to the native
    hydrator, and the broadcast of a staging slab.

    A tensor that backs a staging range is its address and byte count. Python's
    [float] arithmetic on throughput weights is binary64; how the builtin [sum] rounds
    a sum of floats changed in CPython 3.12 (both are supported), so it is the
    parameter [fsum] of the definitions that use it. *)

From Stdlib Require Import SpecFloat.
From S2P Require Import Prelude Ranges PyFloat PyJson Hydration.

(** ** Safetensors headers *)

Definition MAX_HEADER_BYTES : Z := 256 * 1024 ^ 2.
Definition MAX_INT64 : Z := 2 ^ 63 - 1.

Definition DTYPE_ATTRIBUTES : list (pystr * pystr) :=
  [(lit "BOOL", lit "bool"); (lit "U8", lit "uint8"); (lit "I8", lit "int8"); (lit "I16", lit "int16");
   (lit "U16", lit "uint16"); (lit "I32", lit "int32"); (lit "U32", lit "uint32"); (lit "I64", lit "int64");
   (lit "U64", lit "uint64"); (lit "F16", lit "float16"); (lit "BF16", lit "bfloat16");
   (lit "F32", lit "float32"); (lit "F64", lit "float64"); (lit "F8_E4M3", lit "float8_e4m3fn");
   (lit "F8_E5M2", lit "float8_e5m2"); (lit "F8_E8M0", lit "float8_e8m0fnu")].

Record SafetensorDescriptor := Descriptor {
  d_name : pystr; d_dtype_name : pystr; d_shape : list Z; d_file_offset : Z; d_length : Z;
}.

#[global] Instance descriptor_eq_dec : EqDecision SafetensorDescriptor.
Proof. solve_decision. Defined.

(** The loop of [_checked_elements]. *)
Fixpoint elements_loop (elements : Z) (shape : list Z) : res Z :=
  match shape with
  | [] => mret elements
  | dimension :: rest =>
      _ ← raise_if (dimension <? 0) RuntimeError "negative safetensors dimension";
      _ ← raise_if (negb (dimension =? 0) && (MAX_INT64 / dimension <? elements))
          RuntimeError "safetensors shape overflows";
      elements_loop (elements * dimension) rest
  end.
Definition checked_elements (shape : list Z) : res Z := elements_loop 1 shape.

(** [struct.unpack("<Q", raw)] *)
Definition le_value (b : pybytes) : Z := foldr (λ c acc, Z.of_N c + 256 * acc) 0 b.

Section header.
(** [decode] is what [json.loads] does to bytes first: it detects their encoding. *)
Variable decode : pybytes → option pystr.

Definition read_safetensors_header (content : pybytes) : res (Z * list (pystr * json)) :=
  let raw_size := take 8 content in
  _ ← raise_if (negb (length raw_size =? 8)%nat) RuntimeError "invalid safetensors header";
  let size := le_value raw_size in
  _ ← raise_if ((size <=? 0) || (MAX_HEADER_BYTES <? size)) RuntimeError "invalid safetensors header size";
  let payload := take (Z.to_nat size) (drop 8 content) in
  _ ← raise_if (negb (Z.of_nat (length payload) =? size)) RuntimeError "short safetensors header";
  header ← of_option RuntimeError "invalid safetensors JSON header" (text ← decode payload; loads text);
  match header with
  | JObj d =>
      _ ← raise_if (match dict_get (lit "__metadata__") d with
                    | None | Some JNull | Some (JObj _) => false
                    | Some _ => true
                    end) RuntimeError "invalid safetensors metadata";
      mret (8 + size, filter (λ kv, kv.1 ≠ lit "__metadata__") d)
  | _ => Raise (Exn RuntimeError "safetensors header is not an object")
  end.

Definition matches_prefix (name : pystr) (prefixes : option (list pystr)) : bool :=
  match prefixes with
  | None | Some [] => true
  | Some l => existsb (λ p, starts_with p name) l
  end.

Definition as_int (v : json) : option Z := match v with JInt z => Some z | _ => None end.

(** One item of the header: its dtype, shape and byte range. *)
Record tensor_range := TRange { t_name : pystr; t_dtype : pystr; t_shape : list Z; t_start : Z; t_end : Z }.

Definition tensor_metadata (name : pystr) (raw : json) : option tensor_range :=
  match jget "dtype" raw, jget "shape" raw, jget "data_offsets" raw with
  | Some (JStr dtype), Some (JArr shape), Some (JArr offsets) =>
      _ ← assoc dtype DTYPE_ATTRIBUTES;
      shape ← mapM as_int shape;
      offsets ← mapM as_int offsets;
      match offsets with
      | [start; end_] => Some (TRange name dtype shape start end_)
      | _ => None
      end
  | _, _, _ => None
  end.

Definition tensor_entry (data_offset file_bytes : Z) (item : pystr * json) : res tensor_range :=
  let '(name, raw) := item in
  _ ← raise_if (bool_decide (name = []) || match raw with JObj _ => false | _ => true end)
      RuntimeError "invalid tensor entry";
  t ← of_option RuntimeError "invalid safetensors metadata" (tensor_metadata name raw);
  _ ← raise_if ((t_start t <? 0) || (t_end t <? t_start t) || (file_bytes <? data_offset + t_end t))
      RuntimeError "invalid safetensors range";
  mret t.

(** Rows of [sorted(occupied)] may not overlap. *)
Definition range_leb (a b : tensor_range) : bool :=
  pair_leb (pair_leb Z.leb Z.leb) str_leb (t_start a, t_end a, t_name a) (t_start b, t_end b, t_name b).

Fixpoint overlap_loop (previous_end : Z) (l : list tensor_range) : res unit :=
  match l with
  | [] => mret tt
  | t :: l' =>
      _ ← raise_if (t_start t <? previous_end) RuntimeError "overlapping safetensors range";
      overlap_loop (t_end t) l'
  end.

Definition tensor_selected (absolute_path : pystr) (indexed : option (list (pystr * pystr)))
    (prefixes : option (list pystr)) (t : tensor_range) : bool :=
  match indexed with
  | None => true
  | Some files => bool_decide (assoc (t_name t) files = Some absolute_path)
  end && matches_prefix (t_name t) prefixes.

(** Position of a name in the index, whose keys are distinct. *)
Definition index_order (files : list (pystr * pystr)) (name : pystr) : Z :=
  from_option (λ p, Z.of_nat p.1) 0 (list_find (λ kv, kv.1 = name) files).

Definition descriptor_of (data_offset : Z) (t : tensor_range) : SafetensorDescriptor :=
  Descriptor (t_name t) (t_dtype t) (t_shape t) (data_offset + t_start t) (t_end t - t_start t).

(** [_descriptors]: [content] is the file and [file_bytes] its [st_size]. *)
Definition descriptors (content : pybytes) (file_bytes : Z) (absolute_path : pystr)
    (indexed : option (list (pystr * pystr))) (prefixes : option (list pystr)) : res (list SafetensorDescriptor) :=
  '(data_offset, header) ← read_safetensors_header content;
  occupied ← mapM (tensor_entry data_offset file_bytes) header;
  let result := descriptor_of data_offset <$> filter (λ t, tensor_selected absolute_path indexed prefixes t = true) occupied in
  _ ← overlap_loop 0 (py_sorted range_leb occupied);
  mret (match indexed with
        | None => sort_on d_file_offset result
        | Some files => sort_on (λ d, index_order files (d_name d)) result
        end).

Definition weight_file (kv : pystr * json) : option (pystr * pystr) :=
  match kv.2 with JStr f => Some (kv.1, f) | _ => None end.

(** [_index_map]: [text] is the index file when it exists, [locate] is
    [os.path.abspath(os.path.join(folder, _))]. *)
Definition index_map (text : option pystr) (locate : pystr → pystr) : res (option (list (pystr * pystr))) :=
  match text return res (option (list (pystr * pystr))) with
  | None => mret None
  | Some s =>
      value ← of_option ValueError "invalid JSON" (loads s);
      match jget "weight_map" value with
      | Some (JObj files) =>
          names ← of_option RuntimeError "invalid safetensors weight map"
            (mapM weight_file files);
          Ok (Some (map (λ kv, (kv.1, locate kv.2)) names))
      | _ => Raise (Exn RuntimeError "invalid safetensors weight map")
      end
  end.
End header.

Section torch.
(** The element size of a dtype attribute of the installed torch. *)
Variable torch_dtype : pystr → option Z.

Definition validate_descriptor_size (d : SafetensorDescriptor) : res Z :=
  attribute ← of_option KeyError "dtype" (assoc (d_dtype_name d) DTYPE_ATTRIBUTES);
  size ← of_option RuntimeError "installed torch lacks safetensors dtype" (torch_dtype attribute);
  elements ← checked_elements (d_shape d);
  _ ← raise_if (negb (elements * size =? d_length d)) RuntimeError "safetensors byte length mismatch";
  mret size.
End torch.

(** ** Dividing descriptors among ranks *)

(** [a / b] of integers: the nearest float of the quotient, [b] positive. *)
Definition int_truediv (a b : Z) : res spec_float :=
  match a, b with
  | 0, _ => mret (S754_zero false)
  | Zpos p, Zpos q | Zneg p, Zpos q =>
      match SFdiv prec emax (S754_finite (a <? 0) p 0) (S754_finite false q 0) with
      | S754_infinity _ | S754_nan => Raise (Exn OverflowError "integer division result too large for a float")
      | f => mret f
      end
  | _, _ => Raise (Exn ZeroDivisionError "division by zero")
  end.

(** An integer operand of a float operator. *)
Definition as_float (z : Z) : res spec_float :=
  of_option OverflowError "int too large to convert to float" (float_of_int z).

Definition float_truediv (x y : spec_float) : res spec_float :=
  _ ← raise_if (SFeqb y (S754_zero false)) ZeroDivisionError "float division by zero";
  mret (SFdiv prec emax x y).

(** [x < z] between a float and an integer is exact. *)
Definition float_lt_int (x : spec_float) (z : Z) : bool :=
  match x with
  | S754_zero _ => 0 <? z
  | S754_finite s m e => let '(num, den) := fraction m e in (if s then - num else num) <? z * den
  | S754_infinity s => s
  | S754_nan => false
  end.

Definition fzero : spec_float := S754_zero false.
Definition fadd : spec_float → spec_float → spec_float := SFadd prec emax.
Definition fsub : spec_float → spec_float → spec_float := SFsub prec emax.
Definition fmul : spec_float → spec_float → spec_float := SFmul prec emax.
(** [max(0.0, x)] keeps its first argument unless the second is larger. *)
Definition fmax (x y : spec_float) : spec_float := if SFltb x y then y else x.
Definition fmin (x y : spec_float) : spec_float := if SFltb y x then y else x.

(** The builtin [sum] of floats: left to right, and with Neumaier's compensation (the
    behaviour since CPython 3.12). *)
Definition sum_plain (l : list spec_float) : spec_float := foldl fadd fzero l.

Definition neumaier_step (s : spec_float * spec_float) (x : spec_float) : spec_float * spec_float :=
  let '(f, c) := s in
  let t := fadd f x in
  (t, fadd c (if SFleb (SFabs x) (SFabs f) then fadd (fsub f t) x else fadd (fsub x t) f)).
Definition sum_compensated (l : list spec_float) : spec_float :=
  let '(f, c) := foldl neumaier_step (fzero, fzero) l in
  match c with S754_finite _ _ _ => fadd f c | _ => f end.

(** [prefix = [0]; for d in ordered: prefix.append(prefix[-1] + d.length)] *)
Fixpoint prefix_sums (start : Z) (lengths : list Z) : list Z :=
  start :: match lengths with [] => [] | n :: rest => prefix_sums (start + n) rest end.

(** [<] of two keys [(abs(prefix[i] - target), i)]. *)
Definition key_ltb (a b : spec_float * nat) : bool :=
  if SFeqb a.1 b.1 then (a.2 <? b.2)%nat else SFltb a.1 b.1.

Definition boundary_key (prefix : list Z) (target : spec_float) (index : nat) : res (spec_float * nat) :=
  p ← of_option IndexError "list index out of range" (prefix !! index);
  f ← as_float p;
  mret (SFabs (fsub f target), index).

Fixpoint min_loop (prefix : list Z) (target : spec_float) (best : spec_float * nat) (l : list nat) : res nat :=
  match l with
  | [] => mret best.2
  | index :: l' =>
      k ← boundary_key prefix target index;
      min_loop prefix target (if key_ltb k best then k else best) l'
  end.

(** [min(range(lower, len(prefix)), key=...)] *)
Definition nearest_boundary (prefix : list Z) (lower : nat) (target : spec_float) : res nat :=
  match seq lower (length prefix - lower) with
  | [] => Raise (Exn ValueError "min() arg is an empty sequence")
  | index :: l => k ← boundary_key prefix target index; min_loop prefix target k l
  end.

Fixpoint boundaries_loop (prefix : list Z) (lower : nat) (targets : list (res spec_float)) : res (list nat) :=
  match targets with
  | [] => mret []
  | t :: ts =>
      target ← t;
      boundary ← nearest_boundary prefix lower target;
      rest ← boundaries_loop prefix boundary ts;
      mret (boundary :: rest)
  end.

(** [l[start:end] = [v] * (end - start)] *)
Definition fill_slice (l : list Z) (start end_ : nat) (v : Z) : list Z :=
  take start l ++ replicate (end_ - start) v ++ drop (Nat.max start end_) l.

(** [for o, (start, end) in zip(owners, zip(boundaries, boundaries[1:])): ...] *)
Definition fill_runs (result : list Z) (runs : list (Z * (nat * nat))) : list Z :=
  foldl (λ r run, fill_slice r run.2.1 run.2.2 run.1) result runs.

(** The order in which descriptors are divided, and the write-back of the owners. *)
Definition owner_order (physical_order : bool) (ds : list SafetensorDescriptor) : list nat :=
  let indices := seq 0 (length ds) in
  if physical_order then sort_on (λ i, from_option d_file_offset 0 (ds !! i)) indices else indices.

Definition scatter (order : list nat) (values : list Z) (n : nat) : list Z :=
  foldl (λ r p, <[ p.1 := p.2 ]> r) (replicate n 0) (zip order values).

Definition lengths_of (ds : list SafetensorDescriptor) : list Z := d_length <$> ds.

(** [_owners] *)
Definition owners (ds : list SafetensorDescriptor) (world_size rotation : Z) (physical_order : bool)
    : res (list Z) :=
  _ ← raise_if (world_size <=? 0) ValueError "recovery loader world size must be positive";
  match ds with
  | [] => mret []
  | _ =>
      let order := owner_order physical_order ds in
      let ordered := omap (λ i, ds !! i) order in
      let total := zsum (lengths_of ordered) in
      let prefix := prefix_sums 0 (lengths_of ordered) in
      inner ← boundaries_loop prefix 0
        ((λ partition, int_truediv (total * partition) world_size) <$> seqZ 1 (world_size - 1));
      let boundaries := [0%nat] ++ inner ++ [length ds] in
      let partitions := (λ partition, (partition + rotation) mod world_size) <$> seqZ 0 world_size in
      let ordered_result := fill_runs (replicate (length ordered) 0)
        (zip partitions (zip boundaries (drop 1 boundaries))) in
      mret (scatter order ordered_result (length ds))
  end.

(** [active[-1:]] dropped: all ranks but the last. *)
Definition butlast {A} (l : list A) : list A := take (length l - 1) l.

(** [for r in ranks: cumulative += weights[r]; target = total * cumulative / total_weight] *)
Fixpoint weighted_targets (total : Z) (total_weight cumulative : spec_float) (weights : list spec_float)
    : list (res spec_float) :=
  match weights with
  | [] => []
  | w :: ws =>
      let cumulative := fadd cumulative w in
      (t ← as_float total; float_truediv (fmul t cumulative) total_weight)
      :: weighted_targets total total_weight cumulative ws
  end.

Section weights.
Variable fsum : list spec_float → spec_float.

(** [_weighted_owners] *)
Definition weighted_owners (ds : list SafetensorDescriptor) (rank_weights : list spec_float) (rotation : Z)
    (physical_order : bool) : res (list Z) :=
  let world_size := Z.of_nat (length rank_weights) in
  _ ← raise_if ((world_size <=? 0) || existsb (λ w, SFleb w fzero) rank_weights)
      ValueError "recovery rank I/O weights must be positive";
  match ds with
  | [] => mret []
  | _ =>
      let order := owner_order physical_order ds in
      let ordered := omap (λ i, ds !! i) order in
      let total := zsum (lengths_of ordered) in
      let prefix := prefix_sums 0 (lengths_of ordered) in
      let rank_order := (λ index, (index + rotation) mod world_size) <$> seqZ 0 world_size in
      let total_weight := fsum rank_weights in
      inner ← boundaries_loop prefix 0
        (weighted_targets total total_weight fzero (omap (λ r, rank_weights !! Z.to_nat r) (butlast rank_order)));
      let boundaries := [0%nat] ++ inner ++ [length ordered] in
      let ordered_result := fill_runs (replicate (length ordered) 0)
        (zip rank_order (zip boundaries (drop 1 boundaries))) in
      mret (scatter order ordered_result (length ds))
  end.

(** [max(0.0, level * weight - assigned)] for every rank. *)
Definition room (level : spec_float) (weight assigned : spec_float) : spec_float :=
  fmax fzero (fsub (fmul level weight) assigned).
Definition rooms (level : spec_float) (weights assigned : list spec_float) : list spec_float :=
  zip_with (room level) weights assigned.

Fixpoint bisect_level (rounds : nat) (weights assigned : list spec_float) (additional : Z)
    (lower upper : spec_float) : spec_float :=
  match rounds with
  | O => upper
  | S rounds' =>
      let middle := SFdiv prec emax (fadd lower upper) (float_of_decimal false 2 0) in
      if float_lt_int (fsum (rooms middle weights assigned)) additional
      then bisect_level rounds' weights assigned additional middle upper
      else bisect_level rounds' weights assigned additional lower middle
  end.

Definition fmin_list (l : list spec_float) : spec_float :=
  match l with [] => fzero | x :: r => foldl fmin x r end.
Definition fmax_list (l : list spec_float) : spec_float :=
  match l with [] => fzero | x :: r => foldl fmax x r end.

(** [_capacity_aware_additions] *)
Definition capacity_aware_additions (rank_weights : list spec_float) (assigned_bytes : list Z)
    (additional_bytes : Z) : res (list spec_float) :=
  _ ← raise_if (bool_decide (rank_weights = []) || negb (length rank_weights =? length assigned_bytes)%nat
                || existsb (λ w, SFleb w fzero) rank_weights || existsb (λ v, v <? 0) assigned_bytes
                || (additional_bytes <? 0)) ValueError "recovery capacity inputs are invalid";
  if additional_bytes =? 0 then mret ((λ _, fzero) <$> rank_weights) else
  assigned ← mapM as_float assigned_bytes;
  levels ← mapM (λ p, float_truediv p.1 p.2) (zip assigned rank_weights);
  all_bytes ← as_float (zsum assigned_bytes + additional_bytes);
  full ← float_truediv all_bytes (fmin_list rank_weights);
  let lower := fmin_list levels in
  let upper := fmax full (fmax_list levels) in
  let additions := rooms (bisect_level 80 rank_weights assigned additional_bytes lower upper) rank_weights assigned in
  additional ← as_float additional_bytes;
  scale ← float_truediv additional (fsum additions);
  mret ((λ value, fmul value scale) <$> additions).

(** [_targeted_owners] *)
Definition targeted_owners (ds : list SafetensorDescriptor) (targets : list spec_float) (rotation : Z)
    : res (list Z) :=
  _ ← raise_if (bool_decide (targets = []) || existsb (λ v, SFltb v fzero) targets
                || negb (existsb (λ v, negb (SFeqb v fzero)) targets))
      ValueError "recovery owner targets must include positive capacity";
  match ds with
  | [] => mret []
  | _ =>
      let world_size := Z.of_nat (length targets) in
      let target rank := from_option id fzero (targets !! Z.to_nat rank) in
      let active := sort_on (λ rank, (rank - rotation) mod world_size)
        (filter (λ rank, SFltb fzero (target rank) = true) (seqZ 0 world_size)) in
      let total := zsum (lengths_of ds) in
      let target_total := fsum (target <$> active) in
      let prefix := prefix_sums 0 (lengths_of ds) in
      inner ← boundaries_loop prefix 0
        (weighted_targets total target_total fzero (target <$> butlast active));
      let boundaries := [0%nat] ++ inner ++ [length ds] in
      final ← of_option IndexError "list index out of range" (last active);
      mret (fill_runs (replicate (length ds) final) (zip active (zip boundaries (drop 1 boundaries))))
  end.
End weights.

(** ** Staging layout *)

(** A device tensor of bytes: its address and length. *)
Notation span := (Z * Z)%type (only parsing).

(** [_owner_layout]: bytes per rank, and the offset of each descriptor in the buffer of
    its owner. *)
Fixpoint owner_layout_loop (world_size : Z) (sizes : list Z) (rows : list (SafetensorDescriptor * Z))
    : res (list Z * list Z) :=
  match rows with
  | [] => mret (sizes, [])
  | (d, owner) :: rows' =>
      _ ← raise_if ((owner <? 0) || (world_size <=? owner))
          ValueError "recovery tensor owner is outside the TP group";
      size ← of_option IndexError "list index out of range" (sizes !! Z.to_nat owner);
      '(sizes', offsets) ← owner_layout_loop world_size (<[ Z.to_nat owner := size + d_length d ]> sizes) rows';
      mret (sizes', size :: offsets)
  end.
Definition owner_layout (ds : list SafetensorDescriptor) (owners : list Z) (world_size : Z) : res (list Z * list Z) :=
  _ ← raise_if (negb (length ds =? length owners)%nat) ValueError "recovery owner layout length mismatch";
  owner_layout_loop world_size (replicate (Z.to_nat world_size) 0) (zip ds owners).

(** [_descriptor_batches], the generator's output as a list. *)
Fixpoint batches_loop (max_bytes : Z) (file_names : list pystr) (index start : nat) (batch_bytes : Z)
    (ds : list SafetensorDescriptor) : list (nat * nat) :=
  match ds with
  | [] => if (start <? index)%nat then [(start, index)] else []
  | d :: ds' =>
      if bool_decide (d_name d ∈ file_names) then
        (if (start <? index)%nat then [(start, index)] else [])
        ++ (index, S index) :: batches_loop max_bytes file_names (S index) (S index) 0 ds'
      else if (start <? index)%nat && (max_bytes <? batch_bytes + d_length d) then
        (start, index) :: batches_loop max_bytes file_names (S index) index (0 + d_length d) ds'
      else batches_loop max_bytes file_names (S index) start (batch_bytes + d_length d) ds'
  end.
Definition descriptor_batches (ds : list SafetensorDescriptor) (max_bytes : Z) (file_names : list pystr)
    : res (list (nat * nat)) :=
  _ ← raise_if (max_bytes <=? 0) ValueError "recovery staging bytes must be positive";
  mret (batches_loop max_bytes file_names 0 0 0 ds).

(** [_storage_views]: the slices of the slab, as offset and length. *)
Fixpoint views_loop (ds : list SafetensorDescriptor) (offset : Z) (views : list span) (order : list nat) : list span :=
  match order with
  | [] => views
  | i :: order' =>
      let n := from_option d_length 0 (ds !! i) in
      views_loop ds (offset + n) (<[ i := (offset, n) ]> views) order'
  end.
Definition storage_views (slab : span) (ds : list SafetensorDescriptor) (physical_order : bool) : res (list span) :=
  _ ← raise_if (negb (slab.2 =? zsum (lengths_of ds))) ValueError "recovery staging slab has the wrong size";
  mret ((λ v : span, (slab.1 + v.1, v.2))
        <$> views_loop ds 0 (replicate (length ds) (0, 0)) (owner_order physical_order ds)).

(** ** Extents *)

(** [zip(..., strict=True)] of three columns. *)
Definition zip3 {A B C} (xs : list A) (ys : list B) (zs : list C) : list (A * B * C) := zip (zip xs ys) zs.
Definition strict_lengths (n m : nat) : res unit :=
  raise_if (negb (n =? m)%nat) ValueError "zip() arguments have different lengths".

(** A read of a descriptor into device memory. *)
Definition extent_at (off dst len : Z) : HydrationExtent := HExtent off dst len None None.

Definition continues (p : HydrationExtent) (item : SafetensorDescriptor * Z) : bool :=
  (h_file_offset p + h_length p =? d_file_offset item.1) && (destination p + h_length p =? item.2).
Definition extend_extent (p : HydrationExtent) (item : SafetensorDescriptor * Z) : res HydrationExtent :=
  HydrationExtent_new (extent_at (h_file_offset p) (destination p) (h_length p + d_length item.1)).
Definition new_extent (item : SafetensorDescriptor * Z) : res HydrationExtent :=
  HydrationExtent_new (extent_at (d_file_offset item.1) item.2 (d_length item.1)).

(** [_coalesced_extents]; [tensors] are addressed by their first byte. *)
Definition coalesced_extents (ds : list SafetensorDescriptor) (pointers : list Z) (owners : list Z) (rank : Z)
    (coalesce_adjacent : bool) : res (list HydrationExtent) :=
  _ ← strict_lengths (length ds) (length pointers);
  _ ← strict_lengths (length ds) (length owners);
  let selected := fst <$> filter (λ row, row.2 = rank ∧ 0 < d_length row.1.1) (zip3 ds pointers owners) in
  let selected := if coalesce_adjacent then sort_on (λ item : SafetensorDescriptor * Z, d_file_offset item.1) selected
                  else selected in
  coalesce (λ p item, coalesce_adjacent && continues p item) extend_extent new_extent [] selected.

(** One step of [_split_direct_extents]: the direct and the buffered pieces. *)
Definition split_extent (e : HydrationExtent) (aligned_start aligned_end : Z)
    : res (list HydrationExtent * list HydrationExtent) :=
  let start := h_file_offset e in
  let end_ := start + h_length e in
  if aligned_end <=? aligned_start then mret ([], [e]) else
  head ← (if start <? aligned_start
          then x ← HydrationExtent_new (extent_at start (destination e) (aligned_start - start)); mret [x]
          else mret []);
  body ← HydrationExtent_new (extent_at aligned_start (destination e + aligned_start - start) (aligned_end - aligned_start));
  tail ← (if aligned_end <? end_
          then x ← HydrationExtent_new (extent_at aligned_end (destination e + aligned_end - start) (end_ - aligned_end)); mret [x]
          else mret []);
  mret ([body], head ++ tail).

Definition concat_pairs {A B} (l : list (list A * list B)) : list A * list B := (concat l.*1, concat l.*2).

Definition split_direct_extents (extents : list HydrationExtent) (alignment : Z)
    : res (list HydrationExtent * list HydrationExtent) :=
  _ ← raise_if ((alignment <=? 0) || negb (Z.land alignment (alignment - 1) =? 0))
      ValueError "recovery direct alignment must be a power of two";
  parts ← mapM (λ e, split_extent e
    (Z.land (h_file_offset e + alignment - 1) (- alignment))
    (Z.land (h_file_offset e + h_length e) (- alignment))) extents;
  mret (concat_pairs parts).

(** ** Broadcasting a staging slab *)

(** [_global_source_rank]: [resolver] is [get_global_rank] of the torch release, when it
    has it. *)
Definition global_source_rank (resolver : option (Z → res Z)) (world_size group_size group_rank : Z) : res Z :=
  match resolver with
  | Some r => r group_rank
  | None =>
      _ ← raise_if (negb (world_size =? group_size)) RuntimeError "torch cannot resolve a subgroup rank";
      mret group_rank
  end.

(** A region of the slab and the rank that holds its bytes. *)
Record region := Region { rg_pointer : Z; rg_length : Z; rg_owner : Z }.

Definition row_leb : Z * Z * Z → Z * Z * Z → bool := pair_leb (pair_leb Z.leb Z.leb) Z.leb.

Definition check_row (slab : span) (row : Z * Z * Z) : res unit :=
  let '(pointer, len, _) := row in
  raise_if ((pointer <? slab.1) || (slab.1 + slab.2 <? pointer + len))
    ValueError "recovery tensor storage lies outside staging slab".
Definition region_continues (p : region) (row : Z * Z * Z) : bool :=
  let '(pointer, _, owner) := row in (rg_owner p =? owner) && (rg_pointer p + rg_length p =? pointer).
Definition new_region (slab : span) (row : Z * Z * Z) : res region :=
  _ ← check_row slab row; let '(pointer, len, owner) := row in mret (Region pointer len owner).
Definition extend_region (slab : span) (p : region) (row : Z * Z * Z) : res region :=
  _ ← check_row slab row; let '(_, len, owner) := row in mret (Region (rg_pointer p) (rg_length p + len) owner).

(** One [broadcast]: the slice of the slab and the global source rank. *)
Record broadcast := Broadcast { b_start : Z; b_end : Z; b_source : Z }.

Fixpoint chunk_loop (fuel : nat) (max_chunk_bytes offset region_end source : Z) : list broadcast :=
  match fuel with
  | O => []
  | S fuel' =>
      if offset <? region_end then
        let chunk_end := Z.min (offset + max_chunk_bytes) region_end in
        Broadcast offset chunk_end source :: chunk_loop fuel' max_chunk_bytes chunk_end region_end source
      else []
  end.

(** [_broadcast_slab_regions]: the collectives it issues, whose count it returns. The
    fuel is the length of the region: every round moves at least one byte. *)
Definition broadcast_slab_regions (source_rank : Z → res Z) (slab : span) (storages : list span)
    (owners : list Z) (max_chunk_bytes : Z) : res (list broadcast) :=
  _ ← raise_if (negb (length storages =? length owners)%nat) ValueError "recovery broadcast layout length mismatch";
  _ ← raise_if (max_chunk_bytes <=? 0) ValueError "recovery broadcast chunk size must be positive";
  let rows := py_sorted row_leb (filter (λ row : Z * Z * Z, 0 < row.1.2) (zip storages owners)) in
  regions ← coalesce region_continues (extend_region slab) (new_region slab) [] rows;
  calls ← mapM (λ r,
    source ← source_rank (rg_owner r);
    let offset := rg_pointer r - slab.1 in
    mret (chunk_loop (Z.to_nat (rg_length r)) max_chunk_bytes offset (offset + rg_length r) source)) regions;
  mret (concat calls).
