(* ===== verification/RecoverySpec.v ===== *)
(** * Recovery loader: correctness of the plans

    Descriptors taken from a checkpoint never overlap and stay inside the file; ranks
    own contiguous runs of the division order; batches, staging views and extents carry
    every byte once; the broadcast of a slab delivers each storage from its owner. *)

From Stdlib Require Import SpecFloat.
From S2P Require Import Prelude Ranges PyFloat PyJson Hydration HydrationSpec Recovery.

(** ** Shapes *)

Definition product (shape : list Z) : Z := foldr Z.mul 1 shape.

Lemma product_app a b : product (a ++ b) = product a * product b.
Proof. unfold product. induction a as [|x a IH]; cbn [app foldr]; [lia|]. rewrite IH. lia. Qed.

Lemma product_pos shape : Forall (λ d, 0 < d) shape → 0 < product shape.
Proof. induction 1 as [|d l Hd _ IH]; unfold product in *; cbn; nia. Qed.

Lemma elements_loop_spec elements shape n : 0 <= elements <= MAX_INT64 → elements_loop elements shape = Ok n →
  Forall (λ d, 0 <= d) shape ∧ n = elements * product shape ∧ 0 <= n <= MAX_INT64.
Proof.
  revert elements. induction shape as [|d shape IH]; intros elements He E; cbn in E; res_inv.
  - unfold product. cbn. split; [constructor|lia].
  - guards. apply andb_false_iff in H0. assert (0 <= elements * d <= MAX_INT64) as Hd.
    { bools. destruct H0 as [H0|H0]; guards; bools; [subst; lia|].
      destruct (decide (d = 0)) as [->|]; [lia|]. split; [lia|].
      etransitivity; [apply Z.mul_le_mono_nonneg_r; [lia|exact H0]|].
      rewrite Z.mul_comm. apply Z.mul_div_le. lia. }
    apply IH in E as (? & -> & ?); [|done]. bools.
    split; [by constructor|]. unfold product in *. cbn. lia.
Qed.

Lemma checked_elements_spec shape n : checked_elements shape = Ok n →
  Forall (λ d, 0 <= d) shape ∧ n = product shape ∧ 0 <= n <= MAX_INT64.
Proof.
  intros (? & -> & ?)%elements_loop_spec; [|unfold MAX_INT64; lia].
  rewrite Z.mul_1_l in *. done.
Qed.

(** ** Descriptors of a safetensors file *)

Definition d_range (d : SafetensorDescriptor) : list Z := seqZ (d_file_offset d) (d_length d).
Definition t_range (t : tensor_range) : list Z := seqZ (t_start t) (t_end t - t_start t).

Lemma overlap_loop_NoDup previous l : Forall (λ t, t_start t <= t_end t) l → overlap_loop previous l = Ok tt →
  NoDup (concat (t_range <$> l)) ∧ Forall (λ z, previous <= z) (concat (t_range <$> l)).
Proof.
  intros Hl. revert previous. induction Hl as [|t l Ht _ IH]; intros previous E; cbn in E; res_inv.
  { csimpl. split; constructor. }
  apply IH in E as [HN HF]. bools. csimpl. split.
  - apply NoDup_app. split_and!; [apply NoDup_seqZ| |done].
    intros z Hz. rewrite Forall_forall in HF. intros Hin%HF. apply elem_of_seqZ in Hz. lia.
  - apply Forall_app. split.
    + apply Forall_forall. intros z Hz%elem_of_seqZ. lia.
    + eapply Forall_impl; [exact HF|]. cbn. lia.
Qed.

Lemma tensor_metadata_inv name raw t : tensor_metadata name raw = Some t →
  t_name t = name ∧ is_Some (assoc (t_dtype t) DTYPE_ATTRIBUTES).
Proof.
  unfold tensor_metadata. generalize DTYPE_ATTRIBUTES as table. intros table E.
  destruct (jget "dtype" raw) as [[]|]; try done. destruct (jget "shape" raw) as [[]|]; try done.
  destruct (jget "data_offsets" raw) as [[]|]; try done.
  apply bind_Some in E as (a & Ha & E). apply bind_Some in E as (sh & _ & E).
  apply bind_Some in E as (offs & _ & E). destruct offs as [|? [|? []]]; try done.
  injection E as <-. cbn. eauto.
Qed.

Lemma tensor_entry_inv data_offset file_bytes item t : tensor_entry data_offset file_bytes item = Ok t →
  t_name t = item.1 ∧ t_name t ≠ [] ∧ is_Some (assoc (t_dtype t) DTYPE_ATTRIBUTES)
  ∧ 0 <= t_start t <= t_end t ∧ data_offset + t_end t <= file_bytes.
Proof.
  destruct item as [name raw]. unfold tensor_entry. intros E. res_inv. guards. bools.
  match goal with H : tensor_metadata _ _ = _ |- _ => apply tensor_metadata_inv in H as [<- ?] end.
  split_and!; (done || lia).
Qed.

Lemma header_offset decode content data_offset header :
  read_safetensors_header decode content = Ok (data_offset, header) → 8 < data_offset.
Proof.
  unfold read_safetensors_header. intros E. res_inv. guards. bools. case_match; res_inv; try done.
  simplify_eq. lia.
Qed.

(** Tensors taken from a checkpoint are well placed: when [_descriptors] accepts a
    file, no two descriptors share a byte, each lies after the header and inside the
    file, has a known dtype and a non-empty name, and is one the index assigns to this
    file and the prefixes select. *)
Theorem descriptors_sound decode content file_bytes path indexed prefixes ds :
  descriptors decode content file_bytes path indexed prefixes = Ok ds →
  NoDup (concat (d_range <$> ds))
  ∧ Forall (λ d, 8 < d_file_offset d ∧ 0 <= d_length d ∧ d_file_offset d + d_length d <= file_bytes
       ∧ d_name d ≠ [] ∧ is_Some (assoc (d_dtype_name d) DTYPE_ATTRIBUTES)
       ∧ (∀ files, indexed = Some files → assoc (d_name d) files = Some path)
       ∧ matches_prefix (d_name d) prefixes = true) ds.
Proof.
  unfold descriptors. intros E. res_inv. destruct x as [data_offset header]. res_inv.
  rename H into Hh, H0 into Hm, H1 into Ho. apply header_offset in Hh. apply mapM_Ok in Hm.
  set (sel := filter _ x) in *.
  set (result := descriptor_of data_offset <$> sel) in *.
  match goal with |- NoDup (concat (d_range <$> ?k)) ∧ _ =>
    assert (k ≡ₚ result) as Hk by (destruct indexed; apply py_sorted_perm) end.
  assert (Forall (λ t, t_name t ≠ [] ∧ is_Some (assoc (t_dtype t) DTYPE_ATTRIBUTES)
     ∧ 0 <= t_start t <= t_end t ∧ data_offset + t_end t <= file_bytes) x) as Hx.
  { clear -Hm. induction Hm as [|item t l l' Ht _ IH]; constructor; [|done]. apply tensor_entry_inv in Ht. naive_solver. }
  split.
  - rewrite (concat_fmap_perm d_range _ _ Hk). unfold result. rewrite <- list_fmap_compose.
    destruct x0. apply overlap_loop_NoDup in Ho as [HN _].
    2:{ rewrite py_sorted_perm. eapply Forall_impl; [exact Hx|]. naive_solver lia. }
    rewrite (concat_fmap_perm t_range _ _ (py_sorted_perm _ _)) in HN.
    apply (concat_fmap_filter_NoDup _ (λ t, tensor_selected path indexed prefixes t = true)) in HN. fold sel in HN.
    assert (concat (compose d_range (descriptor_of data_offset) <$> sel) = Z.add data_offset <$> concat (t_range <$> sel)) as ->.
    { clear. induction sel as [|t l IH]; csimpl; [done|]. rewrite fmap_app, <- IH. f_equal.
      unfold d_range, t_range. cbn. by rewrite <- fmap_add_seqZ. }
    apply NoDup_fmap_2; [intros ?? ?; lia|done].
  - rewrite Hk. unfold result, sel. apply Forall_fmap, Forall_forall. intros t [Hs Ht]%list_elem_of_filter. cbn.
    rewrite Forall_forall in Hx. destruct (Hx t Ht) as (? & ? & ? & ?).
    unfold tensor_selected in Hs. apply andb_true_iff in Hs as [Hi Hp].
    split_and!; try done; try lia. intros files ->. by apply bool_decide_eq_true in Hi.
Qed.

(** ** Owners *)

Lemma min_loop_elem prefix target best l n : min_loop prefix target best l = Ok n → n = best.2 ∨ n ∈ l.
Proof.
  revert best. induction l as [|i l IH]; intros best E; cbn in E; res_inv; [by left|].
  apply IH in E as [->|?]; [|set_solver]. unfold boundary_key in *. res_inv. cbn.
  destruct (key_ltb _ _); cbn; set_solver.
Qed.

Lemma nearest_boundary_range prefix lower target b : nearest_boundary prefix lower target = Ok b →
  (lower <= b < length prefix)%nat.
Proof.
  unfold nearest_boundary. intros E. destruct (seq _ _) as [|i l] eqn:Es; [done|]. res_inv.
  assert (b ∈ i :: l) as Hb.
  { apply min_loop_elem in E. unfold boundary_key in *. res_inv. cbn in E. set_solver. }
  rewrite <- Es in Hb. apply elem_of_seq in Hb. lia.
Qed.

(** The boundaries ascend from [lower] and stay inside the prefix sums. *)
Fixpoint ascending (lower : nat) (bs : list nat) : Prop :=
  match bs with [] => True | b :: bs' => (lower <= b)%nat ∧ ascending b bs' end.

Lemma boundaries_loop_spec prefix lower targets bs : (lower < length prefix)%nat →
  boundaries_loop prefix lower targets = Ok bs →
  length bs = length targets ∧ ascending lower (bs ++ [(length prefix - 1)%nat]).
Proof.
  revert lower bs. induction targets as [|t ts IH]; intros lower bs Hl E; cbn in E; res_inv.
  { cbn. split; [done|]. lia. }
  match goal with H : nearest_boundary _ _ _ = _ |- _ => apply nearest_boundary_range in H as [? ?] end.
  match goal with H : boundaries_loop _ _ _ = _ |- _ => apply IH in H as [? ?]; [|done] end.
  cbn. split; [by f_equal|done].
Qed.

Lemma length_prefix_sums start l : length (prefix_sums start l) = S (length l).
Proof. revert start. induction l as [|n l IH]; intros start; cbn; [done|]. by rewrite IH. Qed.

(** The runs a list of boundaries gives to the owners. *)
Fixpoint run_lengths (lower : nat) (bs : list nat) : list nat :=
  match bs with [] => [] | b :: bs' => (b - lower)%nat :: run_lengths b bs' end.

Lemma length_run_lengths lower bs : length (run_lengths lower bs) = length bs.
Proof. revert lower. induction bs; intros; cbn; auto. Qed.

Lemma ascending_last lower bs c : ascending lower (bs ++ [c]) → (lower <= c)%nat.
Proof. revert lower. induction bs as [|b bs IH]; intros lower; cbn; [lia|]. intros [? ?%IH]. lia. Qed.

Lemma fill_slice_le l a b v : (a <= b <= length l)%nat →
  fill_slice l a b v = take a l ++ replicate (b - a) v ++ drop b l.
Proof. intros. unfold fill_slice. by rewrite Nat.max_r by lia. Qed.

Lemma fill_runs_spec os lower bs l : ascending lower (bs ++ [length l]) → length os = S (length bs) →
  fill_runs l (zip os (zip (lower :: bs ++ [length l]) (bs ++ [length l])))
  = take lower l ++ concat (zip_with replicate (run_lengths lower (bs ++ [length l])) os).
Proof.
  revert lower os l. induction bs as [|b bs IH]; intros lower [|o os] l Ha Ho; try done.
  - destruct os; [|done]. cbn in Ha. unfold fill_runs. cbn [app zip_with foldl fst snd run_lengths concat].
    rewrite fill_slice_le by lia.
    by rewrite drop_all, !app_nil_r.
  - cbn in Ha. destruct Ha as [Hb Ha]. pose proof (ascending_last _ _ _ Ha).
    set (l' := fill_slice l lower b o).
    assert (length l' = length l) as Hl'.
    { unfold l'. rewrite fill_slice_le by lia. rewrite !length_app, length_take, length_replicate, length_drop. lia. }
    change (fill_runs l' (zip os (zip (b :: bs ++ [length l]) (bs ++ [length l])))
      = take lower l ++ replicate (b - lower) o ++ concat (zip_with replicate (run_lengths b (bs ++ [length l])) os)).
    rewrite <- Hl' in Ha |- *. rewrite IH by (done || cbn in Ho; lia). rewrite app_assoc. f_equal.
    unfold l'. rewrite fill_slice_le by lia. rewrite app_assoc, take_app_length'; [done|].
    rewrite length_app, length_take, length_replicate. lia.
Qed.

(** Writing back through a permutation of the positions. *)
Lemma scatter_insert {A} (r : list A) order values i : i ∉ order →
  foldl (λ r p, <[ p.1 := p.2 ]> r) r (zip order values) !! i = r !! i.
Proof.
  revert r values. induction order as [|k order IH]; intros r [|v values] Hi; cbn; try done.
  rewrite IH by set_solver. rewrite list_lookup_insert_ne by set_solver. done.
Qed.

Lemma scatter_lookup {A} (r : list A) order values : NoDup order → length order = length values →
  Forall (λ i, (i < length r)%nat) order →
  (λ i, foldl (λ r p, <[ p.1 := p.2 ]> r) r (zip order values) !! i) <$> order = Some <$> values.
Proof.
  intros HN. revert r values. induction HN as [|k order Hk _ IH]; intros r [|v values] Hl HF; try done.
  inversion_clear HF as [|?? Hr HF']. csimpl. f_equal.
  - rewrite scatter_insert by done. by apply list_lookup_insert_eq.
  - apply IH; [cbn in Hl; lia|]. by rewrite length_insert.
Qed.

Lemma length_scatter {A} (r : list A) order values :
  length (foldl (λ r p, <[ p.1 := p.2 ]> r) r (zip order values)) = length r.
Proof.
  revert r values. induction order as [|k order IH]; intros r [|v values]; cbn; try done.
  by rewrite IH, length_insert.
Qed.

Lemma scatter_spec order values n : order ≡ₚ seq 0 n → length values = n →
  length (scatter order values n) = n ∧ (λ i, scatter order values n !! i) <$> order = Some <$> values.
Proof.
  intros Hp Hv. unfold scatter. rewrite length_scatter, length_replicate. split; [done|].
  apply scatter_lookup.
  - rewrite Hp. apply NoDup_seq.
  - by rewrite Hp, length_seq, Hv.
  - rewrite Hp. apply Forall_forall. intros i Hi%elem_of_seq. rewrite length_replicate. lia.
Qed.

Lemma owner_order_perm physical ds : owner_order physical ds ≡ₚ seq 0 (length ds).
Proof. unfold owner_order. destruct physical; [apply py_sorted_perm|done]. Qed.

Lemma length_ordered physical ds : length (omap (λ i, ds !! i) (owner_order physical ds)) = length ds.
Proof.
  assert (∀ order, Forall (λ i, (i < length ds)%nat) order → length (omap (λ i, ds !! i) order) = length order) as H.
  { induction 1 as [|i order Hi _ IH]; csimpl; [done|].
    apply lookup_lt_is_Some_2 in Hi as [d ->]. cbn. by rewrite IH. }
  rewrite H; [by rewrite owner_order_perm, length_seq|].
  rewrite owner_order_perm. apply Forall_forall. intros i Hi%elem_of_seq. lia.
Qed.

(** Read in [order], the result gives each of [ranks] one contiguous share. *)
Definition contiguous_shares (order : list nat) (result : list Z) (ranks : list Z) : Prop :=
  ∃ counts, length counts = length ranks
  ∧ (λ i, result !! i) <$> order = Some <$> concat (zip_with replicate counts ranks).

Lemma length_concat_runs lower bs n os : ascending lower (bs ++ [n]) → length os = S (length bs) →
  length (concat (zip_with replicate (run_lengths lower (bs ++ [n])) (os : list Z))) = (n - lower)%nat.
Proof.
  revert lower os. induction bs as [|b bs IH]; intros lower [|o os] Ha Ho; try done; cbn in Ha.
  - destruct os; [|done]. cbn. by rewrite length_app, length_replicate, Nat.add_0_r.
  - destruct Ha as [? Ha]. cbn. rewrite length_app, length_replicate, IH by (done || cbn in Ho; lia).
    apply ascending_last in Ha. lia.
Qed.

(** Cutting [n] items at ascending boundaries and filling the runs. *)
Lemma fill_all os inner n init : length init = n → ascending 0 (inner ++ [n]) → length os = S (length inner) →
  let boundaries := [0%nat] ++ inner ++ [n] in
  fill_runs init (zip os (zip boundaries (drop 1 boundaries)))
  = concat (zip_with replicate (run_lengths 0 (inner ++ [n])) os).
Proof.
  intros Hi Ha Ho. cbn [app drop]. rewrite <- Hi in Ha |- *. by rewrite fill_runs_spec.
Qed.

Lemma divide_spec physical ds os targets inner :
  let order := owner_order physical ds in
  let ordered := omap (λ i, ds !! i) order in
  boundaries_loop (prefix_sums 0 (lengths_of ordered)) 0 targets = Ok inner → length os = S (length targets) →
  let boundaries := [0%nat] ++ inner ++ [length ds] in
  let result := scatter order (fill_runs (replicate (length ds) 0)
    (zip os (zip boundaries (drop 1 boundaries)))) (length ds) in
  length result = length ds ∧ contiguous_shares order result os.
Proof.
  intros order ordered E Ho boundaries result.
  assert (length ordered = length ds) as Hn by apply length_ordered.
  apply boundaries_loop_spec in E as [Hi Ha].
  2:{ rewrite length_prefix_sums. lia. }
  rewrite length_prefix_sums in Ha. unfold lengths_of in Ha. rewrite length_fmap, Nat.sub_succ, Nat.sub_0_r, Hn in Ha.
  assert (length os = S (length inner)) as Ho' by lia.
  unfold result, boundaries. rewrite fill_all by (done || by rewrite length_replicate).
  destruct (scatter_spec order (concat (zip_with replicate (run_lengths 0 (inner ++ [length ds])) os)) (length ds))
    as [Hl Hs]; [apply owner_order_perm|rewrite length_concat_runs by done; lia|].
  split; [done|]. eexists. split; [|exact Hs]. rewrite length_run_lengths, length_app. cbn. lia.
Qed.

Lemma empty_shares ranks : contiguous_shares [] [] ranks.
Proof.
  exists (replicate (length ranks) 0%nat). rewrite length_replicate. split; [done|].
  induction ranks as [|r ranks IH]; cbn; [done|]. exact IH.
Qed.

Lemma owner_order_nil physical : owner_order physical [] = [].
Proof. by destruct physical. Qed.

Lemma owners_shares ds world_size rotation physical result :
  owners ds world_size rotation physical = Ok result →
  length result = length ds
  ∧ contiguous_shares (owner_order physical ds) result ((λ p, (p + rotation) mod world_size) <$> seqZ 0 world_size).
Proof.
  unfold owners. intros E. res_inv. bools. destruct ds as [|d ds].
  { res_inv. rewrite owner_order_nil. split; [done|]. apply empty_shares. }
  set (all := d :: ds) in *. res_inv. rewrite length_ordered.
  eapply divide_spec; [eassumption|]. rewrite !length_fmap, !length_seqZ. lia.
Qed.

(** Owners take contiguous shares: [_owners] gives every descriptor one owner; in
    physical order the owners form one run per rank, in the rotated rank order, and no
    rank outside the group appears. *)
Theorem owners_contiguous ds world_size rotation physical result :
  owners ds world_size rotation physical = Ok result →
  length result = length ds
  ∧ contiguous_shares (owner_order physical ds) result ((λ p, (p + rotation) mod world_size) <$> seqZ 0 world_size).
Proof. apply owners_shares. Qed.

Lemma length_butlast {A} (l : list A) : length (butlast l) = (length l - 1)%nat.
Proof. unfold butlast. rewrite length_take. lia. Qed.

Lemma length_weighted_targets total tw c ws : length (weighted_targets total tw c ws) = length ws.
Proof. revert c. induction ws as [|w ws IH]; intros c; cbn; [done|]. by rewrite IH. Qed.

Lemma weighted_owners_contiguous fsum ds weights rotation physical result :
  weighted_owners fsum ds weights rotation physical = Ok result →
  length result = length ds
  ∧ contiguous_shares (owner_order physical ds) result
      ((λ p, (p + rotation) mod Z.of_nat (length weights)) <$> seqZ 0 (Z.of_nat (length weights))).
Proof.
  unfold weighted_owners. intros E. res_inv. guards. bools. destruct ds as [|d ds].
  { res_inv. rewrite owner_order_nil. split; [done|]. apply empty_shares. }
  set (all := d :: ds) in *. res_inv. rewrite length_ordered.
  eapply divide_spec; [eassumption|]. rewrite length_weighted_targets.
  set (ranks := (λ p, (p + rotation) mod Z.of_nat (length weights)) <$> seqZ 0 (Z.of_nat (length weights))).
  assert (Forall (λ r, 0 <= r < Z.of_nat (length weights)) (butlast ranks)) as HF.
  { unfold butlast. apply Forall_take. unfold ranks. apply Forall_fmap, Forall_forall. intros p _. cbn. apply Z.mod_pos_bound. lia. }
  assert (length (omap (λ r, weights !! Z.to_nat r) (butlast ranks)) = length (butlast ranks)) as ->.
  { induction HF as [|r l Hr _ IH]; csimpl; [done|].
    destruct (lookup_lt_is_Some_2 weights (Z.to_nat r)) as [w ->]; [lia|]. cbn. by rewrite IH. }
  rewrite length_butlast. unfold ranks. rewrite length_fmap, length_seqZ. lia.
Qed.

Lemma targeted_owners_contiguous fsum ds targets rotation result :
  targeted_owners fsum ds targets rotation = Ok result → length result = length ds
  ∧ ∃ active, contiguous_shares (seq 0 (length ds)) result active
    ∧ Forall (λ r, 0 <= r < Z.of_nat (length targets)) active.
Proof.
  unfold targeted_owners. intros E. res_inv. guards. destruct ds as [|d ds].
  { res_inv. split; [done|]. exists []. split; [apply empty_shares|constructor]. }
  set (all := d :: ds) in *. res_inv. set (active := py_sorted _ _) in *.
  match goal with H : boundaries_loop _ _ _ = Ok ?b |- _ => rename H into Hb, b into inner end.
  match goal with H : last active = Some ?f |- _ => rename H into Hf, f into final end.
  assert (active ≠ []) as Hne by (by destruct active).
  apply boundaries_loop_spec in Hb as [Hi Ha].
  2:{ rewrite length_prefix_sums. lia. }
  rewrite length_prefix_sums in Ha. unfold lengths_of in Ha. rewrite length_fmap, Nat.sub_succ, Nat.sub_0_r in Ha.
  rewrite length_weighted_targets, length_fmap, length_butlast in Hi.
  assert (length active = S (length inner)) as Ho by (destruct active; [done|]; cbn in *; lia).
  set (R := fill_runs _ _).
  assert (R = concat (zip_with replicate (run_lengths 0 (inner ++ [length all])) active)) as ->.
  { by apply (fill_all active inner (length all) (replicate (length all) final)); [rewrite length_replicate|..]. }
  assert (length (concat (zip_with replicate (run_lengths 0 (inner ++ [length all])) active)) = length all) as Hl.
  { rewrite length_concat_runs by done. lia. }
  split; [done|]. exists active. split.
  - exists (run_lengths 0 (inner ++ [length all])). split; [rewrite length_run_lengths, length_app; cbn; lia|].
    rewrite <- Hl at 1. generalize (concat (zip_with replicate (run_lengths 0 (inner ++ [length all])) active)) as l.
    clear. intros l. apply list_eq. intros i. rewrite !list_lookup_fmap.
    destruct (decide (i < length l)%nat) as [Hi|Hi].
    + rewrite lookup_seq_lt by done. cbn. by destruct (lookup_lt_is_Some_2 l i Hi) as [v ->].
    + rewrite (lookup_ge_None_2 l i) by lia. rewrite lookup_seq_ge by lia. done.
  - unfold active. rewrite py_sorted_perm. apply Forall_forall. intros r [_ Hr%elem_of_seqZ]%list_elem_of_filter. lia.
Qed.

(** ** Staging layout *)

Lemma shares_Forall P order result ranks : order ≡ₚ seq 0 (length result) → contiguous_shares order result ranks →
  Forall P ranks → Forall P result.
Proof.
  intros Hp (counts & _ & E) HP. apply Forall_forall. intros v [i Hi]%list_elem_of_lookup_1.
  assert (i ∈ order) as Ho.
  { rewrite Hp. apply elem_of_seq. apply lookup_lt_Some in Hi. lia. }
  assert (Some v ∈ ((λ i, result !! i) <$> order)) as Hv by (apply list_elem_of_fmap; by exists i).
  rewrite E in Hv. apply list_elem_of_fmap in Hv as (w & [= <-] & Hw). clear -Hw HP.
  revert counts Hw. induction HP as [|r ranks Hr _ IH]; intros [|c counts] Hw; cbn in Hw; try set_solver.
  apply elem_of_app in Hw as [Hw|Hw]; [|by eapply IH]. by apply elem_of_replicate in Hw as [-> _].
Qed.

(** The bytes of one rank's buffer that a layout fills. *)
Definition buffer_of (rank : Z) (rows : list (SafetensorDescriptor * Z * Z)) : list Z :=
  concat ((λ row, seqZ row.2 (d_length row.1.1)) <$> filter (λ row, row.1.2 = rank) rows).

Lemma owner_layout_loop_spec ws rows sizes sizes' offsets rank :
  Forall (λ row, 0 <= d_length row.1) rows → Forall (λ z, 0 <= z) sizes →
  owner_layout_loop ws sizes rows = Ok (sizes', offsets) → 0 <= rank →
  length offsets = length rows ∧ length sizes' = length sizes
  ∧ ∀ a b, sizes !! Z.to_nat rank = Some a → sizes' !! Z.to_nat rank = Some b →
    a <= b ∧ buffer_of rank (zip rows offsets) = seqZ a (b - a).
Proof.
  intros HF. revert sizes sizes' offsets. induction HF as [|[d o] rows Hd _ IH]; intros sizes sizes' offsets Hs E Hr;
    cbn in E; res_inv.
  { split_and!; try done. intros a b -> [= ->]. rewrite Z.sub_diag. split; [lia|done]. }
  destruct x1 as [sz offs]. res_inv. simplify_eq.
  guards. bools. cbn in Hd.
  match goal with H : sizes !! _ = _ |- _ => rename H into Hl end.
  match goal with H : owner_layout_loop _ _ _ = _ |- _ => rename H into Hrec end.
  assert (0 <= x0) as Hx by (rewrite Forall_forall in Hs; by apply Hs, list_elem_of_lookup_2 with (i := Z.to_nat o)).
  apply IH in Hrec as (HLo & HLs & Hrest); [|by apply Forall_insert; [|lia]|done].
  rewrite length_insert in HLs. split_and!; [cbn; lia|done|]. intros a b Ha Hb.
  unfold buffer_of. cbn [zip zip_with]. rewrite filter_cons. cbn [fst snd].
  destruct (decide (o = rank)) as [->|Hne].
  - rewrite Hl in Ha. injection Ha as <-.
    destruct (Hrest (x0 + d_length d) b) as [? Hbuf]; [|done|].
    { apply list_lookup_insert_eq. by eapply lookup_lt_Some. }
    split; [lia|]. csimpl. unfold buffer_of in Hbuf. rewrite Hbuf.
    replace (b - x0) with (d_length d + (b - (x0 + d_length d))) by lia. by rewrite seqZ_app by lia.
  - apply (Hrest a b); [|done]. rewrite list_lookup_insert_ne by lia. done.
Qed.

(** [_owner_layout] packs each rank's buffer tightly: the descriptors a rank owns get
    consecutive, non-overlapping offsets that fill exactly the bytes it must allocate. *)
Theorem owner_layout_tiles ds owners world_size sizes offsets : Forall (λ d, 0 <= d_length d) ds →
  owner_layout ds owners world_size = Ok (sizes, offsets) →
  length offsets = length ds ∧ length sizes = Z.to_nat world_size
  ∧ ∀ rank bytes, 0 <= rank → sizes !! Z.to_nat rank = Some bytes →
    buffer_of rank (zip3 ds owners offsets) = seqZ 0 bytes.
Proof.
  intros HF E. unfold owner_layout in E. res_inv. guards. apply Nat.eqb_eq in H.
  assert (Forall (λ row, 0 <= d_length row.1) (zip ds owners)) as HF'.
  { apply Forall_forall. intros [d o] Hin%elem_of_zip_l. rewrite Forall_forall in HF. by apply HF. }
  assert (length (zip ds owners) = length ds) as Hz by (rewrite length_zip; lia).
  assert (Forall (λ z, 0 <= z) (replicate (Z.to_nat world_size) 0)) as Hs by (apply Forall_replicate; lia).
  split_and!.
  - destruct (owner_layout_loop_spec _ _ _ _ _ 0 HF' Hs E) as (? & _); lia.
  - destruct (owner_layout_loop_spec _ _ _ _ _ 0 HF' Hs E) as (_ & Hl & _); [lia|]. by rewrite length_replicate in Hl.
  - intros rank bytes Hr Hb. destruct (owner_layout_loop_spec _ _ _ _ _ rank HF' Hs E Hr) as (_ & Hl & Hall).
    rewrite length_replicate in Hl. destruct (Hall 0 bytes) as [_ Hbuf]; [|done|unfold zip3; by rewrite Hbuf, Z.sub_0_r].
    apply lookup_replicate_2. rewrite <- Hl. by eapply lookup_lt_Some.
Qed.

(** *** Batches *)

Definition batch (ds : list SafetensorDescriptor) (b : nat * nat) : list SafetensorDescriptor :=
  take (b.2 - b.1) (drop b.1 ds).
Definition batch_ok (ds : list SafetensorDescriptor) (max_bytes : Z) (file_names : list pystr) (b : nat * nat) : Prop :=
  (b.1 < b.2)%nat
  ∧ (b.2 = S b.1 ∨ zsum (lengths_of (batch ds b)) <= max_bytes ∧ Forall (λ d, d_name d ∉ file_names) (batch ds b)).

Lemma batch_snoc pre d ds a : (a <= length pre)%nat →
  batch (pre ++ d :: ds) (a, S (length pre)) = batch (pre ++ d :: ds) (a, length pre) ++ [d].
Proof.
  intros Ha. unfold batch. cbn [fst snd]. rewrite drop_app_le by done.
  assert (length (drop a pre) = (length pre - a)%nat) as Hl by apply length_drop.
  rewrite Nat.sub_succ_l, <- Hl by done. rewrite take_app_length.
  change (S (length (drop a pre))) with (1 + length (drop a pre))%nat. rewrite Nat.add_comm, take_app_add'; done.
Qed.

Lemma batches_loop_spec max names pre ds start bytes : 0 <= max → (start <= length pre)%nat →
  bytes = zsum (lengths_of (batch (pre ++ ds) (start, length pre))) →
  ((length pre <= S start)%nat ∨ bytes <= max) →
  Forall (λ d, d_name d ∉ names) (batch (pre ++ ds) (start, length pre)) →
  concat ((λ b, seq b.1 (b.2 - b.1)) <$> batches_loop max names (length pre) start bytes ds)
  = seq start (length pre + length ds - start)
  ∧ Forall (batch_ok (pre ++ ds) max names) (batches_loop max names (length pre) start bytes ds).
Proof.
  intros Hmax. revert pre start bytes. induction ds as [|d ds IH]; intros pre start bytes Hs Hb Hle Hn; cbn [batches_loop].
  all: match goal with |- _ ∧ Forall (batch_ok ?l _ _) _ =>
    assert (lt start (length pre) → batch_ok l max names (start, length pre)) as Hflush by
      (intros Hlt; split; [done|]; destruct Hle as [?|?]; [left; simpl; lia|right; split; [lia|done]]) end.
  - cbn [length]. rewrite Nat.add_0_r. destruct (Nat.ltb_spec start (length pre)) as [Hlt|Hge].
    + csimpl. rewrite app_nil_r. split; [done|]. by apply Forall_singleton, Hflush.
    + csimpl. split; [|constructor]. by replace (length pre - start)%nat with 0%nat by lia.
  - assert (length (pre ++ [d]) = S (length pre)) as Hl by (rewrite length_app; cbn; lia).
    assert (pre ++ d :: ds = (pre ++ [d]) ++ ds) as Ha by (by rewrite <- app_assoc).
    pose proof (batch_snoc pre d ds start Hs) as Hsnoc.
    assert (∀ k, batch (pre ++ d :: ds) (k, k) = []) as Hnil by (intros k; unfold batch; by rewrite Nat.sub_diag).
    assert (batch (pre ++ d :: ds) (length pre, S (length pre)) = [d]) as Hone.
    { by rewrite batch_snoc, Hnil by lia. }
    case_bool_decide as Hin; [|destruct ((start <? length pre)%nat && (max <? bytes + d_length d)) eqn:Ef].
    + destruct (IH (pre ++ [d]) (S (length pre)) 0) as [Hc HF]; rewrite ?Hl; try lia.
      { by rewrite <- Ha, Hnil. } { by rewrite <- Ha, Hnil. }
      rewrite Hl, <- Ha in HF. rewrite Hl in Hc. csimpl. split.
      * rewrite fmap_app, concat_app. csimpl. rewrite Hc. replace (S (length pre) - length pre)%nat with 1%nat by lia.
        destruct (Nat.ltb_spec start (length pre)) as [Hlt|Hge]; csimpl; rewrite ?app_nil_r.
        -- replace (length pre + S (length ds) - start)%nat
             with ((length pre - start) + (1 + (length ds)))%nat by lia.
           rewrite seq_app. f_equal. rewrite seq_app. cbn. repeat f_equal; lia.
        -- replace start with (length pre) by lia.
           replace (length pre + S (length ds) - length pre)%nat with (1 + length ds)%nat by lia.
           rewrite seq_app. cbn. repeat f_equal; lia.
      * apply Forall_app. split; [|constructor; [|done]].
        -- destruct (Nat.ltb_spec start (length pre)); [|constructor]. by apply Forall_singleton, Hflush.
        -- split; cbn; [lia|by left].
    + guards. apply Nat.ltb_lt in H.
      destruct (IH (pre ++ [d]) (length pre) (0 + d_length d)) as [Hc HF]; rewrite ?Hl; try lia.
      { rewrite <- Ha, Hone. cbn. lia. } { rewrite <- Ha, Hone. by apply Forall_singleton. }
      rewrite Hl, <- Ha in HF. rewrite Hl in Hc. csimpl. split; [|constructor; [by apply Hflush|done]].
      rewrite Hc. replace (length pre + S (length ds) - start)%nat
        with ((length pre - start) + S (length ds))%nat by lia.
      rewrite seq_app. repeat f_equal; lia.
    + destruct (IH (pre ++ [d]) start (bytes + d_length d)) as [Hc HF]; rewrite ?Hl; try lia.
      { rewrite <- Ha, Hsnoc. unfold lengths_of in *. rewrite fmap_app, zsum_app, <- Hb. cbn. lia. }
      { apply andb_false_iff in Ef as [Ef|Ef]; [apply Nat.ltb_ge in Ef; left; lia|bools; by right]. }
      { rewrite <- Ha, Hsnoc. apply Forall_app. split; [done|]. by apply Forall_singleton. }
      rewrite Hl, <- Ha in HF. rewrite Hl in Hc. split; [|done]. rewrite Hc. f_equal. cbn. lia.
Qed.

(** Staging batches cover the checkpoint and stay within budget: the batches of
    [_descriptor_batches] enumerate every descriptor once, in order; a batch of several
    descriptors never exceeds [max_bytes], and a file-backed descriptor is a batch of its
    own, so peak staging is at most the budget or one tensor. *)
Theorem descriptor_batches_bounded ds max_bytes file_names batches :
  descriptor_batches ds max_bytes file_names = Ok batches →
  concat ((λ b, seq b.1 (b.2 - b.1)) <$> batches) = seq 0 (length ds)
  ∧ Forall (batch_ok ds max_bytes file_names) batches.
Proof.
  unfold descriptor_batches. intros E. res_inv. bools.
  destruct (batches_loop_spec max_bytes file_names [] ds 0 0) as [Hc HF]; try done; [lia|left; cbn; lia|].
  cbn in Hc, HF. rewrite Nat.sub_0_r in Hc. done.
Qed.

(** *** Views of the staging slab *)

Definition span_bytes (s : span) : list Z := seqZ s.1 s.2.
Definition length_at (ds : list SafetensorDescriptor) (i : nat) : Z := from_option d_length 0 (ds !! i).

Lemma views_loop_spec ds offset vs order : NoDup order → Forall (λ i, (i < length vs)%nat) order →
  Forall (λ d, 0 <= d_length d) ds →
  let r := views_loop ds offset vs order in
  length r = length vs ∧ (∀ i, i ∉ order → r !! i = vs !! i)
  ∧ Forall (λ i, snd <$> r !! i = Some (length_at ds i)) order
  ∧ concat ((λ i, from_option span_bytes [] (r !! i)) <$> order) = seqZ offset (zsum (length_at ds <$> order)).
Proof.
  intros HN Hlt Hd. revert offset vs Hlt. induction HN as [|k order Hk HN IH]; intros offset vs Hlt; cbn zeta.
  { by cbn. }
  inversion_clear Hlt as [|?? Hlk Hlt']. cbn [views_loop]. fold (length_at ds k).
  destruct (IH (offset + length_at ds k) (<[k:=(offset, length_at ds k)]> vs)) as (Hl & Hne & HF & Hc).
  { by rewrite length_insert. }
  rewrite length_insert in Hl.
  set (r := views_loop ds (offset + length_at ds k) (<[k:=(offset, length_at ds k)]> vs) order) in *.
  assert (r !! k = Some (offset, length_at ds k)) as Hrk.
  { rewrite Hne by done. by apply list_lookup_insert_eq. }
  split_and!.
  - done.
  - intros i Hi. rewrite Hne by set_solver. apply list_lookup_insert_ne. set_solver.
  - constructor; [by rewrite Hrk|done].
  - rewrite !fmap_cons. cbn [concat zsum foldr]. rewrite Hrk. cbn [from_option]. fold (zsum (length_at ds <$> order)).
    unfold span_bytes at 1. cbn [fst snd]. rewrite seqZ_app; [by rewrite Hc|..].
    + unfold length_at. destruct (ds !! k) as [d|] eqn:E; cbn; [|lia]. rewrite Forall_forall in Hd.
      apply Hd. by eapply list_elem_of_lookup_2.
    + clear -Hd. induction order as [|i order IH]; cbn; [lia|].
      assert (0 <= length_at ds i); [|unfold zsum in *; lia].
      unfold length_at. destruct (ds !! i) as [d|] eqn:E; cbn; [|lia]. rewrite Forall_forall in Hd.
      apply Hd. by eapply list_elem_of_lookup_2.
Qed.

Lemma length_at_order ds order : order ≡ₚ seq 0 (length ds) → zsum (length_at ds <$> order) = zsum (lengths_of ds).
Proof.
  intros Hp. rewrite (zsum_perm _ _ (fmap_Permutation _ _ _ Hp)). f_equal. unfold lengths_of.
  apply list_eq. intros i. rewrite !list_lookup_fmap. destruct (decide (i < length ds)%nat) as [Hi|Hi].
  - rewrite lookup_seq_lt by done. cbn. unfold length_at. by destruct (lookup_lt_is_Some_2 ds i Hi) as [d ->].
  - rewrite (lookup_ge_None_2 ds i) by lia. by rewrite lookup_seq_ge by lia.
Qed.

(** [_storage_views] cuts the staging slab exactly: each descriptor gets a view of its
    own length, and in the chosen order the views follow each other from the first to the
    last byte of the slab. *)
Theorem storage_views_tile slab ds physical views : Forall (λ d, 0 <= d_length d) ds →
  storage_views slab ds physical = Ok views →
  snd <$> views = lengths_of ds
  ∧ concat ((λ i, from_option span_bytes [] (views !! i)) <$> owner_order physical ds) = seqZ slab.1 slab.2.
Proof.
  intros Hd E. unfold storage_views in E. res_inv. guards. bools.
  pose proof (owner_order_perm physical ds) as Hp.
  destruct (views_loop_spec ds 0 (replicate (length ds) (0, 0)) (owner_order physical ds)) as (Hl & _ & HF & Hc).
  { rewrite Hp. apply NoDup_seq. }
  { rewrite Hp. apply Forall_forall. intros i Hi%elem_of_seq. rewrite length_replicate. lia. }
  { done. }
  set (r := views_loop _ _ _ _) in *. rewrite length_replicate in Hl. rewrite length_at_order in Hc by done. split.
  - rewrite <- list_fmap_compose. apply list_eq. intros i. unfold lengths_of. rewrite !list_lookup_fmap.
    destruct (decide (i < length ds)%nat) as [Hi|Hi].
    + rewrite Forall_forall in HF. specialize (HF i ltac:(rewrite Hp; apply elem_of_seq; lia)).
      destruct (r !! i) as [v|]; [|done]. cbn in *. injection HF as HF. rewrite HF.
      unfold length_at. by destruct (lookup_lt_is_Some_2 ds i Hi) as [d ->].
    + by rewrite !lookup_ge_None_2 by lia.
  - rewrite H, <- (Z.add_0_r slab.1), <- fmap_add_seqZ, <- Hc. clearbody r. clear.
    induction (owner_order physical ds) as [|i order IH]; csimpl; [done|]. rewrite fmap_app, <- IH. f_equal.
    rewrite list_lookup_fmap. destruct (r !! i) as [[o n]|]; [|done]. cbn. unfold span_bytes. cbn.
    by rewrite Z.add_0_r, fmap_add_seqZ.
Qed.

(** ** Extents *)

Definition extent_moves (e : HydrationExtent) : list (Z * Z) := moves (h_file_offset e) (destination e) (h_length e).
Definition read_moves (item : SafetensorDescriptor * Z) : list (Z * Z) :=
  moves (d_file_offset item.1) item.2 (d_length item.1).
Definition valid_extent (e : HydrationExtent) : Prop := HydrationExtent_new e = Ok e.

Lemma valid_extent_at off dst len : 0 <= off → 0 < dst → 0 < len → HydrationExtent_new (extent_at off dst len) = Ok (extent_at off dst len).
Proof. intros. unfold HydrationExtent_new. apply raise_if_bind; [|done]. cbn. close_guard. lia. Qed.

Lemma valid_extent_inv e q : HydrationExtent_new e = Ok q →
  q = e ∧ valid_extent e ∧ 0 <= h_file_offset e ∧ 0 < destination e ∧ 0 < h_length e.
Proof. intros E. pose proof (HydrationExtent_inv e q E) as (-> & ? & ? & ? & _). done. Qed.

Lemma filter_empty_moves (P : SafetensorDescriptor * Z * Z → Prop) `{!∀ x, Decision (P x)} rows :
  concat (read_moves <$> (fst <$> filter (λ row, P row ∧ 0 < d_length row.1.1) rows))
  = concat (read_moves <$> (fst <$> filter P rows)).
Proof.
  induction rows as [|row rows IH]; [done|]. rewrite !filter_cons.
  destruct (decide (P row)) as [HP|HP].
  - destruct (decide (P row ∧ 0 < d_length row.1.1)) as [|HN]; csimpl; [by rewrite IH|].
    rewrite <- IH. unfold read_moves at 2. rewrite moves_empty; [done|].
    destruct (decide (0 < d_length row.1.1)); [by destruct HN|lia].
  - destruct (decide (P row ∧ 0 < d_length row.1.1)) as [[]|]; done.
Qed.

(** [_coalesced_extents] reads what the rank owns: whether or not adjacent ranges are
    merged, the extents are valid and move exactly the bytes of the rank's descriptors,
    each from its file offset to its staging address. *)
Theorem coalesced_extents_moves ds pointers owners rank coalesce_adjacent es :
  coalesced_extents ds pointers owners rank coalesce_adjacent = Ok es →
  Forall valid_extent es
  ∧ concat (extent_moves <$> es)
    ≡ₚ concat (read_moves <$> (fst <$> filter (λ row, row.2 = rank) (zip3 ds pointers owners))).
Proof.
  unfold coalesced_extents. intros E. res_inv. unfold strict_lengths in *. res_inv. clear H H0.
  rewrite <- (filter_empty_moves (λ row, row.2 = rank)).
  set (selected := fst <$> filter _ (zip3 ds pointers owners)) in *.
  set (chosen := if coalesce_adjacent then _ else _) in E.
  assert (chosen ≡ₚ selected) as Hp by (unfold chosen; destruct coalesce_adjacent; [apply py_sorted_perm|done]).
  assert (Forall (λ item, 0 < d_length item.1) chosen) as HQ.
  { rewrite Hp. unfold selected. apply Forall_fmap, Forall_forall. by intros row [[_ ?] _]%list_elem_of_filter. }
  rewrite <- (concat_fmap_perm read_moves _ _ Hp).
  apply (coalesce_spec _ _ _ extent_moves read_moves valid_extent (λ item, 0 < d_length item.1)) in E;
    [by destruct E as [? ->]| | |constructor|done].
  - intros item q _ (-> & ? & _)%valid_extent_inv. done.
  - intros p item q Hv Hl Ha (-> & ? & _)%valid_extent_inv. guards. unfold continues in *. guards. bools.
    apply valid_extent_inv in Hv as (_ & _ & _ & _ & Hlp). split; [done|].
    unfold extent_moves, read_moves. cbn. rewrite moves_app by lia. congruence.
Qed.

(** *** Direct and buffered pieces *)

(** An aligned interior: the extent split between the rounded-up start and the
    rounded-down end. *)
Definition direct_part (a : Z) (e : HydrationExtent) : Prop :=
  h_file_offset e mod a = 0 ∧ h_length e mod a = 0 ∧ valid_extent e.
Definition buffered_part (a : Z) (e : HydrationExtent) : Prop := h_length e < 2 * a ∧ valid_extent e.

Lemma split_extent_spec a e : 0 < a → valid_extent e →
  ∃ direct buffered, split_extent e (align_up (h_file_offset e) a) (align_down (h_file_offset e + h_length e) a)
    = Ok (direct, buffered)
  ∧ Forall (direct_part a) direct ∧ Forall (buffered_part a) buffered
  ∧ concat (extent_moves <$> direct ++ buffered) ≡ₚ extent_moves e.
Proof.
  intros Ha Hv. pose proof Hv as (_ & _ & Ho & Hd & Hl)%valid_extent_inv.
  pose proof (align_up_spec (h_file_offset e) a Ha) as [Hu Hum].
  pose proof (align_down_spec (h_file_offset e + h_length e) a Ha) as [Hw Hwm].
  set (s := align_up _ _) in *. set (t := align_down _ _) in *. clearbody s t.
  unfold split_extent. destruct (Z.leb_spec t s) as [Hts|Hts].
  { exists [], [e]. split_and!; [done|constructor|apply Forall_singleton; by split; [lia|]|]. csimpl. by rewrite app_nil_r. }
  assert ((t - s) mod a = 0) as Htm by (rewrite Zminus_mod, Hum, Hwm; done).
  assert (extent_moves e = moves (h_file_offset e) (destination e) (s - h_file_offset e)
    ++ moves s (destination e + s - h_file_offset e) (t - s)
    ++ moves t (destination e + t - h_file_offset e) (h_file_offset e + h_length e - t)) as Hm.
  { unfold extent_moves. replace (h_length e) with ((s - h_file_offset e) + ((t - s) + (h_file_offset e + h_length e - t))) at 1 by lia.
    rewrite !moves_app by lia. repeat f_equal; lia. }
  rewrite Hm.
  destruct (Z.ltb_spec (h_file_offset e) s) as [Hs|Hs], (Z.ltb_spec t (h_file_offset e + h_length e)) as [Ht|Ht];
    cbn [mbind res_bind mret res_ret]; rewrite ?valid_extent_at by lia; cbn [mbind res_bind mret res_ret];
    rewrite ?valid_extent_at by lia; cbn [mbind res_bind mret res_ret app]; do 2 eexists; (split; [reflexivity|]);
    (split; [apply Forall_singleton; split_and!; [done|done|by apply valid_extent_at; lia]|]);
    (split; [repeat constructor; cbn; try lia; by apply valid_extent_at; lia|]); csimpl;
    unfold extent_moves; cbn; rewrite ?app_nil_r, ?(moves_empty _ _ (s - _)), ?(moves_empty _ _ (_ - t)) by lia;
    cbn [app]; rewrite ?app_nil_r; try done.
  - rewrite !app_assoc. f_equiv. apply Permutation_app_comm.
  - apply Permutation_app_comm.
Qed.

Lemma split_all_spec a (cut : HydrationExtent → Z * Z) extents : 0 < a → Forall valid_extent extents →
  (∀ e, cut e = (align_up (h_file_offset e) a, align_down (h_file_offset e + h_length e) a)) →
  ∃ parts, mapM (λ e, split_extent e (cut e).1 (cut e).2) extents = Ok parts
  ∧ Forall (direct_part a) (concat_pairs parts).1 ∧ Forall (buffered_part a) (concat_pairs parts).2
  ∧ concat (extent_moves <$> (concat_pairs parts).1 ++ (concat_pairs parts).2) ≡ₚ concat (extent_moves <$> extents).
Proof.
  intros Ha HF Hcut. induction HF as [|e extents He _ IH].
  { exists []. cbn. split_and!; done. }
  destruct IH as (parts & Hp & Hd & Hb & Hm). destruct (split_extent_spec a e Ha He) as (d & b & Hs & Hd' & Hb' & Hm').
  exists ((d, b) :: parts). cbn [mapM mbind res_bind]. rewrite Hcut. cbn [fst snd]. rewrite Hs. cbn [mbind res_bind].
  rewrite Hp. cbn [mbind res_bind mret res_ret]. unfold concat_pairs in *. csimpl. split_and!; [done|by apply Forall_app..|].
  rewrite <- Hm, <- Hm'. rewrite !fmap_app, !concat_app, <- !app_assoc. cbn [fst snd]. f_equiv.
  rewrite !app_assoc. f_equiv. apply Permutation_app_comm.
Qed.

Lemma pow2_guard k : 0 <= k → (2 ^ k <=? 0) || negb (Z.land (2 ^ k) (2 ^ k - 1) =? 0) = false.
Proof.
  intros. pose proof (Z.pow_pos_nonneg 2 k). assert (Z.land (2 ^ k) (2 ^ k - 1) = 0) as ->.
  { replace (2 ^ k - 1) with (Z.ones k) by (rewrite Z.ones_equiv; lia). rewrite Z.land_ones by done. by apply Z_mod_same; lia. }
  cbn. rewrite orb_false_r. apply Z.leb_gt. lia.
Qed.

Lemma split_extents_spec extents k : 0 <= k → Forall valid_extent extents →
  ∃ direct buffered, split_direct_extents extents (2 ^ k) = Ok (direct, buffered)
  ∧ Forall (direct_part (2 ^ k)) direct ∧ Forall (buffered_part (2 ^ k)) buffered
  ∧ concat (extent_moves <$> direct ++ buffered) ≡ₚ concat (extent_moves <$> extents).
Proof.
  intros Hk HF. pose proof (Z.pow_pos_nonneg 2 k). unfold split_direct_extents. rewrite pow2_guard by done. cbn [raise_if mbind res_bind].
  destruct (split_all_spec (2 ^ k) (λ e, (Z.land (h_file_offset e + 2 ^ k - 1) (- 2 ^ k),
    Z.land (h_file_offset e + h_length e) (- 2 ^ k))) extents) as (parts & Hp & Hrest); [lia|done|..].
  { intros e. rewrite !land_opp_pow2 by done. done. }
  cbn [fst snd] in Hp. rewrite Hp. cbn [mbind res_bind mret res_ret]. destruct (concat_pairs parts) as [d b].
  exists d, b. done.
Qed.

(** ** Broadcast *)

(** The bytes of a range of the slab, each with the rank that sends it. *)
Definition sent (start end_ source : Z) : list (Z * Z) := (λ a, (a, source)) <$> seqZ start (end_ - start).
Definition broadcast_bytes (b : broadcast) : list (Z * Z) := sent (b_start b) (b_end b) (b_source b).

Lemma sent_app a b c s : a <= b <= c → sent a c s = sent a b s ++ sent b c s.
Proof. intros. unfold sent. replace (c - a) with ((b - a) + (c - b)) by lia. rewrite seqZ_app, fmap_app by lia. do 3 f_equal. lia. Qed.

Lemma sent_empty a b s : b <= a → sent a b s = [].
Proof. intros. unfold sent. by rewrite seqZ_nil by lia. Qed.

Lemma chunk_loop_spec fuel chunk offset limit source : 0 < chunk → limit - offset <= Z.of_nat fuel →
  concat (broadcast_bytes <$> chunk_loop fuel chunk offset limit source) = sent offset limit source
  ∧ Forall (λ b, offset <= b_start b < b_end b ∧ b_end b <= limit ∧ b_end b - b_start b <= chunk)
      (chunk_loop fuel chunk offset limit source).
Proof.
  intros Hc. revert offset. induction fuel as [|fuel IH]; intros offset Hf; cbn [chunk_loop].
  { rewrite sent_empty by lia. split; [done|constructor]. }
  destruct (Z.ltb_spec offset limit) as [Hlt|Hge].
  - set (next := Z.min (offset + chunk) limit). assert (offset < next <= limit ∧ next - offset <= chunk) as [? ?] by lia.
    destruct (IH next) as [E F]; [lia|]. csimpl. rewrite E. unfold broadcast_bytes. cbn. split.
    + by rewrite <- sent_app by lia.
    + constructor; [cbn; lia|]. eapply Forall_impl; [exact F|]. cbn. lia.
  - rewrite sent_empty by lia. split; [done|constructor].
Qed.

Definition row_bytes (row : Z * Z * Z) : list (Z * Z) := sent row.1.1 (row.1.1 + row.1.2) row.2.
Definition region_bytes (r : region) : list (Z * Z) := sent (rg_pointer r) (rg_pointer r + rg_length r) (rg_owner r).

(** A byte of the slab as the receiving side sees it: offset in the slab, global rank. *)
Definition delivered (slab : span) (source_rank : Z → res Z) (p : Z * Z) : Z * Z :=
  (p.1 - slab.1, ok_or 0 (source_rank p.2)).

Lemma delivered_sent slab source_rank a b owner s : source_rank owner = Ok s →
  delivered slab source_rank <$> sent a b owner = sent (a - slab.1) (b - slab.1) s.
Proof.
  intros Hs. unfold sent. rewrite <- list_fmap_compose. replace (b - slab.1 - (a - slab.1)) with (b - a) by lia.
  unfold seqZ. rewrite <- !list_fmap_compose. apply list_fmap_ext. intros i n _. unfold delivered. cbn. rewrite Hs. cbn. f_equal. lia.
Qed.

Lemma filter_empty_rows rows :
  concat (row_bytes <$> filter (λ row : Z * Z * Z, 0 < row.1.2) rows) = concat (row_bytes <$> rows).
Proof.
  induction rows as [|row rows IH]; [done|]. rewrite filter_cons. case_decide; csimpl; rewrite IH; [done|].
  unfold row_bytes at 2. by rewrite sent_empty by lia.
Qed.

Lemma slab_regions_spec slab rows regions : Forall (λ row : Z * Z * Z, 0 < row.1.2) rows →
  coalesce region_continues (extend_region slab) (new_region slab) [] rows = Ok regions →
  Forall (λ r, slab.1 <= rg_pointer r ∧ 0 < rg_length r ∧ rg_pointer r + rg_length r <= slab.1 + slab.2) regions
  ∧ concat (region_bytes <$> regions) = concat (row_bytes <$> rows).
Proof.
  intros HF E. eapply (coalesce_spec _ _ _ region_bytes row_bytes
    (λ r, slab.1 <= rg_pointer r ∧ 0 < rg_length r ∧ rg_pointer r + rg_length r <= slab.1 + slab.2)
    (λ row, 0 < row.1.2)) in E; [exact E|..|done|done].
  - intros [[p l] o] q Hl Hn. unfold new_region, check_row in Hn. res_inv. guards. bools. cbn in *. split; [lia|done].
  - intros r [[p l] o] q Hr Hl Hc He. unfold region_continues in Hc. unfold extend_region, check_row in He.
    res_inv. guards. bools. cbn in *. subst. split; [lia|]. unfold region_bytes, row_bytes. cbn.
    rewrite Z.add_assoc. apply sent_app. lia.
Qed.

(** The broadcast of a slab delivers every staged byte from its owner: the collectives
    [_broadcast_slab_regions] issues carry each byte of each storage exactly once, from
    the global rank of that storage's owner, inside the slab and in chunks of at most
    [max_chunk_bytes]. *)
Theorem broadcast_slab_exact source_rank slab storages owners max_chunk_bytes calls :
  broadcast_slab_regions source_rank slab storages owners max_chunk_bytes = Ok calls →
  concat (broadcast_bytes <$> calls)
    ≡ₚ delivered slab source_rank <$> concat (row_bytes <$> zip storages owners)
  ∧ Forall (λ b, 0 <= b_start b < b_end b ∧ b_end b <= slab.2 ∧ b_end b - b_start b <= max_chunk_bytes) calls.
Proof.
  unfold broadcast_slab_regions. intros E. res_inv. guards. bools.
  match goal with H : coalesce _ _ _ _ ?r = Ok ?g |- _ => rename H into Hc; set (rows := r) in *; rename g into regions end.
  match goal with H : mapM _ _ = Ok ?c |- _ => rename H into Hm; rename c into groups end.
  assert (rows ≡ₚ filter (λ row : Z * Z * Z, 0 < row.1.2) (zip storages owners)) as Hp by apply py_sorted_perm.
  apply slab_regions_spec in Hc as [HR Hb].
  2:{ rewrite Hp. apply Forall_forall. by intros row [? _]%list_elem_of_filter. }
  rewrite <- (filter_empty_rows (zip storages owners)), <- (concat_fmap_perm row_bytes _ _ Hp), <- Hb.
  apply mapM_Ok in Hm. clear Hb Hp rows.
  induction Hm as [|r g regions groups Hr _ IH]; [by cbn|]. inversion_clear HR as [|?? Hin HR'].
  destruct (IH HR') as [Hperm HF]. clear IH. res_inv.
  match goal with H : source_rank _ = Ok _ |- _ => rename H into Hs end.
  match goal with |- context [chunk_loop ?f ?c ?o ?l ?s] => destruct (chunk_loop_spec f c o l s) as [Hx HF']; [done|lia|] end.
  csimpl. rewrite !fmap_app, concat_app, Hx. split.
  - rewrite Hperm. unfold region_bytes at 2. rewrite (delivered_sent _ _ _ _ _ _ Hs). do 2 f_equiv. lia.
  - apply Forall_app. split; [|done]. eapply Forall_impl; [exact HF'|]. cbn. lia.
Qed.

(** ** Concrete runs *)

Definition ascii_decode (b : pybytes) : option pystr := Some b.
Definition sample_header : pystr :=
  lit "{'a':{'dtype':'F32','shape':[2],'data_offsets':[0,8]},'b':{'dtype':'F32','shape':[1],'data_offsets':[8,12]}}".
Definition sample_text : pystr := (λ c, if (c =? 39)%N then 34%N else c) <$> sample_header.
Definition sample_file : pybytes :=
  [N.of_nat (length sample_text); 0%N; 0%N; 0%N; 0%N; 0%N; 0%N; 0%N] ++ sample_text ++ replicate 12 7%N.
Definition sample_ds : list SafetensorDescriptor :=
  [Descriptor (lit "a") (lit "F32") [2] 112 8; Descriptor (lit "b") (lit "F32") [1] 120 4; Descriptor (lit "c") (lit "F32") [3] 124 12].

Lemma descriptors_sound_witness : ∃ ds,
  descriptors ascii_decode sample_file (Z.of_nat (length sample_file)) (lit "m") None None = Ok ds ∧ length ds = 2%nat
  ∧ NoDup (concat (d_range <$> ds)).
Proof.
  eexists. split; [vm_compute; reflexivity|]. split; [reflexivity|].
  eapply (descriptors_sound ascii_decode sample_file (Z.of_nat (length sample_file)) (lit "m") None None). vm_compute. reflexivity.
Defined.

Lemma owners_contiguous_witness : ∃ result, owners sample_ds 2 1 true = Ok result
  ∧ contiguous_shares (owner_order true sample_ds) result ((λ p, (p + 1) mod 2) <$> seqZ 0 2).
Proof. eexists. split; [vm_compute; reflexivity|]. eapply (owners_contiguous sample_ds 2 1 true). vm_compute. reflexivity. Defined.

Lemma descriptor_batches_bounded_witness : ∃ batches,
  descriptor_batches sample_ds 12 [lit "x"; lit "x"; lit "y"] = Ok batches
  ∧ Forall (batch_ok sample_ds 12 [lit "x"; lit "x"; lit "y"]) batches.
Proof. eexists. split; [vm_compute; reflexivity|]. eapply (descriptor_batches_bounded sample_ds 12). vm_compute. reflexivity. Defined.

Lemma coalesced_extents_moves_witness : ∃ es, coalesced_extents sample_ds [4096; 4104; 9000] [0; 0; 1] 0 true = Ok es
  ∧ length es = 1%nat ∧ Forall valid_extent es.
Proof.
  eexists. split; [vm_compute; reflexivity|]. split; [reflexivity|].
  eapply (coalesced_extents_moves sample_ds [4096; 4104; 9000] [0; 0; 1] 0 true). vm_compute. reflexivity.
Defined.

Lemma broadcast_slab_exact_witness : ∃ calls,
  broadcast_slab_regions (λ r, Ok r) (64, 24) [(64, 8); (72, 4); (76, 12)] [0; 0; 1] 5 = Ok calls
  ∧ Forall (λ b, 0 <= b_start b < b_end b ∧ b_end b <= 24 ∧ b_end b - b_start b <= 5) calls.
Proof.
  eexists. split; [vm_compute; reflexivity|].
  eapply (broadcast_slab_exact (λ r, Ok r) (64, 24) [(64, 8); (72, 4); (76, 12)] [0; 0; 1] 5). vm_compute. reflexivity.
Defined.

Lemma owner_layout_tiles_witness : ∃ sizes offsets, owner_layout sample_ds [0; 1; 0] 2 = Ok (sizes, offsets)
  ∧ buffer_of 0 (zip3 sample_ds [0; 1; 0] offsets) = seqZ 0 20.
Proof.
  eexists _, _. split; [vm_compute; reflexivity|].
  eapply (owner_layout_tiles sample_ds [0; 1; 0] 2); [repeat (apply Forall_cons; split; [cbn; lia|]); apply Forall_nil_2|vm_compute; reflexivity|lia|reflexivity].
Defined.

Lemma storage_views_tile_witness : ∃ views, storage_views (640, 24) sample_ds true = Ok views ∧ snd <$> views = [8; 4; 12].
Proof.
  eexists. split; [vm_compute; reflexivity|]. eapply (storage_views_tile (640, 24) sample_ds true); [repeat (apply Forall_cons; split; [cbn; lia|]); apply Forall_nil_2|vm_compute; reflexivity].
Defined.
