(* ===== verification/Replay.v ===== *)
(** * Recovery loader: replaying observed copies

    [integrations/vllm/coldsnap_recovery_loader.py], the replay of a captured copy plan:
    typed views of live tensors, the packed layout of source views, their decomposition
    into contiguous file extents, the assignment of shared reads to ranks, and the
    rank-local packed replay that hydrates a staging slab and copies it into the model.

    Device memory is a function from addresses to bytes. torch is a parameter: the
    element size of a dtype attribute, and [copy_] on typed views. So is the native
    hydrator, as a transfer of extents from a file into device memory. *)

From Stdlib Require Import SpecFloat.
From S2P Require Import Prelude Ranges PyFloat PyJson Hydration Recovery.

Notation device := (Z → N) (only parsing).

(** ** Copies *)

Record RecoveryCopy := Copy {
  source_name : pystr; source_path : pystr; source_dtype_name : pystr; source_shape : list Z;
  source_file_offset : Z; source_length : Z;
  source_view_dtype : pystr; source_view_offset_bytes : Z;
  source_view_shape : list Z; source_view_stride : list Z;
  destination_name : pystr; destination_dtype : pystr; destination_shape : list Z;
  destination_view_offset_bytes : Z; destination_view_shape : list Z; destination_view_stride : list Z;
  copy_bytes : Z;
}.

#[global] Instance RecoveryCopy_eq_dec : EqDecision RecoveryCopy.
Proof. solve_decision. Defined.

Notation source_id := (pystr * pystr * pystr * list Z * Z * Z)%type (only parsing).
Definition source_key (c : RecoveryCopy) : source_id :=
  (source_name c, source_path c, source_dtype_name c, source_shape c, source_file_offset c, source_length c).

(** [sorted(..., key=_copy_order)] *)
Definition copy_order (c : RecoveryCopy) : pystr * Z * pystr * pystr * Z * Z :=
  (source_path c, source_file_offset c, source_name c, destination_name c,
   destination_view_offset_bytes c, source_view_offset_bytes c).
Definition copy_leb (a b : RecoveryCopy) : bool :=
  pair_leb (pair_leb (pair_leb (pair_leb (pair_leb str_leb Z.leb) str_leb) str_leb) Z.leb) Z.leb
    (copy_order a) (copy_order b).

(** A live tensor: its first byte and byte count, and those of its storage. *)
Record live_tensor := Live { l_pointer : Z; l_bytes : Z; l_storage : Z; l_storage_bytes : Z }.

(** A typed view of device memory. *)
Record view := View { v_address : Z; v_dtype : pystr; v_element : Z; v_shape : list Z; v_stride : list Z }.

(** The number of elements. *)
Definition numel (shape : list Z) : Z := foldl Z.mul 1 shape.

(** Elements from the first to the last one a strided view touches. *)
Definition last_element (shape stride : list Z) : Z := zsum (zip_with (λ dimension step, (dimension - 1) * step) shape stride).

Section replay.
Variable torch_dtype : pystr → option Z.

(** The element size of [_dtype_from_string(torch, value)]. *)
Definition element_size (value : pystr) : res Z :=
  _ ← raise_if (negb (starts_with (lit "torch.") value)) RuntimeError "invalid recovery replay dtype";
  of_option RuntimeError "installed torch lacks recovery replay dtype" (torch_dtype (removeprefix (lit "torch.") value)).

(** [_typed_storage_view] *)
Definition typed_storage_view (t : live_tensor) (relative_byte_offset : Z) (dtype_name : pystr)
    (shape stride : list Z) : res view :=
  size ← element_size dtype_name;
  _ ← raise_if (negb (length shape =? length stride)%nat || existsb (λ d, d <? 0) shape)
      RuntimeError "recovery replay view has an invalid shape";
  _ ← raise_if (existsb (λ s, s <? 0) stride) RuntimeError "recovery replay view has a negative stride";
  let span_bytes := if existsb (λ d, d =? 0) shape then 0 else (last_element shape stride + 1) * size in
  _ ← raise_if ((relative_byte_offset <? 0) || (l_bytes t <? relative_byte_offset + span_bytes))
      RuntimeError "recovery replay view exceeds its live tensor";
  let byte_offset := l_pointer t - l_storage t + relative_byte_offset in
  _ ← raise_if ((byte_offset <? 0) || negb (byte_offset mod size =? 0))
      RuntimeError "recovery replay view has an invalid storage offset";
  _ ← raise_if (l_storage_bytes t <? byte_offset + span_bytes)
      RuntimeError "recovery replay view exceeds its backing storage";
  mret (View (l_storage t + byte_offset / size * size) dtype_name size shape stride).

(** [_replay_view_span_bytes] *)
Definition replay_view_span_bytes (c : RecoveryCopy) : res Z :=
  size ← element_size (source_view_dtype c);
  let shape := source_view_shape c in
  let stride := source_view_stride c in
  _ ← raise_if (negb (length shape =? length stride)%nat || existsb (λ d, d <? 0) shape)
      RuntimeError "recovery replay source view has an invalid shape";
  _ ← raise_if (existsb (λ s, s <? 0) stride) RuntimeError "recovery replay source view has a negative stride";
  mret (if existsb (λ d, d =? 0) shape then 0 else (last_element shape stride + 1) * size).

(** [_contiguous_stride]: row-major strides, filled from the last dimension. *)
Fixpoint contiguous_stride (shape : list Z) : list Z :=
  match shape with [] => [] | _ :: rest => numel rest :: contiguous_stride rest end.

(** [_replay_pack_layout] *)
Fixpoint pack_loop (end_ : Z) (copies : list RecoveryCopy) : res (list Z * Z) :=
  match copies with
  | [] => mret ([], end_)
  | c :: rest =>
      size ← element_size (source_view_dtype c);
      let aligned := (end_ + size - 1) / size * size in
      '(offsets, total) ← pack_loop (aligned + numel (source_view_shape c) * size) rest;
      mret (aligned :: offsets, total)
  end.
Definition replay_pack_layout (copies : list RecoveryCopy) : res (list Z * Z) := pack_loop 0 copies.

(** ** Packed extents *)

Record packed_extent := PExtent { x_file_offset : Z; x_packed_offset : Z; x_length : Z }.

(** The scan from the last dimension: where the contiguous suffix starts, and its
    elements. [rows] are the dimensions and strides, last first. *)
Fixpoint suffix_scan (rows : list (Z * Z)) (index suffix_start : nat) (contiguous : Z) : nat * Z :=
  match rows with
  | [] => (suffix_start, contiguous)
  | (dimension, step) :: rest =>
      if dimension =? 1 then suffix_scan rest (index - 1) (index - 1) contiguous
      else if negb (step =? contiguous) then (suffix_start, contiguous)
      else suffix_scan rest (index - 1) (index - 1) (contiguous * dimension)
  end.
Definition contiguous_suffix (shape stride : list Z) : nat * Z :=
  suffix_scan (reverse (zip shape stride)) (length shape) (length shape) 1.

(** [_packed_copy_extent_geometry]: extent count, elements per extent, element size. *)
Definition packed_copy_extent_geometry (c : RecoveryCopy) : res (Z * Z * Z) :=
  size ← element_size (source_view_dtype c);
  let shape := source_view_shape c in
  let stride := source_view_stride c in
  _ ← raise_if (negb (length shape =? length stride)%nat || existsb (λ d, d <=? 0) shape)
      RuntimeError "recovery packed source view has an invalid shape";
  _ ← raise_if (existsb (λ s, s <? 0) stride) RuntimeError "recovery packed source view has a negative stride";
  let '(suffix_start, contiguous) := contiguous_suffix shape stride in
  mret (numel (take suffix_start shape), contiguous, size).

(** The offset of one linear index, peeling coordinates from the last dimension. *)
Fixpoint source_elements (remaining acc : Z) (rows : list (Z * Z)) : Z :=
  match rows with
  | [] => acc
  | (dimension, step) :: rest => source_elements (remaining / dimension) (acc + remaining mod dimension * step) rest
  end.

Definition packed_adjacent (p x : packed_extent) : bool :=
  (x_file_offset p + x_length p =? x_file_offset x) && (x_packed_offset p + x_length p =? x_packed_offset x).
Definition packed_merge (p x : packed_extent) : res packed_extent :=
  mret (PExtent (x_file_offset p) (x_packed_offset p) (x_length p + x_length x)).

(** [_packed_copy_extents] *)
Definition packed_copy_extents (c : RecoveryCopy) (packed_offset_bytes : Z) : res (list packed_extent) :=
  '(extent_count, contiguous_elements, size) ← packed_copy_extent_geometry c;
  let shape := source_view_shape c in
  let stride := source_view_stride c in
  let suffix_start := (contiguous_suffix shape stride).1 in
  let prefix := reverse (zip (take suffix_start shape) (take suffix_start stride)) in
  let extent_bytes := contiguous_elements * size in
  extents ← coalesce packed_adjacent packed_merge mret []
    ((λ linear_index, PExtent
        (source_file_offset c + source_view_offset_bytes c + source_elements linear_index 0 prefix * size)
        (packed_offset_bytes + linear_index * extent_bytes) extent_bytes) <$> seqZ 0 extent_count);
  _ ← raise_if (negb (extent_count * extent_bytes =? numel shape * size))
      RuntimeError "recovery packed source geometry changed";
  mret extents.

(** ** Choosing the local packed path *)

Fixpoint qualified_loop (max_extents : Z) (extent_count packed_bytes : Z) (copies : list RecoveryCopy)
    : res (option (Z * Z)) :=
  match copies with
  | [] => mret (Some (extent_count, packed_bytes))
  | c :: rest =>
      '(count, contiguous_elements, size) ← packed_copy_extent_geometry c;
      let extent_count := extent_count + count in
      let packed_bytes := packed_bytes + count * contiguous_elements * size in
      if max_extents <? extent_count then mret None else qualified_loop max_extents extent_count packed_bytes rest
  end.

(** [_rank_local_packed_replay_qualified] *)
Definition rank_local_packed_replay_qualified (copies : list RecoveryCopy) (max_extents min_extent_bytes : Z) : res bool :=
  totals ← qualified_loop max_extents 0 0 copies;
  mret (match totals with
        | None => false
        | Some (extent_count, packed_bytes) =>
            negb (extent_count =? 0) && (min_extent_bytes <=? packed_bytes / extent_count)
        end).

(** [counter[key] += n], in insertion order. *)
Fixpoint counter_add (key : source_id) (n : Z) (counter : list (source_id * Z)) : list (source_id * Z) :=
  match counter with
  | [] => [(key, n)]
  | (k, v) :: rest => if decide (k = key) then (k, v + n) :: rest else (k, v) :: counter_add key n rest
  end.

Fixpoint aggregate_loop (counter : list (source_id * Z)) (copies : list RecoveryCopy) : res (list (source_id * Z)) :=
  match copies with
  | [] => mret counter
  | c :: rest =>
      '(count, contiguous_elements, size) ← packed_copy_extent_geometry c;
      aggregate_loop (counter_add (source_key c) (count * contiguous_elements * size) counter) rest
  end.

Fixpoint plans_loop (max_extents min_extent_bytes : Z) (counter : list (source_id * Z)) (plans : list (list RecoveryCopy))
    : res (option (list (source_id * Z))) :=
  match plans with
  | [] => mret (Some counter)
  | copies :: rest =>
      ok ← rank_local_packed_replay_qualified copies max_extents min_extent_bytes;
      if negb ok then mret None else
      counter ← aggregate_loop counter copies;
      plans_loop max_extents min_extent_bytes counter rest
  end.

(** [_rank_local_packed_replay_plans_qualified]; [source_lengths[key]] is the length the
    key itself carries. *)
Definition rank_local_packed_replay_plans_qualified (plans : list (list RecoveryCopy))
    (max_extents min_extent_bytes : Z) : res bool :=
  counter ← plans_loop max_extents min_extent_bytes [] plans;
  mret (match counter with
        | None => false
        | Some counter => forallb (λ kv : source_id * Z, kv.2 <=? kv.1.2) counter
        end).

(** ** Reads shared by several ranks *)

Fixpoint key_lookup {A} (key : source_id) (d : list (source_id * A)) : option A :=
  match d with
  | [] => None
  | (k, v) :: rest => if decide (k = key) then Some v else key_lookup key rest
  end.

Notation rank_table := (list (source_id * list RecoveryCopy)) (only parsing).

(** The ranks whose plan copies from a source. *)
Definition consumers_of (rank_copies : list rank_table) (key : source_id) : list Z :=
  omap (λ p : nat * rank_table, if key_lookup key p.2 then Some (Z.of_nat p.1) else None) (imap pair rank_copies).

(** [for index, owner in zip(shared_indices, shared_owners): balanced[index] = owner] *)
Definition rebalance (balanced : list Z) (indices : list nat) (owners : list Z) : list Z :=
  foldl (λ r p, <[ p.1 := p.2 ]> r) balanced (zip indices owners).

Definition assign_owner (world_size : Z) (row : list Z * Z) : res (Z * list Z) :=
  let '(consumers, balanced_owner) := row in
  match consumers with
  | [] => Raise (Exn RuntimeError "recovery replay source has no consuming TP rank")
  | [owner] => mret (owner, consumers)
  | _ =>
      if bool_decide (consumers = seqZ 0 world_size) then mret (balanced_owner, consumers)
      else owner ← of_option IndexError "list index out of range"
             (consumers !! Z.to_nat (balanced_owner mod Z.of_nat (length consumers)));
           mret (owner, consumers)
  end.

(** [_replay_transport_owners] *)
Definition replay_transport_owners (fsum : list spec_float → spec_float)
    (rows : list (source_id * SafetensorDescriptor)) (rank_copies : list rank_table) (world_size rotation : Z)
    (rank_io_weights : option (list spec_float)) (rank_assigned_bytes : option (list Z)) : res (list (Z * list Z)) :=
  let descriptors := rows.*2 in
  balanced ← match rank_io_weights with
             | Some weights => weighted_owners fsum descriptors weights rotation true
             | None => owners descriptors world_size rotation true
             end;
  let consumers_by_row := (λ row, consumers_of rank_copies row.1) <$> rows in
  balanced ← match rank_assigned_bytes with
             | None => mret balanced
             | Some assigned =>
                 _ ← raise_if (negb (Z.of_nat (length assigned) =? world_size) || existsb (λ v, v <? 0) assigned)
                     ValueError "recovery assigned rank bytes are invalid";
                 let shared_indices := omap (λ p : nat * list Z, if decide (p.2 = seqZ 0 world_size) then Some p.1 else None)
                   (imap pair consumers_by_row) in
                 if decide (shared_indices = []) then mret balanced else
                 let weights := match rank_io_weights with
                                | Some (w :: ws) => w :: ws
                                | _ => replicate (Z.to_nat world_size) (float_of_decimal false 1 0)
                                end in
                 let shared_descriptors := omap (λ i, descriptors !! i) shared_indices in
                 targets ← capacity_aware_additions fsum weights assigned (zsum (lengths_of shared_descriptors));
                 shared_owners ← targeted_owners fsum shared_descriptors targets rotation;
                 _ ← strict_lengths (length shared_indices) (length shared_owners);
                 mret (rebalance balanced shared_indices shared_owners)
             end;
  _ ← strict_lengths (length consumers_by_row) (length balanced);
  mapM (assign_owner world_size) (zip consumers_by_row balanced).

(** ** Rank-local source ranges *)

Record source_range := SRange { sr_key : source_id; sr_descriptor : SafetensorDescriptor; sr_base : Z }.

Definition list_min (l : list Z) : Z := match l with [] => 0 | x :: r => foldl Z.min x r end.
Definition list_max (l : list Z) : Z := match l with [] => 0 | x :: r => foldl Z.max x r end.

(** The range of a source that one rank's copies span. *)
Definition rank_span (d : SafetensorDescriptor) (copies : list RecoveryCopy) : res (option (Z * Z)) :=
  match copies with
  | [] => mret None
  | _ =>
      let start := list_min (source_view_offset_bytes <$> copies) in
      ends ← mapM (λ c, n ← replay_view_span_bytes c; mret (source_view_offset_bytes c + n)) copies;
      let end_ := list_max ends in
      _ ← raise_if ((start <? 0) || (end_ <=? start) || (d_length d <? end_))
          RuntimeError "recovery replay source range changed";
      mret (Some (start, end_))
  end.

Fixpoint local_ranges_loop (rank_copies : list rank_table) (rank : nat)
    (sources : list (source_id * SafetensorDescriptor)) : res (option (list source_range)) :=
  match sources with
  | [] => mret (Some [])
  | (key, d) :: rest =>
      ranges ← mapM (λ grouped, rank_span d (from_option id [] (key_lookup key grouped))) rank_copies;
      if d_length d <? zsum (from_option (λ r : Z * Z, r.2 - r.1) 0 <$> ranges) then mret None else
      selected ← of_option IndexError "list index out of range" (ranges !! rank);
      let here := match selected with
                  | None => []
                  | Some (start, end_) =>
                      [SRange key (Descriptor (d_name d) (lit "U8") [end_ - start] (d_file_offset d + start) (end_ - start)) start]
                  end in
      others ← local_ranges_loop rank_copies rank rest;
      mret (app here <$> others)
  end.

Definition range_order (r : source_range) : pystr * Z * pystr :=
  (((((sr_key r).1).1).1).1.2, d_file_offset (sr_descriptor r), d_name (sr_descriptor r)).

(** [_rank_local_replay_ranges] *)
Definition rank_local_replay_ranges (sources : list (source_id * SafetensorDescriptor))
    (rank_copies : list rank_table) (rank : nat) : res (option (list source_range)) :=
  local ← local_ranges_loop rank_copies rank sources;
  mret (option_map (py_sorted (λ a b, pair_leb (pair_leb str_leb Z.leb) str_leb (range_order a) (range_order b))) local).

(** ** Packed work *)

Fixpoint work_loop (path : pystr) (staging_bytes : Z) (batch : list RecoveryCopy) (batch_bytes : Z)
    (rows : list RecoveryCopy) : res (list (pystr * list RecoveryCopy)) :=
  match rows with
  | [] => mret (if decide (batch = []) then [] else [(path, batch)])
  | c :: rest =>
      size ← element_size (source_view_dtype c);
      let logical_bytes := foldl Z.mul size (source_view_shape c) in
      let aligned_start := (batch_bytes + size - 1) / size * size in
      let flush := negb (bool_decide (batch = [])) && (staging_bytes <? aligned_start + logical_bytes) in
      _ ← raise_if (staging_bytes <? logical_bytes) RuntimeError "recovery packed source view exceeds staging budget";
      if flush then work ← work_loop path staging_bytes [c] (0 + logical_bytes) rest; mret ((path, batch) :: work)
      else work_loop path staging_bytes (batch ++ [c]) (aligned_start + logical_bytes) rest
  end.

(** [_rank_local_packed_work]: [sorted(by_path.items())] lists the distinct paths in
    order, each with its copies. *)
Definition rank_local_packed_work (copies : list RecoveryCopy) (staging_bytes : Z)
    : res (list (pystr * list RecoveryCopy)) :=
  work ← mapM (λ path, work_loop path staging_bytes [] 0
      (py_sorted copy_leb (filter (λ c, source_path c = path) copies)))
    (sorted_set str_leb (source_path <$> copies));
  mret (concat work).

(** ** Extents of a packed batch *)

Definition check_packed (c : RecoveryCopy) (base : Z) (x : packed_extent) : res HydrationExtent :=
  _ ← raise_if ((x_file_offset x <? source_file_offset c)
                || (source_file_offset c + source_length c <? x_file_offset x + x_length x))
      RuntimeError "recovery packed source extent changed";
  HydrationExtent_new (extent_at (x_file_offset x) (base + x_packed_offset x) (x_length x)).

Definition extents_adjacent (p x : HydrationExtent) : bool :=
  (h_file_offset p + h_length p =? h_file_offset x) && (destination p + h_length p =? destination x).
Definition extents_merge (p x : HydrationExtent) : res HydrationExtent :=
  HydrationExtent_new (extent_at (h_file_offset p) (destination p) (h_length p + h_length x)).

(** The native extents of one batch staged at [base]. *)
Definition batch_extents (base : Z) (copies : list RecoveryCopy) (offsets : list Z) : res (list HydrationExtent) :=
  items ← mapM (λ p : RecoveryCopy * Z,
    packed ← packed_copy_extents p.1 p.2;
    mapM (check_packed p.1 base) packed) (zip copies offsets);
  coalesce extents_adjacent extents_merge mret [] (concat items).

(** ** Hydration and copies *)

(** [hydrator.hydrate(path, extents, backend=...)] on device memory; [copy_] is
    [destination.copy_(source)]. *)
Variable transfer : pystr → pystr → list HydrationExtent → device → res unit * device.
Variable copy_ : view → view → device → device.
Variable direct_available : bool.
(** The type of the filesystem that holds an opened file. *)
Variable filesystem_type : pystr → res pystr.

Definition REMOTE_FILESYSTEMS : list pystr :=
  lit <$> ["9p"; "afs"; "ceph"; "cifs"; "fuse.sshfs"; "glusterfs"; "lustre"; "nfs"; "nfs4"; "smb2"; "smb3"]%string.
Definition LOCAL_DIRECT_FILESYSTEMS : list pystr := lit <$> ["btrfs"; "ext2"; "ext3"; "ext4"; "xfs"]%string.

(** [_select_recovery_io]: the effective backend. *)
Definition select_recovery_io (path requested : pystr) : res pystr :=
  fs ← filesystem_type path;
  let fs_type := py_lower fs in
  mret (if bool_decide (requested ≠ lit "auto") then requested
        else if bool_decide (fs_type ∈ REMOTE_FILESYSTEMS) || starts_with (lit "fuse.") fs_type then lit "buffered"
        else if bool_decide (fs_type ∈ LOCAL_DIRECT_FILESYSTEMS) then lit "direct"
        else lit "buffered").

(** [except (OSError, RuntimeError)] *)
Definition is_io_error (c : exc_class) : bool :=
  is_os_error c || match c with
                   | RuntimeError | HydrationError | ArtifactError | MemoryCapabilityError
                   | CheckpointResourceError | PayloadValidationError _ | VllmContractError => true
                   | _ => false
                   end.

(** [_native_hydrate_owned]: extents read and the effective backend. *)
Definition native_hydrate_owned (path : pystr) (extents : list HydrationExtent) (backend : pystr) (m : device)
    : res (Z * pystr) * device :=
  match
    (selected ← select_recovery_io path backend;
     let direct_ok := bool_decide (selected = lit "direct") && direct_available in
     _ ← raise_if (bool_decide (selected = lit "direct") && negb direct_ok)
         RuntimeError "recovery loader direct hydration is unavailable";
     if direct_ok then split_direct_extents extents 4096 else mret ([], extents))
  with
  | Raise e => (Raise e, m)
  | Ok (direct, buffered) =>
      let '(first, m1) := match direct with
                          | [] => (Ok (direct, buffered), m)
                          | _ =>
                              match transfer (lit "direct") path direct m with
                              | (Ok _, m1) => (Ok (direct, buffered), m1)
                              | (Raise e, m1) =>
                                  if is_io_error (exc e) && bool_decide (backend = lit "auto")
                                  then (Ok ([], extents), m1) else (Raise e, m1)
                              end
                          end in
      match first with
      | Raise e => (Raise e, m1)
      | Ok (direct, buffered) =>
          let '(second, m2) := match buffered with
                               | [] => (Ok tt, m1)
                               | _ => transfer (lit "buffered") path buffered m1
                               end in
          ((λ _, (Z.of_nat (length direct) + Z.of_nat (length buffered),
                  match direct, buffered with
                  | _ :: _, _ :: _ => lit "direct+buffered-edges"
                  | _ :: _, [] => lit "direct"
                  | [], _ => lit "buffered"
                  end)) <$> second, m2)
      end
  end.

(** One copy out of the packed slab. *)
Definition packed_copy_views (slab : live_tensor) (destinations : list (pystr * live_tensor)) (c : RecoveryCopy)
    (offset : Z) : res (view * view) :=
  source ← typed_storage_view slab offset (source_view_dtype c) (source_view_shape c)
             (contiguous_stride (source_view_shape c));
  target ← of_option KeyError "destination" (assoc (destination_name c) destinations);
  dst ← typed_storage_view target (destination_view_offset_bytes c) (destination_dtype c)
          (destination_view_shape c) (destination_view_stride c);
  _ ← raise_if (negb (bool_decide (v_shape source = v_shape dst))
                || negb (numel (v_shape dst) * v_element dst =? copy_bytes c))
      RuntimeError "recovery packed replay copy metadata changed";
  mret (dst, source).

Fixpoint apply_loop (slab : live_tensor) (destinations : list (pystr * live_tensor)) (copied_bytes : Z)
    (rows : list (RecoveryCopy * Z)) (m : device) : res Z * device :=
  match rows with
  | [] => (Ok copied_bytes, m)
  | (c, offset) :: rest =>
      match packed_copy_views slab destinations c offset with
      | Raise e => (Raise e, m)
      | Ok (dst, source) => apply_loop slab destinations (copied_bytes + copy_bytes c) rest (copy_ dst source m)
      end
  end.

(** [_apply_packed_recovery_copies] *)
Definition apply_packed_recovery_copies (copies : list RecoveryCopy) (slab : live_tensor)
    (destinations : list (pystr * live_tensor)) (m : device) : res Z * device :=
  match (layout ← replay_pack_layout copies;
         _ ← raise_if (l_bytes slab <? layout.2) RuntimeError "recovery replay peer receive slab is too small";
         mret layout.1) with
  | Raise e => (Raise e, m)
  | Ok offsets => apply_loop slab destinations 0 (zip copies offsets) m
  end.

(** ** The rank-local packed replay *)

(** Bytes and extents read, and bytes replayed. *)
Record replay_totals := Totals { t_read_bytes : Z; t_read_extents : Z; t_replayed : Z }.

(** The slab is one allocation; a batch uses its first bytes. *)
Definition batch_slab (slab : live_tensor) (packed_bytes : Z) : live_tensor :=
  Live (l_pointer slab) packed_bytes (l_storage slab) (l_storage_bytes slab).

Fixpoint packed_replay_loop (slab : live_tensor) (backend : pystr) (destinations : list (pystr * live_tensor))
    (totals : replay_totals) (work : list (pystr * list RecoveryCopy)) (m : device) : res replay_totals * device :=
  match work with
  | [] => (Ok totals, m)
  | (path, copies) :: rest =>
      match (layout ← replay_pack_layout copies;
             extents ← batch_extents (l_pointer slab) copies layout.1;
             mret (extents, layout.2)) with
      | Raise e => (Raise e, m)
      | Ok (extents, packed_bytes) =>
          match native_hydrate_owned path extents backend m with
          | (Raise e, m1) => (Raise e, m1)
          | (Ok (count, _), m1) =>
              match apply_packed_recovery_copies copies (batch_slab slab packed_bytes) destinations m1 with
              | (Raise e, m2) => (Raise e, m2)
              | (Ok copied, m2) =>
                  packed_replay_loop slab backend destinations
                    (Totals (t_read_bytes totals + packed_bytes) (t_read_extents totals + count)
                       (t_replayed totals + copied)) rest m2
              end
          end
      end
  end.

(** [_execute_rank_local_packed_replay]: [allocate] is [torch.empty] for the slab, and
    [failed_peers] how many other ranks report an error to the status collective, when
    there is a group. *)
Definition execute_rank_local_packed_replay (allocate : Z → live_tensor) (failed_peers : option nat)
    (backend : pystr) (copies : list RecoveryCopy) (destinations : list (pystr * live_tensor)) (staging_bytes : Z)
    (m : device) : res replay_totals * device :=
  match (work ← rank_local_packed_work copies staging_bytes;
         _ ← raise_if (bool_decide (work = [])) RuntimeError "recovery rank-local packed replay has no source views";
         sizes ← mapM (λ w : pystr * list RecoveryCopy, layout ← replay_pack_layout w.2; mret layout.2) work;
         mret (work, list_max sizes)) with
  | Raise e => (Raise e, m)
  | Ok (work, largest_batch) =>
      let '(outcome, m') := packed_replay_loop (allocate largest_batch) backend destinations (Totals 0 0 0) work m in
      match failed_peers with
      | None => (outcome, m')
      | Some n =>
          (totals ← outcome;
           _ ← raise_if (0 <? n)%nat RuntimeError "a peer failed while reading packed recovery views";
           mret totals, m')
      end
  end.
End replay.
