(* ===== verification/ReplaySpec.v ===== *)
(** * Recovery loader: correctness of the replay

    The packed extents of a source view read exactly its elements, in row-major order;
    packed batches fit the staging budget; shared reads go to consuming ranks; and a
    packed replay leaves in every destination the checkpoint bytes of its source view. *)

From Stdlib Require Import SpecFloat.
From S2P Require Import Prelude Ranges PyFloat PyJson Hydration HydrationSpec Recovery RecoverySpec Replay.

(** ** Strided views *)

Lemma numel_foldl a l : foldl Z.mul a l = a * product l.
Proof. unfold product. revert a. induction l as [|d l IH]; intros a; cbn; [lia|]. rewrite IH. lia. Qed.

Lemma numel_product l : numel l = product l.
Proof. unfold numel. rewrite numel_foldl. lia. Qed.

(** Element offsets of a view in row-major order: the reference for every loop below. *)
Fixpoint offsets_of (rows : list (Z * Z)) : list Z :=
  match rows with
  | [] => [0]
  | (d, s) :: rest => concat ((λ i, (λ o, i * s + o) <$> offsets_of rest) <$> seqZ 0 d)
  end.
Definition view_offsets (shape stride : list Z) : list Z := offsets_of (zip shape stride).

Lemma fmap_concat {A B} (f : A → B) (l : list (list A)) : f <$> concat l = concat ((λ x : list A, (f <$> x : list B)) <$> l).
Proof. induction l as [|x l IH]; csimpl; [done|]. by rewrite fmap_app, IH. Qed.

Lemma concat_concat {A} (l : list (list (list A))) : concat (concat l) = concat ((λ x, concat x) <$> l).
Proof. induction l as [|x l IH]; csimpl; [done|]. by rewrite concat_app, IH. Qed.

Lemma offsets_of_app p q : offsets_of (p ++ q) = concat ((λ o, Z.add o <$> offsets_of q) <$> offsets_of p).
Proof.
  induction p as [|[d s] p IH]; cbn [app offsets_of].
  { cbn. rewrite app_nil_r. symmetry. etransitivity; [|apply list_fmap_id]. apply list_fmap_ext. intros; cbn; lia. }
  rewrite IH, fmap_concat, concat_concat, <- !list_fmap_compose. f_equal. apply list_fmap_ext. intros _ i _. cbn.
  rewrite fmap_concat, <- !list_fmap_compose. f_equal. apply list_fmap_ext. intros _ o _. cbn.
  rewrite <- list_fmap_compose. apply list_fmap_ext. intros _ z _. cbn. lia.
Qed.

(** [n * e] consecutive integers as [n] blocks of [e]. *)
Lemma seqZ_blocks b n e : 0 <= n → 0 <= e → seqZ b (n * e) = concat ((λ j, seqZ (b + j * e) e) <$> seqZ 0 n).
Proof.
  intros Hn He. revert b. pattern n. apply natlike_ind; [|clear n Hn; intros n Hn IH b|done].
  { intros b. rewrite Z.mul_0_l, !seqZ_nil by lia. done. }
  rewrite Z.mul_succ_l. replace (Z.succ n) with (n + 1) by lia. rewrite !seqZ_app by nia.
  rewrite fmap_app, concat_app, IH. f_equal. rewrite (seqZ_cons (0 + n)) by lia.
  rewrite (seqZ_nil (Z.succ _)) by lia. csimpl. by rewrite app_nil_r.
Qed.

Lemma offsets_of_contiguous d contig suf : 0 <= d → 0 <= contig → offsets_of suf = seqZ 0 contig →
  offsets_of ((d, contig) :: suf) = seqZ 0 (contig * d).
Proof.
  intros Hd Hc E. cbn. rewrite E, Z.mul_comm, seqZ_blocks by done. f_equal. apply list_fmap_ext. intros _ i _.
  transitivity (seqZ (i * contig + 0) contig); [by rewrite <- fmap_add_seqZ|by rewrite Z.add_0_r].
Qed.

Lemma suffix_scan_spec rows suf contig k c : Forall (λ p, 0 < p.1) rows → 0 < contig → offsets_of suf = seqZ 0 contig →
  suffix_scan rows (length rows) (length rows) contig = (k, c) →
  (k <= length rows)%nat ∧ 0 < c ∧ offsets_of (drop k (reverse rows) ++ suf) = seqZ 0 c
  ∧ c = contig * product (drop k (reverse rows)).*1.
Proof.
  intros HF. revert suf contig. induction HF as [|[d s] rows Hd _ IH]; intros suf contig Hc Ho E; cbn in E.
  { injection E as <- <-. cbn. split_and!; [done|done|done|]. unfold product. cbn. lia. }
  cbn in Hd. rewrite Nat.sub_0_r in E.
  assert (∀ k', (k' <= length rows)%nat → drop k' (reverse ((d, s) :: rows)) = drop k' (reverse rows) ++ [(d, s)]) as Hdrop.
  { intros k' Hk. rewrite reverse_cons, drop_app_le; [done|]. by rewrite length_reverse. }
  destruct (Z.eqb_spec d 1) as [->|Hne]; [|destruct (Z.eqb_spec s contig) as [->|Hs]; cbn in E].
  - apply (IH ((1, s) :: suf)) in E as (Hk & Hc' & Ho' & ->); [|done|].
    2:{ cbn [offsets_of]. change (seqZ 0 1) with [0]. csimpl. rewrite app_nil_r, Ho.
        etransitivity; [|apply list_fmap_id]. apply list_fmap_ext. intros; cbn; lia. }
    split_and!; [cbn; lia|done|by rewrite Hdrop, <- app_assoc by done|].
    rewrite Hdrop, fmap_app, product_app by done. unfold product at 3. cbn. lia.
  - apply (IH ((d, contig) :: suf)) in E as (Hk & Hc' & Ho' & ->); [|nia|apply offsets_of_contiguous; [lia|lia|done]].
    split_and!; [cbn; lia|done|by rewrite Hdrop, <- app_assoc by done|].
    rewrite Hdrop, fmap_app, product_app by done. unfold product at 3. cbn. lia.
  - injection E as <- <-. rewrite drop_ge by (rewrite length_reverse; cbn; lia). cbn. split_and!; [lia|done|done|].
    unfold product. cbn. lia.
Qed.

Lemma source_elements_acc i acc rows : source_elements i acc rows = acc + source_elements i 0 rows.
Proof.
  revert i acc. induction rows as [|[d s] rows IH]; intros i acc; cbn; [lia|].
  rewrite IH, (IH _ (0 + _)). lia.
Qed.

Lemma offsets_of_single d s : offsets_of [(d, s)] = (λ i, i * s) <$> seqZ 0 d.
Proof.
  cbn. induction (seqZ 0 d) as [|i l IH]; csimpl; [done|]. rewrite IH. f_equal. lia.
Qed.

(** Peeling coordinates off linear indices enumerates the view in row-major order. *)
Lemma source_elements_enum p : Forall (λ r, 0 < r.1) p →
  (λ i, source_elements i 0 (reverse p)) <$> seqZ 0 (product p.*1) = offsets_of p.
Proof.
  induction p as [|[d s] p IH] using rev_ind; intros HF; [done|].
  apply Forall_app in HF as [HF [Hd _]%Forall_cons_1]. cbn in Hd.
  assert (0 < product p.*1) as Hp by (apply product_pos; by apply Forall_fmap).
  rewrite fmap_app, product_app, reverse_app, offsets_of_app, <- IH, offsets_of_single by done.
  unfold product at 2. cbn [fmap list_fmap foldr fst]. rewrite Z.mul_1_r.
  rewrite seqZ_blocks, fmap_concat, <- !list_fmap_compose by lia. f_equal. apply list_fmap_ext. intros ia a _.
  cbn. rewrite <- list_fmap_compose, <- (Z.add_0_r (0 + a * d)), <- fmap_add_seqZ, <- list_fmap_compose.
  apply list_fmap_ext. intros ib b [-> Hb]%lookup_seqZ. cbn. rewrite source_elements_acc, Z.add_0_l.
  rewrite !Z.add_0_l, Z.div_add_l, (Z.div_small (Z.of_nat ib)), Z.add_0_r by lia.
  rewrite (Z.add_comm (a * d)), Z.mod_add, Z.mod_small by lia. lia.
Qed.

(** ** Packed extents *)

Definition packed_moves (x : packed_extent) : list (Z * Z) := moves (x_file_offset x) (x_packed_offset x) (x_length x).

(** The bytes of a strided view at [base], element by element in row-major order. *)
Definition view_bytes (base size : Z) (shape stride : list Z) : list Z :=
  concat ((λ o, seqZ (base + o * size) size) <$> view_offsets shape stride).

Section replay.
Context (torch_dtype : pystr → option Z).
Hypothesis sizes_positive : ∀ name size, torch_dtype name = Some size → 0 < size.

Lemma element_size_positive value size : element_size torch_dtype value = Ok size → 0 < size.
Proof using sizes_positive. unfold element_size. intros E. res_inv. eauto. Qed.

Lemma geometry_inv c n k size : packed_copy_extent_geometry torch_dtype c = Ok (n, k, size) →
  let shape := source_view_shape c in let stride := source_view_stride c in
  element_size torch_dtype (source_view_dtype c) = Ok size ∧ length shape = length stride
  ∧ Forall (λ d, 0 < d) shape ∧ k = (contiguous_suffix shape stride).2
  ∧ n = product (take (contiguous_suffix shape stride).1 shape).
Proof using.
  unfold packed_copy_extent_geometry. intros E. res_inv. guards.
  destruct (contiguous_suffix _ _) as [k' c'] eqn:Ec. cbn in *. res_inv. simplify_eq.
  match goal with H : existsb _ (source_view_shape c) = false |- _ => apply existsb_false in H end.
  match goal with H : (_ =? _)%nat = true |- _ => apply Nat.eqb_eq in H end. rewrite numel_product. split_and!; try done.
  eapply Forall_impl; [eassumption|]. intros d Hd. cbn in Hd. bools. done.
Qed.

Lemma take_zip {A B} k (l : list A) (l' : list B) : zip (take k l) (take k l') = take k (zip l l').
Proof. revert l l'. induction k; intros [|??] [|??]; cbn; auto; by f_equal. Qed.

(** The contiguous suffix of a view, and its remaining dimensions. *)
Lemma contiguous_suffix_spec shape stride k c : length shape = length stride → Forall (λ d, 0 < d) shape →
  contiguous_suffix shape stride = (k, c) →
  0 < c ∧ offsets_of (drop k (zip shape stride)) = seqZ 0 c ∧ product (take k shape) * c = product shape.
Proof using.
  intros Hl HF E. unfold contiguous_suffix in E.
  assert (length shape = length (reverse (zip shape stride))) as Hr by (rewrite length_reverse, length_zip; lia).
  rewrite Hr in E at 1. rewrite Hr in E at 1.
  apply (suffix_scan_spec _ [] 1) in E as (Hk & Hc & Ho & Hp); [|..|done|done].
  2:{ rewrite Forall_reverse. apply Forall_forall. intros [d s] Hd%elem_of_zip_l. rewrite Forall_forall in HF. by apply HF. }
  rewrite reverse_involutive, app_nil_r in Ho. rewrite reverse_involutive in Hp. split_and!; [done|done|].
  by rewrite Hp, Z.mul_1_l, fmap_drop, fst_zip, <- product_app, take_drop by lia.
Qed.

Lemma gather_spec c offset n k size : packed_copy_extent_geometry torch_dtype c = Ok (n, k, size) →
  ∃ xs, packed_copy_extents torch_dtype c offset = Ok xs
  ∧ Forall (λ x, 0 < x_length x) xs
  ∧ (concat (packed_moves <$> xs)).*1
    = view_bytes (source_file_offset c + source_view_offset_bytes c) size (source_view_shape c) (source_view_stride c)
  ∧ (concat (packed_moves <$> xs)).*2 = seqZ offset (numel (source_view_shape c) * size).
Proof using sizes_positive.
  intros Hg. pose proof (geometry_inv _ _ _ _ Hg) as (He & Hl & HF & Hk & Hn). apply element_size_positive in He.
  set (shape := source_view_shape c) in *. set (stride := source_view_stride c) in *.
  destruct (contiguous_suffix shape stride) as [s c'] eqn:Ec. cbn [fst snd] in Hk, Hn. subst c'.
  destruct (contiguous_suffix_spec shape stride s k Hl HF Ec) as (Hk & Ho & Hp).
  assert (0 < n) as Hn0 by (subst n; apply product_pos, Forall_take, HF).
  set (base := source_file_offset c + source_view_offset_bytes c).
  set (prefix := reverse (zip (take s shape) (take s stride))).
  set (items := (λ i, PExtent (base + source_elements i 0 prefix * size) (offset + i * (k * size)) (k * size)) <$> seqZ 0 n).
  destruct (coalesce_total packed_adjacent packed_merge mret [] items) as [xs Hx]; [done|done|].
  exists xs. split.
  { unfold packed_copy_extents. rewrite Hg. cbn [mbind res_bind]. fold shape stride. rewrite Ec. cbn [fst].
    fold prefix base items. rewrite Hx. cbn [mbind res_bind]. rewrite numel_product, Z.mul_assoc, Hn, Hp, Z.eqb_refl. done. }
  assert (Forall (λ x, 0 < x_length x) items) as HQ by (apply Forall_fmap, Forall_forall; intros i _; cbn; nia).
  apply (coalesce_spec _ _ _ packed_moves packed_moves (λ x, 0 < x_length x) (λ x, 0 < x_length x)) in Hx as [HP ->];
    [|by intros x q ? [= <-]| |constructor|done].
  2:{ intros p x q Hp' Hx' Ha [= <-]. unfold packed_adjacent in Ha. guards. bools. cbn. split; [lia|].
      unfold packed_moves. cbn. rewrite moves_app by lia. congruence. }
  split; [done|]. csimpl. unfold items. rewrite !fmap_concat, <- !list_fmap_compose. split.
  - unfold view_bytes, view_offsets. rewrite <- (take_drop s (zip shape stride)), offsets_of_app, <- take_zip.
    rewrite <- (source_elements_enum (zip (take s shape) (take s stride))).
    2:{ rewrite take_zip. apply Forall_take, Forall_forall. intros [d t] Hd%elem_of_zip_l. rewrite Forall_forall in HF. by apply HF. }
    fold prefix. rewrite fst_zip by (rewrite !length_take; lia). rewrite <- Hn.
    rewrite fmap_concat, concat_concat, <- !list_fmap_compose. f_equal. apply list_fmap_ext. intros _ i _. cbn.
    unfold packed_moves. cbn. rewrite moves_fst, Ho, seqZ_blocks, <- !list_fmap_compose by lia. f_equal.
    apply list_fmap_ext. intros _ j _. cbn. f_equal. lia.
  - rewrite numel_product, <- Hp, <- Hn, <- Z.mul_assoc, seqZ_blocks by nia. f_equal. apply list_fmap_ext. intros _ i _. cbn.
    unfold packed_moves. cbn. by rewrite moves_snd.
Qed.

(** ** Packed batches *)

(** Offsets follow each other, aligned to their element size, up to [total]. *)
Fixpoint laid_out (end_ : Z) (rows : list (RecoveryCopy * Z)) (total : Z) : Prop :=
  match rows with
  | [] => total = end_
  | (c, offset) :: rest =>
      ∃ size, element_size torch_dtype (source_view_dtype c) = Ok size ∧ end_ <= offset < end_ + size
      ∧ offset mod size = 0 ∧ laid_out (offset + numel (source_view_shape c) * size) rest total
  end.

Lemma pack_loop_laid_out end_ copies offsets total : pack_loop torch_dtype end_ copies = Ok (offsets, total) →
  length offsets = length copies ∧ laid_out end_ (zip copies offsets) total.
Proof using sizes_positive.
  revert end_ offsets. induction copies as [|c copies IH]; intros end_ offsets E; cbn in E; res_inv.
  { by simplify_eq. }
  destruct x0 as [offs t]. res_inv. simplify_eq.
  match goal with H : pack_loop _ _ _ = _ |- _ => apply IH in H as [Hl Hr] end.
  match goal with H : element_size _ _ = Ok ?s |- _ => rename s into size; pose proof (element_size_positive _ _ H) as Hs end.
  split; [cbn; lia|]. cbn. exists size. pose proof (align_up_spec end_ size Hs) as [? ?]. unfold align_up in *. split_and!; [done|lia|lia|done|done].
Qed.

Lemma pack_loop_snoc end_ copies c offsets total size : pack_loop torch_dtype end_ copies = Ok (offsets, total) →
  element_size torch_dtype (source_view_dtype c) = Ok size →
  let aligned := (total + size - 1) / size * size in
  pack_loop torch_dtype end_ (copies ++ [c]) = Ok (offsets ++ [aligned], aligned + numel (source_view_shape c) * size).
Proof using.
  revert end_ offsets. induction copies as [|d copies IH]; intros end_ offsets E Hs; cbn in E; res_inv.
  { simplify_eq. cbn. rewrite Hs. done. }
  destruct x0 as [offs t]. res_inv. simplify_eq. cbn.
  match goal with H : element_size _ (source_view_dtype d) = _ |- _ => rewrite H end. cbn.
  match goal with H : pack_loop _ _ copies = _ |- _ => rewrite (IH _ _ H Hs) end. done.
Qed.

(** A batch of copies of one file that fits the staging budget. *)
Definition work_ok (staging_bytes : Z) (w : pystr * list RecoveryCopy) : Prop :=
  w.2 ≠ [] ∧ Forall (λ c, source_path c = w.1) w.2
  ∧ ∃ offsets total, replay_pack_layout torch_dtype w.2 = Ok (offsets, total) ∧ total <= staging_bytes.

Lemma work_loop_spec path staging batch bytes rows work :
  Forall (λ c, source_path c = path) (batch ++ rows) →
  (∃ offsets, replay_pack_layout torch_dtype batch = Ok (offsets, bytes)) → (batch ≠ [] → bytes <= staging) →
  work_loop torch_dtype path staging batch bytes rows = Ok work →
  concat work.*2 = batch ++ rows ∧ Forall (work_ok staging) work.
Proof using sizes_positive.
  revert batch bytes work. induction rows as [|c rows IH]; intros batch bytes work HF [offs Hb] Hle E; cbn in E; res_inv.
  { rewrite app_nil_r in *. destruct (decide (batch = [])) as [->|Hne]; cbn; [done|]. rewrite app_nil_r.
    split; [done|]. apply Forall_singleton. split_and!; [done|done|]. exists offs, bytes. auto. }
  match goal with H : element_size _ _ = Ok ?s |- _ => rename s into size; rename H into Hs end.
  pose proof (element_size_positive _ _ Hs) as Hpos. bools. rewrite numel_foldl, <- numel_product in *.
  rewrite (Z.mul_comm size) in *.
  assert (∃ offsets, replay_pack_layout torch_dtype [c] = Ok (offsets, numel (source_view_shape c) * size)) as Hone.
  { pose proof (pack_loop_snoc 0 [] c [] 0 size eq_refl Hs) as Hq. cbn [app] in Hq.
    rewrite Z.add_0_l, Z.div_small, Z.mul_0_l, Z.add_0_l in Hq by lia. by eexists. }
  case_match eqn:Ef; res_inv.
  - rewrite Z.add_0_l in *. guards. bools.
    match goal with H : work_loop _ _ _ _ _ _ = _ |- _ => apply IH in H as [Hc HF'] end;
      [|apply Forall_app in HF as [_ ?]; done|done|by intros _].
    csimpl. rewrite Hc. split; [done|]. constructor; [|done]. split_and!; [done|by apply Forall_app in HF as [? _]|].
    exists offs, bytes. auto.
  - apply IH in E; [by rewrite <- app_assoc in E|by rewrite <- app_assoc| |].
    + eexists. unfold replay_pack_layout in *. rewrite (pack_loop_snoc _ _ _ _ _ _ Hb Hs). done.
    + intros _. apply andb_false_iff in Ef as [Ef|Ef]; guards; bools; [|lia]. subst batch.
      unfold replay_pack_layout in Hb. cbn in Hb. res_inv. simplify_eq. rewrite Z.add_0_l, Z.div_small by lia. lia.
Qed.

Lemma packed_work_spec copies staging_bytes work :
  rank_local_packed_work torch_dtype copies staging_bytes = Ok work →
  concat work.*2 ≡ₚ copies ∧ Forall (work_ok staging_bytes) work.
Proof using sizes_positive.
  unfold rank_local_packed_work. intros E. res_inv. apply mapM_Ok in H.
  set (paths := sorted_set str_leb (source_path <$> copies)) in *.
  assert (concat (concat x).*2 ≡ₚ concat ((λ p, filter (λ c, source_path c = p) copies) <$> paths)
    ∧ Forall (work_ok staging_bytes) (concat x)) as [Hp HF].
  { induction H as [|p w ps ws Hw _ IH]; csimpl; [done|]. destruct IH as [Hp HF].
    apply work_loop_spec in Hw as [Hc HF'].
    - cbn in Hc. rewrite fmap_app, concat_app, Hc, Hp. split; [|by apply Forall_app]. by rewrite py_sorted_perm.
    - cbn. rewrite py_sorted_perm. apply Forall_forall. by intros c [? _]%list_elem_of_filter.
    - by exists [].
    - done. }
  split; [|done]. rewrite Hp. apply partition_by.
  - unfold paths, sorted_set. rewrite py_sorted_perm. apply NoDup_remove_dups.
  - apply Forall_forall. intros c Hc. unfold paths, sorted_set. rewrite py_sorted_perm, elem_of_remove_dups.
    by apply list_elem_of_fmap_2.
Qed.

(** Packed extents gather a strided view: for every view the geometry accepts,
    [_packed_copy_extents] succeeds, its extents are non-empty, the file bytes they read
    are exactly the view's elements in row-major order, and they fill the packed range
    from [packed_offset_bytes] on without a gap. *)
Theorem packed_extents_gather c offset n k size : packed_copy_extent_geometry torch_dtype c = Ok (n, k, size) →
  ∃ xs, packed_copy_extents torch_dtype c offset = Ok xs
  ∧ Forall (λ x, 0 < x_length x) xs
  ∧ (concat (packed_moves <$> xs)).*1
    = view_bytes (source_file_offset c + source_view_offset_bytes c) size (source_view_shape c) (source_view_stride c)
  ∧ (concat (packed_moves <$> xs)).*2 = seqZ offset (numel (source_view_shape c) * size).
Proof using sizes_positive. apply gather_spec. Qed.

(** Packed replay work is complete and bounded: the batches of
    [_rank_local_packed_work] hold every copy exactly once, each batch reads one file, and
    its packed layout fits the staging budget. *)
Theorem packed_work_bounded copies staging_bytes work :
  rank_local_packed_work torch_dtype copies staging_bytes = Ok work →
  concat work.*2 ≡ₚ copies ∧ Forall (work_ok staging_bytes) work.
Proof using sizes_positive. apply packed_work_spec. Qed.
End replay.

(** ** Shared reads *)

Lemma owner_range ds world_size rotation physical result : 0 < world_size →
  owners ds world_size rotation physical = Ok result → Forall (λ r, 0 <= r < world_size) result.
Proof.
  intros Hw E. pose proof (owners_shares _ _ _ _ _ E) as [Hl Hs]. eapply shares_Forall; [|exact Hs|].
  - rewrite Hl. apply owner_order_perm.
  - apply Forall_fmap, Forall_forall. intros p _. cbn. by apply Z.mod_pos_bound.
Qed.

Lemma weighted_owner_range fsum ds weights rotation physical result : weights ≠ [] →
  weighted_owners fsum ds weights rotation physical = Ok result →
  Forall (λ r, 0 <= r < Z.of_nat (length weights)) result.
Proof.
  intros Hw E. pose proof (weighted_owners_contiguous _ _ _ _ _ _ E) as [Hl Hs]. eapply shares_Forall; [|exact Hs|].
  - rewrite Hl. apply owner_order_perm.
  - apply Forall_fmap, Forall_forall. intros p _. cbn. apply Z.mod_pos_bound. destruct weights; [done|cbn; lia].
Qed.

Lemma targeted_owner_range fsum ds targets rotation result : targeted_owners fsum ds targets rotation = Ok result →
  Forall (λ r, 0 <= r < Z.of_nat (length targets)) result.
Proof.
  intros E. pose proof (targeted_owners_contiguous _ _ _ _ _ E) as (Hl & active & Hs & HF).
  eapply shares_Forall; [by rewrite Hl|exact Hs|done].
Qed.

#[local] Opaque bisect_level.
Lemma capacity_length fsum weights assigned additional targets :
  capacity_aware_additions fsum weights assigned additional = Ok targets → (length targets <= length weights)%nat.
Proof.
  unfold capacity_aware_additions. intros E. res_inv. destruct (additional =? 0); res_inv.
  - by rewrite length_fmap.
  - rewrite length_fmap. unfold rooms. rewrite length_zip_with. lia.
Qed.

Lemma rebalance_Forall (P : Z → Prop) balanced indices values : Forall P balanced → Forall P values →
  Forall P (rebalance balanced indices values).
Proof.
  unfold rebalance. intros Hb Hv. revert balanced indices Hb.
  induction Hv as [|v values Hv _ IH]; intros balanced [|i indices] Hb; cbn; try done.
  apply IH. by apply Forall_insert.
Qed.

Lemma assign_owner_elem world_size row a : 0 <= row.2 < world_size → assign_owner world_size row = Ok a →
  a.2 = row.1 ∧ a.1 ∈ row.1.
Proof.
  destruct row as [consumers o]. cbn. intros Ho E. destruct consumers as [|x [|y l]]; [done|res_inv; cbn; set_solver|].
  case_bool_decide as Hc; res_inv.
  - cbn [fst snd]. split; [done|]. rewrite Hc. apply elem_of_seqZ. lia.
  - cbn. split; [done|]. by eapply list_elem_of_lookup_2.
Qed.

(** Shared sources are read by a rank that uses them: [_replay_transport_owners]
    gives every source the ranks whose plan copies from it, and its reading rank is one
    of them, whatever throughput weights or assigned bytes steer the balance. *)
Theorem transport_owner_consumes fsum rows rank_copies world_size rotation weights assigned result :
  0 < world_size → (∀ w, weights = Some w → Z.of_nat (length w) = world_size) →
  replay_transport_owners fsum rows rank_copies world_size rotation weights assigned = Ok result →
  Forall2 (λ row a, a.2 = consumers_of rank_copies row.1 ∧ a.1 ∈ a.2) rows result.
Proof.
  intros Hw Hweights E. unfold replay_transport_owners in E. res_inv.
  rename x into balanced, H into Hb, x0 into final, H0 into Hf.
  assert (Forall (λ r, 0 <= r < world_size) balanced) as HB.
  { destruct weights as [w|]; [|by eapply owner_range].
    rewrite <- (Hweights w eq_refl). eapply weighted_owner_range; [|exact Hb].
    intros ->. specialize (Hweights [] eq_refl). cbn in Hweights. lia. }
  assert (Forall (λ r, 0 <= r < world_size) final) as HF.
  { destruct assigned as [assigned|]; [|by res_inv; simplify_eq]. res_inv. case_decide; res_inv; [by simplify_eq|].
    match goal with H : targeted_owners _ _ _ _ = _ |- _ => apply targeted_owner_range in H as Ht end.
    match goal with H : capacity_aware_additions _ _ _ _ = _ |- _ => apply capacity_length in H as Hc end.
    apply rebalance_Forall; [done|]. eapply Forall_impl; [exact Ht|]. cbn. intros r Hr. split; [lia|].
    destruct weights as [[|w ws]|]; rewrite ?length_replicate in Hc; try lia. specialize (Hweights _ eq_refl). lia. }
  clear HB Hb Hf. unfold strict_lengths in *. res_inv. guards.
  match goal with H : (_ =? _)%nat = true |- _ => apply Nat.eqb_eq in H as Hl end. rewrite length_fmap in Hl.
  apply mapM_Ok in E. clear -E HF Hl. revert final result Hl HF E. induction rows as [|row rows IH]; intros [|o final] result Hl HF E; cbn in *; try done.
  { inversion E. constructor. }
  inversion_clear E as [|?? ? result' Ha Hrest]. inversion_clear HF as [|?? Ho HF'].
  constructor; [|apply (IH final); [lia|done|done]].
  apply assign_owner_elem in Ha as [-> ?]; [|done]. done.
Qed.

(** ** Rank-local ranges *)

Lemma list_min_le l z : z ∈ l → list_min l <= z.
Proof.
  destruct l as [|x l]; [set_solver|]. cbn. revert x z. induction l as [|y l IH]; intros x z Hz; cbn.
  { assert (z = x) by set_solver. lia. }
  apply elem_of_cons in Hz as [->|[->|Hz]%elem_of_cons].
  - specialize (IH (Z.min x y) (Z.min x y) ltac:(left)). lia.
  - specialize (IH (Z.min x y) (Z.min x y) ltac:(left)). lia.
  - apply IH. by right.
Qed.

Lemma list_max_le l n : l ≠ [] → Forall (λ z, z <= n) l → list_max l <= n.
Proof.
  destruct l as [|x l]; [done|]. intros _ [Hx HF]%Forall_cons. cbn. revert x Hx.
  induction HF as [|y l Hy _ IH]; intros x Hx; cbn; [done|]. apply IH. lia.
Qed.

Lemma list_max_ge l z : z ∈ l → z <= list_max l.
Proof.
  destruct l as [|x l]; [set_solver|]. cbn. revert x z. induction l as [|y l IH]; intros x z Hz; cbn.
  { assert (z = x) by set_solver. lia. }
  apply elem_of_cons in Hz as [->|[->|Hz]%elem_of_cons].
  - specialize (IH (Z.max x y) (Z.max x y) ltac:(left)). lia.
  - specialize (IH (Z.max x y) (Z.max x y) ltac:(left)). lia.
  - apply IH. by right.
Qed.

Section local_ranges.
Context (torch_dtype : pystr → option Z).

(** The copies of a source lie inside the range a rank reads for it. *)
Definition covers (start end_ : Z) (copies : list RecoveryCopy) : Prop :=
  Forall (λ c, ∃ n, replay_view_span_bytes torch_dtype c = Ok n ∧ start <= source_view_offset_bytes c
    ∧ source_view_offset_bytes c + n <= end_) copies.

Lemma rank_span_spec d copies r : rank_span torch_dtype d copies = Ok r →
  match r with
  | None => copies = []
  | Some (start, end_) => copies ≠ [] ∧ 0 <= start < end_ ∧ end_ <= d_length d ∧ covers start end_ copies
  end.
Proof.
  unfold rank_span. intros E. destruct copies as [|c0 copies0]; [by res_inv; simplify_eq|].
  set (copies := c0 :: copies0) in *. res_inv. guards. bools.
  change (copies ≠ [] ∧ 0 <= list_min (source_view_offset_bytes <$> copies) < list_max x ∧ list_max x <= d_length d
    ∧ covers (list_min (source_view_offset_bytes <$> copies)) (list_max x) copies).
  split_and!; [done|lia|lia|lia|]. apply mapM_Ok in H. apply Forall_forall. intros c Hc.
  destruct (Forall2_elem_l _ _ _ _ H Hc) as (e & He & Hspan). res_inv.
  eexists. split; [done|]. split; [|by apply list_max_ge]. apply list_min_le. by apply list_elem_of_fmap_2.
Qed.

(** What one rank must find in its plan of local reads for a source. *)
Definition source_planned (rank_copies : list (list (source_id * list RecoveryCopy))) (rank : nat)
    (ranges : list source_range) (source : source_id * SafetensorDescriptor) : Prop :=
  ∀ grouped copies, rank_copies !! rank = Some grouped → key_lookup source.1 grouped = Some copies → copies ≠ [] →
  ∃ r, r ∈ ranges ∧ sr_key r = source.1 ∧ 0 <= sr_base r
    ∧ d_file_offset (sr_descriptor r) = d_file_offset source.2 + sr_base r
    ∧ sr_base r + d_length (sr_descriptor r) <= d_length source.2
    ∧ covers (sr_base r) (sr_base r + d_length (sr_descriptor r)) copies.

Lemma local_ranges_loop_spec rank_copies rank sources ranges :
  local_ranges_loop torch_dtype rank_copies rank sources = Ok (Some ranges) →
  Forall (source_planned rank_copies rank ranges) sources.
Proof.
  revert ranges. induction sources as [|[key d] sources IH]; intros ranges E; cbn in E; [constructor|]. res_inv.
  match goal with H : mapM _ _ = Ok ?x |- _ => rename H into Hm, x into spans end.
  destruct (d_length d <? _); res_inv; [done|].
  match goal with H : spans !! rank = Some ?s |- _ => rename H into Hs, s into selected end.
  match goal with H : local_ranges_loop _ _ _ _ = Ok ?o |- _ => rename H into Hrest, o into others end.
  destruct others as [others|]; [|done]. cbn in E. injection E as <-. apply IH in Hrest. constructor.
  - intros grouped copies Hg Hk Hne. cbn in Hk. apply mapM_Ok in Hm.
    pose proof (Forall2_lookup_lr _ _ _ _ _ _ Hm Hg Hs) as Hspan. cbn in Hspan. rewrite Hk in Hspan. cbn in Hspan.
    apply rank_span_spec in Hspan. destruct selected as [[start end_]|]; [|done].
    destruct Hspan as (_ & ? & ? & Hc). eexists. split; [apply elem_of_app; left; apply list_elem_of_singleton; reflexivity|].
    cbn. replace (start + (end_ - start)) with end_ by lia. split_and!; (done || lia).
  - eapply Forall_impl; [exact Hrest|]. intros source Hp grouped copies Hg Hk Hne.
    destruct (Hp grouped copies Hg Hk Hne) as (r & Hr & ?). exists r. split; [|done]. apply elem_of_app. by right.
Qed.

(** Rank-local reads are sufficient: when [_rank_local_replay_ranges] plans local
    reads, the rank's range of each source it copies from lies inside that tensor's bytes
    and contains every source view of its copies. *)
Theorem local_ranges_cover sources rank_copies rank ranges :
  rank_local_replay_ranges torch_dtype sources rank_copies rank = Ok (Some ranges) →
  Forall (source_planned rank_copies rank ranges) sources.
Proof.
  unfold rank_local_replay_ranges. intros E. res_inv. destruct x as [local|]; [|done]. cbn in E. injection E as <-.
  eapply Forall_impl; [by eapply local_ranges_loop_spec|]. intros source Hp grouped copies Hg Hk Hne.
  destruct (Hp grouped copies Hg Hk Hne) as (r & Hr & ?). exists r. split; [|done]. by rewrite py_sorted_perm.
Qed.
End local_ranges.

(** ** Concrete runs *)

Definition sample_dtype (name : pystr) : option Z :=
  if decide (name = lit "torch.float32" ∨ name = lit "float32") then Some 4 else None.
Lemma sample_sizes name size : sample_dtype name = Some size → 0 < size.
Proof. unfold sample_dtype. case_decide; intros; simplify_eq. lia. Qed.

(** A transposed 2x3 block inside a 4x4 tensor of the file [f]. *)
Definition sample_copy : RecoveryCopy :=
  Copy (lit "w") (lit "f") (lit "F32") [4; 4] 100 64 (lit "torch.float32") 16 [3; 2] [1; 4]
    (lit "w") (lit "torch.float32") [3; 2] 0 [3; 2] [2; 1] 24.

Lemma packed_extents_gather_witness : ∃ xs, packed_copy_extents sample_dtype sample_copy 8 = Ok xs
  ∧ (concat (packed_moves <$> xs)).*2 = seqZ 8 24.
Proof.
  destruct (packed_extents_gather sample_dtype sample_sizes sample_copy 8 6 1 4) as (xs & E & _ & _ & Hs); [vm_compute; reflexivity|].
  exists xs. split; [exact E|exact Hs].
Defined.

Lemma packed_work_bounded_witness : ∃ work, rank_local_packed_work sample_dtype [sample_copy; sample_copy] 24 = Ok work
  ∧ length work = 2%nat ∧ Forall (work_ok sample_dtype 24) work.
Proof.
  eexists. split; [vm_compute; reflexivity|]. split; [reflexivity|].
  eapply (packed_work_bounded sample_dtype sample_sizes [sample_copy; sample_copy] 24). vm_compute. reflexivity.
Defined.

Definition sample_source : source_id * SafetensorDescriptor :=
  (source_key sample_copy, Descriptor (lit "w") (lit "F32") [4; 4] 100 64).
Definition sample_table : list (source_id * list RecoveryCopy) := [(source_key sample_copy, [sample_copy])].

Lemma transport_owner_consumes_witness : ∃ result,
  replay_transport_owners (λ _, fzero) [sample_source] [[]; sample_table] 2 0 None None = Ok result
  ∧ Forall2 (λ row a, a.2 = consumers_of [[]; sample_table] row.1 ∧ a.1 ∈ a.2) [sample_source] result.
Proof.
  eexists. split; [vm_compute; reflexivity|].
  eapply (transport_owner_consumes (λ _, fzero) [sample_source] [[]; sample_table] 2 0 None None); [lia|done|vm_compute; reflexivity].
Defined.

Lemma local_ranges_cover_witness : ∃ ranges,
  rank_local_replay_ranges sample_dtype [sample_source] [[]; sample_table] 1 = Ok (Some ranges)
  ∧ Forall (source_planned sample_dtype [[]; sample_table] 1 ranges) [sample_source].
Proof.
  eexists. split; [vm_compute; reflexivity|].
  eapply (local_ranges_cover sample_dtype [sample_source] [[]; sample_table] 1). vm_compute. reflexivity.
Defined.
