(* ===== verification/ReplayRestore.v ===== *)
(** * Recovery loader: a packed replay restores every destination

    What the replay needs of the native hydrator and of torch are the classes
    [Transfer] and [TensorCopy]; the theorems are proved against them, and reference
    implementations show that both can be met. *)

From Stdlib Require Import SpecFloat.
From S2P Require Import Prelude Ranges PyFloat PyJson Hydration HydrationSpec Recovery RecoverySpec Replay ReplaySpec.

(** The bytes of a view, element by element in row-major order. *)
Definition bytes_of (v : view) : list Z := view_bytes (v_address v) (v_element v) (v_shape v) (v_stride v).

Notation all_moves extents := (concat (extent_moves <$> extents)).

(** ** Interfaces *)

(** A successful transfer writes the file's bytes at the extents' destinations; any
    transfer writes nowhere else. [content path offset] is the byte of a file. *)
Class Transfer (content : pystr → Z → N)
    (transfer : pystr → pystr → list HydrationExtent → (Z → N) → res unit * (Z → N)) := {
  transfer_writes backend path extents m m' : transfer backend path extents m = (Ok tt, m') →
    NoDup (all_moves extents).*2 → Forall (λ p, m' p.2 = content path p.1) (all_moves extents);
  transfer_frame backend path extents m a : a ∉ (all_moves extents).*2 → (transfer backend path extents m).2 a = m a;
}.

(** [dst.copy_(src)] between views of one dtype and shape copies their bytes; it writes
    nothing but [dst]. *)
Class TensorCopy (copy_ : view → view → (Z → N) → (Z → N)) := {
  copy_same dst src m : v_dtype dst = v_dtype src → v_shape dst = v_shape src → v_element dst = v_element src →
    NoDup (bytes_of dst) → (∀ a, a ∈ bytes_of dst → a ∉ bytes_of src) →
    length (bytes_of dst) = length (bytes_of src) →
    Forall2 (λ a b, copy_ dst src m a = m b) (bytes_of dst) (bytes_of src);
  copy_frame dst src m a : a ∉ bytes_of dst → copy_ dst src m a = m a;
}.

(** Reference implementations. *)
Fixpoint write_moves (content : Z → N) (l : list (Z * Z)) (m : Z → N) : Z → N :=
  match l with
  | [] => m
  | (o, a) :: l' => let m' := write_moves content l' m in λ x, if x =? a then content o else m' x
  end.
Definition reference_transfer (content : pystr → Z → N) (backend path : pystr) (extents : list HydrationExtent)
    (m : Z → N) : res unit * (Z → N) := (Ok tt, write_moves (content path) (all_moves extents) m).

Lemma write_moves_frame content l m a : a ∉ l.*2 → write_moves content l m a = m a.
Proof.
  induction l as [|[o b] l IH]; csimpl; [done|]. intros [Hne Hn]%not_elem_of_cons.
  destruct (Z.eqb_spec a b); [done|]. by apply IH.
Qed.

Lemma write_moves_at content l m : NoDup l.*2 → Forall (λ p, write_moves content l m p.2 = content p.1) l.
Proof.
  induction l as [|[o b] l IH]; csimpl; [constructor|]. intros [Hb HN]%NoDup_cons. constructor; [cbn; by rewrite Z.eqb_refl|].
  specialize (IH HN). rewrite Forall_forall in IH |- *. intros p Hp. cbn.
  destruct (Z.eqb_spec p.2 b) as [<-|]; [|by apply IH]. destruct Hb. by apply list_elem_of_fmap_2.
Qed.

#[global] Instance reference_transfer_ok content : Transfer content (reference_transfer content).
Proof.
  split.
  - intros backend path extents m m' [= <-] HN. by apply write_moves_at.
  - intros. by apply write_moves_frame.
Qed.

Definition reference_copy (dst src : view) (m : Z → N) : Z → N := write_moves m (zip (bytes_of src) (bytes_of dst)) m.

#[global] Instance reference_copy_ok : TensorCopy reference_copy.
Proof.
  split.
  - intros dst src m _ _ _ HN _ Hl. unfold reference_copy. apply Forall2_same_length_lookup. split; [done|].
    intros i a b Ha Hb. pose proof (write_moves_at m (zip (bytes_of src) (bytes_of dst)) m) as HF.
    rewrite snd_zip in HF by lia. specialize (HF HN). rewrite Forall_forall in HF.
    specialize (HF (b, a)). apply HF. apply list_elem_of_lookup_2 with (i := i). apply lookup_zip_with_Some. eauto.
  - intros dst src m a Ha. apply write_moves_frame. intros Hin. destruct Ha.
    apply list_elem_of_fmap in Hin as ([b a'] & -> & Hin). by apply elem_of_zip_r in Hin.
Qed.

(** ** Hydrating owned extents *)

Section hydrate.
Context (content : pystr → Z → N) (transfer : pystr → pystr → list HydrationExtent → (Z → N) → res unit * (Z → N)).
Context `{!Transfer content transfer}.
Context (direct_available : bool) (filesystem_type : pystr → res pystr).

Lemma not_in_perm {A} (l k : list A) x : l ≡ₚ k → x ∉ k → x ∉ l.
Proof. intros Hp Hx Hin. apply Hx. by rewrite <- Hp. Qed.

Lemma transfer_Ok backend path extents m m' : transfer backend path extents m = (Ok tt, m') →
  NoDup (all_moves extents).*2 →
  Forall (λ p, m' p.2 = content path p.1) (all_moves extents)
  ∧ ∀ a, a ∉ (all_moves extents).*2 → m' a = m a.
Proof using Type*.
  intros E HN. split; [by eapply transfer_writes|]. intros a Ha.
  pose proof (transfer_frame backend path extents m a Ha) as Hf. by rewrite E in Hf.
Qed.

Lemma native_hydrate_delivers_all path extents backend m r m' :
  Forall valid_extent extents → NoDup (all_moves extents).*2 →
  native_hydrate_owned transfer direct_available filesystem_type path extents backend m = (Ok r, m') →
  Forall (λ p, m' p.2 = content path p.1) (all_moves extents)
  ∧ ∀ a, a ∉ (all_moves extents).*2 → m' a = m a.
Proof using Type*.
  intros HV HN E. unfold native_hydrate_owned in E.
  set (plan := _ ≫= _) in E. destruct plan as [[direct buffered]|] eqn:Ep; [|done].
  assert (all_moves (direct ++ buffered) ≡ₚ all_moves extents) as Hp.
  { unfold plan in Ep. res_inv. destruct (bool_decide (_ = lit "direct") && direct_available); [|by res_inv; simplify_eq].
    destruct (split_extents_spec extents 12) as (d & b & Hs & _ & _ & Hm); [lia|done|].
    change (2 ^ 12) with 4096 in Hs. rewrite Hs in Ep. injection Ep as -> ->. done. }
  clear plan Ep. rewrite fmap_app, concat_app in Hp.
  assert (NoDup (all_moves direct ++ all_moves buffered).*2) as HN' by (by rewrite Hp).
  rewrite fmap_app in HN'. apply NoDup_app in HN' as (HNd & Hdis & HNb).
  (* the outcome of the buffered part, from any memory *)
  assert (∀ b m1 m2, b = buffered ∨ b = extents → match b with [] => (Ok tt, m1) | _ => transfer (lit "buffered") path b m1 end = (Ok tt, m2) →
    Forall (λ p, m2 p.2 = content path p.1) (all_moves b) ∧ ∀ a, a ∉ (all_moves b).*2 → m2 a = m1 a) as Hbuf.
  { intros b m1 m2 Hb Et. assert (NoDup (all_moves b).*2) as HNx by (by destruct Hb as [->| ->]).
    destruct b; [by simplify_eq|]. by apply transfer_Ok in Et. }
  destruct direct as [|d0 direct0]; [|destruct (transfer (lit "direct") path (d0 :: direct0) m) as [[[]|e] m1] eqn:Et].
  - set (second := match buffered with [] => _ | _ => _ end) in E.
    destruct second as [[[]|] m2] eqn:Es; [|done]. cbn in E. injection E as _ <-. cbn in Hp.
    destruct (Hbuf buffered m m2) as [HF Hfr]; [by left|exact Es|].
    split; [by rewrite <- Hp|]. intros a Ha. apply Hfr. intros Hin. apply Ha. by rewrite <- Hp.
  - set (direct := d0 :: direct0) in *. apply transfer_Ok in Et as [HFd Hfd]; [|done].
    set (second := match buffered with [] => _ | _ => _ end) in E.
    destruct second as [[[]|] m2] eqn:Es; [|done]. cbn in E. injection E as _ <-.
    destruct (Hbuf buffered m1 m2) as [HF Hfr]; [by left|exact Es|]. split.
    + rewrite <- Hp. apply Forall_app. split; [|done]. rewrite Forall_forall in HFd |- *. intros p Hin.
      rewrite Hfr; [by apply HFd|]. apply Hdis. by apply list_elem_of_fmap_2.
    + intros a Ha. rewrite <- Hp, fmap_app in Ha. apply not_elem_of_app in Ha as [? ?]. by rewrite Hfr, Hfd.
  - destruct (is_io_error (exc e) && bool_decide (backend = lit "auto")); [|done].
    set (second := match extents with [] => _ | _ => _ end) in E.
    destruct second as [[[]|] m2] eqn:Es; [|done]. cbn in E. injection E as _ <-.
    destruct (Hbuf extents m1 m2) as [HF Hfr]; [by right|exact Es|]. split; [done|].
    intros a Ha. rewrite Hfr by done. pose proof (transfer_frame (lit "direct") path (d0 :: direct0) m a) as Hf.
    rewrite Et in Hf. apply Hf. intros Hin. apply Ha. rewrite <- Hp, fmap_app. apply elem_of_app. by left.
Qed.
(** Hydrating through the split pipeline is transparent: whichever backend is
    selected, and also when an [auto] direct read fails and everything is read again
    buffered, a successful [_native_hydrate_owned] leaves the file's byte at every
    destination of the extents and changes no other address. *)
Theorem native_hydrate_delivers path extents backend m r m' :
  Forall valid_extent extents → NoDup (all_moves extents).*2 →
  native_hydrate_owned transfer direct_available filesystem_type path extents backend m = (Ok r, m') →
  Forall (λ p, m' p.2 = content path p.1) (all_moves extents)
  ∧ ∀ a, a ∉ (all_moves extents).*2 → m' a = m a.
Proof using Type*. apply native_hydrate_delivers_all. Qed.
End hydrate.

(** ** Views *)

Lemma contiguous_offsets shape : Forall (λ d, 0 <= d) shape →
  offsets_of (zip shape (contiguous_stride shape)) = seqZ 0 (product shape) ∧ 0 <= product shape.
Proof.
  induction 1 as [|d shape Hd _ [IH Hp]]; [done|]. cbn [contiguous_stride zip zip_with]. rewrite numel_product.
  rewrite (offsets_of_contiguous d (product shape)) by done. unfold product in *. cbn. split; [f_equal; lia|nia].
Qed.

Lemma view_bytes_contiguous base size shape : 0 <= size → Forall (λ d, 0 <= d) shape →
  view_bytes base size shape (contiguous_stride shape) = seqZ base (numel shape * size).
Proof.
  intros Hs HF. destruct (contiguous_offsets shape HF) as [E Hp]. unfold view_bytes, view_offsets.
  by rewrite E, numel_product, seqZ_blocks by lia.
Qed.

Lemma length_concat_const {A B} (f : A → list B) n l : (∀ x, length (f x) = n) →
  length (concat (f <$> l)) = (length l * n)%nat.
Proof. intros Hf. induction l as [|x l IH]; csimpl; [done|]. by rewrite length_app, Hf, IH. Qed.

Lemma length_offsets_of rows : Forall (λ r, 0 <= r.1) rows →
  length (offsets_of rows) = Z.to_nat (product rows.*1) ∧ 0 <= product rows.*1.
Proof.
  induction 1 as [|[d s] rows Hd _ [IH Hp]]; [done|]. cbn [offsets_of fmap list_fmap fst] in *. unfold product in *. cbn [foldr].
  split; [|nia]. rewrite (length_concat_const _ (length (offsets_of rows))) by (intros; apply length_fmap).
  by rewrite length_seqZ, Z2Nat.inj_mul, <- IH.
Qed.

Lemma length_view_bytes base size shape stride : length shape = length stride → Forall (λ d, 0 <= d) shape → 0 <= size →
  length (view_bytes base size shape stride) = Z.to_nat (numel shape * size).
Proof.
  intros Hl HF Hs. unfold view_bytes, view_offsets. rewrite (length_concat_const _ (Z.to_nat size)) by (intros; apply length_seqZ).
  destruct (length_offsets_of (zip shape stride)) as [-> Hp].
  { apply Forall_forall. intros [d s] Hd%elem_of_zip_l. rewrite Forall_forall in HF. by apply HF. }
  rewrite fst_zip in * by lia. by rewrite numel_product, <- Z2Nat.inj_mul.
Qed.

Section restore.
Context (torch_dtype : pystr → option Z).
Hypothesis sizes_positive : ∀ name size, torch_dtype name = Some size → 0 < size.

Lemma typed_storage_view_inv t rel dtype shape stride v :
  typed_storage_view torch_dtype t rel dtype shape stride = Ok v →
  ∃ size, element_size torch_dtype dtype = Ok size ∧ v = View (l_pointer t + rel) dtype size shape stride
  ∧ Forall (λ d, 0 <= d) shape ∧ length shape = length stride.
Proof using sizes_positive.
  unfold typed_storage_view. intros E. res_inv. guards. bools.
  match goal with H : element_size _ _ = Ok ?s |- _ => rename s into size; rename H into Hs end.
  pose proof (element_size_positive _ sizes_positive _ _ Hs) as Hpos.
  match goal with H : existsb (λ d, d <? 0) shape = false |- _ => apply existsb_false in H; rename H into HF end.
  exists size. split_and!; [done|f_equal| |by apply Nat.eqb_eq].
  - match goal with H : _ mod size = 0 |- _ => apply Z.div_exact in H; [|lia]; rewrite Z.mul_comm in H; rewrite <- H end. lia.
  - eapply Forall_impl; [exact HF|]. intros d Hd. cbn in Hd. bools. done.
Qed.

(** ** What a copy reads and writes *)

Context (destinations : list (pystr * live_tensor)).

Definition dest_view (c : RecoveryCopy) : res view :=
  target ← of_option KeyError "destination" (assoc (destination_name c) destinations);
  typed_storage_view torch_dtype target (destination_view_offset_bytes c) (destination_dtype c)
    (destination_view_shape c) (destination_view_stride c).

(** Addresses of the destination view, and file offsets of the source view. *)
Definition dest_bytes (c : RecoveryCopy) : list Z := match dest_view c with Ok v => bytes_of v | Raise _ => [] end.
Definition element_bytes (c : RecoveryCopy) : Z := ok_or 0 (element_size torch_dtype (source_view_dtype c)).
Definition source_bytes (c : RecoveryCopy) : list Z :=
  view_bytes (source_file_offset c + source_view_offset_bytes c) (element_bytes c) (source_view_shape c) (source_view_stride c).
(** The packed copy of the source view in the slab. *)
Definition packed_range (base : Z) (row : RecoveryCopy * Z) : list Z :=
  seqZ (base + row.2) (numel (source_view_shape row.1) * element_bytes row.1).

Lemma packed_views_inv slab c offset dst src :
  packed_copy_views torch_dtype slab destinations c offset = Ok (dst, src) →
  dest_view c = Ok dst ∧ bytes_of src = packed_range (l_pointer slab) (c, offset)
  ∧ v_dtype dst = destination_dtype c ∧ v_dtype src = source_view_dtype c ∧ v_shape dst = v_shape src
  ∧ element_size torch_dtype (v_dtype dst) = Ok (v_element dst) ∧ element_size torch_dtype (v_dtype src) = Ok (v_element src)
  ∧ length (bytes_of dst) = Z.to_nat (numel (v_shape dst) * v_element dst)
  ∧ length (bytes_of src) = Z.to_nat (numel (v_shape src) * v_element src).
Proof using sizes_positive.
  unfold packed_copy_views. intros E. res_inv. guards. simplify_eq.
  match goal with H : typed_storage_view _ slab _ _ _ _ = _ |- _ => apply typed_storage_view_inv in H as (s & Hs & -> & HFs & Hls) end.
  match goal with H : typed_storage_view _ _ _ (destination_dtype c) _ _ = Ok dst |- _ => pose proof H as Hd; apply typed_storage_view_inv in H as (s' & Hs' & -> & HFd & Hld) end.
  pose proof (element_size_positive _ sizes_positive _ _ Hs). pose proof (element_size_positive _ sizes_positive _ _ Hs').
  assert (dest_view c = Ok (View (l_pointer x0 + destination_view_offset_bytes c) (destination_dtype c) s'
    (destination_view_shape c) (destination_view_stride c))) as Hdv.
  { unfold dest_view. match goal with H : assoc _ _ = Some _ |- _ => rewrite H end. exact Hd. }
  split_and!; try done; cbn [v_shape v_element].
  - unfold bytes_of. cbn [v_address v_element v_shape v_stride]. rewrite view_bytes_contiguous by (done || lia). unfold packed_range, element_bytes. cbn. by rewrite Hs.
  - apply length_view_bytes; [done|done|lia].
  - apply length_view_bytes; [done|done|lia].
Qed.

(** ** Staging a batch *)

Lemma checked_group base c xs hs : Forall (λ x, 0 < x_length x) xs → mapM (check_packed c base) xs = Ok hs →
  Forall valid_extent hs ∧ (all_moves hs).*1 = (concat (packed_moves <$> xs)).*1
  ∧ (all_moves hs).*2 = Z.add base <$> (concat (packed_moves <$> xs)).*2.
Proof using.
  intros HF E%mapM_Ok. revert HF. induction E as [|x h xs hs Hx _ IH]; intros HF; [done|].
  inversion_clear HF as [|?? Hl HF']. destruct (IH HF') as (HV & H1 & H2).
  unfold check_packed in Hx. res_inv. apply valid_extent_inv in Hx as (-> & ? & _). csimpl.
  rewrite !fmap_app, H1, H2. split_and!; [by constructor|f_equal..].
  - unfold extent_moves, packed_moves. cbn. by rewrite !moves_fst.
  - unfold extent_moves, packed_moves. cbn. by rewrite !moves_snd, fmap_add_seqZ.
Qed.

Lemma batch_extents_spec base copies offsets es : length offsets = length copies →
  batch_extents torch_dtype base copies offsets = Ok es →
  Forall valid_extent es
  ∧ (all_moves es).*1 = concat (source_bytes <$> copies)
  ∧ (all_moves es).*2 = concat (packed_range base <$> zip copies offsets)
  ∧ Forall (λ c, 0 < numel (source_view_shape c) ∧ Forall (λ d, 0 <= d) (source_view_shape c)
       ∧ length (source_view_shape c) = length (source_view_stride c)
       ∧ element_size torch_dtype (source_view_dtype c) = Ok (element_bytes c) ∧ 0 < element_bytes c) copies.
Proof using sizes_positive.
  intros Hl E. unfold batch_extents in E. res_inv.
  match goal with H : mapM _ _ = Ok ?g |- _ => rename H into Hm, g into groups end. apply mapM_Ok in Hm.
  assert (Forall valid_extent (concat groups) ∧ (all_moves (concat groups)).*1 = concat (source_bytes <$> copies)
    ∧ (all_moves (concat groups)).*2 = concat (packed_range base <$> zip copies offsets)
    ∧ Forall (λ c, 0 < numel (source_view_shape c) ∧ Forall (λ d, 0 <= d) (source_view_shape c)
       ∧ length (source_view_shape c) = length (source_view_stride c)
       ∧ element_size torch_dtype (source_view_dtype c) = Ok (element_bytes c) ∧ 0 < element_bytes c) copies)
    as (HV & H1 & H2 & H3).
  { clear E. revert offsets groups Hl Hm. induction copies as [|c copies IH]; intros [|off offsets] groups Hl Hm; try done.
    { inversion Hm. done. }
    cbn in Hm. inversion_clear Hm as [|?? g groups' Hg Hm']. cbn in Hl. apply IH in Hm' as (HV & H1 & H2 & H3); [|lia].
    cbn in Hg. res_inv.
    match goal with H : packed_copy_extents _ c off = Ok ?x |- _ => rename H into Hx, x into xs end.
    assert (∃ n k size, packed_copy_extent_geometry torch_dtype c = Ok (n, k, size)) as (n & k & size & Hgeo).
    { unfold packed_copy_extents in Hx. res_inv. match goal with H : packed_copy_extent_geometry _ _ = Ok ?p |- _ => destruct p as [[n k] size]; by exists n, k, size end. }
    pose proof (geometry_inv _ _ _ _ _ Hgeo) as (Hes & Hls & HFs & _).
    assert (element_bytes c = size) as Heb by (unfold element_bytes; by rewrite Hes).
    destruct (gather_spec torch_dtype sizes_positive c off n k size Hgeo) as (xs' & Hx' & HFx & Hm1 & Hm2).
    rewrite Hx in Hx'. injection Hx' as <-.
    apply checked_group in Hg as (HVg & Hg1 & Hg2); [|done]. csimpl.
    rewrite fmap_app, concat_app, !fmap_app, Hg1, Hg2, H1, H2, Hm1, Hm2, fmap_add_seqZ. split_and!.
    - by apply Forall_app.
    - f_equal. unfold source_bytes. by rewrite Heb.
    - f_equal. unfold packed_range. cbn. by rewrite Heb.
    - constructor; [|done]. rewrite Heb. split_and!; try done.
      + rewrite numel_product. by apply product_pos.
      + eapply Forall_impl; [exact HFs|]. cbn. lia.
      + by eapply element_size_positive. }
  apply (coalesce_spec _ _ _ extent_moves extent_moves valid_extent valid_extent) in E as [HVe He];
    [|by intros x q Hx [= <-]| |constructor|done].
  2:{ intros p x q Hp Hx Ha (-> & ? & _)%valid_extent_inv. unfold extents_adjacent in Ha. guards. bools.
      apply valid_extent_inv in Hp as (_ & _ & _ & _ & ?). apply valid_extent_inv in Hx as (_ & _ & _ & _ & ?).
      split; [done|]. unfold extent_moves. cbn. rewrite moves_app by lia. congruence. }
  cbn in He. rewrite He. done.
Qed.

Lemma laid_out_disjoint base end_ rows total :
  Forall (λ c, 0 < numel (source_view_shape c) ∧ element_size torch_dtype (source_view_dtype c) = Ok (element_bytes c)
    ∧ 0 < element_bytes c) rows.*1 →
  laid_out torch_dtype end_ rows total → end_ <= total
  ∧ NoDup (concat (packed_range base <$> rows)) ∧ Forall (λ a, base + end_ <= a < base + total) (concat (packed_range base <$> rows)).
Proof using.
  revert end_. induction rows as [|[c off] rows IH]; intros end_ HF Hlay; cbn in Hlay.
  { subst. split_and!; [lia|constructor|constructor]. }
  csimpl in *. inversion_clear HF as [|?? (Hn & He & Hpos) HF']. destruct Hlay as (size & Hs & Ho & _ & Hrest).
  rewrite He in Hs. injection Hs as <-. apply IH in Hrest as (Hle & HN & HB); [|done].
  split_and!; [nia| |].
  - apply NoDup_app. split_and!; [apply NoDup_seqZ| |done]. intros a Ha%elem_of_seqZ Hin.
    rewrite Forall_forall in HB. apply HB in Hin. cbn in Ha. lia.
  - apply Forall_app. split.
    + apply Forall_forall. intros a Ha%elem_of_seqZ. cbn in Ha. nia.
    + eapply Forall_impl; [exact HB|]. cbn. intros a Ha. nia.
Qed.

(** ** Staged and restored bytes *)

Context (content : pystr → Z → N).

Definition holds (m : Z → N) (path : pystr) (addresses offsets : list Z) : Prop :=
  Forall2 (λ a o, m a = content path o) addresses offsets.
Definition staged (m : Z → N) (base : Z) (row : RecoveryCopy * Z) : Prop :=
  holds m (source_path row.1) (packed_range base row) (source_bytes row.1).

(** The destination of a same-dtype copy holds the checkpoint's bytes. *)
Definition restored (m : Z → N) (c : RecoveryCopy) : Prop :=
  source_view_dtype c = destination_dtype c → holds m (source_path c) (dest_bytes c) (source_bytes c).

Lemma holds_frame m m' path addresses offsets : (∀ a, a ∈ addresses → m' a = m a) →
  holds m path addresses offsets → holds m' path addresses offsets.
Proof using.
  intros Hf. unfold holds. induction 1 as [|a o l k Hao _ IH]; constructor; [|apply IH; intros b Hb; apply Hf; by right].
  rewrite Hf; [done|left].
Qed.


(** ** Copies out of the slab *)

Context (copy_ : view → view → (Z → N) → (Z → N)).
Context `{!TensorCopy copy_}.

Notation dests copies := (concat (dest_bytes <$> copies)).

Lemma Forall2_compose {A B C} (P : A → B → Prop) (Q : B → C → Prop) (R : A → C → Prop) l k j :
  (∀ a b c, P a b → Q b c → R a c) → Forall2 P l k → Forall2 Q k j → Forall2 R l j.
Proof using.
  intros HR HP. revert j. induction HP as [|a b l k Hab _ IH]; intros j HQ; inversion_clear HQ; constructor; eauto.
Qed.

Lemma apply_loop_spec slab copied rows m r m' :
  apply_loop torch_dtype copy_ slab destinations copied rows m = (Ok r, m') →
  NoDup (dests rows.*1) → Forall (λ row, ∀ a, a ∈ packed_range (l_pointer slab) row → a ∉ dests rows.*1) rows →
  Forall (staged m (l_pointer slab)) rows →
  Forall (restored m') rows.*1 ∧ ∀ a, a ∉ dests rows.*1 → m' a = m a.
Proof using sizes_positive TensorCopy0.
  revert copied m. induction rows as [|[c off] rows IH]; intros copied m E HN Hd Hs; cbn in E.
  { injection E as _ <-. split; [constructor|done]. }
  destruct (packed_copy_views torch_dtype slab destinations c off) as [[dst src]|] eqn:Ev; [|done].
  apply packed_views_inv in Ev as (Hdv & Hsrc & Hdt & Hst & Hsh & Hde & Hse & Hdl & Hsl).
  assert (dest_bytes c = bytes_of dst) as Hdb by (unfold dest_bytes; by rewrite Hdv).
  csimpl in *. rewrite Hdb in *. apply NoDup_app in HN as (HNc & Hdis & HNr).
  inversion_clear Hd as [|?? Hd0 Hdr]. inversion_clear Hs as [|?? Hs0 Hsr].
  apply IH in E as [HR Hf].
  - split.
    + constructor; [|done]. intros Heq. rewrite Hdb.
      apply (holds_frame (copy_ dst src m)); [intros a Ha; by apply Hf, Hdis|].
      assert (v_dtype dst = v_dtype src) as Hty by congruence.
      assert (Ok (v_element dst) = Ok (v_element src)) as [= Hel] by (by rewrite <- Hde, <- Hse, Hty).
      eapply Forall2_compose; [|apply copy_same; [done|done|done|done| |by rewrite Hdl, Hsl, Hsh, Hel]|rewrite Hsrc; exact Hs0].
      * intros a b o Hab Hbo. cbn in Hab, Hbo. by rewrite Hab.
      * intros a Ha. rewrite Hsrc. intros Hin. apply Hd0 in Hin. apply Hin, elem_of_app. by left.
    + intros a Ha. apply not_elem_of_app in Ha as [Ha1 Ha2]. rewrite Hf by done. by apply copy_frame.
  - done.
  - eapply Forall_impl; [exact Hdr|]. intros row Hrow a Ha Hin. apply (Hrow a Ha), elem_of_app. by right.
  - rewrite Forall_forall in Hsr, Hdr |- *. intros row Hrow. specialize (Hsr row Hrow).
    eapply holds_frame; [|exact Hsr]. intros a Ha. apply copy_frame. intros Hin.
    apply (Hdr row Hrow a Ha), elem_of_app. by left.
Qed.

(** What lands in the slab, copy by copy. *)
Lemma staged_rows m path base l rows : Forall (λ p, m p.2 = content path p.1) l →
  l.*1 = concat ((λ row, source_bytes row.1) <$> rows) → l.*2 = concat (packed_range base <$> rows) →
  Forall (λ row, source_path row.1 = path ∧ length (source_bytes row.1) = length (packed_range base row)) rows →
  Forall (staged m base) rows.
Proof using.
  intros HF H1 H2 HR. assert (Forall2 (λ a o, m a = content path o) l.*2 l.*1) as H.
  { clear -HF. induction HF as [|p l Hp _ IH]; csimpl; constructor; done. }
  rewrite H1, H2 in H. clear H1 H2 HF. revert H. induction HR as [|row rows [Hp Hl] _ IH]; [constructor|]. csimpl. intros H.
  apply Forall2_app_inv in H as [Hrow Hrest]; [|done]. constructor; [|by apply IH]. unfold staged, holds. by rewrite Hp.
Qed.

(** ** The whole replay *)

Context (transfer : pystr → pystr → list HydrationExtent → (Z → N) → res unit * (Z → N)).
Context `{!Transfer content transfer}.
Context (direct_available : bool) (filesystem_type : pystr → res pystr).

(** One batch: its layout and extents, the hydration of the slab, the copies. *)
Lemma packed_batch_spec slab backend path copies offsets total es m count m1 bytes copied m2 :
  Forall (λ c, source_path c = path) copies →
  replay_pack_layout torch_dtype copies = Ok (offsets, total) →
  batch_extents torch_dtype (l_pointer slab) copies offsets = Ok es →
  native_hydrate_owned transfer direct_available filesystem_type path es backend m = (Ok count, m1) →
  apply_packed_recovery_copies torch_dtype copy_ copies (batch_slab slab bytes) destinations m1 = (Ok copied, m2) →
  NoDup (dests copies) → (∀ a, a ∈ dests copies → ¬ (l_pointer slab <= a < l_pointer slab + total)) →
  Forall (restored m2) copies
  ∧ ∀ a, a ∉ dests copies → ¬ (l_pointer slab <= a < l_pointer slab + total) → m2 a = m a.
Proof using All.
  intros Hpath Hlay Hext Hhyd Happ HN Hdis.
  pose proof (pack_loop_laid_out _ sizes_positive _ _ _ _ Hlay) as [Hl Hlaid].
  pose proof (batch_extents_spec _ _ _ _ Hl Hext) as (HV & H1 & H2 & HC).
  assert ((zip copies offsets).*1 = copies) as Hz by (by rewrite fst_zip by lia).
  destruct (laid_out_disjoint (l_pointer slab) 0 (zip copies offsets) total) as (Ht & HNp & HB); [|done|].
  { rewrite Hz. eapply Forall_impl; [exact HC|]. naive_solver. }
  rewrite Z.add_0_r in HB.
  destruct (native_hydrate_delivers_all content transfer direct_available filesystem_type path es backend m count m1) as [HF Hfr];
    [done|by rewrite H2|done|].
  assert (Forall (staged m1 (l_pointer slab)) (zip copies offsets)) as Hst.
  { apply (staged_rows m1 path (l_pointer slab) (all_moves es)); [done| |done|].
    - rewrite H1. f_equal. rewrite <- Hz at 1. by rewrite <- list_fmap_compose.
    - apply Forall_forall. intros [c off] Hin%elem_of_zip_l. cbn. rewrite Forall_forall in Hpath, HC.
      destruct (HC c Hin) as (? & ? & ? & ? & ?). split; [by apply Hpath|].
      unfold source_bytes, packed_range. rewrite length_view_bytes, length_seqZ by (done || lia). done. }
  unfold apply_packed_recovery_copies in Happ. rewrite Hlay in Happ. cbn [mbind res_bind snd fst] in Happ.
  destruct (raise_if _ _ _) as [[]|]; [|done]. cbn [mbind res_bind mret res_ret] in Happ.
  apply apply_loop_spec in Happ as [HR Hf2]; rewrite ?Hz in *; [|done| |done].
  - split; [done|]. intros a Ha Hout. rewrite Hf2 by done. apply Hfr. rewrite H2. intros Hin.
    rewrite Forall_forall in HB. by apply Hout, HB.
  - apply Forall_forall. intros row Hrow a Ha Hin. apply (Hdis a Hin). rewrite Forall_forall in HB. apply HB.
    apply elem_of_concat_fmap. exists row. split; [done|exact Ha].
Qed.

Lemma packed_replay_loop_spec slab backend totals work limit m t m' :
  packed_replay_loop torch_dtype transfer copy_ direct_available filesystem_type slab backend destinations totals work m = (Ok t, m') →
  Forall (λ w, Forall (λ c, source_path c = w.1) w.2) work →
  Forall (λ w, ∃ offsets total, replay_pack_layout torch_dtype w.2 = Ok (offsets, total) ∧ total <= limit) work →
  NoDup (dests (concat work.*2)) →
  (∀ a, a ∈ dests (concat work.*2) → ¬ (l_pointer slab <= a < l_pointer slab + limit)) →
  Forall (restored m') (concat work.*2)
  ∧ ∀ a, a ∉ dests (concat work.*2) → ¬ (l_pointer slab <= a < l_pointer slab + limit) → m' a = m a.
Proof using All.
  revert totals m. induction work as [|[path copies] work IH]; intros totals m E HP HL HN Hdis; cbn in E.
  { injection E as _ <-. split; [constructor|done]. }
  csimpl in *. rewrite fmap_app, concat_app in *. apply NoDup_app in HN as (HNc & Hcross & HNw).
  inversion_clear HP as [|?? Hpath HP']. inversion_clear HL as [|?? (offsets & total & Hlay & Hle) HL'].
  cbn [fst snd] in Hlay, Hpath.
  rewrite Hlay in E. cbn [mbind res_bind fst snd] in E.
  destruct (batch_extents torch_dtype (l_pointer slab) copies offsets) as [es|] eqn:Hext; [|done].
  cbn [mbind res_bind mret res_ret] in E.
  destruct (native_hydrate_owned transfer direct_available filesystem_type path es backend m) as [[[count eff]|] m1] eqn:Hhyd; [|done].
  destruct (apply_packed_recovery_copies _ _ _ _ _ _) as [[copied|] m2] eqn:Happ; [|done].
  destruct (packed_batch_spec slab backend path copies offsets total es m (count, eff) m1 total copied m2) as [HR Hf];
    [done|done|done|done|done|done| |].
  { intros a Ha Hin. apply (Hdis a); [apply elem_of_app; by left|lia]. }
  apply IH in E as [HRw Hfw]; [|done|done|done|].
  2:{ intros a Ha. apply Hdis, elem_of_app. by right. }
  split.
  - apply Forall_app. split; [|done]. rewrite Forall_forall in HR |- *. intros c Hc Heq.
    eapply holds_frame; [|by apply (HR c Hc)]. intros a Ha.
    assert (a ∈ dests copies) as Hin by (apply elem_of_concat_fmap; eauto).
    apply Hfw; [by apply Hcross|]. apply Hdis, elem_of_app. by left.
  - intros a Ha Hout. apply not_elem_of_app in Ha as [Ha1 Ha2]. rewrite Hfw by done. apply Hf; [done|]. lia.
Qed.

(** C8. A packed replay restores the model when its destinations are apart, which the loader does
    not check: if [_execute_rank_local_packed_replay] returns, no byte occurs twice among the
    destinations of the copies, and none of their bytes lies in the fresh staging slab, then every
    destination whose dtype is its source's holds exactly the checkpoint bytes of its source view,
    element by element, and nothing but destinations and slab was written. Transfers of the native
    library and copies between tensors are taken to move the bytes they name, and to write nothing
    else; dtypes have positive sizes. *)
Theorem packed_replay_restores allocate failed_peers backend copies staging_bytes m t m' :
  execute_rank_local_packed_replay torch_dtype transfer copy_ direct_available filesystem_type allocate failed_peers
    backend copies destinations staging_bytes m = (Ok t, m') →
  NoDup (dests copies) →
  (∀ n a, a ∈ dests copies → ¬ (l_pointer (allocate n) <= a < l_pointer (allocate n) + n)) →
  Forall (restored m') copies
  ∧ ∃ n, n <= staging_bytes
    ∧ ∀ a, a ∉ dests copies → ¬ (l_pointer (allocate n) <= a < l_pointer (allocate n) + n) → m' a = m a.
Proof using All.
  intros E HN Hfresh. unfold execute_rank_local_packed_replay in E.
  set (plan := _ ≫= _) in E. destruct plan as [[work largest]|] eqn:Ep; [|done]. unfold plan in Ep. clear plan. res_inv. simplify_eq.
  match goal with H : rank_local_packed_work _ _ _ = Ok ?w |- _ => rename H into Hwork; rename w into work end.
  match goal with H : mapM _ work = Ok ?s |- _ => rename H into Hsizes, s into sizes end.
  match goal with H : bool_decide (work = []) = false |- _ => apply bool_decide_eq_false in H as Hne end.
  apply (packed_work_spec torch_dtype sizes_positive) in Hwork as [Hperm HW].
  assert (dests (concat work.*2) ≡ₚ dests copies) as Hd by (by apply concat_fmap_perm).
  apply mapM_Ok in Hsizes.
  assert (Forall (λ w, ∃ offsets total, replay_pack_layout torch_dtype w.2 = Ok (offsets, total) ∧ total <= list_max sizes) work) as HL.
  { apply Forall_forall. intros w Hw. destruct (Forall2_elem_l _ _ _ _ Hsizes Hw) as (n & Hn & Hlay). res_inv.
    match goal with H : replay_pack_layout _ _ = Ok ?l |- _ => destruct l as [offs tot]; exists offs, tot end.
    split; [done|]. cbn in *. by apply list_max_ge. }
  assert (list_max sizes <= staging_bytes) as Hmax.
  { destruct work as [|w0 work0]; [done|]. apply (list_max_le sizes).
    - inversion Hsizes. done.
    - apply Forall_forall. intros n Hn. apply list_elem_of_lookup_1 in Hn as [i Hi].
      destruct (Forall2_lookup_r _ _ _ _ _ Hsizes Hi) as (w & Hw & Hlay). res_inv.
      rewrite Forall_forall in HW. apply list_elem_of_lookup_2, HW in Hw as (_ & _ & offs & tot & Hlay' & Hle).
      match goal with H : replay_pack_layout _ _ = Ok ?l |- _ => rewrite Hlay' in H; injection H as <- end. done. }
  destruct (packed_replay_loop _ _ _ _ _ _ _ _ _ _ _) as [outcome m1] eqn:El.
  assert (outcome = Ok t ∧ m1 = m') as [-> ->].
  { destruct failed_peers as [n|]; [|by simplify_eq]. injection E as E1 <-. split; [|done]. res_inv. by simplify_eq. }
  apply (packed_replay_loop_spec _ _ _ _ (list_max sizes)) in El as [HR Hf].
  - split; [by rewrite <- Hperm|]. exists (list_max sizes). split; [done|]. intros a Ha. apply Hf. by rewrite Hd.
  - eapply Forall_impl; [exact HW|]. by intros w (_ & ? & _).
  - done.
  - by rewrite Hd.
  - intros a. rewrite Hd. apply Hfresh.
Qed.
End restore.

(** ** Concrete runs *)

Definition sample_content (path : pystr) (offset : Z) : N := Z.to_N (offset mod 251).
Definition sample_extent : HydrationExtent := extent_at 4000 20480 9000.
Definition blank : Z → N := λ _, 0%N.

(** A direct middle part and two buffered ends. *)
Definition sample_hydrate : res (Z * pystr) * (Z → N) :=
  native_hydrate_owned (reference_transfer sample_content) true (λ _, Ok (lit "ext4")) (lit "f") [sample_extent] (lit "direct") blank.

Lemma native_hydrate_delivers_witness : ∃ r m', sample_hydrate = (Ok r, m') ∧ ∀ a, a ∉ (all_moves [sample_extent]).*2 → m' a = 0%N.
Proof.
  assert (sample_hydrate = (Ok (3, lit "direct+buffered-edges"), sample_hydrate.2)) as E
    by (rewrite (surjective_pairing sample_hydrate) at 1; f_equal; vm_compute; reflexivity).
  exists (3, lit "direct+buffered-edges"), sample_hydrate.2. split; [exact E|].
  refine (proj2 (native_hydrate_delivers sample_content (reference_transfer sample_content) true (λ _, Ok (lit "ext4"))
    (lit "f") [sample_extent] (lit "direct") blank (3, lit "direct+buffered-edges") sample_hydrate.2 _ _ E)).
  - apply Forall_cons. split; [vm_compute; reflexivity|apply Forall_nil_2].
  - change (all_moves [sample_extent]) with (extent_moves sample_extent ++ []). rewrite app_nil_r. unfold extent_moves.
    rewrite moves_snd. apply NoDup_seqZ.
Defined.

Definition sample_live : list (pystr * live_tensor) := [(lit "w", Live 1000 24 1000 24)].
Definition sample_slab (n : Z) : live_tensor := Live 5000 n 5000 n.
Definition sample_replay : res replay_totals * (Z → N) :=
  execute_rank_local_packed_replay sample_dtype (reference_transfer sample_content) reference_copy false (λ _, Ok (lit "ext4"))
    sample_slab None (lit "buffered") [sample_copy] sample_live 64 blank.

Lemma packed_replay_restores_witness : ∃ t m', sample_replay = (Ok t, m')
  ∧ Forall (restored sample_dtype sample_live sample_content m') [sample_copy].
Proof.
  destruct sample_replay as [[t|e] m'] eqn:E; [|exfalso; apply (f_equal fst) in E; vm_compute in E; discriminate E].
  exists t, m'. split; [reflexivity|].
  assert (forallb (λ a, a <? 5000) (concat (dest_bytes sample_dtype sample_live <$> [sample_copy])) = true) as Hlow by (vm_compute; reflexivity).
  refine (proj1 (packed_replay_restores sample_dtype sample_sizes sample_live sample_content reference_copy
    (reference_transfer sample_content) false (λ _, Ok (lit "ext4")) sample_slab None (lit "buffered") [sample_copy] 64 blank t m' E _ _)).
  - by apply has_dups_false; vm_compute.
  - intros n a Ha. apply Is_true_true, forallb_True in Hlow. rewrite Forall_forall in Hlow. apply Hlow, Is_true_true, Z.ltb_lt in Ha. cbn. lia.
Defined.
