(* ===== verification/DiskLayout.v ===== *)
(** * Disk backend: byte layout of a hibernated weight pool

    [integrations/vllm/coldsnap_disk_backend.py], the part that divides the weight pool
    between the model payload and the residual blob: the bound semantic layout, the
    partition of allocations into model and residual extents, the sharing of residual
    pieces between providers, the checks on a residual file, the relocation of a portable
    manifest onto a fresh address layout, and the chunks of a restore.

    An extent is the dictionary the code passes around: address, size, owning
    allocation, the semantic id of a model extent, and its remaining keys (file offset,
    checksums). Manifest fields are taken as typed, after JSON decoding. *)

From S2P Require Import Prelude Ranges PyFloat PyJson Hash Hydration Recovery.

Definition PRESERVED_REGION : pystr := lit "weights".
Definition WEIGHT_SOURCE_SPLIT_NATIVE : pystr := lit "split-native".
Definition RESIDUAL_LAYOUT_SHARED : pystr := lit "shared-padded-v1".

Record allocation := Alloc { a_pointer : Z; a_size : Z; a_tag : pystr }.

#[global] Instance allocation_eq_dec : EqDecision allocation.
Proof. solve_decision. Defined.

Record extent := Ext {
  x_ptr : Z; x_size : Z; x_alloc : Z; x_semantic : option pystr; x_rest : list (pystr * json);
}.

(** ** Packed files and chunks *)

Definition packed_align (value : Z) : Z := (value + 4096 - 1) / 4096 * 4096.
Definition packed_extent_bytes (extents : list extent) : Z := zsum ((λ x, packed_align (x_size x)) <$> extents).

(** [_split_direct_hydration_extents], with [alignment] positive. *)
Definition split_direct_hydration_extents (extents : list HydrationExtent) (alignment : Z)
    : res (list HydrationExtent * list HydrationExtent) :=
  parts ← mapM (λ e, split_extent e
    ((h_file_offset e + alignment - 1) / alignment * alignment)
    ((h_file_offset e + h_length e) / alignment * alignment)) extents;
  mret (concat_pairs parts).

(** [_chunk_descriptors]: destination, file offset, count and allocation of each chunk. The
    fuel is the size: every round copies at least one byte. *)
Fixpoint entry_chunks (fuel : nat) (ptr size file_offset chunk_bytes copied : Z) : list (Z * Z * Z * Z) :=
  match fuel with
  | O => []
  | S fuel' =>
      if copied <? size then
        let count := Z.min chunk_bytes (size - copied) in
        (ptr + copied, file_offset + copied, count, ptr) :: entry_chunks fuel' ptr size file_offset chunk_bytes (copied + count)
      else []
  end.
Definition chunk_descriptors (entries : list (Z * Z * Z)) (chunk_bytes : Z) : list (Z * Z * Z * Z) :=
  concat ((λ e : Z * Z * Z, let '(ptr, size, offset) := e in
    entry_chunks (Z.to_nat size) ptr size offset chunk_bytes 0) <$> entries).

(** ** The bound layout *)

Notation semantic_range := (Z * Z * pystr)%type (only parsing).

Definition semantic_leb : semantic_range → semantic_range → bool := pair_leb (pair_leb Z.leb Z.leb) str_leb.

(** What the loader binds to the backend. *)
Record bound_layout := Bound {
  model_weight_ranges : list (Z * Z);
  model_weight_semantics : list semantic_range;
  native_model_payload_semantics : list semantic_range;
}.

Definition is_hex64 (s : pystr) : bool :=
  (length s =? 64)%nat && forallb (λ c, is_digit c || ((97 <=? c) && (c <=? 102))%N) s.

Fixpoint ranges_loop (previous_end : Z) (ranges : list (Z * Z)) : res unit :=
  match ranges with
  | [] => mret tt
  | (pointer, size) :: rest =>
      _ ← raise_if ((pointer <=? 0) || (size <=? 0) || (pointer <? previous_end))
          ValueError "model weight ranges must be positive and disjoint";
      ranges_loop (pointer + size) rest
  end.

(** [set_model_weight_ranges]; [ordinal_id] is the SHA-256 of ["ordinal:i:size:n"]. *)
Definition ordinal_id (index : nat) (size : Z) : pystr :=
  hexdigest (lit "ordinal:" ++ str_of_Z (Z.of_nat index) ++ lit ":size:" ++ str_of_Z size).
Definition set_model_weight_ranges (ranges : list (Z * Z)) (b : bound_layout) : res bound_layout :=
  let normalized := py_sorted (pair_leb Z.leb Z.leb) ranges in
  _ ← ranges_loop 0 normalized;
  mret (Bound normalized (imap (λ i r, (r.1, r.2, ordinal_id i r.2)) normalized) (native_model_payload_semantics b)).

(** [set_model_weight_semantics] *)
Definition set_model_weight_semantics (layout : list semantic_range) (b : bound_layout) : res bound_layout :=
  let normalized := py_sorted semantic_leb layout in
  let expected := remove_dups (model_weight_ranges b) in
  let ids := normalized.*2 in
  _ ← raise_if (negb (set_eqb normalized.*1 expected) || negb (length normalized =? length expected)%nat
                || has_dups ids || negb (forallb is_hex64 ids)) ValueError "model weight semantic layout is invalid";
  mret (Bound (model_weight_ranges b) normalized (native_model_payload_semantics b)).

(** The checks on a semantic layout in address order. *)
Definition semantic_bad (previous_end : Z) (seen : list pystr) (r : semantic_range) : bool :=
  let '(pointer, size, id) := r in
  (pointer <=? 0) || (size <=? 0) || (pointer <? previous_end) || negb (is_hex64 id) || bool_decide (id ∈ seen).

Fixpoint payload_loop (previous_end : Z) (seen : list pystr) (layout : list semantic_range) : res unit :=
  match layout with
  | [] => mret tt
  | r :: rest =>
      _ ← raise_if (semantic_bad previous_end seen r) ValueError "native model payload semantic layout is invalid";
      payload_loop (r.1.1 + r.1.2) (r.2 :: seen) rest
  end.

(** [set_native_model_payload_semantics] *)
Definition set_native_model_payload_semantics (layout : list semantic_range) (b : bound_layout) : res bound_layout :=
  let normalized := py_sorted semantic_leb layout in
  _ ← payload_loop 0 [] normalized;
  _ ← raise_if (bool_decide (normalized = [])) ValueError "native model payload semantic layout is empty";
  mret (Bound (model_weight_ranges b) (model_weight_semantics b) normalized).

(** ** Model and residual extents *)

(** [by_allocation] as the list of its appends: the allocation and the range. *)
Fixpoint place_loop (allocations : list allocation) (previous_end : Z) (seen : list pystr) (layout : list semantic_range)
    : res (list (Z * semantic_range)) :=
  match layout with
  | [] => mret []
  | r :: rest =>
      let '(pointer, size, id) := r in
      _ ← raise_if (semantic_bad previous_end seen r) RuntimeError "semantic ranges are invalid";
      match filter (λ a, a_pointer a <= pointer ∧ pointer + size <= a_pointer a + a_size a) allocations with
      | [a] =>
          placed ← place_loop allocations (pointer + size) (id :: seen) rest;
          mret ((a_pointer a, (pointer, pointer + size, id)) :: placed)
      | _ => Raise (Exn RuntimeError "range does not resolve to one weight allocation")
      end
  end.

(** The model and residual extents of one allocation from [cursor] on. *)
Fixpoint cut_loop (base cursor end_ : Z) (ranges : list semantic_range) : res (list extent * list extent) :=
  match ranges with
  | [] => mret ([], if cursor <? end_ then [Ext cursor (end_ - cursor) base None []] else [])
  | (start, stop, id) :: rest =>
      _ ← raise_if ((start <? cursor) || (stop <=? start)) RuntimeError "semantic ranges overlap";
      '(model, residual) ← cut_loop base stop end_ rest;
      mret (Ext start (stop - start) base (Some id) [] :: model,
            (if cursor <? start then [Ext cursor (start - cursor) base None []] else []) ++ residual)
  end.

(** [_partition_semantic_weight_extents] *)
Definition partition_semantic_weight_extents (allocations : list allocation) (layout : list semantic_range)
    : res (list extent * list extent) :=
  _ ← raise_if (bool_decide (layout = [])) RuntimeError "no semantic layout";
  placed ← place_loop allocations 0 [] (py_sorted semantic_leb layout);
  parts ← mapM (λ a, cut_loop (a_pointer a) (a_pointer a) (a_pointer a + a_size a)
    (py_sorted semantic_leb ((filter (λ p, p.1 = a_pointer a) placed).*2))) allocations;
  let '(model, residual) := concat_pairs parts in
  _ ← raise_if (bool_decide (model = []) || bool_decide (residual = [])) RuntimeError "requires model and residual byte ranges";
  mret (model, residual).

(** ** Residual files *)

(** An extent of a residual file: offset, size, and its [crc32] when it is a string. *)
Definition is_crc (s : option pystr) : bool :=
  match s with
  | Some s => (length s =? 8)%nat && forallb (λ c, is_digit c || ((97 <=? c) && (c <=? 102))%N) s
  | None => false
  end.

Fixpoint residual_loop (shared : bool) (file_bytes cursor : Z) (extents : list (Z * Z * option pystr)) : res Z :=
  match extents with
  | [] => mret cursor
  | (offset, size, crc) :: rest =>
      _ ← raise_if ((size <=? 0) || (offset <? cursor) || (shared && negb (offset mod 4096 =? 0))
                    || (negb shared && negb (offset =? cursor)) || negb (is_crc crc))
          ValueError "invalid residual extent";
      let cursor := offset + (if shared then packed_align size else size) in
      _ ← raise_if (file_bytes <? cursor) ValueError "residual extent exceeds file";
      residual_loop shared file_bytes cursor rest
  end.

(** [_validate_residual_file_extents] *)
Definition validate_residual_file_extents (extents : list (Z * Z * option pystr)) (file_bytes : Z) (layout : option pystr)
    : res unit :=
  _ ← raise_if (match layout with None => false | Some l => negb (bool_decide (l = RESIDUAL_LAYOUT_SHARED)) end)
      ValueError "unknown residual file layout";
  let shared := bool_decide (layout = Some RESIDUAL_LAYOUT_SHARED) in
  _ ← raise_if ((file_bytes <=? 0) || (shared && negb (file_bytes mod 4096 =? 0))) ValueError "invalid residual file size";
  cursor ← residual_loop shared file_bytes 0 (sort_on (λ x : Z * Z * option pystr, x.1.1) extents);
  raise_if (negb shared && negb (cursor =? file_bytes)) ValueError "residual extents do not cover file".

(** ** Sharing residual pieces *)

(** The events of [_shared_residual_extents] in the order of their appends: allocation,
    address, view and change. *)
Record event := Event { ev_alloc : Z; ev_point : Z; ev_view : nat; ev_delta : Z }.

Definition extent_events (view : nat) (x : extent) : list event :=
  [Event (x_alloc x) (x_ptr x) view 1; Event (x_alloc x) (x_ptr x + x_size x) view (-1)].
Definition view_events (views : list (list extent)) : list event :=
  concat (imap (λ i extents, concat (extent_events i <$> extents)) views).

(** The changes at one point, applied in order. *)
Fixpoint change_loop (active : list Z) (changes : list (nat * Z)) : res (list Z) :=
  match changes with
  | [] => mret active
  | (index, delta) :: rest =>
      a ← of_option IndexError "list index out of range" (active !! index);
      let a' := a + delta in
      _ ← raise_if (negb (a' =? 0) && negb (a' =? 1)) RuntimeError "residual view contains overlapping ranges";
      change_loop (<[ index := a' ]> active) rest
  end.

(** A stored piece, with the views that reference it: the code appends the same
    dictionary to each of them. *)
Record piece := Piece { p_ptr : Z; p_size : Z; p_alloc : Z; p_views : list nat }.

Definition active_views (active : list Z) : list nat :=
  omap (λ p : nat * Z, if p.2 =? 0 then None else Some p.1) (imap pair active).

Fixpoint sweep_loop (alloc : Z) (events : list event) (previous : Z) (active : list Z) (points : list Z) : res (list piece) :=
  match points with
  | [] => mret []
  | pointer :: rest =>
      let here := if (previous <? pointer) && existsb (λ a, negb (a =? 0)) active
                  then [Piece previous (pointer - previous) alloc (active_views active)] else [] in
      active' ← change_loop active ((λ e, (ev_view e, ev_delta e)) <$> filter (λ e, ev_point e = pointer) events);
      others ← sweep_loop alloc events pointer active' rest;
      mret (here ++ others)
  end.

Definition sweep_allocation (views : nat) (events : list event) (alloc : Z) : res (list piece) :=
  let events := filter (λ e, ev_alloc e = alloc) events in
  let points := sorted_set Z.leb (ev_point <$> events) in
  match points with
  | [] => Raise (Exn ValueError "min() arg is an empty sequence")
  | first :: _ => sweep_loop alloc events first (replicate views 0) points
  end.

(** [_shared_residual_extents]: the stored pieces; view [i] references those that name it. *)
Definition shared_residual_extents (views : list (list extent)) : res (list piece) :=
  let events := view_events views in
  pieces ← mapM (sweep_allocation (length views) events) (sorted_set Z.leb (ev_alloc <$> events));
  mret (concat pieces).
Definition references (stored : list piece) (view : nat) : list piece := filter (λ p, view ∈ p_views p) stored.

(** ** Relocating a portable manifest *)

Record split_manifest := Manifest {
  entries : list allocation; weight_source : pystr; portable_model_payload : bool;
  model_weight_extents : list extent; residual_extents : list extent;
  allocation_bytes : Z; residual_bytes : Z;
  relocated_from_captured_va : bool; requires_live_residual_snapshot : bool;
}.

Definition by_pointer (l : list allocation) : list allocation := sort_on a_pointer l.

Definition bad_allocation (a : allocation) : bool :=
  (a_pointer a <? 0) || (a_size a <=? 0) || negb (bool_decide (a_tag a = PRESERVED_REGION)).

Fixpoint live_overlap (live : list allocation) : bool :=
  match live with
  | a :: ((b :: _) as rest) => (a_pointer b <? a_pointer a + a_size a) || live_overlap rest
  | _ => false
  end.

(** [containing_live_allocation] *)
Definition containing (live : list allocation) (pointer size : Z) : res Z :=
  match filter (λ a, a_pointer a <= pointer ∧ pointer + size <= a_pointer a + a_size a) live with
  | [a] => mret (a_pointer a)
  | _ => Raise (Exn RuntimeError "portable native relocated extent crosses a live allocation boundary")
  end.

(** [validate_captured_extent] *)
Definition captured_extent_ok (captured : list allocation) (x : extent) : bool :=
  existsb (λ a, (a_pointer a =? x_alloc x) && (0 <? x_size x) && (a_pointer a <=? x_ptr x)
    && (x_ptr x + x_size x <=? a_pointer a + a_size a)) captured.

(** Ranges in address order that leave no gap from [cursor] to [end_]. *)
Fixpoint covers_loop (cursor end_ : Z) (ranges : list (Z * Z)) : bool :=
  match ranges with
  | [] => cursor =? end_
  | (start, stop) :: rest => (start =? cursor) && (start <? stop) && covers_loop stop end_ rest
  end.
Definition captured_covered (extents : list extent) (a : allocation) : bool :=
  covers_loop (a_pointer a) (a_pointer a + a_size a)
    (py_sorted (pair_leb Z.leb Z.leb) ((λ x, (x_ptr x, x_ptr x + x_size x)) <$> filter (λ x, x_alloc x = a_pointer a) extents)).

(** The gaps the model leaves in one live allocation. *)
Fixpoint gaps_loop (cursor end_ : Z) (ranges : list (Z * Z)) : res (list (Z * Z)) :=
  match ranges with
  | [] => mret (if cursor <? end_ then [(cursor, end_ - cursor)] else [])
  | (start, stop) :: rest =>
      _ ← raise_if ((start <? cursor) || (stop <=? start)) RuntimeError "portable native live model ranges overlap";
      gaps ← gaps_loop stop end_ rest;
      mret ((if cursor <? start then [(cursor, start - cursor)] else []) ++ gaps)
  end.

(** Destinations already filled are skipped. *)
Fixpoint skip_full (offset : Z) (destinations : list (Z * Z)) : list (Z * Z) * Z :=
  match destinations with
  | (p, s) :: rest => if offset =? s then skip_full 0 rest else (destinations, offset)
  | [] => ([], offset)
  end.

Definition move_extent (x : extent) (pointer alloc : Z) : extent :=
  Ext pointer (x_size x) alloc (x_semantic x) (x_rest x).

(** The loop of [relocate_stream] over sources in address order. *)
Fixpoint stream_loop (live : list allocation) (offset : Z) (destinations : list (Z * Z)) (sources : list (nat * extent))
    : res (list (nat * extent)) :=
  let '(destinations, offset) := skip_full offset destinations in
  match sources with
  | [] =>
      _ ← raise_if (negb (bool_decide (destinations = []))) RuntimeError "portable native bytes do not cover the live layout";
      mret []
  | (index, x) :: rest =>
      match destinations with
      | [] => Raise (Exn RuntimeError "portable native bytes exceed the live layout")
      | (p, s) :: _ =>
          _ ← raise_if (s - offset <? x_size x) RuntimeError "portable native extent would cross a live range boundary";
          alloc ← containing live (p + offset) (x_size x);
          others ← stream_loop live (offset + x_size x) destinations rest;
          mret ((index, move_extent x (p + offset) alloc) :: others)
      end
  end.

(** [relocate_stream]: the relocated extents in the order of the sources. *)
Definition relocate_stream (live : list allocation) (sources : list extent) (destinations : list (Z * Z)) : res (list extent) :=
  placed ← stream_loop live 0 destinations (sort_on (λ p : nat * extent, x_ptr p.2) (imap pair sources));
  mret (omap id (foldl (λ r p, <[ p.1 := Some p.2 ]> r) (replicate (length sources) None) placed)).

Definition relocate_model (live : list allocation) (semantics : list semantic_range) (x : extent) : res extent :=
  id ← of_option KeyError "semantic_id" (x_semantic x);
  '(pointer, size, _) ← of_option KeyError "semantic_id" (list_find (λ r : semantic_range, r.2 = id) semantics ≫= λ p, Some p.2);
  _ ← raise_if (negb (x_size x =? size)) RuntimeError "portable native semantic model extent size differs from the live model";
  alloc ← containing live pointer size;
  mret (move_extent x pointer alloc).

(** [_relocate_split_native_manifest] *)
Definition relocate_split_native_manifest (m : split_manifest) (allocations : list allocation)
    (ranges : list (Z * Z)) (semantics : list semantic_range) : res split_manifest :=
  let captured := by_pointer (entries m) in
  let live := by_pointer allocations in
  if decide (captured = live) then mret m else
  if negb (bool_decide (weight_source m = WEIGHT_SOURCE_SPLIT_NATIVE)) || negb (portable_model_payload m) then mret m else
  _ ← raise_if (bool_decide (model_weight_extents m = []) || bool_decide (residual_extents m = []))
      RuntimeError "portable native manifest has invalid extents";
  _ ← raise_if (existsb bad_allocation captured || has_dups (a_pointer <$> captured))
      RuntimeError "portable native captured allocations are invalid";
  _ ← raise_if (existsb bad_allocation live) RuntimeError "portable native live allocations are invalid";
  _ ← raise_if (bool_decide (live = [])) RuntimeError "portable native live allocation map is empty";
  _ ← raise_if (live_overlap live) RuntimeError "portable native live allocations overlap";
  let extents := model_weight_extents m ++ residual_extents m in
  _ ← raise_if (negb (forallb (captured_extent_ok captured) extents))
      RuntimeError "portable native extent does not belong to a captured allocation";
  _ ← raise_if (negb (forallb (captured_covered extents) captured))
      RuntimeError "portable native captured extents do not cover allocations";
  let live_model := py_sorted (pair_leb Z.leb Z.leb) ranges in
  _ ← raise_if (bool_decide (live_model = []) || existsb (λ r : Z * Z, (r.1 <? 0) || (r.2 <=? 0)) live_model)
      RuntimeError "portable native model extents differ from the live model layout";
  owned ← mapM (λ r : Z * Z, a ← containing live r.1 r.2; mret (a, (r.1, r.1 + r.2))) live_model;
  gaps ← mapM (λ a, gaps_loop (a_pointer a) (a_pointer a + a_size a)
    (py_sorted (pair_leb Z.leb Z.leb) ((filter (λ p : Z * (Z * Z), p.1 = a_pointer a) owned).*2))) live;
  let live_residual := concat gaps in
  _ ← raise_if (bool_decide (live_residual = [])) RuntimeError "portable native live layout has no residual ranges";
  ids ← of_option RuntimeError "portable native semantic model layout is invalid" (mapM x_semantic (model_weight_extents m));
  _ ← raise_if (has_dups ids || has_dups semantics.*2 || negb (set_eqb ids semantics.*2)
                || negb (set_eqb semantics.*1 live_model))
      RuntimeError "portable native semantic model layout differs from the live model";
  relocated_model ← mapM (relocate_model live semantics) (model_weight_extents m);
  let captured_residual_bytes := zsum (x_size <$> residual_extents m) in
  let live_residual_bytes := zsum live_residual.*2 in
  let changed := negb (captured_residual_bytes =? live_residual_bytes) in
  relocated_residual ←
    (if changed then mapM (λ r : Z * Z, a ← containing live r.1 r.2; mret (Ext r.1 r.2 a None [])) live_residual
     else relocate_stream live (residual_extents m) live_residual);
  mret (Manifest live (weight_source m) (portable_model_payload m) relocated_model relocated_residual
    (zsum (a_size <$> live)) live_residual_bytes true (changed || requires_live_residual_snapshot m)).

(** The call of [restore]: a native wake relocates by the payload semantics when they are
    bound, and the ranges are those of the semantic layout when there is one. *)
Definition relocation_semantics (native : bool) (b : bound_layout) : list semantic_range :=
  if native && negb (bool_decide (native_model_payload_semantics b = [])) then native_model_payload_semantics b
  else model_weight_semantics b.
Definition relocate_live (native : bool) (b : bound_layout) (m : split_manifest) (allocations : list allocation) : res split_manifest :=
  let semantics := relocation_semantics native b in
  let ranges := if decide (semantics.*1 = []) then model_weight_ranges b else semantics.*1 in
  relocate_split_native_manifest m allocations ranges semantics.
