(* ===== verification/DiskLayoutSpec.v ===== *)
(** * Disk backend: the byte layout is a partition

    Model and residual extents tile the weight pool, accepted residual files hold disjoint
    extents, and the two splitters of direct transfers agree. [DiskShared] and
    [DiskRelocation] continue with shared residual pieces and relocated manifests. *)

From S2P Require Import Prelude Ranges PyFloat PyJson Hash Hydration HydrationSpec Recovery RecoverySpec DiskLayout.

Definition x_bytes (x : extent) : list Z := seqZ (x_ptr x) (x_size x).
Definition a_bytes (a : allocation) : list Z := seqZ (a_pointer a) (a_size a).

(** ** Files *)

(** Both splitters agree: on valid extents and a power-of-two alignment,
    [_split_direct_extents] of the recovery loader and [_split_direct_hydration_extents]
    of the disk backend return the same pieces; the direct ones are block aligned, every
    buffered one is shorter than two blocks, and together they move exactly the bytes of
    the original extents. *)
Theorem splitters_agree extents k : 0 <= k → Forall valid_extent extents →
  ∃ direct buffered,
  split_direct_extents extents (2 ^ k) = Ok (direct, buffered)
  ∧ split_direct_hydration_extents extents (2 ^ k) = Ok (direct, buffered)
  ∧ Forall (direct_part (2 ^ k)) direct ∧ Forall (buffered_part (2 ^ k)) buffered
  ∧ concat (extent_moves <$> direct ++ buffered) ≡ₚ concat (extent_moves <$> extents).
Proof.
  intros Hk HF. destruct (split_extents_spec extents k Hk HF) as (d & b & Hs & Hrest).
  exists d, b. split; [done|]. split; [|done].
  unfold split_direct_extents in Hs. rewrite pow2_guard in Hs by done. cbn [raise_if mbind res_bind] in Hs.
  unfold split_direct_hydration_extents. rewrite <- Hs. f_equal. apply mapM_res_ext. intros e. by rewrite !land_opp_pow2.
Qed.

Definition file_range (shared : bool) (x : Z * Z * option pystr) : list Z :=
  seqZ x.1.1 (if shared then packed_align x.1.2 else x.1.2).

Lemma packed_align_ge z : z <= packed_align z < z + 4096.
Proof. pose proof (align_up_spec z 4096). unfold packed_align, align_up in *. lia. Qed.

Lemma residual_loop_spec shared file_bytes cursor extents final : residual_loop shared file_bytes cursor extents = Ok final →
  cursor <= file_bytes →
  cursor <= final <= file_bytes ∧ NoDup (concat (file_range shared <$> extents))
  ∧ Forall (λ z, cursor <= z < final) (concat (file_range shared <$> extents))
  ∧ (shared = false → concat (file_range shared <$> extents) = seqZ cursor (final - cursor)).
Proof.
  revert cursor. induction extents as [|[[offset size] crc] extents IH]; intros cursor E Hc; cbn in E; res_inv.
  { rewrite Z.sub_diag. split_and!; [lia|lia|constructor|constructor|done]. }
  guards. bools. set (n := if shared then packed_align size else size) in *.
  assert (size <= n) as Hn by (pose proof (packed_align_ge size); destruct shared; lia).
  apply IH in E as (? & HN & HB & Hex); [|done]. csimpl. unfold file_range at 1 3 5. cbn [fst snd]. fold n.
  split_and!; [lia|lia| | |].
  - apply NoDup_app. split_and!; [apply NoDup_seqZ| |done]. intros z Hz%elem_of_seqZ Hin.
    rewrite Forall_forall in HB. apply HB in Hin. lia.
  - apply Forall_app. split; [apply Forall_forall; intros z Hz%elem_of_seqZ; lia|].
    eapply Forall_impl; [exact HB|]. cbn. lia.
  - intros ->. cbn in *. rewrite (Hex eq_refl). assert (offset = cursor) as -> by (destruct (Z.eqb_spec offset cursor); done).
    subst n. replace (final - cursor) with (size + (final - (cursor + size))) by lia. by rewrite <- seqZ_app by lia.
Qed.

(** An accepted residual file is unambiguous: the (padded) file ranges of its extents
    are disjoint and inside the file, and in the legacy layout they cover the file from
    its first to its last byte. *)
Theorem residual_file_disjoint extents file_bytes layout :
  validate_residual_file_extents extents file_bytes layout = Ok tt →
  let shared := bool_decide (layout = Some RESIDUAL_LAYOUT_SHARED) in
  NoDup (concat (file_range shared <$> extents))
  ∧ Forall (λ z, 0 <= z < file_bytes) (concat (file_range shared <$> extents))
  ∧ (layout = None → concat (file_range shared <$> extents) ≡ₚ seqZ 0 file_bytes).
Proof.
  intros E. unfold validate_residual_file_extents in E. cbv zeta in *.
  set (shared := bool_decide (layout = Some RESIDUAL_LAYOUT_SHARED)) in *. res_inv. guards. bools.
  match goal with H : residual_loop _ _ _ ?l = Ok ?f |- _ => rename H into Hl, f into final; set (ordered := l) in * end.
  apply residual_loop_spec in Hl as (Hf & HN & HB & Hex); [|lia].
  assert (ordered ≡ₚ extents) as Hp by apply py_sorted_perm.
  pose proof (concat_fmap_perm (file_range shared) _ _ Hp) as Hperm. split_and!.
  - by rewrite <- Hperm.
  - rewrite <- Hperm. eapply Forall_impl; [exact HB|]. cbn. lia.
  - intros ->. assert (shared = false) as Hs by done. rewrite <- Hperm, Hex by done. rewrite Hs in *. cbn in E. guards. bools.
    subst. by rewrite Z.sub_0_r.
Qed.

Definition chunk_moves (c : Z * Z * Z * Z) : list (Z * Z) := let '(dst, off, n, _) := c in moves off dst n.

Lemma entry_chunks_spec fuel ptr size offset chunk copied : 0 < chunk → 0 <= copied <= size → size - copied <= Z.of_nat fuel →
  concat (chunk_moves <$> entry_chunks fuel ptr size offset chunk copied) = moves (offset + copied) (ptr + copied) (size - copied)
  ∧ Forall (λ c : Z * Z * Z * Z, 0 < c.1.2 <= chunk) (entry_chunks fuel ptr size offset chunk copied).
Proof.
  intros Hc. revert copied. induction fuel as [|fuel IH]; intros copied Hcp Hf; cbn [entry_chunks].
  { rewrite moves_empty by lia. split; [done|constructor]. }
  destruct (Z.ltb_spec copied size); [|rewrite moves_empty by lia; split; [done|constructor]].
  set (n := Z.min chunk (size - copied)). assert (0 < n <= chunk ∧ copied + n <= size) as [? ?] by lia.
  destruct (IH (copied + n)) as [E F]; [lia|lia|]. csimpl. rewrite E. split; [|by constructor].
  replace (size - copied) with (n + (size - (copied + n))) by lia. rewrite moves_app by lia.
  by rewrite !Z.add_assoc.
Qed.

(** ** Model and residual extents *)

Lemma cut_loop_spec base cursor end_ ranges model residual :
  Forall (λ r : Z * Z * pystr, r.1.2 <= end_) ranges → cursor <= end_ →
  cut_loop base cursor end_ ranges = Ok (model, residual) →
  concat (x_bytes <$> model) ++ concat (x_bytes <$> residual) ≡ₚ seqZ cursor (end_ - cursor)
  ∧ (λ x, (x_ptr x, x_ptr x + x_size x, x_semantic x)) <$> model = (λ r, (r.1.1, r.1.2, Some r.2)) <$> ranges
  ∧ Forall (λ x, x_alloc x = base ∧ 0 < x_size x ∧ cursor <= x_ptr x ∧ x_ptr x + x_size x <= end_) (model ++ residual).
Proof.
  intros HF. revert cursor model residual. induction HF as [|[[start stop] id] ranges Hr _ IH]; intros cursor model residual Hc E; cbn in E; res_inv.
  { simplify_eq. destruct (Z.ltb_spec cursor end_); csimpl; rewrite ?app_nil_r.
    - split_and!; [done|done|]. repeat constructor; cbn; lia.
    - rewrite seqZ_nil by lia. done. }
  cbn in Hr. match goal with H : cut_loop _ _ _ _ = Ok ?p |- _ => destruct p as [mo re]; rename H into Hcut end. res_inv. simplify_eq.
  guards. bools. apply IH in Hcut as (Hp & Hm & Ha); [|done]. csimpl. rewrite Hm. split_and!.
  - rewrite fmap_app, concat_app. replace (end_ - cursor) with ((start - cursor) + ((stop - start) + (end_ - stop))) by lia.
    rewrite !seqZ_app by lia. replace (cursor + (start - cursor)) with start by lia.
    replace (start + (stop - start)) with stop by lia. rewrite <- Hp. unfold x_bytes at 1. cbn.
    destruct (Z.ltb_spec cursor start); csimpl; [|rewrite (seqZ_nil cursor) by lia; cbn; by rewrite app_assoc].
    rewrite app_nil_r. unfold x_bytes at 2. cbn. rewrite !app_assoc. rewrite (Permutation_app_comm (_ ++ _) (seqZ cursor _)).
    by rewrite !app_assoc.
  - by replace (start + (stop - start)) with stop by lia.
  - constructor; [cbn; lia|]. apply Forall_app in Ha as [Ha1 Ha2]. apply Forall_app. split; [|apply Forall_app; split].
    + eapply Forall_impl; [exact Ha1|]. cbn. lia.
    + destruct (Z.ltb_spec cursor start); repeat constructor; cbn; lia.
    + eapply Forall_impl; [exact Ha2|]. cbn. lia.
Qed.

Definition stop_form (r : Z * Z * pystr) : Z * Z * pystr := (r.1.1, r.1.1 + r.1.2, r.2).

Lemma place_loop_spec allocations previous seen layout placed : place_loop allocations previous seen layout = Ok placed →
  placed.*2 = stop_form <$> layout
  ∧ Forall (λ p : Z * (Z * Z * pystr), ∃ a, a ∈ allocations ∧ a_pointer a = p.1
      ∧ a_pointer a <= p.2.1.1 ∧ p.2.1.2 <= a_pointer a + a_size a) placed.
Proof.
  revert previous seen placed. induction layout as [|[[pointer size] id] layout IH]; intros previous seen placed E; cbn [place_loop] in E; res_inv.
  { by simplify_eq. }
  destruct (filter _ allocations) as [|a [|]] eqn:Ef; try done. res_inv. simplify_eq.
  match goal with H : place_loop _ _ _ _ = _ |- _ => apply IH in H as [Hp HF] end. csimpl. split; [by f_equal|].
  constructor; [|done]. assert (a ∈ filter (λ a, a_pointer a <= pointer ∧ pointer + size <= a_pointer a + a_size a) allocations) as Hin
    by (rewrite Ef; left). apply list_elem_of_filter in Hin as [[? ?] ?]. cbn. by exists a.
Qed.

Lemma concat_pairs_perm {A B} (f : A → list B) (parts : list (list A * list A)) :
  concat (f <$> (concat_pairs parts).1) ++ concat (f <$> (concat_pairs parts).2)
  ≡ₚ concat ((λ p, concat (f <$> p.1) ++ concat (f <$> p.2)) <$> parts).
Proof.
  unfold concat_pairs. cbn [fst snd]. induction parts as [|[a b] parts IH]; csimpl; [done|].
  rewrite !fmap_app, !concat_app, <- IH. rewrite <- !app_assoc. f_equiv. rewrite !app_assoc. f_equiv. apply Permutation_app_comm.
Qed.

(** An extent inside its allocation. *)
Definition extent_within (allocations : list allocation) (x : extent) : Prop :=
  ∃ a, a ∈ allocations ∧ x_alloc x = a_pointer a ∧ 0 < x_size x
  ∧ a_pointer a <= x_ptr x ∧ x_ptr x + x_size x <= a_pointer a + a_size a.

Lemma partition_spec allocations layout model residual :
  NoDup (a_pointer <$> allocations) → Forall (λ a, 0 <= a_size a) allocations →
  partition_semantic_weight_extents allocations layout = Ok (model, residual) →
  concat (x_bytes <$> model) ++ concat (x_bytes <$> residual) ≡ₚ concat (a_bytes <$> allocations)
  ∧ (λ x, (x_ptr x, x_ptr x + x_size x, x_semantic x)) <$> model ≡ₚ (λ r, (r.1.1, r.1.1 + r.1.2, Some r.2)) <$> layout
  ∧ Forall (extent_within allocations) (model ++ residual).
Proof.
  intros HN Hsz E. unfold partition_semantic_weight_extents in E. res_inv.
  match goal with H : place_loop _ _ _ _ = Ok ?p |- _ => rename H into Hpl, p into placed end.
  match goal with H : mapM _ _ = Ok ?p |- _ => rename H into Hm, p into parts end.
  destruct (concat_pairs parts) as [mo re] eqn:Ec. res_inv. simplify_eq.
  apply place_loop_spec in Hpl as [Hpl HF]. apply mapM_Ok in Hm.
  set (ranges a := py_sorted semantic_leb (filter (λ p : Z * (Z * Z * pystr), p.1 = a_pointer a) placed).*2) in *.
  assert (Forall2 (λ a p, concat (x_bytes <$> p.1) ++ concat (x_bytes <$> p.2) ≡ₚ a_bytes a
    ∧ (λ x, (x_ptr x, x_ptr x + x_size x, x_semantic x)) <$> p.1 = (λ r, (r.1.1, r.1.2, Some r.2)) <$> ranges a
    ∧ Forall (extent_within allocations) (p.1 ++ p.2)) allocations parts) as HP.
  { rewrite Forall_forall in Hsz. pose proof (Forall2_length _ _ _ Hm) as Hlen.
    apply Forall2_same_length_lookup. split; [done|]. intros i a [mo' re'] Ha Hp.
    pose proof (Forall2_lookup_lr _ _ _ _ _ _ Hm Ha Hp) as Hcut. cbn in Hcut.
    assert (a ∈ allocations) as Hin by (by eapply list_elem_of_lookup_2). specialize (Hsz a Hin).
    apply cut_loop_spec in Hcut as (Hb & Hmod & Hal); [| |lia].
    - cbn. split_and!; [|done|].
      + rewrite Hb. unfold a_bytes. by replace (a_pointer a + a_size a - a_pointer a) with (a_size a) by lia.
      + eapply Forall_impl; [exact Hal|]. intros e (? & ? & ? & ?). exists a. split_and!; (done || lia).
    - unfold ranges. rewrite py_sorted_perm. apply Forall_fmap, Forall_forall. intros p [Hp1 Hp2]%list_elem_of_filter. cbn.
      rewrite Forall_forall in HF. destruct (HF p Hp2) as (a' & Ha' & Hptr & _ & Hstop).
      assert (a' = a) as -> by (eapply (NoDup_fmap_elem a_pointer); [exact HN|done|done|congruence]). done. }
  assert (model = (concat_pairs parts).1 ∧ residual = (concat_pairs parts).2) as [-> ->] by (by rewrite Ec). split_and!.
  - rewrite concat_pairs_perm. clear -HP. induction HP as [|a p allocs parts (Hb & _) _ IH]; csimpl; [done|]. by rewrite Hb, IH.
  - transitivity ((λ r : Z * Z * pystr, (r.1.1, r.1.2, Some r.2)) <$> concat (ranges <$> allocations)).
    { unfold concat_pairs. cbn [fst]. clear -HP. induction HP as [|a p allocs parts (_ & Hmod & _) _ IH]; csimpl; [done|].
      rewrite !fmap_app. f_equiv; [by rewrite Hmod|exact IH]. }
    transitivity ((λ r : Z * Z * pystr, (r.1.1, r.1.2, Some r.2)) <$> placed.*2).
    { f_equiv. unfold ranges. transitivity (concat ((λ k, filter (λ p : Z * (Z * Z * pystr), p.1 = k) placed) <$> (a_pointer <$> allocations))).*2.
      - clear. induction allocations as [|a allocs IH]; csimpl; [done|]. rewrite fmap_app. f_equiv; [apply py_sorted_perm|exact IH].
      - apply fmap_Permutation, partition_by; [done|]. eapply Forall_impl; [exact HF|]. intros p (a & Ha & <- & _). by apply list_elem_of_fmap_2. }
    rewrite Hpl, <- list_fmap_compose. f_equiv. apply py_sorted_perm.
  - unfold concat_pairs. cbn [fst snd]. clear -HP. revert HP. generalize (extent_within allocations) as within. intros within HP.
    apply Forall_app. induction HP as [|a p allocs parts (_ & _ & Hw) _ IH]; csimpl; [by split; constructor|].
    apply Forall_app in Hw as [? ?]. destruct IH. split; by apply Forall_app.
Qed.

(** The weight pool is partitioned: the model and residual extents
    [_partition_semantic_weight_extents] returns cover every byte of the allocations
    exactly once, the model extents are the ranges of the semantic layout with their ids,
    and every extent is non-empty and lies inside the allocation it names. *)
Theorem partition_tiles allocations layout model residual :
  NoDup (a_pointer <$> allocations) → Forall (λ a, 0 <= a_size a) allocations →
  partition_semantic_weight_extents allocations layout = Ok (model, residual) →
  concat (x_bytes <$> model) ++ concat (x_bytes <$> residual) ≡ₚ concat (a_bytes <$> allocations)
  ∧ (λ x, (x_ptr x, x_ptr x + x_size x, x_semantic x)) <$> model ≡ₚ (λ r, (r.1.1, r.1.1 + r.1.2, Some r.2)) <$> layout
  ∧ Forall (extent_within allocations) (model ++ residual).
Proof. apply partition_spec. Qed.

(** ** Concrete runs *)

Definition sample_id (c : N) : pystr := replicate 64 c.
Definition sample_pool : list allocation := [Alloc 4096 100 PRESERVED_REGION; Alloc 8192 50 PRESERVED_REGION].
Definition sample_layout : list (Z * Z * pystr) := [(8192, 50, sample_id 97); (4106, 30, sample_id 98)].

Lemma partition_tiles_witness : ∃ model residual, partition_semantic_weight_extents sample_pool sample_layout = Ok (model, residual)
  ∧ Forall (extent_within sample_pool) (model ++ residual).
Proof.
  eexists _, _. split; [vm_compute; reflexivity|].
  eapply (partition_tiles sample_pool sample_layout); [by apply has_dups_false; vm_compute| |vm_compute; reflexivity].
  repeat (apply Forall_cons; split; [cbn; lia|]). apply Forall_nil_2.
Defined.

Lemma splitters_agree_witness : ∃ direct buffered,
  split_direct_extents [extent_at 4000 20480 9000] 4096 = Ok (direct, buffered)
  ∧ split_direct_hydration_extents [extent_at 4000 20480 9000] 4096 = Ok (direct, buffered).
Proof.
  destruct (splitters_agree [extent_at 4000 20480 9000] 12) as (d & b & E1 & E2 & _); [lia| |].
  - apply Forall_cons. split; [vm_compute; reflexivity|apply Forall_nil_2].
  - exists d, b. split; [exact E1|exact E2].
Defined.

Definition sample_residual : list (Z * Z * option pystr) := [(0, 5000, Some (lit "0a1b2c3d")); (8192, 10, Some (lit "00000000"))].

Lemma residual_file_disjoint_witness :
  validate_residual_file_extents sample_residual 12288 (Some RESIDUAL_LAYOUT_SHARED) = Ok tt
  ∧ NoDup (concat (file_range true <$> sample_residual)).
Proof.
  split; [vm_compute; reflexivity|].
  exact (proj1 (residual_file_disjoint sample_residual 12288 (Some RESIDUAL_LAYOUT_SHARED) eq_refl)).
Defined.
