(* ===== verification/DiskRelocation.v ===== *)
(** * Disk backend: relocation keeps the weights

    A portable manifest moved onto a fresh address layout describes the whole live pool:
    every byte of it belongs to exactly one relocated extent, each model extent lies at
    the range that carries its semantic id, and no extent is resized or loses its file
    offset and checksums. *)

From S2P Require Import Prelude Ranges PyFloat PyJson Hash Hydration HydrationSpec Recovery RecoverySpec DiskLayout DiskLayoutSpec.

Definition range_bytes (r : Z * Z) : list Z := seqZ r.1 r.2.
Definition place (x : extent) : Z * Z := (x_ptr x, x_size x).
(** What relocation may not change. *)
Definition content_of (x : extent) : Z * option pystr * list (pystr * json) := (x_size x, x_semantic x, x_rest x).

(** ** The live layout *)

Lemma live_disjoint live : StronglySorted (λ a b, a_pointer a <= a_pointer b) live → Forall (λ a, 0 < a_size a) live →
  live_overlap live = false → NoDup (concat (a_bytes <$> live)) ∧ NoDup (a_pointer <$> live).
Proof.
  intros HS HF Ho.
  assert (StronglySorted (λ a b, a_pointer a + a_size a <= a_pointer b) live) as HL.
  { induction HS as [|a live HS IH Ha]; [constructor|]. inversion_clear HF as [|?? Hs HF'].
    destruct live as [|b live]; [by repeat constructor|]. apply orb_false_iff in Ho as [Hab' Ho]. apply Z.ltb_ge in Hab'.
    constructor; [by apply IH|]. inversion_clear HS as [|?? _ Hb]. inversion_clear Ha as [|?? Hab _].
    constructor; [lia|]. eapply Forall_impl; [exact Hb|]. cbn. lia. }
  clear HS Ho. induction HL as [|a live HL IH Ha]; csimpl; [split; constructor|].
  inversion_clear HF as [|?? Hs HF']. destruct IH as [Hb Hp]; [done|]. rewrite Forall_forall in Ha, HF'. split.
  - apply NoDup_app. split_and!; [apply NoDup_seqZ| |done].
    intros z Hz%elem_of_seqZ (b & Hin & Hzb%elem_of_seqZ)%elem_of_concat_fmap. specialize (Ha b Hin). lia.
  - constructor; [|done]. intros (b & E & Hin)%list_elem_of_fmap. specialize (Ha b Hin). lia.
Qed.

Lemma containing_inv live pointer size base : containing live pointer size = Ok base →
  ∃ a, a ∈ live ∧ a_pointer a = base ∧ a_pointer a <= pointer ∧ pointer + size <= a_pointer a + a_size a.
Proof.
  unfold containing. destruct (filter _ live) as [|a [|]] eqn:E; try done. intros [= <-].
  assert (a ∈ filter (λ a, a_pointer a <= pointer ∧ pointer + size <= a_pointer a + a_size a) live) as [[? ?] ?]%list_elem_of_filter
    by (rewrite E; left). by exists a.
Qed.

(** The gaps are the residual of the partition. *)
Lemma gaps_cut base cursor end_ ranges gaps : gaps_loop cursor end_ ranges = Ok gaps →
  ∃ model residual, cut_loop base cursor end_ ((λ r, (r, [])) <$> ranges) = Ok (model, residual) ∧ gaps = place <$> residual.
Proof.
  revert cursor gaps. induction ranges as [|[start stop] ranges IH]; intros cursor gaps E; csimpl in *; res_inv.
  { simplify_eq. eexists _, _. split; [done|]. by destruct (cursor <? end_). }
  match goal with H : gaps_loop _ _ _ = _ |- _ => apply IH in H as (mo & re & Hc & ->) end.
  match goal with H : _ || _ = false |- _ => rewrite H end. cbn [raise_if mbind res_bind]. rewrite Hc. cbn. eexists _, _. split; [done|].
  rewrite fmap_app. by destruct (cursor <? start).
Qed.

Lemma place_bytes l : concat (x_bytes <$> l) = concat (range_bytes <$> (place <$> l)).
Proof. by rewrite <- list_fmap_compose. Qed.

Lemma gaps_spec cursor end_ ranges gaps : Forall (λ r : Z * Z, r.2 <= end_) ranges → cursor <= end_ →
  gaps_loop cursor end_ ranges = Ok gaps →
  concat ((λ r : Z * Z, seqZ r.1 (r.2 - r.1)) <$> ranges) ++ concat (range_bytes <$> gaps) ≡ₚ seqZ cursor (end_ - cursor)
  ∧ Forall (λ r, 0 < r.2) gaps.
Proof.
  intros HF Hc (mo & re & E & ->)%(gaps_cut 0). apply cut_loop_spec in E as (Hb & Hm & Ha); [|by apply Forall_fmap|done].
  rewrite <- place_bytes, <- Hb. split.
  - f_equiv. clear -Hm. revert mo Hm. induction ranges as [|[a b] rs IH]; intros [|x mo] Hm; csimpl in *; try done.
    injection Hm as E1 E2 _ Hm. rewrite (IH _ Hm). f_equiv. unfold x_bytes. subst. by rewrite Z.add_simpl_l.
  - apply Forall_app in Ha as [_ Ha]. apply Forall_fmap. eapply Forall_impl; [exact Ha|]. cbn. lia.
Qed.

(** The model ranges and the gaps tile the live pool. *)
Lemma live_layout_spec live live_model owned gaps : NoDup (a_pointer <$> live) → Forall (λ a, 0 < a_size a) live →
  mapM (λ r : Z * Z, a ← containing live r.1 r.2; mret (a, (r.1, r.1 + r.2))) live_model = Ok owned →
  mapM (λ a, gaps_loop (a_pointer a) (a_pointer a + a_size a)
    (py_sorted (pair_leb Z.leb Z.leb) ((filter (λ p : Z * (Z * Z), p.1 = a_pointer a) owned).*2))) live = Ok gaps →
  concat (range_bytes <$> live_model) ++ concat (range_bytes <$> concat gaps) ≡ₚ concat (a_bytes <$> live)
  ∧ Forall (λ r, 0 < r.2) (concat gaps).
Proof.
  intros HN Hs Ho%mapM_Ok Hg%mapM_Ok. set (stops (r : Z * Z) := seqZ r.1 (r.2 - r.1)).
  assert (concat (stops <$> owned.*2) = concat (range_bytes <$> live_model)) as Hbytes.
  { clear -Ho. induction Ho as [|r p l o Hrp _ IH]; csimpl; [done|]. res_inv. csimpl. rewrite IH. unfold stops, range_bytes. cbn. do 2 f_equal. lia. }
  assert (Forall (λ p : Z * (Z * Z), ∃ a, a ∈ live ∧ a_pointer a = p.1 ∧ p.2.2 <= a_pointer a + a_size a) owned) as HF.
  { clear -Ho. induction Ho as [|r p l o Hrp _ IH]; constructor; [|done]. res_inv.
    match goal with H : containing _ _ _ = _ |- _ => apply containing_inv in H as (a & ? & ? & ? & ?) end. by exists a. }
  set (own a := py_sorted (pair_leb Z.leb Z.leb) (filter (λ p : Z * (Z * Z), p.1 = a_pointer a) owned).*2) in *.
  assert (Forall2 (λ a g, concat (stops <$> own a) ++ concat (range_bytes <$> g) ≡ₚ a_bytes a ∧ Forall (λ r, 0 < r.2) g) live gaps) as HP.
  { apply Forall2_same_length_lookup. split; [by eapply Forall2_length|]. intros i a g Ha Hgi.
    pose proof (Forall2_lookup_lr _ _ _ _ _ _ Hg Ha Hgi) as E. cbn in E. apply list_elem_of_lookup_2 in Ha.
    rewrite Forall_forall in Hs. specialize (Hs a Ha). apply gaps_spec in E as [E ?]; [| |lia].
    - split; [|done]. etrans; [exact E|]. unfold a_bytes. by rewrite Z.add_simpl_l.
    - unfold own. rewrite py_sorted_perm. apply Forall_fmap, Forall_forall. intros p [Hp1 Hp2]%list_elem_of_filter. cbn.
      rewrite Forall_forall in HF. destruct (HF p Hp2) as (a' & Ha' & Hptr & Hstop).
      by assert (a' = a) as -> by (eapply (NoDup_fmap_elem a_pointer); [exact HN|done|done|congruence]). }
  split; [|clear -HP; induction HP as [|?? ?? [_ H] _ IH]; csimpl; [constructor|by apply Forall_app]].
  assert (concat (own <$> live) ≡ₚ owned.*2) as Hown.
  { transitivity (concat ((λ k, filter (λ p : Z * (Z * Z), p.1 = k) owned) <$> (a_pointer <$> live))).*2.
    - unfold own. clear. induction live as [|a l IH]; csimpl; [done|]. rewrite fmap_app. f_equiv; [apply py_sorted_perm|exact IH].
    - apply fmap_Permutation, partition_by; [done|]. eapply Forall_impl; [exact HF|]. intros p (a & Ha & <- & _). by apply list_elem_of_fmap_2. }
  rewrite <- Hbytes, <- (concat_fmap_perm stops _ _ Hown). clear -HP.
  induction HP as [|a g l gs [Hb _] _ IH]; csimpl; [done|]. rewrite !fmap_app, !concat_app, <- Hb, <- IH, <- !app_assoc. f_equiv.
  rewrite !app_assoc. f_equiv. apply Permutation_app_comm.
Qed.

(** ** The model *)

Lemma relocate_model_inv live semantics x y : relocate_model live semantics x = Ok y →
  content_of y = content_of x ∧ ∃ id, x_semantic x = Some id ∧ (place y, id) ∈ semantics.
Proof.
  unfold relocate_model. intros E. res_inv. destruct (list_find _ semantics) as [[i [[pointer size] id']]|] eqn:Ef; [|done].
  apply list_find_Some in Ef as (Hi & Hid & _). cbn in *. simplify_eq. cbn in E. res_inv. guards. bools. subst. split; [done|].
  eexists. split; [done|]. unfold place. cbn. by eapply list_elem_of_lookup_2.
Qed.

Lemma relocated_model_spec live semantics model relocated ids : mapM (relocate_model live semantics) model = Ok relocated →
  mapM x_semantic model = Some ids → NoDup ids → NoDup semantics.*2 → (∀ i, i ∈ ids ↔ i ∈ semantics.*2) →
  content_of <$> relocated = content_of <$> model ∧ place <$> relocated ≡ₚ semantics.*1
  ∧ Forall (λ x, ∃ id, x_semantic x = Some id ∧ (place x, id) ∈ semantics) relocated.
Proof.
  intros Hr%mapM_Ok Hids%mapM_Some Hn1 Hn2 Hset.
  assert (Forall2 (λ x y, content_of y = content_of x ∧ ∃ id, x_semantic x = Some id ∧ (place y, id) ∈ semantics) model relocated) as HP
    by (eapply Forall2_impl; [exact Hr|]; intros x y Hxy; exact (relocate_model_inv _ _ _ _ Hxy)).
  assert (length ids = length relocated) as Hlen by (apply Forall2_length in Hids, HP; lia).
  split; [clear -HP; induction HP as [|x y ?? [E _] _ IH]; csimpl; [done|by rewrite E, IH]|].
  split; [|clear -HP; induction HP as [|x y ?? (E & id & Hx & Hin) _ IH]; constructor; [|done]; exists id; split; [|done];
    injection E as ? ? ?; congruence].
  rewrite <- (fst_zip (place <$> relocated) ids) by (rewrite length_fmap; lia). apply fmap_Permutation.
  assert ((zip (place <$> relocated) ids).*2 = ids) as Hz by (apply snd_zip; rewrite length_fmap; lia).
  apply submseteq_length_Permutation.
  - apply NoDup_submseteq; [by apply (NoDup_fmap_1 snd); rewrite Hz|]. clear -HP Hids. revert ids Hids.
    induction HP as [|x y ?? (_ & id & Hx & Hin) _ IH]; intros ids Hids; inversion Hids; simplify_eq; csimpl; [set_solver|].
    intros z [->|Hz]%elem_of_cons; [congruence|by eapply IH].
  - assert (ids ≡ₚ semantics.*2) as Hp by by apply NoDup_Permutation.
    rewrite <- (length_fmap snd semantics), <- Hp, <- Hz at 1. by rewrite length_fmap.
Qed.

(** ** The residual stream *)

(** The bytes of the destinations that are still free. *)
Definition remaining (offset : Z) (destinations : list (Z * Z)) : list Z :=
  match destinations with
  | [] => []
  | (p, s) :: rest => seqZ (p + offset) (s - offset) ++ concat (range_bytes <$> rest)
  end.
Definition fits (offset : Z) (destinations : list (Z * Z)) : Prop :=
  Forall (λ r : Z * Z, 0 < r.2) destinations ∧ match destinations with (_, s) :: _ => 0 <= offset <= s | [] => True end.

Lemma skip_full_spec offset destinations : fits offset destinations →
  remaining (skip_full offset destinations).2 (skip_full offset destinations).1 = remaining offset destinations
  ∧ fits (skip_full offset destinations).2 (skip_full offset destinations).1.
Proof.
  revert offset. induction destinations as [|[p s] rest IH]; intros offset [HF Ho]; [done|]. cbn [skip_full].
  destruct (Z.eqb_spec offset s) as [->|]; [|done]. inversion_clear HF as [|?? Hs HF']. cbn in Hs.
  destruct (IH 0) as [E F]. { split; [done|]. destruct rest as [|[]]; [done|]. inversion_clear HF'. cbn in *. lia. }
  split; [|exact F]. rewrite E. cbn. rewrite Z.sub_diag. cbn. destruct rest as [|[p' s']]; [done|]. csimpl. unfold range_bytes at 2. cbn.
  by rewrite Z.add_0_r, Z.sub_0_r.
Qed.

Lemma stream_loop_spec live offset destinations sources placed : Forall (λ p : nat * extent, 0 < x_size p.2) sources →
  fits offset destinations → stream_loop live offset destinations sources = Ok placed →
  concat (x_bytes <$> placed.*2) = remaining offset destinations
  ∧ Forall2 (λ p q : nat * extent, q.1 = p.1 ∧ content_of q.2 = content_of p.2) sources placed.
Proof.
  intros HF. revert offset destinations placed. induction HF as [|[i x] sources Hx _ IH]; intros offset destinations placed Hfit E;
    destruct (skip_full_spec _ _ Hfit) as [Hrem Hfit']; cbn in E; destruct (skip_full offset destinations) as [ds o] eqn:Es; cbn in Hrem, Hfit';
    rewrite <- Hrem; destruct ds as [|[p s] rest]; res_inv; cbn in *; try done.
  guards. bools. match goal with H : stream_loop _ _ _ _ = Ok _ |- _ => apply IH in H as [Hb Hc] end; [|destruct Hfit' as [? ?]; split; [done|lia]].
  csimpl. rewrite Hb. cbn [remaining]. split; [|by constructor]. unfold x_bytes. cbn. rewrite !app_assoc. f_equal.
  replace (s - o) with (x_size x + (s - (o + x_size x))) by lia. rewrite seqZ_app by lia. do 2 f_equal. lia.
Qed.

Lemma lookup_all {A} (l : list A) : (λ i, l !! i) <$> seq 0 (length l) = Some <$> l.
Proof.
  apply list_eq. intros i. rewrite !list_lookup_fmap. destruct (decide (i < length l)%nat).
  - rewrite lookup_seq_lt by done. cbn. by destruct (lookup_lt_is_Some_2 l i) as [x ->].
  - rewrite lookup_seq_ge, lookup_ge_None_2 by lia. done.
Qed.

Lemma omap_Some {A} (l : list A) : omap id (Some <$> l) = l.
Proof. induction l as [|x l IH]; csimpl; [done|by rewrite IH]. Qed.

(** Filling every position through a permutation of them. *)
Lemma fill_positions {A} n (placed : list (nat * A)) : placed.*1 ≡ₚ seq 0 n →
  ∃ result, foldl (λ r p, <[ p.1 := Some p.2 ]> r) (replicate n None) placed = Some <$> result
  ∧ result ≡ₚ placed.*2 ∧ length result = n ∧ Forall (λ p : nat * A, result !! p.1 = Some p.2) placed.
Proof.
  intros Hp. set (R := foldl _ _ _).
  assert (R = foldl (λ r p, <[ p.1 := p.2 ]> r) (replicate n None) (zip placed.*1 (Some <$> placed.*2))) as ER.
  { unfold R. generalize (replicate n (@None A)). clear. induction placed as [|[i x] placed IH]; intros r; csimpl; [done|apply IH]. }
  assert (length R = n) as Hlen by (rewrite ER, length_scatter; apply length_replicate).
  assert ((λ i, R !! i) <$> placed.*1 = Some <$> (Some <$> placed.*2)) as Hlook.
  { rewrite ER. apply scatter_lookup; [rewrite Hp; apply NoDup_seq|by rewrite !length_fmap|].
    rewrite Hp. apply Forall_forall. intros i Hi%elem_of_seq. rewrite length_replicate. lia. }
  assert (R ≡ₚ Some <$> placed.*2) as HR.
  { rewrite <- (omap_Some R), <- (omap_Some (Some <$> placed.*2)), <- Hlook, <- lookup_all, Hlen. by rewrite Hp. }
  assert (R = Some <$> omap id R) as ES.
  { assert (Forall is_Some R) as HS by (rewrite HR; apply Forall_fmap, Forall_true; by eexists).
    clear -HS. induction HS as [|? ? [x ->] _ IH]; csimpl; [done|by rewrite <- IH]. }
  exists (omap id R). split_and!; [done|by rewrite HR, omap_Some|rewrite <- Hlen; rewrite ES at 2; by rewrite length_fmap|].
  clearbody R. rewrite ES in Hlook. clear -Hlook. revert Hlook. generalize (omap id R) as result. intros result Hlook.
  induction placed as [|[i x] placed IH]; csimpl in *; [constructor|]. injection Hlook as E Hlook. constructor; [|by apply IH].
  rewrite list_lookup_fmap in E. cbn. destruct (result !! i); cbn in E; congruence.
Qed.

Lemma relocate_stream_spec live sources destinations relocated : Forall (λ x, 0 < x_size x) sources →
  Forall (λ r : Z * Z, 0 < r.2) destinations → relocate_stream live sources destinations = Ok relocated →
  concat (x_bytes <$> relocated) ≡ₚ concat (range_bytes <$> destinations) ∧ content_of <$> relocated = content_of <$> sources.
Proof.
  intros Hs Hd E. unfold relocate_stream in E. res_inv. set (ordered := py_sorted _ _) in *.
  match goal with H : stream_loop _ _ _ _ = Ok ?p |- _ => rename H into Hl, p into placed end.
  assert (ordered ≡ₚ imap pair sources) as Hp by apply py_sorted_perm.
  apply stream_loop_spec in Hl as [Hb Hc].
  - assert (placed.*1 = ordered.*1) as Hi by (clear -Hc; induction Hc as [|?? ?? [] _ IH]; csimpl; congruence).
    destruct (fill_positions (length sources) placed) as (result & -> & Hperm & Hlen & Hat).
    { rewrite Hi, Hp. clear. rewrite fmap_imap. rewrite (imap_ext _ (λ i _, i)) by done. by rewrite imap_seq_0, list_fmap_id. }
    rewrite omap_Some. split.
    + rewrite (concat_fmap_perm _ _ _ Hperm), Hb. destruct destinations as [|[p s] rest]; [done|]. csimpl. unfold range_bytes at 3. cbn.
      by rewrite Z.add_0_r, Z.sub_0_r.
    + apply list_eq. intros i. rewrite !list_lookup_fmap. destruct (sources !! i) as [x|] eqn:Ex; cbn.
      * assert ((i, x) ∈ ordered) as Hin by (rewrite Hp; apply elem_of_lookup_imap; by exists i, x).
        apply (Forall2_elem_l _ _ _ _ Hc) in Hin as ([j y] & Hj & [E1 E2]). cbn in *. subst j.
        rewrite Forall_forall in Hat. specialize (Hat _ Hj). cbn in Hat. rewrite Hat. cbn. by rewrite E2.
      * apply lookup_ge_None in Ex. rewrite lookup_ge_None_2 by lia. done.
  - rewrite Hp. apply Forall_forall. intros p (i & x & -> & Hx)%elem_of_lookup_imap. cbn. rewrite Forall_forall in Hs. apply Hs. by eapply list_elem_of_lookup_2.
  - split; [done|]. destruct Hd as [|[]]; [done|]. cbn in *. lia.
Qed.

(** ** The manifest *)

Lemma bad_allocations_false l : existsb bad_allocation l = false → Forall (λ a, 0 < a_size a) l.
Proof. rewrite existsb_false. intros H. eapply Forall_impl; [exact H|]. intros a Ha. cbn in Ha. unfold bad_allocation in Ha. guards. bools. lia. Qed.

Lemma captured_sizes captured l : forallb (captured_extent_ok captured) l = true → Forall (λ x, 0 < x_size x) l.
Proof.
  intros H%Is_true_true%forallb_True. eapply Forall_impl; [exact H|]. intros x (a & _ & Ha)%Is_true_true%existsb_exists.
  guards. bools. lia.
Qed.

(** Either the captured residual moves, or the live ranges become residual extents. *)
Lemma relocated_residual_spec live sources ranges (changed : bool) residual' :
  Forall (λ x, 0 < x_size x) sources → Forall (λ r : Z * Z, 0 < r.2) ranges →
  (if changed then mapM (λ r : Z * Z, a ← containing live r.1 r.2; mret (Ext r.1 r.2 a None [])) ranges
   else relocate_stream live sources ranges) = Ok residual' →
  concat (x_bytes <$> residual') ≡ₚ concat (range_bytes <$> ranges)
  ∧ (changed = true ∨ content_of <$> residual' = content_of <$> sources).
Proof.
  intros Hs Hr E. destruct changed.
  - split; [|by left]. apply mapM_Ok in E. clear -E. induction E as [|r x l xs Hx _ IH]; csimpl; [done|]. res_inv. by rewrite IH.
  - apply relocate_stream_spec in E as [? ?]; [|done|done]. split; [done|by right].
Qed.

Lemma relocation_spec m allocations ranges semantics m' :
  by_pointer (entries m) ≠ by_pointer allocations → weight_source m = WEIGHT_SOURCE_SPLIT_NATIVE →
  portable_model_payload m = true → (semantics ≠ [] → ranges = semantics.*1) →
  relocate_split_native_manifest m allocations ranges semantics = Ok m' →
  concat (x_bytes <$> model_weight_extents m') ++ concat (x_bytes <$> residual_extents m') ≡ₚ concat (a_bytes <$> allocations)
  ∧ content_of <$> model_weight_extents m' = content_of <$> model_weight_extents m
  ∧ Forall (λ x, ∃ id, x_semantic x = Some id ∧ (place x, id) ∈ semantics) (model_weight_extents m')
  ∧ (requires_live_residual_snapshot m' = true ∨ content_of <$> residual_extents m' = content_of <$> residual_extents m).
Proof.
  intros Hne Hw Hpo HN E. unfold relocate_split_native_manifest in E. rewrite decide_False in E by done.
  rewrite bool_decide_true, Hpo in E by done. cbn [negb orb] in E. res_inv.
  set (live := by_pointer allocations) in *. set (live_model := py_sorted _ ranges) in *.
  match goal with H : existsb bad_allocation live = false |- _ => apply bad_allocations_false in H; rename H into Hsize end.
  match goal with H : negb (forallb (captured_extent_ok _) _) = false |- _ => apply negb_false_iff, captured_sizes, Forall_app in H as [_ Hres] end.
  match goal with H : mapM _ live_model = Ok _ |- _ => rename H into Howned end.
  match goal with H : mapM _ live = Ok ?g |- _ => rename H into Hgaps, g into gaps end.
  match goal with H : mapM (relocate_model _ _) _ = Ok ?r |- _ => rename H into Hrm, r into model' end.
  match goal with H : mapM x_semantic _ = Some ?r |- _ => rename H into Hids, r into ids end.
  match goal with H : (if _ then _ else _) = Ok ?r |- _ => rename H into Hrr, r into residual' end.
  cbn [model_weight_extents residual_extents requires_live_residual_snapshot].
  destruct (live_disjoint live) as [Hbytes Hptrs]; [apply sort_on_sorted|done|done|].
  destruct (live_layout_spec _ _ _ _ Hptrs Hsize Howned Hgaps) as [Htile Hpos].
  guards. repeat match goal with
  | H : has_dups _ = false |- _ => apply has_dups_false in H
  | H : set_eqb _ _ = true |- _ => rewrite set_eqb_spec in H
  | H : existsb _ live_model = false |- _ => rewrite existsb_false in H
  end.
  destruct (relocated_model_spec live semantics (model_weight_extents m) model' ids) as (Hcont & Hz & Hat); try done.
  apply relocated_residual_spec in Hrr as [Hrb Hrc]; [|done|done].
  assert (semantics.*1 ≡ₚ live_model) as Hp.
  { unfold live_model. rewrite py_sorted_perm. rewrite HN; [done|]. intros ->. destruct live_model as [|r l]; [done|].
    match goal with H : ∀ x, x ∈ [].*1 ↔ _ |- _ => specialize (H r) end. set_solver. }
  split_and!; [|done|done|by destruct Hrc as [->|]; [left|right]].
  rewrite Hrb, place_bytes, (concat_fmap_perm _ _ _ Hz), (concat_fmap_perm _ _ _ Hp), Htile. apply concat_fmap_perm, py_sorted_perm.
Qed.

(** C21. Relocation covers the live pool: when a portable split-native manifest whose
    captured address layout differs from the live one is relocated, the relocated model and
    residual extents cover every byte of the live allocations exactly once; every model
    extent keeps its size, semantic id, file offset and checksums and lands on the live
    range of its semantic id; and the residual extents either keep theirs too, or the
    manifest asks for a snapshot of the live residual. *)
Theorem relocation_tiles native b m allocations m' :
  by_pointer (entries m) ≠ by_pointer allocations → weight_source m = WEIGHT_SOURCE_SPLIT_NATIVE →
  portable_model_payload m = true → relocate_live native b m allocations = Ok m' →
  concat (x_bytes <$> model_weight_extents m') ++ concat (x_bytes <$> residual_extents m') ≡ₚ concat (a_bytes <$> allocations)
  ∧ content_of <$> model_weight_extents m' = content_of <$> model_weight_extents m
  ∧ Forall (λ x, ∃ id, x_semantic x = Some id ∧ (place x, id) ∈ relocation_semantics native b) (model_weight_extents m')
  ∧ (requires_live_residual_snapshot m' = true ∨ content_of <$> residual_extents m' = content_of <$> residual_extents m).
Proof.
  intros Hne Hw Hp E. unfold relocate_live in E. cbv zeta in E.
  eapply relocation_spec; [done|done|done| |exact E]. intros Hn. rewrite decide_False; [done|].
  by destruct (relocation_semantics native b).
Qed.

(** ** A concrete run *)

(** The pool of [sample_pool] captured and relocated onto one live allocation. *)
Definition sample_model_extents : list extent :=
  [Ext 4106 30 4096 (Some (sample_id 98)) []; Ext 8192 50 8192 (Some (sample_id 97)) []].
Definition sample_manifest : split_manifest :=
  Manifest sample_pool WEIGHT_SOURCE_SPLIT_NATIVE true sample_model_extents
    [Ext 4096 10 4096 None []; Ext 4136 60 4096 None []] 150 70 false false.
Definition sample_live_pool : list allocation := [Alloc 20000 150 PRESERVED_REGION].
Definition sample_bound : bound_layout :=
  Bound [(20010, 30); (20040, 50)] [(20010, 30, sample_id 98); (20040, 50, sample_id 97)] [].

Lemma relocation_tiles_witness : ∃ m', relocate_live false sample_bound sample_manifest sample_live_pool = Ok m'
  ∧ content_of <$> model_weight_extents m' = content_of <$> sample_model_extents
  ∧ requires_live_residual_snapshot m' = false.
Proof.
  assert (∃ m', relocate_live false sample_bound sample_manifest sample_live_pool = Ok m' ∧ requires_live_residual_snapshot m' = false)
    as (m' & E & Hs) by (eexists; split; [vm_compute; reflexivity|reflexivity]).
  exists m'. split; [exact E|]. split; [|exact Hs].
  eapply (relocation_tiles false sample_bound sample_manifest sample_live_pool m'); [by vm_compute|reflexivity|reflexivity|exact E].
Defined.
