(* ===== verification/DiskShared.v ===== *)
(** * Disk backend: residual pieces are shared without loss

    [_shared_residual_extents] sweeps the boundaries of all providers. The number of
    extents of a view that cover an address is the sum of the changes at or below it; the
    sweep keeps that sum in [active], so the pieces that name a view cover exactly the
    addresses its extents cover. *)

From S2P Require Import Prelude Ranges PyFloat PyJson Hash Hydration HydrationSpec Recovery RecoverySpec DiskLayout DiskLayoutSpec.

(** ** Conditional sums *)

Definition sum_if {A} (P : A → Prop) `{!∀ x, Decision (P x)} (f : A → Z) (l : list A) : Z :=
  zsum ((λ x, if decide (P x) then f x else 0) <$> l).

Lemma sum_if_filter {A} (P : A → Prop) `{!∀ x, Decision (P x)} (f : A → Z) l : zsum (f <$> filter P l) = sum_if P f l.
Proof.
  unfold sum_if. induction l as [|x l IH]; csimpl; [done|]. rewrite filter_cons. destruct (decide (P x)); csimpl; by rewrite IH.
Qed.

Lemma sum_if_ext {A} (P Q : A → Prop) `{!∀ x, Decision (P x), !∀ x, Decision (Q x)} (f : A → Z) l :
  Forall (λ x, P x ↔ Q x) l → sum_if P f l = sum_if Q f l.
Proof.
  unfold sum_if. induction 1 as [|x l Hx _ IH]; csimpl; [done|]. rewrite IH. f_equal.
  destruct (decide (P x)), (decide (Q x)); tauto.
Qed.

Lemma sum_if_split {A} (P Q R : A → Prop) `{!∀ x, Decision (P x), !∀ x, Decision (Q x), !∀ x, Decision (R x)} (f : A → Z) l :
  Forall (λ x, (R x ↔ P x ∨ Q x) ∧ ~ (P x ∧ Q x)) l → sum_if R f l = sum_if P f l + sum_if Q f l.
Proof.
  unfold sum_if. induction 1 as [|x l Hx _ IH]; csimpl; [done|]. rewrite IH.
  destruct (decide (P x)), (decide (Q x)), (decide (R x)); tauto || lia.
Qed.

Lemma sum_if_none {A} (P : A → Prop) `{!∀ x, Decision (P x)} (f : A → Z) l : Forall (λ x, ~ P x) l → sum_if P f l = 0.
Proof. unfold sum_if. induction 1 as [|x l Hx _ IH]; csimpl; [done|]. by rewrite decide_False, IH by done. Qed.

(** ** Levels *)

(** The changes of view [i] at or below [z]. *)
Definition level (events : list event) (i : nat) (z : Z) : Z :=
  sum_if (λ e, ev_view e = i ∧ ev_point e <= z) ev_delta events.
Definition total (events : list event) (i : nat) : Z := sum_if (λ e, ev_view e = i) ev_delta events.

Lemma change_loop_spec active changes active' : change_loop active changes = Ok active' →
  length active' = length active
  ∧ ∀ i a, active !! i = Some a → active' !! i = Some (a + sum_if (λ c : nat * Z, c.1 = i) snd changes).
Proof.
  revert active. induction changes as [|[j d] changes IH]; intros active E; cbn in E; res_inv.
  { split; [done|]. intros i a Ha. unfold sum_if. cbn. by rewrite Z.add_0_r. }
  apply IH in E as [Hl Hi]. rewrite length_insert in Hl. split; [done|]. intros i a' Ha'. unfold sum_if in *. csimpl.
  destruct (decide (j = i)) as [->|Hne].
  - assert (x = a') as -> by congruence. rewrite (Hi i (a' + d)); [f_equal; lia|]. apply list_lookup_insert_eq. by eapply lookup_lt_Some.
  - rewrite (Hi i a'); [done|]. by rewrite list_lookup_insert_ne.
Qed.

Lemma elem_active_views active i : i ∈ active_views active ↔ ∃ a, active !! i = Some a ∧ a ≠ 0.
Proof.
  unfold active_views. rewrite list_elem_of_omap. split.
  - intros ([j a] & (k & x & [= -> ->] & Hx)%elem_of_lookup_imap & E). cbn in E. destruct (Z.eqb_spec x 0); simplify_eq. by exists x.
  - intros (a & Ha & Hn). exists (i, a). split; [apply elem_of_lookup_imap; by exists i, a|]. cbn. by destruct (Z.eqb_spec a 0).
Qed.

Definition piece_bytes (p : piece) : list (Z * Z) := pair (p_alloc p) <$> seqZ (p_ptr p) (p_size p).
(** View [i] gets the address [z] from one of the pieces. *)
Definition supplies (pieces : list piece) (i : nat) (z : Z) : Prop :=
  ∃ p, p ∈ pieces ∧ i ∈ p_views p ∧ p_ptr p <= z < p_ptr p + p_size p.

(** ** The sweep of one allocation *)

Section sweep.
Context (alloc : Z) (events : list event).
Context (balanced : ∀ i, total events i = 0).

Lemma level_step (previous pointer : Z) i z : previous <= z < pointer →
  Forall (λ e, pointer <= ev_point e ∨ ev_point e <= previous) events →
  level events i z = sum_if (λ e, ev_view e = i ∧ ev_point e < pointer) ev_delta events.
Proof. intros Hz HF. apply sum_if_ext. eapply Forall_impl; [exact HF|]. cbn. intros e He. split; intros [? ?]; split; (done || lia). Qed.

Lemma changes_sum pointer i :
  sum_if (λ c : nat * Z, c.1 = i) snd ((λ e, (ev_view e, ev_delta e)) <$> filter (λ e, ev_point e = pointer) events)
  = sum_if (λ e, ev_view e = i ∧ ev_point e = pointer) ev_delta events.
Proof.
  unfold sum_if. rewrite <- list_fmap_compose. clear balanced. induction events as [|e l IH]; csimpl; [done|]. rewrite filter_cons.
  destruct (decide (ev_point e = pointer)), (decide (ev_view e = i ∧ ev_point e = pointer)); csimpl; rewrite IH; try tauto;
    destruct (decide (ev_view e = i)); tauto || lia.
Qed.

(** What is not pending lies below the next point. *)
Lemma pending_below previous pointer points i : previous <= pointer → (∀ z, z ∈ points → pointer < z) →
  Forall (λ e, ev_point e ∈ pointer :: points ∨ (ev_point e <= previous ∧ ev_point e ∉ pointer :: points)) events →
  sum_if (λ e, ev_view e = i ∧ ev_point e ∉ pointer :: points) ev_delta events
  = sum_if (λ e, ev_view e = i ∧ ev_point e < pointer) ev_delta events.
Proof.
  intros Hpp Hlt HE. apply sum_if_ext. eapply Forall_impl; [exact HE|]. cbn. intros e He. rewrite not_elem_of_cons.
  destruct He as [[->|H']%elem_of_cons|[? [? ?]%not_elem_of_cons]].
  - split; [intros (_ & [] & _); done|lia].
  - pose proof (Hlt _ H'). split; [intros (_ & _ & []); done|lia].
  - split; [intros (? & _ & _); split; [done|lia]|intros [? ?]; done].
Qed.

Lemma sweep_loop_spec previous active points pieces : sweep_loop alloc events previous active points = Ok pieces →
  StronglySorted Z.lt points → Forall (λ z, previous <= z) points →
  Forall (λ e, ev_point e ∈ points ∨ (ev_point e <= previous ∧ ev_point e ∉ points)) events →
  (∀ i, (i < length active)%nat → active !! i = Some (sum_if (λ e, ev_view e = i ∧ ev_point e ∉ points) ev_delta events)) →
  Forall (λ p, previous <= p_ptr p ∧ 0 < p_size p ∧ p_alloc p = alloc) pieces ∧ NoDup (concat (piece_bytes <$> pieces))
  ∧ ∀ i z, (i < length active)%nat → previous <= z → supplies pieces i z ↔ level events i z ≠ 0.
Proof using balanced.
  intros E HS. revert previous active pieces E. induction HS as [|pointer points HS IH Hlt]; intros previous active pieces E Hge HE Hact;
    cbn in E; res_inv.
  { split_and!; [constructor|constructor|]. intros i z Hi Hz. split; [by intros (p & ?%elem_of_nil & _)|]. intros []. rewrite <- (balanced i).
    apply sum_if_ext. eapply Forall_impl; [exact HE|]. cbn. intros e [?%elem_of_nil|[? _]]; [done|]. split; [by intros []|split; [done|lia]]. }
  match goal with H : change_loop _ _ = Ok ?a, H' : sweep_loop _ _ _ _ _ = Ok ?o |- _ => rename H into Hc, H' into Hs, a into active', o into others end.
  apply change_loop_spec in Hc as [Hl Hc]. rewrite Forall_forall in Hlt. inversion_clear Hge as [|?? Hpp Hge'].
  assert (pointer ∉ points) as Hnp by (intros ?%Hlt; lia).
  assert (Forall (λ e, pointer <= ev_point e ∨ ev_point e <= previous) events) as Hgap.
  { eapply Forall_impl; [exact HE|]. cbn. intros e [[->|?%Hlt]%elem_of_cons|[? _]]; lia. }
  assert (∀ i, (i < length active)%nat → active !! i = Some (sum_if (λ e, ev_view e = i ∧ ev_point e < pointer) ev_delta events)) as Hact'
    by (intros i Hi; rewrite Hact by done; f_equal; by eapply pending_below).
  apply (IH pointer) in Hs as (HF & HN & Hsup).
  - assert (∀ z, z < pointer → ∀ i, ~ supplies others i z) as Hlow.
    { intros z Hz i (p & Hp & _ & ? & _). rewrite Forall_forall in HF. apply HF in Hp. lia. }
    set (here := if (previous <? pointer) && existsb (λ a, negb (a =? 0)) active then _ else _).
    assert (Forall (λ p, p = Piece previous (pointer - previous) alloc (active_views active) ∧ previous < pointer) here) as Hh.
    { unfold here. destruct (_ && _) eqn:Eb; [|constructor]. guards. bools. repeat constructor. lia. }
    split_and!.
    + apply Forall_app. split; [eapply Forall_impl; [exact Hh|]; intros p [-> ?]; cbn; lia|]. eapply Forall_impl; [exact HF|]. cbn. lia.
    + rewrite fmap_app, concat_app. apply NoDup_app. split_and!; [|intros [b z] Hz Hz'|done].
      * unfold here. destruct (_ && _); csimpl; [|constructor]. rewrite app_nil_r. apply NoDup_fmap_2; [by intros ?? [= ]|]. apply NoDup_seqZ.
      * apply elem_of_concat_fmap in Hz as (p & Hp & (z1 & [= -> ->] & Hz1%elem_of_seqZ)%list_elem_of_fmap).
        apply elem_of_concat_fmap in Hz' as (q & Hq & (z2 & [= _ ->] & Hz2%elem_of_seqZ)%list_elem_of_fmap).
        rewrite Forall_forall in Hh, HF. apply Hh in Hp as [-> _]. apply HF in Hq. cbn in Hz1. lia.
    + intros i z Hi Hz. destruct (Z.lt_ge_cases z pointer).
      * rewrite (level_step previous pointer) by (done || lia). split.
        -- intros (p & [Hp|Hp]%elem_of_app & Hv & Hz'); [|destruct (Hlow z H i); by exists p].
           rewrite Forall_forall in Hh. apply Hh in Hp as [-> _]. cbn in Hv. apply elem_active_views in Hv as (a & Ha & ?).
           rewrite Hact' in Ha by done. congruence.
        -- intros Hne. exists (Piece previous (pointer - previous) alloc (active_views active)). cbn. split_and!; [|apply elem_active_views; eauto|lia|lia].
           apply elem_of_app. left. unfold here. rewrite (proj2 (Z.ltb_lt _ _)) by lia.
           rewrite (proj2 (existsb_exists _ _)); [left|]. eexists. split; [eapply list_elem_of_In, list_elem_of_lookup_2, Hact', Hi|]. by apply negb_true_iff, Z.eqb_neq.
      * rewrite <- Hsup by (done || lia). split; intros (p & Hp & Hv & Hz').
        -- apply elem_of_app in Hp as [Hp|Hp]; [|by exists p]. rewrite Forall_forall in Hh. apply Hh in Hp as [-> _]. cbn in Hz'. lia.
        -- exists p. split; [|done]. apply elem_of_app. by right.
  - apply Forall_forall. intros z Hz%Hlt. lia.
  - eapply Forall_impl; [exact HE|]. cbn. intros e [[->|?]%elem_of_cons|[? [? ?]%not_elem_of_cons]]; [right|left|right]; (done || split; (done || lia)).
  - intros i Hi. rewrite Hl in Hi. rewrite (Hc i _ (Hact i Hi)), changes_sum. f_equal. symmetry. apply sum_if_split. apply Forall_forall. intros e _.
    rewrite !not_elem_of_cons. destruct (decide (ev_point e = pointer)) as [Ep|Ep]; [rewrite Ep|]; tauto.
Qed.
End sweep.

(** ** Views *)

(** The extents of a view that cover an address of an allocation. *)
Definition covered_by (alloc z : Z) (x : extent) : Prop := x_alloc x = alloc ∧ x_ptr x <= z < x_ptr x + x_size x.
#[local] Instance covered_by_dec alloc z x : Decision (covered_by alloc z x).
Proof. unfold covered_by. apply _. Defined.

Definition at_alloc (alloc : Z) (views : list (list extent)) : list event := filter (λ e, ev_alloc e = alloc) (view_events views).

Lemma view_events_snoc views v : view_events (views ++ [v]) = view_events views ++ concat (extent_events (length views) <$> v).
Proof. unfold view_events. rewrite imap_app, concat_app. cbn. by rewrite app_nil_r, Nat.add_0_r. Qed.

Lemma sum_if_app {A} (P : A → Prop) `{!∀ x, Decision (P x)} (f : A → Z) l k : sum_if P f (l ++ k) = sum_if P f l + sum_if P f k.
Proof. unfold sum_if. by rewrite fmap_app, zsum_app. Qed.

Lemma level_view alloc j v i z : Forall (λ x, 0 <= x_size x) v →
  level (filter (λ e, ev_alloc e = alloc) (concat (extent_events j <$> v))) i z
  = if decide (i = j) then sum_if (covered_by alloc z) (λ _, 1) v else 0.
Proof.
  unfold level, sum_if. induction 1 as [|x v Hx _ IH]; csimpl; [by destruct (decide _)|]. rewrite !filter_cons. cbn.
  destruct (decide (x_alloc x = alloc)) as [Ha|Ha]; csimpl.
  - rewrite IH. destruct (decide (i = j)) as [->|Hij].
    + destruct (decide (covered_by alloc z x)) as [[_ [? ?]]|Hc]; repeat destruct (decide (j = j ∧ _)); try lia;
        unfold covered_by in Hc; lia.
    + repeat destruct (decide (j = i ∧ _)) as [[? _]|]; congruence || lia.
  - rewrite IH. destruct (decide (i = j)); [|done]. by destruct (decide (covered_by alloc z x)) as [[? _]|].
Qed.

Lemma level_views alloc views i z : Forall (Forall (λ x, 0 <= x_size x)) views →
  level (at_alloc alloc views) i z = from_option (sum_if (covered_by alloc z) (λ _, 1)) 0 (views !! i).
Proof.
  induction views as [|v views IH] using rev_ind; intros HF; [done|]. apply Forall_app in HF as [HF [Hv _]%Forall_cons].
  unfold at_alloc, level in *. rewrite view_events_snoc, filter_app, sum_if_app, (IH HF).
  pose proof (level_view alloc (length views) v i z Hv) as E. unfold level in E. rewrite E. clear E.
  destruct (decide (i = length views)) as [->|Hne].
  - rewrite list_lookup_middle by done. by rewrite lookup_ge_None_2 by lia.
  - destruct (decide (i < length views)%nat); [by rewrite lookup_app_l, Z.add_0_r by done|].
    rewrite !lookup_ge_None_2; [done| |lia]. rewrite length_app. cbn. lia.
Qed.

Lemma total_views alloc views i : total (at_alloc alloc views) i = 0.
Proof.
  unfold total, at_alloc. induction views as [|v views IH] using rev_ind; [done|]. rewrite view_events_snoc, filter_app, sum_if_app, IH.
  clear IH. generalize (length views) as j. intros j. cbn. induction v as [|x v IH]; csimpl; [done|]. rewrite !filter_cons. cbn.
  unfold sum_if in *. destruct (decide (x_alloc x = alloc)); csimpl; [|done]. destruct (decide (j = i)); lia.
Qed.

Lemma covered_count alloc z v : sum_if (covered_by alloc z) (λ _, 1) v ≠ 0 ↔ ∃ x, x ∈ v ∧ covered_by alloc z x.
Proof.
  assert (∀ w, 0 <= sum_if (covered_by alloc z) (λ _, 1) w) as Hge.
  { unfold sum_if. induction w as [|x w IH]; csimpl; [done|]. destruct (decide _); lia. }
  induction v as [|x v IH]; [split; [done|by intros (x & ?%elem_of_nil & _)]|]. pose proof (Hge v) as Hv.
  unfold sum_if in *. csimpl. destruct (decide (covered_by alloc z x)) as [Hc|Hc].
  - split; [intros _; exists x; split; [left|done]|lia].
  - rewrite Z.add_0_l, IH. split; intros (y & Hy & Hcy); exists y; (split; [|done]); [by right|]. by apply elem_of_cons in Hy as [->|].
Qed.

Lemma sorted_set_strict l : StronglySorted Z.lt (sorted_set Z.leb l).
Proof.
  unfold sorted_set. assert (NoDup (py_sorted Z.leb (remove_dups l))) as HN by (rewrite py_sorted_perm; apply NoDup_remove_dups).
  pose proof (ordered_strongly _ _ (py_sorted_ordered Z.leb (remove_dups l))) as HS. revert HS HN. generalize (py_sorted Z.leb (remove_dups l)).
  clear l. intros l HS. induction HS as [|x l HS IH Hx]; intros [Hn HN]%NoDup_cons || intros _; constructor; [by apply IH|].
  apply Forall_forall. intros y Hy. rewrite Forall_forall in Hx. pose proof (Hx y Hy) as Hle. apply Z.leb_le in Hle.
  assert (x ≠ y) by (by intros ->). lia.
Qed.

Lemma elem_sorted_set z l : z ∈ sorted_set Z.leb l ↔ z ∈ l.
Proof. unfold sorted_set. by rewrite py_sorted_perm, elem_of_remove_dups. Qed.

Lemma sweep_allocation_spec alloc views pieces : Forall (Forall (λ x, 0 <= x_size x)) views →
  sweep_allocation (length views) (view_events views) alloc = Ok pieces →
  Forall (λ p, 0 < p_size p ∧ p_alloc p = alloc) pieces ∧ NoDup (concat (piece_bytes <$> pieces))
  ∧ ∀ i v z, views !! i = Some v → supplies pieces i z ↔ ∃ x, x ∈ v ∧ covered_by alloc z x.
Proof.
  intros HF E. unfold sweep_allocation in E. fold (at_alloc alloc views) in E. cbv zeta in E.
  pose proof (sorted_set_strict (ev_point <$> at_alloc alloc views)) as HS.
  assert (∀ e, e ∈ at_alloc alloc views → ev_point e ∈ sorted_set Z.leb (ev_point <$> at_alloc alloc views)) as Hin
    by (intros e He; apply elem_sorted_set; by apply list_elem_of_fmap_2).
  destruct (sorted_set Z.leb _) as [|first rest]; [done|]. inversion HS as [|?? _ Hfirst]; subst. rewrite Forall_forall in Hfirst.
  assert (∀ z, z ∈ first :: rest → first <= z) as Hmin by (intros z [->|Hz%Hfirst]%elem_of_cons; lia).
  apply sweep_loop_spec in E as (HP & HN & Hsup); [|intros i; apply total_views|done|by apply Forall_forall| |].
  - split_and!; [eapply Forall_impl; [exact HP|]; cbn; naive_solver|done|]. intros i v z Hv.
    rewrite <- covered_count. pose proof (level_views alloc views i z HF) as HL. rewrite Hv in HL. cbn in HL. rewrite <- HL.
    destruct (Z.le_gt_cases first z) as [Hz|Hz].
    + apply Hsup; [|done]. rewrite length_replicate. by eapply lookup_lt_Some.
    + split; [intros (p & Hp & _ & ? & _); rewrite Forall_forall in HP; apply HP in Hp; lia|]. intros []. unfold level.
      apply sum_if_none, Forall_forall. intros e He%Hin%Hmin [_ ?]. lia.
  - apply Forall_forall. intros e He. left. by apply Hin.
  - intros i Hi. rewrite length_replicate in Hi. rewrite lookup_replicate_2 by done. f_equal. symmetry.
    apply sum_if_none, Forall_forall. by intros e He%Hin [_ ?].
Qed.

(** Stored pieces are not empty. *)
Lemma shared_positive views stored : Forall (Forall (λ x, 0 <= x_size x)) views → shared_residual_extents views = Ok stored →
  Forall (λ p, 0 < p_size p) stored.
Proof.
  intros HF E. unfold shared_residual_extents in E. res_inv.
  match goal with H : mapM _ _ = Ok ?p |- _ => apply mapM_Ok in H; rename H into Hm, p into groups end.
  apply Forall_forall. intros p (g & Hp & Hg)%elem_of_concat. destruct (Forall2_elem_r _ _ _ _ Hm Hg) as (a & _ & Ea).
  apply sweep_allocation_spec in Ea as (Hf & _); [|done]. rewrite Forall_forall in Hf. by apply Hf.
Qed.

(** C31. Sharing loses nothing and stores nothing twice: the pieces
    [_shared_residual_extents] stores are pairwise disjoint, and the pieces a provider
    references cover an address of an allocation exactly when one of the provider's own
    residual extents does. *)
Theorem shared_residual_lossless views stored : Forall (Forall (λ x, 0 <= x_size x)) views →
  shared_residual_extents views = Ok stored →
  NoDup (concat (piece_bytes <$> stored))
  ∧ ∀ i v alloc z, views !! i = Some v →
      (∃ p, p ∈ references stored i ∧ (alloc, z) ∈ piece_bytes p) ↔ ∃ x, x ∈ v ∧ covered_by alloc z x.
Proof.
  intros HF E. unfold shared_residual_extents in E. res_inv.
  match goal with H : mapM _ _ = Ok ?p |- _ => apply mapM_Ok in H; rename H into Hm, p into groups end.
  set (allocs := sorted_set _ _) in Hm.
  assert (NoDup allocs) as Hal by (unfold allocs, sorted_set; rewrite py_sorted_perm; apply NoDup_remove_dups).
  assert (Forall2 (λ alloc pieces, Forall (λ p, 0 < p_size p ∧ p_alloc p = alloc) pieces ∧ NoDup (concat (piece_bytes <$> pieces))
    ∧ ∀ i v z, views !! i = Some v → supplies pieces i z ↔ ∃ x, x ∈ v ∧ covered_by alloc z x) allocs groups) as HP
    by (eapply Forall2_impl; [exact Hm|]; intros a g Hg; by apply sweep_allocation_spec).
  split.
  - clear -HP Hal. induction HP as [|a g allocs groups (Hg & HN & _) HP IH]; csimpl; [constructor|]. apply NoDup_cons in Hal as [Ha Hal].
    rewrite fmap_app, concat_app. apply NoDup_app. split_and!; [done| |by apply IH].
    intros [b z] (p & Hp & (? & [= -> _] & _)%list_elem_of_fmap)%elem_of_concat_fmap (q & Hq & (? & [= E _] & _)%list_elem_of_fmap)%elem_of_concat_fmap.
    rewrite Forall_forall in Hg. apply Hg in Hp as [_ Hp]. apply elem_of_concat in Hq as (g' & Hq & Hg').
    apply (Forall2_elem_r _ _ _ _ HP) in Hg' as (a' & Ha' & Hg' & _). rewrite Forall_forall in Hg'. destruct (Hg' _ Hq) as [_ Hq']. congruence.
  - intros i v alloc z Hv. unfold references. setoid_rewrite list_elem_of_filter. split.
    + intros (p & [Hi Hp] & (z' & [= -> ->] & Hz%elem_of_seqZ)%list_elem_of_fmap). apply elem_of_concat in Hp as (g & Hp & Hg).
      apply (Forall2_elem_r _ _ _ _ HP) in Hg as (a & Ha & Hg & _ & Hs). rewrite Forall_forall in Hg. destruct (Hg p Hp) as [_ ->].
      apply (Hs i v z'); [done|]. by exists p.
    + intros Hx. assert (alloc ∈ allocs) as Ha.
      { destruct Hx as (x & Hx & <- & _). apply elem_sorted_set. apply (list_elem_of_fmap_2 ev_alloc _ (Event (x_alloc x) (x_ptr x) i 1)).
        unfold view_events. apply elem_of_concat. exists (concat (extent_events i <$> v)).
        split; [apply elem_of_concat_fmap; exists x; split; [done|left]|apply elem_of_lookup_imap; by exists i, v]. }
      apply (Forall2_elem_l _ _ _ _ HP) in Ha as (g & Hg & Hps & _ & Hs). destruct (proj2 (Hs i v z Hv) Hx) as (p & Hp & Hi & Hz).
      exists p. split; [split; [done|apply elem_of_concat; by exists g]|]. rewrite Forall_forall in Hps. destruct (Hps p Hp) as [_ <-].
      apply list_elem_of_fmap_2, elem_of_seqZ. lia.
Qed.

(** ** A concrete run *)

Definition sample_views : list (list extent) := [[Ext 4096 10 4096 None []; Ext 4136 60 4096 None []]; [Ext 4100 40 4096 None []]].

Lemma shared_residual_lossless_witness : ∃ stored, shared_residual_extents sample_views = Ok stored
  ∧ length stored = 5%nat ∧ NoDup (concat (piece_bytes <$> stored)).
Proof.
  assert (∃ stored, shared_residual_extents sample_views = Ok stored ∧ length stored = 5%nat) as (stored & E & Hl)
    by (eexists; split; [vm_compute; reflexivity|reflexivity]).
  exists stored. split; [exact E|]. split; [exact Hl|].
  refine (proj1 (shared_residual_lossless sample_views stored _ E)).
  repeat (apply Forall_cons; split; [repeat (apply Forall_cons; split; [cbn; lia|]); apply Forall_nil_2|]). apply Forall_nil_2.
Defined.
