(* ===== verification/GraphMemory.v ===== *)
(** * Stable-address memory of CUDA graphs

    [native/coldsnap_graph_memory.cpp], which intercepts [cudaMalloc] inside a region scope
    and can release and recreate the physical backing of what it allocated, and its
    controller [integrations/vllm/coldsnap_graph_memory.py], which reports the memory
    through the engine-neutral contracts.

    The driver is a parameter: a call acts on a world and succeeds or fails. The
    [unordered_map] of allocations is a list in iteration order. Scopes are those of one
    thread; [n_active] counts all threads'. Error texts are not modelled. *)

From S2P Require Import Prelude Ranges PyFloat PyJson Hash Memory.

(** ** The native library *)

Record graph_alloc := GraphAlloc {
  g_address : Z; raw_size : Z; mapped_size : Z; g_device : Z; g_tag : pystr; g_pool : Z;
  handle_valid : bool; mapped : bool; accessible : bool;
}.

Inductive AllocationState := Active | Paused | Partial.
#[global] Instance AllocationState_eq_dec : EqDecision AllocationState.
Proof. solve_decision. Defined.

Definition state_of (a : graph_alloc) : AllocationState :=
  if mapped a && handle_valid a && accessible a then Active
  else if negb (mapped a) && negb (handle_valid a) && negb (accessible a) then Paused
  else Partial.

Definition public_state (a : graph_alloc) : Z :=
  match state_of a with Active => 0 | Paused => 1 | Partial => 2 end.

(** [tag] is empty for every tag; a negative [device] is every device. *)
Definition matches (tag : pystr) (device : Z) (a : graph_alloc) : bool :=
  (bool_decide (tag = []) || bool_decide (g_tag a = tag)) && ((device <? 0) || (g_device a =? device)).

Definition with_flags (a : graph_alloc) (h m x : bool) : graph_alloc :=
  GraphAlloc (g_address a) (raw_size a) (mapped_size a) (g_device a) (g_tag a) (g_pool a) h m x.

Record region_scope := Scope { sc_tag : pystr; sc_device : Z; sc_pool : Z }.

(** The calls the library makes of the CUDA runtime and driver. *)
Inductive driver_call :=
| EnterDevice (device : Z)
| DeviceSynchronize (device : Z)
| DriverProperties (device : Z)
| MemCreate (size : Z)
| MemAddressReserve (size : Z)
| MemMap (address : Z)
| MemSetAccess (address : Z)
| MemUnmap (address : Z)
| MemRelease (address : Z)
| MemAddressFree (address : Z).

Section native.
Context {W : Type}.
(** [driver] answers whether a call succeeded; [granularity] of a device, [reserved]
    address and [current_device] are what the successful calls return. *)
Variable driver : driver_call → W → bool * W.
Variable granularity : Z → W → Z.
Variable reserved : W → Z.
Variable current_device : W → option Z.

Definition size_max : Z := 2 ^ 64 - 1.

(** [allocation_properties]: the mapped size of an allocation. *)
Definition allocation_properties (device raw : Z) (w : W) : option Z * W :=
  let '(ok, w) := driver (DriverProperties device) w in
  let gran := granularity device w in
  if negb ok || (gran =? 0) || (size_max - (gran - 1) <? raw) then (None, w)
  else (Some ((raw + gran - 1) / gran * gran), w).

Record native := Native { n_allocs : list graph_alloc; n_scopes : list region_scope; n_active : Z; n_world : W }.
Definition with_world (n : native) (w : W) : native := Native (n_allocs n) (n_scopes n) (n_active n) w.
Definition with_allocs (n : native) (l : list graph_alloc) (w : W) : native := Native l (n_scopes n) (n_active n) w.

(** [coldsnap_graph_region_push]; the status is [true] for 0. *)
Definition region_push (tag : pystr) (device pool : Z) (n : native) : bool * native :=
  if bool_decide (tag = []) then (false, n)
  else if (0 <=? device) && negb (bool_decide (current_device (n_world n) = Some device)) then (false, n)
  else (true, Native (n_allocs n) (Scope tag device pool :: n_scopes n) (n_active n + 1) (n_world n)).

Definition region_pop (n : native) : bool * native :=
  match n_scopes n with
  | [] => (false, n)
  | _ :: rest => (true, Native (n_allocs n) rest (n_active n - 1) (n_world n))
  end.

(** [allocate_scoped]: the address, or nothing after undoing what was done. *)
Definition allocate_scoped (raw : Z) (scope : region_scope) (n : native) : option Z * native :=
  match current_device (n_world n) with
  | None => (None, n)
  | Some device =>
      if (0 <=? sc_device scope) && negb (sc_device scope =? device) then (None, n) else
      let '(size, w) := allocation_properties device raw (n_world n) in
      match size with
      | None => (None, with_world n w)
      | Some size =>
          let '(created, w) := driver (MemCreate size) w in
          if negb created then (None, with_world n w) else
          let '(ok, w) := driver (MemAddressReserve size) w in
          let address := reserved w in
          if negb ok then (None, with_world n (driver (MemRelease address) w).2) else
          let '(ok, w) := driver (MemMap address) w in
          if negb ok then
            (None, with_world n (driver (MemRelease address) (driver (MemAddressFree address) w).2).2) else
          let undo w := (driver (MemRelease address) (driver (MemAddressFree address) (driver (MemUnmap address) w).2).2).2 in
          let '(ok, w) := driver (MemSetAccess address) w in
          if negb ok then (None, with_world n (undo w)) else
          if bool_decide (address ∈ g_address <$> n_allocs n) then (None, with_world n (undo w))
          else (Some address,
                with_allocs n (GraphAlloc address raw size device (sc_tag scope) (sc_pool scope) true true true :: n_allocs n) w)
      end
  end.

(** The interposed [cudaMalloc]: outside a scope, and for empty requests, the call is
    forwarded ([None] here) and the library's state does not change. *)
Definition cudaMalloc (raw : Z) (n : native) : option Z * native :=
  match n_scopes n with
  | [] => (None, n)
  | scope :: _ => if raw =? 0 then (None, n) else allocate_scoped raw scope n
  end.

(** Unmapping and releasing a handle, as the library does wherever it gives backing up:
    the flags change with the calls that succeed. *)
Definition unmap_step (a : graph_alloc) (w : W) : bool * graph_alloc * W :=
  if mapped a then
    let '(ok, w) := driver (MemUnmap (g_address a)) w in (ok, with_flags a (handle_valid a) (negb ok) false, w)
  else (true, a, w).
Definition release_step (a : graph_alloc) (w : W) : bool * graph_alloc * W :=
  if handle_valid a then
    let '(ok, w) := driver (MemRelease (g_address a)) w in (ok, with_flags a (negb ok) (mapped a) (accessible a), w)
  else (true, a, w).

(** [pause_allocation] *)
Definition pause_allocation (a : graph_alloc) (w : W) : bool * graph_alloc * W :=
  let '(entered, w) := driver (EnterDevice (g_device a)) w in
  if negb entered then (false, a, w) else
  let '(ok, a, w) := unmap_step a w in
  if negb ok then (false, a, w) else
  let '(ok, a, w) := release_step a w in
  if negb ok then (false, a, w) else (bool_decide (state_of a = Paused), a, w).

(** [resume_allocation] *)
Definition resume_allocation (a : graph_alloc) (w : W) : bool * graph_alloc * W :=
  let '(entered, w) := driver (EnterDevice (g_device a)) w in
  if negb entered then (false, a, w) else
  if decide (state_of a = Active) then (true, a, w) else
  if mapped a then (false, a, w) else
  let '(ok, a, w) := release_step a w in
  if negb ok then (false, a, w) else
  let '(size, w) := allocation_properties (g_device a) (raw_size a) w in
  if negb (bool_decide (size = Some (mapped_size a))) then (false, a, w) else
  let '(ok, w) := driver (MemCreate (mapped_size a)) w in
  if negb ok then (false, a, w) else
  let '(ok, w) := driver (MemMap (g_address a)) w in
  if negb ok then (false, a, (driver (MemRelease (g_address a)) w).2) else
  let '(ok, w) := driver (MemSetAccess (g_address a)) w in
  if negb ok then
    (false, with_flags a false false false,
     (driver (MemRelease (g_address a)) (driver (MemUnmap (g_address a)) w).2).2)
  else (true, with_flags a true true true, w).

(** A pass over the matching allocations that stops at the first failure. *)
Fixpoint each (tag : pystr) (device : Z) (f : graph_alloc → W → bool * graph_alloc * W) (l : list graph_alloc) (w : W)
    : bool * list graph_alloc * W :=
  match l with
  | [] => (true, [], w)
  | a :: rest =>
      if matches tag device a then
        let '(ok, a', w) := f a w in
        if negb ok then (false, a' :: rest, w) else
        let '(ok, rest', w) := each tag device f rest w in
        (ok, a' :: rest', w)
      else
        let '(ok, rest', w) := each tag device f rest w in
        (ok, a :: rest', w)
  end.

Definition skip_paused (a : graph_alloc) (w : W) : bool * graph_alloc * W :=
  if decide (state_of a = Paused) then (true, a, w) else pause_allocation a w.

Fixpoint synchronize_devices (devices : list Z) (w : W) : bool * W :=
  match devices with
  | [] => (true, w)
  | d :: rest =>
      let '(ok, w) := driver (DeviceSynchronize d) w in
      if negb ok then (false, w) else synchronize_devices rest w
  end.
Definition synchronize_matching_devices (tag : pystr) (device : Z) (l : list graph_alloc) (w : W) : bool * W :=
  synchronize_devices (sorted_set Z.leb (g_device <$> filter (λ a, matches tag device a = true) l)) w.

(** [coldsnap_graph_pause] *)
Definition graph_pause (tag : pystr) (device : Z) (n : native) : bool * native :=
  if negb (n_active n =? 0) then (false, n) else
  let '(ok, w) := synchronize_matching_devices tag device (n_allocs n) (n_world n) in
  if negb ok then (false, with_world n w) else
  let '(ok, l, w) := each tag device skip_paused (n_allocs n) w in
  (ok, with_allocs n l w).

(** [coldsnap_graph_resume] *)
Definition graph_resume (tag : pystr) (device : Z) (n : native) : bool * native :=
  if negb (n_active n =? 0) then (false, n) else
  let '(ok, l, w) := each tag device resume_allocation (n_allocs n) (n_world n) in
  if negb ok then (false, with_allocs n l w) else
  let '(ok, w) := synchronize_matching_devices tag device l w in
  (ok, with_allocs n l w).

(** The interposed [cudaFree] of a managed address ([None] forwards the call). *)
Definition cudaFree (address : Z) (n : native) : option bool * native :=
  match list_find (λ a, g_address a = address) (n_allocs n) with
  | None => (None, n)
  | Some (i, a) =>
      let '(ok, w) := driver (DeviceSynchronize (g_device a)) (n_world n) in
      if negb ok then (Some false, with_world n w) else
      let '(ok, w) := driver (EnterDevice (g_device a)) w in
      if negb ok then (Some false, with_world n w) else
      let put a := <[ i := a ]> (n_allocs n) in
      let '(ok, a, w) := unmap_step a w in
      if negb ok then (Some false, with_allocs n (put a) w) else
      let '(ok, a, w) := release_step a w in
      if negb ok then (Some false, with_allocs n (put a) w) else
      let '(ok, w) := driver (MemAddressFree address) w in
      if negb ok then (Some false, with_allocs n (put a) w)
      else (Some true, with_allocs n (delete i (n_allocs n)) w)
  end.

(** [coldsnap_graph_region_stats]: 64-bit counters. *)
Definition wrap64 (z : Z) : Z := z mod 2 ^ 64.
Record GraphRegionStats := GraphStats { gs_count : Z; gs_raw : Z; gs_mapped : Z; gs_paused : Z }.
Definition is_released (s : GraphRegionStats) : bool := 0 <? gs_paused s.
Definition selected (tag : pystr) (device : Z) (n : native) : list graph_alloc :=
  filter (λ a, matches tag device a = true) (n_allocs n).
Definition region_stats (tag : pystr) (device : Z) (n : native) : GraphRegionStats :=
  let l := selected tag device n in
  GraphStats (wrap64 (Z.of_nat (length l))) (wrap64 (zsum (raw_size <$> l))) (wrap64 (zsum (mapped_size <$> l)))
    (wrap64 (Z.of_nat (length (filter (λ a, state_of a ≠ Active) l)))).

(** [coldsnap_graph_allocation_at], in address order. *)
Definition allocation_at (tag : pystr) (device index : Z) (n : native) : option graph_alloc :=
  sort_on g_address (selected tag device n) !! Z.to_nat index.

(** ** The controller *)

Definition graph_capabilities : ProviderCapabilities :=
  Capabilities (lit "coldsnap_cuda_vmm_graph") true true true true false true true 1 [lit "discard"]
    true true false true false false false true false false false.

Record controller := Controller { c_native : native; c_revision : Z }.

(** [_resolve_graph_regions] *)
Definition resolve_graph_regions (regions : option (list region_ref)) : res (list MemoryRegion) :=
  match regions with
  | None => mret [CUDA_GRAPH]
  | Some l =>
      resolved ← resolve_regions (Some l);
      _ ← raise_if (existsb (λ r, negb (bool_decide (r_name r = r_name CUDA_GRAPH))) resolved)
          MemoryCapabilityError "native CUDA graph controller only manages cuda_graph";
      mret resolved
  end.

(** [NativeCudaGraphController(...)]: [is_file] and [interposed] are what the file system
    and the loaded library answer. *)
Definition controller_new (is_file interposed : bool) (library : native) : res controller :=
  _ ← raise_if (negb is_file) MemoryCapabilityError "native CUDA graph library does not exist";
  _ ← raise_if (negb interposed) MemoryCapabilityError "library does not own cudaMalloc interposition";
  mret (Controller library 0).

(** [graph_controller_from_env]: [None] is the disabled controller. *)
Definition graph_controller_from_env (value : option pystr) (required : bool) (open : pystr → res controller)
    : res (option controller) :=
  match value with
  | None | Some [] =>
      _ ← raise_if required MemoryCapabilityError "COLDSNAP_GRAPH_NATIVE_LIBRARY is required";
      mret None
  | Some path => c ← open path; mret (Some c)
  end.

Definition GRAPH_TAG : pystr := r_name CUDA_GRAPH.

(** [release] and [restore]: the revision counts the calls that succeed. *)
Definition lifecycle (operation : native → bool * native) (message : string) (regions : option (list region_ref)) (c : controller)
    : res unit * controller :=
  match resolve_graph_regions regions with
  | Raise e => (Raise e, c)
  | Ok _ =>
      let '(ok, n) := operation (c_native c) in
      if ok then (Ok tt, Controller n (c_revision c + 1))
      else (Raise (Exn MemoryCapabilityError message), Controller n (c_revision c))
  end.
Definition release : option (list region_ref) → controller → res unit * controller :=
  lifecycle (graph_pause GRAPH_TAG (-1)) "native CUDA graph pause failed".
Definition restore : option (list region_ref) → controller → res unit * controller :=
  lifecycle (graph_resume GRAPH_TAG (-1)) "native CUDA graph resume failed".

(** [capture_region] around a body: the scope is popped on every path, and a failing pop
    replaces the body's outcome. *)
Definition capture_region {A} (pool : Z) (device : option Z) (body : controller → res A * controller) (c : controller)
    : res A * controller :=
  let '(ok, n) := region_push GRAPH_TAG (default (-1) device) pool (c_native c) in
  if negb ok then (Raise (Exn MemoryCapabilityError "native CUDA graph region push failed"), Controller n (c_revision c)) else
  let '(outcome, c) := body (Controller n (c_revision c)) in
  let '(ok, n) := region_pop (c_native c) in
  (if ok then outcome else Raise (Exn MemoryCapabilityError "native CUDA graph region pop failed"), Controller n (c_revision c)).

Definition stats (c : controller) : GraphRegionStats := region_stats GRAPH_TAG (-1) (c_native c).

Definition allocations (c : controller) : res (list graph_alloc) :=
  mapM (λ i, of_option MemoryCapabilityError "native CUDA graph allocation enumeration failed"
               (allocation_at GRAPH_TAG (-1) i (c_native c)))
    (seqZ 0 (gs_count (stats c))).

Definition group_name (a : graph_alloc) : pystr :=
  lit "device-" ++ str_of_Z (g_device a) ++ lit ":pool-" ++ str_of_Z (g_pool a).

Definition allocation_json (a : graph_alloc) : json :=
  JObj [(lit "address", JInt (g_address a)); (lit "raw_bytes", JInt (raw_size a)); (lit "mapped_bytes", JInt (mapped_size a));
        (lit "device", JInt (g_device a)); (lit "pool_id", JInt (g_pool a))].

(** The extension of the layout descriptor. *)
Definition graph_extension (values : list graph_alloc) : list (pystr * json) :=
  [(lit "allocations", JArr (allocation_json <$> values))].

Definition PAGE_BYTES : Z := 2 * 1024 * 1024.

(** [describe_layout] *)
Definition describe_layout (region : region_ref) (c : controller) : res MemoryLayoutDescriptor :=
  _ ← resolve_graph_regions (Some [region]);
  values ← allocations c;
  let values := sort_on g_address values in
  layout_create (cap_provider graph_capabilities) 1 CUDA_GRAPH (lit "cuda:all") (g_address <$> head values)
    (gs_raw (stats c)) PAGE_BYTES PAGE_BYTES OPAQUE (sorted_set str_leb (group_name <$> values)) (Z.of_nat (length values))
    (lit "none") (graph_extension values).

(** [residency_stats] *)
Definition residency_stats (region : region_ref) (c : controller) : res MemoryResidencyStats :=
  _ ← resolve_graph_regions (Some [region]);
  let s := stats c in
  let result := Stats 1 (cap_provider graph_capabilities) (r_name CUDA_GRAPH) (gs_raw s) (gs_mapped s) 0 0 0 0 (gs_count s)
    ((gs_mapped s + PAGE_BYTES - 1) / PAGE_BYTES) (gs_paused s) (c_revision c)
    (lit "cuda-graph-vmm-" ++ str_of_Z (c_revision c)) in
  _ ← stats_validate result;
  mret result.
End native.

Arguments native : clear implicits.
Arguments controller : clear implicits.
