(* ===== verification/GraphMemorySpec.v ===== *)
(** * Theorems about graph memory

    Whatever the driver answers, the flags of an allocation stay ordered and addresses
    distinct; releasing and restoring changes neither addresses nor sizes, so the layout
    digest survives; what the controller reports is a valid layout and valid statistics,
    but the statistics count released backing as mapped. *)

From S2P Require Import Prelude Ranges PyFloat PyJson PyJsonFacts Hash Memory MemorySpec GraphMemory.

(** What a release must not change. *)
Definition identity (a : graph_alloc) : Z * Z * Z * Z * pystr * Z :=
  (g_address a, raw_size a, mapped_size a, g_device a, g_tag a, g_pool a).

Definition alloc_ok (a : graph_alloc) : Prop :=
  0 <= g_address a ∧ 0 < raw_size a <= mapped_size a
  ∧ (accessible a = true → mapped a = true) ∧ (mapped a = true → handle_valid a = true).

Definition native_ok {W} (n : native W) : Prop := NoDup (g_address <$> n_allocs n) ∧ Forall alloc_ok (n_allocs n).

Section passes.
Context {W : Type}.
Context (driver : driver_call → W → bool * W).


(** ** One allocation *)

Lemma unmap_spec a w : alloc_ok a →
  let '(ok, a', _) := unmap_step driver a w in
  identity a' = identity a ∧ alloc_ok a' ∧ (ok = true → mapped a' = false ∧ accessible a' = false).
Proof.
  intros (Ha & Hs & Hx & Hm). unfold unmap_step. destruct (mapped a) eqn:Em.
  - destruct (driver _ w) as [ok w1]. split; [done|]. split; [|by intros ->]. unfold alloc_ok. cbn. split_and!; [done|lia|lia|done|by intros _; apply Hm].
  - split; [done|]. split; [unfold alloc_ok; split_and!; (done || lia || by rewrite Em)|]. intros _. split; [done|]. destruct (accessible a); [|done]. by discriminate Hx.
Qed.

Lemma release_spec a w : alloc_ok a → mapped a = false →
  let '(ok, a', _) := release_step driver a w in
  identity a' = identity a ∧ alloc_ok a' ∧ mapped a' = false ∧ accessible a' = accessible a ∧ (ok = true → handle_valid a' = false).
Proof.
  intros (Ha & Hs & Hx & Hm) Em. unfold release_step. destruct (handle_valid a) eqn:Eh.
  - destruct (driver _ w) as [ok w1]. split; [done|]. split; [|cbn; split_and!; [done|done|by intros ->]].
    unfold alloc_ok. cbn. rewrite Em. split_and!; [done|lia|lia|by rewrite <- Em|done].
  - split; [done|]. split; [|done]. unfold alloc_ok. rewrite Em in *. split_and!; (done || lia).
Qed.

Lemma pause_spec a w : alloc_ok a →
  let '(ok, a', _) := pause_allocation driver a w in
  identity a' = identity a ∧ alloc_ok a' ∧ (ok = true → state_of a' = Paused).
Proof.
  intros Ha. unfold pause_allocation. destruct (driver _ w) as [[] w1]; [|done]. cbn.
  pose proof (unmap_spec a w1 Ha) as H. destruct (unmap_step driver a w1) as [[[] a1] w2]; [|by destruct H as (? & ? & _)].
  destruct H as (E1 & H1 & Hm). destruct (Hm eq_refl) as [Hm1 Hx1]. cbn.
  pose proof (release_spec a1 w2 H1 Hm1) as H. destruct (release_step driver a1 w2) as [[[] a2] w3]; destruct H as (E2 & H2 & Hm2 & Hx2 & Hh); cbn.
  - split; [congruence|]. split; [done|]. by intros ?%bool_decide_eq_true.
  - split; [congruence|]. done.
Qed.

Context (granularity : Z → W → Z).

Lemma resume_spec a w : alloc_ok a →
  let '(ok, a', _) := resume_allocation driver granularity a w in
  identity a' = identity a ∧ alloc_ok a' ∧ (ok = true → state_of a' = Active).
Proof.
  intros Ha. unfold resume_allocation. destruct (driver _ w) as [[] w1]; [|done]. cbn.
  destruct (decide (state_of a = Active)) as [Es|_]; [done|]. destruct (mapped a) eqn:Em; [done|].
  pose proof (release_spec a w1 Ha Em) as H. destruct (release_step driver a w1) as [[[] a1] w2]; destruct H as (E1 & H1 & Hm1 & _ & Hh); cbn; [|done].
  destruct (allocation_properties _ _ _ _ w2) as [size w3]. destruct (bool_decide _); cbn; [|done].
  destruct (driver _ w3) as [[] w4]; cbn; [|done]. destruct (driver _ w4) as [[] w5]; cbn; [|done].
  destruct H1 as (? & ? & _). destruct (driver _ w5) as [[] w6]; cbn; (split; [exact E1|]); (split; [|done]); unfold alloc_ok; cbn; split_and!; (done || lia).
Qed.

(** ** Passes *)

Lemma skip_paused_spec a w : alloc_ok a →
  let '(ok, a', _) := skip_paused driver a w in identity a' = identity a ∧ alloc_ok a' ∧ (ok = true → state_of a' = Paused).
Proof. intros Ha. unfold skip_paused. destruct (decide _); [done|]. by apply pause_spec. Qed.

Lemma matches_identity tag device a b : identity a = identity b → matches tag device a = matches tag device b.
Proof.
  intros E. assert (g_tag a = g_tag b ∧ g_device a = g_device b) as [Ht Hd] by (unfold identity in E; split; congruence).
  unfold matches. by rewrite Ht, Hd.
Qed.

Lemma each_spec tag device f goal l w :
  (∀ a w, alloc_ok a → let '(ok, a', _) := f a w in identity a' = identity a ∧ alloc_ok a' ∧ (ok = true → state_of a' = goal)) →
  Forall alloc_ok l →
  let '(ok, l', _) := @each W tag device f l w in
  identity <$> l' = identity <$> l ∧ Forall alloc_ok l'
  ∧ (ok = true → Forall (λ a, matches tag device a = true → state_of a = goal) l').
Proof.
  intros Hf HF. revert w. induction HF as [|a l Ha HF IH]; intros w; cbn [each]; [done|].
  destruct (matches tag device a) eqn:Em.
  - specialize (Hf a w Ha). destruct (f a w) as [[[] a'] w1]; destruct Hf as (E & Ha' & Hg); cbn.
    + specialize (IH w1). destruct (each tag device f l w1) as [[ok l'] w2]. destruct IH as (El & Hl & Hs). csimpl. split; [congruence|].
      split; [by constructor|]. intros Hok. constructor; [|by apply Hs]. intros _. by apply Hg.
    + csimpl. split; [congruence|]. split; [by constructor|done].
  - specialize (IH w). destruct (each tag device f l w) as [[ok l'] w2]. destruct IH as (El & Hl & Hs). csimpl. split; [congruence|].
    split; [by constructor|]. intros Hok. constructor; [|by apply Hs]. congruence.
Qed.

(** ** The library *)

Lemma addresses_identity (l k : list graph_alloc) : identity <$> l = identity <$> k → g_address <$> l = g_address <$> k.
Proof.
  intros E. change (((λ i : Z * Z * Z * Z * pystr * Z, i.1.1.1.1.1) ∘ identity) <$> l = ((λ i : Z * Z * Z * Z * pystr * Z, i.1.1.1.1.1) ∘ identity) <$> k).
  by rewrite !list_fmap_compose, E.
Qed.

Lemma pause_native tag device n : native_ok n →
  let '(ok, n') := graph_pause driver tag device n in
  native_ok n' ∧ identity <$> n_allocs n' = identity <$> n_allocs n
  ∧ (ok = true → Forall (λ a, matches tag device a = true → state_of a = Paused) (n_allocs n')).
Proof.
  intros [HN HF]. unfold graph_pause. destruct (negb _); [done|]. destruct (synchronize_matching_devices _ _ _ _ _) as [[] w1]; [|done]. cbn.
  pose proof (each_spec tag device (skip_paused driver) Paused (n_allocs n) w1 skip_paused_spec HF) as H.
  destruct (each _ _ _ _ w1) as [[ok l] w2]. destruct H as (E & Hl & Hs). cbn. split; [|done]. split; [|done]. cbn. by rewrite (addresses_identity _ _ E).
Qed.

Lemma resume_native tag device n : native_ok n →
  let '(ok, n') := graph_resume driver granularity tag device n in
  native_ok n' ∧ identity <$> n_allocs n' = identity <$> n_allocs n
  ∧ (ok = true → Forall (λ a, matches tag device a = true → state_of a = Active) (n_allocs n')).
Proof.
  intros [HN HF]. unfold graph_resume. destruct (negb _); [done|].
  pose proof (each_spec tag device (resume_allocation driver granularity) Active (n_allocs n) (n_world n) resume_spec HF) as H.
  destruct (each _ _ _ _ _) as [[ok l] w1]. destruct H as (E & Hl & Hs).
  assert (NoDup (g_address <$> l)) by (by rewrite (addresses_identity _ _ E)).
  destruct ok; cbn; [|done]. destruct (synchronize_matching_devices _ _ _ _ _) as [ok w2]. cbn. split; [done|]. split; [done|]. by intros _; apply Hs.
Qed.

End passes.

(** ** What the controller reports *)

Section reports.
Context {W : Type}.

Definition small (c : controller W) : Prop :=
  let l := selected GRAPH_TAG (-1) (c_native c) in
  Z.of_nat (length l) < 2 ^ 64 ∧ zsum (raw_size <$> l) < 2 ^ 64 ∧ zsum (mapped_size <$> l) < 2 ^ 64.

Lemma selected_ok (n : native W) : native_ok n → Forall alloc_ok (selected GRAPH_TAG (-1) n).
Proof. intros [_ HF]. rewrite Forall_forall in HF |- *. intros a [_ Ha]%list_elem_of_filter. by apply HF. Qed.

Lemma zsum_nonneg {A} (f : A → Z) l : Forall (λ x, 0 <= f x) l → 0 <= zsum (f <$> l).
Proof. induction 1; csimpl; lia. Qed.

Lemma stats_exact (c : controller W) : native_ok (c_native c) → small c →
  let l := selected GRAPH_TAG (-1) (c_native c) in
  stats c = GraphStats (Z.of_nat (length l)) (zsum (raw_size <$> l)) (zsum (mapped_size <$> l))
              (Z.of_nat (length (filter (λ a, state_of a ≠ Active) l))).
Proof.
  intros Hn (H1 & H2 & H3) l. unfold stats, region_stats. fold l in H1, H2, H3 |- *. pose proof (selected_ok _ Hn) as HF. fold l in HF.
  assert (0 <= zsum (raw_size <$> l)) by (apply zsum_nonneg; eapply Forall_impl; [exact HF|]; intros a (? & ? & _); lia).
  assert (0 <= zsum (mapped_size <$> l)) by (apply zsum_nonneg; eapply Forall_impl; [exact HF|]; intros a (? & ? & _); lia).
  pose proof (length_filter (λ a, state_of a ≠ Active) l). unfold wrap64. rewrite !Z.mod_small by lia. done.
Qed.

Lemma mapM_lookup {A} (l : list A) e m :
  mapM (λ i, of_option e m (l !! Z.to_nat i)) (seqZ 0 (Z.of_nat (length l))) = Ok l.
Proof.
  apply mapM_Ok, Forall2_same_length_lookup. split; [rewrite length_seqZ; lia|]. intros i z x [-> _]%lookup_seqZ Hx.
  rewrite Z.add_0_l, Nat2Z.id, Hx. done.
Qed.

Lemma allocations_exact (c : controller W) : native_ok (c_native c) → small c →
  allocations c = Ok (sort_on g_address (selected GRAPH_TAG (-1) (c_native c))).
Proof.
  intros Hn Hs. unfold allocations, allocation_at. rewrite stats_exact by done. cbn [gs_count].
  rewrite <- (Permutation_length (py_sorted_perm (λ x y, g_address x <=? g_address y) (selected GRAPH_TAG (-1) (c_native c)))).
  apply mapM_lookup.
Qed.

Lemma ascii_scalar s : Forall (λ c, (c < 0x80)%N) s → forallb scalar s = true.
Proof.
  intros H. apply Is_true_true, forallb_True. eapply Forall_impl; [exact H|]. intros c Hc. cbn in Hc. unfold scalar.
  apply Is_true_true, orb_true_iff. left. apply N.ltb_lt. lia.
Qed.

Lemma group_name_scalar a : forallb scalar (group_name a) = true.
Proof.
  unfold group_name. rewrite !forallb_app.
  rewrite (ascii_scalar (str_of_Z (g_device a))), (ascii_scalar (str_of_Z (g_pool a))) by apply str_of_Z_ascii. done.
Qed.

Lemma extension_exact l : exact (JObj (graph_extension l)) = true.
Proof.
  unfold graph_extension. cbn [exact]. apply andb_true_iff. split; [|done]. cbn [forallb fst snd exact]. rewrite andb_true_r.
  apply andb_true_iff. split; [done|]. apply Is_true_true, forallb_True, Forall_fmap, Forall_true. intros a. done.
Qed.

Lemma sum_zero l : Forall alloc_ok l → zsum (raw_size <$> l) = 0 ↔ l = [].
Proof.
  intros HF. split; [|by intros ->]. destruct HF as [|a l (_ & Ha & _) HF]; [done|]. csimpl.
  assert (0 <= zsum (raw_size <$> l)) by (apply zsum_nonneg; eapply Forall_impl; [exact HF|]; intros b (_ & ? & _); lia). lia.
Qed.

(** The drafted descriptor passes the field checks. *)
Lemma graph_guard l grps text : Forall alloc_ok l → NoDup grps → Forall (λ g, g ≠ []) grps →
  layout_guard (Layout 1 (cap_provider graph_capabilities) 1 CUDA_GRAPH (lit "cuda:all") (g_address <$> head l)
    (zsum (raw_size <$> l)) PAGE_BYTES PAGE_BYTES OPAQUE grps (Z.of_nat (length l)) (lit "none") text []) (JObj (graph_extension l)) = false.
Proof.
  intros HF HN Hne. pose proof (sum_zero l HF) as Hz. assert (0 <= zsum (raw_size <$> l)) as Hp
    by (apply zsum_nonneg; eapply Forall_impl; [exact HF|]; intros b (_ & ? & _); lia).
  assert (existsb (λ g : pystr, bool_decide (g = [])) grps = false) as He
    by (apply existsb_false; eapply Forall_impl; [exact Hne|]; intros g Hg; by apply bool_decide_eq_false).
  unfold layout_guard. cbn [l_format l_provider l_provider_abi device base_address region logical_bytes allocation_granularity mapping_granularity
    extent_count transport_registration_mode groups]. rewrite (proj2 (has_dups_false grps) HN), He.
  assert (Bool.eqb (zsum (raw_size <$> l) =? 0) (Z.of_nat (length l) =? 0) = true) as ->.
  { apply eqb_true_iff. destruct l as [|a l]; [done|]. destruct (Z.eqb_spec (zsum (raw_size <$> a :: l)) 0) as [E|_]; [by apply Hz in E|]. by destruct (length (a :: l)) eqn:?. }
  rewrite (proj2 (Z.ltb_ge _ 0)) by done. rewrite (proj2 (Z.ltb_ge (Z.of_nat (length l)) 0)) by lia.
  destruct l as [|a l]; [done|]. inversion_clear HF as [|?? [Ha _] _]. cbn [fmap option_fmap option_map head]. rewrite (proj2 (Z.ltb_ge (g_address a) 0)) by done.
  rewrite bool_decide_eq_false_2 by done. by rewrite !andb_false_r.
Qed.

Lemma graph_fields_exact l grps text : Forall (λ g, forallb scalar g = true) grps →
  exact (layout_fields (Layout 1 (cap_provider graph_capabilities) 1 CUDA_GRAPH (lit "cuda:all") (g_address <$> head l)
    (zsum (raw_size <$> l)) PAGE_BYTES PAGE_BYTES OPAQUE grps (Z.of_nat (length l)) (lit "none") text []) (JObj (graph_extension l))) = true.
Proof.
  intros Hg. pose proof (extension_exact l) as He. unfold layout_fields.
  cbn [l_format l_provider l_provider_abi device base_address region logical_bytes allocation_granularity mapping_granularity
    extent_count transport_registration_mode groups layout_kind].
  assert (exact (JStrs grps) = true) as Hs.
  { cbn. apply Is_true_true, forallb_True, Forall_fmap. eapply Forall_impl; [exact Hg|]. intros g E. by apply Is_true_true. }
  assert (exact (match g_address <$> head l with Some a => JInt a | None => JNull end) = true) as Hb by (by destruct (head l)).
  revert He Hs Hb. generalize (JObj (graph_extension l)) (JStrs grps) (match g_address <$> head l with Some a => JInt a | None => JNull end).
  intros e s b He Hs Hb. cbn [exact]. apply andb_true_iff. split; [|reflexivity].
  cbn [forallb fst snd]. rewrite He, Hs, Hb. reflexivity.
Qed.

(** C33. The layout a graph controller describes is valid: as long as the totals fit their
    64-bit counters and the descriptor's extension its megabyte, [describe_layout] succeeds,
    the descriptor passes [validate], and states the logical bytes and number of the graph
    allocations. *)
Theorem graph_layout_valid (c : controller W) : native_ok (c_native c) → small c →
  let l := selected GRAPH_TAG (-1) (c_native c) in
  Z.of_nat (length (dumps canonical_style (JObj (graph_extension (sort_on g_address l))))) <= MIB →
  ∃ d, describe_layout (inl (lit "cuda_graph")) c = Ok d ∧ layout_validate d = Ok tt
    ∧ logical_bytes d = zsum (raw_size <$> l) ∧ extent_count d = Z.of_nat (length l).
Proof.
  intros Hn Hs l Ht. set (v := sort_on g_address l) in *.
  assert (sort_on g_address v = v) as Hv by apply sort_on_twice.
  assert (v ≡ₚ l) as Hp by apply py_sorted_perm.
  assert (Forall alloc_ok v) as HF by (rewrite Hp; by apply selected_ok).
  set (grps := sorted_set str_leb (group_name <$> v)).
  destruct (layout_create_complete (cap_provider graph_capabilities) 1 CUDA_GRAPH (lit "cuda:all") (g_address <$> head v)
    (zsum (raw_size <$> v)) PAGE_BYTES PAGE_BYTES OPAQUE grps (Z.of_nat (length v)) (lit "none") (graph_extension v)) as (d & e & Hc & Hval & _ & _ & Hd).
  - apply graph_fields_exact. unfold grps, sorted_set. rewrite py_sorted_perm. apply Forall_forall. intros g (a & -> & _)%elem_of_remove_dups%list_elem_of_fmap.
    apply group_name_scalar.
  - apply graph_guard; [done| |].
    + unfold grps, sorted_set. rewrite py_sorted_perm. apply NoDup_remove_dups.
    + unfold grps, sorted_set. rewrite py_sorted_perm. apply Forall_forall. by intros g (a & -> & _)%elem_of_remove_dups%list_elem_of_fmap.
  - done.
  - exists d. split; [|split; [done|]].
    + unfold describe_layout. rewrite allocations_exact by done. fold l v. cbn [resolve_graph_regions mbind res_bind].
      rewrite Hv, stats_exact by done. fold l. cbn [gs_raw].
      change (resolve_regions (Some [inl (lit "cuda_graph")])) with (Ok (A:=list MemoryRegion) [CUDA_GRAPH]). cbn [mbind res_bind].
      rewrite (zsum_perm (raw_size <$> l) (raw_size <$> v)) by (by rewrite Hp). exact Hc.
    + rewrite Hd. cbn [logical_bytes extent_count]. split; [by apply zsum_perm; rewrite Hp|by rewrite Hp].
Qed.

(** ** Releasing and restoring *)

Lemma cons_inv {A} (x y : A) l k : x :: l = y :: k → x = y ∧ l = k.
Proof. by intros [= -> ->]. Qed.

Lemma by_identity {B} (f : graph_alloc → B) (l k : list graph_alloc) : (∀ a b, identity a = identity b → f a = f b) →
  identity <$> l = identity <$> k → f <$> l = f <$> k.
Proof.
  intros Hf. revert k. induction l as [|a l IH]; intros [|b k] E; csimpl in *; try done.
  apply cons_inv in E as [Ea El]. by rewrite (Hf a b), (IH k).
Qed.

Lemma selected_identity tag device (n n' : native W) : identity <$> n_allocs n' = identity <$> n_allocs n →
  identity <$> selected tag device n' = identity <$> selected tag device n.
Proof.
  unfold selected. generalize (n_allocs n') (n_allocs n). intros l. induction l as [|a l IH]; intros [|b k] E; csimpl in *; try done.
  apply cons_inv in E as [Ea El]. rewrite !filter_cons.
  rewrite (matches_identity tag device a b) by done. destruct (decide _); csimpl; rewrite (IH k) by done; congruence.
Qed.

Lemma sorted_identity (l k : list graph_alloc) : identity <$> l = identity <$> k → identity <$> sort_on g_address l = identity <$> sort_on g_address k.
Proof.
  intros E. pose proof (fmap_sorted identity (λ i j : Z * Z * Z * Z * pystr * Z, i.1.1.1.1.1 <=? j.1.1.1.1.1)) as H.
  etrans; [exact (H l)|]. rewrite E. symmetry. exact (H k).
Qed.

Lemma small_identity (c c' : controller W) : identity <$> n_allocs (c_native c') = identity <$> n_allocs (c_native c) → small c → small c'.
Proof.
  intros E%(selected_identity GRAPH_TAG (-1)). unfold small. cbv zeta. intros (H1 & H2 & H3).
  assert (length (selected GRAPH_TAG (-1) (c_native c')) = length (selected GRAPH_TAG (-1) (c_native c))) as ->.
  { apply (f_equal length) in E. by rewrite !length_fmap in E. }
  rewrite (by_identity raw_size _ _ ltac:(unfold identity; intros; congruence) E).
  by rewrite (by_identity mapped_size _ _ ltac:(unfold identity; intros; congruence) E).
Qed.

Lemma layout_identity region (c c' : controller W) : native_ok (c_native c) → native_ok (c_native c') → small c →
  identity <$> n_allocs (c_native c') = identity <$> n_allocs (c_native c) → describe_layout region c' = describe_layout region c.
Proof.
  intros Hn Hn' Hs E. pose proof (small_identity c c' E Hs) as Hs'. apply (selected_identity GRAPH_TAG (-1)) in E.
  pose proof (sorted_identity _ _ E) as Ev. unfold describe_layout. rewrite !allocations_exact, !stats_exact by done. cbn [mbind res_bind gs_raw].
  rewrite !sort_on_twice. revert Ev. generalize (sort_on g_address (selected GRAPH_TAG (-1) (c_native c'))) (sort_on g_address (selected GRAPH_TAG (-1) (c_native c))).
  intros v' v Ev. assert (length v' = length v) as -> by (apply (f_equal length) in Ev; by rewrite !length_fmap in Ev).
  rewrite (by_identity raw_size _ _ ltac:(unfold identity; intros; congruence) E).
  rewrite (by_identity group_name _ _ ltac:(unfold identity, group_name; intros; congruence) Ev).
  assert (graph_extension v' = graph_extension v) as ->.
  { unfold graph_extension. by rewrite (by_identity allocation_json _ _ ltac:(unfold identity, allocation_json; intros; congruence) Ev). }
  assert (g_address <$> head v' = g_address <$> head v) as ->; [|done].
  apply (addresses_identity v' v), (f_equal head) in Ev. destruct v', v; cbn in *; congruence.
Qed.

Lemma residency_Ok (c : controller W) : native_ok (c_native c) → small c → 0 <= c_revision c →
  let l := selected GRAPH_TAG (-1) (c_native c) in
  residency_stats (inl (lit "cuda_graph")) c = Ok (Stats 1 (cap_provider graph_capabilities) (r_name CUDA_GRAPH) (zsum (raw_size <$> l))
    (zsum (mapped_size <$> l)) 0 0 0 0 (Z.of_nat (length l)) ((zsum (mapped_size <$> l) + PAGE_BYTES - 1) / PAGE_BYTES)
    (Z.of_nat (length (filter (λ a, state_of a ≠ Active) l))) (c_revision c) (lit "cuda-graph-vmm-" ++ str_of_Z (c_revision c))).
Proof.
  intros Hn Hs Hr l. unfold residency_stats. rewrite stats_exact by done. fold l. cbn [gs_raw gs_mapped gs_count gs_paused].
  change (resolve_graph_regions (Some [inl (lit "cuda_graph")])) with (Ok (A:=list MemoryRegion) [CUDA_GRAPH]). cbn [mbind res_bind].
  pose proof (selected_ok _ Hn) as HF. fold l in HF.
  assert (0 <= zsum (raw_size <$> l)) by (apply zsum_nonneg; eapply Forall_impl; [exact HF|]; intros a (? & ? & _); lia).
  assert (0 <= zsum (mapped_size <$> l)) by (apply zsum_nonneg; eapply Forall_impl; [exact HF|]; intros a (? & ? & _); lia).
  pose proof (length_filter (λ a, state_of a ≠ Active) l).
  assert (0 <= (zsum (mapped_size <$> l) + PAGE_BYTES - 1) / PAGE_BYTES) by (apply Z.div_pos; unfold PAGE_BYTES; lia).
  unfold stats_validate. match goal with |- context [raise_if ?b _ _] => assert (b = false) as -> end; [|done].
  cbn [s_format s_provider s_region lifecycle_epoch s_logical_bytes mapped_physical_bytes reserved_physical_bytes preserved_bytes discardable_bytes
    externally_hydrated_bytes allocation_count page_count released_mapping_count lifecycle_revision existsb].
  repeat rewrite orb_false_iff. split_and!; try done; try (apply Z.ltb_ge; lia).
Qed.

End reports.

Section lifecycle.
Context {W : Type} (driver : driver_call → W → bool * W) (granularity : Z → W → Z).

(** One lifecycle call on a library operation that keeps identities. *)
Lemma lifecycle_spec operation goal message region regions (c : controller W) r (c' : controller W) : native_ok (c_native c) → small c →
  (let '(ok, n') := operation (c_native c) in native_ok n' ∧ identity <$> n_allocs n' = identity <$> n_allocs (c_native c)
     ∧ (ok = true → Forall (λ a, matches GRAPH_TAG (-1) a = true → state_of a = goal) (n_allocs n'))) →
  lifecycle operation message regions c = (r, c') →
  native_ok (c_native c') ∧ small c' ∧ identity <$> n_allocs (c_native c') = identity <$> n_allocs (c_native c)
  ∧ describe_layout region c' = describe_layout region c
  ∧ (r = Ok tt → c_revision c' = c_revision c + 1 ∧ Forall (λ a, matches GRAPH_TAG (-1) a = true → state_of a = goal) (n_allocs (c_native c'))).
Proof.
  intros Hn Hs Hop E. unfold lifecycle in E. destruct (resolve_graph_regions regions) as [rs|e]; [|by simplify_eq].
  destruct (operation (c_native c)) as [ok n']. destruct Hop as (H1 & H2 & H3).
  assert (c_native c' = n') as En by (by destruct ok; simplify_eq). subst n'.
  split_and!; [done|by apply (small_identity c)|done|by apply layout_identity|]. intros ->. destruct ok; [|done].
  split; [by apply (f_equal (λ p, c_revision p.2)) in E|by apply H3].
Qed.

(** Releasing graph memory keeps its addresses: whatever the driver answers to a
    [release] and a [restore] after it, every allocation keeps its address, sizes, device
    and pool, so the layout descriptor and its digest do not change; when [release] returns
    every graph allocation is paused, and when [restore] returns every one is active. *)
Theorem release_restore_stable region regions regions' (c : controller W) r c1 r' c2 :
  native_ok (c_native c) → small c →
  release driver regions c = (r, c1) → restore driver granularity regions' c1 = (r', c2) →
  identity <$> n_allocs (c_native c2) = identity <$> n_allocs (c_native c)
  ∧ describe_layout region c1 = describe_layout region c ∧ describe_layout region c2 = describe_layout region c
  ∧ (r = Ok tt → Forall (λ a, matches GRAPH_TAG (-1) a = true → state_of a = Paused) (n_allocs (c_native c1)))
  ∧ (r' = Ok tt → Forall (λ a, matches GRAPH_TAG (-1) a = true → state_of a = Active) (n_allocs (c_native c2))).
Proof.
  intros Hn Hs E1 E2.
  apply (lifecycle_spec _ Paused _ region) in E1 as (Hn1 & Hs1 & I1 & L1 & P1); [|done|done|by apply pause_native].
  apply (lifecycle_spec _ Active _ region) in E2 as (Hn2 & Hs2 & I2 & L2 & P2); [|done|done|by apply resume_native].
  split_and!; [by rewrite I2, I1|done|by rewrite L2, L1|intros Hr; by apply P1|intros Hr; by apply P2].
Qed.

(** Released backing is still reported as mapped: after a successful [release] every
    graph mapping counts as released, yet [mapped_physical_bytes] and the page count of
    [residency_stats] are what they were before. *)
Theorem residency_ignores_release regions c c' :
  native_ok (c_native c) → small c → 0 <= c_revision c → release driver regions c = (Ok tt, c') →
  ∃ s s', residency_stats (inl (lit "cuda_graph")) c = Ok s ∧ residency_stats (inl (lit "cuda_graph")) c' = Ok s'
    ∧ released_mapping_count s' = allocation_count s'
    ∧ mapped_physical_bytes s' = mapped_physical_bytes s ∧ page_count s' = page_count s.
Proof.
  intros Hn Hs Hr E. apply (lifecycle_spec _ Paused _ (inl [])) in E as (Hn' & Hs' & I & _ & P); [|done|done|by apply pause_native].
  destruct (P eq_refl) as [Hrev HP]. apply (selected_identity GRAPH_TAG (-1)) in I.
  eexists _, _. split; [by apply residency_Ok|]. split; [apply residency_Ok; (done || lia)|].
  cbn [released_mapping_count allocation_count mapped_physical_bytes page_count].
  rewrite (by_identity mapped_size _ _ ltac:(unfold identity; intros; congruence) I). split_and!; [|done|done]. do 2 f_equal.
  apply filter_all, Forall_forall. intros a [Hm Ha]%list_elem_of_filter. rewrite Forall_forall in HP. by rewrite (HP a Ha Hm).
Qed.

End lifecycle.

(** ** Reachable states *)

Section reachable.
Context {W : Type} (driver : driver_call → W → bool * W) (granularity : Z → W → Z).
Context (reserved : W → Z) (current_device : W → option Z).
(** Sizes and addresses the driver returns are unsigned. *)
Hypothesis granularity_unsigned : ∀ d w, 0 <= granularity d w.
Hypothesis reserved_unsigned : ∀ w, 0 <= reserved w.

Inductive native_step : native W → native W → Prop :=
| step_push tag device pool n : native_step n (region_push current_device tag device pool n).2
| step_pop n : native_step n (region_pop n).2
| step_malloc raw n : 0 <= raw → native_step n (cudaMalloc driver granularity reserved current_device raw n).2
| step_free address n : native_step n (cudaFree driver address n).2
| step_pause tag device n : native_step n (graph_pause driver tag device n).2
| step_resume tag device n : native_step n (graph_resume driver granularity tag device n).2
| step_other_thread active n : native_step n (Native (n_allocs n) (n_scopes n) active (n_world n)).

Lemma properties_spec device raw w size w' : 0 <= raw → allocation_properties driver granularity device raw w = (Some size, w') → raw <= size.
Proof using granularity_unsigned current_device.
  intros Hr E. unfold allocation_properties in E. destruct (driver _ w) as [ok w1].
  destruct (_ || _) eqn:Eg; [done|]. injection E as <- _. guards. pose proof (granularity_unsigned device w1).
  match goal with H : (granularity device w1 =? 0) = false |- _ => apply Z.eqb_neq in H end.
  pose proof (align_up_spec raw (granularity device w1)). unfold align_up in *. lia.
Qed.

Lemma malloc_native raw n : 0 <= raw → native_ok n → native_ok (cudaMalloc driver granularity reserved current_device raw n).2.
Proof using granularity_unsigned reserved_unsigned.
  intros Hr [HN HF]. unfold cudaMalloc. destruct (n_scopes n) as [|scope rest]; [done|]. destruct (Z.eqb_spec raw 0); [done|].
  unfold allocate_scoped. destruct (current_device _) as [device|]; [|done]. destruct (_ && _); [done|].
  destruct (allocation_properties _ _ _ _ _) as [[size|] w1] eqn:Ep; [|done]. apply properties_spec in Ep; [|done].
  destruct (driver _ w1) as [[] w2]; [|done]. cbn [negb]. destruct (driver _ w2) as [[] w3]; [|done]. cbn [negb]. destruct (driver _ w3) as [[] w4]; [|done]. cbn [negb].
  destruct (driver _ w4) as [[] w5]; [|done]. cbn [negb]. destruct (bool_decide _) eqn:Ed; [done|]. apply bool_decide_eq_false in Ed. split; cbn.
  - by constructor.
  - constructor; [|done]. unfold alloc_ok. cbn. pose proof (reserved_unsigned w3). split_and!; (done || lia).
Qed.

Lemma insert_address (l : list graph_alloc) i a a' : l !! i = Some a → identity a' = identity a → g_address <$> <[ i := a' ]> l = g_address <$> l.
Proof.
  intros Hi E. rewrite list_fmap_insert. apply list_insert_id. rewrite list_lookup_fmap, Hi. cbn. f_equal. unfold identity in E. congruence.
Qed.

Lemma free_native address n : native_ok n → native_ok (cudaFree driver address n).2.
Proof.
  intros [HN HF]. unfold cudaFree. destruct (list_find _ _) as [[i a]|] eqn:Ef; [|done]. apply list_find_Some in Ef as (Hi & _ & _).
  assert (alloc_ok a) as Ha by (by eapply Forall_lookup_1).
  assert (∀ a' w, identity a' = identity a → alloc_ok a' → native_ok (with_allocs n (<[ i := a' ]> (n_allocs n)) w)) as Hput.
  { intros a' w E Ha'. split; cbn; [by rewrite (insert_address _ _ _ _ Hi E)|by apply Forall_insert]. }
  destruct (driver _ _) as [[] w1]; [|done]. cbn [negb]. destruct (driver _ w1) as [[] w2]; [|done]. cbn [negb].
  pose proof (unmap_spec driver a w2 Ha) as H. destruct (unmap_step driver a w2) as [[[] a1] w3]; destruct H as (E1 & H1 & Hm); cbn [negb snd]; [|by apply Hput].
  destruct (Hm eq_refl) as [Hm1 _]. pose proof (release_spec driver a1 w3 H1 Hm1) as H.
  destruct (release_step driver a1 w3) as [[[] a2] w4]; destruct H as (E2 & H2 & _); cbn [negb snd]; [|apply Hput; [congruence|done]].
  destruct (driver _ w4) as [[] w5]; cbn [negb snd]; [|apply Hput; [congruence|done]].
  split; cbn; [|by apply Forall_delete]. rewrite list_fmap_delete. eapply sublist_NoDup; [exact HN|apply sublist_delete].
Qed.

(** C32. Graph memory stays consistent whatever the driver answers: through any interleaving
    of scopes, allocations, frees, pauses and resumes, including ones that fail half way,
    managed addresses stay distinct, every allocation is non-empty and covered by its
    mapping, and only mapped backing is accessible and only a valid handle is mapped. *)
Theorem graph_memory_consistent n n' : native_ok n → rtc native_step n n' → native_ok n'.
Proof using granularity_unsigned reserved_unsigned.
  intros Hn Hs. induction Hs as [|x y z Hxy _ IH]; [done|]. apply IH. destruct Hxy.
  - unfold region_push. by repeat case_match.
  - unfold region_pop. by case_match.
  - by apply malloc_native.
  - by apply free_native.
  - pose proof (pause_native driver tag device n Hn) as H. destruct (graph_pause _ _ _ _) as [ok n1]. apply H.
  - pose proof (resume_native driver granularity tag device n Hn) as H. destruct (graph_resume _ _ _ _ _) as [ok n1]. apply H.
  - done.
Qed.
End reachable.

(** ** A concrete library *)

(** A driver that never fails and reserves ascending addresses. *)
Definition sample_driver (call : driver_call) (w : Z) : bool * Z :=
  (true, match call with MemAddressReserve size => w + size | _ => w end).
Definition sample_granularity (device w : Z) : Z := PAGE_BYTES.
Definition sample_reserved (w : Z) : Z := Z.max 0 w.
Definition sample_device (w : Z) : option Z := Some 0.
Definition sample_malloc : Z → native Z → option Z * native Z := cudaMalloc sample_driver sample_granularity sample_reserved sample_device.

Definition sample_empty : native Z := Native [] [] 0 PAGE_BYTES.
Definition sample_body (c : controller Z) : res unit * controller Z :=
  (Ok tt, Controller (sample_malloc 3000000 (sample_malloc 100 (c_native c)).2).2 (c_revision c)).
Definition sample_graphs : controller Z :=
  Eval vm_compute in (capture_region sample_device 7 None sample_body (Controller sample_empty 0)).2.

Lemma sample_graphs_ok : native_ok (c_native sample_graphs) ∧ small sample_graphs.
Proof.
  split; [split|]; [by apply has_dups_false; vm_compute| |].
  - repeat (apply Forall_cons; split; [unfold alloc_ok; cbn; split_and!; (done || lia)|]). apply Forall_nil_2.
  - unfold small. vm_compute. done.
Qed.

Lemma graph_memory_consistent_witness :
  rtc (native_step sample_driver sample_granularity sample_reserved sample_device) sample_empty
    (sample_malloc 100 (region_push sample_device GRAPH_TAG (-1) 7 sample_empty).2).2
  ∧ native_ok (sample_malloc 100 (region_push sample_device GRAPH_TAG (-1) 7 sample_empty).2).2.
Proof.
  assert (rtc (native_step sample_driver sample_granularity sample_reserved sample_device) sample_empty
    (sample_malloc 100 (region_push sample_device GRAPH_TAG (-1) 7 sample_empty).2).2) as Hs.
  { eapply rtc_l; [apply step_push|]. eapply rtc_l; [apply (step_malloc _ _ _ _ 100); lia|apply rtc_refl]. }
  split; [exact Hs|].
  refine (graph_memory_consistent sample_driver sample_granularity sample_reserved sample_device _ _ sample_empty _ _ Hs).
  - intros d w. unfold sample_granularity, PAGE_BYTES. lia.
  - intros w. unfold sample_reserved. lia.
  - split; [apply NoDup_nil_2|apply Forall_nil_2].
Defined.

Lemma graph_layout_valid_witness : ∃ d, describe_layout (inl (lit "cuda_graph")) sample_graphs = Ok d
  ∧ logical_bytes d = 3000100 ∧ extent_count d = 2.
Proof.
  destruct (graph_layout_valid sample_graphs) as (d & E & _ & Hl & He); [apply sample_graphs_ok|apply sample_graphs_ok|by vm_compute|].
  exists d. split; [exact E|]. split; [exact Hl|exact He].
Defined.

Definition sample_released : res unit * controller Z := Eval vm_compute in release sample_driver None sample_graphs.
Definition sample_restored : res unit * controller Z :=
  Eval vm_compute in restore sample_driver sample_granularity None sample_released.2.

Lemma release_restore_stable_witness : sample_released.1 = Ok tt ∧ sample_restored.1 = Ok tt
  ∧ describe_layout (inr CUDA_GRAPH) sample_released.2 = describe_layout (inr CUDA_GRAPH) sample_graphs.
Proof.
  split; [reflexivity|]. split; [reflexivity|].
  eapply (release_restore_stable sample_driver sample_granularity (inr CUDA_GRAPH) None None sample_graphs
    sample_released.1 sample_released.2 sample_restored.1 sample_restored.2); [apply sample_graphs_ok|apply sample_graphs_ok|vm_compute; reflexivity|vm_compute; reflexivity].
Defined.

Lemma residency_ignores_release_witness : ∃ s', residency_stats (inl (lit "cuda_graph")) sample_released.2 = Ok s'
  ∧ released_mapping_count s' = 2 ∧ mapped_physical_bytes s' = 6291456.
Proof.
  destruct (residency_ignores_release sample_driver None sample_graphs sample_released.2) as (s & s' & E & E' & Hr & Hm & _);
    [apply sample_graphs_ok|apply sample_graphs_ok|cbn; lia|vm_compute; reflexivity|].
  exists s'. split; [exact E'|]. vm_compute in E. injection E as <-. vm_compute in E'. injection E' as <-. split; reflexivity.
Defined.
