(* ===== verification/VllmMemory.v ===== *)
(** * vLLM's tagged memory pool

    [integrations/vllm/coldsnap_vllm_memory.py], the provider that shows vLLM's CuMem pool
    through the engine-neutral contracts, with the pool access of [coldsnap_vllm.py] and
    the inventory of KV payload storages of [coldsnap_vllm_kv_payload.py].

    vLLM's objects are untyped, so an attribute is optional, and a value that [int] may
    reject is optional again. What mapping and unmapping do to the device is a parameter. *)

From S2P Require Import Prelude Ranges PyFloat PyJson Hash Memory.

(** ** Pool access *)

(** [int(x)] of an attribute that is present. *)
Notation int_value := (option Z) (only parsing).

(** An entry of [pointer_to_data]. [da_handle] is [handle[1]] of a present handle. *)
Record alloc_data := Data {
  da_tag : option pystr; da_handle : option int_value; da_size : option int_value; da_nbytes : option int_value;
  da_asleep : option bool;
}.
Notation pool := (list (int_value * alloc_data)) (only parsing).

Record Allocation := Alloc { al_pointer : Z; al_size : Z; al_tag : pystr; al_released : bool }.
#[global] Instance Allocation_eq_dec : EqDecision Allocation.
Proof. solve_decision. Defined.

(** [_allocation_size] *)
Definition allocation_size (d : alloc_data) : res Z :=
  size ← match da_handle d with
         | Some (Some n) => mret n
         | _ => match da_size d, da_nbytes d with
                | Some (Some n), _ => mret n
                | _, Some (Some n) => mret n
                | _, _ => Raise (Exn VllmContractError "allocation size is absent from handle[1], size, and nbytes")
                end
         end;
  _ ← raise_if (size <=? 0) VllmContractError "allocation has invalid size";
  mret size.

Definition allocation_of (tag : option pystr) (entry : int_value * alloc_data) : res (option Allocation) :=
  let '(pointer, d) := entry in
  match da_tag d, da_handle d, da_asleep d with
  | Some t, Some _, Some asleep =>
      if bool_decide (tag = None ∨ tag = Some t) then
        p ← of_option VllmContractError "allocation pointer is invalid" pointer;
        size ← allocation_size d;
        mret (Some (Alloc p size t asleep))
      else mret None
  | _, _, _ => Raise (Exn VllmContractError "allocation data must expose tag, handle, and is_asleep")
  end.

(** [allocations(allocator, tag)] *)
Definition pool_allocations (p : pool) (tag : option pystr) : res (list Allocation) :=
  found ← mapM (allocation_of tag) p;
  mret (omap id found).

(** [set_released]: the flag of the pool entry at a pointer. *)
Definition set_asleep (pointer : Z) (value : bool) (p : pool) : pool :=
  (λ e : int_value * alloc_data, if bool_decide (e.1 = Some pointer)
     then (e.1, Data (da_tag e.2) (da_handle e.2) (da_size e.2) (da_nbytes e.2) (Some value)) else e) <$> p.

(** ** KV payload inventory *)

(** [model_runner.kv_caches]: nested containers of tensors; a tensor has the address and
    size of its storage, when vLLM's object gives them. *)
Inductive cache_value :=
| CDict (values : list cache_value)
| CList (values : list cache_value)
| CTensor (storage : option (Z * Z))
| COther.

(** [_tensor_values] *)
Fixpoint tensor_values (v : cache_value) : list (option (Z * Z)) :=
  match v with
  | CDict l | CList l => concat (tensor_values <$> l)
  | CTensor s => [s]
  | COther => []
  end.

(** [_storage_extent] *)
Definition storage_extent (s : option (Z * Z)) : res (Z * Z) :=
  '(pointer, size) ← of_option VllmContractError "vLLM KV tensor storage must expose data_ptr() and nbytes()" s;
  _ ← raise_if ((pointer <=? 0) || (size <=? 0)) VllmContractError "vLLM KV tensor storage has invalid extent";
  mret (pointer, size).

(** [record_kv_payload]: the extents, which also become the inventory. *)
Definition record_kv_payload (caches : option cache_value) (inventory : list (Z * Z)) : res (list (Z * Z)) * list (Z * Z) :=
  match (caches ← of_option VllmContractError "vLLM model runner did not publish kv_caches after initialization" caches;
         found ← mapM storage_extent (tensor_values caches);
         let extents := sorted_set (pair_leb Z.leb Z.leb) found in
         _ ← raise_if (bool_decide (extents = [])) VllmContractError "vLLM model runner published no tensor storage in kv_caches";
         mret extents) with
  | Ok extents => (Ok extents, extents)
  | Raise e => (Raise e, inventory)
  end.

(** [initialize_then_record] *)
Definition initialize_then_record {A R} (original : R → res A * R) (kv_caches : R → option cache_value) (r : R)
    (inventory : list (Z * Z)) : res A * R * list (Z * Z) :=
  match original r with
  | (Raise e, r') => (Raise e, r', inventory)
  | (Ok result, r') =>
      let '(recorded, inventory') := record_kv_payload (kv_caches r') inventory in
      (_ ← recorded; mret result, r', inventory')
  end.

(** ** The provider *)

Definition vllm_capabilities : ProviderCapabilities :=
  Capabilities (lit "vllm_cumem") true true false true true false true 1 [lit "discard"]
    true true false true false false false true false false false.

Record provider := Provider { v_pool : pool; v_revision : Z }.

Definition inside (a : Allocation) (extent : Z * Z) : Prop :=
  al_pointer a <= extent.1 ∧ extent.1 + extent.2 <= al_pointer a + al_size a.
#[global] Instance inside_dec a e : Decision (inside a e).
Proof. unfold inside. apply _. Defined.

(** One payload extent: the allocation that holds it. *)
Definition resolve_extent (allocated : list Allocation) (extent : Z * Z) : res Allocation :=
  match filter (λ a, inside a extent) allocated with
  | [a] => mret a
  | _ => Raise (Exn RuntimeError "vLLM KV payload extent must resolve to exactly one tagged allocation")
  end.

(** [select_allocations]: a later extent in an allocation overwrites an equal entry, so the
    dictionary has one allocation per pointer. *)
Definition select_allocations (region purpose : pystr) (inventory : list (Z * Z)) (v : provider) : res (list Allocation) :=
  _ ← raise_if (negb (bool_decide (region = lit "kv_cache")) || negb (bool_decide (purpose = lit "payload")))
      ValueError "vLLM provider cannot select purpose from region";
  _ ← raise_if (bool_decide (inventory = [])) RuntimeError "vLLM KV payload inventory is empty; refusing heuristic discard";
  allocated ← pool_allocations (v_pool v) (Some region);
  found ← mapM (resolve_extent allocated) inventory;
  mret (omap (λ pointer, last (filter (λ a, al_pointer a = pointer) found)) (sorted_set Z.leb (al_pointer <$> found))).

(** [_validate_copy] *)
Definition validate_copy (capacity size : Z) : res unit :=
  raise_if ((size <=? 0) || (capacity <? size)) ValueError "copy size exceeds host stage capacity".

(** [release]: the flag is set and the revision advances also when unmapping fails. *)
Definition release {D} (unmap : Z → D → res unit * D) (a : Allocation) (v : provider) (d : D) : res unit * provider * D :=
  let '(outcome, d') := unmap (al_pointer a) d in
  (outcome, Provider (set_asleep (al_pointer a) true (v_pool v)) (v_revision v + 1), d').

(** [remap]: the flag stays set; the caller clears it when the bytes are back. *)
Definition remap {D} (map : Z → D → res unit * D) (a : Allocation) (v : provider) (d : D) : res unit * provider * D :=
  match map (al_pointer a) d with
  | (Ok tt, d') => (Ok tt, Provider (v_pool v) (v_revision v + 1), d')
  | (Raise e, d') => (Raise e, v, d')
  end.

(** [_region] *)
Definition provider_region (value : region_ref) : res MemoryRegion :=
  resolved ← resolve_regions (Some [value]);
  of_option IndexError "list index out of range" (head resolved).

Definition GRANULARITY : Z := 2 * 1024 * 1024.

Definition extent_json (base : Z) (a : Allocation) : json :=
  JObj [(lit "offset", JInt (al_pointer a - base)); (lit "bytes", JInt (al_size a))].
Definition pool_extension (base : Z) (values : list Allocation) : list (pystr * json) :=
  [(lit "extents", JArr (extent_json base <$> values))].

(** The descriptor of allocations in address order. *)
Definition layout_of (resolved : MemoryRegion) (values : list Allocation) : res MemoryLayoutDescriptor :=
  match head values with
  | None => Raise (Exn MemoryCapabilityError "vLLM CuMem has no allocations for region")
  | Some first =>
      layout_create (cap_provider vllm_capabilities) 1 resolved (lit "cuda:current") (Some (al_pointer first))
        (zsum (al_size <$> values)) GRANULARITY GRANULARITY CONTIGUOUS [] (Z.of_nat (length values)) (lit "none")
        (pool_extension (al_pointer first) values)
  end.

(** [describe_layout] *)
Definition describe_layout (value : region_ref) (v : provider) : res MemoryLayoutDescriptor :=
  resolved ← provider_region value;
  values ← pool_allocations (v_pool v) (Some (r_name resolved));
  layout_of resolved (sort_on al_pointer values).

(** [residency_stats] *)
Definition residency_stats (value : region_ref) (v : provider) : res MemoryResidencyStats :=
  resolved ← provider_region value;
  values ← pool_allocations (v_pool v) (Some (r_name resolved));
  let mapped := zsum (al_size <$> filter (λ a, al_released a = false) values) in
  let result := Stats 1 (cap_provider vllm_capabilities) (r_name resolved) (zsum (al_size <$> values)) mapped 0
    (if decide (r_policy resolved = PRESERVE) then mapped else 0) (if decide (r_policy resolved = DISCARD) then mapped else 0) 0
    (Z.of_nat (length values)) (zsum ((λ a, (al_size a + GRANULARITY - 1) / GRANULARITY) <$> values))
    (Z.of_nat (length (filter (λ a, al_released a = true) values))) (v_revision v)
    (lit "vllm-cumem-" ++ str_of_Z (v_revision v)) in
  _ ← stats_validate result;
  mret result.
