(* ===== verification/VllmMemorySpec.v ===== *)
(** * Theorems about vLLM's memory provider

    The allocations selected for discard are exactly those that hold KV tensors; releasing
    an allocation changes neither the described layout nor any other allocation, and the
    residency statistics follow it byte by byte. *)

From S2P Require Import Prelude Ranges PyFloat PyJson PyJsonFacts Hash Memory MemorySpec VllmMemory.

(** ** Pool access *)

Lemma allocation_of_inv tag e a : allocation_of tag e = Ok (Some a) →
  e.1 = Some (al_pointer a) ∧ 0 < al_size a ∧ da_asleep e.2 = Some (al_released a).
Proof.
  unfold allocation_of, allocation_size. destruct e as [p d]. destruct (da_tag d), (da_handle d), (da_asleep d) eqn:Es; try done.
  case_bool_decide; [|done]. intros E. res_inv. simplify_eq.
  match goal with H : (_ <=? 0) = false |- _ => by apply Z.leb_gt in H end.
Qed.

Lemma pool_allocations_cons tag e p : pool_allocations (e :: p) tag =
  (a ← allocation_of tag e; l ← pool_allocations p tag; mret (match a with Some a => a :: l | None => l end)).
Proof.
  unfold pool_allocations. cbn. destruct (allocation_of tag e) as [[a|]|]; cbn; [| |done]; by destruct (mapM (allocation_of tag) p).
Qed.

Lemma pool_allocations_ok p tag l : pool_allocations p tag = Ok l →
  Forall (λ a, 0 < al_size a) l ∧ (λ a, Some (al_pointer a)) <$> l `sublist_of` p.*1.
Proof.
  revert l. induction p as [|e p IH]; intros l E; [by injection E as <-|]. rewrite pool_allocations_cons in E. res_inv.
  match goal with H : pool_allocations p tag = Ok _ |- _ => apply IH in H as [HF Hs] end.
  destruct x as [a|]; csimpl; [|split; [done|by constructor]].
  match goal with H : allocation_of _ _ = _ |- _ => apply allocation_of_inv in H as (Hp & Ha & _) end.
  split; [by constructor|]. rewrite Hp. by constructor.
Qed.

Lemma pool_pointers p tag l : NoDup p.*1 → pool_allocations p tag = Ok l → NoDup (al_pointer <$> l).
Proof.
  intros HN [_ Hs]%pool_allocations_ok. eapply sublist_NoDup in Hs; [|done].
  apply (NoDup_fmap_1 Some). by rewrite <- list_fmap_compose.
Qed.

(** ** KV payload *)

Lemma resolve_extent_inv allocated e a : resolve_extent allocated e = Ok a →
  a ∈ allocated ∧ inside a e ∧ ∀ b, b ∈ allocated → inside b e → b = a.
Proof.
  unfold resolve_extent. destruct (filter _ allocated) as [|x [|]] eqn:Ef; try done. intros [= <-].
  assert (x ∈ filter (λ a, inside a e) allocated) as [Hx Hin]%list_elem_of_filter by (rewrite Ef; left).
  split_and!; [done|done|]. intros b Hb Hib.
  assert (b ∈ filter (λ a, inside a e) allocated) as H by (by apply list_elem_of_filter). rewrite Ef in H. by apply list_elem_of_singleton in H.
Qed.

Lemma strictly_sorted l : NoDup l → StronglySorted Z.le l → StronglySorted Z.lt l.
Proof.
  intros HN HS. induction HS as [|x l HS IH Hx]; constructor; apply NoDup_cons in HN as [Hn HN]; [by apply IH|].
  rewrite Forall_forall in Hx |- *. intros y Hy. pose proof (Hx y Hy). assert (x ≠ y) by (by intros ->). lia.
Qed.

(** The dictionary of selected allocations, in pointer order. *)
Definition by_pointers (found : list Allocation) (keys : list Z) : list Allocation :=
  omap (λ pointer, last (filter (λ a, al_pointer a = pointer) found)) keys.

Lemma by_pointers_keys found keys : (∀ k, k ∈ keys → k ∈ al_pointer <$> found) → al_pointer <$> by_pointers found keys = keys.
Proof.
  unfold by_pointers. induction keys as [|k keys IH]; intros Hk; [done|]. csimpl.
  destruct (last (filter (λ a, al_pointer a = k) found)) as [a|] eqn:El.
  - csimpl. rewrite IH by (intros; apply Hk; by right). f_equal. apply last_Some_elem_of, list_elem_of_filter in El as [<- _]. done.
  - apply last_None in El. exfalso. assert (k ∈ al_pointer <$> found) as (a & -> & Ha)%list_elem_of_fmap by (apply Hk; left).
    assert (a ∈ filter (λ b, al_pointer b = al_pointer a) found) as H by (by apply list_elem_of_filter). rewrite El in H. by apply elem_of_nil in H.
Qed.

Lemma elem_by_pointers found keys a : a ∈ by_pointers found keys → a ∈ found.
Proof.
  unfold by_pointers. rewrite list_elem_of_omap. intros (k & _ & El%last_Some_elem_of). by apply list_elem_of_filter in El as [_ ?].
Qed.

(** What may be discarded is exactly the KV payload: after the runner's caches were
    recorded, the allocations [select_allocations] returns are in address order and belong
    to the [kv_cache] pool; every KV tensor's storage lies in exactly one allocation of the
    pool, which is selected, and every selected allocation holds a KV tensor. *)
Theorem kv_payload_selected caches inventory extents inventory' v l :
  NoDup (v_pool v).*1 →
  record_kv_payload (Some caches) inventory = (Ok extents, inventory') →
  select_allocations (lit "kv_cache") (lit "payload") inventory' v = Ok l →
  ∃ allocated, pool_allocations (v_pool v) (Some (lit "kv_cache")) = Ok allocated
  ∧ StronglySorted Z.lt (al_pointer <$> l) ∧ Forall (λ a, a ∈ allocated) l
  ∧ (∀ e, Some e ∈ tensor_values caches → ∃ a, a ∈ l ∧ inside a e ∧ ∀ b, b ∈ allocated → inside b e → b = a)
  ∧ Forall (λ a, ∃ e, Some e ∈ tensor_values caches ∧ inside a e) l.
Proof.
  intros HN Hr Hs. unfold record_kv_payload in Hr. destruct (_ ≫= _) as [ex|] eqn:Er; [|done]. injection Hr as <- <-. cbn [of_option mbind res_bind] in Er. res_inv.
  match goal with H : mapM storage_extent _ = Ok ?x |- _ => apply mapM_Ok in H; rename H into Hst, x into stored end.
  unfold select_allocations in Hs. res_inv.
  match goal with H : pool_allocations _ _ = Ok ?x |- _ => rename H into Hpool, x into allocated end.
  match goal with H : mapM _ _ = Ok ?x |- _ => apply mapM_Ok in H; rename H into Hf, x into found end.
  fold (by_pointers found (sorted_set Z.leb (al_pointer <$> found))) in *. set (l := by_pointers found _) in *.
  pose proof (pool_pointers _ _ _ HN Hpool) as Hptr. exists allocated.
  assert (∀ e, e ∈ sorted_set (pair_leb Z.leb Z.leb) stored ↔ Some e ∈ tensor_values caches) as Hext.
  { intros e. unfold sorted_set. rewrite py_sorted_perm, elem_of_remove_dups. split.
    - intros (s & Hs & He)%(Forall2_elem_r _ _ _ _ Hst). unfold storage_extent in He. destruct s as [[p n]|]; [|done]. cbn in He. by res_inv.
    - intros (y & Hy & He)%(Forall2_elem_l _ _ _ _ Hst). unfold storage_extent in He. cbn in He. destruct e. by res_inv. }
  assert (Forall (λ a, a ∈ allocated) found) as Hfa.
  { apply Forall_forall. intros a (e & _ & Ha)%(Forall2_elem_r _ _ _ _ Hf). by apply resolve_extent_inv in Ha as [? _]. }
  assert (al_pointer <$> l = sorted_set Z.leb (al_pointer <$> found)) as Hk.
  { apply by_pointers_keys. intros k. unfold sorted_set. by rewrite py_sorted_perm, elem_of_remove_dups. }
  assert (∀ a, a ∈ found → a ∈ l) as Hin.
  { intros a Ha. assert (al_pointer a ∈ al_pointer <$> l) as (b & E & Hb)%list_elem_of_fmap.
    { rewrite Hk. unfold sorted_set. rewrite py_sorted_perm, elem_of_remove_dups. by apply list_elem_of_fmap_2. }
    rewrite Forall_forall in Hfa. pose proof (elem_by_pointers _ _ _ Hb) as Hb'.
    by rewrite (NoDup_fmap_elem al_pointer allocated a b) by (done || by apply Hfa). }
  split_and!; [done| | | |].
  - rewrite Hk. apply strictly_sorted; [unfold sorted_set; rewrite py_sorted_perm; apply NoDup_remove_dups|].
    pose proof (sort_on_sorted id (remove_dups (al_pointer <$> found))) as HS. exact HS.
  - apply Forall_forall. intros a Ha%elem_by_pointers. rewrite Forall_forall in Hfa. by apply Hfa.
  - intros e He%Hext. apply (Forall2_elem_l _ _ _ _ Hf) in He as (a & Ha & Hra). apply resolve_extent_inv in Hra as (_ & ? & ?). exists a. split; [by apply Hin|done].
  - apply Forall_forall. intros a Ha%elem_by_pointers. apply (Forall2_elem_r _ _ _ _ Hf) in Ha as (e & He%Hext & Hra). apply resolve_extent_inv in Hra as (_ & ? & _). by exists e.
Qed.

(** ** Releasing *)

Definition mark_as (value : bool) (pointer : Z) (a : Allocation) : Allocation :=
  if decide (al_pointer a = pointer) then Alloc (al_pointer a) (al_size a) (al_tag a) value else a.
Notation mark := (mark_as true).

Lemma pool_set_asleep value pointer p tag l : pool_allocations p tag = Ok l →
  pool_allocations (set_asleep pointer value p) tag = Ok (mark_as value pointer <$> l).
Proof.
  revert l. induction p as [|e p IH]; intros l E; [by injection E as <-|]. rewrite pool_allocations_cons in E. res_inv.
  match goal with H : pool_allocations p tag = Ok _ |- _ => apply IH in H as Hl end.
  change (set_asleep pointer value (e :: p)) with ((if bool_decide (e.1 = Some pointer)
     then (e.1, Data (da_tag e.2) (da_handle e.2) (da_size e.2) (da_nbytes e.2) (Some value)) else e) :: set_asleep pointer value p).
  rewrite pool_allocations_cons, Hl. clear IH Hl.
  match goal with H : allocation_of _ _ = Ok ?y |- _ => rename H into Ha, y into a end.
  assert (allocation_of tag (if bool_decide (e.1 = Some pointer) then (e.1, Data (da_tag e.2) (da_handle e.2) (da_size e.2) (da_nbytes e.2) (Some value)) else e)
    = Ok (mark_as value pointer <$> a)) as ->; [|by destruct a].
  destruct e as [q d]. cbn [fst snd]. case_bool_decide as Hq.
  - unfold allocation_of, allocation_size in *. cbn [da_tag da_handle da_size da_nbytes da_asleep].
    destruct (da_tag d), (da_handle d), (da_asleep d); try done. case_bool_decide; [|by injection Ha as <-].
    res_inv. simplify_eq. cbn [of_option mbind res_bind].
    match goal with H : (match _ with _ => _ end) = Ok _ |- _ => rewrite H end. cbn [mbind res_bind].
    match goal with H : (_ <=? 0) = false |- _ => rewrite H end. cbn. unfold mark_as. by rewrite decide_True.
  - rewrite Ha. destruct a as [a|]; [|done]. apply allocation_of_inv in Ha as (Hp & _). cbn. unfold mark_as.
    rewrite decide_False; [done|]. intros <-. by apply Hq.
Qed.

(** Residency by the flags of the pool. *)
Definition resident (l : list Allocation) : Z := zsum (al_size <$> filter (λ a, al_released a = false) l).

Lemma resident_mark pointer l a : NoDup (al_pointer <$> l) → a ∈ l → al_pointer a = pointer →
  resident (mark pointer <$> l) = resident l - (if al_released a then 0 else al_size a).
Proof.
  intros HN Ha <-. apply list_elem_of_split in Ha as (l1 & l2 & ->). rewrite fmap_app in HN. csimpl in HN.
  apply NoDup_app in HN as (_ & Hd & [Hn2 _]%NoDup_cons).
  assert (∀ k : list Allocation, al_pointer a ∉ al_pointer <$> k → mark (al_pointer a) <$> k = k) as Hid.
  { intros k. induction k as [|b k IH]; [done|]. csimpl. intros [Hb Hk]%not_elem_of_cons. rewrite IH by done. unfold mark_as. by rewrite decide_False. }
  rewrite fmap_app. csimpl. rewrite (Hid l1), (Hid l2) by (done || set_solver). unfold mark_as. rewrite decide_True by done.
  unfold resident. rewrite !filter_app, !fmap_app, !zsum_app, !filter_cons. cbn [al_released].
  rewrite (decide_False (P := true = false)) by done. destruct (al_released a); [rewrite decide_False by done|rewrite decide_True by done; csimpl]; lia.
Qed.

Lemma resident_bounds l : Forall (λ a, 0 < al_size a) l → 0 <= resident l <= zsum (al_size <$> l).
Proof.
  unfold resident. induction 1 as [|a l Ha _ IH]; [done|]. rewrite filter_cons. destruct (decide _); csimpl; lia.
Qed.

Lemma pool_residency name r v l : find_region name = Some r → pool_allocations (v_pool v) (Some (r_name r)) = Ok l → 0 <= v_revision v →
  ∃ s, residency_stats (inl name) v = Ok s ∧ s_logical_bytes s = zsum (al_size <$> l) ∧ mapped_physical_bytes s = resident l
    ∧ lifecycle_revision s = v_revision v ∧ allocation_count s = Z.of_nat (length l)
    ∧ released_mapping_count s = Z.of_nat (length (filter (λ a, al_released a = true) l)).
Proof.
  intros Hr Hp Hv. unfold residency_stats, provider_region, resolve_regions. cbn [resolve_loop]. rewrite Hr. cbn [of_option mbind res_bind].
  rewrite bool_decide_eq_false_2 by apply not_elem_of_nil. cbn [raise_if mbind res_bind app head of_option mret res_ret]. rewrite Hp. cbn [mbind res_bind].
  apply pool_allocations_ok in Hp as [HF _]. fold (resident l). pose proof (resident_bounds l HF) as Hb.
  pose proof (length_filter (λ a, al_released a = true) l).
  assert (0 <= zsum ((λ a, (al_size a + GRANULARITY - 1) / GRANULARITY) <$> l)) as Hpages.
  { clear -HF. induction HF as [|a l Ha _ IH]; csimpl; [done|].
    assert (0 <= (al_size a + GRANULARITY - 1) / GRANULARITY) by (apply Z.div_pos; unfold GRANULARITY; lia). lia. }
  assert (r_name r ≠ []) as Hne.
  { unfold find_region in Hr. destruct (find _ _) as [[k r']|] eqn:Ef; [|done]. injection Hr as <-. apply find_some in Ef as [Hin _].
    cbn in Hin. naive_solver. }
  match goal with |- context [stats_validate ?t] => assert (stats_validate t = Ok tt) as Hval; [|exists t; by rewrite Hval] end.
  unfold stats_validate. match goal with |- raise_if ?b _ _ = _ => assert (b = false) as -> end; [|done].
  cbn [s_format s_provider s_region lifecycle_epoch s_logical_bytes mapped_physical_bytes reserved_physical_bytes preserved_bytes discardable_bytes
    externally_hydrated_bytes allocation_count page_count released_mapping_count lifecycle_revision existsb].
  repeat rewrite orb_false_iff. split_and!; try done; try (by apply bool_decide_eq_false_2); apply Z.ltb_ge; repeat case_decide; (congruence || lia).
Qed.

(** The layout depends on pointers and sizes alone. *)
Lemma layout_by_places r pointer l : layout_of r (sort_on al_pointer (mark pointer <$> l)) = layout_of r (sort_on al_pointer l).
Proof.
  assert (∀ a, al_pointer (mark pointer a) = al_pointer a ∧ al_size (mark pointer a) = al_size a) as Hmk
    by (intros a; unfold mark; by case_decide).
  assert (sort_on al_pointer (mark pointer <$> l) = mark pointer <$> sort_on al_pointer l) as ->.
  { rewrite <- (fmap_sorted (mark pointer) (λ x y, al_pointer x <=? al_pointer y)). f_equal. clear -Hmk.
    apply py_sorted_ext. intros x y. by rewrite (proj1 (Hmk x)), (proj1 (Hmk y)). }
  destruct (sort_on al_pointer l) as [|first rest]; [done|]. unfold layout_of. csimpl. rewrite (proj1 (Hmk first)), (proj2 (Hmk first)), length_fmap.
  assert (al_size <$> (mark pointer <$> rest) = al_size <$> rest) as -> by (rewrite <- list_fmap_compose; apply list_fmap_ext; intros _ b _; apply Hmk).
  f_equal. unfold pool_extension. csimpl. do 3 f_equal. f_equal.
  - unfold extent_json. by rewrite (proj1 (Hmk first)), (proj2 (Hmk first)).
  - rewrite <- list_fmap_compose. apply list_fmap_ext. intros _ b _. cbn. unfold extent_json. by rewrite (proj1 (Hmk b)), (proj2 (Hmk b)).
Qed.

(** Residency follows a release: releasing an allocation of a standard region, whether or
    not the driver's unmap succeeds, keeps the logical bytes and lowers the mapped bytes by
    exactly the allocation's size if it was mapped; the statistics validate before and
    after, and the layout descriptor is unchanged. *)
Theorem release_tracked {D} (unmap : Z → D → res unit * D) name r v l a d outcome v' d' :
  NoDup (v_pool v).*1 → find_region name = Some r → pool_allocations (v_pool v) (Some (r_name r)) = Ok l → 0 <= v_revision v →
  a ∈ l → release unmap a v d = (outcome, v', d') →
  describe_layout (inl name) v' = describe_layout (inl name) v
  ∧ ∃ s s', residency_stats (inl name) v = Ok s ∧ residency_stats (inl name) v' = Ok s'
    ∧ s_logical_bytes s' = s_logical_bytes s ∧ lifecycle_revision s' = lifecycle_revision s + 1
    ∧ mapped_physical_bytes s' = mapped_physical_bytes s - (if al_released a then 0 else al_size a).
Proof.
  intros HN Hr Hp Hv Ha E. unfold release in E. destruct (unmap _ d) as [o d0]. injection E as <- <- <-.
  set (v' := Provider (set_asleep (al_pointer a) true (v_pool v)) (v_revision v + 1)).
  pose proof (pool_set_asleep true (al_pointer a) _ _ _ Hp) as Hp'. split.
  - unfold describe_layout. destruct (provider_region (inl name)) as [r'|] eqn:Er; [|done]. cbn [mbind res_bind].
    assert (r' = r) as ->. { unfold provider_region, resolve_regions in Er. cbn [resolve_loop] in Er. rewrite Hr in Er. cbn [of_option mbind res_bind] in Er.
      rewrite bool_decide_eq_false_2 in Er by apply not_elem_of_nil. cbn in Er. congruence. }
    cbn [v_pool v']. rewrite Hp, Hp'. cbn [mbind res_bind]. apply layout_by_places.
  - destruct (pool_residency name r v l Hr Hp Hv) as (s & Es & Hl & Hm & Hrev & _).
    destruct (pool_residency name r v' _ Hr Hp') as (s' & Es' & Hl' & Hm' & Hrev' & _); [cbn; lia|].
    exists s, s'. split_and!; [done|done| | |].
    + rewrite Hl, Hl', <- list_fmap_compose. f_equal. apply list_fmap_ext. intros _ b _. cbn. unfold mark_as. by case_decide.
    + by rewrite Hrev, Hrev'.
    + rewrite Hm, Hm'. apply resident_mark; [by eapply pool_pointers|done|done].
Qed.

(** A pool with a KV allocation, one of metadata beside it, and a weight. *)
Definition sample_pool : provider := Provider
  [(Some 4096, Data (Some (lit "kv_cache")) (Some (Some 8192)) None None (Some false));
   (Some 16384, Data (Some (lit "kv_cache")) (Some None) (Some (Some 512)) None (Some false));
   (Some 32768, Data (Some (lit "weights")) (Some (Some 1024)) None None (Some false))] 0.
Definition sample_caches : cache_value := CDict [CList [CTensor (Some (8192, 4096)); CTensor (Some (4096, 100))]; COther].

Lemma kv_payload_selected_witness : ∃ allocated, pool_allocations (v_pool sample_pool) (Some (lit "kv_cache")) = Ok allocated
  ∧ length allocated = 2%nat
  ∧ select_allocations (lit "kv_cache") (lit "payload") [(4096, 100); (8192, 4096)] sample_pool
    = Ok [Alloc 4096 8192 (lit "kv_cache") false]
  ∧ ∀ e, Some e ∈ tensor_values sample_caches → inside (Alloc 4096 8192 (lit "kv_cache") false) e.
Proof.
  destruct (kv_payload_selected sample_caches [] [(4096, 100); (8192, 4096)] [(4096, 100); (8192, 4096)] sample_pool
    [Alloc 4096 8192 (lit "kv_cache") false]) as (allocated & E & _ & _ & H & _).
  - by apply (bool_decide_unpack _).
  - by vm_compute.
  - by vm_compute.
  - exists allocated. split; [exact E|]. split; [|split; [by vm_compute|]].
    + assert (Ok allocated = pool_allocations (v_pool sample_pool) (Some (lit "kv_cache"))) as HE by (by rewrite E). vm_compute in HE. by injection HE as ->.
    + intros e He. destruct (H e He) as (a & Ha%list_elem_of_singleton & Hi & _). by rewrite <- Ha.
Defined.

Lemma release_tracked_witness : ∃ s s', residency_stats (inl (lit "kv_cache")) sample_pool = Ok s
  ∧ residency_stats (inl (lit "kv_cache")) (Provider (set_asleep 4096 true (v_pool sample_pool)) 1) = Ok s'
  ∧ mapped_physical_bytes s' = mapped_physical_bytes s - 8192.
Proof.
  destruct (release_tracked (λ _ (d : unit), (Raise (Exn RuntimeError "cuMemUnmap"), d)) (lit "kv_cache") KV_CACHE sample_pool
    [Alloc 4096 8192 (lit "kv_cache") false; Alloc 16384 512 (lit "kv_cache") false] (Alloc 4096 8192 (lit "kv_cache") false) tt
    (Raise (Exn RuntimeError "cuMemUnmap")) (Provider (set_asleep 4096 true (v_pool sample_pool)) 1) tt) as (_ & s & s' & E & E' & _ & _ & Hm).
  - by apply (bool_decide_unpack _).
  - by vm_compute.
  - by vm_compute.
  - done.
  - left.
  - done.
  - exists s, s'. split; [exact E|]. split; [exact E'|exact Hm].
Defined.
