(* ===== verification/CudaEpoch.v ===== *)
(** * CUDA context epochs

    [integrations/vllm/coldsnap_cuda_epoch.py] and the primitives of
    [native/coldsnap_cuda_epoch.cpp] it calls: with vLLM asleep, the CUDA context is
    destroyed and later recreated, fresh backing is mapped at the retained addresses, and
    vLLM's own wake is run against the mappings already made.

    The objects vLLM's allocator holds are shared with the recipes of an epoch, so they live
    in a store and are updated in place. The CUDA driver, vLLM's copies and unmapping, and vLLM's
    wake are parameters; the wake is a finite tree of the calls it makes, which may depend on the
    world. The runtime resources of the worker are an interface; [CudaRuntime] implements it. *)

From stdpp Require Import functions.
From S2P Require Import Prelude Ranges PyFloat PyJson Hash Memory VllmMemory.

(** ** Objects of the allocator *)

(** [handle]: a tuple of fields, or another object whose second item is known. *)
Inductive handle_value := HTuple (fields : list int_value) | HOther (second : int_value).
Definition handle_second (h : handle_value) : int_value :=
  match h with HTuple l => mjoin (l !! 1%nat) | HOther s => s end.

Record epoch_data := EData {
  ed_tag : option pystr; ed_handle : option handle_value; ed_size : option int_value; ed_nbytes : option int_value;
  ed_asleep : option bool; ed_backup : option pybytes;
}.
Definition pool_view (d : epoch_data) : alloc_data :=
  Data (ed_tag d) (handle_second <$> ed_handle d) (ed_size d) (ed_nbytes d) (ed_asleep d).

Definition with_tag (t : option pystr) (d : epoch_data) : epoch_data :=
  EData t (ed_handle d) (ed_size d) (ed_nbytes d) (ed_asleep d) (ed_backup d).
Definition with_backup (b : option pybytes) (d : epoch_data) : epoch_data :=
  EData (ed_tag d) (ed_handle d) (ed_size d) (ed_nbytes d) (ed_asleep d) b.
Definition with_asleep (b : bool) (d : epoch_data) : epoch_data :=
  EData (ed_tag d) (ed_handle d) (ed_size d) (ed_nbytes d) (Some b) (ed_backup d).

(** [CudaEpochAllocation]; [er_ref] is the object [data]. *)
Record CudaEpochAllocation := Recipe {
  er_address : Z; er_bytes : Z; er_box : Z; er_device : Z; er_tag : pystr; er_ref : nat; externalized_by_epoch : bool;
}.
#[global] Instance CudaEpochAllocation_eq_dec : EqDecision CudaEpochAllocation.
Proof. solve_decision. Defined.

Notation handle_key_t := (Z * Z * Z * Z)%type (only parsing).
Definition handle_key (r : CudaEpochAllocation) : handle_key_t := (er_device r, er_bytes r, er_address r, er_box r).

(** ** The world *)

(** Functions installed as [vllm.device_allocator.cumem.create_and_map]. *)
Inductive mapper := VllmMapper | Prebound | OtherMapper (n : nat).
#[global] Instance mapper_eq_dec : EqDecision mapper.
Proof. solve_decision. Defined.

(** The methods of [VllmMemoryProvider] that copy, fill and synchronize. *)
Inductive provider_methods := RuntimeMethods | EpochMethods.

Record world (D : Type) := World {
  w_objects : nat → epoch_data;
  w_mapping : list (int_value * nat);   (** [allocator.pointer_to_data] *)
  w_boxes : gmap Z Z;                   (** the handle boxes *)
  w_published : gset Z;                 (** devices with a published context *)
  w_mapper : option mapper;
  w_provider : provider_methods;
  w_device : D;
}.
Arguments World {D}. Arguments w_objects {D}. Arguments w_mapping {D}. Arguments w_boxes {D}. Arguments w_published {D}.
Arguments w_mapper {D}. Arguments w_provider {D}. Arguments w_device {D}.

Definition set_objects {D} (f : (nat → epoch_data) → nat → epoch_data) (w : world D) : world D :=
  World (f (w_objects w)) (w_mapping w) (w_boxes w) (w_published w) (w_mapper w) (w_provider w) (w_device w).
Definition set_object {D} (i : nat) (f : epoch_data → epoch_data) : world D → world D :=
  set_objects (λ o, <[ i := f (o i) ]> o).
Definition set_box {D} (box handle : Z) (w : world D) : world D :=
  World (w_objects w) (w_mapping w) (<[ box := handle ]> (w_boxes w)) (w_published w) (w_mapper w) (w_provider w) (w_device w).
Definition set_published {D} (s : gset Z) (w : world D) : world D :=
  World (w_objects w) (w_mapping w) (w_boxes w) s (w_mapper w) (w_provider w) (w_device w).
Definition set_mapper {D} (m : option mapper) (w : world D) : world D :=
  World (w_objects w) (w_mapping w) (w_boxes w) (w_published w) m (w_provider w) (w_device w).
Definition set_provider {D} (p : provider_methods) (w : world D) : world D :=
  World (w_objects w) (w_mapping w) (w_boxes w) (w_published w) (w_mapper w) p (w_device w).
Definition set_device {D} (d : D) (w : world D) : world D :=
  World (w_objects w) (w_mapping w) (w_boxes w) (w_published w) (w_mapper w) (w_provider w) d.

(** ** Driver calls *)

Inductive epoch_call :=
| CuInit | CtxClear | DeviceGet (device : Z) | PrimaryRetain (device : Z) | CtxSetCurrent (device : Z)
| GetGranularity (device : Z) | Create (bytes : Z) | Map (address bytes handle : Z) | SetAccess (address bytes device : Z)
| Unmap (address bytes : Z) | Release (handle : Z)
| SetDevice (device : Z) | DeviceSync | DeviceReset | PublishMappings | CtxSynchronize.

Record driver_ops (D : Type) := Driver {
  dr_call : epoch_call → D → bool * D;
  dr_granularity : Z → D → Z;              (** what [GetGranularity] returned *)
  dr_created : D → Z;                      (** the handle of the last [Create] *)
  dr_copy_in : Z → pybytes → D → bool * D; (** [cuMemcpyHtoD] *)
  dr_memset : Z → Z → D → bool * D;        (** [cuMemsetD8] with zero *)
  dr_copy_out : Z → Z → D → res pybytes * D;        (** vLLM's [cudaMemcpy] to the host *)
  dr_unmap : handle_value → D → res unit * D;       (** vLLM's [unmap_and_release] *)
}.
Arguments dr_call {D}. Arguments dr_granularity {D}. Arguments dr_created {D}. Arguments dr_copy_in {D}.
Arguments dr_memset {D}. Arguments dr_copy_out {D}. Arguments dr_unmap {D}.

Section native.
Context {D : Type} (dr : driver_ops D).

Definition call (c : epoch_call) (w : world D) : bool * world D :=
  let '(ok, d) := dr_call dr c (w_device w) in (ok, set_device d w).

(** A sequence of calls that stops at the first failure. *)
Fixpoint calls (l : list epoch_call) (w : world D) : bool * world D :=
  match l with
  | [] => (true, w)
  | c :: l => let '(ok, w) := call c w in if ok then calls l w else (false, w)
  end.

(** [coldsnap_cuda_epoch_reset_device] *)
Definition native_reset (device : Z) (w : world D) : bool * world D :=
  if device <? 0 then (false, w)
  else calls [SetDevice device; DeviceSync; DeviceReset; PublishMappings] (set_published (w_published w ∖ {[ device ]}) w).

(** [select_context]: the devices whose primary context is retained. *)
Definition select_context (device : Z) (contexts : gset Z) (w : world D) : bool * gset Z * world D :=
  let '(ok, contexts, w) :=
    if decide (device ∈ contexts) then (true, contexts, w)
    else let '(ok, w) := calls [DeviceGet device; PrimaryRetain device] w in
         (ok, if ok then {[ device ]} ∪ contexts else contexts, w) in
  if ok then let '(ok, w) := call (CtxSetCurrent device) w in (ok, contexts, w) else (false, contexts, w).

Record rebound_allocation := Rebound { rb_recipe : CudaEpochAllocation; rb_handle : Z; rb_valid : bool; rb_mapped : bool }.

(** [rollback], over the newest allocation first. *)
Fixpoint rollback (rebound : list rebound_allocation) (contexts : gset Z) (w : world D) : world D :=
  match rebound with
  | [] => w
  | b :: rest =>
      let r := rb_recipe b in
      let '(ok, contexts, w) := select_context (er_device r) contexts w in
      if negb ok then rollback rest contexts w else
      let w := if rb_mapped b then (call (Unmap (er_address r) (er_bytes r)) w).2 else w in
      let w := if rb_valid b then (call (Release (rb_handle b)) w).2 else w in
      rollback rest contexts (if er_box r =? 0 then w else set_box (er_box r) 0 w)
  end.

(** One round of [coldsnap_cuda_epoch_rebind]: what it appended to [rebound]. *)
Definition rebind_one (r : CudaEpochAllocation) (contexts : gset Z) (w : world D)
    : bool * list rebound_allocation * gset Z * world D :=
  if (er_device r <? 0) || (er_address r =? 0) || (er_bytes r =? 0) || (er_box r =? 0) then (false, [], contexts, w) else
  let '(ok, contexts, w) := select_context (er_device r) contexts w in
  if negb ok then (false, [], contexts, w) else
  let '(ok, w) := call (GetGranularity (er_device r)) w in
  let granularity := dr_granularity dr (er_device r) (w_device w) in
  if negb ok || (granularity =? 0) then (false, [], contexts, w) else
  if negb (er_address r mod granularity =? 0) || negb (er_bytes r mod granularity =? 0) then (false, [], contexts, w) else
  let '(ok, w) := call (Create (er_bytes r)) w in
  if negb ok then (false, [Rebound r 0 false false], contexts, w) else
  let handle := dr_created dr (w_device w) in
  let '(ok, w) := call (Map (er_address r) (er_bytes r) handle) w in
  if negb ok then (false, [Rebound r handle true false], contexts, w) else
  let '(ok, w) := call (SetAccess (er_address r) (er_bytes r) (er_device r)) w in
  if negb ok then (false, [Rebound r handle true true], contexts, w)
  else (true, [Rebound r handle true true], contexts, set_box (er_box r) handle w).

Fixpoint rebind_loop (l : list CudaEpochAllocation) (rebound : list rebound_allocation) (contexts : gset Z) (w : world D)
    : bool * world D :=
  match l with
  | [] => (true, set_published (contexts ∪ w_published w) w)
  | r :: l =>
      let '(ok, added, contexts, w) := rebind_one r contexts w in
      if ok then rebind_loop l (added ++ rebound) contexts w
      else (false, rollback (added ++ rebound) contexts w)
  end.

(** [coldsnap_cuda_epoch_rebind] *)
Definition native_rebind (l : list CudaEpochAllocation) (w : world D) : bool * world D :=
  if bool_decide (l = []) then (false, w) else
  let '(ok, w) := calls [CuInit; CtxClear] w in
  if ok then rebind_loop l [] ∅ w else (false, w).

(** [coldsnap_cuda_epoch_copy_from_host]; the host bytes stand for their address. *)
Definition native_copy (destination : Z) (source : pybytes) (bytes : Z) (w : world D) : bool * world D :=
  if (destination =? 0) || (bytes =? 0) then (false, w) else
  let '(ok, d) := dr_copy_in dr destination (take (Z.to_nat bytes) source) (w_device w) in (ok, set_device d w).

(** [coldsnap_cuda_epoch_fill_zero], [_synchronize], [_activate_device] *)
Definition native_fill_zero (destination bytes : Z) (w : world D) : bool * world D :=
  if (destination =? 0) || (bytes =? 0) then (false, w) else
  let '(ok, d) := dr_memset dr destination bytes (w_device w) in (ok, set_device d w).
Definition native_synchronize (w : world D) : bool * world D := call CtxSynchronize w.
Definition native_activate (device : Z) (w : world D) : bool * world D :=
  if (device <? 0) || negb (bool_decide (device ∈ w_published w)) then (false, w)
  else calls [SetDevice device; CtxSetCurrent device] w.

(** [NativeCudaEpoch]: [ctypes] reduces integers to the width of the argument. *)
Definition checked {A} (message : string) (f : world D → bool * world D) (a : A) : ST (world D) A := λ w,
  let '(ok, w) := f w in (if ok then Ok a else Raise (Exn CudaEpochError message), w).
Definition epoch_reset (device : Z) : ST (world D) unit := checked "native CUDA epoch reset failed" (native_reset (i32 device)) tt.
Definition native_allocation (r : CudaEpochAllocation) : CudaEpochAllocation :=
  Recipe (u64 (er_address r)) (u64 (er_bytes r)) (u64 (er_box r)) (i32 (er_device r)) (er_tag r) (er_ref r) (externalized_by_epoch r).
Definition epoch_rebind (l : list CudaEpochAllocation) : ST (world D) unit :=
  checked "native CUDA epoch rebind failed" (native_rebind (native_allocation <$> l)) tt.
Definition copy_from_host (destination : Z) (source : pybytes) (size : Z) : ST (world D) unit :=
  checked "native CUDA epoch copy from host failed" (native_copy (u64 destination) source (u64 size)) tt.
Definition fill_zero (destination size : Z) : ST (world D) unit :=
  checked "native CUDA epoch fill zero failed" (native_fill_zero (u64 destination) (u64 size)) tt.
Definition synchronize : ST (world D) unit := checked "native CUDA epoch synchronize failed" native_synchronize tt.
Definition activate (device : Z) : ST (world D) unit :=
  checked "native CUDA epoch activate device failed" (native_activate (i32 device)) tt.
End native.

(** ** Recipes *)

(** [_version_tuple], on ASCII digits *)
Definition version_tuple (value : pystr) : res (Z * Z) :=
  match take_digits value with
  | (major, 46%N :: rest) =>
      match major, (take_digits rest).1 with
      | _ :: _, ((_ :: _) as minor) => Ok (Z.of_N (digits_value major), Z.of_N (digits_value minor))
      | _, _ => Raise (Exn CudaEpochError "cannot determine PyTorch version")
      end
  | _ => Raise (Exn CudaEpochError "cannot determine PyTorch version")
  end.

(** [_require_pytorch_2_10]; [None] is a missing package. *)
Definition require_pytorch_2_10 (version : option pystr) : res pystr :=
  version ← of_option CudaEpochError "the CUDA epoch prototype requires PyTorch 2.10+" version;
  found ← version_tuple version;
  _ ← raise_if (negb (pair_leb Z.leb Z.leb (2, 10) found)) CudaEpochError "the CUDA epoch prototype requires PyTorch 2.10+";
  mret version.

(** An [Allocation] with its handle and object. *)
Record epoch_alloc := EAlloc { ea_view : Allocation; ea_handle : handle_value; ea_ref : nat }.

(** [allocations(allocator)] *)
Definition allocations {D} (w : world D) : res (list epoch_alloc) :=
  views ← pool_allocations ((λ e : int_value * nat, (e.1, pool_view (w_objects w e.2))) <$> w_mapping w) None;
  mret (zip_with (λ a i, EAlloc a (default (HOther None) (ed_handle (w_objects w i))) i) views (w_mapping w).*2).

Definition is_released {D} (w : world D) (a : epoch_alloc) : bool := default false (ed_asleep (w_objects w (ea_ref a))).

(** [_allocation_recipe] *)
Definition allocation_recipe {D} (externalized : list Z) (w : world D) (a : epoch_alloc) : res CudaEpochAllocation :=
  match ea_handle a with
  | HTuple [device; bytes; address; box] =>
      match device, bytes, address, box with
      | Some device, Some bytes, Some address, Some box =>
          _ ← raise_if ((device <? 0) || (bytes <=? 0) || (address <=? 0) || (box <=? 0)) CudaEpochError
              "vLLM CUDA CuMem handle fields are invalid";
          _ ← raise_if (negb (address =? al_pointer (ea_view a)) || negb (bytes =? al_size (ea_view a))) CudaEpochError
              "vLLM CUDA CuMem handle disagrees with allocator pointer/size metadata";
          _ ← raise_if (negb (is_released w a)) CudaEpochError "CUDA epoch allocation is still mapped; call sleep first";
          mret (Recipe address bytes box device (al_tag (ea_view a)) (ea_ref a) (bool_decide (address ∈ externalized)))
      | _, _, _, _ => Raise (Exn CudaEpochError "vLLM CUDA epoch requires integer CUDA CuMem handle fields")
      end
  | _ => Raise (Exn CudaEpochError "vLLM CUDA epoch requires a four-field CUDA CuMem handle tuple")
  end.

(** The loop of [_validate_recipes] over ordered recipes. *)
Fixpoint overlap_check (previous_device previous_end : Z) (l : list CudaEpochAllocation) : res unit :=
  match l with
  | [] => mret tt
  | r :: l =>
      _ ← raise_if ((er_device r =? previous_device) && (er_address r <? previous_end)) CudaEpochError
          "vLLM CUDA epoch allocation recipes overlap";
      overlap_check (er_device r) (er_address r + er_bytes r) l
  end.
Definition recipe_leb (x y : CudaEpochAllocation) : bool :=
  pair_leb Z.leb Z.leb (er_device x, er_address x) (er_device y, er_address y).

(** [_validate_recipes] *)
Definition validate_recipes (recipes : list CudaEpochAllocation) : res (list CudaEpochAllocation) :=
  _ ← raise_if (bool_decide (recipes = [])) CudaEpochError "vLLM CUDA epoch found no sleeping allocations";
  let ordered := py_sorted recipe_leb recipes in
  _ ← raise_if (negb (Nat.eqb (length (remove_dups (er_device <$> ordered))) 1)) CudaEpochError
      "the CUDA epoch prototype requires exactly one device per process";
  _ ← raise_if (negb (Nat.eqb (length (remove_dups (handle_key <$> ordered))) (length ordered))) CudaEpochError
      "vLLM CUDA epoch allocation recipes contain duplicates";
  _ ← overlap_check (-1) 0 ordered;
  mret ordered.

(** ** The epoch *)

Inductive epoch_state := CAPTURED | RESET | REBINDING | REBOUND | ERROR | ACTIVE.
#[global] Instance epoch_state_eq_dec : EqDecision epoch_state.
Proof. solve_decision. Defined.

(** What an epoch asks of the runtime resources of the worker: [VllmCudaRuntime], in
    [CudaRuntime]. *)
Record epoch_runtime (D : Type) := Runtime {
  rt_seal : ST (world D) unit; rt_prepare_reset : ST (world D) unit; rt_rebuild : ST (world D) unit; rt_inventory : world D → res json;
}.
Arguments rt_seal {D}. Arguments rt_prepare_reset {D}. Arguments rt_rebuild {D}. Arguments rt_inventory {D}.

Record VllmCudaEpoch (D : Type) := Epoch {
  e_recipes : list CudaEpochAllocation; e_torch : pystr; e_runtime : option (epoch_runtime D); e_state : epoch_state;
}.
Arguments Epoch {D}. Arguments e_recipes {D}. Arguments e_torch {D}. Arguments e_runtime {D}. Arguments e_state {D}.

Record epoch_inventory := Inventory {
  i_state : epoch_state; i_torch : pystr; i_device : Z; i_count : Z; i_bytes : Z; i_externalized : Z; i_externalized_bytes : Z;
  i_tags : list pystr; i_addresses : list Z; i_runtime : option json;
}.

Section epoch.
Context {D : Type} (dr : driver_ops D).
Notation state := (VllmCudaEpoch D * world D)%type.

Definition on_device {A} (f : D → res A * D) : ST (world D) A := λ w, let '(r, d) := f (w_device w) in (r, set_device d w).
Definition from_world {A} (f : world D → res A) : ST (world D) A := λ w, (f w, w).

(** [_externalize_active_allocation]: the backup is kept when unmapping fails. *)
Definition externalize (a : epoch_alloc) : ST (world D) unit :=
  data ← st_get (λ w, w_objects w (ea_ref a));
  _ ← st_raise_if (negb (bool_decide (ed_backup data = None))) CudaEpochError "active CUDA epoch allocation already has a backup";
  backup ← on_device (dr_copy_out dr (al_pointer (ea_view a)) (al_size (ea_view a)));
  _ ← st_finally (on_device (dr_unmap dr (ea_handle a))) (set_object (ea_ref a) (with_backup (Some backup)));
  st_set (set_object (ea_ref a) (with_asleep true)).

(** The addresses externalized by the loop of [capture]. *)
Fixpoint externalize_active (l : list epoch_alloc) : ST (world D) (list Z) :=
  match l with
  | [] => mret []
  | a :: l =>
      released ← st_get (λ w, is_released w a);
      if released : bool then externalize_active l
      else _ ← externalize a; rest ← externalize_active l; mret (al_pointer (ea_view a) :: rest)
  end.

(** The first part of [VllmCudaEpoch.capture]: the runtime resources are captured and
    sealed, and the allocations enumerated after that. [capture_runtime] is [None] when the
    module is missing. *)
Definition capture_sealed (version : option pystr) (capture_runtime : option (list (Z * Z) → ST (world D) (option (epoch_runtime D))))
    : ST (world D) (pystr * option (epoch_runtime D) * list epoch_alloc) :=
  version ← lift (require_pytorch_2_10 version);
  current ← from_world allocations;
  runtime ← match capture_runtime with
            | None => mret None
            | Some f => f ((λ a, (al_pointer (ea_view a), al_size (ea_view a))) <$> current)
            end;
  match runtime with
  | None => mret (version, None, current)
  | Some rt => _ ← rt_seal rt; current ← from_world allocations; mret (version, Some rt, current)
  end.

(** [VllmCudaEpoch.capture]; [library] is the outcome of opening the native library. *)
Definition capture (version : option pystr) (capture_runtime : option (list (Z * Z) → ST (world D) (option (epoch_runtime D))))
    (library : res unit) (active : bool) : ST (world D) (VllmCudaEpoch D) :=
  '(version, runtime, current) ← capture_sealed version capture_runtime;
  externalized ← if active then externalize_active current else mret [];
  recipes ← from_world (λ w, mapM (allocation_recipe externalized w) current);
  _ ← lift library;
  ordered ← lift (validate_recipes recipes);
  mret (Epoch ordered version runtime CAPTURED).

(** ** Lifecycle *)

Definition on_world {A} (m : ST (world D) A) : ST state A := λ '(e, w), let '(r, w) := m w in (r, (e, w)).
Definition in_state (s : epoch_state) (x : state) : state :=
  let '(e, w) := x in (Epoch (e_recipes e) (e_torch e) (e_runtime e) s, w).
Definition set_state (s : epoch_state) : ST state unit := st_set (in_state s).
Definition get_state : ST state epoch_state := st_get (λ '(e, _), e_state e).
Definition get_recipes : ST state (list CudaEpochAllocation) := st_get (λ '(e, _), e_recipes e).

(** [self.recipes[0].device] *)
Definition get_device : ST state Z :=
  recipes ← get_recipes; lift (of_option IndexError "tuple index out of range" (er_device <$> head recipes)).

Definition with_runtime (f : epoch_runtime D → ST (world D) unit) : ST state unit :=
  runtime ← st_get (λ '(e, _), e_runtime e);
  match runtime with None => mret tt | Some rt => on_world (f rt) end.

(** [inventory] *)
Definition inventory : ST state epoch_inventory :=
  device ← get_device;
  runtime ← λ '(e, w), (match e_runtime e with None => Ok None | Some rt => v ← rt_inventory rt w; mret (Some v) end, (e, w));
  st_get (λ '(e, _),
    let l := e_recipes e in
    let external := filter (λ r, externalized_by_epoch r = true) l in
    Inventory (e_state e) (e_torch e) device (Z.of_nat (length l)) (zsum (er_bytes <$> l)) (Z.of_nat (length external))
      (zsum (er_bytes <$> external)) (sorted_set str_leb (er_tag <$> l)) (er_address <$> l) runtime).

(** [reset] *)
Definition reset : ST state epoch_inventory :=
  s ← get_state;
  _ ← st_raise_if (negb (bool_decide (s = CAPTURED))) CudaEpochError "CUDA epoch reset requires CAPTURED state";
  _ ← with_runtime rt_prepare_reset;
  device ← get_device;
  _ ← on_world (epoch_reset dr device);
  _ ← set_state RESET;
  inventory.

(** [rebind] *)
Definition rebind : ST state epoch_inventory :=
  s ← get_state;
  _ ← st_raise_if (negb (bool_decide (s = RESET))) CudaEpochError "CUDA epoch rebind requires RESET state";
  _ ← set_state REBINDING;
  _ ← st_on_error (recipes ← get_recipes; _ ← on_world (epoch_rebind dr recipes); with_runtime rt_rebuild) (in_state ERROR);
  _ ← set_state REBOUND;
  inventory.

(** ** Resuming *)

Definition RESIDUAL_TAG : pystr := lit "coldsnap_cuda_epoch_residual".

(** One residual: its bytes go back to the device, and its entry is shown awake under
    another tag. The result is the tag it had. *)
Definition publish_one (r : CudaEpochAllocation) : ST (world D) pystr :=
  data ← st_get (λ w, w_objects w (er_ref r));
  backup ← lift (of_option CudaEpochError "CUDA epoch residual lost its host backup" (ed_backup data));
  _ ← st_raise_if (negb (Z.of_nat (length backup) =? er_bytes r)) CudaEpochError "CUDA epoch residual backup size changed";
  _ ← copy_from_host dr (er_address r) backup (er_bytes r);
  _ ← st_set (set_object (er_ref r) (λ d, with_asleep false (with_backup None (with_tag (Some RESIDUAL_TAG) d))));
  mret (default (lit "None") (ed_tag data)).

Fixpoint publish (l : list CudaEpochAllocation) : ST (world D) (list (CudaEpochAllocation * pystr)) :=
  match l with
  | [] => mret []
  | r :: l =>
      if externalized_by_epoch r then
        t ← publish_one r; rest ← publish l; mret ((r, t) :: rest)
      else publish l
  end.

Definition restore_tags (published : list (CudaEpochAllocation * pystr)) (w : world D) : world D :=
  foldl (λ w p, set_object (er_ref p.1) (with_tag (Some p.2)) w) w published.

(** vLLM's wake: a tree of the calls it makes to [create_and_map]; what it does besides,
    and what other threads do, changes the state by [WAct]. *)
Inductive wake (A : Type) :=
| WReturn (r : res A)
| WCall (h : handle_value) (k : res unit → wake A)
| WAct (f : state → state) (k : state → wake A).

(** [_normalize_handle] *)
Definition normalize_handle (h : handle_value) : res handle_key_t :=
  match h with
  | HTuple [device; bytes; address; box] =>
      match device, bytes, address, box with
      | Some device, Some bytes, Some address, Some box => mret (device, bytes, address, box)
      | _, _, _, _ => Raise (Exn CudaEpochError "vLLM wake supplied non-integer CuMem fields")
      end
  | _ => Raise (Exn CudaEpochError "vLLM wake supplied an invalid CuMem handle")
  end.

(** [invoke m] runs the function [m] that was installed before the resume. *)
Variable invoke : mapper → handle_value → ST (world D) unit.

(** [accept_prebound], with the set [pending]. *)
Definition accept_prebound (original : mapper) (h : handle_value) (pending : gset handle_key_t) (s : state)
    : res unit * gset handle_key_t * state :=
  match normalize_handle h with
  | Raise e => (Raise e, pending, s)
  | Ok key =>
      if decide (key ∈ pending) then (Ok tt, pending ∖ {[ key ]}, s)
      else let '(r, s) := on_world (invoke original h) s in (r, pending, s)
  end.

(** [create_and_map(handle)], through the module's attribute. *)
Definition create_and_map (original : mapper) (h : handle_value) (pending : gset handle_key_t) (s : state)
    : res unit * gset handle_key_t * state :=
  match w_mapper s.2 with
  | Some Prebound => accept_prebound original h pending s
  | Some m => let '(r, s) := on_world (invoke m h) s in (r, pending, s)
  | None => (Raise (Exn TypeError "'NoneType' object is not callable"), pending, s)
  end.

Fixpoint run_wake {A} (original : mapper) (t : wake A) (pending : gset handle_key_t) (s : state)
    : res A * gset handle_key_t * state :=
  match t with
  | WReturn _ r => (r, pending, s)
  | WCall _ h k => let '(r, pending, s) := create_and_map original h pending s in run_wake original (k r) pending s
  | WAct _ f k => run_wake original (k (f s)) pending (f s)
  end.

(** The [finally] of [resume]. *)
Definition unhook (original : mapper) (provider : option provider_methods) (published : list (CudaEpochAllocation * pystr))
    (w : world D) : world D :=
  let w := if decide (w_mapper w = Some Prebound) then set_mapper (Some original) w else w in
  let w := restore_tags published w in
  match provider with None => w | Some p => set_provider p w end.

(** From the installation of the hooks to the end of [resume]. [provider] is whether
    [VllmMemoryProvider] can be imported. *)
Definition run_hooked {A} (provider : bool) (callback : wake A) (original : mapper) (published : list (CudaEpochAllocation * pystr))
    : ST state A := λ '(e, w),
  let saved := if provider then Some (w_provider w) else None in
  let w := if provider then set_provider EpochMethods w else w in
  let keys l : gset handle_key_t := list_to_set (handle_key <$> l) in
  let required := keys (filter (λ r, externalized_by_epoch r = false) (e_recipes e)) in
  let '(r, pending, (e, w)) := run_wake original callback (keys (e_recipes e)) (e, set_mapper (Some Prebound) w) in
  let w := unhook original saved published w in
  match r with
  | Raise x => (Raise x, (e, w))
  | Ok a =>
      (_ ← st_raise_if (negb (bool_decide (pending ∩ required = ∅))) CudaEpochError
             "vLLM wake did not claim required prebound CUDA allocations";
       s ← get_state;
       _ ← st_raise_if (negb (bool_decide (s = REBOUND))) CudaEpochError "CUDA epoch wake handoff expected REBOUND";
       _ ← set_state ACTIVE;
       mret a) (e, w)
  end.

(** [resume] *)
Definition resume {A} (provider : bool) (callback : wake A) : ST state A :=
  s ← get_state;
  _ ← match s with
      | RESET => _ ← rebind; mret tt
      | REBOUND => mret tt
      | _ => lift (Raise (Exn CudaEpochError "CUDA epoch resume requires RESET or REBOUND state"))
      end;
  mapper ← st_get (λ '(_, w), w_mapper w);
  original ← lift (of_option CudaEpochError "vLLM CuMem create_and_map is unavailable" mapper);
  recipes ← get_recipes;
  published ← on_world (publish recipes);
  run_hooked provider callback original published.
End epoch.
