(* ===== verification/CudaEpochSpec.v ===== *)
(** * Theorems about CUDA context epochs

    An epoch carries the bytes it externalized across the destruction of the context; the
    wake must claim every mapping the epoch made for vLLM, and every hook is removed on every
    path; the native rebind is reached once, whatever the interleaving of callers. *)

From stdpp Require Import functions.
From S2P Require Import Prelude Ranges PyFloat PyJson Hash Memory VllmMemory VllmMemorySpec CudaEpoch.

#[local] Arguments RESIDUAL_TAG : simpl never.
#[local] Arguments lit : simpl never.

(** ** Recipes *)

Definition range (address bytes : Z) : list Z := seqZ address bytes.
Definition recipe_range (r : CudaEpochAllocation) : list Z := range (er_address r) (er_bytes r).
Definition alloc_range (a : epoch_alloc) : list Z := range (al_pointer (ea_view a)) (al_size (ea_view a)).

Lemma overlap_check_spec l : ∀ device start, overlap_check device start l = Ok tt → Forall (λ r, er_device r = device ∧ 0 < er_bytes r) l →
  NoDup (concat (recipe_range <$> l)) ∧ ∀ x, x ∈ concat (recipe_range <$> l) → start <= x.
Proof.
  induction l as [|r l IH]; intros device start E HF; [split; [constructor|by intros ? ?%elem_of_nil]|].
  apply Forall_cons in HF as [[<- Hb] HF]. cbn [overlap_check] in E. res_inv. rewrite Z.eqb_refl in *. cbn in *.
  match goal with H : (_ <? _) = false |- _ => apply Z.ltb_ge in H end.
  match goal with H : overlap_check _ _ _ = Ok ?u |- _ => destruct u; apply (IH _ _) in H as [HN Hx]; [|done] end.
  split.
  - apply NoDup_app. split_and!; [apply NoDup_seqZ|intros y Hr%elem_of_seqZ Hc%Hx; lia|done].
  - intros y [Hr%elem_of_seqZ|Hc%Hx]%elem_of_app; lia.
Qed.

Lemma remove_dups_single {A} `{EqDecision A} (l : list A) x y : length (remove_dups l) = 1%nat → x ∈ l → y ∈ l → x = y.
Proof.
  intros E Hx%elem_of_remove_dups Hy%elem_of_remove_dups. destruct (remove_dups l) as [|z [|]]; try done.
  apply list_elem_of_singleton in Hx, Hy. congruence.
Qed.

(** Accepted recipes are on one device and do not overlap. *)
Lemma validate_recipes_spec l ordered : validate_recipes l = Ok ordered → Forall (λ r, 0 < er_bytes r) l →
  ordered ≡ₚ l ∧ NoDup (concat (recipe_range <$> ordered)) ∧ ∀ r r', r ∈ ordered → r' ∈ ordered → er_device r = er_device r'.
Proof.
  intros E HF. unfold validate_recipes in E. res_inv. set (s := py_sorted recipe_leb l) in *.
  assert (s ≡ₚ l) as Hp by apply py_sorted_perm. rewrite <- Hp in HF. guards.
  match goal with H : Nat.eqb _ 1 = true |- _ => apply Nat.eqb_eq in H; rename H into Hone end.
  assert (∀ r r', r ∈ s → r' ∈ s → er_device r = er_device r') as Hd.
  { intros r r' Hr Hr'. apply (remove_dups_single _ _ _ Hone); by apply list_elem_of_fmap_2. }
  split_and!; [done| |done].
  match goal with H : overlap_check _ _ _ = Ok ?u |- _ => destruct u; rename H into Ho end.
  clearbody s. destruct s as [|r s]; [constructor|]. cbn [overlap_check] in Ho. res_inv.
  match goal with H : overlap_check _ _ _ = Ok _ |- _ => apply overlap_check_spec in H as [HN Hx] end.
  - cbn. apply NoDup_app. split_and!; [apply NoDup_seqZ|intros y Hr%elem_of_seqZ Hc%Hx; lia|done].
  - apply Forall_cons in HF as [_ HF]. eapply Forall_impl; [apply Forall_and; split; [|exact HF]|]; [|intros r'; exact id].
    apply Forall_forall. intros r' Hr'. apply Hd; [by right|left].
Qed.

Definition handle_of (device : Z) (a : Allocation) (box : Z) : handle_value :=
  HTuple [Some device; Some (al_size a); Some (al_pointer a); Some box].

Lemma allocation_recipe_inv {D} ext (w : world D) a r : allocation_recipe ext w a = Ok r →
  er_address r = al_pointer (ea_view a) ∧ er_bytes r = al_size (ea_view a) ∧ er_ref r = ea_ref a ∧ 0 < er_bytes r ∧ 0 < er_address r
  ∧ ea_handle a = handle_of (er_device r) (ea_view a) (er_box r) ∧ externalized_by_epoch r = bool_decide (er_address r ∈ ext).
Proof.
  unfold allocation_recipe. destruct (ea_handle a) as [l|]; [|done]. do 4 (destruct l as [|[?|] l]; try done). destruct l; [|done].
  all: try (by do 3 (destruct l as [|[?|] l]; try done)).
  intros E. res_inv. guards. repeat match goal with H : (_ <=? _) = false |- _ => apply Z.leb_gt in H | H : (_ =? _) = true |- _ => apply Z.eqb_eq in H end.
  cbn. subst. split_and!; done || congruence.
Qed.

(** ** Enumeration *)

Lemma pool_allocations_all p l : pool_allocations p None = Ok l → length l = length p.
Proof.
  revert l. induction p as [|e p IH]; intros l E; [by injection E as <-|]. rewrite pool_allocations_cons in E. res_inv.
  match goal with H : pool_allocations p None = Ok _ |- _ => apply IH in H end.
  match goal with H : allocation_of None e = Ok ?x |- _ => destruct x as [a|]; [cbn; by f_equal|]; rename H into Ha end.
  exfalso. unfold allocation_of in Ha. destruct e as [q d], (da_tag d), (da_handle d), (da_asleep d); try done.
  rewrite bool_decide_eq_true_2 in Ha by (by left). res_inv. done.
Qed.

Lemma allocations_refs {D} (w : world D) l : allocations w = Ok l → ea_ref <$> l = (w_mapping w).*2.
Proof.
  unfold allocations. intros E. res_inv. match goal with H : pool_allocations _ _ = Ok ?x |- _ => apply pool_allocations_all in H as Hl end.
  rewrite length_fmap in Hl. rewrite fmap_zip_with_r; [done|done|]. rewrite length_fmap. lia.
Qed.

Lemma filter_ext_elem {A} (P Q : A → Prop) `{∀ x, Decision (P x), ∀ x, Decision (Q x)} (l : list A) :
  (∀ x, x ∈ l → P x ↔ Q x) → filter P l = filter Q l.
Proof.
  induction l as [|x l IH]; intros HPQ; [done|]. rewrite !filter_cons, IH by (intros; apply HPQ; by right).
  pose proof (HPQ x ltac:(left)). by repeat case_decide; try naive_solver.
Qed.

Lemma NoDup_concat_inj {A B} (f : A → list B) l x y b : NoDup (concat (f <$> l)) → x ∈ l → y ∈ l → b ∈ f x → b ∈ f y → x = y.
Proof.
  induction l as [|z l IH]; [by intros _ ?%elem_of_nil|]. csimpl. intros (_ & Hd & HN)%NoDup_app Hx Hy Hbx Hby.
  assert (∀ u, u ∈ l → b ∈ f u → b ∈ concat (f <$> l)) as Hin by (intros u Hu Hb; apply elem_of_concat; exists (f u); split; [done|by apply list_elem_of_fmap_2]).
  apply elem_of_cons in Hx as [->|Hx], Hy as [->|Hy]; [done| | |by apply IH]; exfalso.
  - by apply (Hd b Hbx), (Hin y).
  - by apply (Hd b Hby), (Hin x).
Qed.

(** ** The device

    What the copies and the unmapping of a CUDA device do to its bytes; a reset and fresh
    mappings may leave anything. *)
Class EpochDevice {D} (dr : driver_ops D) (bytes : D → Z → N) := {
  copy_out_reads a n d b d' : dr_copy_out dr a n d = (Ok b, d') → b = bytes d <$> range a n ∧ ∀ x, bytes d' x = bytes d x;
  unmap_frame device a box d x : x ∉ range (al_pointer a) (al_size a) →
    bytes (dr_unmap dr (handle_of device a box) d).2 x = bytes d x;
  copy_in_writes a b d d' : dr_copy_in dr a b d = (true, d') → bytes d' <$> range a (Z.of_nat (length b)) = b;
  copy_in_frame a b d x : x ∉ range a (Z.of_nat (length b)) → bytes (dr_copy_in dr a b d).2 x = bytes d x;
}.

Section round_trip.
Context {D : Type} (dr : driver_ops D) (bytes : D → Z → N) `{!EpochDevice dr bytes}.

Definition content (w : world D) (l : list Z) : pybytes := bytes (w_device w) <$> l.

Lemma content_ext w w' l : (∀ x, x ∈ l → bytes (w_device w') x = bytes (w_device w) x) → content w' l = content w l.
Proof. intros H. unfold content. apply list_fmap_ext. intros i x Hx%list_elem_of_lookup_2. by apply H. Qed.

Lemma externalize_spec device box a w w' : externalize dr a w = (Ok tt, w') → ea_handle a = handle_of device (ea_view a) box →
  w_mapping w' = w_mapping w ∧ (∀ i, i ≠ ea_ref a → w_objects w' i = w_objects w i)
  ∧ (∀ x, x ∉ alloc_range a → bytes (w_device w') x = bytes (w_device w) x)
  ∧ ed_asleep (w_objects w' (ea_ref a)) = Some true ∧ ed_backup (w_objects w' (ea_ref a)) = Some (content w (alloc_range a))
  ∧ ed_tag (w_objects w' (ea_ref a)) = ed_tag (w_objects w (ea_ref a)).
Proof.
  intros E Eh. unfold externalize in E. st_inv. unfold on_device, st_finally in *.
  destruct (dr_copy_out _ _ _ _) as [[b|] d1] eqn:E1; [|done]. simplify_eq.
  destruct (dr_unmap _ _ _) as [[[]|] d2] eqn:E2; [|done]. simplify_eq. apply copy_out_reads in E1 as [-> H1]. cbn in *.
  split_and!; [done| | | | |].
  - intros i Hi. by rewrite !fn_lookup_insert_ne by done.
  - intros x Hx. rewrite <- H1. rewrite Eh in E2. by rewrite <- (unmap_frame device (ea_view a) box d1 x), E2.
  - by rewrite fn_lookup_insert.
  - by rewrite !fn_lookup_insert.
  - by rewrite !fn_lookup_insert.
Qed.

Definition sound_handle (a : epoch_alloc) : Prop := ∃ device box, ea_handle a = handle_of device (ea_view a) box.

Lemma externalize_active_spec l : ∀ w ext w', externalize_active dr l w = (Ok ext, w') → Forall sound_handle l →
  NoDup (ea_ref <$> l) → NoDup (concat (alloc_range <$> l)) →
  (∀ i, i ∉ ea_ref <$> l → w_objects w' i = w_objects w i)
  ∧ (∀ a, a ∈ l → if is_released w a then w_objects w' (ea_ref a) = w_objects w (ea_ref a)
                   else ed_backup (w_objects w' (ea_ref a)) = Some (content w (alloc_range a))
                        ∧ ed_tag (w_objects w' (ea_ref a)) = ed_tag (w_objects w (ea_ref a)))
  ∧ ext = (λ a, al_pointer (ea_view a)) <$> filter (λ a, is_released w a = false) l.
Proof.
  induction l as [|a l IH]; intros w ext w' E HF HN HR; cbn [externalize_active] in E; st_inv; [by split_and!; [|by intros ? ?%elem_of_nil|]|].
  apply Forall_cons in HF as [(device & box & Eh) HF]. apply NoDup_cons in HN as [Ha HN].
  apply NoDup_app in HR as (_ & Hd & HR). rewrite filter_cons.
  destruct (is_released w a) eqn:Er.
  - rewrite decide_False by done. destruct (IH _ _ _ E HF HN HR) as (H1 & H2 & H3). split_and!; [| |done].
    + intros i [_ Hi]%not_elem_of_cons. by apply H1.
    + intros b [->|Hb]%elem_of_cons; [rewrite Er; by apply H1|by apply H2].
  - st_inv. rewrite decide_True by done.
    match goal with H : externalize dr a w = (Ok ?u, ?w1) |- _ => destruct u; rename w1 into wa; destruct (externalize_spec device box _ _ _ H Eh) as (_ & Ho & Hb & _ & Hbk & Htag) end.
    match goal with H : externalize_active dr l wa = (Ok ?x, _) |- _ => rename x into rest; destruct (IH _ _ _ H HF HN HR) as (H1 & H2 & H3) end.
    assert (∀ b, b ∈ l → ea_ref b ≠ ea_ref a) as Hne by (intros b Hl Eq; apply Ha; rewrite <- Eq; by apply list_elem_of_fmap_2).
    assert (∀ b, b ∈ l → is_released wa b = is_released w b) as Hrel by (intros b Hl; unfold is_released; by rewrite Ho by (by apply Hne)).
    split_and!.
    + intros i [Hi Hi']%not_elem_of_cons. by rewrite H1, Ho.
    + intros b [->|Hl]%elem_of_cons.
      * rewrite Er, (H1 _ Ha). done.
      * specialize (H2 b Hl). rewrite (Hrel b Hl) in H2. rewrite Ho in H2 by (by apply Hne). destruct (is_released w b); [done|].
        destruct H2 as [-> ?]. split; [|done]. f_equal. apply content_ext. intros x Hx. apply Hb. intros Hx'.
        apply (Hd x); [done|]. apply elem_of_concat. exists (alloc_range b). split; [done|by apply list_elem_of_fmap_2].
    + rewrite H3. csimpl. f_equal. f_equal. apply filter_ext_elem. intros b Hl. by rewrite Hrel.
Qed.

(** ** Native calls touch no object of the allocator *)

Lemma calls_objects l w : w_objects (calls dr l w).2 = w_objects w.
Proof.
  revert w. induction l as [|c l IH]; intros w; [done|]. cbn. unfold call. destruct (dr_call dr c (w_device w)) as [[] d]; [|done].
  by rewrite IH.
Qed.
Lemma call_objects c w : w_objects (call dr c w).2 = w_objects w.
Proof. unfold call. by destruct (dr_call dr c (w_device w)). Qed.

Ltac step_call H :=
  match goal with |- context [call dr ?c ?w] => pose proof (call_objects c w) as H; destruct (call dr c w) as [[] ?]; cbn [snd negb orb] in * end.

Lemma select_objects device contexts w : w_objects (select_context dr device contexts w).2 = w_objects w.
Proof.
  unfold select_context. destruct (decide _).
  - step_call Hc; done.
  - pose proof (calls_objects [DeviceGet device; PrimaryRetain device] w) as Hs. destruct (calls _ _ _) as [[] w1]; cbn in *; [|done].
    step_call Hc; congruence.
Qed.

Lemma rollback_objects l : ∀ contexts w, w_objects (rollback dr l contexts w) = w_objects w.
Proof.
  induction l as [|b l IH]; intros contexts w; [done|]. cbn.
  pose proof (select_objects (er_device (rb_recipe b)) contexts w) as Hs. destruct (select_context _ _ _ _) as [[[] c] w1]; cbn in *; [|by rewrite IH].
  rewrite IH. destruct (_ =? 0), (rb_valid b), (rb_mapped b); cbn; by rewrite ?call_objects.
Qed.

Lemma rebind_one_objects r contexts w : w_objects (rebind_one dr r contexts w).2 = w_objects w.
Proof.
  unfold rebind_one. destruct (_ || _); [done|].
  pose proof (select_objects (er_device r) contexts w) as Hs. destruct (select_context _ _ _ _) as [[[] c] w1]; cbn in *; [|done].
  step_call H1; [|congruence]. destruct (_ =? 0); [cbn; congruence|]. destruct (_ || _); [cbn; congruence|].
  step_call H2; [|congruence]. step_call H3; [|congruence]. step_call H4; cbn; congruence.
Qed.

Lemma rebind_loop_objects l : ∀ done contexts w, w_objects (rebind_loop dr l done contexts w).2 = w_objects w.
Proof.
  induction l as [|r l IH]; intros rebound contexts w; [done|]. cbn.
  pose proof (rebind_one_objects r contexts w) as Hr. destruct (rebind_one _ _ _ _) as [[[[] added] c] w1]; cbn in *; by rewrite ?IH, ?rollback_objects.
Qed.

Lemma epoch_rebind_objects l w : w_objects (epoch_rebind dr l w).2 = w_objects w.
Proof.
  unfold epoch_rebind, checked, native_rebind. case_bool_decide; [done|].
  pose proof (calls_objects [CuInit; CtxClear] w) as Hs. destruct (calls _ _ _) as [[] w1]; cbn in *; [|done].
  pose proof (rebind_loop_objects (native_allocation <$> l) [] ∅ w1) as Hl. destruct (rebind_loop _ _ _ _ _) as [[] w2]; cbn in *; congruence.
Qed.

Lemma epoch_reset_objects device w : w_objects (epoch_reset dr device w).2 = w_objects w.
Proof.
  unfold epoch_reset, checked, native_reset. destruct (_ <? 0); [done|].
  match goal with |- context [calls dr ?l ?w0] => pose proof (calls_objects l w0) as Hs; destruct (calls dr l w0) as [[] w1] end; done.
Qed.

(** ** Publishing residuals *)

Definition fits (r : CudaEpochAllocation) : Prop := 0 < er_address r ∧ 0 < er_bytes r ∧ er_address r + er_bytes r <= 2 ^ 64.
Definition shown (d : epoch_data) : epoch_data := with_asleep false (with_backup None (with_tag (Some RESIDUAL_TAG) d)).
Definition saved_tag (d : epoch_data) : pystr := default (lit "None") (ed_tag d).

Lemma publish_one_spec r w t w' : publish_one dr r w = (Ok t, w') → fits r →
  ∃ b, ed_backup (w_objects w (er_ref r)) = Some b ∧ content w' (recipe_range r) = b ∧ t = saved_tag (w_objects w (er_ref r))
  ∧ w_objects w' (er_ref r) = shown (w_objects w (er_ref r)) ∧ (∀ i, i ≠ er_ref r → w_objects w' i = w_objects w i)
  ∧ (∀ x, x ∉ recipe_range r → bytes (w_device w') x = bytes (w_device w) x)
  ∧ w_mapper w' = w_mapper w ∧ w_provider w' = w_provider w.
Proof.
  intros E (Ha & Hb & Hf). unfold publish_one in E. st_inv. res_inv. guards.
  match goal with H : (Z.of_nat _ =? _) = true |- _ => apply Z.eqb_eq in H as Hl end.
  match goal with H : ed_backup _ = Some ?x |- _ => exists x; rename x into b end. split; [done|].
  unfold copy_from_host, checked, native_copy, u64 in *. rewrite !Z.mod_small in * by lia.
  rewrite (proj2 (Z.eqb_neq _ 0)), (proj2 (Z.eqb_neq _ 0)) in * by lia. cbn [orb] in *. rewrite take_ge in * by lia.
  destruct (dr_copy_in _ _ _ _) as [[] d] eqn:Ec; [|done].
  simplify_eq. cbn -[RESIDUAL_TAG lit].
  split_and!; [| |by rewrite fn_lookup_insert| | |done|done].
  - unfold content, recipe_range. cbn. rewrite <- Hl. eapply copy_in_writes, Ec.
  - done.
  - intros i Hi. by rewrite fn_lookup_insert_ne by done.
  - intros x Hx. etransitivity; [|apply (copy_in_frame (er_address r) b); by rewrite Hl]. by rewrite Ec.
Qed.

Lemma publish_spec l : ∀ w pub w', publish dr l w = (Ok pub, w') → Forall fits l → NoDup (er_ref <$> l) → NoDup (concat (recipe_range <$> l)) →
  (∀ r, r ∈ l → externalized_by_epoch r = true → ed_backup (w_objects w (er_ref r)) = Some (content w' (recipe_range r))
      ∧ w_objects w' (er_ref r) = shown (w_objects w (er_ref r)))
  ∧ (∀ i, i ∉ er_ref <$> l → w_objects w' i = w_objects w i)
  ∧ (∀ x, x ∉ concat (recipe_range <$> l) → bytes (w_device w') x = bytes (w_device w) x)
  ∧ pub = (λ r, (r, saved_tag (w_objects w (er_ref r)))) <$> filter (λ r, externalized_by_epoch r = true) l.
Proof.
  induction l as [|r l IH]; intros w pub w' E HF HN HR; cbn [publish] in E; [st_inv; by split_and!; [by intros ? ?%elem_of_nil| | |]|].
  apply Forall_cons in HF as [Hr HF]. apply NoDup_cons in HN as [Hn HN]. cbn in HR. apply NoDup_app in HR as (_ & Hd & HR). rewrite filter_cons.
  destruct (externalized_by_epoch r) eqn:Ex.
  - rewrite decide_True by done. st_inv.
    match goal with H : publish_one dr r w = (Ok ?t, ?w1) |- _ => rename w1 into w1'; apply publish_one_spec in H as (b & Hb & Hc & -> & Ho & Hi & Hx & _); [|done] end.
    match goal with H : publish dr l _ = (Ok ?x, _) |- _ => destruct (IH _ _ _ H HF HN HR) as (H1 & H2 & H3 & ->) end.
    assert (∀ q, q ∈ l → er_ref q ≠ er_ref r) as Hne by (intros q Hl Eq; apply Hn; rewrite <- Eq; by apply list_elem_of_fmap_2).
    split_and!.
    + intros q [->|Hq]%elem_of_cons Hext.
      * rewrite Hb, H2, Ho by done. split; [|done]. f_equal. rewrite <- Hc. symmetry. apply content_ext. intros x Hxr. apply H3. by apply Hd.
      * destruct (H1 q Hq Hext) as [? ->]. rewrite Hi in * by (by apply Hne). done.
    + intros i [Hir Hil]%not_elem_of_cons. by rewrite H2, Hi.
    + intros x [Hxr Hxl]%not_elem_of_app. by rewrite H3, Hx.
    + csimpl. f_equal. apply list_fmap_ext. intros i q Hq%list_elem_of_lookup_2. apply list_elem_of_filter in Hq as [_ Hq]. by rewrite Hi by (by apply Hne).
  - rewrite decide_False by done. destruct (IH _ _ _ E HF HN HR) as (H1 & H2 & H3 & ->). split_and!; [| | |done].
    + intros q [->|Hq]%elem_of_cons Hext; [congruence|]. by apply H1.
    + intros i [_ Hil]%not_elem_of_cons. by apply H2.
    + intros x [_ Hxl]%not_elem_of_app. by apply H3.
Qed.

(** ** The lifecycle *)

(** The runtime resources, prepared for a reset and rebuilt after it without an error, leave the
    objects of the allocator alone. *)
Definition runtime_keeps (runtime : option (epoch_runtime D)) : Prop :=
  ∀ rt, runtime = Some rt → ∀ w w', rt_prepare_reset rt w = (Ok tt, w') ∨ rt_rebuild rt w = (Ok tt, w') → w_objects w' = w_objects w.

Lemma on_world_Ok {A} (m : ST (world D) A) a e w e' w' : on_world m (e, w) = (Ok a, (e', w')) ↔ m w = (Ok a, w') ∧ e' = e.
Proof. unfold on_world. destruct (m w) as [r w1]. naive_solver. Qed.

Lemma with_runtime_Ok (f : epoch_runtime D → ST (world D) unit) e w e' w' : with_runtime f (e, w) = (Ok tt, (e', w')) →
  e' = e ∧ ((∀ rt, e_runtime e = Some rt → f rt w = (Ok tt, w') → w_objects w' = w_objects w) → w_objects w' = w_objects w).
Proof.
  intros E. unfold with_runtime in E. st_inv. destruct (e_runtime e) as [rt|]; st_inv; [|naive_solver].
  apply on_world_Ok in E as [E ->]. split; [done|]. intros H. by apply (H rt eq_refl).
Qed.

Lemma get_device_Ok (e : VllmCudaEpoch D) (w : world D) device e' w' : get_device (e, w) = (Ok device, (e', w')) → e' = e ∧ w' = w.
Proof. intros E. unfold get_device, get_recipes in E. st_inv. by simplify_eq. Qed.

Lemma inventory_Ok (e : VllmCudaEpoch D) (w : world D) i e' w' : inventory (e, w) = (Ok i, (e', w')) → e' = e ∧ w' = w ∧ i_state i = e_state e ∧ i_addresses i = er_address <$> e_recipes e.
Proof.
  intros E. unfold inventory in E. st_inv. destruct x0 as [e0 w0].
  match goal with H : get_device _ = _ |- _ => apply get_device_Ok in H as [-> ->] end. by simplify_eq.
Qed.

Lemma reset_Ok e w i e' w' : reset dr (e, w) = (Ok i, (e', w')) →
  e_state e = CAPTURED ∧ e' = Epoch (e_recipes e) (e_torch e) (e_runtime e) RESET ∧ (runtime_keeps (e_runtime e) → w_objects w' = w_objects w).
Proof.
  intros E. unfold reset, get_state, set_state, in_state in E. st_inv. guards.
  repeat match goal with s : (VllmCudaEpoch D * world D)%type |- _ => destruct s end.
  match goal with H : with_runtime _ _ = (Ok ?u, _) |- _ => destruct u; apply with_runtime_Ok in H as [-> Ho] end.
  match goal with H : get_device _ = _ |- _ => apply get_device_Ok in H as [-> ->] end.
  match goal with H : on_world (epoch_reset dr ?device) (_, ?w2) = _ |- _ => apply on_world_Ok in H as [H ->]; pose proof (epoch_reset_objects device w2) as Hr; rewrite H in Hr end.
  apply inventory_Ok in E as (-> & -> & _). cbn in *. split_and!; [done|done|]. intros Hk. rewrite Hr. apply Ho. intros rt Hrt Er. apply (Hk rt Hrt). by left.
Qed.

Lemma rebind_Ok e w i e' w' : rebind dr (e, w) = (Ok i, (e', w')) →
  e_state e = RESET ∧ e' = Epoch (e_recipes e) (e_torch e) (e_runtime e) REBOUND ∧ (runtime_keeps (e_runtime e) → w_objects w' = w_objects w).
Proof.
  intros E. unfold rebind, get_state, set_state, in_state in E. st_inv. guards.
  repeat match goal with s : (VllmCudaEpoch D * world D)%type |- _ => destruct s end.
  match goal with H : st_on_error _ _ _ = _ |- _ => apply st_on_error_Ok in H end. unfold get_recipes in *. st_inv.
  repeat match goal with s : (VllmCudaEpoch D * world D)%type |- _ => destruct s end.
  match goal with H : on_world (epoch_rebind dr ?l) (_, ?w2) = _ |- _ => apply on_world_Ok in H as [H ->]; pose proof (epoch_rebind_objects l w2) as Hr; rewrite H in Hr end.
  match goal with H : with_runtime _ _ = (Ok ?u, _) |- _ => destruct u; apply with_runtime_Ok in H as [-> Ho] end.
  apply inventory_Ok in E as (-> & -> & _). cbn in *. split_and!; [done|done|]. intros Hk. rewrite <- Hr. apply Ho. intros rt Hrt Er. apply (Hk rt Hrt). by right.
Qed.

(** ** Capture *)

Lemma capture_Ok version cr library active w0 e w1 : capture dr version cr library active w0 = (Ok e, w1) →
  ∃ v current ws ext recipes, capture_sealed version cr w0 = (Ok (v, e_runtime e, current), ws)
  ∧ (if active then externalize_active dr current else mret []) ws = (Ok ext, w1)
  ∧ Forall2 (λ a r, allocation_recipe ext w1 a = Ok r) current recipes ∧ validate_recipes recipes = Ok (e_recipes e) ∧ e_state e = CAPTURED.
Proof.
  intros E. unfold capture in E. apply st_bind_Ok in E as ([[v rt] current] & ws & Hs & E). st_inv. unfold from_world in *. simplify_eq.
  match goal with H : mapM _ _ = Ok ?r |- _ => apply mapM_Ok in H end. cbn. eauto 10.
Qed.

(** The recipes of an epoch describe the allocations, one each. *)
Lemma captured_recipes ext (w : world D) current recipes ordered : Forall2 (λ a r, allocation_recipe ext w a = Ok r) current recipes →
  validate_recipes recipes = Ok ordered →
  ordered ≡ₚ recipes ∧ NoDup (concat (recipe_range <$> ordered)) ∧ Forall sound_handle current
  ∧ alloc_range <$> current = recipe_range <$> recipes ∧ ea_ref <$> current = er_ref <$> recipes.
Proof.
  intros HF Hv.
  assert (Forall (λ r, 0 < er_bytes r) recipes) as Hpos.
  { clear Hv. induction HF as [|a r l l' Hr _ IH]; constructor; [|done]. by apply allocation_recipe_inv in Hr as (_ & _ & _ & ? & _). }
  destruct (validate_recipes_spec _ _ Hv Hpos) as (Hp & HN & _). split_and!; [done|done| | |]; clear Hv Hpos Hp HN;
    induction HF as [|a r l l' Hr _ IH]; csimpl; [done| |done| |done|]; apply allocation_recipe_inv in Hr as (Ea & Eb & Er & _ & _ & Eh & _).
  - constructor; [|done]. by exists (er_device r), (er_box r).
  - unfold alloc_range at 1, recipe_range at 1. by rewrite Ea, Eb, IH.
  - by rewrite Er, IH.
Qed.

(** C34. An epoch carries device bytes across the destruction of the CUDA context: every
    allocation that was still mapped when an epoch was captured with [externalize_active]
    holds, once the context was reset, the backing rebound and the residuals published, the
    bytes it held at capture; its entry is awake and its host copy is gone. Nothing is
    assumed of what the reset and the fresh mappings leave in memory. The entries are
    distinct objects, recipes fit the address space, and the runtime resources, when they are
    prepared and rebuilt without an error, leave the allocator's objects alone, as those of
    the worker do ([CudaRuntime]). *)
Theorem epoch_round_trip version cr library w0 v rt current ws e w1 i2 e2 w2 i3 e3 w3 published w4 :
  capture_sealed version cr w0 = (Ok (v, rt, current), ws) → NoDup (ea_ref <$> current) →
  capture dr version cr library true w0 = (Ok e, w1) → runtime_keeps rt → Forall fits (e_recipes e) →
  reset dr (e, w1) = (Ok i2, (e2, w2)) → rebind dr (e2, w2) = (Ok i3, (e3, w3)) →
  publish dr (e_recipes e3) w3 = (Ok published, w4) →
  (er_ref <$> published.*1) ≡ₚ (ea_ref <$> filter (λ a, is_released ws a = false) current)
  ∧ ∀ a, a ∈ current → is_released ws a = false →
      content w4 (alloc_range a) = content ws (alloc_range a)
      ∧ ed_asleep (w_objects w4 (ea_ref a)) = Some false ∧ ed_backup (w_objects w4 (ea_ref a)) = None.
Proof.
  intros Hs HN Hc Hk Hfit Hreset Hrebind Hpub.
  apply capture_Ok in Hc as (v' & current' & ws' & ext & recipes & Hs' & Hext & HF & Hv & _). rewrite Hs in Hs'. simplify_eq.
  destruct (captured_recipes _ _ _ _ _ HF Hv) as (Hp & HR & Hh & Eranges & Erefs).
  assert (NoDup (concat (alloc_range <$> current'))) as HRa by (by rewrite Eranges, <- (concat_fmap_perm recipe_range _ _ Hp)).
  destruct (externalize_active_spec _ _ _ _ Hext Hh HN HRa) as (_ & Hbackup & Eext).
  apply reset_Ok in Hreset as (_ & -> & Ho2). apply rebind_Ok in Hrebind as (_ & -> & Ho3). cbn [e_recipes e_runtime] in *.
  specialize (Ho2 Hk). specialize (Ho3 Hk).
  assert (NoDup (er_ref <$> e_recipes e)) as HNr by (by rewrite Hp, <- Erefs).
  destruct (publish_spec _ _ _ _ Hpub Hfit HNr HR) as (Hshown & _ & _ & ->). rewrite Ho3, Ho2 in Hshown.
  assert (∀ a r, a ∈ current' → allocation_recipe ext w1 a = Ok r → externalized_by_epoch r = negb (is_released ws' a)) as Hex.
  { intros a r Ha Hr. apply allocation_recipe_inv in Hr as (Ea & Eb & _ & Hpos & _ & _ & ->). rewrite Ea, Eext.
    destruct (is_released ws' a) eqn:Er; [apply bool_decide_eq_false_2|apply bool_decide_eq_true_2].
    - intros (b & Eq & [Hb Hin]%list_elem_of_filter)%list_elem_of_fmap. assert (a = b) as ->; [|congruence].
      apply (NoDup_concat_inj alloc_range current' a b (al_pointer (ea_view a))); [done..| |]; apply elem_of_seqZ; [lia|].
      rewrite Eq. destruct (Forall2_elem_l _ _ _ _ HF Hin) as (rb & _ & Hrb). apply allocation_recipe_inv in Hrb as (_ & ? & _ & ? & _). lia.
    - apply list_elem_of_fmap. exists a. split; [done|]. by apply list_elem_of_filter. }
  split.
  - rewrite <- list_fmap_compose. cbn. rewrite Hp. clear -HF Hex. revert Hex. induction HF as [|a r l l' Hr _ IH]; intros Hex; [done|].
    rewrite !filter_cons. pose proof (Hex a r ltac:(left) Hr) as Ex. apply allocation_recipe_inv in Hr as (_ & _ & Er & _).
    destruct (is_released ws' a); cbn in Ex; rewrite Ex; repeat case_decide; try done; csimpl; rewrite ?Er, IH; try done;
      intros; apply Hex; try done; by right.
  - intros a Ha Hrel. destruct (Forall2_elem_l _ _ _ _ HF Ha) as (r & Hr & Er). pose proof (Hex a r Ha Er) as Ex. rewrite Hrel in Ex.
    apply allocation_recipe_inv in Er as (Ea & Eb & Eref & _). rewrite <- Hp in Hr. destruct (Hshown r Hr Ex) as [Hb Hw].
    specialize (Hbackup a Ha). rewrite Hrel in Hbackup. destruct Hbackup as [Hb' _]. rewrite Eref in *.
    assert (recipe_range r = alloc_range a) as Err by (unfold recipe_range, alloc_range; congruence). rewrite Err in *.
    split; [congruence|]. rewrite Hw. done.
Qed.
End round_trip.

(** ** Waking *)

Section wake.
Context {D : Type} (dr : driver_ops D) (invoke : mapper → handle_value → ST (world D) unit).
Notation key := (Z * Z * Z * Z)%type.

Definition claim (h : handle_value) (pending : gset key) (s : VllmCudaEpoch D * world D) : list key :=
  match normalize_handle h with
  | Ok key => if decide (w_mapper s.2 = Some Prebound ∧ key ∈ pending) then [key] else []
  | Raise _ => []
  end.

(** The keys of the calls that [accept_prebound] answered from the prebound mappings. *)
Fixpoint claimed {A} (original : mapper) (t : wake A) (pending : gset key) (s : VllmCudaEpoch D * world D) : list key :=
  match t with
  | WReturn _ _ => []
  | WCall _ h k =>
      let '(r, pending', s') := create_and_map invoke original h pending s in
      claim h pending s ++ claimed original (k r) pending' s'
  | WAct _ f k => claimed original (k (f s)) pending (f s)
  end.

Lemma run_wake_claims {A} original (t : wake A) : ∀ pending s r pending' s', run_wake invoke original t pending s = (r, pending', s') →
  NoDup (claimed original t pending s) ∧ (∀ k, k ∈ claimed original t pending s → k ∈ pending)
  ∧ ∀ k, k ∈ pending' ↔ k ∈ pending ∧ k ∉ claimed original t pending s.
Proof.
  induction t as [x|h k IH|f k IH]; intros pending s r pending' s' E; cbn [run_wake claimed] in *.
  - simplify_eq. split_and!; [constructor|by intros ? ?%elem_of_nil|]. set_solver.
  - destruct (create_and_map invoke original h pending s) as [[r1 p1] s1] eqn:Ec.
    destruct (IH _ _ _ _ _ _ E) as (HN & Hsub & Hp). unfold create_and_map, accept_prebound in Ec.
    assert (p1 = pending ∧ claim h pending s = []
      ∨ ∃ key, key ∈ pending ∧ p1 = pending ∖ {[ key ]} ∧ claim h pending s = [key]) as Hcases.
    { unfold claim. destruct (w_mapper s.2) as [[| |n]|] eqn:Em.
      - left. destruct (on_world _ _) as [r2 s2]. simplify_eq. split; [done|]. destruct (normalize_handle h); [|done]. by rewrite decide_False by naive_solver.
      - destruct (normalize_handle h) as [key|x]; [|left; by simplify_eq]. destruct (decide (key ∈ pending)).
        + right. exists key. simplify_eq. split_and!; [done|done|]. by rewrite decide_True.
        + left. destruct (on_world _ _) as [r2 s2]. simplify_eq. split; [done|]. by rewrite decide_False by naive_solver.
      - left. destruct (on_world _ _) as [r2 s2]. simplify_eq. split; [done|]. destruct (normalize_handle h); [|done]. by rewrite decide_False by naive_solver.
      - left. simplify_eq. split; [done|]. destruct (normalize_handle h); [|done]. by rewrite decide_False by naive_solver. }
    destruct Hcases as [[-> ->]|(key & Hkey & -> & ->)]; [by split_and!|]. cbn [app]. split_and!.
    + constructor; [|done]. intros Hc%Hsub. set_solver.
    + intros q [->|Hq%Hsub]%elem_of_cons; set_solver.
    + intros q. rewrite Hp, not_elem_of_cons. set_solver.
  - by eapply IH.
Qed.

Definition keys (l : list CudaEpochAllocation) : gset key := list_to_set (handle_key <$> l).

(** A wake is accepted only if it claimed what the epoch mapped for it: when [resume]
    returns, the wake returned the result, vLLM asked for every allocation that slept before
    the epoch, each of these requests was answered once by the mapping made in [rebind]
    without mapping again, no other request was, and the epoch is active. *)
Theorem resume_claims {A} provider (callback : wake A) e w a e' w' :
  resume dr invoke provider callback (e, w) = (Ok a, (e', w')) →
  e_state e' = ACTIVE ∧ ∃ original s0 pending s1,
    w_mapper s0.2 = Some Prebound ∧ e_state s0.1 = REBOUND
    ∧ run_wake invoke original callback (keys (e_recipes e)) s0 = (Ok a, pending, s1)
    ∧ NoDup (claimed original callback (keys (e_recipes e)) s0)
    ∧ Forall (λ k, k ∈ handle_key <$> e_recipes e) (claimed original callback (keys (e_recipes e)) s0)
    ∧ Forall (λ r, externalized_by_epoch r = false → handle_key r ∈ claimed original callback (keys (e_recipes e)) s0) (e_recipes e).
Proof.
  intros E. unfold resume, get_state, get_recipes in E. st_inv.
  match goal with H : (match e_state e with _ => _ end) _ = (Ok _, ?s) |- _ => destruct s as [e1 w1]; rename H into Hst end.
  assert (e_recipes e1 = e_recipes e ∧ e_state e1 = REBOUND) as [Er Es].
  { destruct (e_state e) eqn:Ee; try done; st_inv; [|by simplify_eq].
    match goal with H : rebind _ _ = _ |- _ => apply rebind_Ok in H as (_ & -> & _) end. done. }
  match goal with H : on_world (publish _ _) _ = (Ok _, ?s) |- _ => destruct s as [e2 w2]; apply on_world_Ok in H as [Hpub ->] end.
  unfold run_hooked in E. rewrite Er in E. fold (keys (e_recipes e)) in E. destruct (run_wake _ _ _ _ _) as [[r pending] s1] eqn:Ew.
  destruct s1 as [e3 w3]. destruct r as [b|]; [|done]. unfold get_state, set_state, in_state in E. st_inv. guards.
  match goal with H : (e', w') = (_, _) |- _ => injection H as -> -> end. cbn [e_state]. split; [done|].
  destruct (run_wake_claims _ _ _ _ _ _ _ Ew) as (HN & Hsub & Hp). do 4 eexists. split; [|split; [|split; [exact Ew|]]]; [done|done|].
  split_and!; [done| |].
  - apply Forall_forall. intros k Hk%Hsub. unfold keys in Hk. by apply elem_of_list_to_set in Hk.
  - apply Forall_forall. intros q Hq Hext. match goal with |- _ ∈ ?l => destruct (decide (handle_key q ∈ l)) as [|Hn]; [done|] end.
    exfalso. match goal with H : pending ∩ _ = ∅ |- _ => apply (not_elem_of_empty (C := gset key) (handle_key q)); rewrite <- H end.
    apply elem_of_intersection. split; [apply Hp; split; [|done]|]; apply elem_of_list_to_set, list_elem_of_fmap_2; [done|]. by apply list_elem_of_filter.
Qed.

Lemma restore_tags_spec published : ∀ w : world D, NoDup (er_ref <$> published.*1) →
  (∀ i, i ∉ er_ref <$> published.*1 → w_objects (restore_tags published w) i = w_objects w i)
  ∧ Forall (λ p, ed_tag (w_objects (restore_tags published w) (er_ref p.1)) = Some p.2) published
  ∧ w_mapper (restore_tags published w) = w_mapper w ∧ w_provider (restore_tags published w) = w_provider w.
Proof.
  induction published as [|p published IH]; intros w HN; [by split_and!|]. csimpl in HN. apply NoDup_cons in HN as [Hn HN].
  unfold restore_tags. cbn [foldl]. fold (restore_tags published (set_object (er_ref p.1) (with_tag (Some p.2)) w)).
  destruct (IH (set_object (er_ref p.1) (with_tag (Some p.2)) w) HN) as (H1 & H2 & H3 & H4). split_and!; [| |by rewrite H3|by rewrite H4].
  - csimpl. intros i [Hi Hi']%not_elem_of_cons. rewrite H1 by done. cbn. by rewrite fn_lookup_insert_ne by done.
  - constructor; [|done]. rewrite H1 by done. cbn. by rewrite fn_lookup_insert.
Qed.

Lemma publish_hooks l : ∀ w published w', publish dr l w = (Ok published, w') → w_provider w' = w_provider w.
Proof.
  induction l as [|r l IH]; intros w published w' E; cbn [publish] in E; [by st_inv|].
  destruct (externalized_by_epoch r); [|by eapply IH]. st_inv.
  match goal with H : publish dr l _ = _ |- _ => rewrite (IH _ _ _ H); clear H end.
  match goal with H : publish_one _ _ _ = _ |- _ => unfold publish_one, copy_from_host, checked, native_copy in H end. st_inv. cbn.
  repeat case_match; by simplify_eq.
Qed.

(** Waking leaves no hook behind: once the residuals are published, whatever vLLM's wake
    does and whether it returns or raises, vLLM's [create_and_map] is not the epoch's
    function any more, the memory provider has its own methods again, and every published
    entry has the tag it had before. *)
Theorem resume_unhooks {A} (callback : wake A) e w m published w1 r e' w' :
  e_state e = REBOUND → w_mapper w = Some m → m ≠ Prebound → NoDup (er_ref <$> published.*1) →
  publish dr (e_recipes e) w = (Ok published, w1) →
  resume dr invoke true callback (e, w) = (r, (e', w')) →
  w_mapper w' ≠ Some Prebound ∧ w_provider w' = w_provider w
  ∧ Forall (λ p, ed_tag (w_objects w' (er_ref p.1)) = Some p.2) published.
Proof.
  intros Es Em Hm HN Hp E.
  assert (run_hooked invoke true callback m published (e, w1) = (r, (e', w'))) as Hr.
  { rewrite <- E. unfold resume, get_state, get_recipes, on_world, mbind, st_bind, st_get, lift, of_option, mret, st_ret. rewrite Es. cbv beta iota.
    rewrite Em. cbv beta iota. by rewrite Hp. }
  clear E. unfold run_hooked in Hr. destruct (run_wake _ _ _ _ _) as [[r1 pending] [e2 w2]].
  assert (w' = unhook m (Some (w_provider w1)) published w2) as ->.
  { destruct r1 as [b|]; [|by simplify_eq]. unfold get_state, set_state, in_state, mbind, st_bind, st_raise_if, lift, raise_if, st_get, st_set, mret, st_ret in Hr.
    repeat (case_match; simplify_eq; try done). }
  unfold unhook. set (w3 := if decide _ then _ else w2). destruct (restore_tags_spec published w3 HN) as (_ & H2 & H3 & H4).
  cbn. split_and!; [|by eapply publish_hooks|done]. rewrite H3. unfold w3. destruct (decide _); cbn; [by injection|done].
Qed.

(** The entry of a residual whose bytes went back. *)
Definition is_shown (d : epoch_data) : Prop := ed_tag d = Some RESIDUAL_TAG ∧ ed_backup d = None.

Lemma publish_one_any r w t w' : publish_one dr r w = (t, w') →
  (∀ i, i ≠ er_ref r → w_objects w' i = w_objects w i) ∧ (is_ok t = true → is_shown (w_objects w' (er_ref r))).
Proof.
  unfold publish_one, copy_from_host, checked, native_copy, mbind, st_bind, st_get, of_option, st_raise_if, raise_if, st_set, lift, mret, st_ret.
  intros E. repeat (case_match; simplify_eq); cbn -[RESIDUAL_TAG lit]; (split; [intros i Hi; by rewrite ?fn_lookup_insert_ne by done|try done]);
    intros _; by rewrite fn_lookup_insert.
Qed.

Lemma publish_keeps l : ∀ w t w' i, publish dr l w = (t, w') → i ∉ er_ref <$> l → w_objects w' i = w_objects w i.
Proof.
  induction l as [|r l IH]; intros w t w' i E Hi; cbn [publish] in E; [by injection E as _ <-|]. apply not_elem_of_cons in Hi as [Hr Hi].
  destruct (externalized_by_epoch r); [|by eapply IH]. unfold mbind, st_bind in E.
  destruct (publish_one dr r w) as [[b|] w1] eqn:E1; apply publish_one_any in E1 as [H1 _]; [|injection E as _ <-; by apply H1].
  destruct (publish dr l w1) as [[rest|] w2] eqn:E2; [unfold mret, st_ret in E|]; injection E as _ <-; rewrite (IH _ _ _ _ E2), H1; done.
Qed.

Lemma publish_lost l r w : r ∈ l → externalized_by_epoch r = true → ed_backup (w_objects w (er_ref r)) = None → NoDup (er_ref <$> l) →
  is_ok (publish dr l w).1 = false.
Proof.
  revert w. induction l as [|q l IH]; [by intros w ?%elem_of_nil|]. intros w Hr Hx Hb [Hn HN]%NoDup_cons. cbn [publish].
  apply elem_of_cons in Hr as [<-|Hr].
  - rewrite Hx. unfold publish_one, mbind, st_bind, st_get, lift, of_option. by rewrite Hb.
  - assert (er_ref r ≠ er_ref q) as Hne by (intros Eq; apply Hn; rewrite <- Eq; by apply list_elem_of_fmap_2).
    destruct (externalized_by_epoch q); [|by apply IH]. unfold mbind, st_bind.
    destruct (publish_one dr q w) as [[b|] w1] eqn:E1; [|done]. apply publish_one_any in E1 as [H1 _].
    specialize (IH w1 Hr Hx). rewrite H1 in IH by done. specialize (IH Hb HN). by destruct (publish dr l w1) as [[]].
Qed.

(** Where a publication that raises stopped: the externalized entries before it are shown. *)
Lemma publish_stopped l : ∀ w x w', publish dr l w = (Raise x, w') → NoDup (er_ref <$> l) →
  ∃ pre bad rest dn w1, l = pre ++ bad :: rest ∧ externalized_by_epoch bad = true
    ∧ publish dr pre w = (Ok dn, w1) ∧ publish_one dr bad w1 = (Raise x, w')
    ∧ ∀ r, r ∈ pre → externalized_by_epoch r = true → is_shown (w_objects w' (er_ref r)).
Proof.
  induction l as [|q l IH]; intros w x w' E HN; cbn [publish] in E; [done|]. apply NoDup_cons in HN as [Hq HN].
  destruct (externalized_by_epoch q) eqn:Hx.
  - unfold mbind, st_bind in E. destruct (publish_one dr q w) as [[t|y] w1] eqn:E1.
    2: { injection E as -> ->. exists [], q, l, [], w. split_and!; try done. by intros r ?%elem_of_nil. }
    destruct (publish dr l w1) as [[rest|y] w2] eqn:E2; [done|]. injection E as -> ->.
    destruct (IH _ _ _ E2 HN) as (pre & bad & rest & dn & w3 & -> & Hb & Hdn & Hone & Hpre).
    exists (q :: pre), bad, rest, ((q, t) :: dn), w3. split_and!; try done.
    { cbn [publish]. rewrite Hx. unfold mbind, st_bind. by rewrite E1, Hdn. }
    intros r [->|Hr]%elem_of_cons Hr'; [|by apply Hpre].
    rewrite (publish_keeps _ _ _ _ _ E2 Hq). by apply publish_one_any in E1 as [_ H1]; apply H1.
  - destruct (IH _ _ _ E HN) as (pre & bad & rest & dn & w3 & -> & Hb & Hdn & Hone & Hpre).
    exists (q :: pre), bad, rest, dn, w3. split_and!; try done; [by cbn [publish]; rewrite Hx|]. intros r [->|Hr]%elem_of_cons Hr'; [congruence|by apply Hpre].
Qed.

(** An epoch that is not awaiting its rebind and has an externalized entry without a host
    copy cannot be resumed. *)
Lemma resume_lost {A} provider (callback : wake A) e w r : e_state e ≠ RESET → NoDup (er_ref <$> e_recipes e) →
  r ∈ e_recipes e → externalized_by_epoch r = true → ed_backup (w_objects w (er_ref r)) = None →
  is_ok (resume dr invoke provider callback (e, w)).1 = false.
Proof.
  intros Es HN Hr Hx Hb. pose proof (publish_lost _ _ _ Hr Hx Hb HN) as Hl.
  unfold resume, get_state, get_recipes, on_world, mbind, st_bind, st_get, lift, of_option, mret, st_ret.
  destruct (e_state e); try done. cbv beta iota. destruct (w_mapper w); [|done]. cbv beta iota.
  by destruct (publish dr (e_recipes e) w) as [[]].
Qed.

(** C35. A residual that fails to publish leaves all the ones before it under the wrong tag:
    the tags are put back by the [finally] around the wake, which is not entered. For a
    rebound epoch whose entries are distinct objects (and vLLM's [create_and_map] in
    place), when publishing the residuals raises, [resume] raises the same exception with
    the epoch still rebound; the exception came from one residual, and every externalized
    entry before it in the order of the recipes is left tagged as a residual and without
    its host copy. As long as one such entry has no host copy, no later [resume] of the
    epoch returns, in whatever world it is called, whatever the wake. *)
Theorem resume_strands_residuals {A B} provider (callback : wake A) (callback' : wake B) provider' e w m x w2 :
  e_state e = REBOUND → w_mapper w = Some m → NoDup (er_ref <$> e_recipes e) →
  publish dr (e_recipes e) w = (Raise x, w2) →
  resume dr invoke provider callback (e, w) = (Raise x, (e, w2))
  ∧ ∃ pre bad rest published w1, e_recipes e = pre ++ bad :: rest ∧ externalized_by_epoch bad = true
    ∧ publish dr pre w = (Ok published, w1) ∧ publish_one dr bad w1 = (Raise x, w2)
    ∧ (∀ r, r ∈ pre → externalized_by_epoch r = true →
        ed_tag (w_objects w2 (er_ref r)) = Some RESIDUAL_TAG ∧ ed_backup (w_objects w2 (er_ref r)) = None)
    ∧ ∀ e' w' r, e_recipes e' = e_recipes e → e_state e' ≠ RESET → r ∈ pre → externalized_by_epoch r = true →
        ed_backup (w_objects w' (er_ref r)) = None → is_ok (resume dr invoke provider' callback' (e', w')).1 = false.
Proof.
  intros Es Em HN E. split.
  - unfold resume, get_state, get_recipes, on_world, mbind, st_bind, st_get, lift, of_option, mret, st_ret. rewrite Es. cbv beta iota.
    rewrite Em. cbv beta iota. by rewrite E.
  - destruct (publish_stopped _ _ _ _ E HN) as (pre & bad & rest & dn & w1 & Er & Hb & Hdn & Hone & Hpre). exists pre, bad, rest, dn, w1.
    split_and!; try done. intros e' w' r Er' Es' Hr Hx Hl. apply (resume_lost provider' callback' e' w' r); try done.
    + by rewrite Er'.
    + rewrite Er', Er. apply elem_of_app. by left.
Qed.
End wake.

(** ** Concurrent callers

    [rebind] holds the lock of the epoch only while it tests and sets the state, so its
    native part may overlap other calls. A thread is at its entry, or inside [rebind]. *)

Record shared := Shared { sh_state : epoch_state; sh_inside : nat; sh_native : nat }.

Inductive epoch_step : shared → shared → Prop :=
| step_reset n k : epoch_step (Shared CAPTURED n k) (Shared RESET n k)
| step_reset_fails n k : epoch_step (Shared CAPTURED n k) (Shared CAPTURED n k)
| step_enter n k : epoch_step (Shared RESET n k) (Shared REBINDING (S n) (S k))
| step_rebound s n k : epoch_step (Shared s (S n) k) (Shared REBOUND n k)
| step_failed s n k : epoch_step (Shared s (S n) k) (Shared ERROR n k)
| step_handoff n k : epoch_step (Shared REBOUND n k) (Shared ACTIVE n k).

Definition shared_ok (s : shared) : Prop :=
  match sh_state s with
  | CAPTURED | RESET => sh_inside s = 0%nat ∧ sh_native s = 0%nat
  | REBINDING => sh_inside s = 1%nat ∧ sh_native s = 1%nat
  | REBOUND | ERROR | ACTIVE => sh_inside s = 0%nat ∧ sh_native s = 1%nat
  end.

Lemma step_shared_ok s s' : epoch_step s s' → shared_ok s → shared_ok s'.
Proof. destruct 1 as [| | |s n k|s n k|]; unfold shared_ok; cbn; try done; try lia; destruct s; lia. Qed.

(** The operations of one caller are runs of these steps. *)
Lemma reset_steps {D} (dr : driver_ops D) e w r e' w' n k : reset dr (e, w) = (r, (e', w')) →
  rtc epoch_step (Shared (e_state e) n k) (Shared (e_state e') n k).
Proof.
  intros E. destruct (decide (e_state e = e_state e')) as [->|Hne]; [done|].
  unfold reset, get_state, st_raise_if, set_state, in_state, with_runtime, on_world, inventory, get_device, get_recipes, mbind, st_bind, st_get, st_set, lift, raise_if, of_option, mret, st_ret in E.
  destruct (e_state e) eqn:Es; cbn in E; try (injection E as _ <- _; congruence).
  assert (e_state e' = RESET) as ->; [|apply rtc_once; constructor].
  repeat (case_match; simplify_eq; try done); try congruence.
Qed.

Lemma rebind_steps {D} (dr : driver_ops D) e w r e' w' n k : rebind dr (e, w) = (r, (e', w')) →
  ∃ k', rtc epoch_step (Shared (e_state e) n k) (Shared (e_state e') n k').
Proof.
  intros E. destruct (decide (e_state e = e_state e')) as [->|Hne]; [by exists k|].
  unfold rebind, get_state, st_raise_if, set_state, in_state, with_runtime, st_on_error, on_world, inventory, get_device, get_recipes, mbind, st_bind, st_get, st_set, lift, raise_if, of_option, mret, st_ret in E.
  destruct (e_state e) eqn:Es; cbn in E; try (injection E as _ <- _; congruence).
  assert (e_state e' = REBOUND ∨ e_state e' = ERROR) as Hcases.
  { repeat (case_match; simplify_eq; try (first [by left|by right])). }
  exists (S k). eapply rtc_l; [constructor|]. apply rtc_once. destruct Hcases as [-> | ->]; constructor.
Qed.

(** Fresh backing is mapped at most once per epoch: however calls to [reset], [rebind]
    and [resume] of several threads interleave, at most one thread is inside the native
    rebind, it was entered at most once, and exactly once when the epoch is rebound, failed
    or active; so a state is never overwritten by a second rebind. *)
Theorem rebind_once s : rtc epoch_step (Shared CAPTURED 0 0) s →
  (sh_inside s <= 1)%nat ∧ (sh_native s <= 1)%nat ∧ (sh_state s ∈ [REBOUND; ERROR; ACTIVE] → sh_native s = 1%nat ∧ sh_inside s = 0%nat)
  ∧ (sh_state s = REBINDING ↔ sh_inside s = 1%nat).
Proof.
  intros Hr. assert (shared_ok s) as Hs.
  { revert s Hr. apply rtc_ind_r; [done|]. intros y z _ Hst Hy. by eapply step_shared_ok. }
  unfold shared_ok in Hs. destruct (sh_state s); split_and!; try lia; try (intros; lia); try (split; [done|intros; lia]); try (split; [intros; lia|done]); set_solver.
Qed.

(** ** A device of bytes *)

Definition write_bytes (a : Z) (b : pybytes) (d : Z → N) : Z → N := λ x,
  if decide (a <= x < a + Z.of_nat (length b)) then default 0%N (b !! Z.to_nat (x - a)) else d x.

Definition toy_driver : driver_ops (Z → N) := Driver _
  (λ c d, (true, match c with DeviceReset => λ _, 0%N | _ => d end)) (λ _ _, 1) (λ _, 7)
  (λ a b d, (true, write_bytes a b d)) (λ a n d, (true, write_bytes a (replicate (Z.to_nat n) 0%N) d))
  (λ a n d, (Ok (d <$> range a n), d)) (λ _ d, (Ok tt, d)).

#[local] Instance toy_device : EpochDevice toy_driver (λ d, d).
Proof.
  split; cbn.
  - intros a n d b d' [= <- <-]. done.
  - done.
  - intros a b d d' [= <-]. apply list_eq. intros i. rewrite list_lookup_fmap. unfold range. destruct (decide (i < length b)%nat) as [Hi|Hi].
    + rewrite lookup_seqZ_lt by lia. cbn. unfold write_bytes. rewrite decide_True by lia. replace (a + Z.of_nat i - a) with (Z.of_nat i) by lia.
      rewrite Nat2Z.id. apply lookup_lt_is_Some in Hi as [y ->]. done.
    + rewrite lookup_seqZ_ge by lia. cbn. symmetry. apply lookup_ge_None. lia.
  - intros a b d x Hx. unfold write_bytes. rewrite decide_False; [done|]. intros H. apply Hx, elem_of_seqZ. lia.
Qed.

Definition toy_data (device bytes address box : Z) (asleep : bool) : epoch_data :=
  EData (Some (lit "weights")) (Some (HTuple [Some device; Some bytes; Some address; Some box])) None None (Some asleep) None.
Definition toy_world : world (Z → N) :=
  World (λ i, match i with O => toy_data 0 4 16 900 false | _ => toy_data 0 8 32 908 true end)
    [(Some 16, 0%nat); (Some 32, 1%nat)] ∅ ∅ (Some VllmMapper) RuntimeMethods (λ x, Z.to_N (x + 1)).
Definition toy_version : option pystr := Some (lit "2.10.1").

Lemma run_eq {A W} (p : res A * W) a : p.1 = Ok a → p = (Ok a, p.2).
Proof. destruct p. by intros [= ->]. Qed.
Lemma run_eq2 {A V W} (p : res A * (V * W)) a v : p.1 = Ok a → p.2.1 = v → p = (Ok a, (v, p.2.2)).
Proof. destruct p as [r [v' w]]. by intros [= ->] [= ->]. Qed.

Definition toy_recipes : list CudaEpochAllocation :=
  [Recipe 16 4 900 0 (lit "weights") 0 true; Recipe 32 8 908 0 (lit "weights") 1 false].
Definition toy_epoch (s : epoch_state) : VllmCudaEpoch (Z → N) := Epoch toy_recipes (lit "2.10.1") None s.
Definition toy_inventory (s : epoch_state) : epoch_inventory :=
  Inventory s (lit "2.10.1") 0 2 12 1 4 [lit "weights"] [16; 32] None.
Definition toy_current : list epoch_alloc :=
  [EAlloc (Alloc 16 4 (lit "weights") false) (HTuple [Some 0; Some 4; Some 16; Some 900]) 0;
   EAlloc (Alloc 32 8 (lit "weights") true) (HTuple [Some 0; Some 8; Some 32; Some 908]) 1].
Definition toy_captured : world (Z → N) := (capture toy_driver toy_version None (Ok tt) true toy_world).2.
Definition toy_reset : world (Z → N) := (reset toy_driver (toy_epoch CAPTURED, toy_captured)).2.2.
Definition toy_rebound : world (Z → N) := (rebind toy_driver (toy_epoch RESET, toy_reset)).2.2.
Definition toy_published : world (Z → N) := (publish toy_driver toy_recipes toy_rebound).2.

Lemma epoch_round_trip_witness :
  content (λ d, d) toy_reset [16; 17; 18; 19] = [0; 0; 0; 0]%N ∧ content (λ d, d) toy_published [16; 17; 18; 19] = [17; 18; 19; 20]%N.
Proof.
  destruct (epoch_round_trip toy_driver (λ d, d) toy_version None (Ok tt) toy_world (lit "2.10.1") None toy_current toy_world
    (toy_epoch CAPTURED) toy_captured (toy_inventory RESET) (toy_epoch RESET) toy_reset (toy_inventory REBOUND) (toy_epoch REBOUND) toy_rebound
    [(Recipe 16 4 900 0 (lit "weights") 0 true, lit "weights")] toy_published) as [_ H].
  - apply (run_eq (capture_sealed toy_version None toy_world)). by vm_compute.
  - by apply (bool_decide_unpack _).
  - apply run_eq. by vm_compute.
  - done.
  - by repeat constructor.
  - apply run_eq2; by vm_compute.
  - apply run_eq2; by vm_compute.
  - apply run_eq. by vm_compute.
  - split; [by vm_compute|]. destruct (H (EAlloc (Alloc 16 4 (lit "weights") false) (HTuple [Some 0; Some 4; Some 16; Some 900]) 0)) as [Hc _];
      [left|by vm_compute|exact Hc].
Defined.

(** A wake that maps its sleeping allocation. *)
Definition toy_invoke (_ : mapper) (_ : handle_value) : ST (world (Z → N)) unit := mret tt.
Definition toy_wake : wake (D := Z → N) Z := WCall _ (HTuple [Some 0; Some 8; Some 32; Some 908]) (λ _, WReturn _ (Ok 5)).
Definition toy_active : world (Z → N) := (resume toy_driver toy_invoke true toy_wake (toy_epoch REBOUND, toy_rebound)).2.2.

Lemma resume_claims_witness : ∃ original s0,
  (0, 8, 32, 908) ∈ claimed toy_invoke original toy_wake (keys toy_recipes) s0.
Proof.
  destruct (resume_claims toy_driver toy_invoke true toy_wake (toy_epoch REBOUND) toy_rebound 5 (toy_epoch ACTIVE) toy_active)
    as (_ & original & s0 & _ & _ & _ & _ & _ & _ & _ & HF).
  - apply run_eq2; by vm_compute.
  - exists original, s0. apply Forall_cons in HF as [_ HF]. apply Forall_cons in HF as [HF _]. by apply HF.
Defined.

Lemma resume_unhooks_witness : w_mapper toy_active ≠ Some Prebound ∧ w_provider toy_active = RuntimeMethods
  ∧ ed_tag (w_objects toy_active 0) = Some (lit "weights").
Proof.
  destruct (resume_unhooks toy_driver toy_invoke toy_wake (toy_epoch REBOUND) toy_rebound VllmMapper
    [(Recipe 16 4 900 0 (lit "weights") 0 true, lit "weights")] toy_published (Ok 5) (toy_epoch ACTIVE) toy_active) as (H1 & H2 & H3).
  - done.
  - by vm_compute.
  - done.
  - by apply (bool_decide_unpack _).
  - apply run_eq. by vm_compute.
  - apply run_eq2; by vm_compute.
  - split; [exact H1|]. split; [rewrite H2; by vm_compute|]. apply Forall_cons in H3 as [H3 _]. exact H3.
Defined.

(** A second residual whose backup was lost. *)
Definition stranded_recipes : list CudaEpochAllocation :=
  [Recipe 16 4 900 0 (lit "weights") 0 true; Recipe 32 8 908 0 (lit "weights") 1 true].
Definition stranded_epoch : VllmCudaEpoch (Z → N) := Epoch stranded_recipes (lit "2.10.1") None REBOUND.
Definition stranded_run := publish toy_driver stranded_recipes toy_rebound.

Lemma resume_strands_residuals_witness :
  (resume toy_driver toy_invoke true toy_wake (stranded_epoch, toy_rebound)).1 = Raise (Exn CudaEpochError "CUDA epoch residual lost its host backup")
  ∧ ed_tag (w_objects stranded_run.2 0) = Some RESIDUAL_TAG.
Proof.
  destruct (resume_strands_residuals toy_driver toy_invoke true toy_wake toy_wake true stranded_epoch toy_rebound VllmMapper
    (Exn CudaEpochError "CUDA epoch residual lost its host backup") stranded_run.2)
    as (H1 & pre & bad & rest & published & w1 & Er & _ & Hw & Hb & Hp & _).
  - done.
  - by vm_compute.
  - by apply (bool_decide_unpack _).
  - change (stranded_run = (Raise (Exn CudaEpochError "CUDA epoch residual lost its host backup"), stranded_run.2)).
    rewrite (surjective_pairing stranded_run) at 1. f_equal.
  - split; [by rewrite H1|]. destruct pre as [|r pre]; injection Er as <- _.
    + apply (f_equal snd) in Hw. change (toy_rebound = w1) in Hw. subst w1. apply (f_equal (λ p, is_ok p.1)) in Hb. by vm_compute in Hb.
    + apply (Hp (Recipe 16 4 900 0 (lit "weights") 0 true)); [left|done].
Defined.

Lemma rebind_once_witness : (sh_native (Shared REBOUND 0 1) <= 1)%nat ∧ sh_inside (Shared REBOUND 0 1) = 0%nat.
Proof.
  destruct (rebind_once (Shared REBOUND 0 1)) as (_ & H & H' & _).
  - eapply rtc_l; [apply step_reset|]. eapply rtc_l; [apply step_enter|]. apply rtc_once, step_rebound.
  - split; [exact H|]. apply H'. left.
Defined.
