(* ===== verification/CudaRuntime.v ===== *)
(** * The runtime resources of an epoch

    [VllmCudaRuntime] of [integrations/vllm/coldsnap_vllm_cuda_runtime.py]: the streams, events
    and pinned workspaces of a model runner, which do not survive the CUDA context, are dropped
    before a reset and made again after it, and the pool of late allocations is closed and opened
    around it. The runtime is one that [CudaEpoch] expects.

    Torch, the native library and vLLM's pools are parameters. The runner is the part of vLLM's
    object that the code reads; the scope of the pool is one object, shared by the runner and the
    runtime. How a runtime is captured is a parameter of [CudaEpoch]. *)

From S2P Require Import Prelude Ranges PyFloat PyJson Hash Memory VllmMemory CudaEpoch CudaEpochSpec.

(** ** Data *)

Definition RUNTIME_TAG : pystr := lit "runtime".
Definition RUNTIME_EPOCH_TAG_PREFIX : pystr := lit "runtime_epoch_".
Definition RUNNER_V1 : pystr := lit "v1".
Definition RUNNER_V2 : pystr := lit "v2".

(** [_RuntimePoolScope]; a context is the object that vLLM's pool gave. *)
Record pool_scope := PoolScope {
  initial_tag : pystr; ps_context : option nat; ps_active : bool; ps_epoch : Z; ps_tags : list pystr; ps_activates : bool;
}.
Inductive resource_kind := CudaStreamList | CudaEventList | CudaStream | CudaCurrentStream | CudaEvent | TorchEvent | OtherResource (kind : pystr).
(** [_ResourceRecipe]: a target is an object, the runner if there is none. *)
Record resource_recipe := ResourceRecipe {
  rr_name : pystr; rr_kind : resource_kind; rr_blocking : bool; rr_target : option nat; rr_attribute : option pystr; rr_count : Z;
}.
(** [_PinnedWorkspaceRecipe] *)
Record pinned_workspace := Workspace {
  pw_owner : nat; pw_owner_type : pystr; pw_attribute : pystr; pw_pageable : option nat; pw_bytes : Z; pw_rehydrated : bool;
}.
(** The device of a runner: an index, a name, or an object with an index. *)
Inductive runner_device := DeviceIndex (n : Z) | DeviceName (s : pystr) | DeviceObject (index : option Z).
Record vllm_runner := Runner {
  rn_kind : option pystr; rn_has_v1_fields : bool; rn_device : runner_device;
  rn_request_generators : bool; rn_batch_generators : bool; rn_batch_copies : bool;
  (** [verification_capacity_manager]: a copy pending, and whether it can be drained *)
  rn_capacity : option (bool * bool); rn_copy_event : option nat;
  rn_execute_model_state : bool; rn_kv_connector_output : bool; rn_encoder_cache : option nat;
}.
(** What [VllmCudaRuntime] holds and reaches: attributes and lists of Python objects, where a
    value is an object or [None]; owners without a dictionary; the thread's generation. *)
Record runtime_state := RuntimeState {
  rs_runner : option vllm_runner; rs_scope : pool_scope; rs_workspaces : list pinned_workspace;
  rs_attributes : gmap (option nat * pystr) (option nat); rs_lists : gmap nat (list (option nat));
  rs_generation : option Z; rs_triton : Z * Z * Z; rs_compiler_reset : bool; rs_b12x_reset : bool; rs_sealed : bool;
}.
(** Calls of torch and of the libraries that own device state. *)
Inductive torch_call :=
| NewStream | CurrentStream | NewEvent (blocking : bool) | NewTorchEvent | PinnedCopy (pageable : nat) (bytes : Z)
| SynchronizeEvent (event : nat) | DrainCapacity | TorchSetDevice | SetDefaultStream | ActivateNative (index : Z)
| B12xReset | TritonKernels | TritonFunctions | TritonAutotuners | CompilerReset | GcCollect | HostEmptyCache.

Section runtime.
Context {D : Type}.
Notation world := (world (D * runtime_state)).

(** A call gives an object or a number; the pools of vLLM's allocator act on the whole world. *)
Variable torch : torch_call → D → res Z * D.
Variables (use_memory_pool : pystr → ST world nat) (exit_pool : nat → bool → ST world unit).
(** Whether an owner has a [__dict__]. *)
Variable has_dict : option nat → bool.
(** [self.resources] and what [inventory] reports of the capture. *)
Variables (resources : list resource_recipe) (captured : Z * Z * Z * Z).

Definition call_torch (c : torch_call) : ST world Z := on_device (λ '(d, s), let '(r, d) := torch c d in (r, (d, s))).
Definition get_runtime {A} (f : runtime_state → A) : ST world A := st_get (λ w, f (w_device w).2).
Definition set_runtime (f : runtime_state → runtime_state) : ST world unit := st_set (λ w, set_device ((w_device w).1, f (w_device w).2) w).

Definition set_scope (p : pool_scope) (s : runtime_state) : runtime_state :=
  RuntimeState (rs_runner s) p (rs_workspaces s) (rs_attributes s) (rs_lists s) (rs_generation s) (rs_triton s) (rs_compiler_reset s) (rs_b12x_reset s) (rs_sealed s).
Definition set_sealed (b : bool) (s : runtime_state) : runtime_state :=
  RuntimeState (rs_runner s) (rs_scope s) (rs_workspaces s) (rs_attributes s) (rs_lists s) (rs_generation s) (rs_triton s) (rs_compiler_reset s) (rs_b12x_reset s) b.
Definition set_runner (r : vllm_runner) (s : runtime_state) : runtime_state :=
  RuntimeState (Some r) (rs_scope s) (rs_workspaces s) (rs_attributes s) (rs_lists s) (rs_generation s) (rs_triton s) (rs_compiler_reset s) (rs_b12x_reset s) (rs_sealed s).
Definition set_attributes (a : gmap (option nat * pystr) (option nat)) (s : runtime_state) : runtime_state :=
  RuntimeState (rs_runner s) (rs_scope s) (rs_workspaces s) a (rs_lists s) (rs_generation s) (rs_triton s) (rs_compiler_reset s) (rs_b12x_reset s) (rs_sealed s).
Definition set_list (i : nat) (l : list (option nat)) (s : runtime_state) : runtime_state :=
  RuntimeState (rs_runner s) (rs_scope s) (rs_workspaces s) (rs_attributes s) (<[ i := l ]> (rs_lists s)) (rs_generation s) (rs_triton s) (rs_compiler_reset s)
    (rs_b12x_reset s) (rs_sealed s).
Definition set_workspace (i : nat) (x : pinned_workspace) (s : runtime_state) : runtime_state :=
  RuntimeState (rs_runner s) (rs_scope s) (<[ i := x ]> (rs_workspaces s)) (rs_attributes s) (rs_lists s) (rs_generation s) (rs_triton s) (rs_compiler_reset s)
    (rs_b12x_reset s) (rs_sealed s).
Definition set_generation (g : Z) (s : runtime_state) : runtime_state :=
  RuntimeState (rs_runner s) (rs_scope s) (rs_workspaces s) (rs_attributes s) (rs_lists s) (Some g) (rs_triton s) (rs_compiler_reset s) (rs_b12x_reset s) (rs_sealed s).
Definition set_caches (t : Z * Z * Z) (compiler b12x : bool) (s : runtime_state) : runtime_state :=
  RuntimeState (rs_runner s) (rs_scope s) (rs_workspaces s) (rs_attributes s) (rs_lists s) (rs_generation s) t compiler b12x (rs_sealed s).

(** ** The pool *)

(** [_RuntimePoolScope.enter], [_RuntimePoolScope.exit] *)
Definition scope_enter : ST world unit :=
  p ← get_runtime rs_scope;
  _ ← st_raise_if (ps_active p) VllmContractError "vLLM CUDA epoch runtime pool is already active";
  let tag := if ps_epoch p =? 0 then initial_tag p else RUNTIME_EPOCH_TAG_PREFIX ++ str_of_Z (ps_epoch p) in
  context ← use_memory_pool tag;
  set_runtime (λ s, let p := rs_scope s in
    set_scope (PoolScope (initial_tag p) (Some context) true (ps_epoch p + 1) (ps_tags p ++ [tag]) (ps_activates p)) s).
Definition scope_exit (failed : bool) : ST world unit :=
  p ← get_runtime rs_scope;
  match ps_context p with
  | Some context =>
      _ ← st_raise_if (negb (ps_active p)) VllmContractError "vLLM CUDA epoch runtime pool is not active";
      _ ← set_runtime (set_scope (PoolScope (initial_tag p) None false (ps_epoch p) (ps_tags p) (ps_activates p)));
      exit_pool context failed
  | None => lift (Raise (Exn VllmContractError "vLLM CUDA epoch runtime pool is not active"))
  end.

(** ** The runner *)

(** [_runner], [_runner_kind], [_cuda_device_index] *)
Definition live_runner : ST world vllm_runner :=
  r ← get_runtime rs_runner; lift (of_option VllmContractError "vLLM CUDA epoch runner was destroyed" r).
Definition runner_kind (r : vllm_runner) : res pystr :=
  match rn_kind r with
  | Some kind => if bool_decide (kind ∈ [RUNNER_V1; RUNNER_V2]) then Ok kind
                 else if rn_has_v1_fields r then Ok RUNNER_V1 else Raise (Exn VllmContractError "vLLM runner has no admitted CUDA epoch kind")
  | None => if rn_has_v1_fields r then Ok RUNNER_V1 else Raise (Exn VllmContractError "vLLM runner has no admitted CUDA epoch kind")
  end.
(** [isdecimal] is that of ASCII digits here. *)
Definition cuda_device_index (d : runner_device) : res Z :=
  match d with
  | DeviceIndex n => Ok n
  | DeviceName s => of_option VllmContractError "CUDA epoch runner device must have an explicit index"
      (if starts_with (lit "cuda:") s then
         let suffix := drop 5 s in if negb (bool_decide (suffix = [])) && forallb is_digit suffix then py_int suffix else None
       else None)
  | DeviceObject index => of_option VllmContractError "CUDA epoch runner device must have an explicit index" index
  end.

(** [_quiescent_v1_runner], [_quiescent_v2_runner], [_quiescent_runner] *)
Definition quiescent_v1_runner (r : vllm_runner) : ST world unit :=
  _ ← st_raise_if (rn_request_generators r) VllmContractError "CUDA epoch does not yet reconstruct per-request CUDA generators";
  _ ← st_raise_if (rn_batch_generators r) VllmContractError "CUDA epoch does not yet reconstruct input-batch CUDA generators";
  set_runtime (set_runner (Runner (rn_kind r) (rn_has_v1_fields r) (rn_device r) (rn_request_generators r) (rn_batch_generators r) false
    (rn_capacity r) (rn_copy_event r) (rn_execute_model_state r) (rn_kv_connector_output r) (rn_encoder_cache r))).
Definition drain_capacity (r : vllm_runner) : ST world unit :=
  match rn_capacity r with
  | Some (true, can_flush) =>
      _ ← st_raise_if (negb can_flush) VllmContractError "CUDA epoch DSpark capacity manager cannot drain its pending copy";
      pending ← call_torch DrainCapacity;
      _ ← set_runtime (set_runner (Runner (rn_kind r) (rn_has_v1_fields r) (rn_device r) (rn_request_generators r) (rn_batch_generators r) (rn_batch_copies r)
        (Some (negb (pending =? 0), can_flush)) (rn_copy_event r) (rn_execute_model_state r) (rn_kv_connector_output r) (rn_encoder_cache r)));
      st_raise_if (negb (pending =? 0)) VllmContractError "CUDA epoch DSpark capacity copy remained pending after drain"
  | _ => mret tt
  end.
Definition quiescent_v2_runner (r : vllm_runner) : ST world unit :=
  _ ← drain_capacity r;
  event ← lift (of_option VllmContractError "CUDA epoch DSpark draft copy event is absent" (rn_copy_event r));
  _ ← call_torch (SynchronizeEvent event);
  mret tt.
Definition quiescent_runner (r : vllm_runner) : ST world unit :=
  kind ← lift (runner_kind r);
  _ ← (if bool_decide (kind = RUNNER_V2) then quiescent_v2_runner r else quiescent_v1_runner r);
  _ ← st_raise_if (rn_execute_model_state r) VllmContractError "CUDA epoch requires runner execute_model_state to be empty";
  _ ← st_raise_if (rn_kv_connector_output r) VllmContractError "CUDA epoch requires runner kv_connector_output to be empty";
  st_raise_if (match rn_encoder_cache r with Some n => negb (n =? 0)%nat | None => false end) VllmContractError
    "CUDA epoch requires an empty multimodal encoder cache".

(** [_activate_cuda_execution_thread]; tracing of allocations is left out. *)
Definition activate_cuda_execution_thread (r : vllm_runner) : ST world unit :=
  p ← get_runtime rs_scope;
  _ ← st_raise_if (negb (ps_active p)) VllmContractError "vLLM CUDA execution reached an inactive epoch pool";
  _ ← call_torch TorchSetDevice;
  _ ← call_torch SetDefaultStream;
  _ ← (if ps_activates p then index ← lift (cuda_device_index (rn_device r)); _ ← call_torch (ActivateNative index); mret tt else mret tt);
  set_runtime (set_generation (ps_epoch p)).

(** ** Resources *)

Definition is_list_kind (k : resource_kind) : bool := match k with CudaStreamList | CudaEventList => true | _ => false end.
(** The list that a recipe names, when it still has its length. *)
Definition resource_list (recipe : resource_recipe) (s : runtime_state) : option (nat * list (option nat)) :=
  i ← rr_target recipe;
  l ← rs_lists s !! i;
  if Z.of_nat (length l) =? rr_count recipe then Some (i, l) else None.
(** [_resource_target] *)
Definition resource_target (recipe : resource_recipe) : option nat * pystr := (rr_target recipe, default (rr_name recipe) (rr_attribute recipe)).
Definition set_attribute (key : option nat * pystr) (v : option nat) : ST world unit := set_runtime (λ s, set_attributes (<[ key := v ]> (rs_attributes s)) s).
(** [_clear_resource] *)
Definition clear_resource (recipe : resource_recipe) : ST world unit :=
  if is_list_kind (rr_kind recipe) then
    found ← get_runtime (resource_list recipe);
    '(i, l) ← lift (of_option VllmContractError "CUDA epoch resource list changed before reset" found);
    set_runtime (set_list i (replicate (length l) None))
  else match rr_kind recipe with
       | CudaCurrentStream =>
           _ ← st_raise_if (negb (has_dict (rr_target recipe))) VllmContractError "CUDA epoch cached stream owner has no dictionary";
           set_runtime (λ s, set_attributes (delete (resource_target recipe) (rs_attributes s)) s)
       | _ => set_attribute (resource_target recipe) None
       end.
(** [\[torch.cuda.Stream(...) for _ in range(count)\]] *)
Fixpoint new_objects (c : torch_call) (n : nat) : ST world (list (option nat)) :=
  match n with
  | O => mret []
  | S n => object ← call_torch c; rest ← new_objects c n; mret (Some (Z.to_nat object) :: rest)
  end.
(** [_rebuild_resource] *)
Definition rebuild_list (c : torch_call) (message : string) (recipe : resource_recipe) : ST world unit :=
  found ← get_runtime (resource_list recipe);
  '(i, l) ← lift (of_option VllmContractError message found);
  objects ← new_objects c (length l);
  set_runtime (set_list i objects).
Definition rebuild_resource (recipe : resource_recipe) : ST world unit :=
  let install c := object ← call_torch c; set_attribute (resource_target recipe) (Some (Z.to_nat object)) in
  match rr_kind recipe with
  | CudaStreamList => rebuild_list NewStream "CUDA epoch stream list changed while reset" recipe
  | CudaEventList => rebuild_list (NewEvent false) "CUDA epoch event list changed while reset" recipe
  | CudaStream => install NewStream
  | CudaCurrentStream => install CurrentStream
  | CudaEvent => install (NewEvent (rr_blocking recipe))
  | TorchEvent => install NewTorchEvent
  | OtherResource _ => lift (Raise (Exn VllmContractError "unknown CUDA epoch resource kind"))
  end.
(** [_PinnedWorkspaceRecipe.rehydrate] of the workspace [i] *)
Definition rehydrate (i : nat) : ST world unit :=
  found ← get_runtime (λ s, rs_workspaces s !! i);
  match found with
  | None => mret tt
  | Some x =>
      _ ← st_raise_if (pw_rehydrated x) VllmContractError "CUDA epoch workspace was already rehydrated";
      current ← get_runtime (λ s, mjoin (rs_attributes s !! (Some (pw_owner x), pw_attribute x)));
      _ ← st_raise_if (negb (bool_decide (current = pw_pageable x))) VllmContractError "CUDA epoch workspace changed while CUDA was reset";
      pinned ← call_torch (PinnedCopy (default 0%nat (pw_pageable x)) (pw_bytes x));
      _ ← set_attribute (Some (pw_owner x), pw_attribute x) (Some (Z.to_nat pinned));
      set_runtime (set_workspace i (Workspace (pw_owner x) (pw_owner_type x) (pw_attribute x) None (pw_bytes x) true))
  end.

(** ** The runtime *)

(** [VllmCudaRuntime.seal] *)
Definition runtime_seal : ST world unit :=
  sealed ← get_runtime rs_sealed;
  _ ← st_raise_if sealed VllmContractError "vLLM CUDA epoch runtime is already sealed";
  r ← live_runner;
  _ ← quiescent_runner r;
  _ ← scope_exit false;
  set_runtime (set_sealed true).
Definition require_sealed (message : string) : ST world unit :=
  bad ← get_runtime (λ s, negb (rs_sealed s) || ps_active (rs_scope s));
  st_raise_if bad VllmContractError message.
(** [VllmCudaRuntime.prepare_reset] *)
Definition runtime_prepare_reset : ST world unit :=
  r ← live_runner;
  _ ← quiescent_runner r;
  _ ← require_sealed "vLLM CUDA epoch runtime pool was not sealed before reset";
  _ ← live_runner;
  _ ← st_iter clear_resource resources;
  b12x ← call_torch B12xReset;
  kernels ← call_torch TritonKernels;
  functions ← call_torch TritonFunctions;
  autotuners ← call_torch TritonAutotuners;
  _ ← set_runtime (λ s, set_caches (kernels, functions, autotuners) (rs_compiler_reset s) (negb (b12x =? 0) || rs_b12x_reset s) s);
  _ ← call_torch CompilerReset;
  _ ← set_runtime (λ s, set_caches (rs_triton s) true (rs_b12x_reset s) s);
  _ ← call_torch GcCollect;
  _ ← call_torch HostEmptyCache;
  mret tt.
(** What [VllmCudaRuntime.rebuild] does inside the new pool *)
Definition rebuild_inside (r : vllm_runner) : ST world unit :=
  _ ← activate_cuda_execution_thread r;
  workspaces ← get_runtime rs_workspaces;
  _ ← st_iter rehydrate (seq 0 (length workspaces));
  _ ← st_iter rebuild_resource resources;
  set_runtime (set_sealed false).
(** [VllmCudaRuntime.rebuild]; an error of the exit replaces the one that led to it. *)
Definition runtime_rebuild : ST world unit :=
  r ← live_runner;
  _ ← quiescent_runner r;
  _ ← require_sealed "vLLM CUDA epoch runtime must be sealed before rebuild";
  _ ← set_runtime (λ s, let p := rs_scope s in set_scope (PoolScope (initial_tag p) (ps_context p) (ps_active p) (ps_epoch p) (ps_tags p) true) s);
  index ← lift (cuda_device_index (rn_device r));
  _ ← call_torch (ActivateNative index);
  _ ← scope_enter;
  st_except (rebuild_inside r) (λ _, true) (λ e, _ ← scope_exit true; lift (Raise e)).
(** [VllmCudaRuntime.inventory] *)
Definition runtime_inventory (w : world) : res json :=
  let s := (w_device w).2 in
  let '(storages, bytes, outputs, output_bytes) := captured in
  let '(kernels, functions, autotuners) := rs_triton s in
  Ok (JObj [
    (lit "resource_names", JArr (JStr ∘ rr_name <$> resources)); (lit "resource_count", JInt (Z.of_nat (length resources)));
    (lit "cuda_storage_count", JInt storages); (lit "cuda_storage_bytes", JInt bytes); (lit "pinned_cpu_storage_count", JInt 0);
    (lit "dehydrated_pinned_workspace_count", JInt (Z.of_nat (length (rs_workspaces s))));
    (lit "dehydrated_pinned_workspace_bytes", JInt (zsum (pw_bytes <$> rs_workspaces s)));
    (lit "dehydrated_pinned_workspace_owners", JArr (JStr ∘ pw_owner_type <$> rs_workspaces s));
    (lit "released_async_output_count", JInt outputs); (lit "released_async_output_pinned_bytes", JInt output_bytes);
    (lit "runtime_pool_active", JBool (ps_active (rs_scope s))); (lit "runtime_pool_tags", JArr (JStr <$> ps_tags (rs_scope s)));
    (lit "sealed", JBool (rs_sealed s));
    (lit "triton_kernel_count", JInt kernels); (lit "triton_function_count", JInt functions); (lit "triton_autotuner_count", JInt autotuners);
    (lit "compiler_cache_reset", JBool (rs_compiler_reset s)); (lit "b12x_cache_reset", JBool (rs_b12x_reset s))]).

Definition vllm_cuda_runtime : epoch_runtime (D * runtime_state) := Runtime _ runtime_seal runtime_prepare_reset runtime_rebuild runtime_inventory.
End runtime.

(** ** What the runtime keeps *)

Section spec.
Context {D : Type} (torch : torch_call → D → res Z * D).
Notation world := (world (D * runtime_state)).
Context (use_memory_pool : pystr → ST world nat) (exit_pool : nat → bool → ST world unit) (has_dict : option nat → bool).
Context (resources : list resource_recipe) (captured : Z * Z * Z * Z).
Notation runtime_of w := (snd (w_device w)).
Notation call_torch := (call_torch torch).
Notation clear_resource := (clear_resource (D := D) has_dict).

(** Neither the allocator's objects nor the pool nor the seal change. *)
Definition held (w w' : world) : Prop :=
  w_objects w' = w_objects w ∧ rs_scope (runtime_of w') = rs_scope (runtime_of w) ∧ rs_sealed (runtime_of w') = rs_sealed (runtime_of w).
Definition Holds {A} (m : ST world A) : Prop := ∀ w r w', m w = (r, w') → held w w'.
Lemma held_refl w : held w w.
Proof. done. Qed.
Lemma held_trans w1 w2 w3 : held w1 w2 → held w2 w3 → held w1 w3.
Proof. intros (? & ? & ?) (? & ? & ?). split_and!; congruence. Qed.
Lemma holds_lift {A} (r : res A) : Holds (lift r).
Proof. by intros w r' w' [= <- <-]. Qed.
Lemma holds_ret {A} (a : A) : Holds (mret a).
Proof. by intros w r' w' [= <- <-]. Qed.
Lemma holds_guard b c m : Holds (st_raise_if b c m).
Proof. apply holds_lift. Qed.
Lemma holds_get {A} (f : runtime_state → A) : Holds (get_runtime f).
Proof. by intros w r' w' [= <- <-]. Qed.
Lemma holds_set f : (∀ s, rs_scope (f s) = rs_scope s ∧ rs_sealed (f s) = rs_sealed s) → Holds (set_runtime f).
Proof. intros Hf w r' w' [= <- <-]. split; [done|]. apply Hf. Qed.
Lemma holds_torch c : Holds (call_torch c).
Proof.
  intros w r w' E. unfold CudaRuntime.call_torch, on_device in E. destruct (w_device w) as [d s] eqn:Ed. destruct (torch c d). injection E as <- <-.
  unfold held. cbn. by rewrite Ed.
Qed.
Lemma holds_bind {A B} (m : ST world A) (k : A → ST world B) : Holds m → (∀ a, Holds (k a)) → Holds (m ≫= k).
Proof.
  intros Hm Hk w r w' E. unfold mbind, st_bind in E. destruct (m w) as [[a|e] w1] eqn:E1; [|injection E as <- <-; by eapply Hm].
  eapply held_trans; [by eapply Hm|by eapply Hk].
Qed.
Lemma holds_iter {X} (f : X → ST world unit) l : (∀ x, Holds (f x)) → Holds (st_iter f l).
Proof. intros Hf. induction l; cbn [st_iter]; [apply holds_ret|by apply holds_bind]. Qed.
#[local] Hint Resolve holds_lift holds_ret holds_guard holds_get holds_torch holds_iter : runtime.
#[local] Hint Extern 1 (Holds (set_runtime _)) => (by apply holds_set) : runtime.
Ltac holds := intros; repeat (match goal with |- Holds (_ ≫= _) => apply holds_bind; [|intros ?] end || (progress eauto with runtime) || case_match).

Lemma holds_runner : Holds live_runner.
Proof. unfold live_runner. holds. Qed.
Lemma holds_quiescent r : Holds (quiescent_runner torch r).
Proof.
  unfold quiescent_runner. apply holds_bind; [holds|]. intros kind. apply holds_bind; [|holds]. case_match.
  - unfold quiescent_v2_runner, drain_capacity. apply holds_bind; [|holds]. destruct (rn_capacity r) as [[[] ?]|]; holds.
  - unfold quiescent_v1_runner. holds.
Qed.
Lemma holds_attribute key v : Holds (set_attribute (D := D) key v).
Proof. by apply holds_set. Qed.
Lemma holds_clear recipe : Holds (clear_resource recipe).
Proof.
  unfold CudaRuntime.clear_resource. destruct (is_list_kind _); [apply holds_bind; [holds|]; intros found; apply holds_bind; [holds|]; intros [i l]; holds|].
  destruct (rr_kind recipe); try apply holds_attribute. holds.
Qed.
Lemma holds_new c n : Holds (new_objects torch c n).
Proof. induction n; cbn [new_objects]; holds. Qed.
Lemma holds_rebuild_list c m recipe : Holds (rebuild_list torch c m recipe).
Proof.
  unfold rebuild_list. apply holds_bind; [holds|]. intros found. apply holds_bind; [holds|]. intros [i l]. apply holds_bind; [apply holds_new|holds].
Qed.
Lemma holds_rebuild recipe : Holds (rebuild_resource torch recipe).
Proof.
  unfold rebuild_resource. destruct (rr_kind recipe); try apply holds_rebuild_list; try (apply holds_bind; [holds|intros ?; apply holds_attribute]). holds.
Qed.
Lemma holds_rehydrate i : Holds (rehydrate torch i).
Proof.
  unfold rehydrate. apply holds_bind; [holds|]. intros [x|]; [|holds]. do 4 (apply holds_bind; [holds|]; intros ?). apply holds_bind; [apply holds_attribute|holds].
Qed.
Lemma holds_activate r : Holds (activate_cuda_execution_thread torch r).
Proof. unfold activate_cuda_execution_thread. do 4 (apply holds_bind; [holds|]; intros ?). apply holds_bind; [case_match; holds|holds]. Qed.
Lemma holds_sealed m : Holds (require_sealed (D := D) m).
Proof. unfold require_sealed. holds. Qed.
Lemma holds_prepare : Holds (runtime_prepare_reset torch has_dict resources).
Proof.
  unfold runtime_prepare_reset. apply holds_bind; [apply holds_runner|]. intros r. apply holds_bind; [apply holds_quiescent|]. intros _.
  apply holds_bind; [apply holds_sealed|]. intros _. apply holds_bind; [apply holds_runner|]. intros _. apply holds_bind; [apply holds_iter, holds_clear|holds].
Qed.

(** A step that may raise. *)
Lemma st_step {A B} (m : ST world A) (k : A → ST world B) w r w' : (m ≫= k) w = (r, w') →
  (∃ e, m w = (Raise e, w') ∧ r = Raise e) ∨ ∃ a w1, m w = (Ok a, w1) ∧ k a w1 = (r, w').
Proof. unfold mbind, st_bind. destruct (m w) as [[a|e] w1]; [right; eauto|]. intros [= <- <-]. left. eauto. Qed.

(** What happens inside the pool changes the seal at the very end, if all went well. *)
Lemma inside_run r w o w' : rebuild_inside torch resources r w = (o, w') →
  w_objects w' = w_objects w ∧ rs_scope (runtime_of w') = rs_scope (runtime_of w)
  ∧ rs_sealed (runtime_of w') = (if is_ok o then false else rs_sealed (runtime_of w)).
Proof.
  unfold rebuild_inside. intros E. apply st_step in E as [(e & E & ->)|([] & w1 & E1 & E)]; [by apply holds_activate in E|]. apply holds_activate in E1 as (? & ? & ?).
  apply st_step in E as [(e & [=] & _)|(l & w2 & [= <- <-] & E)].
  apply st_step in E as [(e & E & ->)|([] & w3 & E3 & E)]; [apply (holds_iter _ _ holds_rehydrate) in E as (? & ? & ?); cbn; split_and!; congruence|].
  apply (holds_iter _ _ holds_rehydrate) in E3 as (? & ? & ?).
  apply st_step in E as [(e & E & ->)|([] & w4 & E4 & E)]; [apply (holds_iter _ _ holds_rebuild) in E as (? & ? & ?); cbn; split_and!; congruence|].
  apply (holds_iter _ _ holds_rebuild) in E4 as (? & ? & ?). injection E as <- <-. cbn. split_and!; congruence.
Qed.

(** ** The contract of an epoch *)

(** vLLM's pools leave alone what the runtime holds; opening one makes no allocation. *)
Record pools_quiet : Prop := {
  pq_enter : ∀ tag w c w', use_memory_pool tag w = (Ok c, w') → w_objects w' = w_objects w;
  pq_enter_runtime : ∀ tag w r w', use_memory_pool tag w = (r, w') → runtime_of w' = runtime_of w;
  pq_exit_runtime : ∀ c b w r w', exit_pool c b w = (r, w') → runtime_of w' = runtime_of w;
}.
Hypothesis quiet : pools_quiet.

Lemma enter_run w o w' : scope_enter use_memory_pool w = (o, w') → rs_sealed (runtime_of w') = rs_sealed (runtime_of w)
  ∧ match o with
    | Ok _ => w_objects w' = w_objects w ∧ ps_active (rs_scope (runtime_of w')) = true ∧ is_Some (ps_context (rs_scope (runtime_of w')))
        ∧ ps_epoch (rs_scope (runtime_of w')) = ps_epoch (rs_scope (runtime_of w)) + 1
    | Raise _ => rs_scope (runtime_of w') = rs_scope (runtime_of w)
    end.
Proof.
  unfold scope_enter. intros E. apply st_step in E as [(? & [=] & _)|(p & w1 & [= <- <-] & E)].
  apply st_step in E as [(e & E & ->)|([] & w1 & E1 & E)]; [by apply holds_guard in E as (_ & ? & ?)|]. apply holds_guard in E1 as (Ho1 & Hp1 & Hs1).
  apply st_step in E as [(e & E & ->)|(context & w2 & E2 & [= <- <-])]; [apply (pq_enter_runtime quiet) in E as ->; by split|].
  pose proof (pq_enter quiet _ _ _ _ E2) as Ho2. apply (pq_enter_runtime quiet) in E2. cbn. rewrite E2, Hp1. split_and!; first [done|congruence|by eexists].
Qed.
Lemma exit_run b w o w' : scope_exit exit_pool b w = (o, w') → is_Some (ps_context (rs_scope (runtime_of w))) → ps_active (rs_scope (runtime_of w)) = true →
  rs_sealed (runtime_of w') = rs_sealed (runtime_of w) ∧ ps_active (rs_scope (runtime_of w')) = false.
Proof.
  unfold scope_exit. intros E [context Hc] Ha. apply st_step in E as [(? & [=] & _)|(p & w1 & [= <- <-] & E)]. rewrite Hc, Ha in E.
  apply st_step in E as [(? & [=] & _)|([] & w1 & [= <-] & E)]. apply st_step in E as [(? & [=] & _)|([] & w1 & [= <-] & E)].
  apply (pq_exit_runtime quiet) in E as ->. done.
Qed.

(** The checks of [rebuild], up to the new pool, leave seal and pool as they are. *)
Definition rebuild_checks : ST world vllm_runner :=
  r ← live_runner;
  _ ← quiescent_runner torch r;
  _ ← require_sealed "vLLM CUDA epoch runtime must be sealed before rebuild";
  _ ← set_runtime (λ s, let p := rs_scope s in set_scope (PoolScope (initial_tag p) (ps_context p) (ps_active p) (ps_epoch p) (ps_tags p) true) s);
  index ← lift (cuda_device_index (rn_device r));
  _ ← call_torch (ActivateNative index);
  mret r.
Lemma rebuild_eq w : runtime_rebuild torch use_memory_pool exit_pool resources w
  = (r ← rebuild_checks; _ ← scope_enter use_memory_pool;
     st_except (rebuild_inside torch resources r) (λ _, true) (λ e, _ ← scope_exit exit_pool true; lift (Raise e))) w.
Proof.
  unfold runtime_rebuild, rebuild_checks, mbind, st_bind. repeat (case_match; simplify_eq; try done).
Qed.
Lemma checks_run w o w' : rebuild_checks w = (o, w') →
  w_objects w' = w_objects w ∧ rs_sealed (runtime_of w') = rs_sealed (runtime_of w)
  ∧ ps_active (rs_scope (runtime_of w')) = ps_active (rs_scope (runtime_of w)) ∧ ps_epoch (rs_scope (runtime_of w')) = ps_epoch (rs_scope (runtime_of w))
  ∧ (is_ok o = true → rs_sealed (runtime_of w) = true ∧ ps_active (rs_scope (runtime_of w)) = false).
Proof.
  unfold rebuild_checks. intros E.
  apply st_step in E as [(e & E & ->)|(r & w1 & E1 & E)]; [apply holds_runner in E as (? & -> & ?); done|]. apply holds_runner in E1 as (Ho1 & Hp1 & Hs1).
  apply st_step in E as [(e & E & ->)|([] & w2 & E2 & E)]; [apply holds_quiescent in E as (? & -> & ?); split_and!; first [congruence|done]|]. apply holds_quiescent in E2 as (Ho2 & Hp2 & Hs2).
  apply st_step in E as [(e & E & ->)|([] & w3 & E3 & E)]; [apply holds_sealed in E as (? & -> & ?); split_and!; first [congruence|done]|].
  assert (rs_sealed (runtime_of w) = true ∧ ps_active (rs_scope (runtime_of w)) = false) as Hok.
  { unfold require_sealed in E3. apply st_bind_Ok in E3 as (bad & w4 & [= <- <-] & E3). apply st_raise_if_Ok in E3 as [E3 _].
    apply orb_false_iff in E3 as [H1%negb_false_iff H2]. split; congruence. }
  apply holds_sealed in E3 as (Ho3 & Hp3 & Hs3). apply st_step in E as [(? & [=] & _)|([] & w4 & [= <-] & E)].
  match type of E with ?m _ = _ => assert (Holds m) as Hm by holds end. apply Hm in E as (Ho & Hp & Hs). cbn in Ho, Hp, Hs. rewrite Hp. cbn. split_and!; first [congruence|done].
Qed.

(** A rebuild that returns has opened the next pool and lifted the seal; one that raises leaves
    the runtime sealed and the pool closed, so that nothing allocates in a half-built context. *)
Lemma rebuild_run w o w' : runtime_rebuild torch use_memory_pool exit_pool resources w = (o, w') →
  match o with
  | Ok _ => w_objects w' = w_objects w ∧ rs_sealed (runtime_of w') = false ∧ ps_active (rs_scope (runtime_of w')) = true
      ∧ ps_epoch (rs_scope (runtime_of w')) = ps_epoch (rs_scope (runtime_of w)) + 1
  | Raise _ => rs_sealed (runtime_of w') = rs_sealed (runtime_of w) ∧ ps_active (rs_scope (runtime_of w')) = ps_active (rs_scope (runtime_of w))
  end.
Proof.
  rewrite rebuild_eq. intros E. apply st_step in E as [(e & E & ->)|(r & w1 & E1 & E)]; [by apply checks_run in E as (_ & ? & ? & _)|].
  apply checks_run in E1 as (Ho1 & Hs1 & Ha1 & He1 & Hok). destruct (Hok eq_refl) as [Hs Ha].
  apply st_step in E as [(e & E & ->)|([] & w2 & E2 & E)]; [apply enter_run in E as [? ->]; split; congruence|]. apply enter_run in E2 as (Hs2 & Ho2 & Ha2 & Hc2 & He2).
  unfold st_except in E. destruct (rebuild_inside torch resources r w2) as [[[]|e] w3] eqn:Ei; apply inside_run in Ei as (Ho & Hp & Hsl); cbn [is_ok] in Hsl.
  - injection E as <- <-. rewrite Hp. split_and!; congruence.
  - assert (∃ o', scope_exit exit_pool true w3 = (o', w') ∧ ∃ e', o = Raise e') as (o' & Ex & e' & ->).
    { apply st_step in E as [(e2 & E & ->)|([] & w4 & E4 & [= <- <-])]; eauto. }
    apply exit_run in Ex as [? ?]; [|by rewrite Hp..]. split; congruence.
Qed.
Theorem rebuild_exception_safe w o w' : runtime_rebuild torch use_memory_pool exit_pool resources w = (o, w') →
  rs_sealed (runtime_of w) = true → ps_active (rs_scope (runtime_of w)) = false →
  rs_sealed (runtime_of w') = negb (is_ok o) ∧ ps_active (rs_scope (runtime_of w')) = is_ok o.
Proof. intros E%rebuild_run Hs Ha. destruct o; cbn; [by destruct E as (_ & ? & ? & _)|]. destruct E. split; congruence. Qed.

(** A resource without its object. *)
Definition cleared (s : runtime_state) (recipe : resource_recipe) : Prop :=
  if is_list_kind (rr_kind recipe) then ∃ i, rr_target recipe = Some i ∧ rs_lists s !! i = Some (replicate (Z.to_nat (rr_count recipe)) None)
  else mjoin (rs_attributes s !! resource_target recipe) = None.
Lemma clear_clears recipe w w' : clear_resource recipe w = (Ok tt, w') → cleared (runtime_of w') recipe ∧ ∀ other, cleared (runtime_of w) other → cleared (runtime_of w') other.
Proof.
  unfold CudaRuntime.clear_resource, cleared. destruct (is_list_kind (rr_kind recipe)) eqn:Hk.
  - intros E. apply st_bind_Ok in E as (found & w1 & [= <- <-] & E). apply st_bind_Ok in E as ([i l] & w1 & E1 & E). apply lift_Ok in E1 as [Hf%of_option_Ok ->].
    injection E as <-. cbn. unfold resource_list in Hf. destruct (rr_target recipe) as [i'|]; [|done]. cbn in Hf. destruct (rs_lists _ !! i') as [l'|] eqn:El; [|done]. cbn in Hf.
    destruct (Z.eqb_spec (Z.of_nat (length l')) (rr_count recipe)) as [Hn|]; [|done]. injection Hf as -> ->.
    split; [exists i; split; [done|]; rewrite lookup_insert_eq; do 2 f_equal; lia|]. intros other. destruct (is_list_kind (rr_kind other)); [|done].
    intros (j & Hj & Hl). exists j. split; [done|]. destruct (decide (j = i)) as [->|]; [|by rewrite lookup_insert_ne].
    rewrite lookup_insert_eq. rewrite El in Hl. injection Hl as ->. by rewrite length_replicate.
  - assert (∀ a : gmap (option nat * pystr) (option nat), mjoin (a !! resource_target recipe) = None → (∀ k, k ≠ resource_target recipe → a !! k = rs_attributes (runtime_of w) !! k) →
      ∀ other, cleared (runtime_of w) other → if is_list_kind (rr_kind other) then ∃ i, rr_target other = Some i ∧ rs_lists (runtime_of w) !! i = Some (replicate (Z.to_nat (rr_count other)) None)
        else mjoin (a !! resource_target other) = None) as Hkeep.
    { intros a Ha Hne other. unfold cleared. destruct (is_list_kind (rr_kind other)); [done|]. destruct (decide (resource_target other = resource_target recipe)) as [->|]; [done|]. by rewrite Hne. }
    assert (clear_resource recipe w = (Ok tt, w') → ∃ a : gmap (option nat * pystr) (option nat), w' = set_device ((w_device w).1, set_attributes a (runtime_of w)) w
      ∧ mjoin (a !! resource_target recipe) = None ∧ ∀ k, k ≠ resource_target recipe → a !! k = rs_attributes (runtime_of w) !! k) as Hrun.
    { unfold CudaRuntime.clear_resource. rewrite Hk. destruct (rr_kind recipe); try done.
      2: { intros E. apply st_bind_Ok in E as ([] & w1 & E1 & [= <-]). apply st_raise_if_Ok in E1 as [_ ->]. eexists. split; [done|]. split; [by rewrite lookup_delete_eq|]. intros. by rewrite lookup_delete_ne. }
      all: intros [= <-]; eexists; (split; [done|]); (split; [by rewrite lookup_insert_eq|]); intros; by rewrite lookup_insert_ne. }
    unfold CudaRuntime.clear_resource in Hrun. rewrite Hk in Hrun. intros (a & -> & Ha & Hne)%Hrun. cbn. split; [done|]. by apply Hkeep.
Qed.
(** A process that is ready for a reset holds no stream and no event of the old context. *)
Theorem prepare_clears w w' : runtime_prepare_reset torch has_dict resources w = (Ok tt, w') → Forall (cleared (runtime_of w')) resources.
Proof.
  unfold runtime_prepare_reset. intros E. do 4 (apply st_bind_Ok in E as (? & ? & _ & E)). apply st_bind_Ok in E as ([] & w1 & Ec & E).
  assert (Forall (cleared (runtime_of w1)) resources) as Hc.
  { clear E. match type of Ec with st_iter _ _ ?w0 = _ => revert w0 Ec end. induction resources as [|recipe l IH]; intros w0 Ec; cbn [st_iter] in Ec; [constructor|].
    apply st_bind_Ok in Ec as ([] & w2 & E2 & Ec). apply clear_clears in E2 as [Hr _]. constructor; [|by eapply IH].
    clear IH. revert w2 Ec Hr. induction l as [|y l IH]; intros w2 Ec Hr; cbn [st_iter] in Ec; [by injection Ec as <-|].
    apply st_bind_Ok in Ec as ([] & w3 & E3 & Ec). apply clear_clears in E3 as [_ Hk]. by eapply IH, Hk. }
  assert (∀ c u z u', call_torch c u = (Ok z, u') → runtime_of u' = runtime_of u) as Ht.
  { intros c u z u' Et. unfold CudaRuntime.call_torch, on_device in Et. destruct (w_device u) as [d st] eqn:Ed. destruct (torch c d). by injection Et as _ <-. }
  do 4 (apply st_bind_Ok in E as (? & ? & ?%Ht & E)). apply st_bind_Ok in E as ([] & w2 & [= <-] & E). apply st_bind_Ok in E as (? & w3 & ?%Ht & E).
  apply st_bind_Ok in E as ([] & w4 & [= <-] & E). do 2 (apply st_bind_Ok in E as (? & ? & ?%Ht & E)). injection E as <-.
  eapply Forall_impl; [exact Hc|]. intros recipe. unfold cleared. cbn in *.
  repeat match goal with H : runtime_of _ = _ |- _ => rewrite H; clear H; cbn end. done.
Qed.

(** The runtime of the worker is one an epoch can carry bytes across. *)
Theorem vllm_runtime_keeps : runtime_keeps (Some (vllm_cuda_runtime torch use_memory_pool exit_pool has_dict resources captured)).
Proof. intros rt [= <-] w w' [E|E]; cbn in E; [by apply holds_prepare in E as [? _]|by apply rebuild_run in E as [? _]]. Qed.
End spec.
