(* ===== verification/CheckpointCtl.v ===== *)
(** * Probing CUDA process checkpoints ([runtime/shared/checkpointctl.py])

    The probe checkpoints and restores a disposable process it starts, asks it whether its
    device bytes survived, and cleans it up; the profile of a host adds the probes of
    exact-address mappings and of CUDA IPC. The driver, the child processes and their pipes
    are a host; times, error texts of the driver and host facts are left out. *)

From S2P Require Import Prelude Ranges PyFloat PyJson Hash Artifact.

(** ** Patterns and the target process *)

(** [_pattern] *)
Definition pattern_block : pybytes := (λ i : nat, Z.to_N (Z.land (Z.of_nat i * 31 + 7) 255)) <$> seq 0 4096.
Definition pattern (length : Z) : pybytes :=
  take (Z.to_nat length) (concat (replicate (Z.to_nat ((length + 4096 - 1) / 4096)) pattern_block)).

(** [bool(v)] of a decoded value *)
Definition truth (v : json) : bool :=
  match v with
  | JNull => false
  | JBool b => b
  | JInt z => negb (z =? 0)
  | JFloat f => match f with SpecFloat.S754_zero _ => false | _ => true end
  | JStr s => negb (bool_decide (s = []))
  | JArr l => match l with [] => false | _ => true end
  | JObj l => match l with [] => false | _ => true end
  end.

Section target.
Context {W : Type}.
(** [cuMemcpyDtoH_v2] of the buffer, with the synchronization after it *)
Variable copy_out : ST W pybytes.

Definition ready_reply (pid memory_bytes : Z) (expected : pystr) : json :=
  JObj [(lit "status", JStr (lit "ready")); (lit "pid", JInt pid); (lit "memory_bytes", JInt memory_bytes);
        (lit "expected_sha256", JStr expected)].
Definition verified_reply (actual expected : pystr) : json :=
  JObj [(lit "status", JStr (lit "verified")); (lit "actual_sha256", JStr actual); (lit "matches", JBool (bool_decide (actual = expected)))].

(** The command loop of [target]: the replies to the lines of standard input. [describe] is
    [f"{type(error).__name__}: {error}"]. *)
Fixpoint target_loop (describe : exn → pystr) (expected : pystr) (lines : list pystr) (w : W) : list json * W :=
  match lines with
  | [] => ([], w)
  | line :: lines =>
      let command := py_strip line in
      if bool_decide (command = lit "exit") then ([], w) else
      let '(reply, w) :=
        if bool_decide (command = lit "verify") then
          match copy_out w with
          | (Ok actual, w) => (verified_reply (hexdigest actual) expected, w)
          | (Raise e, w) => (JObj [(lit "status", JStr (lit "verify-failed")); (lit "error", JStr (describe e))], w)
          end
        else (JObj [(lit "status", JStr (lit "invalid-command"))], w) in
      let '(replies, w) := target_loop describe expected lines w in
      (reply :: replies, w)
  end.
End target.

(** ** Checkpoint operations *)

Inductive ckpt_op := GetState | Lock | Checkpoint | Restore | Unlock.
#[global] Instance ckpt_op_eq_dec : EqDecision ckpt_op.
Proof. solve_decision. Defined.

Definition CHECKPOINT_SYMBOLS : list string :=
  ["cuCheckpointProcessGetState"; "cuCheckpointProcessGetRestoreThreadId"; "cuCheckpointProcessLock";
   "cuCheckpointProcessCheckpoint"; "cuCheckpointProcessRestore"; "cuCheckpointProcessUnlock"]%string.

(** [STATE_NAMES] *)
Definition state_name (value : Z) : pystr :=
  if value =? 0 then lit "running" else if value =? 1 then lit "locked" else if value =? 2 then lit "checkpointed"
  else if value =? 3 then lit "failed" else lit "unknown-" ++ str_of_Z value.

(** What [operation] and [state] report. *)
Record op_result := OpResult { o_op : ckpt_op; o_code : Z; o_state : option pystr }.
#[global] Instance op_result_eq_dec : EqDecision op_result.
Proof. solve_decision. Defined.
Definition succeeded (r : op_result) : bool := o_code r =? 0.

Record ctl_host (W : Type) := CtlHost {
  load_cuda : W → res unit;                      (** [CUDA()] *)
  has_symbol : string → bool;
  cu_init : W → Z * W;                           (** [cuInit], and [cuDriverGetVersion] after it *)
  ckpt_call : ckpt_op → Z → W → Z * W;            (** the code of a checkpoint call *)
  state_value : W → Z;                           (** what [GetState] wrote *)
  spawn : W → Z * W;                             (** the disposable process *)
  readline : W → res pystr * W;                  (** [TimeoutError] when nothing arrives; empty at the end *)
  writeline : pystr → ST W unit;
  poll : W → option Z;
  wait : ST W unit;                              (** [TimeoutExpired] after five seconds *)
  terminate : W → W;
  kill : W → W;
}.
Arguments load_cuda {W}. Arguments has_symbol {W}. Arguments cu_init {W}. Arguments ckpt_call {W}. Arguments state_value {W}.
Arguments spawn {W}. Arguments readline {W}. Arguments writeline {W}. Arguments poll {W}. Arguments wait {W}. Arguments terminate {W}. Arguments kill {W}.

Record probe_report := Report {
  library_loaded : bool; symbols : list (string * bool); init_code : option Z; api_available : bool;
  roundtrip_supported : option bool; ready : option json; operations : option (list op_result);
  verification : option json; cleanup : list op_result; error : option exn;
}.

Section probe.
Context {W : Type} (h : ctl_host W).

Definition operation (op : ckpt_op) (pid : Z) : ST W op_result := λ w,
  let '(code, w) := ckpt_call h op pid w in (Ok (OpResult op code None), w).

(** [CUDA.state] *)
Definition state (pid : Z) : ST W op_result := λ w,
  let '(code, w) := ckpt_call h GetState pid w in
  (Ok (OpResult GetState code (if code =? 0 then Some (state_name (state_value h w)) else None)), w).

(** [_read_json_line] *)
Definition read_json_line : ST W (list (pystr * json)) :=
  line ← readline h;
  match line with
  | [] => lift (Raise (Exn RuntimeError "disposable CUDA process exited"))
  | _ =>
      value ← lift (of_option ValueError "invalid JSON" (loads line));
      match value with
      | JObj d => mret d
      | _ => lift (Raise (Exn RuntimeError "disposable CUDA process returned invalid JSON"))
      end
  end.

(** The first part of [_cleanup_target]: a checkpointed process is restored, a locked one
    unlocked. *)
Definition unwind_target (pid : Z) : ST W (list op_result) :=
  first ← state pid;
  if bool_decide (o_state first = Some (lit "checkpointed")) then
    restored ← operation Restore pid;
    second ← state pid;
    if bool_decide (o_state second = Some (lit "locked")) then
      unlocked ← operation Unlock pid;
      mret [first; restored; second; unlocked]
    else mret [first; restored; second]
  else if bool_decide (o_state first = Some (lit "locked")) then
    unlocked ← operation Unlock pid;
    mret [first; unlocked]
  else mret [first].

(** The second part: it is asked to exit, then terminated, then killed. *)
Definition stop_target : ST W unit :=
  st_except (_ ← writeline h (lit "exit"); wait h)
    (λ c, bool_decide (c ∈ [BrokenPipeError; TimeoutExpired]))
    (λ _, _ ← st_set (terminate h);
          st_except (wait h) (λ c, bool_decide (c = TimeoutExpired)) (λ _, _ ← st_set (kill h); wait h)).

(** [_cleanup_target] *)
Definition cleanup_target (pid : Z) : ST W (list op_result) :=
  polled ← st_get (poll h);
  match polled with
  | Some _ => mret []
  | None => log ← unwind_target pid; _ ← stop_target; mret log
  end.

(** The operations of the round trip, up to the first that fails. *)
Fixpoint roundtrip_operations (pid : Z) (ops : list ckpt_op) : ST W (list op_result) :=
  match ops with
  | [] => mret []
  | op :: ops =>
      value ← operation op pid;
      if negb (succeeded value) then mret [value] else
      s ← state pid;
      rest ← roundtrip_operations pid ops;
      mret (value :: s :: rest)
  end.

Definition states_of (l : list op_result) : list (option pystr) := o_state <$> filter (λ r, o_op r = GetState) l.
Definition expected_states : list (option pystr) :=
  Some <$> [lit "running"; lit "locked"; lit "checkpointed"; lit "locked"; lit "running"].

Definition set_report (f : probe_report → probe_report) : ST (W * probe_report) unit := st_set (λ '(w, r), (w, f r)).
Definition in_world {A} (m : ST W A) : ST (W * probe_report) A := λ '(w, r), let '(a, w) := m w in (a, (w, r)).

(** The [try] of [probe]; what it writes to the report stays when it raises. *)
Definition roundtrip (pid : Z) : ST (W * probe_report) unit :=
  reply ← in_world read_json_line;
  _ ← st_raise_if (negb (py_eq (default JNull (dict_get (lit "status") reply)) (JStr (lit "ready")))
        || negb (py_eq (default JNull (dict_get (lit "pid") reply)) (JInt pid))) RuntimeError "disposable CUDA process was not ready";
  _ ← set_report (λ r, Report (library_loaded r) (symbols r) (init_code r) (api_available r) (roundtrip_supported r) (Some (JObj reply))
        (operations r) (verification r) (cleanup r) (error r));
  first ← in_world (state pid);
  _ ← st_raise_if (negb (bool_decide (o_state first = Some (lit "running")))) RuntimeError "disposable CUDA process is not checkpointable";
  rest ← in_world (roundtrip_operations pid [Lock; Checkpoint; Restore; Unlock]);
  let ops := first :: rest in
  _ ← set_report (λ r, Report (library_loaded r) (symbols r) (init_code r) (api_available r) (roundtrip_supported r) (ready r)
        (Some ops) (verification r) (cleanup r) (error r));
  if forallb succeeded ops && bool_decide (states_of ops = expected_states) then
    _ ← in_world (writeline h (lit "verify"));
    reply ← in_world read_json_line;
    set_report (λ r, Report (library_loaded r) (symbols r) (init_code r) (api_available r)
      (Some (truth (default JNull (dict_get (lit "matches") reply)))) (ready r) (operations r) (Some (JObj reply)) (cleanup r) (error r))
  else
    set_report (λ r, Report (library_loaded r) (symbols r) (init_code r) (api_available r) (Some false) (ready r) (operations r)
      (verification r) (cleanup r) (error r)).

(** [probe] *)
Definition probe (requested : bool) : ST W probe_report := λ w,
  match load_cuda h w with
  | Raise e => if is_os_error (exc e) then (Ok (Report false [] None false None None None None [] (Some e)), w) else (Raise e, w)
  | Ok _ =>
      let found := (λ name, (name, has_symbol h name)) <$> CHECKPOINT_SYMBOLS in
      let '(code, w) := cu_init h w in
      let available := forallb snd found && (code =? 0) in
      let report := Report true found (Some code) available None None None None [] None in
      if negb requested || negb available then (Ok report, w) else
      let '(pid, w) := spawn h w in
      let '(outcome, (w, report)) := roundtrip pid (w, report) in
      let report :=
        match outcome with
        | Ok _ => report
        | Raise e => Report (library_loaded report) (symbols report) (init_code report) (api_available report) (Some false) (ready report)
                       (operations report) (verification report) (cleanup report) (Some e)
        end in
      (log ← cleanup_target pid;
       mret (Report (library_loaded report) (symbols report) (init_code report) (api_available report) (roundtrip_supported report)
               (ready report) (operations report) (verification report) log (error report))) w
  end.
End probe.

(** ** Features of a host *)

Inductive status := passed | unsupported | failed | unqualified.
#[global] Instance status_eq_dec : EqDecision status.
Proof. solve_decision. Defined.

(** [_feature_result]; a reason or failure phase that is empty is left out. *)
Record feature := Feature { f_id : string; f_status : status; f_reason : bool; f_phase : string }.

(** The driver calls of both feature probes. *)
Inductive vmm_call :=
| VInit | VDeviceGet | VPrimaryRetain | VCtxSetCurrent | VGranularity | VReserve (size hint : Z) | VAddressFree (address size : Z)
| VCreate (size : Z) | VRelease (handle : Z) | VMap (address size handle : Z) | VUnmap (address size : Z) | VSetAccess (address size : Z)
| VCopyIn (address : Z) (data : pybytes) | VCopyOut (address size : Z) | VSynchronize
| VAlloc (size : Z) | VFree (address : Z) | VIpcGetHandle (address : Z) | VIpcOpen (handle : pybytes) | VIpcClose (address : Z).

Definition symbol_of (c : vmm_call) : string :=
  match c with
  | VInit => "cuInit" | VDeviceGet => "cuDeviceGet" | VPrimaryRetain => "cuDevicePrimaryCtxRetain" | VCtxSetCurrent => "cuCtxSetCurrent"
  | VGranularity => "cuMemGetAllocationGranularity" | VReserve _ _ => "cuMemAddressReserve" | VAddressFree _ _ => "cuMemAddressFree"
  | VCreate _ => "cuMemCreate" | VRelease _ => "cuMemRelease" | VMap _ _ _ => "cuMemMap" | VUnmap _ _ => "cuMemUnmap"
  | VSetAccess _ _ => "cuMemSetAccess" | VCopyIn _ _ => "cuMemcpyHtoD_v2" | VCopyOut _ _ => "cuMemcpyDtoH_v2"
  | VSynchronize => "cuCtxSynchronize" | VAlloc _ => "cuMemAlloc_v2" | VFree _ => "cuMemFree_v2" | VIpcGetHandle _ => "cuIpcGetMemHandle"
  | VIpcOpen _ => "cuIpcOpenMemHandle_v2" | VIpcClose _ => "cuIpcCloseMemHandle"
  end%string.

Record vmm_host (W : Type) := VmmHost {
  v_load : W → res unit;
  v_has : string → bool;
  v_call : vmm_call → W → Z * W;
  v_granularity : W → Z; v_address : W → Z; v_handle : W → Z; v_data : W → pybytes; v_ipc_handle : W → pybytes;  (** outputs of the last call *)
  v_consumer : pybytes → Z → pystr → ST W (Z * pystr);   (** the process [_ipc_target]: exit code and standard output *)
}.
Arguments v_load {W}. Arguments v_has {W}. Arguments v_call {W}. Arguments v_granularity {W}. Arguments v_address {W}. Arguments v_handle {W}.
Arguments v_data {W}. Arguments v_ipc_handle {W}. Arguments v_consumer {W}.

Section features.
Context {W : Type} (h : vmm_host W).

(** The world, [address.value] (or [pointer.value]) and [phase]. *)
Record probing := Probing { p_world : W; p_address : Z; p_phase : string }.

Definition call_op (c : vmm_call) (s : probing) : Z * probing :=
  let '(code, w) := v_call h c (p_world s) in (code, Probing w (p_address s) (p_phase s)).
(** [cuda.operation] for its effect *)
Definition attempt (c : vmm_call) (s : probing) : probing := (call_op c s).2.
(** [_required] *)
Definition required (c : vmm_call) : ST probing unit := λ s,
  if negb (v_has h (symbol_of c)) then (Raise (Exn NotImplementedError "CUDA driver symbol is unavailable"), s) else
  let '(code, s) := call_op c s in
  (if code =? 0 then Ok tt else Raise (Exn RuntimeError "CUDA driver call failed"), s).
Definition phase (name : string) : ST probing unit := st_set (λ s, Probing (p_world s) (p_address s) name).
Definition set_address (a : Z) (s : probing) : probing := Probing (p_world s) a (p_phase s).
Definition output {A} (f : W → A) : ST probing A := st_get (λ s, f (p_world s)).

Definition in_probing {A} (m : ST W A) : ST probing A := λ s,
  let '(r, w) := m (p_world s) in (r, Probing w (p_address s) (p_phase s)).

(** [_cuda_context] *)
Definition cuda_context : ST probing unit :=
  _ ← required VInit; _ ← required VDeviceGet; _ ← required VPrimaryRetain; required VCtxSetCurrent.

(** The part of [probe_vmm_exact_address] that holds a handle: the address is freed and
    reserved again at the same place, and the bytes are compared. *)
Definition exact_remap (initial size handle : Z) : ST probing unit :=
  _ ← phase "map-initial";
  _ ← required (VMap initial size handle);
  _ ← required (VSetAccess initial size);
  let expected := pattern size in
  _ ← phase "write-initial";
  _ ← required (VCopyIn initial expected);
  _ ← required VSynchronize;
  _ ← required (VUnmap initial size);
  _ ← phase "free-initial-va";
  _ ← required (VAddressFree initial size);
  _ ← st_set (set_address 0);
  _ ← phase "reserve-exact";
  _ ← required (VReserve size initial);
  exact ← output (v_address h);
  _ ← st_set (set_address exact);
  _ ← st_raise_if (negb (exact =? initial)) RuntimeError "exact CUDA VA request returned another address";
  _ ← phase "map-exact";
  _ ← required (VMap exact size handle);
  _ ← required (VSetAccess exact size);
  _ ← phase "verify-exact";
  _ ← required (VCopyOut exact size);
  actual ← output (v_data h);
  _ ← required VSynchronize;
  _ ← st_raise_if (negb (bool_decide (actual = expected))) RuntimeError "private CUDA VMM contents changed across exact-address remap";
  required (VUnmap exact size).

(** The two clean-ups: the inner [finally] and the outer [except]. *)
Definition release_handle (size handle : Z) (s : probing) : probing :=
  let s := if p_address s =? 0 then s else set_address 0 (attempt (VAddressFree (p_address s) size) s) in
  attempt (VRelease handle) s.
Definition free_initial (initial size : Z) (s : probing) : probing :=
  if p_address s =? initial then set_address 0 (attempt (VAddressFree initial size) s) else s.

Definition with_handle (initial size : Z) : ST probing unit :=
  _ ← phase "create";
  _ ← required (VCreate size);
  handle ← output (v_handle h);
  st_finally (exact_remap initial size handle) (release_handle size handle).

Definition vmm_body : ST probing unit :=
  _ ← phase "context";
  _ ← cuda_context;
  _ ← phase "granularity";
  _ ← required VGranularity;
  size ← output (v_granularity h);
  _ ← phase "reserve-initial";
  _ ← required (VReserve size 0);
  initial ← output (v_address h);
  _ ← st_set (set_address initial);
  st_on_error (with_handle initial size) (free_initial initial size).

Definition feature_of (id : string) (r : res unit) (phase : string) : feature :=
  match r with
  | Ok _ => Feature id passed false ""
  | Raise e => Feature id (if decide (exc e = NotImplementedError) then unsupported else failed) true phase
  end.

(** A feature probe around its body: the library is loaded and symbols looked up first. *)
Definition probe_feature (id : string) (needed : list string) (body : ST probing unit) (w : W) : feature * probing :=
  match v_load h w with
  | Raise e => (feature_of id (Raise e) "load", Probing w 0 "load")
  | Ok _ =>
      if negb (forallb (v_has h) needed) then (Feature id unsupported true "symbols", Probing w 0 "load")
      else let '(r, s) := body (Probing w 0 "load") in (feature_of id r (p_phase s), s)
  end.

(** [probe_vmm_exact_address] *)
Definition probe_vmm_exact_address : W → feature * probing :=
  probe_feature "cuda-vmm-exact-address"
    ["cuMemGetAllocationGranularity"; "cuMemAddressReserve"; "cuMemAddressFree"; "cuMemCreate"; "cuMemRelease"; "cuMemMap"; "cuMemUnmap";
     "cuMemSetAccess"]%string vmm_body.

(** [_ipc_target], the consumer: its exit code. A handle that is too short is refused before. *)
Definition ipc_target (handle : pybytes) (memory_bytes : Z) (expected : pystr) : ST probing Z :=
  _ ← cuda_context;
  _ ← st_raise_if (negb (Nat.eqb (length handle) 64)) ValueError "CUDA IPC handle has an invalid size";
  _ ← required (VIpcOpen handle);
  pointer ← output (v_address h);
  st_finally_run
    (_ ← required (VCopyOut pointer memory_bytes);
     actual ← output (v_data h);
     _ ← required VSynchronize;
     mret (if decide (hexdigest actual = expected) then 0 else 1))
    (required (VIpcClose pointer)).

(** What the consumer's exit code and output must be. *)
Definition check_consumer (result : Z * pystr) : res unit :=
  _ ← raise_if (negb (result.1 =? 0)) RuntimeError "IPC consumer exited";
  evidence ← of_option ValueError "invalid JSON" (loads result.2);
  matches ← getattr_get "matches" evidence;
  raise_if (match matches with Some (JBool true) => false | _ => true end) RuntimeError "IPC consumer returned mismatched device bytes".

(** The body of [probe_classic_ipc]; [pointer.value] is the address. *)
Definition ipc_body (memory_bytes : Z) : ST probing unit :=
  _ ← phase "context";
  _ ← cuda_context;
  _ ← phase "allocate";
  _ ← required (VAlloc memory_bytes);
  pointer ← output (v_address h);
  _ ← st_set (set_address pointer);
  let expected := pattern memory_bytes in
  _ ← required (VCopyIn pointer expected);
  _ ← required VSynchronize;
  _ ← phase "export";
  _ ← required (VIpcGetHandle pointer);
  handle ← output (v_ipc_handle h);
  _ ← phase "consumer";
  result ← in_probing (v_consumer h handle memory_bytes (hexdigest expected));
  lift (check_consumer result).

(** [probe_classic_ipc]: whatever happened, an allocated buffer is freed. *)
Definition probe_classic_ipc (memory_bytes : Z) (w : W) : feature * probing :=
  let '(f, s) := probe_feature "cuda-classic-ipc" ["cuIpcGetMemHandle"; "cuIpcOpenMemHandle_v2"; "cuIpcCloseMemHandle"]%string
                   (ipc_body memory_bytes) w in
  (f, if p_address s =? 0 then s else attempt (VFree (p_address s)) s).
End features.

(** [feature_profile]: the features of a checkpoint report and the two probes. *)
Definition feature_profile (checkpoint : probe_report) (vmm ipc : feature) : list feature :=
  let api := if api_available checkpoint then passed
             else if library_loaded checkpoint && negb (forallb snd (symbols checkpoint)) then unsupported else failed in
  let supported := bool_decide (roundtrip_supported checkpoint = Some true) in
  let round := if supported then passed else if api_available checkpoint then failed else api in
  let reason b := negb (bool_decide (b = passed)) in
  [ Feature "cuda-checkpoint-api" api (reason api) (if reason api then "symbols" else "");
    Feature "cuda-checkpoint-roundtrip" round (reason round) (if reason round then "roundtrip" else "");
    vmm; ipc;
    Feature "cuda-uvm-checkpoint" unsupported true "";
    Feature "cuda-vmm-exported-handle-checkpoint" unsupported true "";
    Feature "criu-process-template" unqualified true "";
    Feature "criu-process-tree" unqualified true "";
    Feature "cuda-fresh-state" passed false "";
    Feature "cuda-initialized-state" (if supported then passed else round) (reason round) "" ].

(** [main]: the bounds of the arguments; [None] runs the command. *)
Inductive command := CmdProbe | CmdProfile | CmdTarget | CmdIpcTarget.
Definition main_refuses (c : command) (memory_bytes : Z) (timeout_ns : Z) : option Z :=
  if (memory_bytes <? 4096) || (2 ^ 30 <? memory_bytes) then Some 2
  else match c with
       | CmdTarget | CmdIpcTarget => None
       | _ => if (timeout_ns <=? 0) || (300000000000 <? timeout_ns) then Some 2 else None
       end.
