(* ===== verification/CheckpointCtlSpec.v ===== *)
(** * Theorems about the checkpoint probes

    A host is reported to support checkpoints only on the evidence of the full sequence of
    states and of the target's own bytes; the disposable process is gone after every probe;
    the feature probes give back what they reserved, created and allocated. *)

From S2P Require Import Prelude Ranges PyFloat PyJson PyJsonFacts Hash Artifact CheckpointCtl.

#[local] Arguments lit : simpl never.

(** ** Patterns *)

Lemma pattern_block_length : length pattern_block = 4096%nat.
Proof. unfold pattern_block. by rewrite length_fmap, length_seq. Qed.

Lemma lookup_concat_replicate {A} (l : list A) n i : (i < n * length l)%nat → concat (replicate n l) !! i = l !! (i mod length l)%nat.
Proof.
  revert i. induction n as [|n IH]; intros i Hi; [lia|]. cbn [replicate concat]. destruct (decide (i < length l)%nat) as [Hl|Hl].
  - rewrite lookup_app_l by done. by rewrite Nat.mod_small.
  - rewrite lookup_app_r, IH by lia. f_equal. replace i with ((i - length l) + 1 * length l)%nat at 2 by lia. by rewrite Nat.Div0.mod_add.
Qed.

(** Every byte of the pattern is determined by its offset in the block. *)
Lemma pattern_spec n i : 0 <= n → (i < Z.to_nat n)%nat →
  length (pattern n) = Z.to_nat n ∧ pattern n !! i = Some (Z.to_N (Z.land (Z.of_nat (i mod 4096) * 31 + 7) 255)).
Proof.
  intros Hn Hi. set (k := Z.to_nat ((n + 4096 - 1) / 4096)).
  assert (Z.to_nat n <= k * 4096)%nat as Hk by (unfold k; lia).
  assert (length (concat (replicate k pattern_block)) = (k * 4096)%nat) as Hl.
  { generalize k. intros m. induction m as [|m IH]; [done|]. cbn [replicate concat]. rewrite length_app, IH, pattern_block_length. lia. }
  unfold pattern. fold k. split; [rewrite length_take; lia|]. rewrite lookup_take_lt by done.
  rewrite lookup_concat_replicate, pattern_block_length by (rewrite pattern_block_length; lia).
  unfold pattern_block. rewrite list_lookup_fmap, lookup_seq_lt; [done|]. apply Nat.mod_upper_bound. lia.
Qed.

(** ** The round trip *)

Section probe.
Context {W : Type} (h : ctl_host W).

Lemma state_Ok pid w r w' : state h pid w = (r, w') → ∃ code, r = Ok (OpResult GetState code (if code =? 0 then Some (state_name (state_value h w')) else None))
  ∧ ckpt_call h GetState pid w = (code, w').
Proof. unfold state. destruct (ckpt_call h GetState pid w) as [code w1]. intros [= <- <-]. eauto. Qed.
Lemma operation_Ok op pid w r w' : operation h op pid w = (r, w') → ∃ code, r = Ok (OpResult op code None) ∧ ckpt_call h op pid w = (code, w').
Proof. unfold operation. destruct (ckpt_call h op pid w) as [code w1]. intros [= <- <-]. eauto. Qed.

(** The log of a sequence all of whose calls succeeded. *)
Fixpoint full_log (ops : list ckpt_op) (states : list (option pystr)) : list op_result :=
  match ops, states with
  | op :: ops, s :: states => OpResult op 0 None :: OpResult GetState 0 s :: full_log ops states
  | _, _ => []
  end.

Lemma roundtrip_log pid ops : ∀ w l w' states, roundtrip_operations h pid ops w = (Ok l, w') → Forall (λ op, op ≠ GetState) ops →
  forallb succeeded l = true → states_of l = states → l = full_log ops states.
Proof.
  induction ops as [|op ops IH]; intros w l w' states E HF Hs <-; cbn [roundtrip_operations] in E; [by st_inv|].
  apply Forall_cons in HF as [Hop HF]. st_inv.
  match goal with H : operation h op pid w = _ |- _ => apply operation_Ok in H as (code & [= ->] & _) end.
  unfold succeeded in E at 1. cbn [o_code] in E. destruct (code =? 0) eqn:Ec; cbn [negb] in E.
  - st_inv. match goal with H : state h pid _ = _ |- _ => apply state_Ok in H as (code' & [= ->] & _) end.
    match goal with H : roundtrip_operations h pid ops _ = (Ok ?rest, _) |- _ => rename H into Hr end.
    cbn [forallb succeeded o_code] in Hs. apply andb_true_iff in Hs as [_ Hs]. apply andb_true_iff in Hs as [Hc Hs]. unfold succeeded in Hc. cbn in Hc.
    apply Z.eqb_eq in Ec, Hc. subst. unfold states_of. rewrite !filter_cons. rewrite decide_False by done. rewrite decide_True by done. csimpl.
    f_equal. f_equal. by eapply IH.
  - st_inv. cbn in Hs. unfold succeeded in Hs. cbn in Hs. by rewrite Ec in Hs.
Qed.

Definition passed_log : list op_result :=
  OpResult GetState 0 (Some (lit "running"))
  :: full_log [Lock; Checkpoint; Restore; Unlock] [Some (lit "locked"); Some (lit "checkpointed"); Some (lit "locked"); Some (lit "running")].

Lemma in_world_Ok {A} (m : ST W A) a w r w' r' : in_world m (w, r) = (Ok a, (w', r')) ↔ m w = (Ok a, w') ∧ r' = r.
Proof. unfold in_world. destruct (m w) as [x w1]. naive_solver. Qed.

Lemma read_json_line_Ok w d w' : read_json_line h w = (Ok d, w') → ∃ line, readline h w = (Ok line, w') ∧ loads line = Some (JObj d).
Proof.
  unfold read_json_line. intros E. st_inv.
  match goal with H : readline h w = (Ok ?l, _) |- _ => exists l; destruct l as [|c l]; [done|]; rename H into Hl end. st_inv. res_inv.
  match goal with H : loads _ = Some ?v |- _ => destruct v; try done; rename H into Hv end. by st_inv.
Qed.

(** A reply of the target says whether the digests agree. *)
Lemma verified_reply_decides actual expected d : forallb scalar actual = true →
  loads (dumps default_style (verified_reply actual expected) ++ [10%N]) = Some (JObj d) →
  default JNull (dict_get (lit "matches") d) = JBool (bool_decide (actual = expected)).
Proof.
  intros Ha E. rewrite loads_dumps_blank in E; [|apply default_style_ok| |by repeat constructor].
  - apply (f_equal (λ v, match v with Some (JObj l) => dict_get (lit "matches") l | _ => None end)) in E. cbv beta iota in E. rewrite <- E.
    by vm_compute.
  - unfold verified_reply. cbn [exact forallb fst snd]. by rewrite Ha.
Qed.

(** What a successful body wrote to the report. *)
Lemma roundtrip_Ok pid w r w' r' : roundtrip h pid (w, r) = (Ok tt, (w', r')) → roundtrip_supported r' = Some true →
  operations r' = Some passed_log ∧ error r' = error r ∧ ∃ line d w1 w2, readline h w1 = (Ok line, w2) ∧ loads line = Some (JObj d) ∧ verification r' = Some (JObj d)
  ∧ truth (default JNull (dict_get (lit "matches") d)) = true.
Proof.
  intros E Ht. unfold roundtrip, set_report in E. st_inv. repeat match goal with s : (W * probe_report)%type |- _ => destruct s end.
  repeat match goal with H : in_world _ _ = _ |- _ => apply in_world_Ok in H as [H ->] end.
  match goal with H : state h pid _ = _ |- _ => apply state_Ok in H as (code & Hst & _) end.
  match goal with H : roundtrip_operations _ _ _ _ = (Ok ?l, _) |- _ => rename H into Hops, l into rest end.
  match type of E with (if ?b then _ else _) _ = _ => destruct b eqn:Eb end; [|by st_inv; simplify_eq].
  st_inv. repeat match goal with s : (W * probe_report)%type |- _ => destruct s end.
  repeat match goal with H : in_world _ _ = _ |- _ => apply in_world_Ok in H as [H ->] end. simplify_eq. cbn in Ht |- *.
  apply andb_true_iff in Eb as [Hs He]. apply bool_decide_eq_true in He. cbn [forallb] in Hs. apply andb_true_iff in Hs as [Hs0 Hs].
  unfold succeeded in Hs0. cbn in Hs0. rewrite Hs0 in *. apply Z.eqb_eq in Hs0 as ->. unfold states_of in He. rewrite filter_cons, decide_True in He by done.
  csimpl in He. unfold expected_states in He. csimpl in He. injection He as Hn Hrest. split_and!; [|done|].
  - do 2 f_equal; [by rewrite Hn|]. eapply roundtrip_log; [exact Hops|by repeat constructor|done|exact Hrest].
  - repeat match goal with H : read_json_line h _ = (Ok ?d, _) |- _ => apply read_json_line_Ok in H as (? & ? & ?) end.
    injection Ht as Ht. eauto 10.
Qed.

Lemma roundtrip_frame pid w r o w' r' : roundtrip h pid (w, r) = (o, (w', r')) →
  library_loaded r' = library_loaded r ∧ symbols r' = symbols r ∧ init_code r' = init_code r ∧ api_available r' = api_available r.
Proof.
  unfold roundtrip, set_report, in_world, st_raise_if, mbind, st_bind, st_set, lift. intros E.
  repeat (case_match; simplify_eq; try (by split_and!)).
Qed.
End probe.

(** Support is reported on evidence: when [probe] reports that a checkpoint round trip is
    supported, every symbol of the API was found and the driver initialized, the process was
    seen running, locked, checkpointed, locked and running around the four operations, every
    one of which succeeded, and then answered that its device bytes are intact; if the answer
    is the target's own report, the digests of its bytes before and after are equal. *)
Theorem probe_sound {W} (h : ctl_host W) requested w r w' : probe h requested w = (Ok r, w') → roundtrip_supported r = Some true →
  requested = true ∧ Forall (λ s, s.2 = true) (symbols r) ∧ init_code r = Some 0 ∧ error r = None ∧ operations r = Some passed_log
  ∧ ∃ line d w1 w2, readline h w1 = (Ok line, w2) ∧ loads line = Some (JObj d) ∧ verification r = Some (JObj d)
    ∧ truth (default JNull (dict_get (lit "matches") d)) = true
    ∧ ∀ actual expected, forallb scalar actual = true → line = dumps default_style (verified_reply actual expected) ++ [10%N] → actual = expected.
Proof.
  intros E Ht. unfold probe in E. destruct (load_cuda h w) as [[]|x]; [|destruct (is_os_error _); by simplify_eq].
  destruct (cu_init h w) as [code w1]. set (report := Report true _ _ _ _ _ _ _ _ _) in E.
  destruct (negb requested || negb (_ && _)) eqn:Eg; [by simplify_eq|]. guards. match goal with H : (code =? 0) = true |- _ => apply Z.eqb_eq in H as -> end.
  destruct (spawn h w1) as [pid w2]. destruct (roundtrip h pid (w2, report)) as [o [w3 r1]] eqn:Er.
  st_inv. destruct (roundtrip_frame _ _ _ _ _ _ _ Er) as (_ & Hs & Hi & _).
  destruct o as [[]|?]; cbn in Ht |- *; [|done]. destruct (roundtrip_Ok _ _ _ _ _ _ Er Ht) as (Ho & He & line & d & w4 & w5 & Hl & Hd & Hv & Hm).
  rewrite Hs, Hi, He. split_and!; [done| |done|done|done|].
  { apply Forall_forall. intros s Hin%list_elem_of_In. match goal with H : forallb snd _ = true |- _ => by apply (proj1 (forallb_forall _ _) H) end. }
  exists line, d, w4, w5. split_and!; [done|done|done|done|]. intros actual expected Ha ->.
  rewrite (verified_reply_decides _ _ _ Ha Hd) in Hm. by apply bool_decide_eq_true in Hm.
Qed.

(** ** Clean-up *)

(** What the clean-up relies on: the driver's state of the process, and that a process that
    was waited for has exited. *)
Class CheckpointDriver {W} (h : ctl_host W) (driver_state : W → Z) := {
  get_state_reads pid w code w' : ckpt_call h GetState pid w = (code, w') → driver_state w' = driver_state w ∧ (code = 0 → state_value h w' = driver_state w');
  restore_locks pid w w' : ckpt_call h Restore pid w = (0, w') → driver_state w = 2 → driver_state w' = 1;
  unlock_runs pid w w' : ckpt_call h Unlock pid w = (0, w') → driver_state w = 1 → driver_state w' = 0;
  wait_exits w w' : wait h w = (Ok tt, w') → poll h w' ≠ None;
}.

Section cleanup.
Context {W : Type} (h : ctl_host W) (driver_state : W → Z) `{!CheckpointDriver h driver_state}.

Definition held (w : W) : Prop := driver_state w = 1 ∨ driver_state w = 2.

Lemma state_name_inj v : (state_name v = lit "checkpointed" ↔ v = 2) ∧ (state_name v = lit "locked" ↔ v = 1).
Proof.
  unfold state_name. repeat (case_match; [match goal with H : (v =? _) = true |- _ => apply Z.eqb_eq in H as -> end; by split; split; intros; (discriminate || done || lia)|]).
  repeat match goal with H : (v =? _) = false |- _ => apply Z.eqb_neq in H end. split; split; intros; (discriminate || lia).
Qed.

Lemma unwind_releases pid w log w' : unwind_target h pid w = (Ok log, w') → forallb succeeded log = true → ¬ held w'.
Proof.
  intros E Hs. unfold unwind_target in E. st_inv.
  match goal with H : state h pid _ = _ |- _ => apply state_Ok in H as (c1 & [= ->] & H1) end. destruct (get_state_reads _ _ _ _ H1) as [Hd1 Hv1].
  cbn [o_state] in E. destruct (c1 =? 0) eqn:Ec1.
  2: { rewrite !bool_decide_eq_false_2 in E by done. st_inv. cbn in Hs. unfold succeeded in Hs. cbn in Hs. by rewrite Ec1 in Hs. }
  apply Z.eqb_eq in Ec1 as ->. rewrite Hv1 in E by done. destruct (state_name_inj (driver_state x0)) as [Hn2 Hn1].
  case_bool_decide as Hc.
  - injection Hc as Hc%Hn2. st_inv. match goal with H : operation h Restore pid _ = _ |- _ => apply operation_Ok in H as (c2 & [= ->] & H2) end.
    match goal with H : state h pid _ = _ |- _ => apply state_Ok in H as (c3 & [= ->] & H3) end. destruct (get_state_reads _ _ _ _ H3) as [Hd3 Hv3].
    cbn [o_state] in E. destruct (c3 =? 0) eqn:Ec3.
    2: { rewrite bool_decide_eq_false_2 in E by done. st_inv. cbn in Hs. unfold succeeded in Hs. cbn in Hs. rewrite Ec3 in Hs. by rewrite !andb_false_r in Hs. }
    apply Z.eqb_eq in Ec3 as ->. rewrite Hv3 in E by done. destruct (c2 =? 0) eqn:Ec2.
    2: { case_bool_decide; st_inv; cbn in Hs; unfold succeeded in Hs; cbn in Hs; by rewrite Ec2 in Hs. }
    apply Z.eqb_eq in Ec2 as ->. pose proof (restore_locks _ _ _ H2 Hc) as Hl.
    rewrite bool_decide_eq_true_2 in E by (f_equal; apply state_name_inj; lia). st_inv.
    match goal with H : operation h Unlock pid _ = _ |- _ => apply operation_Ok in H as (c4 & [= ->] & H4) end.
    cbn in Hs. unfold succeeded in Hs. cbn in Hs. rewrite andb_true_r in Hs. apply Z.eqb_eq in Hs as ->.
    pose proof (unlock_runs _ _ _ H4) as Hu. rewrite Hd3, Hl in Hu. specialize (Hu eq_refl). unfold held. lia.
  - case_bool_decide as Hl.
    + injection Hl as Hl%Hn1. st_inv. match goal with H : operation h Unlock pid _ = _ |- _ => apply operation_Ok in H as (c4 & [= ->] & H4) end.
      cbn in Hs. unfold succeeded in Hs. cbn in Hs. rewrite andb_true_r in Hs. apply Z.eqb_eq in Hs as ->.
      pose proof (unlock_runs _ _ _ H4 Hl). unfold held. lia.
    + st_inv. intros [Hh|Hh]; [apply Hl|apply Hc]; f_equal; by apply state_name_inj.
Qed.

Lemma stop_exits w w' : stop_target h w = (Ok tt, w') → poll h w' ≠ None.
Proof.
  unfold stop_target, st_except. intros E. destruct ((writeline h (lit "exit") ≫= λ _, wait h) w) as [[[]|x] w1] eqn:Ew.
  - simplify_eq. apply st_bind_Ok in Ew as (_ & w2 & _ & Hw). by eapply wait_exits.
  - case_bool_decide; [|done]. st_inv. destruct (wait h _) as [[[]|y] w3] eqn:E3; [simplify_eq; by eapply wait_exits|].
    case_bool_decide; [|done]. st_inv. by eapply wait_exits.
Qed.

(** A probe leaves no process behind: whatever call of the round trip failed or raised,
    when [probe] returns after it started the disposable process, that process has exited,
    and unless a clean-up call failed it was not locked or checkpointed when it was told to. *)
Theorem probe_cleans_up w r w' : probe h true w = (Ok r, w') → api_available r = true →
  poll h w' ≠ None ∧ ∃ w1, (poll h w1 ≠ None ∨ (forallb succeeded (cleanup r) = true → ¬ held w1))
    ∧ (w1 = w' ∨ stop_target h w1 = (Ok tt, w')).
Proof.
  intros E Ha. unfold probe in E. destruct (load_cuda h w) as [[]|x]; [|destruct (is_os_error _); by simplify_eq].
  destruct (cu_init h w) as [code w1]. cbn [negb orb] in E. destruct (negb (_ && _)) eqn:Eg.
  { simplify_eq. apply negb_true_iff in Eg. cbn in Eg, Ha. congruence. }
  destruct (spawn h w1) as [pid w2]. destruct (roundtrip h pid _) as [o [w3 r1]]. st_inv.
  match goal with H : cleanup_target h pid _ = _ |- _ => unfold cleanup_target in H; rename H into Hc end. st_inv.
  destruct (poll h w3) eqn:Ep.
  - st_inv. split; [by rewrite Ep|]. eexists. split; [left|by left]. by rewrite Ep.
  - st_inv. match goal with H : stop_target h ?w0 = (Ok ?u, _) |- _ => destruct u; rename w0 into wu; pose proof (stop_exits _ _ H) as Hx end.
    split; [done|]. exists wu. split; [|by right]. right. cbn. intros Hs. by eapply unwind_releases.
Qed.
End cleanup.

(** ** Feature probes: what is taken is given back *)

Inductive resource := RAddress (a : Z) | RHandle (x : Z) | RPointer (p : Z) | RMapping (a : Z).
#[global] Instance resource_eq_dec : EqDecision resource.
Proof. solve_decision. Defined.

Inductive resource_event := Take (r : resource) | Give (r : resource).

(** What was taken and not given back since. *)
Definition held_after (log : list resource_event) : list resource :=
  foldl (λ l e, match e with Take r => r :: l | Give r => filter (λ x, x ≠ r) l end) [] log.

Section events.
Context {W : Type} (h : vmm_host W).

(** A host that writes down what its calls take and what they are asked to give back;
    a mapping is given back only by an unmapping that succeeds. *)
Definition event_of (c : vmm_call) (code : Z) (w : W) : list resource_event :=
  match c with
  | VReserve _ _ => if code =? 0 then [Take (RAddress (v_address h w))] else []
  | VAddressFree a _ => [Give (RAddress a)]
  | VCreate _ => if code =? 0 then [Take (RHandle (v_handle h w))] else []
  | VRelease x => [Give (RHandle x)]
  | VMap a _ _ => if code =? 0 then [Take (RMapping a)] else []
  | VUnmap a _ => if code =? 0 then [Give (RMapping a)] else []
  | VAlloc _ => if code =? 0 then [Take (RPointer (v_address h w))] else []
  | VFree a => [Give (RPointer a)]
  | _ => []
  end.
Definition logged : vmm_host (W * list resource_event) := VmmHost _
  (λ s, v_load h s.1) (v_has h)
  (λ c s, let '(code, w) := v_call h c s.1 in (code, (w, s.2 ++ event_of c code w)))
  (λ s, v_granularity h s.1) (λ s, v_address h s.1) (λ s, v_handle h s.1) (λ s, v_data h s.1) (λ s, v_ipc_handle h s.1)
  (λ x n e s, let '(r, w) := v_consumer h x n e s.1 in (r, (w, s.2))).

Notation pstate := (probing (W := W * list resource_event)).
Definition is_mapping (r : resource) : bool := match r with RMapping _ => true | _ => false end.

(** The addresses, handles and pointers that are held, and [address.value]. *)
Definition view (s : pstate) : list resource * Z := (filter (λ r, is_mapping r = false) (held_after (p_world s).2), p_address s).

(** A run from states with a view: where it may end when it returns, and when it raises. *)
Definition runs {A} (v : list resource * Z) (m : ST pstate A) (Q : A → list resource * Z → Prop) (E : list resource * Z → Prop) : Prop :=
  ∀ s r s', view s = v → m s = (r, s') → match r with Ok a => Q a (view s') | Raise _ => E (view s') end.

Lemma runs_bind {A B} v (m : ST pstate A) (k : A → ST pstate B) R Q E :
  runs v m R E → (∀ a v', R a v' → runs v' (k a) Q E) → runs v (m ≫= k) Q E.
Proof.
  intros Hm Hk s r s' Hv Er. unfold mbind, st_bind in Er. destruct (m s) as [[a|x] s1] eqn:Em; specialize (Hm _ _ _ Hv Em); cbn in Hm.
  - by eapply Hk.
  - by simplify_eq.
Qed.
Lemma runs_weaken {A} v (m : ST pstate A) (Q Q' : A → list resource * Z → Prop) (E E' : list resource * Z → Prop) :
  runs v m Q E → (∀ a v', Q a v' → Q' a v') → (∀ v', E v' → E' v') → runs v m Q' E'.
Proof. intros Hm HQ HE s r s' Hv Er. specialize (Hm _ _ _ Hv Er). destruct r; auto. Qed.

Lemma held_snoc log e : held_after (log ++ [e]) = match e with Take r => r :: held_after log | Give r => filter (λ x, x ≠ r) (held_after log) end.
Proof. unfold held_after. by rewrite foldl_app. Qed.

Lemma filter_swap {A} (P Q : A → Prop) `{∀ x, Decision (P x), ∀ x, Decision (Q x)} (l : list A) : filter P (filter Q l) = filter Q (filter P l).
Proof. induction l as [|x l IH]; [done|]. rewrite !filter_cons. repeat (case_decide; rewrite ?filter_cons); by rewrite ?IH; repeat case_decide. Qed.

(** How one event changes the view. *)
Definition effect (e : resource_event) (l : list resource) : list resource :=
  match e with
  | Take r => if is_mapping r then l else r :: l
  | Give r => if is_mapping r then l else filter (λ x, x ≠ r) l
  end.
Lemma view_effect w log e a name : view (Probing (w, log ++ [e]) a name) = (effect e (view (Probing (w, log) a name)).1, a).
Proof.
  unfold view. cbn [p_world p_address snd fst]. f_equal. rewrite held_snoc. destruct e as [r|r]; cbn [effect].
  - rewrite filter_cons. by destruct (is_mapping r); case_decide.
  - rewrite filter_swap. destruct (is_mapping r) eqn:Em; [|done]. apply filter_all, Forall_forall. intros x [Hx _]%list_elem_of_filter ->. congruence.
Qed.

Lemma runs_required v c (Q E : list resource * Z → Prop) :
  (∀ w, Q (foldl (λ l e, effect e l) v.1 (event_of c 0 w), v.2)) →
  (∀ code w, code ≠ 0 → E (foldl (λ l e, effect e l) v.1 (event_of c code w), v.2)) → E v →
  runs v (required logged c) (λ _, Q) E.
Proof.
  intros HQ HE Hv0 s r s' <- Er. unfold required in Er. destruct (negb _); [by simplify_eq|]. unfold call_op in Er. cbn [v_call logged] in Er.
  destruct s as [[w log] a name]. cbn [p_world fst snd] in *. destruct (v_call h c w) as [code w1].
  assert (∀ l, view (Probing (w1, log ++ l) a name) = (foldl (λ l e, effect e l) (view (Probing (w, log) a name)).1 l, a)) as Hvs.
  { intros l. induction l as [|e l IH] using rev_ind; [by rewrite app_nil_r|]. by rewrite app_assoc, view_effect, foldl_app, IH. }
  destruct (code =? 0) eqn:Ec; simplify_eq; cbn [p_world p_address p_phase].
  - apply Z.eqb_eq in Ec as ->. rewrite Hvs. apply HQ.
  - apply Z.eqb_neq in Ec. rewrite Hvs. by apply HE.
Qed.

(** Calls that take and give back nothing. *)
Lemma runs_neutral v c (E : list resource * Z → Prop) : (∀ code w l, foldl (λ l e, effect e l) l (event_of c code w) = l) → E v →
  runs v (required logged c) (λ _ v', v' = v) E.
Proof.
  intros Hn Hv. apply runs_required; [| |done]; intros; rewrite Hn; by destruct v.
Qed.
Lemma runs_phase v name E : runs v (phase name) (λ _ v', v' = v) E.
Proof. intros s r s' <- Er. unfold phase, st_set in Er. by simplify_eq. Qed.
Lemma runs_output {A} v (f : W * list resource_event → A) E : runs v (output f) (λ _ v', v' = v) E.
Proof. intros s r s' <- Er. unfold output, st_get in Er. by simplify_eq. Qed.
Lemma runs_set_address v a E : runs v (st_set (set_address a)) (λ _ v', v' = (v.1, a)) E.
Proof. intros s r s' <- Er. unfold st_set in Er. by simplify_eq. Qed.
Lemma runs_raise_if v b c m (E : list resource * Z → Prop) : E v → runs v (st_raise_if b c m) (λ _ v', v' = v ∧ b = false) E.
Proof. intros HE s r s' <- Er. unfold st_raise_if, lift, raise_if in Er. destruct b; by simplify_eq. Qed.
Lemma runs_lift {A} v (x : res A) (E : list resource * Z → Prop) : E v → runs v (lift x) (λ _ v', v' = v) E.
Proof. intros HE s r s' <- Er. unfold lift in Er. injection Er as <- <-. by destruct x. Qed.

(** A call that takes a resource and outputs its name. *)
Lemma runs_take {B} v c (R : Z → resource) (out : W → Z) (k : Z → ST pstate B) Q (E : list resource * Z → Prop) :
  (∀ w, event_of c 0 w = [Take (R (out w))]) → (∀ code w, code ≠ 0 → event_of c code w = []) → (∀ b, is_mapping (R b) = false) → E v →
  (∀ b, runs (R b :: v.1, v.2) (k b) Q E) →
  runs v (required logged c ≫= λ _, output (λ s, out s.1) ≫= k) Q E.
Proof.
  intros He Hf Hm HE Hk s r s' Hv Er. unfold mbind, st_bind in Er. destruct (required logged c s) as [o s1] eqn:Ec.
  destruct s as [[w log] a name]. unfold required, call_op in Ec. cbn [v_call logged p_world fst snd] in Ec. destruct (negb _); [by simplify_eq|].
  destruct (v_call h c w) as [code w1] eqn:Ev. cbn [p_address p_phase] in Ec. destruct (code =? 0) eqn:E0.
  - simplify_eq. apply Z.eqb_eq in E0 as ->. unfold output, st_get in Er. cbn [p_world fst] in Er. eapply Hk; [|exact Er].
    rewrite He, view_effect. cbn [effect]. by rewrite Hm.
  - simplify_eq. apply Z.eqb_neq in E0. rewrite (Hf _ _ E0), app_nil_r. exact HE.
Qed.

(** Walk through a run call by call. *)
Ltac step_neutral :=
  match goal with
  | |- runs _ (phase _ ≫= _) _ _ => eapply runs_bind; [apply runs_phase|]; intros _ ? ->
  | |- runs _ (required _ _ ≫= _) _ _ => eapply runs_bind; [apply runs_neutral; [by intros ? ? ?; cbn; try case_match|eauto]|]; intros _ ? ->
  | |- runs _ (output _ ≫= _) _ _ => eapply runs_bind; [apply runs_output|]; intros ? ? ->
  | |- runs _ (st_set (set_address _) ≫= _) _ _ => eapply runs_bind; [apply runs_set_address|]; intros _ ? ->; cbn [fst]
  end.

(** Where the part with a handle may stop. *)
Definition remapping (initial handle : Z) (v : list resource * Z) : Prop :=
  v = ([RHandle handle; RAddress initial], initial) ∨ v = ([RHandle handle], initial) ∨ v = ([RHandle handle], 0)
  ∨ ∃ b, v = ([RAddress b; RHandle handle], b).

Lemma exact_remap_runs initial size handle :
  runs ([RHandle handle; RAddress initial], initial) (exact_remap logged initial size handle) (λ _, remapping initial handle) (remapping initial handle).
Proof.
  assert (remapping initial handle ([RHandle handle; RAddress initial], initial)) as H0 by (by left).
  assert (remapping initial handle ([RHandle handle], initial)) as H1 by (by right; left).
  assert (remapping initial handle ([RHandle handle], 0)) as H2 by (by right; right; left).
  assert (∀ b, remapping initial handle ([RAddress b; RHandle handle], b)) as H3 by (intros b; right; right; right; by exists b).
  unfold exact_remap. cbv zeta. do 8 step_neutral. eapply runs_bind.
  { apply (runs_required _ _ (λ v, v = ([RHandle handle], initial))); [| |done]; intros; cbn; rewrite ?filter_cons, ?filter_nil;
      rewrite decide_True, decide_False by naive_solver; done. }
  intros _ ? ->. do 2 step_neutral.
  apply (runs_take _ _ RAddress (v_address h)); [done|intros code w Hc; cbn; by rewrite (proj2 (Z.eqb_neq _ _) Hc)|done|done|].
  intros b. cbn [fst snd]. step_neutral. eapply runs_bind; [apply runs_raise_if; done|]. intros _ ? [-> _]. do 7 step_neutral.
  eapply runs_bind; [apply runs_raise_if; done|]. intros _ ? [-> _].
  eapply runs_weaken; [apply (runs_neutral _ _ (remapping initial handle)); [by intros ? ? ?; cbn; case_match|done]| |done]. by intros _ ? ->.
Qed.

Lemma view_attempt c (s : pstate) e : (∀ code w, event_of c code w = [e]) → view (attempt logged c s) = (effect e (view s).1, (view s).2).
Proof.
  intros He. destruct s as [[w log] a name]. unfold attempt, call_op. cbn [v_call logged p_world fst snd]. destruct (v_call h c w) as [code w1].
  cbn [snd p_address p_phase]. rewrite He. etransitivity; [apply view_effect|done].
Qed.

Ltac settle := first [by left|by right|exfalso; match goal with H : ¬ (_ ≠ _) |- _ => apply H; (discriminate || congruence) | H : ?x ≠ ?x |- _ => by apply H end].

Definition clean (v : list resource * Z) : Prop := v.1 = [] ∨ v.1 = [RAddress 0].

Lemma release_handle_view initial size handle (s : pstate) : remapping initial handle (view s) →
  clean (view (release_handle logged size handle s)) ∧ p_address (release_handle logged size handle s) = 0.
Proof.
  intros Hr. unfold release_handle. change (p_address s) with (view s).2.
  assert (∀ t : pstate, p_address (attempt logged (VRelease handle) t) = p_address t) as Ha.
  { intros t. unfold attempt, call_op. cbn. by destruct (v_call h _ _). }
  destruct (Z.eqb_spec (view s).2 0) as [E0|E0].
  - split; [|rewrite Ha; exact E0]. rewrite (view_attempt _ _ (Give (RHandle handle))) by done. cbn [effect is_mapping fst]. unfold clean. cbn [fst].
    destruct Hr as [Hr|[Hr|[Hr|(b & Hr)]]]; rewrite Hr in E0 |- *; cbn [fst snd] in E0 |- *; subst; rewrite !filter_cons, filter_nil; repeat case_decide; settle.
  - split; [|by rewrite Ha]. rewrite (view_attempt _ _ (Give (RHandle handle))) by done. unfold set_address at 1. cbn [effect is_mapping].
    set (t := attempt logged (VAddressFree (view s).2 size) s).
    change (view (Probing (p_world t) 0 (p_phase t))) with ((view t).1, 0). subst t. rewrite (view_attempt _ _ (Give (RAddress (view s).2))) by done.
    unfold clean. cbn [fst effect is_mapping].
    destruct Hr as [Hr|[Hr|[Hr|(b & Hr)]]]; rewrite Hr in E0 |- *; cbn [fst snd] in E0 |- *; rewrite ?filter_cons, ?filter_nil; repeat (case_decide; rewrite ?filter_cons, ?filter_nil); settle.
Qed.

Lemma with_handle_runs initial size : runs ([RAddress initial], initial) (with_handle logged initial size)
  (λ _ v, clean v ∧ v.2 = 0) (λ v, v = ([RAddress initial], initial) ∨ clean v ∧ v.2 = 0).
Proof.
  unfold with_handle. eapply runs_bind; [apply runs_phase|]. intros _ ? ->.
  apply (runs_take _ _ RHandle (v_handle h)); [done|intros code w Hc; cbn; by rewrite (proj2 (Z.eqb_neq _ _) Hc)|done|by left|].
  intros x s r s' Hv Er. unfold st_finally in Er. destruct (exact_remap logged initial size x s) as [o s1] eqn:Ex.
  pose proof (exact_remap_runs initial size x s o s1 Hv Ex) as Hm. injection Er as <- <-.
  assert (remapping initial x (view s1)) as Hr by (by destruct o). apply (release_handle_view _ size) in Hr as [Hc Ha]. destruct o; [|right]; by split.
Qed.

Lemma vmm_body_runs : runs ([], 0) (vmm_body logged) (λ _, clean) clean.
Proof.
  assert (clean ([], 0)) as H0 by (by left). unfold vmm_body, cuda_context. step_neutral.
  eapply runs_bind.
  { do 3 step_neutral. apply runs_neutral; [by intros|done]. }
  intros _ ? ->. do 4 step_neutral.
  apply (runs_take _ _ RAddress (v_address h)); [done|intros code w Hc; cbn; by rewrite (proj2 (Z.eqb_neq _ _) Hc)|done|done|].
  intros initial. cbn [fst snd]. step_neutral. intros s r s' Hv Er. unfold st_on_error in Er.
  destruct (with_handle logged initial a s) as [o s1] eqn:Ew. pose proof (with_handle_runs initial a s o s1 Hv Ew) as Hw.
  destruct o as [[]|x]; injection Er as <- <-; [by destruct Hw|]. unfold free_initial.
  assert (view s1 = ([RAddress initial], initial) ∨ clean (view s1)) as Hc by (destruct Hw as [?|[? _]]; [by left|by right]).
  destruct (Z.eqb_spec (p_address s1) initial) as [E1|E1].
  - set (t := attempt logged (VAddressFree initial a) s1). unfold set_address. change (view (Probing (p_world t) 0 (p_phase t))) with ((view t).1, 0).
    subst t. rewrite (view_attempt _ _ (Give (RAddress initial))) by done. unfold clean. cbn [fst effect is_mapping].
    destruct Hc as [->|[->| ->]]; cbn [fst snd]; rewrite ?filter_cons, ?filter_nil; repeat case_decide; settle.
  - destruct Hc as [Hc|Hc]; [|done]. exfalso. apply E1. by apply (f_equal snd) in Hc.
Qed.

Lemma feature_view id needed body w : (∀ s r s', view s = ([], 0) → body s = (r, s') → clean (view s')) →
  clean (view (probe_feature logged id needed body (w, [])).2).
Proof.
  intros Hb. unfold probe_feature. destruct (v_load _ _); [|by left]. destruct (negb _); [by left|].
  destruct (body _) as [r s] eqn:Eb. cbn [snd]. eapply Hb; [|exact Eb]; done.
Qed.

(** The exact-address probe gives back what it takes: whatever the driver answers to its
    calls, every address range it reserved has been passed to [cuMemAddressFree] and every
    handle it created to [cuMemRelease] when it reports (the address 0 excepted). *)
Theorem vmm_probe_gives_back w f s :
  probe_vmm_exact_address logged (w, []) = (f, s) →
  ∀ r, r ∈ held_after (p_world s).2 → r = RAddress 0 ∨ is_mapping r = true.
Proof.
  intros E r Hr. assert (clean (view s)) as Hc.
  { unfold probe_vmm_exact_address in E. apply (f_equal snd) in E. cbn [snd] in E. rewrite <- E. apply feature_view.
    intros s0 o s1 Hv Eo. pose proof (vmm_body_runs s0 o s1 Hv Eo). by destruct o. }
  destruct (is_mapping r) eqn:Em; [by right|left].
  assert (r ∈ (view s).1) as Hin by (by apply list_elem_of_filter).
  destruct Hc as [E0|E0]; rewrite E0 in Hin; [by apply elem_of_nil in Hin|by apply list_elem_of_singleton in Hin].
Qed.

Lemma ipc_body_runs n : runs ([], 0) (ipc_body logged n) (λ _ v, v = ([], 0) ∨ ∃ p, v = ([RPointer p], p)) (λ v, v = ([], 0) ∨ ∃ p, v = ([RPointer p], p)).
Proof.
  assert ((λ v, v = ([], 0) ∨ ∃ p, v = ([RPointer p], p)) ([] : list resource, 0)) as H0 by (by left).
  assert (∀ p, (λ v, v = ([], 0) ∨ ∃ p, v = ([RPointer p], p)) ([RPointer p], p)) as H1 by (intros p; right; by exists p).
  unfold ipc_body, cuda_context. cbv zeta. step_neutral. eapply runs_bind.
  { do 3 step_neutral. apply runs_neutral; [by intros|done]. }
  intros _ ? ->. step_neutral.
  apply (runs_take _ _ RPointer (v_address h)); [done|intros code w Hc; cbn; by rewrite (proj2 (Z.eqb_neq _ _) Hc)|done|done|].
  intros p. cbn [fst snd]. do 7 step_neutral. eapply runs_bind.
  { intros s r s' Hv Er. unfold in_probing in Er. cbn [v_consumer logged] in Er. destruct (v_consumer h _ _ _ _) as [o w1]. injection Er as <- <-.
    assert (view (Probing (w1, (p_world s).2) (p_address s) (p_phase s)) = ([RPointer p], p)) as -> by exact Hv.
    destruct o; [|by apply H1]. instantiate (1 := λ _ v, v = ([RPointer p], p)). done. }
  intros result ? ->. eapply runs_weaken; [by apply (runs_lift _ _ _ (H1 p))| |done]. intros _ ? ->. apply H1.
Qed.

(** The IPC probe frees its buffer: whatever the driver and the consumer process do, a
    buffer [probe_classic_ipc] allocated has been passed to [cuMemFree] when it reports. *)
Theorem ipc_probe_gives_back n w f s : probe_classic_ipc logged n (w, []) = (f, s) →
  ∀ p, p ≠ 0 → RPointer p ∉ held_after (p_world s).2.
Proof.
  intros E p Hp Hin. unfold probe_classic_ipc in E. destruct (probe_feature _ _ _ _ _) as [f0 s0] eqn:Ef. injection E as <- <-.
  assert (view s0 = ([], 0) ∨ ∃ q, view s0 = ([RPointer q], q)) as Hv.
  { unfold probe_feature in Ef. destruct (v_load _ _); [|injection Ef as <- <-; by left]. destruct (negb _); [injection Ef as <- <-; by left|].
    destruct (ipc_body _ _ _) as [r s1] eqn:Eb. injection Ef as <- <-. pose proof (λ Hv, ipc_body_runs n _ _ _ Hv Eb) as Hx. specialize (Hx eq_refl). by destruct r. }
  assert (∀ t : pstate, RPointer p ∈ held_after (p_world t).2 → RPointer p ∈ (view t).1) as Hview by (intros t Ht; by apply list_elem_of_filter).
  apply Hview in Hin. change (p_address s0) with (view s0).2 in Hin.
  destruct (Z.eqb_spec (view s0).2 0) as [E0|E0].
  - destruct Hv as [Hv|(q & Hv)]; rewrite Hv in E0, Hin; cbn in E0, Hin; [by apply elem_of_nil in Hin|]. apply list_elem_of_singleton in Hin. congruence.
  - rewrite (view_attempt _ _ (Give (RPointer (view s0).2))) in Hin by done. cbn [fst effect is_mapping] in Hin.
    apply list_elem_of_filter in Hin as [Hne Hin]. destruct Hv as [Hv|(q & Hv)]; rewrite Hv in Hne, Hin; cbn in Hne, Hin; [by apply elem_of_nil in Hin|].
    apply list_elem_of_singleton in Hin. congruence.
Qed.

(** A failing copy leaves a mapping: if the copy into the first mapping of the
    exact-address probe fails, the probe frees the address range and releases the handle
    without unmapping it first, which [cuMemAddressFree] requires. *)
Theorem vmm_probe_leaves_mapping w f s :
  v_load h w = Ok tt → (∀ name, v_has h name = true) → (∀ x, v_address h x ≠ 0) →
  (∀ c x, (v_call h c x).1 = match c with VCopyIn _ _ => 1 | _ => 0 end) →
  probe_vmm_exact_address logged (w, []) = (f, s) →
  f_status f = failed ∧ f_phase f = "write-initial"%string
  ∧ ∃ a, held_after (p_world s).2 = [RMapping a] ∧ (p_world s).2 !! 3%nat = Some (Give (RAddress a)).
Proof.
  intros Hl Hh Ha Hc E. unfold probe_vmm_exact_address, probe_feature in E. cbn [v_load logged fst] in E. rewrite Hl in E.
  assert (∀ l : list string, forallb (v_has h) l = true) as Hall by (induction l; cbn; rewrite ?Hh; done).
  cbn [v_has logged] in E. rewrite Hall in E. cbn [negb] in E.
  assert (∀ c s0, required logged c s0 = (match c with VCopyIn _ _ => Raise (Exn RuntimeError "CUDA driver call failed") | _ => Ok tt end,
    Probing ((v_call h c (p_world s0).1).2, (p_world s0).2 ++ event_of c (match c with VCopyIn _ _ => 1 | _ => 0 end) (v_call h c (p_world s0).1).2) (p_address s0) (p_phase s0))) as Hreq.
  { intros c s0. unfold required, call_op. cbn [v_has v_call logged]. rewrite Hh. cbn [negb]. pose proof (Hc c (p_world s0).1) as Hcode.
    destruct (v_call h c (p_world s0).1) as [code x]. cbn in Hcode. subst code. by destruct c. }
  unfold vmm_body, cuda_context, with_handle, exact_remap, st_finally, st_on_error, phase, output, st_set, st_get, mbind, st_bind in E.
  assert (∀ c s0, attempt logged c s0 = (required logged c s0).2) as Hatt.
  { intros c s0. unfold attempt, required. cbn [v_has logged]. rewrite Hh. cbn [negb]. by destruct (call_op _ _ _). }
  repeat (rewrite Hreq in E; cbn [p_world p_address p_phase set_address fst snd event_of v_address v_handle v_granularity logged app] in E;
    match type of E with context [(v_call h ?c ?x).2] => let y := fresh "x" in set (y := (v_call h c x).2) in E; clearbody y end).
  unfold release_handle, free_initial in E. cbn [Z.eqb app p_address] in E. rewrite (proj2 (Z.eqb_neq _ 0) (Ha x4)) in E.
  rewrite !Hatt, !Hreq in E. cbn [p_world p_address p_phase set_address fst snd event_of app] in E.
  rewrite (proj2 (Z.eqb_neq 0 _)) in E by (intros Eq; by apply (Ha x4)). injection E as <- <-. cbn [f_status f_phase feature_of exc p_phase p_world snd].
  split_and!; [done|done|]. exists (v_address h x4). split; [|done].
  unfold held_after. cbn [foldl]. rewrite !filter_cons, !filter_nil. repeat (case_decide; rewrite ?filter_cons, ?filter_nil); try done; congruence.
Qed.
End events.

(** ** Concrete hosts *)

(** A process in the driver's state machine, with a device that keeps or loses its bytes. *)
Record toy := Toy { t_state : Z; t_exited : bool; t_replies : list pystr }.
Definition toy_reply (ok : bool) : pystr := dumps default_style (verified_reply (hexdigest [7%N]) (hexdigest [if ok then 7%N else 8%N])) ++ [10%N].
Definition toy_ready : pystr := dumps default_style (ready_reply 42 4096 (hexdigest [7%N])) ++ [10%N].
Definition toy_ckpt (op : ckpt_op) (w : toy) : Z * toy :=
  let go from to := if t_state w =? from then (0, Toy to (t_exited w) (t_replies w)) else (1, w) in
  match op with GetState => (0, w) | Lock => go 0 1 | Checkpoint => go 1 2 | Restore => go 2 1 | Unlock => go 1 0 end.
Definition toy_host (broken : bool) : ctl_host toy := CtlHost _
  (λ _, Ok tt) (λ _, true) (λ w, (0, w))
  (λ op _ w, if broken && bool_decide (op = Restore) && (length (t_replies w) =? 1)%nat then (5, Toy (t_state w) (t_exited w) []) else toy_ckpt op w) t_state
  (λ w, (42, w)) (λ w, match t_replies w with [] => (Ok [], w) | l :: rest => (Ok l, Toy (t_state w) (t_exited w) rest) end)
  (λ _ w, (Ok tt, w)) (λ w, if t_exited w then Some 0 else None) (λ w, (Ok tt, Toy (t_state w) true (t_replies w))) (λ w, w) (λ w, w).

#[local] Instance toy_checkpoint_driver broken : CheckpointDriver (toy_host broken) t_state.
Proof.
  split; cbn.
  - intros _ w code w'. rewrite andb_false_r. cbn. by intros [= <- <-].
  - intros _ w w' E Hs. destruct (broken && _ && _); [done|]. unfold toy_ckpt in E. rewrite Hs in E. by injection E as <-.
  - intros _ w w' E Hs. rewrite andb_false_r in E. cbn in E. unfold toy_ckpt in E. rewrite Hs in E. by injection E as <-.
  - intros w w' [= <-]. done.
Qed.

Definition toy_start : toy := Toy 0 false [toy_ready; toy_reply true].

Lemma probe_sound_witness : ∃ r w', probe (toy_host false) true toy_start = (Ok r, w') ∧ operations r = Some passed_log.
Proof.
  destruct (probe (toy_host false) true toy_start) as [[r|] w'] eqn:E; [|by vm_compute in E]. exists r, w'. split; [reflexivity|].
  destruct (probe_sound (toy_host false) true toy_start r w' E) as (_ & _ & _ & _ & H & _); [|exact H].
  apply (f_equal fst) in E. vm_compute in E. by injection E as <-.
Defined.

(** The first restore fails: clean-up restores and unlocks the process before it exits. *)
Lemma probe_cleans_up_witness : ∃ r w', probe (toy_host true) true toy_start = (Ok r, w') ∧ roundtrip_supported r = Some false
  ∧ length (cleanup r) = 4%nat ∧ poll (toy_host true) w' ≠ None.
Proof.
  destruct (probe (toy_host true) true toy_start) as [[r|] w'] eqn:E; [|by vm_compute in E]. exists r, w'.
  assert (api_available r = true ∧ roundtrip_supported r = Some false ∧ length (cleanup r) = 4%nat) as (H1 & H2 & H3).
  { apply (f_equal fst) in E. vm_compute in E. by injection E as <-. }
  destruct (probe_cleans_up (toy_host true) t_state toy_start r w' E H1) as [Hp _]. split; [reflexivity|]. split; [exact H2|]. split; [exact H3|exact Hp].
Defined.

(** Devices that hand out one address; one of them refuses copies. *)
Definition toy_vmm (refuse : bool) : vmm_host unit := VmmHost _
  (λ _, Ok tt) (λ _, true) (λ c w, (match c with VCopyIn _ _ => if refuse then 1 else 0 | _ => 0 end, w))
  (λ _, 16) (λ _, 4096) (λ _, 9) (λ _, pattern 16) (λ _, [1%N]) (λ _ _ _ w, (Ok (0, lit "{}"), w)).

Lemma vmm_probe_gives_back_witness : ∃ s, probe_vmm_exact_address (logged (toy_vmm false)) (tt, []) = (Feature "cuda-vmm-exact-address" passed false "", s)
  ∧ ∀ r, r ∈ held_after (p_world s).2 → r = RAddress 0 ∨ is_mapping r = true.
Proof.
  destruct (probe_vmm_exact_address (logged (toy_vmm false)) (tt, [])) as [f s] eqn:E. exists s.
  pose proof (vmm_probe_gives_back (toy_vmm false) tt f s E) as H. split; [|exact H]. f_equal. apply (f_equal fst) in E. vm_compute in E. by rewrite <- E.
Defined.

Lemma ipc_probe_gives_back_witness : ∃ f s, probe_classic_ipc (logged (toy_vmm false)) 16 (tt, []) = (f, s) ∧ f_status f = failed
  ∧ RPointer 4096 ∉ held_after (p_world s).2.
Proof.
  destruct (probe_classic_ipc (logged (toy_vmm false)) 16 (tt, [])) as [f s] eqn:E. exists f, s.
  pose proof (ipc_probe_gives_back (toy_vmm false) 16 tt f s E 4096 ltac:(done)) as H. split; [done|]. split; [|exact H].
  apply (f_equal fst) in E. vm_compute in E. by rewrite <- E.
Defined.

Lemma vmm_probe_leaves_mapping_witness : ∃ f s, probe_vmm_exact_address (logged (toy_vmm true)) (tt, []) = (f, s)
  ∧ held_after (p_world s).2 = [RMapping 4096].
Proof.
  destruct (probe_vmm_exact_address (logged (toy_vmm true)) (tt, [])) as [f s] eqn:E. exists f, s.
  destruct (vmm_probe_leaves_mapping (toy_vmm true) tt f s) as (_ & _ & a & Ha & _); [done|done|done|by intros []|exact E|].
  split; [done|]. assert (held_after (p_world (probe_vmm_exact_address (logged (toy_vmm true)) (tt, [])).2).2 = [RMapping 4096]) as Hc by (by vm_compute).
  rewrite E in Hc. cbn [snd] in Hc. rewrite Ha. rewrite Ha in Hc. exact Hc.
Defined.
