(* ===== verification/DiskPipeline.v ===== *)
(** * Disk backend: the pipelined read of a snapshot

    The positioned file transfers of [integrations/vllm/coldsnap_disk_backend.py] and the
    loop of [_restore_pipeline] that overlaps disk reads with device copies: a thread pool
    reads the next chunks into a ring of host stages while the caller checks and copies
    the oldest one, and hands its stage to the next read.

    The pool's threads and the caller are interleaved: an event is one step of the caller
    or one [preadv] of a reader, and a schedule is a list of events. *)

From S2P Require Import Prelude Ranges PyFloat PyJson Hash VllmMemory DiskLayout.
From S2P Require Import Artifact.

(** ** Positioned transfers *)

(** [os.pwritev] of [data] at [offset]; a gap beyond the end reads as zero. *)
Definition pwrite (f : pybytes) (offset : nat) (data : pybytes) : pybytes :=
  take offset f ++ replicate (offset - length f) 0%N ++ data ++ drop (offset + length data) f.

(** [_write_all_at]. [transfer wanted offset] is what one call writes, at most [wanted];
    every round writes at least one byte, so the length is enough fuel. *)
Fixpoint write_all_at (fuel : nat) (transfer : Z → Z → Z) (f view : pybytes) (offset written : Z) : res unit * pybytes :=
  match fuel with
  | O => (Ok tt, f)
  | S fuel' =>
      if written <? Z.of_nat (length view) then
        let wanted := Z.of_nat (length view) - written in
        let count := Z.min wanted (transfer wanted (offset + written)) in
        if count <=? 0 then (Raise (Exn OSError "pwritev returned no data"), f)
        else write_all_at fuel' transfer
               (pwrite f (Z.to_nat (offset + written)) (file_read view written count)) view offset (written + count)
      else (Ok tt, f)
  end.

(** [_read_exact_at] run to its end: the bytes of the view, or the end of the file. *)
Definition read_exact_at (f : pybytes) (offset count : Z) : res pybytes :=
  let bytes := file_read f offset count in
  if Z.of_nat (length bytes) <? count then Raise (Exn EOFError "snapshot ended") else Ok bytes.

(** ** The pipeline *)

(** [_chunk_descriptors]: destination, file offset, count, allocation. *)
Notation chunk := (Z * Z * Z * Z)%type (only parsing).
Definition c_destination (c : chunk) : Z := c.1.1.1.
Definition c_offset (c : chunk) : Z := c.1.1.2.
Definition c_count (c : chunk) : Z := c.1.2.
Definition c_allocation (c : chunk) : Z := c.2.

(** A future of the pool: how far [_read_exact_at] is, or how it ended. *)
Inductive progress := Reading (read : Z) | Finished | Errored (e : exn).
#[global] Instance progress_eq_dec : EqDecision progress.
Proof. solve_decision. Defined.

Record task := Task { t_chunk : chunk; t_buffer : nat; t_progress : progress }.

(** An entry of [pending]: descriptor, stage, and the future by its submission number. *)
Record pending_read := Pending { pr_chunk : chunk; pr_buffer : nat; pr_future : nat }.

(** Where the caller is: filling the ring, at the head of [while pending], in
    [future.result()], before the checksum, before the copy, before the next submission. *)
Inductive caller :=
| Filling
| Looping
| Waiting (p : pending_read)
| Checking (p : pending_read)
| Copying (p : pending_read)
| Refilling (buffer : nat)
| Complete
| Failed (e : exn).

(** A step of the caller, one [preadv] of a reader, an I/O error of a reader. *)
Inductive pool_event := Caller | Reader (future : nat) (bytes : Z) | Fault (future : nat).

Definition is_fault (e : pool_event) : bool := match e with Fault _ => true | _ => false end.

Section pipeline.
Context {D : Type}.

(** [copy_from_host] with a device copy that may fail. *)
Variable write_device : Z → pybytes → D → res unit * D.
Definition copy_from_host (destination : Z) (stage : pybytes) (size : Z) (d : D) : res unit * D :=
  match validate_copy (Z.of_nat (length stage)) size with
  | Raise e => (Raise e, d)
  | Ok _ => write_device destination (take (Z.to_nat size) stage) d
  end.

Record pipeline := Pipeline {
  next_chunk : nat; pending : list pending_read; tasks : list task; stages : list pybytes;
  checksums : gmap Z N; restored_bytes : Z; device : D; at_ : caller;
}.

Definition goto (st : pipeline) (c : caller) : pipeline :=
  Pipeline (next_chunk st) (pending st) (tasks st) (stages st) (checksums st) (restored_bytes st) (device st) c.

(** The blob, the chunks, the ring size and [verify_mode == "inline"]. *)
Variables (f : pybytes) (chunks : list chunk) (depth : nat) (inline : bool).

(** [pool.submit(_timed_read, fd, view[:count], offset)] *)
Definition view_length (st : pipeline) (buffer : nat) (count : Z) : Z :=
  Z.min count (Z.of_nat (length (default [] (stages st !! buffer)))).
Definition submit (c : chunk) (buffer : nat) (then_ : caller) (st : pipeline) : pipeline :=
  Pipeline (S (next_chunk st)) (pending st ++ [Pending c buffer (length (tasks st))])
    (tasks st ++ [Task c buffer (if view_length st buffer (c_count c) <=? 0 then Finished else Reading 0)])
    (stages st) (checksums st) (restored_bytes st) (device st) then_.

(** The caller's next step; [None] when it is blocked or has returned. *)
Definition caller_step (st : pipeline) : option pipeline :=
  match at_ st with
  | Filling =>
      Some (if (next_chunk st <? depth)%nat then
              match chunks !! next_chunk st with
              | Some c => submit c (next_chunk st) Filling st
              | None => goto st (Failed (Exn IndexError "list index out of range"))
              end
            else goto st Looping)
  | Looping =>
      Some (match pending st with
            | [] => goto st Complete
            | p :: rest => Pipeline (next_chunk st) rest (tasks st) (stages st) (checksums st) (restored_bytes st)
                             (device st) (Waiting p)
            end)
  | Waiting p =>
      match t_progress <$> tasks st !! pr_future p with
      | Some Finished => Some (goto st (Checking p))
      | Some (Errored e) => Some (goto st (Failed e))
      | _ => None
      end
  | Checking p =>
      Some (if inline then
              match checksums st !! c_allocation (pr_chunk p), stages st !! pr_buffer p with
              | Some crc, Some stage =>
                  Pipeline (next_chunk st) (pending st) (tasks st) (stages st)
                    (<[ c_allocation (pr_chunk p) := crc32 (take (Z.to_nat (c_count (pr_chunk p))) stage) crc ]> (checksums st))
                    (restored_bytes st) (device st) (Copying p)
              | _, _ => goto st (Failed (Exn KeyError "allocation"))
              end
            else goto st (Copying p))
  | Copying p =>
      Some (let '(outcome, d) := copy_from_host (c_destination (pr_chunk p)) (default [] (stages st !! pr_buffer p))
                                   (c_count (pr_chunk p)) (device st) in
            match outcome with
            | Raise e => Pipeline (next_chunk st) (pending st) (tasks st) (stages st) (checksums st) (restored_bytes st) d (Failed e)
            | Ok _ => Pipeline (next_chunk st) (pending st) (tasks st) (stages st) (checksums st)
                        (restored_bytes st + c_count (pr_chunk p)) d (Refilling (pr_buffer p))
            end)
  | Refilling buffer =>
      Some (match chunks !! next_chunk st with
            | Some c => submit c buffer Looping st
            | None => goto st Looping
            end)
  | Complete | Failed _ => None
  end.

Definition with_task (st : pipeline) (i : nat) (t : task) (stages' : list pybytes) : pipeline :=
  Pipeline (next_chunk st) (pending st) (<[ i := t ]> (tasks st)) stages' (checksums st) (restored_bytes st) (device st) (at_ st).

(** One [preadv]: at least one byte unless the file has ended. *)
Definition reader_step (i : nat) (bytes : Z) (st : pipeline) : option pipeline :=
  match tasks st !! i with
  | Some (Task c buffer (Reading read)) =>
      let wanted := view_length st buffer (c_count c) - read in
      let available := file_read f (c_offset c + read) wanted in
      let count := Z.max 1 (Z.min bytes (Z.of_nat (length available))) in
      Some (if (length available =? 0)%nat then with_task st i (Task c buffer (Errored (Exn EOFError "snapshot ended"))) (stages st)
            else with_task st i (Task c buffer (if read + count <? view_length st buffer (c_count c) then Reading (read + count) else Finished))
                   (alter (λ stage, pwrite stage (Z.to_nat read) (take (Z.to_nat count) available)) buffer (stages st)))
  | _ => None
  end.
Definition fault_step (i : nat) (st : pipeline) : option pipeline :=
  match tasks st !! i with
  | Some (Task c buffer (Reading _)) => Some (with_task st i (Task c buffer (Errored (Exn OSError "preadv"))) (stages st))
  | _ => None
  end.

Definition pool_step (e : pool_event) (st : pipeline) : option pipeline :=
  match e with
  | Caller => caller_step st
  | Reader i n => reader_step i n st
  | Fault i => fault_step i st
  end.

(** A schedule; an event that is not possible leaves the state. *)
Definition run_events (events : list pool_event) (st : pipeline) : pipeline :=
  foldl (λ st e, default st (pool_step e st)) st events.

(** What is left to do: chunks to take, the caller's own steps, and bytes to read. *)
Definition caller_rank (st : pipeline) : nat :=
  match at_ st with
  | Filling => 2 + (depth - next_chunk st)
  | Looping => 1 | Waiting _ => 5 | Checking _ => 4 | Copying _ => 3 | Refilling _ => 2 | Complete | Failed _ => 0
  end.
Definition task_rank (st : pipeline) (t : task) : nat :=
  match t_progress t with
  | Reading read => S (Z.to_nat (view_length st (t_buffer t) (c_count (t_chunk t)) - read))
  | _ => 0
  end.
Definition chunk_rank (c : chunk) : nat := S (Z.to_nat (c_count c)).
Definition work_left (st : pipeline) : nat :=
  6 * (length (pending st) + (length chunks - next_chunk st)) + caller_rank st
  + sum_list (task_rank st <$> tasks st) + sum_list (chunk_rank <$> drop (next_chunk st) chunks).

(** The caller runs to its end; where it waits, its reader runs. *)
Fixpoint drain (fuel : nat) (st : pipeline) : pipeline :=
  match fuel with
  | O => st
  | S fuel' =>
      match caller_step st with
      | Some st' => drain fuel' st'
      | None =>
          match at_ st with
          | Waiting p => match reader_step (pr_future p) (c_count (pr_chunk p)) st with Some st' => drain fuel' st' | None => st end
          | _ => st
          end
      end
  end.

Definition outcome (st : pipeline) : option (res unit) :=
  match at_ st with Complete => Some (Ok tt) | Failed e => Some (Raise e) | _ => None end.

(** The ring as [_restore_pipeline] makes it, and the whole loop under a schedule. *)
Definition pipeline_start (chunk_bytes : Z) (pointers : list Z) (d : D) : pipeline :=
  Pipeline 0 [] [] (replicate depth (replicate (Z.to_nat chunk_bytes) 0%N))
    (list_to_map ((λ p, (p, 0%N)) <$> pointers)) 0 d Filling.
Definition run_pipeline (events : list pool_event) (st : pipeline) : pipeline :=
  let st := run_events events st in drain (work_left st) st.

(** ** The reference: one chunk after the other *)

Definition copy_chunk (c : chunk) (s : gmap Z N * Z * D) : res unit * (gmap Z N * Z * D) :=
  let '(sums, restored, d) := s in
  match read_exact_at f (c_offset c) (c_count c) with
  | Raise e => (Raise e, s)
  | Ok bytes =>
      match (if inline then sums !! c_allocation c else Some 0%N) with
      | None => (Raise (Exn KeyError "allocation"), s)
      | Some crc =>
          let sums := if inline then <[ c_allocation c := crc32 bytes crc ]> sums else sums in
          match write_device (c_destination c) bytes d with
          | (Ok _, d') => (Ok tt, (sums, restored + c_count c, d'))
          | (Raise e, d') => (Raise e, (sums, restored, d'))
          end
      end
  end.
Definition copy_chunks : list chunk → ST (gmap Z N * Z * D) unit := st_iter copy_chunk.
End pipeline.
Arguments pipeline : clear implicits.
