(* ===== verification/DiskPipelineSpec.v ===== *)
(** * The pipelined read refines the sequential one

    Every schedule of readers and caller reaches the result of copying one chunk after the
    other: a stage is handed to the next read only after its chunk was copied, so reads in
    flight never share a stage. Every step shortens the work left, and a pipeline that has
    not returned can always move. *)

From S2P Require Import Prelude Ranges PyFloat PyJson Hash VllmMemory DiskLayout.
From S2P Require Import Artifact DiskPipeline.

(** ** Files and stages *)

Lemma file_read_length f p n : 0 <= n → 0 <= p →
  Z.of_nat (length (file_read f p n)) = Z.min n (Z.max 0 (Z.of_nat (length f) - p)).
Proof. intros. unfold file_read. rewrite length_take, length_drop. lia. Qed.

(** A read continued where it stopped. *)
Lemma file_read_continue f p n m : 0 <= p → 0 <= n → 0 <= m → Z.of_nat (length (file_read f p n)) = n →
  file_read f p n ++ file_read f (p + n) m = file_read f p (n + m).
Proof.
  intros Hp Hn Hm H. unfold file_read. rewrite !Z2Nat.inj_add, <- drop_drop by done.
  by rewrite take_take_drop.
Qed.
Lemma take_file_read f p n m : 0 <= m → m <= n → take (Z.to_nat m) (file_read f p n) = file_read f p m.
Proof. intros. unfold file_read. rewrite take_take. f_equal. lia. Qed.

Lemma length_pwrite f o d : (o + length d <= length f)%nat → length (pwrite f o d) = length f.
Proof.
  intros. unfold pwrite. replace (o - length f)%nat with 0%nat by lia.
  rewrite !length_app, length_take, length_drop. simpl. lia.
Qed.

Lemma take_pwrite f o d : (o + length d <= length f)%nat → take (o + length d) (pwrite f o d) = take o f ++ d.
Proof.
  intros. unfold pwrite. replace (o - length f)%nat with 0%nat by lia. simpl.
  rewrite app_assoc, take_app_le, take_ge; rewrite ?length_app, ?length_take; try lia. done.
Qed.

Lemma sum_list_insert {A} (g : A → nat) l i x y : l !! i = Some x →
  (sum_list (g <$> <[ i := y ]> l) + g x = sum_list (g <$> l) + g y)%nat.
Proof. revert i. induction l as [|z l IH]; intros [|i] Hi; csimpl in *; simplify_eq; [lia|]. pose proof (IH _ Hi). lia. Qed.

(** A loop over two lists in a row. *)
Lemma st_iter_app {W A} (g : A → ST W unit) l k w : st_iter g (l ++ k) w = (st_iter g l ≫= λ _, st_iter g k) w.
Proof.
  revert w. induction l as [|x l IH]; intros w; [done|]. cbn [st_iter app]. unfold mbind, st_bind.
  destruct (g x w) as [[|]]; [|done]. apply IH.
Qed.

(** ** [_write_all_at] *)

Lemma pwrite_nil f o : (o <= length f)%nat → pwrite f o [] = f.
Proof.
  intros. unfold pwrite. replace (o - length f)%nat with 0%nat by lia. simpl. by rewrite Nat.add_0_r, take_drop.
Qed.
Lemma pwrite_pwrite f o a b : (o <= length f)%nat →
  pwrite (pwrite f o a) (o + length a) b = pwrite f o (a ++ b).
Proof.
  intros Ho. unfold pwrite. replace (o - length f)%nat with 0%nat by lia. simpl.
  assert (length (take o f ++ a) = o + length a)%nat as Hl by (rewrite length_app, length_take; lia).
  rewrite !(app_assoc (take o f)), take_app_length' by done. rewrite !length_app, length_drop, length_take.
  replace (o + length a - (_ + _))%nat with 0%nat by lia. simpl. rewrite <- !app_assoc.
  do 3 f_equal. rewrite app_assoc, drop_app_ge by lia.
  rewrite drop_drop, Hl. f_equal. lia.
Qed.

Lemma write_all_at_ok fuel transfer f f' view offset written :
  0 <= written <= Z.of_nat (length view) → Z.of_nat (length view) - written <= Z.of_nat fuel → 0 <= offset →
  offset + written <= Z.of_nat (length f) → write_all_at fuel transfer f view offset written = (Ok tt, f') →
  f' = pwrite f (Z.to_nat (offset + written)) (drop (Z.to_nat written) view).
Proof.
  revert f written. induction fuel as [|fuel IH]; intros f written Hw Hf Ho Hlen E; cbn [write_all_at] in E.
  - injection E as <-. by rewrite drop_ge, pwrite_nil by lia.
  - destruct (Z.ltb_spec written (Z.of_nat (length view))).
    + set (count := Z.min _ _) in E. destruct (Z.leb_spec count 0); [done|].
      assert (0 < count <= Z.of_nat (length view) - written) as Hc by lia.
      assert (length (file_read view written count) = Z.to_nat count) as Hr.
      { apply Nat2Z.inj. rewrite file_read_length by lia. lia. }
      apply IH in E as ->; [|lia..|].
      2:{ unfold pwrite. rewrite !length_app, length_take, length_replicate, length_drop, Hr. lia. }
      replace (Z.to_nat (offset + (written + count)))
        with (Z.to_nat (offset + written) + length (file_read view written count))%nat by lia.
      rewrite pwrite_pwrite by lia. f_equal. unfold file_read.
      rewrite <- (take_drop (Z.to_nat count) (drop (Z.to_nat written) view)) at 2. f_equal.
      rewrite drop_drop. f_equal. lia.
    + injection E as <-. by rewrite drop_ge, pwrite_nil by lia.
Qed.

(** ** The ring *)

#[local] Instance chunk_inhabited : Inhabited (Z * Z * Z * Z).
Proof. exact (populate (0, 0, 0, 0)). Qed.

Section ring.
Context {D : Type} (write_device : Z → pybytes → D → res unit * D).
Context (f : pybytes) (chunks : list (Z * Z * Z * Z)) (depth : nat) (inline : bool) (chunk_bytes : Z).
Context (s0 : gmap Z N * Z * D).
Hypothesis Hdepth : (0 < depth <= length chunks)%nat.
Hypothesis Hchunks : ∀ c, c ∈ chunks → 0 < c_count c <= chunk_bytes ∧ 0 <= c_offset c.

Notation step := (pool_step write_device f chunks depth inline).
Notation copy_all := (copy_chunks write_device f inline).

Definition slot (i : nat) : nat := i mod depth.
Definition entry (i : nat) : pending_read := Pending (chunks !!! i) (slot i) i.
Definition chunk_data (c : Z * Z * Z * Z) : pybytes := file_read f (c_offset c) (c_count c).

(** What a task's stage holds, given whether a reader has failed. *)
Definition task_ok (faulty : bool) (stage : pybytes) (t : task) : Prop :=
  match t_progress t with
  | Reading read => 0 <= read < c_count (t_chunk t) ∧ take (Z.to_nat read) stage = file_read f (c_offset (t_chunk t)) read
      ∧ Z.of_nat (length (file_read f (c_offset (t_chunk t)) read)) = read
  | Finished => take (Z.to_nat (c_count (t_chunk t))) stage = chunk_data (t_chunk t)
      ∧ Z.of_nat (length (chunk_data (t_chunk t))) = c_count (t_chunk t)
  | Errored e => (e = Exn EOFError "snapshot ended" ∧ Z.of_nat (length (chunk_data (t_chunk t))) < c_count (t_chunk t))
      ∨ (faulty = true ∧ e = Exn OSError "preadv")
  end.

(** The caller has copied [k] chunks. *)
Record ring_inv (faulty : bool) (k : nat) (st : pipeline D) : Prop := {
  ri_next : (next_chunk st <= length chunks)%nat;
  ri_length : length (tasks st) = next_chunk st;
  ri_stages : length (stages st) = depth ∧ Forall (λ s, length s = Z.to_nat chunk_bytes) (stages st);
  ri_window : (next_chunk st <= k + depth)%nat;
  ri_tasks : ∀ i t, tasks st !! i = Some t → t_chunk t = chunks !!! i ∧ t_buffer t = slot i
    ∧ if decide (k <= i)%nat then task_ok faulty (stages st !!! slot i) t else t_progress t = Finished;
}.

(** What the caller has done, at each of its positions. *)
Definition copied (k : nat) (st : pipeline D) (sums : gmap Z N) : Prop :=
  copy_all (take k chunks) s0 = (Ok tt, (sums, restored_bytes st, device st)).
Definition head_read (k : nat) (st : pipeline D) (p : pending_read) : Prop :=
  p = entry k ∧ (k < next_chunk st)%nat ∧ pending st = entry <$> seq (S k) (next_chunk st - S k)
  ∧ next_chunk st = Nat.min (length chunks) (k + depth).
Definition caller_inv (faulty : bool) (k : nat) (st : pipeline D) : Prop :=
  match at_ st with
  | Filling => k = 0%nat ∧ (next_chunk st <= depth)%nat ∧ pending st = entry <$> seq 0 (next_chunk st) ∧ copied k st (checksums st)
  | Looping => (k <= next_chunk st)%nat ∧ pending st = entry <$> seq k (next_chunk st - k)
      ∧ next_chunk st = Nat.min (length chunks) (k + depth) ∧ copied k st (checksums st)
  | Waiting p => head_read k st p ∧ copied k st (checksums st)
  | Checking p => head_read k st p ∧ (t_progress <$> tasks st !! k = Some Finished) ∧ copied k st (checksums st)
  | Copying p => head_read k st p ∧ (t_progress <$> tasks st !! k = Some Finished) ∧ ∃ sums crc, copied k st sums
      ∧ (if inline then sums !! c_allocation (pr_chunk p) else Some 0%N) = Some crc
      ∧ checksums st = if inline then <[ c_allocation (pr_chunk p) := crc32 (chunk_data (pr_chunk p)) crc ]> sums else sums
  | Refilling b => ∃ j, k = S j ∧ (k <= next_chunk st)%nat ∧ b = slot j ∧ pending st = entry <$> seq k (next_chunk st - k)
      ∧ next_chunk st = Nat.min (length chunks) (j + depth) ∧ copied k st (checksums st)
  | Complete => k = length chunks ∧ copied k st (checksums st)
  | Failed e => copy_all chunks s0 = (Raise e, (checksums st, restored_bytes st, device st))
      ∨ (faulty = true ∧ e = Exn OSError "preadv")
  end.

Definition good (faulty : bool) (st : pipeline D) : Prop := ∃ k, ring_inv faulty k st ∧ caller_inv faulty k st.

Lemma slot_lt i : (slot i < depth)%nat.
Proof. apply Nat.mod_upper_bound. lia. Qed.

(** Reads in flight have different stages. *)
Lemma slot_inj k i j : (k <= i < k + depth)%nat → (k <= j < k + depth)%nat → slot i = slot j → i = j.
Proof.
  unfold slot. intros Hi Hj E. pose proof (Nat.div_mod i depth ltac:(lia)). pose proof (Nat.div_mod j depth ltac:(lia)).
  assert (i / depth = j / depth ∨ i / depth < j / depth ∨ j / depth < i / depth)%nat as [|[|]] by lia; nia.
Qed.

Lemma chunk_at i : (i < length chunks)%nat → chunks !! i = Some (chunks !!! i).
Proof. intros. by apply list_lookup_lookup_total_lt. Qed.
Lemma chunk_good i : (i < length chunks)%nat → 0 < c_count (chunks !!! i) <= chunk_bytes ∧ 0 <= c_offset (chunks !!! i).
Proof. intros Hi. apply Hchunks. eapply list_elem_of_lookup_2. by apply chunk_at. Qed.

Lemma stage_at faulty k st i : ring_inv faulty k st → ∃ s, stages st !! slot i = Some s ∧ stages st !!! slot i = s
  ∧ length s = Z.to_nat chunk_bytes.
Proof.
  intros [_ _ [Hl Hs] _ _]. pose proof (slot_lt i).
  destruct (lookup_lt_is_Some_2 (stages st) (slot i)) as [s E]; [lia|]. exists s. split_and!; [done| |].
  - by apply list_lookup_total_correct.
  - by eapply (Forall_lookup_1 (λ s, length s = _)).
Qed.

Lemma view_full faulty k st i : ring_inv faulty k st → (i < length chunks)%nat →
  view_length st (slot i) (c_count (chunks !!! i)) = c_count (chunks !!! i).
Proof.
  intros Hr Hi. destruct (stage_at _ _ _ i Hr) as (s & E & _ & Hs). pose proof (chunk_good i Hi).
  unfold view_length. rewrite E. change (default [] (Some s)) with s. lia.
Qed.

(** *** Steps of the readers *)

Lemma task_ok_mono b stage t : task_ok b stage t → task_ok true stage t.
Proof. unfold task_ok. destruct (t_progress t); [done..|]. intros [?|[_ ?]]; auto. Qed.

Lemma caller_inv_task b k st i c buffer r t stages' :
  tasks st !! i = Some (Task c buffer (Reading r)) → caller_inv b k st → caller_inv b k (with_task st i t stages').
Proof.
  intros Hi. assert (t_progress <$> tasks st !! k = Some Finished →
    t_progress <$> tasks (with_task st i t stages') !! k = Some Finished) as Hk.
  { cbn. destruct (decide (i = k)) as [->|]; [by rewrite Hi|]. by rewrite list_lookup_insert_ne. }
  unfold caller_inv, with_task in *. cbn [at_]. destruct (at_ st); unfold head_read, copied in *; cbn [next_chunk pending restored_bytes device checksums]; tauto || auto.
  all: intros (? & ? & ?); auto.
Qed.

(** A change of one task in flight and its stage. *)
Lemma ring_inv_task b b' k st i t t' stages' :
  ring_inv b k st → tasks st !! i = Some t → (k <= i)%nat → t_chunk t' = t_chunk t → t_buffer t' = t_buffer t →
  (∀ s t, task_ok b s t → task_ok b' s t) →
  length stages' = depth → Forall (λ s, length s = Z.to_nat chunk_bytes) stages' →
  (∀ j, j ≠ slot i → stages' !!! j = stages st !!! j) → task_ok b' (stages' !!! slot i) t' →
  ring_inv b' k (with_task st i t' stages').
Proof.
  intros Hr Hi Hki Hc Hb Hmono Hl Hs Hother Hok. pose proof (ri_tasks _ _ _ Hr i t Hi) as (Hci & Hbi & _).
  pose proof (lookup_lt_Some _ _ _ Hi). destruct Hr as [Hn Hlen _ Hw Ht].
  split; cbn [next_chunk tasks stages with_task]; try done; [by rewrite length_insert|].
  intros j u. destruct (decide (i = j)) as [<-|Hij].
  - rewrite list_lookup_insert_eq by done. intros [= <-]. rewrite Hc, Hb, decide_True by done. done.
  - rewrite list_lookup_insert_ne by done. intros Hj. pose proof (Ht j u Hj) as (? & ? & Hju). pose proof (lookup_lt_Some _ _ _ Hj).
    split_and!; [done..|]. case_decide; [|done]. apply Hmono. rewrite Hother; [done|].
    intros E. apply Hij. symmetry. apply (slot_inj k); [lia..|done].
Qed.

Lemma reading_task b k st i c buffer r : ring_inv b k st → tasks st !! i = Some (Task c buffer (Reading r)) →
  (i < length chunks)%nat ∧ (k <= i)%nat ∧ c = chunks !!! i ∧ buffer = slot i
  ∧ 0 <= r < c_count c ∧ take (Z.to_nat r) (stages st !!! slot i) = file_read f (c_offset c) r
  ∧ Z.of_nat (length (file_read f (c_offset c) r)) = r.
Proof.
  intros Hr Hi. pose proof (ri_tasks _ _ _ Hr i _ Hi) as (Hc & Hb & Hp). pose proof (lookup_lt_Some _ _ _ Hi).
  pose proof (ri_length _ _ _ Hr). pose proof (ri_next _ _ _ Hr). cbn [t_chunk t_buffer] in Hc, Hb. subst.
  case_decide; [|done]. destruct Hp as (? & ? & ?). cbn [t_chunk] in *. split_and!; (done || lia).
Qed.

Lemma reader_good b st i n st' : good b st → reader_step f i n st = Some st' → good b st'.
Proof.
  intros (k & Hr & Hm) Hstep. unfold reader_step in Hstep.
  destruct (tasks st !! i) as [[c buffer [r| |]]|] eqn:Hi; try done. exists k.
  destruct (reading_task _ _ _ _ _ _ _ Hr Hi) as (Hin & Hki & -> & -> & Hread & Htake & Hlen).
  rewrite (view_full _ _ _ _ Hr Hin) in Hstep. destruct (chunk_good i Hin) as [Hcount Hoff].
  destruct (stage_at _ _ _ i Hr) as (s & Es & Es' & Hs). destruct (ri_stages _ _ _ Hr) as [Hsl Hsf].
  set (c := chunks !!! i) in *. set (available := file_read f (c_offset c + r) (c_count c - r)) in *.
  assert (chunk_data c = file_read f (c_offset c) r ++ available) as Hdata.
  { unfold chunk_data, available. rewrite file_read_continue by lia. f_equal. lia. }
  pose proof (file_read_length f (c_offset c + r) (c_count c - r) ltac:(lia) ltac:(lia)) as Hav. fold available in Hav.
  destruct (Nat.eqb_spec (length available) 0) as [E0|E0]; injection Hstep as <-;
    (split; [|by eapply caller_inv_task]).
  - eapply ring_inv_task; try done. left. split; [done|]. cbn [t_chunk]. fold c. rewrite Hdata, length_app. lia.
  - set (count := Z.max 1 _) in *. set (part := take (Z.to_nat count) available).
    assert (length part = Z.to_nat count) as Hpart by (unfold part; rewrite length_take; lia).
    assert (part = file_read f (c_offset c + r) count) as Epart by (apply take_file_read; lia).
    assert (file_read f (c_offset c) r ++ part = file_read f (c_offset c) (r + count)) as Hjoin.
    { rewrite Epart. apply file_read_continue; lia. }
    eapply ring_inv_task; try done.
    + by rewrite length_alter.
    + apply Forall_alter; [done|]. intros s' Es2 Hs'. rewrite Es in Es2. injection Es2 as <-. rewrite length_pwrite; [done|lia].
    + intros j Hj. rewrite !list_lookup_total_alt, list_lookup_alter_ne by done. done.
    + rewrite list_lookup_total_alt, list_lookup_alter_eq, Es. cbn [fmap option_fmap option_map default from_option id].
      rewrite Es' in Htake.
      assert (take (Z.to_nat (r + count)) (pwrite s (Z.to_nat r) part) = file_read f (c_offset c) (r + count)) as Hnew.
      { replace (Z.to_nat (r + count)) with (Z.to_nat r + length part)%nat by lia. rewrite take_pwrite by lia. by rewrite Htake. }
      assert (Z.of_nat (length (file_read f (c_offset c) (r + count))) = r + count) as Hl'.
      { rewrite <- Hjoin, length_app. lia. }
      unfold task_ok. cbn [t_progress t_chunk]. destruct (Z.ltb_spec (r + count) (c_count c)).
      * split_and!; try lia; done.
      * assert (r + count = c_count c) as E by lia. rewrite E in *. done.
Qed.

Lemma fault_good b st i st' : good b st → fault_step i st = Some st' → good true st'.
Proof.
  intros (k & Hr & Hm) Hstep. unfold fault_step in Hstep.
  destruct (tasks st !! i) as [[c buffer [r| |]]|] eqn:Hi; try done. injection Hstep as <-. exists k.
  destruct (reading_task _ _ _ _ _ _ _ Hr Hi) as (Hin & Hki & -> & -> & _). destruct (ri_stages _ _ _ Hr) as [Hsl Hsf]. split.
  - eapply ring_inv_task; try done; [apply task_ok_mono|]. by right.
  - assert (caller_inv true k st) by (unfold caller_inv in *; destruct (at_ st); tauto). by eapply caller_inv_task.
Qed.

(** *** Steps of the caller *)

Lemma copy_next k s s' : (k < length chunks)%nat → copy_all (take k chunks) s0 = (Ok tt, s) →
  copy_chunk write_device f inline (chunks !!! k) s = (Ok tt, s') → copy_all (take (S k) chunks) s0 = (Ok tt, s').
Proof.
  intros Hk H1 H2. rewrite (take_S_r _ _ (chunks !!! k)) by (by apply chunk_at). unfold copy_chunks in *.
  rewrite st_iter_app. unfold mbind, st_bind. rewrite H1. cbn [st_iter]. unfold mbind, st_bind. by rewrite H2.
Qed.
Lemma copy_stops k s s' e : (k < length chunks)%nat → copy_all (take k chunks) s0 = (Ok tt, s) →
  copy_chunk write_device f inline (chunks !!! k) s = (Raise e, s') → copy_all chunks s0 = (Raise e, s').
Proof.
  intros Hk H1 H2. rewrite <- (take_drop_middle chunks k (chunks !!! k)) by (by apply chunk_at). unfold copy_chunks in *.
  rewrite st_iter_app. unfold mbind, st_bind. rewrite H1. cbn [st_iter]. unfold mbind, st_bind. by rewrite H2.
Qed.

(** Moving the caller, and dropping pending entries, keep the ring. *)
Lemma ring_inv_goto b k st st' : ring_inv b k st → next_chunk st' = next_chunk st → tasks st' = tasks st → stages st' = stages st →
  ring_inv b k st'.
Proof. intros [? ? ? ? ?] E1 E2 E3. split; rewrite ?E1, ?E2, ?E3; done. Qed.

Lemma ring_inv_submit b k st then_ : ring_inv b k st → (next_chunk st < length chunks)%nat → (next_chunk st < k + depth)%nat →
  (k <= next_chunk st)%nat → ring_inv b k (submit (chunks !!! next_chunk st) (slot (next_chunk st)) then_ st).
Proof.
  intros Hr Hn Hw Hk. pose proof (view_full _ _ _ _ Hr Hn) as Hv. destruct (chunk_good _ Hn) as [Hc Ho].
  destruct (stage_at _ _ _ (next_chunk st) Hr) as (s & _ & Es & _). destruct Hr as [Hnext Hlen Hs _ Ht].
  split; cbn [next_chunk tasks stages submit]; try done; try lia.
  { rewrite length_app. simpl. lia. }
  intros i t. rewrite lookup_app_Some. intros [Hi|[Hi Hlast]]; [by apply Ht|].
  apply list_lookup_singleton_Some in Hlast as [E <-]. assert (i = next_chunk st) as -> by lia. cbn [t_chunk t_buffer].
  rewrite decide_True, Hv by done. split_and!; [done..|].
  destruct (Z.leb_spec (c_count (chunks !!! next_chunk st)) 0); [lia|].
  unfold task_ok. cbn [t_progress t_chunk]. split_and!; [lia|lia|done|done].
Qed.

(** The head of the ring moves past a chunk that was copied. *)
Lemma ring_inv_advance b k st st' : ring_inv b k st → t_progress <$> tasks st !! k = Some Finished →
  next_chunk st' = next_chunk st → tasks st' = tasks st → stages st' = stages st → ring_inv b (S k) st'.
Proof.
  intros [? ? ? ? Ht] Hk E1 E2 E3. split; rewrite ?E1, ?E2, ?E3; try done; [lia|].
  intros i t Hi. destruct (Ht i t Hi) as (? & ? & H'). split_and!; [done..|].
  destruct (decide (S k <= i)%nat); [by rewrite decide_True in H' by lia|].
  destruct (decide (i = k)) as [->|]; [by rewrite Hi in Hk; injection Hk|]. by rewrite decide_False in H' by lia.
Qed.

Lemma seq_entries k n : (k <= n)%nat → (entry <$> seq k (n - k)) ++ [entry n] = entry <$> seq k (S n - k).
Proof.
  intros. replace (S n - k)%nat with (S (n - k)) by lia. rewrite seq_S, fmap_app. simpl. do 3 f_equal. lia.
Qed.

(** What the stage of the head of the ring holds. *)
Lemma head_data b k st : ring_inv b k st → (k < next_chunk st)%nat → t_progress <$> tasks st !! k = Some Finished →
  take (Z.to_nat (c_count (chunks !!! k))) (stages st !!! slot k) = chunk_data (chunks !!! k)
  ∧ read_exact_at f (c_offset (chunks !!! k)) (c_count (chunks !!! k)) = Ok (chunk_data (chunks !!! k)).
Proof.
  intros Hr Hk Hf. destruct (tasks st !! k) as [[c buf pr]|] eqn:E; [|done]. injection Hf as ->.
  destruct (ri_tasks _ _ _ Hr _ _ E) as (Hc & _ & Hok). cbn [t_chunk] in Hc. subst c. rewrite decide_True in Hok by done.
  destruct Hok as [H1 H2]. split; [done|]. unfold read_exact_at. cbv zeta. change (file_read f _ _) with (chunk_data (chunks !!! k)).
  assert (Z.of_nat (length (chunk_data (chunks !!! k))) = c_count (chunks !!! k)) as E2 by exact H2. rewrite E2. by rewrite Z.ltb_irrefl.
Qed.

Ltac at_case E := unfold caller_inv, caller_step in *; rewrite E in *.

Lemma filling_good b k st st' : at_ st = Filling → ring_inv b k st → caller_inv b k st →
  caller_step write_device chunks depth inline st = Some st' → good b st'.
Proof.
  intros E Hr Hm Hstep. at_case E. destruct Hm as (-> & Hn & Hp & Hc). exists 0%nat. injection Hstep as <-.
  destruct (Nat.ltb_spec (next_chunk st) depth).
  - assert (slot (next_chunk st) = next_chunk st) as Es by (by apply Nat.mod_small). rewrite chunk_at by lia.
    replace (submit _ (next_chunk st) Filling st) with (submit (chunks !!! next_chunk st) (slot (next_chunk st)) Filling st)
      by (by rewrite Es).
    split; [apply ring_inv_submit; (done || lia)|].
    unfold caller_inv. cbn [at_ submit next_chunk pending]. split_and!; [done|lia| |done].
    rewrite Hp, (ri_length _ _ _ Hr). pose proof (seq_entries 0 (next_chunk st) ltac:(lia)) as Hs. rewrite !Nat.sub_0_r in Hs. exact Hs.
  - split; [by eapply ring_inv_goto|]. unfold caller_inv. cbn [at_ goto next_chunk pending]. rewrite Nat.sub_0_r.
    split_and!; [lia|done|lia|done].
Qed.

Lemma looping_good b k st st' : at_ st = Looping → ring_inv b k st → caller_inv b k st →
  caller_step write_device chunks depth inline st = Some st' → good b st'.
Proof.
  intros E Hr Hm Hstep. at_case E. destruct Hm as (Hk & Hp & Hn & Hc). exists k. injection Hstep as <-.
  rewrite Hp. destruct (next_chunk st - k)%nat as [|m] eqn:Em; csimpl.
  - split; [by eapply ring_inv_goto|]. unfold caller_inv. cbn [at_ goto]. split; [lia|done].
  - split; [by eapply ring_inv_goto|]. unfold caller_inv, head_read. cbn [at_ next_chunk pending].
    replace (next_chunk st - S k)%nat with m by lia. split_and!; try done; lia.
Qed.

Lemma waiting_good b k st st' p : at_ st = Waiting p → ring_inv b k st → caller_inv b k st →
  caller_step write_device chunks depth inline st = Some st' → good b st'.
Proof.
  intros E Hr Hm Hstep. at_case E. destruct Hm as (Hh & Hc). exists k. pose proof Hh as (-> & Hk & Hp & Hn).
  cbn [entry pr_future] in Hstep. destruct (tasks st !! k) as [[c buf pr]|] eqn:Ek; [|done]. cbn in Hstep.
  destruct pr as [r| |e]; [done|..]; injection Hstep as <-; (split; [by eapply ring_inv_goto|]);
    unfold caller_inv; cbn [at_ goto].
  - split_and!; [done| |done]. cbn [tasks goto]. by rewrite Ek.
  - destruct (ri_tasks _ _ _ Hr _ _ Ek) as (Ec & _ & Hok). cbn [t_chunk] in Ec. subst c. rewrite decide_True in Hok by done.
    destruct Hok as [[-> Hshort]|]; [left|by right].
    eapply (copy_stops k); [pose proof (ri_next _ _ _ Hr); lia|exact Hc|]. unfold copy_chunk, read_exact_at. cbv zeta.
    assert (Z.of_nat (length (file_read f (c_offset (chunks !!! k)) (c_count (chunks !!! k)))) < c_count (chunks !!! k))
      as ->%Z.ltb_lt by exact Hshort. done.
Qed.

Lemma checking_good b k st st' p : at_ st = Checking p → ring_inv b k st → caller_inv b k st →
  caller_step write_device chunks depth inline st = Some st' → good b st'.
Proof.
  intros E Hr Hm Hstep. at_case E. destruct Hm as (Hh & Hf & Hc). exists k. pose proof Hh as (-> & Hk & Hp & Hn).
  destruct (head_data _ _ _ Hr Hk Hf) as [Hd Hrd]. destruct (stage_at _ _ _ k Hr) as (s & Es & Es' & _).
  rewrite Es' in Hd. cbn [entry pr_chunk pr_buffer] in Hstep. rewrite Es, Hd in Hstep.
  destruct (bool_dec inline true) as [Ei|Ei%not_true_is_false]; rewrite Ei in Hstep.
  - destruct (checksums st !! c_allocation (chunks !!! k)) as [crc|] eqn:Ea; injection Hstep as <-;
      (split; [by eapply ring_inv_goto|]); unfold caller_inv; cbn [at_ goto].
    + split_and!; [done..|]. exists (checksums st), crc. rewrite Ei. done.
    + left. eapply (copy_stops k); [pose proof (ri_next _ _ _ Hr); lia|exact Hc|]. unfold copy_chunk. by rewrite Hrd, Ei, Ea.
  - injection Hstep as <-. split; [by eapply ring_inv_goto|]. unfold caller_inv. cbn [at_ goto].
    split_and!; [done..|]. exists (checksums st), 0%N. rewrite Ei. done.
Qed.

Lemma copying_good b k st st' p : at_ st = Copying p → ring_inv b k st → caller_inv b k st →
  caller_step write_device chunks depth inline st = Some st' → good b st'.
Proof.
  intros E Hr Hm Hstep. at_case E. destruct Hm as (Hh & Hf & sums & crc & Hc & Hcrc & Hsums).
  pose proof Hh as (-> & Hk & Hp & Hn). pose proof (ri_next _ _ _ Hr).
  destruct (head_data _ _ _ Hr Hk Hf) as [Hd Hrd]. destruct (stage_at _ _ _ k Hr) as (s & Es & Es' & Hs).
  destruct (chunk_good k ltac:(lia)) as [Hcount _]. rewrite Es' in Hd. cbn [entry pr_chunk pr_buffer] in *.
  rewrite Es in Hstep. change (default [] (Some s)) with s in Hstep. unfold copy_from_host, validate_copy in Hstep.
  destruct (Z.leb_spec (c_count (chunks !!! k)) 0); [lia|].
  destruct (Z.ltb_spec (Z.of_nat (length s)) (c_count (chunks !!! k))); [lia|]. cbn [orb raise_if] in Hstep. rewrite Hd in Hstep.
  assert (∀ r d, write_device (c_destination (chunks !!! k)) (chunk_data (chunks !!! k)) (device st) = (r, d) →
    copy_chunk write_device f inline (chunks !!! k) (sums, restored_bytes st, device st)
    = match r with Ok _ => (Ok tt, (checksums st, restored_bytes st + c_count (chunks !!! k), d))
                 | Raise e => (Raise e, (checksums st, restored_bytes st, d)) end) as Hcopy.
  { intros r d Ew. unfold copy_chunk. rewrite Hrd, Hcrc, Ew, <- Hsums. by destruct r. }
  destruct (write_device _ _ _) as [[[]|e] d] eqn:Ew; injection Hstep as <-.
  - exists (S k). split; [by eapply ring_inv_advance|]. unfold caller_inv. cbn [at_]. exists k.
    cbn [next_chunk pending]. split_and!; try done. eapply (copy_next k); [lia|exact Hc|]. by rewrite (Hcopy _ _ eq_refl).
  - exists k. split; [by eapply ring_inv_goto|]. left. eapply (copy_stops k); [|exact Hc|by rewrite (Hcopy _ _ eq_refl)]. lia.
Qed.

Lemma refilling_good b k st st' buf : at_ st = Refilling buf → ring_inv b k st → caller_inv b k st →
  caller_step write_device chunks depth inline st = Some st' → good b st'.
Proof.
  intros E Hr Hm Hstep. at_case E. destruct Hm as (j & -> & Hk & -> & Hp & Hn & Hc). exists (S j). injection Hstep as <-.
  destruct (decide (next_chunk st < length chunks)%nat).
  - assert (next_chunk st = j + depth)%nat as En by lia. assert (slot j = slot (next_chunk st)) as ->.
    { unfold slot. rewrite En. replace (j + depth)%nat with (j + 1 * depth)%nat by lia. by rewrite Nat.Div0.mod_add. }
    rewrite chunk_at by done. split; [apply ring_inv_submit; (done || lia)|].
    unfold caller_inv. cbn [at_ submit next_chunk pending]. rewrite (ri_length _ _ _ Hr), Hp, seq_entries by lia.
    split_and!; [lia|done|lia|done].
  - rewrite lookup_ge_None_2 by lia. split; [by eapply ring_inv_goto|].
    unfold caller_inv. cbn [at_ goto next_chunk pending]. split_and!; [lia|done|lia|done].
Qed.

(** Every event keeps the invariant. *)
Lemma step_good b e st st' : good b st → step e st = Some st' → good (b || is_fault e) st'.
Proof.
  intros Hg. destruct e as [|i n|i]; simpl; rewrite ?orb_false_r, ?orb_true_r.
  - destruct Hg as (k & Hr & Hm). destruct (at_ st) eqn:E;
      eauto using filling_good, looping_good, waiting_good, checking_good, copying_good, refilling_good.
    all: unfold caller_step; rewrite E; done.
  - by apply reader_good.
  - by eapply fault_good.
Qed.

Lemma good_mono b st : good b st → good true st.
Proof.
  intros (k & [? ? ? ? Ht] & Hm). exists k. split.
  - split; try done. intros i t Hi. destruct (Ht i t Hi) as (? & ? & ?). split_and!; [done..|].
    case_decide; [by eapply task_ok_mono|done].
  - unfold caller_inv in *. destruct (at_ st); tauto.
Qed.

Lemma run_events_good b events st : good b st → good (b || existsb is_fault events) (run_events write_device f chunks depth inline events st).
Proof.
  revert b st. induction events as [|e events IH]; intros b st Hg; cbn [run_events foldl existsb]; [by rewrite orb_false_r|].
  rewrite orb_assoc. apply IH. destruct (step e st) eqn:E; [by eapply step_good|].
  destruct (is_fault e); [rewrite orb_true_r; by eapply good_mono|by rewrite orb_false_r].
Qed.

(** *** Progress *)

Definition reads_left (t : task) : nat :=
  match t_progress t with Reading read => S (Z.to_nat (c_count (t_chunk t) - read)) | _ => 0 end.
Lemma work_left_eq b st : good b st → work_left chunks depth st =
  (6 * (length (pending st) + (length chunks - next_chunk st)) + caller_rank depth st
   + sum_list (reads_left <$> tasks st) + sum_list (chunk_rank <$> drop (next_chunk st) chunks))%nat.
Proof.
  intros (k & Hr & _). unfold work_left. do 3 f_equal. apply list_fmap_ext. intros i t Hi.
  destruct (ri_tasks _ _ _ Hr _ _ Hi) as (Hc & Hb & _). pose proof (lookup_lt_Some _ _ _ Hi).
  pose proof (ri_length _ _ _ Hr). pose proof (ri_next _ _ _ Hr).
  unfold task_rank, reads_left. by rewrite Hc, Hb, (view_full _ _ _ _ Hr) by lia.
Qed.

Lemma reader_decreases b st i n st' : good b st → reader_step f i n st = Some st' →
  (work_left chunks depth st' < work_left chunks depth st)%nat.
Proof.
  intros Hg Hstep. pose proof (reader_good _ _ _ _ _ Hg Hstep) as Hg'. rewrite (work_left_eq _ _ Hg), (work_left_eq _ _ Hg').
  destruct Hg as (k & Hr & Hm). unfold reader_step in Hstep. destruct (tasks st !! i) as [[c buffer [r| |]]|] eqn:Hi; try done.
  destruct (reading_task _ _ _ _ _ _ _ Hr Hi) as (Hin & Hki & -> & -> & Hread & _).
  rewrite (view_full _ _ _ _ Hr Hin) in Hstep.
  assert (∀ t s, reads_left t < S (Z.to_nat (c_count (chunks !!! i) - r)) →
    sum_list (reads_left <$> tasks (with_task st i t s)) < sum_list (reads_left <$> tasks st))%nat as Hlt.
  { intros t s Ht. cbn [tasks with_task]. pose proof (sum_list_insert reads_left _ _ _ t Hi) as E.
    unfold reads_left in E at 2. cbn [t_progress t_chunk] in E. lia. }
  destruct (length _ =? 0)%nat; injection Hstep as <-; apply Nat.add_lt_le_mono; try done; apply Nat.add_lt_mono_l, Hlt;
    unfold reads_left; cbn [t_progress t_chunk]; [lia|].
  destruct (_ <? _) eqn:Hb; cbv iota; [apply Z.ltb_lt in Hb|]; lia.
Qed.

Lemma fault_decreases b st i st' : good b st → fault_step i st = Some st' →
  (work_left chunks depth st' < work_left chunks depth st)%nat.
Proof.
  intros Hg Hstep. pose proof (fault_good _ _ _ _ Hg Hstep) as Hg'. rewrite (work_left_eq _ _ Hg), (work_left_eq _ _ Hg').
  unfold fault_step in Hstep. destruct (tasks st !! i) as [[c buffer [r| |]]|] eqn:Hi; try done. injection Hstep as <-.
  apply Nat.add_lt_le_mono; [|done]. apply Nat.add_lt_mono_l. cbn [tasks with_task].
  pose proof (sum_list_insert reads_left _ _ _ (Task c buffer (Errored (Exn OSError "preadv"))) Hi) as E.
  unfold reads_left in E at 2 4. cbn [t_progress t_chunk] in E. lia.
Qed.

Lemma submit_work (st : pipeline D) c buffer then_ : chunks !! next_chunk st = Some c →
  (length (pending (submit c buffer then_ st)) + (length chunks - next_chunk (submit c buffer then_ st))
   = length (pending st) + (length chunks - next_chunk st))%nat
  ∧ (sum_list (reads_left <$> tasks (submit c buffer then_ st)) + sum_list (chunk_rank <$> drop (S (next_chunk st)) chunks)
     <= sum_list (reads_left <$> tasks st) + sum_list (chunk_rank <$> drop (next_chunk st) chunks))%nat.
Proof.
  intros Hc. pose proof (lookup_lt_Some _ _ _ Hc). cbn [pending tasks next_chunk submit]. split.
  - rewrite length_app. simpl. lia.
  - rewrite (drop_S chunks c (next_chunk st)) by done. rewrite fmap_app, sum_list_with_app. csimpl.
    enough (reads_left (Task c buffer (if (view_length st buffer (c_count c) <=? 0)%Z then Finished else Reading 0)) <= S (Z.to_nat (c_count c)))%nat
      by lia.
    unfold reads_left. cbn [t_progress t_chunk]. destruct (_ <=? 0); lia.
Qed.

Lemma caller_decreases b st st' : good b st → caller_step write_device chunks depth inline st = Some st' →
  (work_left chunks depth st' < work_left chunks depth st)%nat.
Proof.
  intros Hg Hstep. pose proof (step_good b Caller _ _ Hg Hstep) as Hg'. rewrite (work_left_eq _ _ Hg), (work_left_eq _ _ Hg').
  clear Hg Hg'. unfold caller_step, caller_rank in *. destruct (at_ st) eqn:E; try done.
  - injection Hstep as <-. destruct (Nat.ltb_spec (next_chunk st) depth); [|cbn [pending goto tasks next_chunk at_]; lia].
    destruct (chunks !! next_chunk st) as [c|] eqn:Hc; [|cbn [pending goto tasks next_chunk at_]; lia].
    destruct (submit_work _ _ (next_chunk st) Filling Hc) as [H1 H2]. cbn [at_ submit next_chunk] in *. lia.
  - injection Hstep as <-. destruct (pending st) eqn:Ep; cbn [pending goto tasks next_chunk at_]; rewrite ?Ep; cbn [length]; lia.
  - destruct (t_progress <$> _) as [[]|]; try done; injection Hstep as <-; cbn [pending goto tasks next_chunk at_]; lia.
  - injection Hstep as <-. destruct inline; [|cbn [pending goto tasks next_chunk at_]; lia]. destruct (checksums st !! c_allocation (pr_chunk p)), (stages st !! pr_buffer p); cbn [pending goto tasks next_chunk at_]; lia.
  - injection Hstep as <-. destruct (copy_from_host _ _ _ _ _) as [[|] ?]; cbn [pending goto tasks next_chunk at_]; lia.
  - injection Hstep as <-. destruct (chunks !! next_chunk st) as [c|] eqn:Hc; [|cbn [pending goto tasks next_chunk at_]; lia].
    destruct (submit_work _ _ buffer Looping Hc) as [H1 H2]. cbn [at_ submit next_chunk] in *. lia.
Qed.

(** No schedule runs for ever, *)
Lemma step_decreases b e st st' : good b st → step e st = Some st' → (work_left chunks depth st' < work_left chunks depth st)%nat.
Proof. destruct e; simpl; eauto using caller_decreases, reader_decreases, fault_decreases. Qed.

(** and none is stuck before the caller returns: it moves, or the read it waits for does. *)
Lemma can_move b st : good b st → outcome st = None →
  (∃ st', caller_step write_device chunks depth inline st = Some st')
  ∨ ∃ p, at_ st = Waiting p ∧ ∀ n, ∃ st', reader_step f (pr_future p) n st = Some st'.
Proof.
  intros (k & Hr & Hm) Ho. unfold outcome, caller_inv, caller_step in *. destruct (at_ st) as [| |p| | | | |] eqn:E; try done; eauto.
  destruct Hm as [(-> & Hk & _) _]. cbn [entry pr_future].
  destruct (lookup_lt_is_Some_2 (tasks st) k) as [[c buf pr] Ht]; [by rewrite (ri_length _ _ _ Hr)|]. rewrite Ht. cbn.
  destruct pr as [r| |]; [|eauto..]. right. exists (entry k). split; [done|]. intros n. unfold reader_step. cbn [entry pr_future]. rewrite Ht. eauto.
Qed.

Lemma drain_good b fuel st : good b st → good b (drain write_device f chunks depth inline fuel st).
Proof.
  revert st. induction fuel as [|fuel IH]; intros st Hg; cbn [drain]; [done|].
  destruct (caller_step _ _ _ _ st) eqn:E.
  - apply IH. rewrite <- (orb_false_r b). by apply (step_good b Caller st).
  - destruct (at_ st); try done. destruct (reader_step _ _ _ _) eqn:E2; [|done]. apply IH. by eapply reader_good.
Qed.
Lemma drain_ends b fuel st : good b st → (work_left chunks depth st <= fuel)%nat →
  is_Some (outcome (drain write_device f chunks depth inline fuel st)).
Proof.
  revert st. induction fuel as [|fuel IH]; intros st Hg Hf; cbn [drain].
  - destruct (outcome st) eqn:Eo; [eauto|]. exfalso. destruct (can_move _ _ Hg Eo) as [[st' E]|(p & _ & E)].
    + pose proof (caller_decreases _ _ _ Hg E). lia.
    + destruct (E 0) as [st' E']. pose proof (reader_decreases _ _ _ _ _ Hg E'). lia.
  - destruct (outcome st) eqn:Eo.
    { assert (caller_step write_device chunks depth inline st = None) as ->.
      { unfold outcome, caller_step in *. by destruct (at_ st). }
      unfold outcome in Eo. destruct (at_ st) eqn:Ea; try done; unfold outcome; rewrite Ea; eauto. }
    destruct (caller_step _ _ _ _ st) eqn:E.
    + apply IH; [|pose proof (caller_decreases _ _ _ Hg E); lia]. rewrite <- (orb_false_r b). by apply (step_good b Caller st).
    + destruct (can_move _ _ Hg Eo) as [[st' E']|(p & Ep & E')]; [congruence|]. rewrite Ep.
      destruct (E' (c_count (pr_chunk p))) as [st' Es]. rewrite Es. apply IH; [by eapply reader_good|].
      pose proof (reader_decreases _ _ _ _ _ Hg Es). lia.
Qed.
End ring.

(** ** The pipeline of a restore *)

Definition chunks_fit (chunk_bytes : Z) (chunks : list (Z * Z * Z * Z)) : Prop :=
  ∀ c, c ∈ chunks → 0 < c_count c <= chunk_bytes ∧ 0 <= c_offset c.

Lemma entry_chunks_fit fuel ptr size offset chunk copied : 0 < chunk → 0 <= offset → 0 <= copied →
  chunks_fit chunk (entry_chunks fuel ptr size offset chunk copied).
Proof.
  intros Hc Ho. revert copied. induction fuel as [|fuel IH]; intros copied Hp c Hin; cbn [entry_chunks] in Hin;
    [by apply not_elem_of_nil in Hin|].
  destruct (Z.ltb_spec copied size); [|by apply not_elem_of_nil in Hin].
  apply elem_of_cons in Hin as [-> | Hin]; [unfold c_count, c_offset; simpl; lia|]. refine (IH _ _ c Hin). lia.
Qed.
Lemma chunk_descriptors_fit entries chunk : 0 < chunk → Forall (λ e : Z * Z * Z, 0 <= e.2) entries →
  chunks_fit chunk (chunk_descriptors entries chunk).
Proof.
  intros Hc He c (l & Hin & ([[p s] o] & -> & Hl)%list_elem_of_fmap)%elem_of_concat.
  rewrite Forall_forall in He. by apply (entry_chunks_fit (Z.to_nat s) p s o chunk 0 Hc (He _ Hl)).
Qed.

Definition copy_state {D} (st : pipeline D) : gmap Z N * Z * D := (checksums st, restored_bytes st, device st).
Definition start_state {D} (pointers : list Z) (d : D) : gmap Z N * Z * D := (list_to_map ((λ p, (p, 0%N)) <$> pointers), 0, d).

Lemma start_good {D} (write_device : Z → pybytes → D → res unit * D) f chunks depth inline chunk_bytes pointers d :
  good write_device f chunks depth inline chunk_bytes (start_state pointers d) false (pipeline_start depth chunk_bytes pointers d).
Proof.
  exists 0%nat. split.
  - split; cbn [next_chunk tasks stages pipeline_start]; [lia|done| |lia|done].
    rewrite length_replicate. split; [done|]. apply Forall_replicate. by rewrite length_replicate.
  - unfold caller_inv, copied. cbn. split_and!; [done|lia|done|done].
Qed.

Lemma run_pipeline_result {D} (write_device : Z → pybytes → D → res unit * D) f chunks depth inline chunk_bytes pointers d events :
  (0 < depth <= length chunks)%nat → chunks_fit chunk_bytes chunks →
  let st := run_pipeline write_device f chunks depth inline events (pipeline_start depth chunk_bytes pointers d) in
  (∃ r, outcome st = Some r ∧ copy_chunks write_device f inline chunks (start_state pointers d) = (r, copy_state st))
  ∨ (existsb is_fault events = true ∧ outcome st = Some (Raise (Exn OSError "preadv"))).
Proof.
  intros Hd Hf st. pose proof (start_good write_device f chunks depth inline chunk_bytes pointers d) as Hg.
  apply (run_events_good _ _ _ _ _ _ _ Hd Hf _ events) in Hg. simpl orb in Hg.
  pose proof (drain_ends _ _ _ _ _ _ _ Hd Hf _ _ _ Hg (le_n _)) as [r Hr].
  apply (drain_good _ _ _ _ _ _ _ Hd Hf _ (work_left chunks depth (run_events write_device f chunks depth inline events (pipeline_start depth chunk_bytes pointers d)))) in Hg.
  change (good write_device f chunks depth inline chunk_bytes (start_state pointers d) (existsb is_fault events) st) in Hg.
  change (outcome st = Some r) in Hr. clearbody st. destruct Hg as (k & _ & Hm). unfold caller_inv, outcome in *. destruct (at_ st); simplify_eq.
  - destruct Hm as [-> Hc]. left. exists (Ok tt). split; [done|]. unfold copied in Hc. by rewrite take_ge in Hc.
  - destruct Hm as [Hm|[? ->]]; [left; eauto|by right].
Qed.

(** C4. However the reader threads and the caller are scheduled, whatever each [preadv] returns, the
    pipelined restore ends as copying one chunk after the other does: the same outcome
    (errors included), device writes, checksums and byte count. Only an I/O error of a
    reader ends it otherwise, with that error. *)
Theorem pipeline_refines_sequential {D} (write_device : Z → pybytes → D → res unit * D) f chunks depth inline chunk_bytes pointers d events :
  (0 < depth <= length chunks)%nat → chunks_fit chunk_bytes chunks →
  let st := run_pipeline write_device f chunks depth inline events (pipeline_start depth chunk_bytes pointers d) in
  (∃ r, outcome st = Some r ∧ copy_chunks write_device f inline chunks (start_state pointers d) = (r, copy_state st))
  ∨ (existsb is_fault events = true ∧ outcome st = Some (Raise (Exn OSError "preadv"))).
Proof. apply run_pipeline_result. Qed.

(** A device that logs its writes, and two allocations read through a ring of two stages. *)
Definition log_write (p : Z) (bytes : pybytes) (d : list (Z * pybytes)) : res unit * list (Z * pybytes) := (Ok tt, d ++ [(p, bytes)]).
Definition sample_file : pybytes := lit "abcdefghij".
Definition sample_chunks := chunk_descriptors [(100, 6, 0); (200, 4, 6)] 4.
(** The second read is served first, in two parts. *)
Definition sample_events : list pool_event := [Caller; Caller; Reader 1 1; Reader 1 1; Caller; Reader 0 2; Caller; Reader 1 5; Reader 0 9; Caller].

Example sample_run :
  let st := run_pipeline log_write sample_file sample_chunks 2 true sample_events (pipeline_start 2 4 [100; 200] []) in
  (outcome st, device st, map_to_list (checksums st))
  = (Some (Ok tt), [(100, lit "abcd"); (104, lit "ef"); (200, lit "ghij")],
     [(100, crc32 (lit "abcdef") 0); (200, crc32 (lit "ghij") 0)]).
Proof. vm_compute. reflexivity. Qed.

Lemma sample_fit : chunks_fit 4 sample_chunks.
Proof. apply chunk_descriptors_fit; [lia|]. repeat constructor; simpl; lia. Qed.

Lemma pipeline_refines_sequential_witness :
  let st := run_pipeline log_write sample_file sample_chunks 2 true sample_events (pipeline_start 2 4 [100; 200] []) in
  (∃ r, outcome st = Some r ∧ copy_chunks log_write sample_file true sample_chunks (start_state [100; 200] []) = (r, copy_state st))
  ∨ (existsb is_fault sample_events = true ∧ outcome st = Some (Raise (Exn OSError "preadv"))).
Proof.
  apply (pipeline_refines_sequential log_write sample_file sample_chunks 2 true 4 [100; 200] [] sample_events); [|apply sample_fit].
  vm_compute. lia.
Defined.

(** C38. The pipeline returns under every schedule: from any state it reaches, each event that
    can happen leaves less work, and until the caller has returned, it can take a step or
    the read it waits for can, however few bytes that [preadv] gives. *)
Theorem pipeline_progress {D} (write_device : Z → pybytes → D → res unit * D) f chunks depth inline chunk_bytes pointers d events :
  (0 < depth <= length chunks)%nat → chunks_fit chunk_bytes chunks →
  let st := run_events write_device f chunks depth inline events (pipeline_start depth chunk_bytes pointers d) in
  (∀ e st', pool_step write_device f chunks depth inline e st = Some st' → (work_left chunks depth st' < work_left chunks depth st)%nat)
  ∧ (outcome st = None → is_Some (pool_step write_device f chunks depth inline Caller st)
     ∨ ∃ i, ∀ n, is_Some (pool_step write_device f chunks depth inline (Reader i n) st)).
Proof.
  intros Hd Hf st. pose proof (start_good write_device f chunks depth inline chunk_bytes pointers d) as Hg.
  apply (run_events_good _ _ _ _ _ _ _ Hd Hf _ events) in Hg. fold st in Hg. split.
  - intros e st' Hs. by eapply step_decreases.
  - intros Ho. destruct (can_move _ _ _ _ _ _ _ _ _ Hg Ho) as [[st' E]|(p & _ & E)]; [left|right]; simpl; eauto.
Qed.

Lemma pipeline_progress_witness :
  let st := run_events log_write sample_file sample_chunks 2 true sample_events (pipeline_start 2 4 [100; 200] []) in
  (∀ e st', pool_step log_write sample_file sample_chunks 2 true e st = Some st' → (work_left sample_chunks 2 st' < work_left sample_chunks 2 st)%nat)
  ∧ (outcome st = None → is_Some (pool_step log_write sample_file sample_chunks 2 true Caller st)
     ∨ ∃ i, ∀ n, is_Some (pool_step log_write sample_file sample_chunks 2 true (Reader i n) st)).
Proof.
  apply (pipeline_progress log_write sample_file sample_chunks 2 true 4 [100; 200] [] sample_events); [|apply sample_fit].
  vm_compute. lia.
Defined.
