(* ===== verification/DiskSleep.v ===== *)
(** * Disk backend: sleep and wake of a live worker

    [DiskCuMemBackend.suspend] and [resume] of [integrations/vllm/coldsnap_disk_backend.py]
    with the operations they are made of: writing, verifying and accepting the snapshot
    blob, releasing and remapping the weights and the discardable regions, the commits that
    publish a finished restore, and the selection of what a wake covers.

    The worker has no activation selector, so its weight source is the blob or the model
    source its environment names; the operations of the model source are an argument. The
    manifest is typed, after JSON decoding, and without its timings. Writing the state record
    does not fail. *)

From S2P Require Import Prelude Ranges PyFloat PyJson Hash Memory DiskLayout VllmMemory.
From S2P Require Import Artifact DiskPipeline.

(** ** What the backend relies on *)

(** The CUDA calls of the memory provider: [map_allocation] and [unmap_allocation] of a
    handle, [cudaMemcpy] both ways, [cudaMemset] with zero. *)
Class CudaDevice (D : Type) := {
  map_device : Z → Z → D → res unit * D;
  unmap_device : Z → Z → D → res unit * D;
  memcpy_to_host : Z → Z → D → res pybytes * D;
  memcpy_from_host : Z → pybytes → D → res unit * D;
  memset_zero : Z → Z → D → res unit * D;
  device_synchronize : D → res unit * D;
  device_empty_cache : D → res unit * D;
}.

(** The graph controller: [release()], [restore()] and [stats().paused_count]. *)
Class GraphController (G : Type) := {
  graph_release : G → res unit * G;
  graph_restore : G → res unit * G;
  graph_paused : G → Z;
}.

(** ** Data *)

Definition FORMAT : Z := 3.
Definition KIND : pystr := lit "vllm-live-process-cumem".
Definition WEIGHT_SOURCE_BLOB : pystr := lit "blob".
Definition WEIGHT_SOURCE_SAFETENSORS : pystr := lit "safetensors".
Definition BLOB_NAME : pystr := lit "weights.blob".

(** [_stat_identity] and [_stat_matches] *)
Record file_stat := FileStat { fs_device : Z; fs_inode : Z; fs_bytes : Z; fs_mtime : Z; fs_ctime : Z }.
#[global] Instance file_stat_eq_dec : EqDecision file_stat.
Proof. solve_decision. Defined.
Record blob_file := BlobFile { bf_bytes : pybytes; bf_device : Z; bf_inode : Z; bf_mtime : Z; bf_ctime : Z }.
Definition stat_identity (b : blob_file) : file_stat :=
  FileStat (bf_device b) (bf_inode b) (Z.of_nat (length (bf_bytes b))) (bf_mtime b) (bf_ctime b).
Definition stat_matches (expected actual : file_stat) : bool := bool_decide (expected = actual).

(** An entry; one of a blob manifest has its offset and CRC, one of a recovery manifest has
    neither key. *)
Record snapshot_entry := Entry { e_ptr : Z; e_size : Z; e_tag : pystr; e_place : option (Z * pystr) }.
#[global] Instance snapshot_entry_eq_dec : EqDecision snapshot_entry.
Proof. solve_decision. Defined.
Definition e_offset (e : snapshot_entry) : Z := default (-1) (fst <$> e_place e).
Definition e_crc (e : snapshot_entry) : pystr := default [] (snd <$> e_place e).

(** [_model_source_identity] *)
Record model_identity := ModelIdentity { mi_model_id : pystr; mi_revision : pystr; mi_metadata : pystr }.
#[global] Instance model_identity_eq_dec : EqDecision model_identity.
Proof. solve_decision. Defined.

(** An extent of the residual file. *)
Record residual_extent := Residual { re_ptr : Z; re_size : Z; re_alloc : Z; re_offset : Z; re_crc : pystr }.

(** The keys of a recovery manifest that a blob manifest does not have. *)
Record recovery_part := RecoveryPart {
  rp_model_source : model_identity; rp_portable : bool; rp_allocation_bytes : Z; rp_model_bytes : Z; rp_residual_bytes : Z;
  rp_model : list extent; rp_residual : list residual_extent; rp_layout : option pystr; rp_direct_io : bool; rp_io_mode : pystr;
  rp_verify_mode : pystr; rp_checksum : pystr;
}.

Record snapshot_manifest := SnapshotManifest {
  mf_format : Z; mf_kind : pystr; mf_identity : pystr; mf_generation : pystr; mf_pid : Z; mf_rank : Z;
  mf_worker : pystr; mf_capture : pystr; mf_blob : pystr; mf_blob_bytes : Z; mf_blob_stat : file_stat;
  mf_preverified : bool; mf_source : pystr; mf_entries : list snapshot_entry; mf_reused : bool; mf_recovery : option recovery_part;
}.

(** The model pack of a capture: the payload file and its manifest, in which an extent of the
    model has its SHA-256, file offset and CRC. *)
Record pack_extent := Packed { px_extent : extent; px_sha256 : pystr; px_offset : Z; px_crc : pystr }.
Record native_manifest := NativeManifest {
  nm_identity : pystr; nm_generation : pystr; nm_pid : Z; nm_rank : Z; nm_worker : pystr; nm_capture : pystr;
  nm_blob_bytes : Z; nm_blob_stat : file_stat; nm_residual_blob_bytes : Z; nm_residual_stat : file_stat; nm_layout : option pystr;
  nm_allocation_bytes : Z; nm_model_bytes : Z; nm_residual_bytes : Z; nm_model : list pack_extent; nm_residual : list residual_extent;
  nm_verify_mode : pystr; nm_preverified : bool; nm_entries : list snapshot_entry;
}.
(** The entry of the host's cache for a model payload: the file, whether it is one with and
    without following links, and its owner, the staged file,
    the identity a validation record was published for, the states reported, and the thread
    that fills it. *)
Record cached_payload := CachedPayload { cp_file : blob_file; cp_is_file : bool; cp_regular : bool; cp_owner : Z * Z }.
(** A request to fill the entry: its mode, operation, owner, and the identity of the file. *)
Record materialization := Materialization { mt_required : bool; mt_operation : pystr; mt_owner : Z * Z; mt_sha256 : pystr; mt_bytes : Z }.
Record payload_cache := Cache {
  ca_target : option cached_payload; ca_staging : option blob_file; ca_record : option (pystr * Z); ca_status : list pystr;
  ca_thread : option (materialization * snapshot_manifest);
}.
(** The model objects of a worker: pack, manifest, whether an export is done, the manifest and
    residual file bound to the live layout, and the cache entry. *)
Record model_pack := Pack {
  pk_payload : option blob_file; pk_manifest : option native_manifest; pk_exported : bool;
  pk_live : option (native_manifest * blob_file); pk_cache : payload_cache;
}.
Definition empty_cache_entry : payload_cache := Cache None None None [] None.
Definition set_payload (b : option blob_file) (k : model_pack) : model_pack := Pack b (pk_manifest k) (pk_exported k) (pk_live k) (pk_cache k).
Definition set_native (m : option native_manifest) (k : model_pack) : model_pack := Pack (pk_payload k) m (pk_exported k) (pk_live k) (pk_cache k).
Definition set_exported (k : model_pack) : model_pack := Pack (pk_payload k) (pk_manifest k) true (pk_live k) (pk_cache k).
Definition set_live (l : option (native_manifest * blob_file)) (k : model_pack) : model_pack :=
  Pack (pk_payload k) (pk_manifest k) (pk_exported k) l (pk_cache k).
Definition set_cache (a : payload_cache) (k : model_pack) : model_pack := Pack (pk_payload k) (pk_manifest k) (pk_exported k) (pk_live k) a.

(** What [__init__] reads of the environment and of the process. *)
Record settings := Settings {
  chunk_bytes : Z; pipeline_depth : Z; preverified : bool; reuse_blob : bool; discard_regions : list pystr;
  discard_verify_sample_bytes : Z; own_pid : Z; own_rank : Z; own_worker : pystr; own_host : pystr; own_capture : pystr;
  free_bytes : Z; reserve_bytes : Z;
}.

(** [_state] *)
Inductive phase := RUNNING | SUSPENDING | SUSPENDED | RESUMING | FAILED.
#[global] Instance phase_eq_dec : EqDecision phase.
Proof. solve_decision. Defined.

(** ** Names and regions *)

(** [_identity] *)
Definition identity (s : settings) : pystr :=
  lit "worker-id-" ++ own_worker s ++ lit "-host-" ++ ((λ c, if (c =? 58)%N then 95%N else c) <$> own_host s)
  ++ lit "-rank-" ++ str_of_Z (own_rank s) ++ lit "-pid-" ++ str_of_Z (own_pid s).

(** [_portable_identity_matches] *)
Definition portable_identity_matches (value worker : pystr) (rank pid : Z) : bool :=
  (0 <=? rank) && starts_with (lit "worker-id-" ++ worker ++ lit "-host-") value
  && ends_with (lit "-rank-" ++ str_of_Z rank ++ lit "-pid-" ++ str_of_Z pid) value.

(** [_discard_regions] of the environment variable; unset is empty. *)
Fixpoint discard_loop (resolved names : list pystr) : res (list pystr) :=
  match names with
  | [] => mret resolved
  | name :: rest =>
      region ← of_option ValueError "COLDSNAP_DISCARD_REGIONS names unknown region" (find_region name);
      _ ← raise_if (negb (bool_decide (r_policy region = DISCARD))) ValueError "only regions declared DISCARD may be dropped";
      _ ← raise_if (negb (stable_address region)) ValueError "region does not promise stable addresses";
      _ ← raise_if (bool_decide (name ∈ resolved)) ValueError "duplicate discard region";
      discard_loop (resolved ++ [name]) rest
  end.
Definition discard_regions_of (value : option pystr) : res (list pystr) :=
  let names := filter (λ n, n ≠ []) (py_strip <$> split_char 44 [] (default [] value)) in
  resolved ← discard_loop [] names;
  _ ← raise_if (bool_decide (PRESERVED_REGION ∈ resolved)) ValueError "weights cannot be a discard region";
  mret resolved.

(** [_resume_selection] *)
Definition resume_selection (s : settings) (tags : option (list pystr)) : res (bool * list pystr) :=
  match tags with
  | None => mret (true, discard_regions s)
  | Some tags =>
      let known := PRESERVED_REGION :: discard_regions s in
      _ ← raise_if (negb (forallb (λ t, bool_decide (t ∈ known)) tags)) ValueError "disk wake does not manage region(s)";
      let selected := filter (λ r, r ∈ tags) (discard_regions s) in
      let wake_preserved := bool_decide (PRESERVED_REGION ∈ tags) in
      _ ← raise_if (negb wake_preserved && bool_decide (selected = [])) ValueError "disk wake requires at least one managed region";
      mret (wake_preserved, selected)
  end.

Section backend.
Context {D G : Type} `{CudaDevice D} `{GraphController G}.

(** ** The worker *)

Record world := World {
  w_phase : phase;
  w_record : pystr * pystr;
  w_memory : provider;
  w_kv_payload : list (Z * Z);
  w_device : D;
  w_graphs : G;
  w_restore_mapped : gset Z;
  w_discard_mapped : gset Z;
  w_reusable_generation : option pystr;
  w_reusable_stat : option file_stat;
  w_manifest : option snapshot_manifest;
  w_blob : option blob_file;
  w_tmp : option pybytes;
  w_files : nat;
  w_pack : model_pack;
}.

(** [self._state = p; self._write_state(state, operation=...)] *)
Definition set_phase (p : phase) (record : pystr * pystr) (w : world) : world :=
  World p record (w_memory w) (w_kv_payload w) (w_device w) (w_graphs w) (w_restore_mapped w) (w_discard_mapped w)
    (w_reusable_generation w) (w_reusable_stat w) (w_manifest w) (w_blob w) (w_tmp w) (w_files w) (w_pack w).
Definition set_memory (v : provider) (d : D) (w : world) : world :=
  World (w_phase w) (w_record w) v (w_kv_payload w) d (w_graphs w) (w_restore_mapped w) (w_discard_mapped w)
    (w_reusable_generation w) (w_reusable_stat w) (w_manifest w) (w_blob w) (w_tmp w) (w_files w) (w_pack w).
Definition set_graphs (g : G) (w : world) : world :=
  World (w_phase w) (w_record w) (w_memory w) (w_kv_payload w) (w_device w) g (w_restore_mapped w) (w_discard_mapped w)
    (w_reusable_generation w) (w_reusable_stat w) (w_manifest w) (w_blob w) (w_tmp w) (w_files w) (w_pack w).
Definition set_mapped (restore discard : gset Z) (w : world) : world :=
  World (w_phase w) (w_record w) (w_memory w) (w_kv_payload w) (w_device w) (w_graphs w) restore discard
    (w_reusable_generation w) (w_reusable_stat w) (w_manifest w) (w_blob w) (w_tmp w) (w_files w) (w_pack w).
Definition set_reusable (generation : option pystr) (stat : option file_stat) (w : world) : world :=
  World (w_phase w) (w_record w) (w_memory w) (w_kv_payload w) (w_device w) (w_graphs w) (w_restore_mapped w) (w_discard_mapped w)
    generation stat (w_manifest w) (w_blob w) (w_tmp w) (w_files w) (w_pack w).
Definition set_files (m : option snapshot_manifest) (b : option blob_file) (t : option pybytes) (n : nat) (w : world) : world :=
  World (w_phase w) (w_record w) (w_memory w) (w_kv_payload w) (w_device w) (w_graphs w) (w_restore_mapped w) (w_discard_mapped w)
    (w_reusable_generation w) (w_reusable_stat w) m b t n (w_pack w).
Definition set_pack (k : model_pack) (w : world) : world :=
  World (w_phase w) (w_record w) (w_memory w) (w_kv_payload w) (w_device w) (w_graphs w) (w_restore_mapped w) (w_discard_mapped w)
    (w_reusable_generation w) (w_reusable_stat w) (w_manifest w) (w_blob w) (w_tmp w) (w_files w) k.

Definition on_pack (f : model_pack → model_pack) : ST world unit := st_set (λ w, set_pack (f (w_pack w)) w).

Definition on_device {A} (op : D → res A * D) : ST world A := λ w,
  let '(r, d) := op (w_device w) in (r, set_memory (w_memory w) d w).
Definition on_graphs (op : G → res unit * G) : ST world unit := λ w,
  let '(r, g) := op (w_graphs w) in (r, set_graphs g w).

(** ** The provider's operations *)

Definition allocations (tag : pystr) : ST world (list Allocation) := λ w, (pool_allocations (v_pool (w_memory w)) (Some tag), w).
Definition memory_release (a : Allocation) : ST world unit := λ w,
  let '(r, v, d) := release (λ p, unmap_device p (al_size a)) a (w_memory w) (w_device w) in (r, set_memory v d w).
Definition memory_remap (a : Allocation) : ST world unit := λ w,
  let '(r, v, d) := remap (λ p, map_device p (al_size a)) a (w_memory w) (w_device w) in (r, set_memory v d w).
Definition set_released (a : Allocation) (value : bool) : ST world unit := st_set (λ w,
  set_memory (Provider (set_asleep (al_pointer a) value (v_pool (w_memory w))) (v_revision (w_memory w))) (w_device w) w).
Definition synchronize : ST world unit := on_device device_synchronize.
Definition empty_cache : ST world unit := on_device device_empty_cache.
Definition copy_to_host (capacity pointer size : Z) : ST world pybytes :=
  _ ← lift (validate_copy capacity size);
  on_device (memcpy_to_host pointer size).
Definition fill_zero (pointer size : Z) : ST world unit :=
  _ ← st_raise_if (size <=? 0) ValueError "fill size must be positive";
  on_device (memset_zero pointer size).

Definition any_released (l : list Allocation) : bool := existsb al_released l.

(** [_has_asleep_weights] and [_has_asleep_regions] *)
Definition has_asleep_weights : ST world bool := l ← allocations PRESERVED_REGION; mret (any_released l).
Fixpoint has_asleep_regions (regions : list pystr) : ST world bool :=
  match regions with
  | [] => mret false
  | r :: rest => l ← allocations r; if any_released l then mret true else has_asleep_regions rest
  end.

(** What the environment does: the bytes one [pwritev] writes, the identity the file system
    gives to the [n]-th blob, the clock; the optional native transports; and the operations
    of the model source. *)
Variable transfer : Z → Z → Z.
Variable stamp : nat → Z * Z * Z * Z.
Variable time_ns : nat → Z.
Variable capture_transport : option (list (Z * Z * Z) → D → res (pybytes * Z * list (option pystr)) * D).
Variable hydrator : option (pybytes → list (Z * Z * Z * pystr) → D → res unit * D).

Record model_source := ModelSource {
  uses_model_weight_recovery : bool;
  model_payload_capture_enabled : bool;
  write_recovery_manifest : ST world snapshot_manifest;
  check_recovery_manifest : snapshot_manifest → ST world snapshot_manifest;
  restore_from_model_source : snapshot_manifest → ST world unit;
  wait_materialization : ST world unit;
  start_materialization : snapshot_manifest → ST world unit;
}.
Variable source : model_source.
Variable s : settings.

Definition weight_recovery_source : pystr :=
  if uses_model_weight_recovery source then WEIGHT_SOURCE_SAFETENSORS else WEIGHT_SOURCE_BLOB.

(** ** Writing the snapshot *)

(** [_required_bytes] *)
Definition required_bytes : ST world Z := l ← allocations PRESERVED_REGION; mret (zsum (al_size <$> l)).

(** [_ensure_space] *)
Definition ensure_space (required : Z) : ST world unit :=
  st_raise_if (free_bytes s <? required + reserve_bytes s) OSError "snapshot needs more space".

(** The temporary blob is opened, and preallocated to its size. *)
Definition set_tmp (t : option pybytes) (w : world) : world := set_files (w_manifest w) (w_blob w) t (w_files w) w.
Definition preallocate (size : Z) : ST world unit :=
  _ ← st_raise_if (size <=? 0) ValueError "snapshot preallocation size must be positive";
  st_set (set_tmp (Some (replicate (Z.to_nat size) 0%N))).
Definition write_tmp (view : pybytes) (offset : Z) : ST world unit := λ w,
  match w_tmp w with
  | None => (Raise (Exn OSError "bad file descriptor"), w)
  | Some f => let '(r, f') := write_all_at (length view) transfer f view offset 0 in (r, set_tmp (Some f') w)
  end.

(** The [while copied < size] loop of one allocation: its CRC and the file offset after it.
    The fuel is the size: every round copies at least one byte. *)
Fixpoint write_chunks (fuel : nat) (ptr size copied : Z) (crc : N) (file_offset : Z) : ST world (N * Z) :=
  match fuel with
  | O => mret (crc, file_offset)
  | S fuel' =>
      if copied <? size then
        let count := Z.min (chunk_bytes s) (size - copied) in
        view ← copy_to_host (chunk_bytes s) (ptr + copied) count;
        _ ← write_tmp view file_offset;
        write_chunks fuel' ptr size (copied + count) (crc32 view crc) (file_offset + count)
      else mret (crc, file_offset)
  end.
Fixpoint write_entries (l : list Allocation) (file_offset : Z) : ST world (list snapshot_entry * Z) :=
  match l with
  | [] => mret ([], file_offset)
  | a :: rest =>
      '(crc, after) ← write_chunks (Z.to_nat (al_size a)) (al_pointer a) (al_size a) 0 0%N file_offset;
      '(others, total) ← write_entries rest after;
      mret (Entry (al_pointer a) (al_size a) (al_tag a) (Some (file_offset, crc_hex crc)) :: others, total)
  end.

(** The blob through the host stage; a failure removes the temporary file. *)
Definition write_blob_python (required : Z) : ST world (list snapshot_entry * Z) :=
  _ ← st_set (set_tmp (Some []));
  st_on_error (
    _ ← preallocate required;
    l ← allocations PRESERVED_REGION;
    '(entries, total) ← write_entries l 0;
    _ ← st_raise_if (negb (total =? required)) RuntimeError "snapshot allocation bytes changed during disk write";
    mret (entries, total)) (set_tmp None).

(** The blob through the native transport: file offset, source and length of each extent. *)
Fixpoint capture_extents (l : list Allocation) (file_offset : Z) : list (Z * Z * Z) * Z :=
  match l with
  | [] => ([], file_offset)
  | a :: rest => let '(others, total) := capture_extents rest (file_offset + al_size a) in
                 ((file_offset, al_pointer a, al_size a) :: others, total)
  end.
Fixpoint capture_entries (l : list Allocation) (extents : list (Z * Z * Z)) (digests : list (option pystr)) : res (list snapshot_entry) :=
  match l, extents, digests with
  | [], [], [] => mret []
  | a :: l, x :: extents, digest :: digests =>
      crc ← of_option RuntimeError "native capture omitted an allocation CRC32" digest;
      others ← capture_entries l extents digests;
      mret (Entry (al_pointer a) (al_size a) (al_tag a) (Some (x.1.1, crc)) :: others)
  | _, _, _ => Raise (Exn ValueError "zip() arguments have different lengths")
  end.
(** A missing digest removes the temporary file. *)
Definition take_digests (entries : res (list snapshot_entry)) : ST world (list snapshot_entry) := λ w,
  match entries with
  | Raise e => (Raise e, if bool_decide (exc e = RuntimeError) then set_tmp None w else w)
  | Ok l => (Ok l, w)
  end.
Definition write_blob_native (capture : list (Z * Z * Z) → D → res (pybytes * Z * list (option pystr)) * D) (required : Z)
    : ST world (list snapshot_entry * Z) :=
  l ← allocations PRESERVED_REGION;
  let '(extents, total) := capture_extents l 0 in
  st_on_error (
    '(bytes, count, digests) ← on_device (capture extents);
    _ ← st_set (set_tmp (Some bytes));
    _ ← st_raise_if (negb (count =? required) || negb (total =? required)) RuntimeError "snapshot allocation bytes changed during native capture";
    mret digests) (set_tmp None) ≫= λ digests,
  entries ← take_digests (capture_entries l extents digests);
  mret (entries, total).

(** [os.replace(tmp_blob, blob_path)] and [os.chmod] *)
Definition publish_blob : ST world unit := st_set (λ w,
  let '(device, inode, mtime, ctime) := stamp (w_files w) in
  set_files (w_manifest w) ((λ f, BlobFile f device inode mtime ctime) <$> w_tmp w) None (S (w_files w)) w).
Definition open_blob : ST world blob_file := λ w, (of_option FileNotFoundError "weights.blob" (w_blob w), w).

(** [_verify_blob] *)
Fixpoint verify_chunks (fuel : nat) (f : pybytes) (size offset copied : Z) (crc : N) : res N :=
  match fuel with
  | O => mret crc
  | S fuel' =>
      if copied <? size then
        let count := Z.min (chunk_bytes s) (size - copied) in
        view ← read_exact_at f (offset + copied) count;
        verify_chunks fuel' f size offset (copied + count) (crc32 view crc)
      else mret crc
  end.
Definition verify_entry (f : pybytes) (e : snapshot_entry) : res unit :=
  crc ← verify_chunks (Z.to_nat (e_size e)) f (e_size e) (e_offset e) 0 0%N;
  raise_if (negb (bool_decide (crc_hex crc = e_crc e))) RuntimeError "snapshot post-write checksum mismatch for allocation".
Definition verify_file (opened : ST world blob_file) (entries : list snapshot_entry) (expected_verified : Z) : ST world unit :=
  b ← opened;
  _ ← lift (mapM (verify_entry (bf_bytes b)) entries);
  st_raise_if (negb (zsum ((λ e, Z.max 0 (e_size e)) <$> entries) =? expected_verified)) RuntimeError "snapshot post-write verification length mismatch".
Definition verify_blob : list snapshot_entry → Z → ST world unit := verify_file open_blob.

Definition new_manifest (generation : pystr) (stat : file_stat) (entries : list snapshot_entry) (bytes : Z) (verified : bool)
    : snapshot_manifest :=
  SnapshotManifest FORMAT KIND (identity s) generation (own_pid s) (own_rank s) (own_worker s) (own_capture s) BLOB_NAME bytes stat
    verified WEIGHT_SOURCE_BLOB entries false None.
Definition write_manifest (m : snapshot_manifest) : ST world snapshot_manifest :=
  _ ← st_set (λ w, set_files (Some m) (w_blob w) (w_tmp w) (w_files w) w);
  mret m.

(** A fresh blob and its manifest. *)
Definition write_new_snapshot : ST world snapshot_manifest :=
  required ← required_bytes;
  _ ← st_set (λ w, set_files None None (w_tmp w) (w_files w) w);
  _ ← ensure_space required;
  '(entries, total) ← match capture_transport with
                      | Some capture => write_blob_native capture required
                      | None => write_blob_python required
                      end;
  _ ← publish_blob;
  generation ← st_get (λ w, str_of_Z (own_pid s) ++ lit "-" ++ str_of_Z (time_ns (w_files w)));
  _ ← (if preverified s && negb (bool_decide (is_Some capture_transport)) then verify_blob entries total else mret tt);
  b ← open_blob;
  write_manifest (new_manifest generation (stat_identity b) entries total (preverified s)).

(** ** Admitting a snapshot *)

(** The ownership of a manifest. *)
Definition ownership_mismatch (m : snapshot_manifest) : bool :=
  negb (mf_pid m =? own_pid s)
  || negb (portable_identity_matches (mf_identity m) (own_worker s) (own_rank s) (own_pid s))
  || negb (mf_rank m =? own_rank s) || negb (bool_decide (mf_worker m = own_worker s))
  || negb (bool_decide (mf_capture m = own_capture s)) || negb (bool_decide (mf_blob m = BLOB_NAME)).

Definition entry_key (e : snapshot_entry) : Z * Z * pystr := (e_ptr e, e_size e, e_tag e).
Definition allocation_key (a : Allocation) : Z * Z * pystr := (al_pointer a, al_size a, al_tag a).

(** The entries lie in the blob one after the other. *)
Fixpoint contiguous_loop (expected_offset : Z) (l : list snapshot_entry) : res Z :=
  match l with
  | [] => mret expected_offset
  | e :: rest =>
      _ ← of_option KeyError "offset" (e_place e);
      _ ← raise_if (negb (e_offset e =? expected_offset) || (e_size e <=? 0)) RuntimeError "snapshot allocation entries are not contiguous";
      contiguous_loop (expected_offset + e_size e) rest
  end.

(** [_load_manifest] *)
Definition load_manifest : ST world snapshot_manifest :=
  found ← st_get w_manifest;
  m ← lift (of_option FileNotFoundError "manifest.json" found);
  _ ← st_raise_if (negb (mf_format m =? FORMAT) || negb (bool_decide (mf_kind m = KIND)))
      RuntimeError "live hibernation manifest format is unsupported";
  l ← allocations PRESERVED_REGION;
  _ ← st_raise_if (negb (bool_decide (mf_source m = weight_recovery_source)))
      RuntimeError "snapshot weight recovery source differs from the live worker";
  _ ← st_raise_if (ownership_mismatch m) RuntimeError "snapshot does not belong to this live worker process";
  _ ← st_raise_if (bool_decide (mf_entries m = [])) RuntimeError "snapshot allocation entries are invalid";
  _ ← st_raise_if (has_dups (entry_key <$> mf_entries m)) RuntimeError "snapshot allocation entries contain duplicates";
  _ ← st_raise_if (negb (set_eqb (allocation_key <$> l) (entry_key <$> mf_entries m)))
      RuntimeError "snapshot allocation map differs from the live worker";
  if bool_decide (mf_source m = WEIGHT_SOURCE_SAFETENSORS) then check_recovery_manifest source m else
  b ← open_blob;
  let actual := stat_identity b in
  _ ← st_raise_if (negb (fs_bytes actual =? mf_blob_bytes m)) RuntimeError "snapshot blob size does not match its manifest";
  _ ← st_raise_if (preverified s && negb (stat_matches (mf_blob_stat m) actual))
      RuntimeError "preverified snapshot blob stat identity changed";
  _ ← st_raise_if (preverified s && negb (mf_preverified m)) RuntimeError "snapshot has no completed post-write verification";
  total ← lift (contiguous_loop 0 (mf_entries m));
  _ ← st_raise_if (negb (total =? mf_blob_bytes m)) RuntimeError "snapshot allocation entries do not cover the blob";
  mret m.

(** The classes [_reusable_snapshot] catches; [VllmContractError] is a [RuntimeError]. *)
Definition reuse_caught (c : exc_class) : bool :=
  is_os_error c || is_value_error c
  || match c with TypeError | KeyError | RuntimeError | VllmContractError => true | _ => false end.

(** [_reusable_snapshot]: the accepted generation, when it is the one a wake restored. *)
Definition reuse_candidate (generation : pystr) (stat : file_stat) : ST world (option snapshot_manifest) :=
  m ← load_manifest;
  b ← open_blob;
  _ ← st_raise_if (negb (bool_decide (mf_generation m = generation)) || negb (stat_matches stat (stat_identity b)))
      RuntimeError "restored snapshot generation changed";
  mret (Some (SnapshotManifest (mf_format m) (mf_kind m) (mf_identity m) (mf_generation m) (mf_pid m) (mf_rank m) (mf_worker m)
    (mf_capture m) (mf_blob m) (mf_blob_bytes m) (mf_blob_stat m) (mf_preverified m) (mf_source m) (mf_entries m) true (mf_recovery m))).
Definition reusable_snapshot : ST world (option snapshot_manifest) :=
  generation ← st_get w_reusable_generation;
  stat ← st_get w_reusable_stat;
  match reuse_blob s && negb (uses_model_weight_recovery source), generation, stat with
  | true, Some generation, Some stat =>
      st_except (reuse_candidate generation stat) reuse_caught (λ _, _ ← st_set (set_reusable None None); mret None)
  | _, _, _ => mret None
  end.

(** [_write_snapshot] *)
Definition write_snapshot : ST world snapshot_manifest :=
  reused ← reusable_snapshot;
  match reused with
  | Some m => mret m
  | None =>
      if uses_model_weight_recovery source || model_payload_capture_enabled source then write_recovery_manifest source
      else write_new_snapshot
  end.

(** ** Discardable regions *)

(** [_selected_discard_allocations]: the payload allocations of a region with their places
    in address order. *)
Definition selected_discard_allocations (region : pystr) : ST world (list (nat * Allocation)) :=
  l ← allocations region;
  let allocated := sort_on al_pointer l in
  payload ← (λ w, (select_allocations region (lit "payload") (w_kv_payload w) (w_memory w), w)) : ST world (list Allocation);
  _ ← st_raise_if (bool_decide (payload = [])) RuntimeError "memory provider selected no payload allocations";
  _ ← st_raise_if (has_dups (al_pointer <$> payload)) RuntimeError "memory provider returned duplicate payload allocations";
  lift (mapM (λ a, of_option RuntimeError "memory provider returned payload pointers outside region"
                     (last (filter (λ ib : nat * Allocation, al_pointer ib.2 = al_pointer a) (imap pair allocated)) ≫= λ ib, Some (ib.1, a)))
             (sort_on al_pointer payload)).

(** [_release_discard_regions]: the bytes it unmapped. *)
Definition release_discard (a : Allocation) : ST world Z :=
  if al_released a then mret 0 else _ ← memory_release a; mret (al_size a).
Fixpoint release_each (l : list Allocation) : ST world Z :=
  match l with
  | [] => mret 0
  | a :: rest => here ← release_discard a; others ← release_each rest; mret (here + others)
  end.
Fixpoint release_discard_regions (regions : list pystr) : ST world Z :=
  match regions with
  | [] => mret 0
  | region :: rest =>
      selected ← selected_discard_allocations region;
      here ← release_each selected.*2;
      others ← release_discard_regions rest;
      mret (here + others)
  end.

(** [_verify_discard_extent]: samples of a fresh mapping must read as zero. *)
Definition sample_offsets (size sample : Z) : list Z :=
  sorted_set Z.leb [0; Z.max 0 ((size - sample) / 2); Z.max 0 (size - sample)].
Definition verify_sample (pointer sample offset : Z) : ST world unit :=
  view ← st_except (copy_to_host sample (pointer + offset) sample) (λ _, true)
           (λ _, lift (Raise (Exn RuntimeError "discard remap readback failed")));
  st_raise_if (existsb (λ x, negb (x =? 0)%N) view) RuntimeError "discard remap readback was not zero".
Definition verify_discard_extent (pointer size : Z) : ST world unit :=
  let sample := Z.min (discard_verify_sample_bytes s) size in
  _ ← st_raise_if (sample <=? 0) ValueError "host stage size must be positive";
  st_iter (verify_sample pointer sample) (sample_offsets size sample).

(** [_remap_discard_regions]: the bytes it mapped or had mapped. *)
Definition remap_discard (a : Allocation) : ST world Z :=
  if negb (al_released a) then mret 0 else
  mapped ← st_get w_discard_mapped;
  _ ← (if bool_decide (al_pointer a ∈ mapped) then mret tt else
       _ ← memory_remap a;
       _ ← fill_zero (al_pointer a) (al_size a);
       _ ← synchronize;
       st_set (λ w, set_mapped (w_restore_mapped w) ({[ al_pointer a ]} ∪ w_discard_mapped w) w));
  _ ← verify_discard_extent (al_pointer a) (al_size a);
  mret (al_size a).
Fixpoint remap_each (l : list Allocation) : ST world Z :=
  match l with
  | [] => mret 0
  | a :: rest => here ← remap_discard a; others ← remap_each rest; mret (here + others)
  end.
Fixpoint remap_discard_regions (regions : list pystr) : ST world Z :=
  match regions with
  | [] => mret 0
  | region :: rest =>
      l ← allocations region;
      here ← remap_each (sort_on al_pointer l);
      others ← remap_discard_regions rest;
      mret (here + others)
  end.

(** [_commit_discard_regions] and [_commit_restore] *)
Definition commit_one (mapped : gset Z) (message : string) (a : Allocation) : ST world unit :=
  _ ← st_raise_if (al_released a && negb (bool_decide (al_pointer a ∈ mapped))) RuntimeError message;
  set_released a false.
Fixpoint commit_regions (regions : list pystr) : ST world unit :=
  match regions with
  | [] => mret tt
  | region :: rest =>
      l ← allocations region;
      mapped ← st_get w_discard_mapped;
      _ ← st_iter (commit_one mapped "discard region allocation was not remapped by the restore") l;
      commit_regions rest
  end.
Definition commit_discard_regions (regions : list pystr) : ST world unit :=
  _ ← commit_regions regions;
  st_set (λ w, set_mapped (w_restore_mapped w) ∅ w).
Definition commit_restore : ST world unit :=
  l ← allocations PRESERVED_REGION;
  mapped ← st_get w_restore_mapped;
  _ ← st_iter (commit_one mapped "live weight allocation was not mapped by the restore") l;
  st_set (λ w, set_mapped ∅ (w_discard_mapped w) w).

(** ** Restoring the weights *)

(** [entries.get(ptr)] of the dictionary over the manifest. *)
Definition find_entry (ptr : Z) (l : list snapshot_entry) : option snapshot_entry := last (filter (λ e, e_ptr e = ptr) l).

(** [_remap_weight_allocations]: the entries in pool order. *)
Definition remap_weight (entries : list snapshot_entry) (a : Allocation) : ST world snapshot_entry :=
  e ← lift (of_option RuntimeError "live weight allocation is absent from snapshot" (find_entry (al_pointer a) entries));
  _ ← st_raise_if (negb (e_size e =? al_size a)) RuntimeError "live weight allocation is absent from snapshot";
  mapped ← st_get w_restore_mapped;
  _ ← (if al_released a && negb (bool_decide (al_pointer a ∈ mapped)) then
         _ ← memory_remap a;
         st_set (λ w, set_mapped ({[ al_pointer a ]} ∪ w_restore_mapped w) (w_discard_mapped w) w)
       else st_raise_if (negb (al_released a) && bool_decide (al_pointer a ∈ mapped))
              RuntimeError "live weight allocation was published during an incomplete restore");
  mret e.
Fixpoint remap_weights (entries : list snapshot_entry) (l : list Allocation) : ST world (list snapshot_entry) :=
  match l with
  | [] => mret []
  | a :: rest => e ← remap_weight entries a; others ← remap_weights entries rest; mret (e :: others)
  end.
Definition remap_allocations (entries : list snapshot_entry) : ST world (list snapshot_entry) :=
  l ← allocations PRESERVED_REGION;
  remap_weights entries l.
Definition remap_weight_allocations (m : snapshot_manifest) : ST world (list snapshot_entry) := remap_allocations (mf_entries m).

(** The pipelined read into the mapped weights under a schedule of its threads. *)
Definition read_chunks (f : pybytes) (ordered : list snapshot_entry) (events : list pool_event) : ST world (gmap Z N) := λ w,
  let chunks := chunk_descriptors ((λ e, (e_ptr e, e_size e, e_offset e)) <$> ordered) (chunk_bytes s) in
  let depth := Z.to_nat (Z.min (pipeline_depth s) (Z.of_nat (length chunks))) in
  if bool_decide (chunks = []) then (Raise (Exn RuntimeError "live hibernation snapshot contains no chunks"), w) else
  let st := run_pipeline memcpy_from_host f chunks depth (negb (preverified s)) events
              (pipeline_start depth (chunk_bytes s) (e_ptr <$> ordered) (w_device w)) in
  (match outcome st with
   | Some (Ok _) => Ok (checksums st)
   | Some (Raise e) => Raise e
   | None => Raise (Exn RuntimeError "pipeline did not return")
   end, set_memory (w_memory w) (device st) w).

Definition checksum_matches (sums : gmap Z N) (e : snapshot_entry) : res unit :=
  crc ← of_option KeyError "allocation" (sums !! e_ptr e);
  raise_if (negb (bool_decide (e_crc e = crc_hex crc))) RuntimeError "snapshot checksum mismatch for allocation".

(** [_restore_pipeline] *)
Definition restore_pipeline (m : snapshot_manifest) (f : pybytes) (events : list pool_event) : ST world unit :=
  ordered ← remap_weight_allocations m;
  match hydrator with
  | Some hydrate => on_device (hydrate f ((λ e, (e_offset e, e_ptr e, e_size e, e_crc e)) <$> ordered))
  | None =>
      sums ← read_chunks f ordered events;
      if preverified s then mret tt else
      _ ← lift (mapM (checksum_matches sums) ordered);
      mret tt
  end.

(** ** Sleep and wake *)

Definition fail (operation : string) : world → world := set_phase FAILED (lit "failed", lit operation).

(** [suspend] *)
Definition suspend (level : Z) : ST world unit :=
  _ ← st_raise_if (negb (level =? 1)) ValueError "disk sleep supports level 1 only";
  _ ← wait_materialization source;
  _ ← st_set (set_phase SUSPENDING (lit "suspending", []));
  st_on_error (
    _ ← synchronize;
    _ ← write_snapshot;
    _ ← on_graphs graph_release;
    l ← allocations PRESERVED_REGION;
    _ ← st_iter memory_release l;
    _ ← release_discard_regions (discard_regions s);
    _ ← synchronize;
    _ ← empty_cache;
    st_set (set_phase SUSPENDED (lit "sleeping", []))) (fail "sleep").

(** The preserved part of a wake: the manifest, and the identity of a blob that was read. *)
Definition restore_preserved (events : list pool_event) : ST world (snapshot_manifest * option file_stat) :=
  m ← load_manifest;
  if bool_decide (mf_source m = WEIGHT_SOURCE_SAFETENSORS) then
    _ ← restore_from_model_source source m; mret (m, None)
  else
    b ← open_blob;
    _ ← restore_pipeline m (bf_bytes b) events;
    b ← open_blob;
    mret (m, Some (stat_identity b)).

(** Whether a wake has nothing to do: a suspend failed before it unmapped anything. *)
Definition nothing_asleep (wake_preserved : bool) (wake_discard : list pystr) : ST world bool :=
  asleep ← (if wake_preserved then has_asleep_weights else mret false);
  restoring ← st_get (λ w, negb (bool_decide (w_restore_mapped w = ∅)));
  if asleep || restoring then mret false else
  regions ← has_asleep_regions wake_discard;
  st_get (λ w, negb regions && bool_decide (w_discard_mapped w = ∅) && (graph_paused (w_graphs w) =? 0)).

(** The rest of a wake: the discardable regions, the graphs, and the commits. *)
Definition finish_wake (wake_preserved : bool) (wake_discard : list pystr) (restored : option (snapshot_manifest * option file_stat))
    : ST world unit :=
  _ ← (if bool_decide (wake_discard = []) then mret tt else empty_cache);
  _ ← remap_discard_regions wake_discard;
  _ ← (if wake_preserved then on_graphs graph_restore else mret tt);
  _ ← synchronize;
  _ ← (if wake_preserved then commit_restore else mret tt);
  _ ← commit_discard_regions wake_discard;
  _ ← match restored with
      | Some (m, _) => if bool_decide (mf_source m = WEIGHT_SOURCE_SAFETENSORS) then start_materialization source m else mret tt
      | None => mret tt
      end;
  _ ← match restored with
      | Some (m, Some stat) => st_set (set_reusable (Some (mf_generation m)) (Some stat))
      | _ => mret tt
      end;
  st_set (set_phase RUNNING (lit "running", [])).
Definition wake (wake_preserved : bool) (wake_discard : list pystr) (events : list pool_event) : ST world unit :=
  restored ← (if wake_preserved then m ← restore_preserved events; mret (Some m) else mret None);
  finish_wake wake_preserved wake_discard restored.

(** The body of [resume] and [resume] itself. *)
Definition wake_or_recover (wake_preserved : bool) (wake_discard : list pystr) (events : list pool_event) (idle : bool) : ST world unit :=
  if idle then st_set (set_phase RUNNING (lit "running", lit "recover-failed-suspend"))
  else wake wake_preserved wake_discard events.
Definition resume (tags : option (list pystr)) (events : list pool_event) : ST world unit :=
  '(wake_preserved, wake_discard) ← lift (resume_selection s tags);
  _ ← st_set (set_phase RESUMING (lit "resuming", []));
  st_on_error (
    idle ← nothing_asleep wake_preserved wake_discard;
    wake_or_recover wake_preserved wake_discard events idle) (fail "resume").
End backend.
Arguments world : clear implicits.
Arguments model_source : clear implicits.
