(* ===== verification/DiskSleepSpec.v ===== *)
(** * Theorems about sleep and wake

    A sleep followed by a wake gives every weight byte back; what a wake publishes it has
    restored; a sleep that failed before unmapping is undone by the next wake. The device is
    known only by the laws of its calls. *)

From S2P Require Import Prelude Ranges PyFloat PyJson Hash Memory MemorySpec DiskLayout VllmMemory VllmMemorySpec.
From S2P Require Import Artifact DiskPipeline DiskPipelineSpec DiskSleep.

Lemma Forall2_impl_elem {A B} (P Q : A → B → Prop) l k :
  Forall2 P l k → (∀ x y, x ∈ l → P x y → Q x y) → Forall2 Q l k.
Proof.
  induction 1 as [|x y l k Hx _ IH]; intros HQ; constructor; [apply HQ; [left|done]|]. apply IH. intros ? ? ?. apply HQ. by right.
Qed.

(** Running a bind whose first part is known. *)
Lemma st_bind_run {W A B} (m : ST W A) (f : A → ST W B) w a w1 : m w = (Ok a, w1) → (m ≫= f) w = f a w1.
Proof. unfold mbind, st_bind. by intros ->. Qed.
Lemma st_bind_raise {W A B} (m : ST W A) (f : A → ST W B) w e w1 : m w = (Raise e, w1) → (m ≫= f) w = (Raise e, w1).
Proof. unfold mbind, st_bind. by intros ->. Qed.

(** The bytes at an address. *)
Definition reads (v : Z → option N) (p : Z) (data : pybytes) : Prop := ∀ i x, data !! i = Some x → v (p + Z.of_nat i) = Some x.
Lemma reads_app v p a b : reads v p a → reads v (p + Z.of_nat (length a)) b → reads v p (a ++ b).
Proof.
  intros Ha Hb i x [Hi|[Hl Hi]]%lookup_app_Some; [by apply Ha|]. apply Hb in Hi. rewrite <- Hi. f_equal. lia.
Qed.

(** ** What the device calls promise *)

(** The byte at an address while it is mapped. A call changes bytes only in its range, also
    when it fails; what a fresh mapping holds is not known. *)
Class DeviceView (D : Type) `{CudaDevice D} := {
  view : D → Z → option N;
  view_map p n d r d' a : map_device p n d = (r, d') → ¬ (p <= a < p + n) → view d' a = view d a;
  view_unmap p n d r d' a : unmap_device p n d = (r, d') → ¬ (p <= a < p + n) → view d' a = view d a;
  view_read p n d r d' a : memcpy_to_host p n d = (r, d') → view d' a = view d a;
  read_bytes p n d b d' : 0 < n → memcpy_to_host p n d = (Ok b, d') →
    Z.of_nat (length b) = n ∧ ∀ i x, b !! i = Some x → view d (p + Z.of_nat i) = Some x;
  view_write p b d r d' a : memcpy_from_host p b d = (r, d') → ¬ (p <= a < p + Z.of_nat (length b)) → view d' a = view d a;
  write_bytes p b d d' i x : memcpy_from_host p b d = (Ok tt, d') → b !! i = Some x → view d' (p + Z.of_nat i) = Some x;
  view_zero p n d r d' a : memset_zero p n d = (r, d') → ¬ (p <= a < p + n) → view d' a = view d a;
  zero_bytes p n d d' a : memset_zero p n d = (Ok tt, d') → p <= a < p + n → view d' a = Some 0%N;
  view_synchronize d r d' a : device_synchronize d = (r, d') → view d' a = view d a;
  view_empty_cache d r d' a : device_empty_cache d = (r, d') → view d' a = view d a;
}.

(** ** Pools keep their layout *)

(** Flags and revision may change; addresses, sizes and tags do not. *)
Definition same_layout (v v' : provider) : Prop := ∀ tag l, pool_allocations (v_pool v) tag = Ok l →
  ∃ l', pool_allocations (v_pool v') tag = Ok l' ∧ allocation_key <$> l' = allocation_key <$> l.
#[global] Instance same_layout_preorder : PreOrder same_layout.
Proof.
  split; [intros v tag l E; eauto|]. intros v1 v2 v3 H1 H2 tag l E.
  destruct (H1 _ _ E) as (l2 & E2 & K2). destruct (H2 _ _ E2) as (l3 & E3 & K3). exists l3. split; congruence.
Qed.

Lemma mark_key value p a : allocation_key (mark_as value p a) = allocation_key a.
Proof. unfold mark_as. by case_decide. Qed.
Lemma same_layout_set value p v n : same_layout v (Provider (set_asleep p value (v_pool v)) n).
Proof.
  intros tag l E. exists (mark_as value p <$> l). split; [by apply pool_set_asleep|].
  rewrite <- list_fmap_compose. apply list_fmap_ext. intros _ a _. apply mark_key.
Qed.

(** An allocation found later was there before, with its range. *)
Lemma same_layout_elem v v' tag l l' a : same_layout v v' → pool_allocations (v_pool v) tag = Ok l →
  pool_allocations (v_pool v') tag = Ok l' → a ∈ l' → ∃ b, b ∈ l ∧ allocation_key b = allocation_key a.
Proof.
  intros H E E' Ha. destruct (H _ _ E) as (k & Ek & Hk). assert (k = l') as -> by congruence.
  assert (allocation_key a ∈ allocation_key <$> l) as (b & E2 & Hb)%list_elem_of_fmap; [|eauto].
  rewrite <- Hk. apply list_elem_of_fmap. eauto.
Qed.

(** ** Flags of the pool *)

Definition set_flags (value : bool) (p : list (option Z * alloc_data)) (pointers : list Z) : list (option Z * alloc_data) :=
  foldl (λ p q, set_asleep q value p) p pointers.
(** Every entry at a pointer has the flag. *)
Definition flagged (value : bool) (pointer : Z) (p : list (option Z * alloc_data)) : Prop :=
  ∀ e, e ∈ p → e.1 = Some pointer → da_asleep e.2 = Some value.

Lemma flagged_set value p q pointer : q = pointer ∨ flagged value pointer p → flagged value pointer (set_asleep q value p).
Proof.
  intros Hp e (e0 & -> & He)%list_elem_of_fmap. case_bool_decide as Hq; [done|]. intros E.
  destruct Hp as [-> | Hf]; [done|by apply Hf].
Qed.
Lemma flagged_flags value p pointers pointer : pointer ∈ pointers ∨ flagged value pointer p → flagged value pointer (set_flags value p pointers).
Proof.
  unfold set_flags. revert p. induction pointers as [|q l IH]; intros p Hp; cbn [foldl].
  - destruct Hp as [Hp|Hp]; [by apply not_elem_of_nil in Hp|done].
  - apply IH. destruct Hp as [[-> | Hp]%elem_of_cons|Hp]; [right|by left|right]; apply flagged_set; auto.
Qed.
Lemma flagged_elem value p tag l a : pool_allocations p tag = Ok l → a ∈ l → flagged value (al_pointer a) p → al_released a = value.
Proof.
  revert l. induction p as [|e p IH]; intros l E Ha Hf; [injection E as <-; by apply not_elem_of_nil in Ha|].
  rewrite pool_allocations_cons in E. res_inv.
  assert (∀ k, pool_allocations p tag = Ok k → a ∈ k → al_released a = value) as Hrest.
  { intros k Ek Hk. apply (IH k Ek Hk). intros e' He'. apply Hf. by right. }
  destruct x as [b|]; [|by eapply Hrest]. apply elem_of_cons in Ha as [-> | Ha]; [|by eapply Hrest].
  match goal with E : allocation_of _ _ = _ |- _ => apply allocation_of_inv in E as (Hp & _ & Hs) end.
  rewrite (Hf e) in Hs by (done || left). by injection Hs.
Qed.

(** ** Runs and relations *)

(** Every run of [m], whatever its outcome, relates the worlds before and after. *)
Section runs.
Context {W : Type} (R : W → W → Prop) `{!PreOrder R}.
Definition Runs {A} (m : ST W A) : Prop := ∀ w r w', m w = (r, w') → R w w'.
Lemma worker_runs_bind {A B} (m : ST W A) (f : A → ST W B) : Runs m → (∀ a, Runs (f a)) → Runs (m ≫= f).
Proof.
  intros Hm Hf w r w' E. unfold mbind, st_bind in E. destruct (m w) as [[a|e] w1] eqn:E1.
  - etrans; [by eapply Hm|by eapply Hf].
  - injection E as <- <-. by eapply Hm.
Qed.
Lemma runs_pure {A} (m : ST W A) : (∀ w, (m w).2 = w) → Runs m.
Proof. intros Hm w r w' E. pose proof (Hm w) as <-. by rewrite E. Qed.
Lemma runs_ret {A} (a : A) : Runs (mret a).
Proof. by apply runs_pure. Qed.
Lemma worker_runs_lift {A} (x : res A) : Runs (lift x).
Proof. by apply runs_pure. Qed.
Lemma worker_runs_raise_if b c m : Runs (st_raise_if b c m).
Proof. by apply runs_pure. Qed.
Lemma runs_guard {B} b c m (f : unit → ST W B) : (b = false → Runs (f tt)) → Runs (st_raise_if b c m ≫= f).
Proof.
  intros Hf w r w' E. unfold mbind, st_bind, st_raise_if, lift, raise_if in E. destruct b; [by injection E as <- <-|]. by eapply Hf.
Qed.
Lemma runs_get {A} (g : W → A) : Runs (st_get g).
Proof. by apply runs_pure. Qed.
Lemma runs_set (g : W → W) : (∀ w, R w (g w)) → Runs (st_set g).
Proof. intros Hg w r w' [= <- <-]. apply Hg. Qed.
Lemma runs_iter {A} (f : A → ST W unit) l : (∀ x, Runs (f x)) → Runs (st_iter f l).
Proof. intros Hf. induction l; cbn [st_iter]; [apply runs_ret|by apply worker_runs_bind]. Qed.
Lemma runs_except {A} (m : ST W A) c h : Runs m → (∀ e, Runs (h e)) → Runs (st_except m c h).
Proof.
  intros Hm Hh w r w' E. unfold st_except in E. destruct (m w) as [[a|e] w1] eqn:E1.
  - injection E as <- <-. by eapply Hm.
  - destruct (c (exc e)); [|injection E as <- <-; by eapply Hm]. etrans; [by eapply Hm|by eapply Hh].
Qed.
Lemma runs_on_error {A} (m : ST W A) (h : W → W) : Runs m → (∀ w, R w (h w)) → Runs (st_on_error m h).
Proof.
  intros Hm Hh w r w' E. unfold st_on_error in E. destruct (m w) as [[a|e] w1] eqn:E1; injection E as <- <-; [by eapply Hm|].
  etrans; [by eapply Hm|apply Hh].
Qed.
End runs.
Create HintDb runs.
#[global] Hint Resolve runs_ret worker_runs_lift worker_runs_raise_if runs_get runs_iter runs_except : runs.
#[global] Hint Extern 0 (PreOrder _) => apply _ : runs.
Ltac runs_step := match goal with |- Runs ?R (_ ≫= _) => apply (worker_runs_bind R); [|intros ?] end.
#[global] Hint Extern 1 (Runs _ (_ ≫= _)) => runs_step : runs.

Section spec.
Context {D G : Type} `{DeviceView D} `{GraphController G}.
Notation world := (world D G).

(** The snapshot files stay, and flags change only to [value]; or no flag changes. *)
Definition flags_to (value : bool) (w w' : world) : Prop :=
  w_manifest w' = w_manifest w ∧ w_blob w' = w_blob w
  ∧ ∃ pointers, v_pool (w_memory w') = set_flags value (v_pool (w_memory w)) pointers.
#[global] Instance flags_to_preorder value : PreOrder (flags_to value).
Proof.
  split; [intros w; split_and!; [done..|by exists []]|]. intros w1 w2 w3 (? & ? & p & Hp) (? & ? & q & Hq).
  split_and!; [congruence..|]. exists (p ++ q). unfold set_flags in *. rewrite foldl_app. congruence.
Qed.
Definition keeps (w w' : world) : Prop :=
  w_manifest w' = w_manifest w ∧ w_blob w' = w_blob w ∧ v_pool (w_memory w') = v_pool (w_memory w).
#[global] Instance keeps_preorder : PreOrder keeps.
Proof. split; [done|]. intros w1 w2 w3 (? & ? & ?) (? & ? & ?). split_and!; congruence. Qed.
Lemma keeps_flags value w w' : keeps w w' → flags_to value w w'.
Proof. intros (? & ? & ?). split_and!; [done..|by exists []]. Qed.

Lemma keep_device {A} (op : D → res A * D) : Runs keeps (on_device op).
Proof. intros w r w' E. unfold on_device in E. destruct (op _). by injection E as <- <-. Qed.
Lemma keep_graphs (op : G → res unit * G) : Runs keeps (on_graphs op).
Proof. intros w r w' E. unfold on_graphs in E. destruct (op _). by injection E as <- <-. Qed.
Lemma keep_remap a : Runs keeps (memory_remap a).
Proof. intros w r w' E. unfold memory_remap, remap in E. destruct (map_device _ _ _) as [[[]|] ?]; by injection E as <- <-. Qed.
Lemma keep_allocations tag : Runs keeps (allocations tag).
Proof. by intros w r w' [= <- <-]. Qed.
Lemma keep_mapped (f g : world → gset Z) : Runs keeps (st_set (λ w, set_mapped (f w) (g w) w)).
Proof. by apply runs_set. Qed.
#[local] Hint Resolve keep_device keep_graphs keep_remap keep_allocations keep_mapped : runs.
#[local] Hint Unfold synchronize empty_cache copy_to_host fill_zero : runs.

Lemma keep_remap_regions s regions : Runs keeps (remap_discard_regions s regions).
Proof.
  assert (∀ p n, Runs keeps (verify_discard_extent s p n)) as Hv.
  { intros p n. unfold verify_discard_extent. cbv zeta. runs_step; [auto with runs|]. apply (runs_iter keeps). intros o.
    unfold verify_sample, copy_to_host. auto 10 with runs. }
  assert (∀ a, Runs keeps (remap_discard s a)) as Ha.
  { intros a. unfold remap_discard. destruct (al_released a); cbn [negb]; [|auto with runs]. runs_step; [auto with runs|].
    runs_step; [|auto with runs]. destruct (bool_decide _); unfold fill_zero, synchronize; auto 10 with runs. }
  assert (∀ l, Runs keeps (remap_each s l)) as Hl by (induction l; cbn [remap_each]; auto 10 with runs).
  induction regions; cbn [remap_discard_regions]; auto 10 with runs.
Qed.

Definition byte (w : world) (a : Z) : option N := view (w_device w) a.

(** ** Footprints *)

(** A run that keeps the snapshot files and the layout, and the bytes outside [S]. *)
Record touches (S : Z → Prop) (w w' : world) : Prop := {
  t_manifest : w_manifest w' = w_manifest w;
  t_blob : w_blob w' = w_blob w;
  t_kv : w_kv_payload w' = w_kv_payload w;
  t_bytes a : ¬ S a → byte w' a = byte w a;
  t_layout : same_layout (w_memory w) (w_memory w');
}.
#[global] Instance touches_preorder S : PreOrder (touches S).
Proof.
  split; [by split|]. intros w1 w2 w3 [] []. split; [congruence..| |by etrans]. intros a Ha. rewrite t_bytes1, t_bytes0; done.
Qed.

(** Every outcome of [m] started on a pool with the layout of [v]. *)
Definition Touch {A} (v : provider) (S : Z → Prop) (m : ST world A) : Prop := ∀ w r w',
  same_layout v (w_memory w) → m w = (r, w') → touches S w w'.

Lemma touch_bind {A B} v S (m : ST world A) (f : A → ST world B) :
  Touch v S m → (∀ a, Touch v S (f a)) → Touch v S (m ≫= f).
Proof.
  intros Hm Hf w r w' Hw E. unfold mbind, st_bind in E. destruct (m w) as [[a|e] w1] eqn:E1.
  - pose proof (Hm _ _ _ Hw E1) as T1. etrans; [exact T1|]. eapply Hf; [|exact E]. etrans; [exact Hw|apply T1].
  - injection E as <- <-. by eapply Hm.
Qed.
(** The continuation may use what the first part returned. *)
Lemma touch_bind_post {A B} v S (P : A → Prop) (m : ST world A) (f : A → ST world B) : Touch v S m →
  (∀ w a w', same_layout v (w_memory w) → m w = (Ok a, w') → P a) → (∀ a, P a → Touch v S (f a)) → Touch v S (m ≫= f).
Proof.
  intros Hm HP Hf w r w' Hw E. unfold mbind, st_bind in E. destruct (m w) as [[a|e] w1] eqn:E1.
  - pose proof (Hm _ _ _ Hw E1) as T1. etrans; [exact T1|]. eapply Hf; [by eapply HP| |exact E]. etrans; [exact Hw|apply T1].
  - injection E as <- <-. by eapply Hm.
Qed.
Lemma touch_pure {A} v S (m : ST world A) : (∀ w, (m w).2 = w) → Touch v S m.
Proof. intros Hm w r w' _ E. pose proof (Hm w) as <-. rewrite E. done. Qed.
Lemma touch_ret {A} v S (a : A) : Touch v S (mret a).
Proof. by apply touch_pure. Qed.
Lemma touch_lift {A} v S (x : res A) : Touch v S (lift x).
Proof. by apply touch_pure. Qed.
Lemma touch_raise_if v S b c m : Touch v S (st_raise_if b c m).
Proof. by apply touch_pure. Qed.
Lemma touch_get {A} v S (g : world → A) : Touch v S (st_get g).
Proof. by apply touch_pure. Qed.
Lemma touch_set v S (g : world → world) : (∀ w, touches S w (g w)) → Touch v S (st_set g).
Proof. intros Hg w r w' _ [= <- <-]. apply Hg. Qed.
Lemma touch_iter {A} v S (f : A → ST world unit) l : Forall (λ x, Touch v S (f x)) l → Touch v S (st_iter f l).
Proof. induction 1; cbn [st_iter]; [apply touch_ret|]. apply touch_bind; auto. Qed.
Lemma touch_except {A} v S (m : ST world A) c h : Touch v S m → (∀ e, Touch v S (h e)) → Touch v S (st_except m c h).
Proof.
  intros Hm Hh w r w' Hw E. unfold st_except in E. destruct (m w) as [[a|e] w1] eqn:E1.
  - injection E as <- <-. by eapply Hm.
  - pose proof (Hm _ _ _ Hw E1) as T1. destruct (c (exc e)); [|by injection E as <- <-].
    etrans; [exact T1|]. eapply Hh; [|exact E]. etrans; [exact Hw|apply T1].
Qed.

(** A device call within [S]. *)
Lemma touch_device {A} v (S : Z → Prop) (op : D → res A * D) :
  (∀ d r d' a, op d = (r, d') → ¬ S a → view d' a = view d a) → Touch v S (on_device op).
Proof.
  intros Hop w r w' _ E. unfold on_device in E. destruct (op (w_device w)) as [x d] eqn:Eo. injection E as <- <-.
  split; try done. intros a Ha. by eapply Hop.
Qed.
Lemma touch_synchronize v S : Touch v S synchronize.
Proof. apply touch_device. intros. by eapply view_synchronize. Qed.
Lemma touch_empty_cache v S : Touch v S empty_cache.
Proof. apply touch_device. intros. by eapply view_empty_cache. Qed.
Lemma touch_graphs v S (op : G → res unit * G) : Touch v S (on_graphs op).
Proof. intros w r w' _ E. unfold on_graphs in E. destruct (op _). injection E as <- <-. done. Qed.
Lemma touch_copy_to_host v S c p n : Touch v S (copy_to_host c p n).
Proof. apply touch_bind; [apply touch_lift|]. intros _. apply touch_device. intros. by eapply view_read. Qed.

Definition covers (S : Z → Prop) (a : Allocation) : Prop := ∀ x, al_pointer a <= x < al_pointer a + al_size a → S x.

Lemma touch_fill_zero v S a : covers S a → Touch v S (fill_zero (al_pointer a) (al_size a)).
Proof.
  intros Hc. apply touch_bind; [apply touch_raise_if|]. intros _. apply touch_device. intros d r d' x E Hx.
  eapply view_zero; [exact E|]. intros Hr. by apply Hx, Hc.
Qed.
Lemma touch_release v S a : covers S a → Touch v S (memory_release a).
Proof.
  intros Hc w r w' _ E. unfold memory_release, release in E. destruct (unmap_device _ _ _) as [x d] eqn:Eo.
  injection E as <- <-. split; try done; [|apply same_layout_set].
  intros y Hy. eapply view_unmap; [exact Eo|]. intros Hr. by apply Hy, Hc.
Qed.
Lemma touch_remap v S a : covers S a → Touch v S (memory_remap a).
Proof.
  intros Hc w r w' _ E. unfold memory_remap, remap in E. destruct (map_device _ _ _) as [x d] eqn:Eo.
  assert (∀ y, ¬ S y → view d y = view (w_device w) y) as Hv.
  { intros y Hy. eapply view_map; [exact Eo|]. intros Hr. by apply Hy, Hc. }
  destruct x as [[]|e]; injection E as <- <-; (split; try done; intros tag l El; eauto).
Qed.
Lemma touch_set_released v S a value : Touch v S (set_released a value).
Proof. apply touch_set. intros w. split; try done. apply same_layout_set. Qed.

#[local] Hint Resolve touch_ret touch_lift touch_raise_if touch_get touch_synchronize touch_empty_cache touch_graphs touch_copy_to_host
  touch_fill_zero touch_release touch_remap touch_set_released : touch.
#[local] Hint Extern 1 (Touch _ _ (_ ≫= _)) => (apply touch_bind; [|intros]) : touch.

(** The allocations of a region lie in [S]. *)
Definition region_in (v : provider) (S : Z → Prop) (region : pystr) : Prop :=
  ∃ l, pool_allocations (v_pool v) (Some region) = Ok l ∧ Forall (covers S) l.

Lemma covers_key S a b : allocation_key a = allocation_key b → covers S a → covers S b.
Proof. unfold allocation_key, covers. intros [= <- <- _]. done. Qed.
Lemma region_in_elem v v' S region l a : region_in v S region → same_layout v v' →
  pool_allocations (v_pool v') (Some region) = Ok l → a ∈ l → covers S a.
Proof.
  intros (k & Ek & Hk) Hv El Ha. destruct (same_layout_elem _ _ _ _ _ _ Hv Ek El Ha) as (b & Hb & Ekey).
  eapply covers_key; [exact Ekey|]. rewrite Forall_forall in Hk. by apply Hk.
Qed.

(** A loop over the allocations of a region. *)
Lemma touch_region {B} v S region (f : list Allocation → ST world B) : region_in v S region →
  (∀ l, Forall (covers S) l → Touch v S (f l)) → Touch v S (allocations region ≫= f).
Proof.
  intros Hr Hf. apply (touch_bind_post _ _ (Forall (covers S))); [by apply touch_pure| |done].
  intros w l w' Hw E. injection E as E _. rewrite Forall_forall. intros a Ha. by eapply region_in_elem.
Qed.
Lemma covers_sort S l : Forall (covers S) l → Forall (covers S) (sort_on al_pointer l).
Proof. by rewrite py_sorted_perm. Qed.

Lemma select_elem region purpose inventory v l a : select_allocations region purpose inventory v = Ok l → a ∈ l →
  ∃ k, pool_allocations (v_pool v) (Some region) = Ok k ∧ a ∈ k.
Proof.
  unfold select_allocations. intros E Ha. res_inv. eexists. split; [done|].
  apply elem_by_pointers in Ha. match goal with E : mapM _ _ = Ok _ |- _ => apply mapM_Ok in E; rename E into Em end.
  destruct (Forall2_elem_r _ _ _ _ Em Ha) as (e & _ & Hr). by apply resolve_extent_inv in Hr as [? _].
Qed.
Lemma selected_elem region (w w' : world) sel i a : selected_discard_allocations region w = (Ok sel, w') → (i, a) ∈ sel →
  ∃ k, pool_allocations (v_pool (w_memory w)) (Some region) = Ok k ∧ a ∈ k.
Proof.
  unfold selected_discard_allocations. intros E Ha. st_inv.
  match goal with E : mapM _ _ = Ok _ |- _ => apply mapM_Ok in E; rename E into Em end.
  destruct (Forall2_elem_r _ _ _ _ Em Ha) as (b & Hb & E). res_inv. rewrite bind_Some in *.
  destruct E as (ib & _ & [= _ <-]). rewrite py_sorted_perm in Hb.
  match goal with E : allocations region w = _ |- _ => injection E as E <- end.
  match goal with E : (select_allocations _ _ _ _, _) = _ |- _ => injection E as E <- end. by eapply select_elem.
Qed.

Lemma touch_release_regions v S regions : Forall (region_in v S) regions → Touch v S (release_discard_regions regions).
Proof.
  induction 1 as [|region regions Hr _ IH]; cbn [release_discard_regions]; [auto with touch|].
  apply (touch_bind_post _ _ (λ sel, Forall (covers S) sel.*2)).
  - unfold selected_discard_allocations. apply touch_bind; [by apply touch_pure|]. intros l.
    apply touch_bind; [by apply touch_pure|]. auto with touch.
  - intros w sel w' Hw E. rewrite Forall_forall. intros a ([i b] & -> & Hb)%list_elem_of_fmap.
    destruct (selected_elem _ _ _ _ _ _ E Hb) as (k & Ek & Hk). by eapply region_in_elem.
  - intros sel Hs. apply touch_bind; [|auto with touch]. induction Hs as [|a l Ha Hl IHl]; cbn [release_each]; [auto with touch|].
    apply touch_bind; [|auto with touch]. unfold release_discard. destruct (al_released a); auto with touch.
Qed.

Variable s : settings.

Lemma touch_verify v S p n : Touch v S (verify_discard_extent s p n).
Proof.
  apply touch_bind; [auto with touch|]. intros _. apply touch_iter. rewrite Forall_forall. intros o _.
  apply touch_bind; [|auto with touch]. apply touch_except; auto with touch.
Qed.
#[local] Hint Resolve touch_verify : touch.
Lemma touch_set_mapped v S (f g : world → gset Z) : Touch v S (st_set (λ w, set_mapped (f w) (g w) w)).
Proof. apply touch_set. by split. Qed.
#[local] Hint Resolve touch_set_mapped : touch.

Lemma touch_remap_discard v S a : covers S a → Touch v S (remap_discard s a).
Proof.
  intros Hc. unfold remap_discard. destruct (al_released a); cbn [negb]; [|auto with touch].
  apply touch_bind; [auto with touch|]. intros mapped. apply touch_bind; [|auto with touch]. destruct (bool_decide _); auto 10 with touch.
Qed.
Lemma touch_remap_regions v S regions : Forall (region_in v S) regions → Touch v S (remap_discard_regions s regions).
Proof.
  induction 1 as [|region regions Hr _ IH]; cbn [remap_discard_regions]; [auto with touch|].
  apply touch_region; [done|]. intros l Hl%covers_sort. apply touch_bind; [|auto with touch].
  induction Hl as [|a k Ha _ IHk]; cbn [remap_each]; auto using touch_remap_discard with touch.
Qed.

Lemma touch_commit_one v S mapped m a : Touch v S (commit_one mapped m a).
Proof. unfold commit_one. auto with touch. Qed.
Lemma touch_allocations v S region : Touch v S (allocations region).
Proof. by apply touch_pure. Qed.
#[local] Hint Resolve touch_commit_one touch_allocations : touch.
Lemma touch_commit_each v S mapped m l : Touch v S (st_iter (commit_one mapped m) l).
Proof. apply touch_iter. rewrite Forall_forall. auto with touch. Qed.
#[local] Hint Resolve touch_commit_each : touch.
Lemma touch_commit_discard v S regions : Touch v S (commit_discard_regions regions).
Proof. unfold commit_discard_regions. apply touch_bind; [|auto with touch]. induction regions; cbn [commit_regions]; auto 10 with touch. Qed.
Lemma touch_commit_restore v S : Touch v S commit_restore.
Proof. unfold commit_restore. auto 10 with touch. Qed.

(** ** The weights *)

Notation copy_all f inline := (copy_chunks (D := D) memcpy_from_host f inline).
Notation copying := (gmap Z N * Z * D)%type.

Lemma copy_chunk_ok f inline c (st st' : copying) : copy_chunk memcpy_from_host f inline c st = (Ok tt, st') →
  0 <= c_count c → 0 <= c_offset c →
  let data := file_read f (c_offset c) (c_count c) in
  Z.of_nat (length data) = c_count c
  ∧ (∀ a, ¬ (c_destination c <= a < c_destination c + c_count c) → view st'.2 a = view st.2 a)
  ∧ (∀ i x, data !! i = Some x → view st'.2 (c_destination c + Z.of_nat i) = Some x)
  ∧ (if inline then ∃ crc, st.1.1 !! c_allocation c = Some crc ∧ st'.1.1 = <[ c_allocation c := crc32 data crc ]> st.1.1
     else st'.1.1 = st.1.1).
Proof.
  destruct st as [[sums restored] d]. unfold copy_chunk, read_exact_at. cbv zeta. intros E Hc Ho.
  pose proof (file_read_length f (c_offset c) (c_count c) Hc Ho) as Hl.
  destruct (Z.ltb_spec (Z.of_nat (length (file_read f (c_offset c) (c_count c)))) (c_count c)); [done|].
  destruct (if inline then sums !! c_allocation c else Some 0%N) as [crc|] eqn:Ec; [|done].
  destruct (memcpy_from_host _ _ _) as [[[]|e] d'] eqn:Ew; [|done]. injection E as <-. cbn [fst snd].
  split_and!; [lia| | |].
  - intros a Ha. eapply view_write; [exact Ew|]. lia.
  - intros i x Hi. by eapply write_bytes.
  - destruct inline; [eauto|done].
Qed.

Lemma file_read_lookup f p n (i : nat) : 0 <= p → Z.of_nat i < n → file_read f p n !! i = f !! Z.to_nat (p + Z.of_nat i).
Proof. intros. unfold file_read. rewrite lookup_take_lt, lookup_drop by lia. f_equal. lia. Qed.

(** Copying an entry in chunks from [copied] on. *)
Lemma copy_entry_ok f inline chunk ptr size off : 0 < chunk → 0 <= off → ∀ fuel copied (st st' : copying),
  0 <= copied <= size → size - copied <= Z.of_nat fuel →
  copy_all f inline (entry_chunks fuel ptr size off chunk copied) st = (Ok tt, st') →
  Z.of_nat (length (file_read f (off + copied) (size - copied))) = size - copied
  ∧ (∀ a, ¬ (ptr + copied <= a < ptr + size) → view st'.2 a = view st.2 a)
  ∧ (∀ i, copied <= i < size → view st'.2 (ptr + i) = f !! Z.to_nat (off + i))
  ∧ (∀ q, q ≠ ptr → st'.1.1 !! q = st.1.1 !! q)
  ∧ (inline = true → ∀ crc, st.1.1 !! ptr = Some crc → st'.1.1 !! ptr = Some (crc32 (file_read f (off + copied) (size - copied)) crc)).
Proof.
  intros Hch Ho. unfold copy_chunks. induction fuel as [|fuel IH]; intros copied st st' Hc Hf E; cbn [entry_chunks] in E.
  { cbn in E. injection E as <-. replace (size - copied) with 0 by lia.
    split_and!; [done|done|lia|done|]. intros _ crc Hcrc. by rewrite crc32_nil. }
  destruct (Z.ltb_spec copied size).
  2:{ cbn in E. injection E as <-. replace (size - copied) with 0 by lia.
      split_and!; [done|done|lia|done|]. intros _ crc Hcrc. by rewrite crc32_nil. }
  set (count := Z.min chunk (size - copied)) in *. cbv zeta in E. cbn [st_iter] in E.
  apply st_bind_Ok in E as ([] & st1 & E1 & E2).
  destruct (copy_chunk_ok _ _ _ _ _ E1 ltac:(unfold c_count; simpl; lia) ltac:(unfold c_offset; simpl; lia)) as (Hl & Hout & Hin & Hsum).
  unfold c_count, c_offset, c_destination, c_allocation in Hl, Hout, Hin, Hsum. cbn [fst snd] in Hl, Hout, Hin, Hsum.
  destruct (IH (copied + count) _ _ ltac:(lia) ltac:(lia) E2) as (Hl' & Hout' & Hin' & Hq' & Hsum').
  assert (file_read f (off + copied) count ++ file_read f (off + (copied + count)) (size - (copied + count))
          = file_read f (off + copied) (size - copied)) as Hjoin.
  { replace (off + (copied + count)) with (off + copied + count) by lia. rewrite file_read_continue by lia. f_equal. lia. }
  split_and!.
  - rewrite <- Hjoin, length_app. lia.
  - intros a Ha. rewrite Hout' by lia. apply Hout. lia.
  - intros i Hi. destruct (decide (copied + count <= i)); [apply Hin'; lia|]. rewrite Hout' by lia.
    assert (Z.to_nat (i - copied) < length (file_read f (off + copied) count))%nat as [x Hx]%lookup_lt_is_Some by lia.
    replace (ptr + i) with (ptr + copied + Z.of_nat (Z.to_nat (i - copied))) by lia. rewrite (Hin _ _ Hx).
    rewrite file_read_lookup in Hx by lia. rewrite <- Hx. f_equal. lia.
  - intros q Hq. rewrite Hq' by done. destruct inline; [|by rewrite Hsum].
    destruct Hsum as (crc & _ & ->). by rewrite lookup_insert_ne.
  - intros -> crc Hcrc. destruct Hsum as (crc' & Hcrc' & Hs). rewrite Hcrc in Hcrc'. injection Hcrc' as <-.
    rewrite (Hsum' eq_refl (crc32 (file_read f (off + copied) count) crc)); [|by rewrite Hs, lookup_insert_eq].
    by rewrite <- crc32_app, Hjoin.
Qed.

Definition apart (e e' : snapshot_entry) : Prop := e_ptr e + e_size e <= e_ptr e' ∨ e_ptr e' + e_size e' <= e_ptr e.
Definition entry_ok (e : snapshot_entry) : Prop := 0 < e_size e ∧ 0 <= e_offset e.
(** The bytes of an entry are on the device. *)
Definition loaded (f : pybytes) (d : D) (e : snapshot_entry) : Prop :=
  ∀ i, 0 <= i < e_size e → view d (e_ptr e + i) = f !! Z.to_nat (e_offset e + i).

Lemma copy_entries_ok f inline chunk : 0 < chunk → ∀ l (st st' : copying), Forall entry_ok l → ForallOrdPairs apart l →
  copy_all f inline (chunk_descriptors ((λ e, (e_ptr e, e_size e, e_offset e)) <$> l) chunk) st = (Ok tt, st') →
  Forall (loaded f st'.2) l
  ∧ (∀ a, Forall (λ e, ¬ (e_ptr e <= a < e_ptr e + e_size e)) l → view st'.2 a = view st.2 a)
  ∧ (∀ q, q ∉ e_ptr <$> l → st'.1.1 !! q = st.1.1 !! q)
  ∧ (inline = true → (∀ e, e ∈ l → st.1.1 !! e_ptr e = Some 0%N) →
     Forall (λ e, st'.1.1 !! e_ptr e = Some (crc32 (file_read f (e_offset e) (e_size e)) 0)
                  ∧ Z.of_nat (length (file_read f (e_offset e) (e_size e))) = e_size e) l).
Proof.
  intros Hch. induction l as [|e l IH]; intros st st' He Ha E.
  { cbn in E. injection E as <-. split_and!; [constructor|done|done|by constructor]. }
  inversion He as [|? ? [Hs Ho] He']; subst. inversion Ha as [|? ? Hae Ha']; subst.
  unfold copy_chunks, chunk_descriptors in E. csimpl in E. rewrite st_iter_app in E.
  apply st_bind_Ok in E as ([] & st1 & E1 & E2).
  destruct (copy_entry_ok f inline chunk (e_ptr e) (e_size e) (e_offset e) Hch Ho (Z.to_nat (e_size e)) 0 _ _ ltac:(lia) ltac:(lia) E1) as (Hlen & Hout & Hin & Hq & Hsum).
  destruct (IH _ _ He' Ha' E2) as (Hl' & Hout' & Hq' & Hsum'). rewrite Z.add_0_r, Z.sub_0_r in *.
  assert (e_ptr e ∉ e_ptr <$> l) as Hnew.
  { intros (e' & Ep & Hin')%list_elem_of_fmap. rewrite Forall_forall in Hae, He'. pose proof (Hae _ Hin') as Hap.
    destruct (He' _ Hin'). unfold apart in Hap. lia. }
  split_and!.
  - constructor; [|done]. intros i Hi. rewrite Hout'; [apply Hin; lia|].
    rewrite Forall_forall in Hae |- *. intros e' He2 Hr. pose proof (Hae _ He2). unfold apart in *. lia.
  - intros a [Ha1 Ha2]%Forall_cons. rewrite Hout' by done. apply Hout. lia.
  - intros q [Hq1 Hq2]%not_elem_of_cons. rewrite Hq' by done. by apply Hq.
  - intros Hi Hz. constructor.
    + split; [|done]. rewrite Hq' by done. apply Hsum; [done|]. apply Hz. left.
    + apply Hsum'; [done|]. intros e' He2. rewrite Hq; [apply Hz; by right|]. intros Ep. apply Hnew. rewrite <- Ep. by apply list_elem_of_fmap_2.
Qed.

(** ** Admission *)

Variable source : model_source D G.
Hypothesis Hblob : uses_model_weight_recovery source = false.
Hypothesis Hexport : model_payload_capture_enabled source = false.
Hypothesis Hchunk : 0 < chunk_bytes s.
Hypothesis Hdepth : 0 < pipeline_depth s.

Definition weights (w : world) (l : list Allocation) : Prop := pool_allocations (v_pool (w_memory w)) (Some PRESERVED_REGION) = Ok l.

Lemma source_is_blob : weight_recovery_source source = WEIGHT_SOURCE_BLOB.
Proof. unfold weight_recovery_source. by rewrite Hblob. Qed.

(** What an accepted manifest says about the worker. *)
Record accepted (w : world) (m : snapshot_manifest) (l : list Allocation) (b : blob_file) : Prop := {
  ad_manifest : w_manifest w = Some m;
  ad_weights : weights w l;
  ad_blob : w_blob w = Some b;
  ad_entries : mf_entries m ≠ [];
  ad_source : mf_source m = WEIGHT_SOURCE_BLOB;
  ad_nodup : NoDup (entry_key <$> mf_entries m);
  ad_keys k : k ∈ allocation_key <$> l ↔ k ∈ entry_key <$> mf_entries m;
  ad_bytes : Z.of_nat (length (bf_bytes b)) = mf_blob_bytes m;
  ad_contiguous : contiguous_loop 0 (mf_entries m) = Ok (mf_blob_bytes m);
}.

Lemma load_manifest_inv (w w' : world) m : load_manifest source s w = (Ok m, w') → w' = w ∧ ∃ l b, accepted w m l b.
Proof.
  unfold load_manifest. rewrite source_is_blob. intros E. st_inv. res_inv.
  repeat match goal with E : allocations _ _ = _ |- _ => injection E as ? <- end. guards.
  match goal with E : mf_source _ = _ |- _ => rename E into Es end. rewrite Es in E.
  destruct (bool_decide (WEIGHT_SOURCE_BLOB = WEIGHT_SOURCE_SAFETENSORS)) eqn:Eb; [by vm_compute in Eb|]. st_inv. res_inv.
  match goal with E : open_blob _ = _ |- _ => unfold open_blob in E; injection E as E <-; res_inv end. guards.
  split; [done|]. eexists _, _. split; try done.
  - by apply has_dups_false.
  - by apply set_eqb_spec.
  - match goal with E : (fs_bytes _ =? _) = true |- _ => apply Z.eqb_eq in E; exact E end.
  - match goal with E : (_ =? mf_blob_bytes _) = true |- _ => apply Z.eqb_eq in E; rewrite E in * end. congruence.
Qed.

Lemma contiguous_ok o l total : 0 <= o → contiguous_loop o l = Ok total → Forall entry_ok l ∧ o <= total.
Proof.
  revert o. induction l as [|e l IH]; intros o Ho E; cbn [contiguous_loop] in E; [by injection E as <-|].
  res_inv. guards. match goal with E : (e_size e <=? 0) = false |- _ => apply Z.leb_gt in E end.
  match goal with E : (e_offset e =? o) = true |- _ => apply Z.eqb_eq in E end.
  destruct (IH (o + e_size e)) as [? ?]; [lia|done|]. split; [|lia]. constructor; [split; lia|done].
Qed.

(** ** Restoring the weights *)

Definition alloc_apart (a b : Allocation) : Prop :=
  al_pointer a + al_size a <= al_pointer b ∨ al_pointer b + al_size b <= al_pointer a.

(** The pool is the same: only mappings and bytes changed. *)
Definition same_pool (w w' : world) : Prop := v_pool (w_memory w') = v_pool (w_memory w).

Lemma remap_weight_ok entries a e (w w' : world) : remap_weight entries a w = (Ok e, w') →
  find_entry (al_pointer a) entries = Some e ∧ e_size e = al_size a ∧ same_pool w w'
  ∧ w_manifest w' = w_manifest w ∧ w_blob w' = w_blob w.
Proof.
  unfold remap_weight. intros E. st_inv. res_inv. guards.
  match goal with E : (_ =? _) = true |- _ => apply Z.eqb_eq in E end. destruct (_ && _) in *.
  - st_inv. match goal with E : memory_remap _ _ = _ |- _ => unfold memory_remap, remap in E; destruct (map_device _ _ _) as [[[]|] ?]; simplify_eq end.
    by split_and!.
  - st_inv. by split_and!.
Qed.
Lemma remap_weights_ok entries l ordered (w w' : world) : remap_weights entries l w = (Ok ordered, w') →
  Forall2 (λ a e, find_entry (al_pointer a) entries = Some e ∧ e_size e = al_size a) l ordered ∧ same_pool w w'
  ∧ w_manifest w' = w_manifest w ∧ w_blob w' = w_blob w.
Proof.
  revert ordered w. induction l as [|a l IH]; intros ordered w E; cbn [remap_weights] in E; st_inv; [by split_and!|].
  match goal with E : remap_weight _ _ _ = _ |- _ => apply remap_weight_ok in E as (? & ? & ? & ? & ?) end.
  match goal with E : remap_weights _ _ _ = _ |- _ => apply IH in E as (? & ? & ? & ?) end.
  unfold same_pool in *. split_and!; [by constructor|congruence..].
Qed.

Lemma find_entry_elem p l e : find_entry p l = Some e → e ∈ l ∧ e_ptr e = p.
Proof.
  unfold find_entry. intros Hl. assert (e ∈ filter (λ e, e_ptr e = p) l) as [? ?]%list_elem_of_filter; [|done].
  apply last_Some in Hl as [k ->]. set_solver.
Qed.

(** An allocation has one entry: the one with its key. *)
Lemma entry_unique w m l b a e : accepted w m l b → NoDup (al_pointer <$> l) → a ∈ l → e ∈ mf_entries m → e_ptr e = al_pointer a →
  entry_key e = allocation_key a.
Proof.
  intros Ad HN Ha He Ep. assert (entry_key e ∈ allocation_key <$> l) as (a' & Ek & Ha')%list_elem_of_fmap.
  { apply (ad_keys _ _ _ _ Ad), list_elem_of_fmap. eauto. }
  rewrite Ek. f_equal. unfold entry_key, allocation_key in Ek. injection Ek as E1 _ _. eapply NoDup_fmap_elem; [exact HN|done|done|congruence].
Qed.

Lemma apart_entries l ordered : Forall2 (λ a e, entry_key e = allocation_key a) l ordered → ForallOrdPairs alloc_apart l →
  ForallOrdPairs apart ordered.
Proof.
  induction 1 as [|a e l ordered Ek Hl IH]; intros Ha; [constructor|]. inversion Ha as [|? ? Hh Ht]; subst. constructor; [|by apply IH].
  rewrite Forall_forall in Hh. apply Forall_forall. intros e' He'. destruct (Forall2_elem_r _ _ _ _ Hl He') as (a' & Ha' & Ek').
  specialize (Hh _ Ha'). unfold entry_key, allocation_key in *. simplify_eq. unfold apart, alloc_apart in *. lia.
Qed.

(** The pipelined read of accepted entries. *)
Lemma read_chunks_ok f ordered events sums (w w' : world) : Forall entry_ok ordered → ForallOrdPairs apart ordered →
  read_chunks s f ordered events w = (Ok sums, w') →
  w' = set_memory (w_memory w) (w_device w') w ∧ Forall (loaded f (w_device w')) ordered
  ∧ (∀ a, Forall (λ e, ¬ (e_ptr e <= a < e_ptr e + e_size e)) ordered → byte w' a = byte w a)
  ∧ (preverified s = false →
     Forall (λ e, sums !! e_ptr e = Some (crc32 (file_read f (e_offset e) (e_size e)) 0)
                  ∧ Z.of_nat (length (file_read f (e_offset e) (e_size e))) = e_size e) ordered).
Proof.
  intros He Ha. unfold read_chunks. set (chunks := chunk_descriptors _ _). case_bool_decide as Hne; [done|].
  set (depth := Z.to_nat _). destruct (run_pipeline_result memcpy_from_host f chunks depth (negb (preverified s)) (chunk_bytes s)
    (e_ptr <$> ordered) (w_device w) events) as [(r & Ho & Hc)|[_ Ho]].
  { assert (length chunks ≠ 0)%nat by (by intros ->%nil_length_inv). lia. }
  { apply chunk_descriptors_fit; [done|]. rewrite Forall_fmap. eapply Forall_impl; [exact He|]. intros e [_ Hoff]. exact Hoff. }
  2:{ rewrite Ho. done. }
  rewrite Ho. destruct r as [[]|]; [|done]. intros [= <- <-]. cbn [w_device set_memory].
  destruct (copy_entries_ok f _ (chunk_bytes s) Hchunk ordered _ _ He Ha Hc) as (Hl & Hout & _ & Hsum). cbn [copy_state fst snd] in *.
  split_and!; [done|done|by apply Hout|]. intros Hp. rewrite Hp in *. apply Hsum; [done|]. intros e Hin.
  apply elem_of_list_to_map_1'; [|apply list_elem_of_fmap; exists (e_ptr e); split; [done|by apply list_elem_of_fmap_2]].
  intros y (q & [= _ <-] & _)%list_elem_of_fmap. done.
Qed.

Lemma load_manifest_same : Runs (W := world) eq (load_manifest source s).
Proof.
  unfold load_manifest. rewrite source_is_blob. do 2 (runs_step; [auto with runs|]). apply (runs_guard eq). intros _.
  runs_step; [by intros w r w' [= <- <-]|]. apply (runs_guard eq). intros Hs. guards. rewrite Hs.
  do 4 (apply (runs_guard eq); intros _).
  destruct (bool_decide (WEIGHT_SOURCE_BLOB = WEIGHT_SOURCE_SAFETENSORS)) eqn:Eb; [by vm_compute in Eb|].
  runs_step; [by intros w r w' [= <- <-]|]. cbv zeta. auto 10 with runs.
Qed.
Lemma load_manifest_keeps : Runs keeps (load_manifest source s).
Proof. intros w r w' <-%load_manifest_same. done. Qed.
#[local] Hint Resolve load_manifest_keeps : runs.
Lemma keep_open_blob : Runs keeps (open_blob (D := D) (G := G)).
Proof. by intros w r w' [= <- <-]. Qed.
#[local] Hint Resolve keep_open_blob : runs.

Notation restore_pipeline := (restore_pipeline (G := G) None s).

Lemma restore_pipeline_keeps m f events : Runs keeps (restore_pipeline m f events).
Proof.
  unfold DiskSleep.restore_pipeline. runs_step.
  - unfold remap_weight_allocations, remap_allocations. runs_step; [auto with runs|]. induction a as [|x l IH]; cbn [remap_weights]; [auto with runs|].
    runs_step; [|runs_step; auto with runs]. unfold remap_weight. do 3 (runs_step; [auto with runs|]).
    runs_step; [|auto with runs]. destruct (_ && _); auto 10 with runs.
  - runs_step; [|destruct (preverified s); auto with runs].
    intros w r w' E. unfold read_chunks in E. case_bool_decide; [by injection E as <- <-|]. by injection E as <- <-.
Qed.
#[local] Hint Resolve restore_pipeline_keeps : runs.

Lemma restore_preserved_keeps events : Runs keeps (restore_preserved None source s events).
Proof.
  intros w r w' E. unfold restore_preserved in E. destruct (load_manifest source s w) as [[m|e] w1] eqn:El.
  2:{ unfold mbind, st_bind in E. rewrite El in E. injection E as <- <-. by apply load_manifest_keeps in El. }
  unfold mbind, st_bind in E. rewrite El in E. apply load_manifest_inv in El as (-> & l & b & Ad).
  rewrite (ad_source _ _ _ _ Ad) in E.
  destruct (bool_decide (WEIGHT_SOURCE_BLOB = WEIGHT_SOURCE_SAFETENSORS)) eqn:Eb; [by vm_compute in Eb|].
  revert w r w' Ad E. enough (Runs keeps (b0 ← open_blob; _ ← restore_pipeline m (bf_bytes b0) events; b1 ← open_blob; mret (m, Some (stat_identity b1)))) as HR.
  { intros w r w' _ E. by eapply HR. }
  auto 10 with runs.
Qed.

(** ** What a wake restores *)

Definition restored_entry (f : pybytes) (d : D) (a : Allocation) (e : snapshot_entry) : Prop :=
  entry_key e = allocation_key a ∧ loaded f d e
  ∧ (preverified s = false → e_crc e = crc_hex (crc32 (file_read f (e_offset e) (e_size e)) 0)
     ∧ Z.of_nat (length (file_read f (e_offset e) (e_size e))) = e_size e).

Lemma restore_pipeline_ok m l b events (w w' : world) : accepted w m l b → NoDup (al_pointer <$> l) → ForallOrdPairs alloc_apart l →
  restore_pipeline m (bf_bytes b) events w = (Ok tt, w') →
  ∀ a, a ∈ l → ∃ e, e ∈ mf_entries m ∧ restored_entry (bf_bytes b) (w_device w') a e.
Proof.
  intros Ad HN Hap E a Ha. unfold DiskSleep.restore_pipeline, remap_weight_allocations, remap_allocations in E. st_inv.
  match goal with E : allocations _ _ = _ |- _ => injection E as E <-; pose proof (ad_weights _ _ _ _ Ad) as Ew; unfold weights in Ew; rewrite E in Ew; injection Ew as -> end.
  match goal with E : remap_weights _ _ _ = (Ok ?o, ?w1) |- _ => apply remap_weights_ok in E as (Ho & _); rename o into ordered end.
  assert (Forall2 (λ a e, e ∈ mf_entries m ∧ entry_key e = allocation_key a) l ordered) as Hord.
  { eapply Forall2_impl_elem; [exact Ho|]. cbn. intros a' e Ha' [[He Ep]%find_entry_elem _]. split; [done|]. by eapply entry_unique. }
  destruct (contiguous_ok 0 _ _ ltac:(lia) (ad_contiguous _ _ _ _ Ad)) as [Hok _].
  assert (Forall entry_ok ordered) as Hok'.
  { rewrite Forall_forall in Hok. apply Forall_forall. intros e He. destruct (Forall2_elem_r _ _ _ _ Hord He) as (? & ? & ? & ?). auto. }
  match goal with E : read_chunks _ _ _ _ _ = (Ok ?x, ?w2) |- _ => rename x into sums; apply read_chunks_ok in E as (_ & Hl & _ & Hs); [|done|] end.
  2:{ eapply apart_entries; [|exact Hap]. eapply Forall2_impl; [exact Hord|]. by intros ? ? [_ ?]. }
  destruct (Forall2_elem_l _ _ _ _ Hord Ha) as (e & He & Hem & Hk). exists e. split; [done|]. split; [done|].
  rewrite Forall_forall in Hl. destruct (preverified s); st_inv.
  - split; [by apply Hl|done].
  - match goal with E : mapM _ _ = Ok _ |- _ => apply mapM_unit_inv in E; rewrite Forall_forall in E; specialize (E e He); rename E into Ec end.
    split; [by apply Hl|]. intros _. specialize (Hs eq_refl). rewrite Forall_forall in Hs. destruct (Hs e He) as [E1 E2].
    unfold checksum_matches in Ec. rewrite E1 in Ec. cbn [of_option mbind res_bind] in Ec. res_inv. guards. done.
Qed.

(** The restore writes within the weights. *)
Lemma touch_remap_weights v S entries l : Forall (covers S) l → Touch v S (remap_weights (D := D) (G := G) entries l).
Proof.
  induction 1 as [|a l Ha _ IH]; cbn [remap_weights]; [apply touch_ret|]. apply touch_bind; [|intros ?; apply touch_bind; [done|intros ?; apply touch_ret]].
  unfold remap_weight. do 3 (apply touch_bind; [apply touch_pure; done|intros ?]). apply touch_bind; [|intros ?; apply touch_ret].
  destruct (_ && _); [|apply touch_raise_if]. apply touch_bind; [by apply touch_remap|intros ?; apply touch_set_mapped].
Qed.
Lemma restore_pipeline_frame m l b events (w w' : world) : accepted w m l b → NoDup (al_pointer <$> l) → ForallOrdPairs alloc_apart l →
  restore_pipeline m (bf_bytes b) events w = (Ok tt, w') →
  ∀ x, (∀ a, a ∈ l → ¬ (al_pointer a <= x < al_pointer a + al_size a)) → byte w' x = byte w x.
Proof.
  intros Ad HN Hap E x Hx. unfold DiskSleep.restore_pipeline, remap_weight_allocations, remap_allocations in E. st_inv.
  match goal with E : allocations _ _ = _ |- _ => injection E as E <-; pose proof (ad_weights _ _ _ _ Ad) as Ew; unfold weights in Ew; rewrite E in Ew; injection Ew as -> end.
  match goal with E : remap_weights _ _ _ = (Ok ?o, ?w1) |- _ => pose proof E as Er; apply remap_weights_ok in E as (Ho & _); rename o into ordered, w1 into wa end.
  assert (byte wa x = byte w x) as <-.
  { refine (t_bytes _ _ _ (touch_remap_weights (w_memory w) (λ y, ∃ a, a ∈ l ∧ al_pointer a <= y < al_pointer a + al_size a) _ _ _ _ _ _ ltac:(reflexivity) Er) x _).
    - apply Forall_forall. intros a Ha y Hy. eauto.
    - intros (a & Ha & Hy). by apply (Hx a). }
  assert (Forall2 (λ a e, e ∈ mf_entries m ∧ entry_key e = allocation_key a) l ordered) as Hord.
  { eapply Forall2_impl_elem; [exact Ho|]. cbn. intros a' e Ha' [[He Ep]%find_entry_elem _]. split; [done|]. by eapply entry_unique. }
  destruct (contiguous_ok 0 _ _ ltac:(lia) (ad_contiguous _ _ _ _ Ad)) as [Hok _].
  assert (Forall entry_ok ordered) as Hok'.
  { rewrite Forall_forall in Hok. apply Forall_forall. intros e He. destruct (Forall2_elem_r _ _ _ _ Hord He) as (? & ? & ? & ?). auto. }
  match goal with E : read_chunks _ _ _ _ _ = (Ok ?x, ?w2) |- _ => apply read_chunks_ok in E as (_ & _ & Hout & _); [|done|]; rename w2 into wb end.
  2:{ eapply apart_entries; [|exact Hap]. eapply Forall2_impl; [exact Hord|]. by intros ? ? [_ ?]. }
  assert (byte wb x = byte wa x) as <-.
  { apply Hout. apply Forall_forall. intros e He. destruct (Forall2_elem_r _ _ _ _ Hord He) as (a & Ha & _ & Hk).
    unfold entry_key, allocation_key in Hk. specialize (Hx a Ha). simplify_eq. congruence. }
  destruct (preverified s); by st_inv.
Qed.

(** ** Writing the snapshot *)

(** Only files and bookkeeping changed: the worker's memory is as it was. *)
Record unmoved (w w' : world) : Prop := {
  um_bytes a : byte w' a = byte w a;
  um_memory : w_memory w' = w_memory w;
  um_graphs : w_graphs w' = w_graphs w;
  um_restore : w_restore_mapped w' = w_restore_mapped w;
  um_discard : w_discard_mapped w' = w_discard_mapped w;
  um_kv : w_kv_payload w' = w_kv_payload w;
}.
#[global] Instance unmoved_preorder : PreOrder unmoved.
Proof. split; [by split|]. intros w1 w2 w3 [] []. split; [|congruence..]. intros a. etrans; eauto. Qed.

Lemma unmoved_device {A} (op : D → res A * D) : (∀ d r d' a, op d = (r, d') → view d' a = view d a) → Runs unmoved (on_device op).
Proof.
  intros Hop w r w' E. unfold on_device in E. destruct (op (w_device w)) eqn:Eo. injection E as <- <-. split; try done. intros a. by eapply Hop.
Qed.
Lemma unmoved_synchronize : Runs unmoved (synchronize (G := G)).
Proof. apply unmoved_device. intros. by eapply view_synchronize. Qed.
Lemma unmoved_copy c p n : Runs unmoved (copy_to_host (G := G) c p n).
Proof. unfold copy_to_host. runs_step; [auto with runs|]. apply unmoved_device. intros. by eapply view_read. Qed.
Lemma unmoved_allocations tag : Runs unmoved (allocations (D := D) (G := G) tag).
Proof. by intros w r w' [= <- <-]. Qed.
Lemma unmoved_open_blob : Runs unmoved (open_blob (D := D) (G := G)).
Proof. by intros w r w' [= <- <-]. Qed.
Lemma unmoved_files (m : world → option snapshot_manifest) b t n : Runs unmoved (st_set (λ w, set_files (m w) (b w) (t w) (n w) w)).
Proof. by apply runs_set. Qed.
Lemma unmoved_tmp t : Runs unmoved (st_set (set_tmp (D := D) (G := G) t)).
Proof. by apply runs_set. Qed.
#[local] Hint Resolve unmoved_synchronize unmoved_copy unmoved_allocations unmoved_open_blob unmoved_files unmoved_tmp : runs.
Lemma unmoved_write_tmp transfer view off : Runs unmoved (write_tmp (D := D) (G := G) transfer view off).
Proof. intros w r w' E. unfold write_tmp in E. destruct (w_tmp w); [destruct (write_all_at _ _ _ _ _ _)|]; by injection E as <- <-. Qed.
#[local] Hint Resolve unmoved_write_tmp : runs.

Variables (transfer : Z → Z → Z) (stamp : nat → Z * Z * Z * Z) (time_ns : nat → Z).
Notation write_chunks := (write_chunks (G := G) transfer s).
Notation write_entries := (write_entries (G := G) transfer s).
Notation write_blob_python := (write_blob_python (G := G) transfer s).
Notation write_new_snapshot := (write_new_snapshot (G := G) transfer stamp time_ns None s).
Notation write_snapshot := (write_snapshot transfer stamp time_ns None source s).

Lemma unmoved_write_chunks fuel ptr size copied crc off : Runs unmoved (write_chunks fuel ptr size copied crc off).
Proof.
  revert copied crc off. induction fuel as [|fuel IH]; intros; cbn [DiskSleep.write_chunks]; [auto with runs|].
  destruct (_ <? _); auto 10 with runs.
Qed.
#[local] Hint Resolve unmoved_write_chunks : runs.
Lemma unmoved_write_entries l off : Runs unmoved (write_entries l off).
Proof.
  revert off. induction l as [|a l IH]; intros; cbn [DiskSleep.write_entries]; [auto with runs|]. 
  apply (worker_runs_bind unmoved); [auto with runs|]. intros [crc after]. apply (worker_runs_bind unmoved); [auto|]. intros [others total]. auto with runs.
Qed.
#[local] Hint Resolve unmoved_write_entries : runs.
Lemma unmoved_blob required : Runs unmoved (write_blob_python required).
Proof.
  unfold DiskSleep.write_blob_python. runs_step; [auto with runs|]. apply (runs_on_error unmoved); [|done].
  runs_step; [unfold preallocate; auto with runs|]. runs_step; [auto with runs|].
  apply (worker_runs_bind unmoved); [auto with runs|]. intros [entries total]. auto with runs.
Qed.
#[local] Hint Resolve unmoved_blob : runs.
Lemma unmoved_publish : Runs unmoved (publish_blob (D := D) (G := G) stamp).
Proof. apply runs_set. intros w. destruct (stamp (w_files w)) as [[[? ?] ?] ?]. by split. Qed.
#[local] Hint Resolve unmoved_publish : runs.
Lemma unmoved_new_snapshot : Runs unmoved write_new_snapshot.
Proof.
  unfold DiskSleep.write_new_snapshot. runs_step; [unfold required_bytes; auto with runs|]. do 2 (runs_step; [unfold ensure_space; auto with runs|]).
  apply (worker_runs_bind unmoved); [auto with runs|]. intros [entries total]. do 2 (runs_step; [auto with runs|]). runs_step.
  { destruct (_ && _); unfold verify_blob, verify_file; auto 10 with runs. }
  runs_step; [auto with runs|]. unfold write_manifest. auto with runs.
Qed.
Lemma unmoved_load : Runs unmoved (load_manifest source s).
Proof. intros w r w' <-%load_manifest_same. done. Qed.
#[local] Hint Resolve unmoved_new_snapshot unmoved_load : runs.
Lemma unmoved_snapshot : Runs unmoved write_snapshot.
Proof.
  unfold DiskSleep.write_snapshot. runs_step.
  - unfold reusable_snapshot. runs_step; [auto with runs|]. runs_step; [auto with runs|]. repeat case_match; try auto with runs.
    apply (runs_except unmoved); [unfold reuse_candidate; auto 10 with runs|]. intros e. runs_step; [by apply runs_set|auto with runs].
  - case_match; [auto with runs|]. rewrite Hblob, Hexport. auto with runs.
Qed.

Lemma copy_to_host_ok c p n (w w' : world) b : copy_to_host c p n w = (Ok b, w') →
  0 < n ∧ Z.of_nat (length b) = n ∧ reads (byte w) p b ∧ w_tmp w' = w_tmp w ∧ unmoved w w'.
Proof.
  intros E. pose proof (unmoved_copy _ _ _ _ _ _ E) as Hu. unfold copy_to_host, validate_copy in E. st_inv. res_inv. guards.
  match goal with E : (n <=? 0) = false |- _ => apply Z.leb_gt in E end. unfold on_device in *.
  destruct (memcpy_to_host _ _ _) as [r d] eqn:Em. simplify_eq. apply read_bytes in Em as [? ?]; [|done]. by split_and!.
Qed.
Lemma write_tmp_ok view off (w w' : world) f : w_tmp w = Some f → 0 <= off → off <= Z.of_nat (length f) →
  write_tmp transfer view off w = (Ok tt, w') → w_tmp w' = Some (pwrite f (Z.to_nat off) view) ∧ unmoved w w'.
Proof.
  intros Ht Ho Hf E. pose proof (unmoved_write_tmp _ _ _ _ _ _ E) as Hu. split; [|done]. unfold write_tmp in E. rewrite Ht in E.
  destruct (write_all_at _ _ _ _ _ _) as [r f'] eqn:Ew. injection E as -> <-. apply write_all_at_ok in Ew as ->; [|lia..].
  by rewrite Z.add_0_r, drop_0.
Qed.

Lemma unmoved_reads w w' p data : unmoved w w' → reads (byte w') p data → reads (byte w) p data.
Proof. intros Hu Hr i x Hi. rewrite <- (um_bytes _ _ Hu). by apply Hr. Qed.

Lemma write_chunks_ok ptr size : ∀ fuel copied crc off (w w' : world) f crc' off', w_tmp w = Some f → 0 <= copied <= size →
  size - copied <= Z.of_nat fuel → 0 <= off → off + (size - copied) <= Z.of_nat (length f) →
  write_chunks fuel ptr size copied crc off w = (Ok (crc', off'), w') →
  ∃ data, Z.of_nat (length data) = size - copied ∧ reads (byte w) (ptr + copied) data ∧ crc' = crc32 data crc
    ∧ off' = off + (size - copied) ∧ w_tmp w' = Some (pwrite f (Z.to_nat off) data).
Proof.
  clear stamp time_ns.
  assert (∀ copied crc off (w : world) f, w_tmp w = Some f → size - copied = 0 → 0 <= off <= Z.of_nat (length f) →
    ∃ data, Z.of_nat (length data) = size - copied ∧ reads (byte w) (ptr + copied) data ∧ crc = crc32 data crc
      ∧ off = off + (size - copied) ∧ w_tmp w = Some (pwrite f (Z.to_nat off) data)) as Hdone.
  { intros copied crc off w f Ht -> Ho. exists []. rewrite crc32_nil, pwrite_nil by lia. split_and!; try done; lia. }
  induction fuel as [|fuel IH]; intros copied crc off w w' f crc' off' Ht Hc Hf Ho Hl E; cbn [DiskSleep.write_chunks] in E; st_inv.
  { simplify_eq. apply Hdone; (done || lia). }
  destruct (Z.ltb_spec copied size); st_inv; [|simplify_eq; apply Hdone; (done || lia)].
  set (count := Z.min (chunk_bytes s) (size - copied)) in *.
  match goal with E : copy_to_host _ _ _ _ = (Ok ?b, _) |- _ => apply copy_to_host_ok in E as (Hn & Hb & Hr & Ht1 & Hu1); rename b into part end.
  match goal with E : write_tmp _ _ _ _ = (Ok ?u, _) |- _ => destruct u; eapply write_tmp_ok in E as [Ht2 Hu2]; [|rewrite Ht1; exact Ht|lia..] end.
  destruct (IH (copied + count) (crc32 part crc) (off + count) _ _ _ _ _ Ht2 ltac:(lia) ltac:(lia) ltac:(lia) ltac:(rewrite length_pwrite; lia) E)
    as (data & Hd & Hr' & -> & -> & Ht').
  exists (part ++ data). rewrite length_app, crc32_app. split_and!; [lia| |done|lia|].
  - apply reads_app; [done|]. eapply unmoved_reads; [exact Hu1|]. eapply unmoved_reads; [exact Hu2|]. by rewrite Hb, <- Z.add_assoc.
  - rewrite Ht'. f_equal. replace (Z.to_nat (off + count)) with (Z.to_nat off + length part)%nat by lia. apply pwrite_pwrite. lia.
Qed.

(** The entries of a blob with the data of a list of allocations. *)
Inductive captured (v : Z → option N) : Z → list Allocation → list snapshot_entry → pybytes → Prop :=
| captured_nil off : captured v off [] [] []
| captured_cons off a l entries d1 d2 : Z.of_nat (length d1) = al_size a → reads v (al_pointer a) d1 →
    captured v (off + al_size a) l entries d2 →
    captured v off (a :: l) (Entry (al_pointer a) (al_size a) (al_tag a) (Some (off, crc_hex (crc32 d1 0))) :: entries) (d1 ++ d2).

Lemma captured_length v off l entries data : captured v off l entries data → Z.of_nat (length data) = zsum (al_size <$> l).
Proof. induction 1; csimpl; rewrite ?length_app; lia. Qed.
Lemma captured_mono v v' off l entries data : (∀ a, v' a = v a) → captured v' off l entries data → captured v off l entries data.
Proof.
  intros Hv. induction 1; constructor; try done. intros i x Hi. rewrite <- Hv. auto.
Qed.
Lemma captured_bytes v off l entries data : 0 <= off → Forall (λ a, 0 < al_size a) l → captured v off l entries data →
  ∀ e, e ∈ entries → off <= e_offset e ∧ ∀ i, 0 <= i < e_size e → v (e_ptr e + i) = data !! Z.to_nat (e_offset e - off + i).
Proof.
  intros Ho Hs Hc. revert Ho Hs. induction Hc as [|off a l entries d1 d2 Hl Hr Hc IH]; intros Ho Hs e He; [by apply not_elem_of_nil in He|].
  apply Forall_cons in Hs as [Ha Hs]. apply elem_of_cons in He as [-> | He].
  - unfold e_offset. cbn [e_place e_size e_ptr fmap option_fmap option_map fst from_option id]. split; [lia|]. intros i Hi. rewrite Z.sub_diag, Z.add_0_l, lookup_app_l by lia.
    assert (Z.to_nat i < length d1)%nat as [x Hx]%lookup_lt_is_Some by lia. rewrite Hx. apply Hr in Hx. rewrite <- Hx. f_equal. lia.
  - destruct (IH ltac:(lia) Hs e He) as [Ho' Hb]. split; [lia|]. intros i Hi. rewrite Hb by done. rewrite lookup_app_r by lia. f_equal. lia.
Qed.

Lemma write_entries_ok l : ∀ off (w w' : world) f entries total, w_tmp w = Some f → Forall (λ a, 0 < al_size a) l → 0 <= off →
  off + zsum (al_size <$> l) <= Z.of_nat (length f) → write_entries l off w = (Ok (entries, total), w') →
  ∃ data, captured (byte w) off l entries data ∧ w_tmp w' = Some (pwrite f (Z.to_nat off) data) ∧ total = off + zsum (al_size <$> l).
Proof.
  induction l as [|a l IH]; intros off w w' f entries total Ht Hs Ho Hl E; cbn [DiskSleep.write_entries] in E.
  { st_inv. simplify_eq. exists []. rewrite pwrite_nil by (simpl in Hl; lia). split_and!; [constructor|done|simpl; lia]. }
  apply Forall_cons in Hs as [Ha Hs]. csimpl in Hl. assert (0 <= zsum (al_size <$> l)).
  { clear - Hs. induction Hs; csimpl; lia. }
  apply st_bind_Ok in E as ([crc after] & w1 & E1 & E). apply st_bind_Ok in E as ([others total'] & w2 & E2 & E). st_inv. simplify_eq.
  pose proof (unmoved_write_chunks _ _ _ _ _ _ _ _ _ E1) as Hu.
  destruct (write_chunks_ok (al_pointer a) (al_size a) (Z.to_nat (al_size a)) 0 0%N off _ _ _ _ _ Ht ltac:(lia) ltac:(lia) Ho ltac:(lia) E1) as (d1 & Hd1 & Hr & -> & -> & Ht1).
  rewrite Z.sub_0_r in *. rewrite Z.add_0_r in Hr.
  destruct (IH (off + al_size a) _ _ _ _ _ Ht1 Hs ltac:(lia) ltac:(rewrite length_pwrite; lia) E2) as (d2 & Hc & Ht2 & ->).
  exists (d1 ++ d2). split_and!.
  - constructor; [done|done|]. eapply captured_mono; [|exact Hc]. intros x. symmetry. symmetry. apply (um_bytes _ _ Hu).
  - rewrite Ht2. f_equal. replace (Z.to_nat (off + al_size a)) with (Z.to_nat off + length d1)%nat by lia. apply pwrite_pwrite. lia.
  - csimpl. lia.
Qed.

(** The files of [w] hold the bytes [v]. *)
Definition snapshot_of (v : Z → option N) (w : world) : Prop := ∃ m b, w_manifest w = Some m ∧ w_blob w = Some b
  ∧ ∀ e, e ∈ mf_entries m → ∀ i, 0 <= i < e_size e → v (e_ptr e + i) = bf_bytes b !! Z.to_nat (e_offset e + i).

Lemma snapshot_files v (w w' : world) : w_manifest w' = w_manifest w → w_blob w' = w_blob w → snapshot_of v w → snapshot_of v w'.
Proof. intros Hm Hb (m & b & ? & ? & ?). exists m, b. split_and!; congruence || done. Qed.

Lemma weights_positive w l : weights w l → Forall (λ a, 0 < al_size a) l.
Proof. by intros [? _]%pool_allocations_ok. Qed.

Lemma allocations_run (w : world) l : weights w l → allocations PRESERVED_REGION w = (Ok l, w).
Proof. unfold weights, allocations. by intros ->. Qed.
Lemma reusable_none (w : world) : reuse_blob s = false ∨ w_reusable_generation w = None → reusable_snapshot source s w = (Ok None, w).
Proof.
  intros [Hg|Hg]; unfold reusable_snapshot, mbind, st_bind, st_get; rewrite Hg; [by destruct (w_reusable_generation w)|].
  by destruct (_ && _), (w_reusable_stat w).
Qed.

(** The first byte of the weights cannot be read. *)
Lemma write_blob_fails a l e d (w : world) : weights w (a :: l) →
  memcpy_to_host (al_pointer a) (Z.min (chunk_bytes s) (al_size a)) (w_device w) = (Raise e, d) →
  write_blob_python (zsum (al_size <$> a :: l)) w = (Raise e, set_tmp None (set_memory (w_memory w) d w)).
Proof.
  intros Hw Hread. pose proof (weights_positive _ _ Hw) as Hpos. assert (0 < zsum (al_size <$> a :: l)) as Hz.
  { apply Forall_cons in Hpos as [Ha Hl]. csimpl. enough (0 <= zsum (al_size <$> l)) by lia. clear - Hl. induction Hl; csimpl; lia. }
  apply Forall_cons in Hpos as [Ha _]. unfold DiskSleep.write_blob_python. erewrite st_bind_run by done. unfold st_on_error, preallocate, st_raise_if.
  rewrite (proj2 (Z.leb_gt _ _) Hz). erewrite st_bind_run by done. erewrite st_bind_run by (by apply allocations_run).
  cbn [DiskSleep.write_entries].
  rewrite (st_bind_raise _ _ _ e (set_memory (w_memory w) d (set_tmp (Some (replicate (Z.to_nat (zsum (al_size <$> a :: l))) 0%N)) w))); [done|]. apply st_bind_raise. destruct (Z.to_nat (al_size a)) as [|n] eqn:En; [lia|].
  cbn [DiskSleep.write_chunks]. rewrite (proj2 (Z.ltb_lt _ _) Ha). apply st_bind_raise. unfold copy_to_host, validate_copy.
  rewrite Z.sub_0_r, Z.add_0_r. rewrite (proj2 (Z.leb_gt _ 0)), (proj2 (Z.ltb_ge _ _)) by lia. erewrite st_bind_run by done.
  unfold on_device. cbn [w_device set_tmp set_files]. by rewrite Hread.
Qed.

Lemma blob_python_ok (w w' : world) entries total l : weights w l →
  write_blob_python (zsum (al_size <$> l)) w = (Ok (entries, total), w') →
  ∃ data, captured (byte w) 0 l entries data ∧ w_tmp w' = Some data ∧ total = zsum (al_size <$> l) ∧ 0 < zsum (al_size <$> l).
Proof.
  intros Hw E. unfold DiskSleep.write_blob_python in E. st_inv. apply st_on_error_Ok in E. unfold preallocate in E. st_inv.
  match goal with E : (_ <=? 0) = false |- _ => apply Z.leb_gt in E; rename E into Hpos end.
  match goal with Ha : allocations _ _ = (Ok ?k, ?x) |- _ => assert (k = l ∧ x = set_tmp (Some (replicate (Z.to_nat (zsum (al_size <$> l))) 0%N)) (set_tmp (Some []) w)) as [-> ->] end.
  { unfold weights, allocations in *. cbn [w_memory set_tmp set_files] in *. split; congruence. }
  match goal with _ : write_entries _ _ _ = (Ok ?x, _) |- _ => destruct x as [entries' total'] end. st_inv. guards. simplify_eq.
  match goal with E : write_entries _ _ _ = _ |- _ => rename E into E1 end.
  destruct (write_entries_ok l 0 (set_tmp (Some (replicate (Z.to_nat (zsum (al_size <$> l))) 0%N)) (set_tmp (Some []) w)) _ (replicate (Z.to_nat (zsum (al_size <$> l))) 0%N) _ _ eq_refl (weights_positive w l Hw) ltac:(lia)
    ltac:(rewrite length_replicate; lia) E1) as (data & Hc & Ht & ->). pose proof (captured_length _ _ _ _ _ Hc) as Hlen.
  exists data. split_and!; [exact Hc| |lia|done]. rewrite Ht. f_equal. unfold pwrite. cbn [take].
  rewrite drop_ge by (rewrite length_replicate; lia). by rewrite app_nil_r.
Qed.

Lemma new_snapshot_ok (w w' : world) m l : weights w l → write_new_snapshot w = (Ok m, w') → snapshot_of (byte w) w' ∧ l ≠ [].
Proof.
  intros Hw E. unfold DiskSleep.write_new_snapshot, required_bytes, ensure_space in E. st_inv.
  match goal with E : allocations _ _ = _ |- _ => injection E as E <-; unfold weights in Hw; rewrite Hw in E; injection E as <- end.
  match goal with Hb : write_blob_python _ _ = (Ok ?x, ?x1) |- _ => destruct x as [entries total]; rename Hb into E1, x1 into w1 end.
  eapply (blob_python_ok _ _ _ _ l) in E1 as (data & Hc & Ht & -> & Hpos); [|done].
  split; [|by intros ->]. st_inv. unfold publish_blob in *. st_inv. destruct (stamp (w_files w1)) as [[[dv ino] mt] ct].
  assert (∀ e es n (w2 w3 : world), (if preverified s && negb (bool_decide (is_Some (@None (list (Z * Z * Z) → D → res (pybytes * Z * list (option pystr)) * D))))
    then verify_blob s es n else mret tt) w2 = (Ok e, w3) → w3 = w2) as Hv.
  { intros e es n w2 w3. destruct (_ && _); [|by intros [= _ <-]]. unfold verify_blob, verify_file. intros E'. st_inv.
    match goal with E : open_blob _ = _ |- _ => by injection E end. }
  match goal with E : (if _ then _ else _) _ = (Ok _, _) |- _ => apply Hv in E as -> end. clear Hv.
  unfold open_blob in *. cbn [w_blob w_tmp set_files] in *. rewrite Ht in *. cbn [fmap option_fmap option_map of_option] in *.
  match goal with E : (Ok _, _) = (Ok ?x, ?y) |- _ => injection E as <- <- end.
  unfold write_manifest in E. st_inv. eexists _, _. cbn [w_manifest w_blob set_files]. split_and!; [done|done|].
  cbn [mf_entries new_manifest bf_bytes]. intros e He i Hi.
  destruct (captured_bytes _ 0 _ _ _ ltac:(lia) (weights_positive w l Hw) Hc e He) as [_ Hb]. etrans; [by apply Hb|]. f_equal. lia.
Qed.

Lemma reuse_candidate_same g st : Runs (W := world) eq (reuse_candidate source s g st).
Proof.
  unfold reuse_candidate. runs_step; [apply load_manifest_same|]. runs_step; [by intros ? ? ? [= <- <-]|]. auto with runs.
Qed.
Lemma reuse_candidate_inv g st x (w w' : world) : reuse_candidate source s g st w = (Ok x, w') →
  w' = w ∧ ∃ m, x = Some m ∧ ∃ m' l b, accepted w m' l b.
Proof.
  intros E. pose proof (reuse_candidate_same _ _ _ _ _ E) as <-. split; [done|]. unfold reuse_candidate in E. st_inv.
  match goal with E : load_manifest _ _ _ = _ |- _ => apply load_manifest_inv in E as (-> & l & b & Ad) end. eauto 10.
Qed.
Lemma accepted_nonempty w m l b : accepted w m l b → l ≠ [].
Proof.
  intros Ad ->. destruct (mf_entries m) as [|e es] eqn:Ee; [by apply (ad_entries _ _ _ _ Ad)|].
  assert (entry_key e ∈ allocation_key <$> ([] : list Allocation)) as []%not_elem_of_nil. apply (ad_keys _ _ _ _ Ad). rewrite Ee. left.
Qed.

(** The snapshot of a sleep is new, of the bytes before it, or the one a wake restored,
    which stays as it is. *)
Definition snapshot_taken (w w' : world) : Prop := snapshot_of (byte w) w'
  ∨ reuse_blob s = true ∧ is_Some (w_reusable_generation w) ∧ w_manifest w' = w_manifest w ∧ w_blob w' = w_blob w.

Lemma write_snapshot_ok (w w' : world) m : write_snapshot w = (Ok m, w') → snapshot_taken w w' ∧ ∃ l, weights w l ∧ l ≠ [].
Proof.
  intros E. unfold DiskSleep.write_snapshot in E. apply st_bind_Ok in E as (reused & w1 & E1 & E).
  assert (∀ w2 : world, unmoved w w2 → write_new_snapshot w2 = (Ok m, w') → snapshot_taken w w' ∧ ∃ l, weights w l ∧ l ≠ []) as Hnew.
  { intros w2 Hu E2. assert (∃ l, weights w2 l) as [l Hl].
    { unfold DiskSleep.write_new_snapshot, required_bytes in E2. st_inv. match goal with E : allocations _ _ = _ |- _ => injection E as E <- end. eauto. }
    destruct (new_snapshot_ok _ _ _ _ Hl E2) as [(m' & b & Hm & Hb & Hv) Hne]. split.
    - left. exists m', b. split_and!; [done..|]. intros e He i Hi. rewrite <- Hv by done. symmetry. apply (um_bytes _ _ Hu).
    - exists l. split; [|done]. unfold weights in *. by rewrite (um_memory _ _ Hu) in Hl. }
  unfold reusable_snapshot in E1. apply st_bind_Ok in E1 as (generation & wa & Ea & E1). apply st_bind_Ok in E1 as (stat & wb & Eb & E1). st_inv.
  rewrite Hblob, Hexport in E. cbn [orb] in E. rewrite Hblob in E1. rewrite andb_true_r in E1.
  destruct (reuse_blob s) eqn:Hreuse; [|st_inv; by apply (Hnew w)].
  destruct (w_reusable_generation w) as [g|] eqn:Hg; [|st_inv; by apply (Hnew w)].
  destruct (w_reusable_stat w) as [st|]; [|st_inv; by apply (Hnew w)].
  unfold st_except in E1. destruct (reuse_candidate _ _ _ _ _) as [[x|e] w2] eqn:E2.
  - injection E1 as <- <-. destruct (reuse_candidate_inv _ _ _ _ _ E2) as (-> & m' & -> & m0 & l & b & Ad). st_inv. split.
    + right. rewrite Hg. by split_and!.
    + exists l. split; [apply Ad|by eapply accepted_nonempty].
  - apply reuse_candidate_same in E2 as <-. destruct (reuse_caught (exc e)); [|done]. st_inv. by apply (Hnew (set_reusable None None w)).
Qed.

(** ** The pool of a worker *)

(** vLLM's pool: one entry per address, ranges apart, and every managed region listed. *)
Record pool_ok (w : world) : Prop := {
  po_nodup : NoDup (v_pool (w_memory w)).*1;
  po_apart l : weights w l → ForallOrdPairs alloc_apart l;
  po_listed r : r ∈ discard_regions s → ∃ k, pool_allocations (v_pool (w_memory w)) (Some r) = Ok k;
  po_regions r l k a b : r ∈ discard_regions s → weights w l → pool_allocations (v_pool (w_memory w)) (Some r) = Ok k →
    a ∈ l → b ∈ k → alloc_apart a b;
}.

Lemma set_flags_fst value p pointers : (set_flags value p pointers).*1 = p.*1.
Proof.
  unfold set_flags. revert p. induction pointers as [|q l IH]; intros p; [done|]. cbn [foldl]. rewrite IH. unfold set_asleep.
  rewrite <- list_fmap_compose. apply list_fmap_ext. intros _ e _. cbn. by case_bool_decide.
Qed.
Lemma same_layout_flags value v pointers n : same_layout v (Provider (set_flags value (v_pool v) pointers) n).
Proof.
  unfold set_flags. revert v n. induction pointers as [|q l IH]; intros v n; cbn [foldl]; [by intros tag l E; eauto|].
  etrans; [apply (same_layout_set value q v n)|]. apply (IH (Provider (set_asleep q value (v_pool v)) n)).
Qed.
Lemma flags_to_layout value w w' : flags_to value w w' → same_layout (w_memory w) (w_memory w').
Proof.
  intros (_ & _ & p & Hp) tag l El. destruct (same_layout_flags value (w_memory w) p 0 _ _ El) as (l' & El' & Hk). exists l'.
  cbn in El'. by rewrite Hp.
Qed.

Lemma apart_keys l l' : allocation_key <$> l' = allocation_key <$> l → ForallOrdPairs alloc_apart l → ForallOrdPairs alloc_apart l'.
Proof.
  revert l'. induction l as [|a l IH]; intros [|a' l'] Hk; csimpl in *; try done. intros Ha. injection Hk as E1 E2 _ Hk.
  inversion Ha as [|? ? Hh Ht]; subst. constructor; [|by apply IH]. rewrite Forall_forall in Hh. apply Forall_forall. intros b' Hb'.
  assert (allocation_key b' ∈ allocation_key <$> l) as (b & Eb & Hb)%list_elem_of_fmap by (rewrite <- Hk; by apply list_elem_of_fmap_2).
  specialize (Hh _ Hb). unfold allocation_key in Eb. simplify_eq. unfold alloc_apart in *. lia.
Qed.

Lemma pool_ok_flags value w w' : flags_to value w w' → pool_ok w → (∃ l, weights w l) → pool_ok w'.
Proof.
  intros Hf [Hn Ha Hl Hr] [l0 Hl0]. pose proof (flags_to_layout _ _ _ Hf) as Hlay. split.
  - destruct Hf as (_ & _ & p & ->). by rewrite set_flags_fst.
  - intros l' Hl'. destruct (Hlay _ _ Hl0) as (k & Ek & Hk). unfold weights in *. assert (k = l') as -> by congruence. eauto using apart_keys.
  - intros r Hin. destruct (Hl r Hin) as [k Ek]. destruct (Hlay _ _ Ek) as (k' & Ek' & _). eauto.
  - intros r l k a b Hin Hw' Ek' Ha' Hb'. destruct (Hl r Hin) as [k0 Ek0].
    destruct (same_layout_elem _ _ _ _ _ _ Hlay Hl0 Hw' Ha') as (a0 & Ha0 & Ea). destruct (same_layout_elem _ _ _ _ _ _ Hlay Ek0 Ek' Hb') as (b0 & Hb0 & Eb).
    pose proof (Hr r l0 k0 a0 b0 Hin Hl0 Ek0 Ha0 Hb0) as Hap. unfold allocation_key, alloc_apart in *. simplify_eq. lia.
Qed.

(** The addresses of the discardable regions. *)
Definition in_regions (w : world) (x : Z) : Prop := ∃ r k b, r ∈ discard_regions s ∧ pool_allocations (v_pool (w_memory w)) (Some r) = Ok k
  ∧ b ∈ k ∧ al_pointer b <= x < al_pointer b + al_size b.
Lemma regions_in w : pool_ok w → Forall (region_in (w_memory w) (in_regions w)) (discard_regions s).
Proof.
  intros Hp. apply Forall_forall. intros r Hr. destruct (po_listed _ Hp r Hr) as [k Ek]. exists k. split; [done|].
  apply Forall_forall. intros b Hb x Hx. unfold in_regions. eauto 10.
Qed.
Lemma weight_not_in_regions w l a x : pool_ok w → weights w l → a ∈ l → al_pointer a <= x < al_pointer a + al_size a → ¬ in_regions w x.
Proof.
  intros Hp Hw Ha Hx (r & k & b & Hr & Ek & Hb & Hxb). pose proof (po_regions _ Hp _ _ _ _ _ Hr Hw Ek Ha Hb) as Hap. unfold alloc_apart in Hap. lia.
Qed.

(** ** Sleep *)

Notation suspend := (suspend transfer stamp time_ns None source s).
Notation resume := (resume None source s).
Notation wake := (wake None source s).
(** No materialization thread is running. *)
Hypothesis Hwait : ∀ w, wait_materialization source w = (Ok tt, w).

Lemma sets_release a : Runs (flags_to true) (memory_release (G := G) a).
Proof.
  intros w r w' E. unfold memory_release, release in E. destruct (unmap_device _ _ _) as [x d]. injection E as <- <-. split_and!; [done..|].
  by exists [al_pointer a].
Qed.
Lemma sets_of_keeps {A} value (m : ST world A) : Runs keeps m → Runs (flags_to value) m.
Proof. intros Hm w r w' E. apply keeps_flags. by eapply Hm. Qed.
Lemma sets_release_regions regions : Runs (flags_to true) (release_discard_regions (G := G) regions).
Proof.
  assert (∀ l, Runs (flags_to true) (release_each (G := G) l)) as Hl.
  { induction l as [|a l IH]; cbn [release_each]; [auto with runs|]. runs_step; [|runs_step; auto with runs].
    unfold release_discard. destruct (al_released a); auto using sets_release with runs. }
  induction regions as [|r regions IH]; cbn [release_discard_regions]; [auto with runs|].
  runs_step; [|runs_step; [auto|runs_step; auto with runs]].
  apply sets_of_keeps. unfold selected_discard_allocations. runs_step; [auto with runs|]. runs_step; [by apply (runs_pure keeps)|]. auto with runs.
Qed.

Lemma release_all l (w w' : world) : st_iter memory_release l w = (Ok tt, w') →
  v_pool (w_memory w') = set_flags true (v_pool (w_memory w)) (al_pointer <$> l).
Proof.
  revert w. induction l as [|a l IH]; intros w E; cbn [st_iter] in E; st_inv; [done|].
  match goal with Hr : memory_release a w = (Ok ?u, ?w1) |- _ => assert (v_pool (w_memory w1) = set_asleep (al_pointer a) true (v_pool (w_memory w))) as Hp end.
  { unfold memory_release, release in *. destruct (unmap_device _ _ _). simplify_eq. done. }
  rewrite (IH _ E), Hp. done.
Qed.

(** What a finished sleep leaves: its snapshot, every weight flagged, and the pool otherwise
    as it was. *)
Record slept (w w1 : world) (l : list Allocation) : Prop := {
  sl_weights : weights w l;
  sl_some : l ≠ [];
  sl_snapshot : snapshot_taken w w1;
  sl_pool : ∃ pointers, v_pool (w_memory w1) = set_flags true (v_pool (w_memory w)) pointers;
  sl_flagged a : a ∈ l → flagged true (al_pointer a) (v_pool (w_memory w1));
  sl_phase : w_phase w1 = SUSPENDED;
}.
(** The parts of a finished sleep, for any source of the weights. *)
Lemma suspend_run (w w1 : world) : Runs unmoved write_snapshot → suspend 1 w = (Ok tt, w1) →
  ∃ wa wb m l q, (∃ d, wa = set_memory (w_memory w) d (set_phase SUSPENDING (lit "suspending", []) w)) ∧ unmoved w wa
    ∧ write_snapshot wa = (Ok m, wb) ∧ unmoved wa wb ∧ weights w l
    ∧ w_manifest w1 = w_manifest wb ∧ w_blob w1 = w_blob wb
    ∧ v_pool (w_memory w1) = set_flags true (v_pool (w_memory w)) ((al_pointer <$> l) ++ q) ∧ w_phase w1 = SUSPENDED.
Proof.
  intros Hun E. unfold DiskSleep.suspend in E. st_inv.
  match goal with E' : wait_materialization _ _ = _ |- _ => rewrite Hwait in E'; injection E' as _ <- end.
  apply st_on_error_Ok in E. st_inv.
  match goal with Hs : synchronize _ = (Ok _, ?w2), Hw : write_snapshot ?w2 = (Ok ?m, ?w3) |- _ =>
    rename w2 into wa, w3 into wb; apply unmoved_synchronize in Hs as Hu; apply (Hun _ _ _) in Hw as Hu'; rename Hw into Esnap, Hs into Esync, m into man end.
  assert (unmoved w wa) as Hua by (destruct Hu; by split).
  match goal with Hg : on_graphs _ wb = (Ok _, ?x) |- _ => apply keep_graphs in Hg as (Hg1 & Hg2 & Hg3); rename x into wc end.
  match goal with Ha : allocations _ wc = (Ok ?k, _) |- _ => injection Ha as Ha <-; rename k into l end.
  match goal with Hi : st_iter memory_release l wc = (Ok ?u, ?x) |- _ => destruct u; pose proof (release_all _ _ _ Hi) as Hp;
    apply (runs_iter (flags_to true) _ l sets_release) in Hi as (Hi1 & Hi2 & _); rename x into wd end.
  match goal with Hd : release_discard_regions _ wd = (Ok _, ?x) |- _ => apply sets_release_regions in Hd as (Hd1 & Hd2 & q & Hd3); rename x into we end.
  match goal with Hs : synchronize we = (Ok _, ?x) |- _ => apply keep_device in Hs as (Hs1 & Hs2 & Hs3); rename x into wf end.
  match goal with Hc : empty_cache wf = (Ok _, ?x) |- _ => apply keep_device in Hc as (Hc1 & Hc2 & Hc3); rename x into wg end.
  exists wa, wb, man, l, q. cbn [w_manifest w_blob w_memory w_phase set_phase]. split_and!; try done; [| |congruence..|].
  - unfold synchronize, on_device in Esync. destruct (device_synchronize _) as [r d]. injection Esync as _ <-. eauto.
  - assert (v_pool (w_memory wc) = v_pool (w_memory w)) as Epool by (rewrite Hg3, (um_memory _ _ Hu'), (um_memory _ _ Hua); done). unfold weights. rewrite <- Epool. done.
  - rewrite Hc3, Hs3, Hd3, Hp, Hg3, (um_memory _ _ Hu'), (um_memory _ _ Hua). unfold set_flags. by rewrite foldl_app.
Qed.
Lemma suspend_ok (w w1 : world) : suspend 1 w = (Ok tt, w1) → ∃ l, slept w w1 l.
Proof.
  intros E. destruct (suspend_run w w1 unmoved_snapshot E) as (wa & wb & m & l & q & [d ->] & Hua & Esnap & Hub & Hl & Hm & Hb & Hpool & Hph).
  apply write_snapshot_ok in Esnap as [Hsnap (l' & Hl' & Hne)].
  exists l. change (weights w l') in Hl'. assert (l' = l) as -> by (unfold weights in *; congruence). split; try done.
  - destruct Hsnap as [(m' & b & Hm' & Hb' & Hv)|(? & ? & Hm' & Hb')]; [left|right].
    + exists m', b. split_and!; [congruence..|]. intros e He i Hi. rewrite <- (um_bytes _ _ Hua). by apply Hv.
    + split_and!; [done|done|by rewrite Hm, Hm'|by rewrite Hb, Hb'].
  - eauto.
  - intros a Ha. rewrite Hpool. apply flagged_flags. left. apply elem_of_app. left. by apply list_elem_of_fmap_2.
Qed.

(** ** Wake *)

Lemma commit_each mapped msg l (w w' : world) : st_iter (commit_one mapped msg) l w = (Ok tt, w') →
  w' = set_memory (Provider (set_flags false (v_pool (w_memory w)) (al_pointer <$> l)) (v_revision (w_memory w))) (w_device w) w.
Proof.
  revert w. induction l as [|a l IH]; intros w E; cbn [st_iter] in E; st_inv; [by destruct w as [? ? [? ?]]|].
  unfold commit_one, set_released in *. st_inv. apply IH in E as ->. done.
Qed.
Lemma sets_commit mapped msg a : Runs (flags_to false) (commit_one (D := D) (G := G) mapped msg a).
Proof. unfold commit_one. runs_step; [auto with runs|]. apply runs_set. intros w. split_and!; [done..|]. by exists [al_pointer a]. Qed.
Lemma commit_restore_ok l (w w' : world) : weights w l → commit_restore w = (Ok tt, w') →
  v_pool (w_memory w') = set_flags false (v_pool (w_memory w)) (al_pointer <$> l) ∧ w_restore_mapped w' = ∅.
Proof.
  intros Hw E. unfold commit_restore in E. st_inv. match goal with Ha : allocations _ _ = (Ok ?k, _) |- _ => injection Ha as Ha <-; assert (k = l) as -> by (unfold weights in Hw; congruence) end.
  match goal with Hi : st_iter _ _ _ = (Ok ?u, _) |- _ => destruct u; apply commit_each in Hi as -> end. done.
Qed.
Lemma sets_commit_discard regions : Runs (flags_to false) (commit_discard_regions (D := D) (G := G) regions).
Proof.
  unfold commit_discard_regions. runs_step; [|by apply sets_of_keeps, keep_mapped].
  induction regions as [|r regions IH]; cbn [commit_regions]; [auto with runs|].
  runs_step; [by apply sets_of_keeps, keep_allocations|]. runs_step; [auto with runs|]. runs_step; [|done].
  apply runs_iter; [apply _|]. apply sets_commit.
Qed.
Lemma commit_discard_clears regions (w w' : world) : commit_discard_regions regions w = (Ok tt, w') → w_discard_mapped w' = ∅ ∧ w_restore_mapped w' = w_restore_mapped w.
Proof.
  unfold commit_discard_regions. intros E. st_inv. split; [done|]. cbn [w_restore_mapped set_mapped].
  match goal with Hc : commit_regions _ _ = _ |- _ => revert Hc end. revert w. induction regions as [|r regions IH]; intros w E; cbn [commit_regions] in E; st_inv; [done|].
  rewrite (IH _ E). match goal with Hi : st_iter _ _ _ = (Ok ?u, _) |- _ => destruct u; apply commit_each in Hi as -> end.
  match goal with Ha : allocations _ _ = _ |- _ => by injection Ha as _ <- end.
Qed.

Notation finish_wake := (finish_wake source s).

(** After the wake no pack is materialized, or its start changes nothing here. *)
Definition quiet (m : snapshot_manifest) : Prop :=
  mf_source m = WEIGHT_SOURCE_BLOB ∨ ∀ w, start_materialization source m w = (Ok tt, w).
Lemma quiet_start m w : quiet m →
  (if bool_decide (mf_source m = WEIGHT_SOURCE_SAFETENSORS) then start_materialization source m else mret tt) w = (Ok tt, w).
Proof. intros [-> | Hs]; [done|]. by case_bool_decide. Qed.

(** However the rest of a wake ends, it works within the discardable regions. *)
Lemma touch_finish v S regions m stat b : Forall (region_in v S) regions → quiet m →
  Touch v S (finish_wake b regions (Some (m, stat))).
Proof.
  intros Hr Hm. unfold DiskSleep.finish_wake.
  apply touch_bind; [destruct (bool_decide (regions = [])); auto with touch|intros ?]. apply touch_bind; [by apply touch_remap_regions|intros ?].
  apply touch_bind; [destruct b; auto with touch|intros ?]. apply touch_bind; [auto with touch|intros ?].
  apply touch_bind; [destruct b; [apply touch_commit_restore|auto with touch]|intros ?]. apply touch_bind; [apply touch_commit_discard|intros ?].
  apply touch_bind; [apply touch_pure; intros w; by rewrite quiet_start|intros ?]. apply touch_bind; [|intros ?; by apply touch_set].
  destruct stat; [by apply touch_set|auto with touch].
Qed.

Lemma finish_wake_ok regions m stat l (w w' : world) : quiet m → weights w l →
  finish_wake true regions (Some (m, stat)) w = (Ok tt, w') →
  w_phase w' = RUNNING ∧ w_restore_mapped w' = ∅ ∧ w_discard_mapped w' = ∅ ∧ flags_to false w w'
  ∧ ∀ a, a ∈ l → flagged false (al_pointer a) (v_pool (w_memory w')).
Proof.
  intros Hm Hw E. unfold DiskSleep.finish_wake in E. st_inv.
  match goal with He : (if bool_decide (mf_source m = _) then _ else _) _ = (Ok _, _) |- _ => rewrite quiet_start in He by done; injection He as _ <- end.
  match goal with He : (if bool_decide _ then _ else _) w = (Ok _, ?x) |- _ => assert (keeps w x) as K1; [|rename x into wa] end.
  { destruct (bool_decide (regions = [])); st_inv; [done|]. by eapply keep_device. }
  match goal with He : remap_discard_regions _ _ wa = (Ok _, ?x) |- _ => apply keep_remap_regions in He as K2; rename x into wb end.
  match goal with He : on_graphs _ wb = (Ok _, ?x) |- _ => apply keep_graphs in He as K3; rename x into wc end.
  match goal with He : synchronize wc = (Ok _, ?x) |- _ => apply keep_device in He as K4; rename x into wd end.
  assert (keeps w wd) as K by (etrans; [exact K1|]; etrans; [exact K2|]; etrans; [exact K3|exact K4]).
  assert (weights wd l) as Hwd by (unfold weights in *; destruct K as (_ & _ & ->); done).
  match goal with He : commit_restore wd = (Ok ?u, ?x) |- _ => destruct u; pose proof (commit_restore_ok _ _ _ Hwd He) as [Hp Hrm];
    pose proof (touch_commit_restore (w_memory wd) (λ _, False) _ _ _ ltac:(reflexivity) He) as Tc; rename x into we end.
  match goal with He : commit_discard_regions _ we = (Ok ?u, ?x) |- _ => destruct u; pose proof (commit_discard_clears _ _ _ He) as [Hd1 Hd2];
    apply sets_commit_discard in He as (Hf1 & Hf2 & q & Hf3); rename x into wf end.
  assert (v_pool (w_memory wf) = set_flags false (v_pool (w_memory w)) ((al_pointer <$> l) ++ q)) as Hpool.
  { rewrite Hf3, Hp. destruct K as (_ & _ & ->). unfold set_flags. by rewrite foldl_app. }
  match goal with He : match stat with _ => _ end wf = (Ok _, ?x) |- _ => assert (x = wf ∨ ∃ g st, x = set_reusable g st wf) as Hx
    by (destruct stat; st_inv; eauto); rename x into wg end.
  assert (w_memory wg = w_memory wf ∧ w_restore_mapped wg = w_restore_mapped wf ∧ w_discard_mapped wg = w_discard_mapped wf
    ∧ w_manifest wg = w_manifest wf ∧ w_blob wg = w_blob wf) as (E1 & E2 & E3 & E4 & E5) by (by destruct Hx as [-> | (? & ? & ->)]).
  cbn [w_phase w_restore_mapped w_discard_mapped w_memory set_phase]. rewrite E1, E2, E3.
  split_and!; [done|congruence|done| |].
  - destruct K as (K1' & K2' & _). destruct Tc. split_and!; cbn [w_manifest w_blob w_memory set_phase]; [congruence..|]. exists ((al_pointer <$> l) ++ q). congruence.
  - intros a Ha. rewrite Hpool. apply flagged_flags. left. apply elem_of_app. left. by apply list_elem_of_fmap_2.
Qed.

Lemma restore_preserved_ok events m stat (w w' : world) : pool_ok w → restore_preserved None source s events w = (Ok (m, stat), w') →
  keeps w w' ∧ mf_source m = WEIGHT_SOURCE_BLOB
  ∧ ∃ l b, accepted w m l b ∧ ∀ a, a ∈ l → ∃ e, e ∈ mf_entries m ∧ restored_entry (bf_bytes b) (w_device w') a e.
Proof.
  intros Hp E. pose proof (restore_preserved_keeps _ _ _ _ E) as HK. split; [done|]. unfold restore_preserved in E.
  apply st_bind_Ok in E as (m' & w1 & El & E). apply load_manifest_inv in El as (-> & l & b & Ad). pose proof (ad_source _ _ _ _ Ad) as Hs. rewrite Hs in E.
  destruct (bool_decide (WEIGHT_SOURCE_BLOB = WEIGHT_SOURCE_SAFETENSORS)) eqn:Eb; [by vm_compute in Eb|]. st_inv. simplify_eq.
  split; [done|]. exists l, b. split; [done|].
  repeat match goal with Ho : open_blob _ = _ |- _ => injection Ho as Ho <-; apply of_option_Ok in Ho end.
  match goal with Ho : w_blob w = Some ?x |- _ => assert (x = b) as -> by (rewrite (ad_blob _ _ _ _ Ad) in Ho; congruence) end.
  match goal with Hr : restore_pipeline _ _ _ w = (Ok ?u, _) |- _ => destruct u; refine (restore_pipeline_ok _ _ _ _ _ _ Ad _ _ Hr) end.
  - eapply pool_pointers; [apply (po_nodup _ Hp)|apply Ad].
  - apply (po_apart _ Hp), Ad.
Qed.

Lemma has_asleep_regions_same regions : Runs (W := world) eq (has_asleep_regions regions).
Proof.
  induction regions as [|r regions IH]; cbn [has_asleep_regions]; [auto with runs|]. runs_step; [by intros w x w' [= <- <-]|].
  destruct (any_released _); auto with runs.
Qed.
Lemma nothing_asleep_same b regions : Runs (W := world) eq (nothing_asleep b regions).
Proof.
  assert (∀ tag, Runs (W := world) eq (allocations tag)) as Ha by (by intros tag w r w' [= <- <-]).
  unfold nothing_asleep. runs_step; [destruct b; unfold has_asleep_weights; auto with runs|]. runs_step; [auto with runs|].
  match goal with |- Runs _ (if ?x then _ else _) => destruct x end; [auto with runs|]. runs_step; [apply has_asleep_regions_same|auto with runs].
Qed.
Lemma nothing_asleep_sets b regions (w w' : world) : nothing_asleep b regions w = (Ok true, w') → w_discard_mapped w = ∅.
Proof.
  intros E. pose proof (nothing_asleep_same _ _ _ _ _ E) as <-. unfold nothing_asleep in E. st_inv. destruct (_ || _); st_inv; [done|].
  match goal with Hh : true = _ |- _ => symmetry in Hh; guards end. done.
Qed.

(** What is asleep is read off the pool, the sets and the graphs. *)
Lemma nothing_asleep_unmoved b regions (w w' : world) : unmoved w w' → (nothing_asleep b regions w').1 = (nothing_asleep b regions w).1.
Proof.
  intros [_ Em Eg Er Ed _].
  assert (∀ regions, (has_asleep_regions regions w').1 = (has_asleep_regions regions w).1
    ∧ (has_asleep_regions regions w').2 = w' ∧ (has_asleep_regions regions w).2 = w) as Hr.
  { intros l. induction l as [|r l IH]; cbn [has_asleep_regions]; [done|]. unfold mbind, st_bind, allocations. rewrite Em.
    destruct (pool_allocations _ _); [|done]. destruct (any_released _); [done|]. exact IH. }
  unfold nothing_asleep, has_asleep_weights, mbind, st_bind, allocations, mret, st_ret, st_get.
  destruct (Hr regions) as (H1' & H2' & H3'). destruct b; [rewrite Em; destruct (pool_allocations _ _); [|done]|]; rewrite Er.
  all: destruct (_ || _); [done|].
  all: destruct (has_asleep_regions regions w') as [x y], (has_asleep_regions regions w) as [x' y'].
  all: cbn in H1', H2', H3'; subst. all: destruct x'; [|done]; cbn; by rewrite Ed, Eg.
Qed.
Lemma nothing_asleep_phase b regions p rec (w : world) : (nothing_asleep b regions (set_phase p rec w)).1 = (nothing_asleep b regions w).1.
Proof. by apply nothing_asleep_unmoved. Qed.
(** A released weight is something to wake. *)
Lemma asleep_not_idle regions l (w : world) : weights w l → any_released l = true → (nothing_asleep true regions w).1 = Ok false.
Proof.
  intros Hw Ha. unfold nothing_asleep, has_asleep_weights, mbind, st_bind, allocations, mret, st_ret, st_get. unfold weights in Hw.
  by rewrite Hw, Ha.
Qed.

(** How a whole wake can go. *)
Inductive wake_run (events : list pool_event) (w : world) (r : res unit) (w' : world) : Prop :=
| wake_nothing p rec : (nothing_asleep true (discard_regions s) w).1 ≠ Ok false → w' = set_phase p rec w → wake_run events w r w'
| wake_stopped wa e : restore_preserved None source s events (set_phase RESUMING (lit "resuming", []) w) = (Raise e, wa) →
    r = Raise e → w' = fail "resume" wa → wake_run events w r w'
| wake_restored m stat wa wb : restore_preserved None source s events (set_phase RESUMING (lit "resuming", []) w) = (Ok (m, stat), wa) →
    finish_wake true (discard_regions s) (Some (m, stat)) wa = (r, wb) → w' = wb ∨ (∃ e, r = Raise e) ∧ w' = fail "resume" wb → wake_run events w r w'.

Lemma resume_run events (w w' : world) r : resume None events w = (r, w') → wake_run events w r w'.
Proof.
  unfold DiskSleep.resume. cbn [resume_selection lift]. unfold mbind, st_bind, st_set, lift, mret, st_ret, res_ret, st_on_error.
  set (w0 := set_phase RESUMING _ w). destruct (nothing_asleep true (discard_regions s) w0) as [[idle|e] w1] eqn:En; pose proof (nothing_asleep_same _ _ _ _ _ En) as <-.
  2:{ intros [= <- <-]. eapply wake_nothing; [|done]. pose proof (nothing_asleep_phase true (discard_regions s) RESUMING (lit "resuming", []) w) as Hph. fold w0 in Hph. rewrite <- Hph. by rewrite En. }
  destruct idle; cbn [wake_or_recover]; unfold wake_or_recover, st_set.
  { intros [= <- <-]. eapply wake_nothing; [|done]. pose proof (nothing_asleep_phase true (discard_regions s) RESUMING (lit "resuming", []) w) as Hph. fold w0 in Hph. rewrite <- Hph. by rewrite En. }
  unfold DiskSleep.wake, mbind, st_bind, mret, st_ret. destruct (restore_preserved None source s events w0) as [[[m stat]|e] wa] eqn:Er.
  2:{ intros [= <- <-]. by eapply wake_stopped. }
  destruct (finish_wake true (discard_regions s) (Some (m, stat)) wa) as [[u|e] wb] eqn:Ef; intros [= <- <-];
    eapply wake_restored; [exact Er|exact Ef|by left|exact Er|exact Ef|right; eauto].
Qed.

Lemma pool_ok_memory w w' : v_pool (w_memory w') = v_pool (w_memory w) → pool_ok w → pool_ok w'.
Proof. intros E []. unfold weights in *. split; unfold weights; rewrite E; done. Qed.

(** The pool of a worker that has slept, and the wake it takes. *)
Lemma slept_layout (w w1 : world) l pointers : pool_ok w → weights w l → v_pool (w_memory w1) = set_flags true (v_pool (w_memory w)) pointers →
  pool_ok w1 ∧ ∃ l1, weights w1 l1 ∧ allocation_key <$> l1 = allocation_key <$> l.
Proof.
  intros Hp Hl Hpool.
  assert (flags_to true w (set_files (w_manifest w) (w_blob w) (w_tmp w1) (w_files w1) w1)) as Hft by (split_and!; [done..|by exists pointers]).
  split; [|exact (flags_to_layout _ _ _ Hft _ _ Hl)].
  eapply (pool_ok_memory (set_files (w_manifest w) (w_blob w) (w_tmp w1) (w_files w1) w1)); [done|]. eapply pool_ok_flags; eauto.
Qed.
Lemma asleep_resumes events (w1 w2 : world) l l1 : l ≠ [] → weights w1 l1 → allocation_key <$> l1 = allocation_key <$> l →
  (∀ a, a ∈ l → flagged true (al_pointer a) (v_pool (w_memory w1))) → resume None events w1 = (Ok tt, w2) →
  ∃ m stat wa, restore_preserved None source s events (set_phase RESUMING (lit "resuming", []) w1) = (Ok (m, stat), wa)
    ∧ finish_wake true (discard_regions s) (Some (m, stat)) wa = (Ok tt, w2).
Proof.
  intros Hne Hl1 Hk Hfl Er. apply resume_run in Er as [p rec Hn ->|wa e _ [=] _|m stat wa wb Erp Ef [-> | [[e [=]] _]]]; [|eauto].
  exfalso. apply Hn. apply (asleep_not_idle _ l1); [done|]. destruct l1 as [|a l1]; [by destruct l|].
  cbn. assert (al_released a = true) as ->; [|done]. eapply flagged_elem; [exact Hl1|left|].
  destruct l as [|a0 l]; [done|]. csimpl in Hk. injection Hk as -> _ _ _. apply Hfl. left.
Qed.
(** Weights whose flags were cleared are awake where they were. *)
Lemma awake_weights (w w' : world) l : weights w l → same_layout (w_memory w) (w_memory w') →
  (∀ a, a ∈ l → flagged false (al_pointer a) (v_pool (w_memory w'))) →
  ∃ l2, weights w' l2 ∧ allocation_key <$> l2 = allocation_key <$> l ∧ Forall (λ a, al_released a = false) l2.
Proof.
  intros Hl Hlay Hfl. destruct (Hlay _ _ Hl) as (l2 & Hl2 & Hk). exists l2. split_and!; [done..|]. apply Forall_forall. intros a Ha.
  eapply flagged_elem; [exact Hl2|done|]. destruct (same_layout_elem _ _ _ _ _ _ Hlay Hl Hl2 Ha) as (a1 & Ha1 & Ek).
  unfold allocation_key in Ek. injection Ek as <- _ _. by apply Hfl.
Qed.

(** A restored entry stays restored over a run within the discardable regions. *)
Lemma restored_stays f a e l (w w' : world) : pool_ok w → weights w l → a ∈ l → touches (in_regions w) w w' →
  restored_entry f (w_device w) a e → restored_entry f (w_device w') a e.
Proof.
  intros Hp Hw Ha T (Hk & Hl & Hc). split_and!; [done| |done]. intros i Hi. rewrite <- (Hl i Hi). apply (t_bytes _ _ _ T).
  unfold entry_key, allocation_key in Hk. simplify_eq. eapply weight_not_in_regions; [done..|]. lia.
Qed.

(** The second part of a wake after the weights are back. *)
Lemma finish_restored events m stat (w w' : world) r wa wb : pool_ok w →
  restore_preserved None source s events (set_phase RESUMING (lit "resuming", []) w) = (Ok (m, stat), wa) →
  finish_wake true (discard_regions s) (Some (m, stat)) wa = (r, wb) →
  w_memory w' = w_memory wb → w_device w' = w_device wb →
  ∃ l b, accepted w m l b ∧ same_layout (w_memory w) (w_memory w') ∧ keeps w wa
    ∧ ∀ a, a ∈ l → ∃ e, e ∈ mf_entries m ∧ restored_entry (bf_bytes b) (w_device w') a e.
Proof.
  intros Hp Er Ef Em Ed. apply restore_preserved_ok in Er as (HK & Hs & l & b & Ad & Hl); [|by eapply (pool_ok_memory w)].
  assert (keeps w wa) as HK' by (destruct HK as (? & ? & ?); by split_and!).
  assert (pool_ok wa) as Hpa by (eapply (pool_ok_memory w); [apply HK'|done]).
  assert (weights wa l) as Hwa by (unfold weights; destruct HK' as (_ & _ & ->); apply (ad_weights _ _ _ _ Ad)).
  pose proof (touch_finish _ _ _ _ _ true (regions_in wa Hpa) (or_introl Hs) wa _ _ ltac:(reflexivity) Ef) as T.
  exists l, b. split_and!.
  - by destruct Ad.
  - etrans; [|rewrite Em; apply T]. intros tag k Ek. exists k. destruct HK' as (_ & _ & ->). done.
  - done.
  - intros a Ha. destruct (Hl a Ha) as (e & He & Hre). exists e. split; [done|]. rewrite Ed. by eapply restored_stays.
Qed.

(** Asleep and without a manifest, a full wake raises. *)
Lemma no_manifest_no_wake events l (w : world) : weights w l → any_released l = true → w_manifest w = None →
  (resume None events w).1 = Raise (Exn FileNotFoundError "manifest.json").
Proof.
  intros Hw Ha Hm. unfold DiskSleep.resume. cbn [resume_selection]. unfold mbind at 1, st_bind at 1, lift, mret, res_ret. unfold mbind at 1, st_bind at 1, st_set.
  set (w0 := set_phase RESUMING _ w). pose proof (asleep_not_idle (discard_regions s) l w0 Hw Ha) as Hn.
  unfold st_on_error. unfold mbind at 1, st_bind at 1. destruct (nothing_asleep true (discard_regions s) w0) as [x w1] eqn:En.
  pose proof (nothing_asleep_same _ _ _ _ _ En) as <-. cbn [fst] in Hn. subst x. cbn [wake_or_recover].
  unfold DiskSleep.wake, restore_preserved, load_manifest, mbind, st_bind, st_get, lift. cbn [w_manifest w0 set_phase]. by rewrite Hm.
Qed.

(** ** A wake of the weights alone *)

Lemma finish_weights m stat l (w w' : world) : quiet m → weights w l → finish_wake true [] (Some (m, stat)) w = (Ok tt, w') →
  v_pool (w_memory w') = set_flags false (v_pool (w_memory w)) (al_pointer <$> l).
Proof.
  intros Hm Hw E. unfold DiskSleep.finish_wake in E. cbn [remap_discard_regions] in E. st_inv.
  match goal with He : (if bool_decide (mf_source m = _) then _ else _) _ = (Ok _, _) |- _ => rewrite quiet_start in He by done; injection He as _ <- end.
  match goal with He : (if bool_decide _ then _ else _) w = (Ok _, ?x) |- _ => assert (x = w) as -> by (by injection He) end.
  match goal with He : on_graphs _ w = (Ok _, ?x) |- _ => apply keep_graphs in He as K3; rename x into wc end.
  match goal with He : synchronize wc = (Ok _, ?x) |- _ => apply keep_device in He as K4; rename x into wd end.
  assert (keeps w wd) as K by (etrans; [exact K3|exact K4]).
  assert (weights wd l) as Hwd by (unfold weights in *; destruct K as (_ & _ & ->); done).
  match goal with He : commit_restore wd = (Ok ?u, ?x) |- _ => destruct u; pose proof (commit_restore_ok _ _ _ Hwd He) as [Hp _]; rename x into we end.
  match goal with He : commit_discard_regions [] we = (Ok ?u, ?x) |- _ => unfold commit_discard_regions in He; cbn [commit_regions] in He; st_inv end.
  match goal with He : match stat with _ => _ end _ = (Ok _, ?x) |- _ => assert (v_pool (w_memory x) = v_pool (w_memory we)) as Hx by (destruct stat; by st_inv) end.
  cbn [w_memory set_phase]. rewrite Hx, Hp. by destruct K as (_ & _ & ->).
Qed.

(** What a wake of the weights does when a region is recorded as mapped: it restores them,
    clears their flags and the records, and leaves every other flag and byte. *)
Lemma weights_wake events (w w' : world) : pool_ok w → w_discard_mapped w ≠ ∅ →
  resume (Some [PRESERVED_REGION]) events w = (Ok tt, w') →
  ∃ l, weights w l ∧ l ≠ [] ∧ w_phase w' = RUNNING ∧ w_restore_mapped w' = ∅ ∧ w_discard_mapped w' = ∅
    ∧ v_pool (w_memory w') = set_flags false (v_pool (w_memory w)) (al_pointer <$> l)
    ∧ ∀ x, (∀ a, a ∈ l → ¬ (al_pointer a <= x < al_pointer a + al_size a)) → byte w' x = byte w x.
Proof.
  intros Hp Hne E. unfold DiskSleep.resume in E. apply st_bind_Ok in E as ([p q] & w1 & Es & E). apply lift_Ok in Es as [Es ->].
  assert (p = true ∧ q = filter (λ r, r ∈ [PRESERVED_REGION]) (discard_regions s)) as [-> ->] by (cbn [resume_selection] in Es; res_inv; done).
  st_inv. apply st_on_error_Ok in E. apply st_bind_Ok in E as (idle & w2 & En & E).
  pose proof (nothing_asleep_same _ _ _ _ _ En) as <-. destruct idle; [apply nothing_asleep_sets in En; done|].
  set (w0 := set_phase RESUMING (lit "resuming", []) w) in *. cbn [wake_or_recover] in E. unfold DiskSleep.wake in E. st_inv.
  match goal with Hr : restore_preserved _ _ _ _ w0 = (Ok ?x, ?y) |- _ => destruct x as [m stat]; rename Hr into Er, y into wa end.
  assert (pool_ok w0) as Hp0 by (by eapply (pool_ok_memory w)).
  pose proof (restore_preserved_keeps _ _ _ _ Er) as HK. unfold restore_preserved in Er.
  apply st_bind_Ok in Er as (m' & w1 & El & Er). apply load_manifest_inv in El as (-> & l & b & Ad). pose proof (ad_source _ _ _ _ Ad) as Hs. rewrite Hs in Er.
  destruct (bool_decide (WEIGHT_SOURCE_BLOB = WEIGHT_SOURCE_SAFETENSORS)) eqn:Eb; [by vm_compute in Eb|]. st_inv. simplify_eq.
  assert (weights w l) as Hl by exact (ad_weights _ _ _ _ Ad).
  assert (PRESERVED_REGION ∉ discard_regions s) as Hnp.
  { intros Hin. pose proof (accepted_nonempty _ _ _ _ Ad) as Hn. destruct l as [|a l']; [done|].
    pose proof (po_regions _ Hp _ _ _ a a Hin Hl Hl ltac:(left) ltac:(left)) as Hap.
    pose proof (weights_positive _ _ Hl) as Hpos. apply Forall_cons in Hpos as [Ha _]. unfold alloc_apart in Hap. lia. }
  assert (filter (λ r, r ∈ [PRESERVED_REGION]) (discard_regions s) = []) as Hsel.
  { destruct (filter _ _) as [|r rest] eqn:Ef; [done|]. exfalso.
    assert (r ∈ filter (λ r, r ∈ [PRESERVED_REGION]) (discard_regions s)) as [->%list_elem_of_singleton ?]%list_elem_of_filter by (rewrite Ef; left). done. }
  rewrite Hsel in E.
  repeat match goal with Ho : open_blob _ = _ |- _ => injection Ho as Ho <-; apply of_option_Ok in Ho end.
  match goal with Ho : w_blob w = Some ?x |- _ => assert (x = b) as -> by (pose proof (ad_blob _ _ _ _ Ad) as Hb; cbn in Hb; congruence) end.
  match goal with Hr : restore_pipeline _ _ _ w0 = (Ok ?u, ?y) |- _ => destruct u; rename Hr into Er, y into wa end.
  assert (weights wa l) as Hwa by (unfold weights; destruct HK as (_ & _ & ->); exact Hl).
  destruct (finish_wake_ok _ _ _ _ _ _ (or_introl Hs) Hwa E) as (? & ? & ? & _).
  pose proof (finish_weights _ _ _ _ _ (or_introl Hs) Hwa E) as Hpool.
  exists l. split_and!; try done; [by eapply accepted_nonempty| |].
  - rewrite Hpool. by destruct HK as (_ & _ & ->).
  - intros y Hy. rewrite (t_bytes _ _ _ (touch_finish (w_memory wa) (λ _, False) [] _ _ true ltac:(constructor) (or_introl Hs) wa _ _ ltac:(reflexivity) E)) by tauto.
    eapply (restore_pipeline_frame _ _ _ _ w0); [exact Ad| |by apply (po_apart _ Hp)|exact Er|done].
    eapply pool_pointers; [apply (po_nodup _ Hp)|exact Hl].
Qed.
End spec.

(** ** Remapping a discarded region *)

Section discard.
Context {D G : Type} `{DeviceView D} `{GraphController G} (s : settings).
Notation world := (world D G).

Definition range_of (a : Allocation) (x : Z) : Prop := al_pointer a <= x < al_pointer a + al_size a.

Lemma remap_discard_footprint a (w w' : world) r : remap_discard s a w = (r, w') → ∀ x, ¬ range_of a x → byte w' x = byte w x.
Proof.
  intros E x Hx. assert (covers (range_of a) a) as Hc by (by intros y Hy).
  pose proof (touch_remap_discard s (w_memory w) _ _ Hc w r w' ltac:(reflexivity) E) as T. by apply (t_bytes _ _ _ T).
Qed.

(** Device work leaves the sets; a remap adds its pointer. *)
Definition same_sets (w w' : world) : Prop := w_discard_mapped w' = w_discard_mapped w.
#[local] Instance same_sets_preorder : PreOrder same_sets.
Proof. split; [done|]. intros w1 w2 w3 E1 E2. unfold same_sets in *. congruence. Qed.
Lemma sets_device {A} (op : D → res A * D) : Runs same_sets (on_device (G := G) op).
Proof. intros w r w' E. unfold on_device in E. destruct (op (w_device w)). by injection E as <- <-. Qed.
#[local] Hint Resolve sets_device : runs.
Lemma sets_verify p n : Runs same_sets (verify_discard_extent (G := G) s p n).
Proof.
  unfold verify_discard_extent. cbv zeta. runs_step; [auto with runs|]. apply (runs_iter same_sets). intros o.
  unfold verify_sample, copy_to_host. auto 10 with runs.
Qed.
Lemma sets_remap a (w w' : world) r : remap_discard s a w = (r, w') → ∀ p, p ∈ w_discard_mapped w' → p ∈ w_discard_mapped w ∨ p = al_pointer a.
Proof.
  intros E p Hp. unfold remap_discard in E. destruct (al_released a); cbn [negb] in E; [|injection E as <- <-; by left].
  unfold mbind at 1, st_bind at 1, st_get in E. destruct (bool_decide _).
  - assert (same_sets w w') as Es; [|rewrite Es in Hp; by left]. revert E. apply worker_runs_bind; [apply _|auto with runs|]. intros ?.
    runs_step; [apply sets_verify|auto with runs].
  - assert (same_sets w w' ∨ w_discard_mapped w' = {[ al_pointer a ]} ∪ w_discard_mapped w) as [Es|Es]; [|rewrite Es in Hp; by left|set_solver].
    assert (Runs same_sets (memory_remap (G := G) a)) as Hr.
    { intros x y z E'. unfold memory_remap, remap in E'. destruct (map_device _ _ _) as [[[]|] ?]; by injection E' as <- <-. }
    unfold mbind, st_bind in E. destruct (memory_remap a w) as [[u|e] w1] eqn:E1; apply Hr in E1; [|injection E as <- <-; by left].
    assert (Runs same_sets (fill_zero (G := G) (al_pointer a) (al_size a))) as Hf by (unfold fill_zero; auto with runs).
    destruct (fill_zero _ _ w1) as [[u2|e] w2] eqn:E2; apply Hf in E2; [|injection E as <- <-; left; by etrans].
    destruct (synchronize w2) as [[u3|e] w3] eqn:E3; apply sets_device in E3; [|injection E as <- <-; left; etrans; [exact E1|by etrans]].
    cbn [st_set] in E. unfold st_set in E. destruct (verify_discard_extent s _ _ _) as [[u4|e] w4] eqn:E4; apply sets_verify in E4;
      injection E as <- <-; right; unfold same_sets in *; rewrite E4; cbn; congruence.
Qed.

Lemma remap_discard_ok a n (w w' : world) : al_released a = true → al_pointer a ∉ w_discard_mapped w → remap_discard s a w = (Ok n, w') →
  n = al_size a ∧ (∀ x, range_of a x → byte w' x = Some 0%N) ∧ al_pointer a ∈ w_discard_mapped w'.
Proof.
  intros Ha Hm E. unfold remap_discard in E. rewrite Ha in E. cbn [negb] in E. st_inv. rewrite bool_decide_false in * by done.
  st_inv. split; [done|]. unfold fill_zero in *. st_inv.
  match goal with Hz : on_device (memset_zero _ _) ?x = (Ok ?u, ?y) |- _ => destruct u; rename x into wa, y into wb;
    assert (∀ z, range_of a z → byte wb z = Some 0%N) as Hzero end.
  { intros z Hz. unfold on_device in *. destruct (memset_zero _ _ _) as [rz d] eqn:Em. simplify_eq. unfold byte. cbn. by eapply zero_bytes. }
  match goal with Hs : synchronize wb = (Ok _, ?y) |- _ => apply (touch_synchronize (w_memory wb) (λ _, False) _ _ _ ltac:(reflexivity)) in Hs as Ts; rename y into wc end.
  match goal with Hv : verify_discard_extent _ _ _ ?x = (Ok _, _) |- _ =>
    pose proof (touch_verify s (w_memory x) (λ _, False) _ _ _ _ _ ltac:(reflexivity) Hv) as Tv; pose proof Hv as Hv' end.
  split.
  - intros z Hz. rewrite (t_bytes _ _ _ Tv) by tauto. change (byte wc z = Some 0%N). rewrite (t_bytes _ _ _ Ts) by tauto. by apply Hzero.
  - rewrite (sets_verify _ _ _ _ _ Hv'). cbn. set_solver.
Qed.

Lemma remap_each_ok l : ∀ n (w w' : world), NoDup (al_pointer <$> l) → ForallOrdPairs alloc_apart l →
  (∀ a, a ∈ l → al_pointer a ∉ w_discard_mapped w) → remap_each s l w = (Ok n, w') →
  n = zsum (al_size <$> filter (λ a, al_released a = true) l)
  ∧ (∀ a, a ∈ l → al_released a = true → (∀ x, range_of a x → byte w' x = Some 0%N))
  ∧ (∀ x, (∀ a, a ∈ l → al_released a = true → ¬ range_of a x) → byte w' x = byte w x).
Proof.
  induction l as [|a l IH]; intros n w w' HN Hap Hm E; cbn [remap_each] in E; st_inv.
  { split_and!; [done| |done]. intros a []%not_elem_of_nil. }
  csimpl in HN. apply NoDup_cons in HN as [Hna HN]. inversion Hap as [|? ? Hh Ht]; subst.
  match goal with E1 : remap_discard _ a w = (Ok ?x, ?y), E2 : remap_each _ l ?y = (Ok ?z, _) |- _ =>
    rename E1 into Ea, E2 into El, y into w1, x into here, z into others end.
  apply IH in El as (-> & Hz & Hout); [|done|done|].
  2:{ intros b Hb [Hin|Eb]%(sets_remap _ _ _ _ Ea).
      - by apply (Hm b); [right|].
      - apply Hna. rewrite <- Eb. by apply list_elem_of_fmap_2. }
  rewrite filter_cons. destruct (al_released a) eqn:Era.
  - rewrite decide_True by done. csimpl. apply remap_discard_ok in Ea as Hok; [|done|apply Hm; left]. destruct Hok as (-> & Hza & _).
    split_and!; [done| |].
    + intros b [-> | Hb]%elem_of_cons Hrb x Hx; [|by eapply Hz]. rewrite Hout; [by apply Hza|]. intros c Hc _ Hxc.
      rewrite Forall_forall in Hh. pose proof (Hh _ Hc). unfold alloc_apart, range_of in *. lia.
    + intros x Hx. rewrite Hout by (intros b Hb; apply Hx; by right). eapply remap_discard_footprint; [exact Ea|]. apply Hx; [left|done].
  - rewrite decide_False by done. unfold remap_discard in Ea. rewrite Era in Ea. cbn in Ea. injection Ea as <- <-.
    split_and!; [lia| |].
    + intros b [-> | Hb]%elem_of_cons Hrb; [congruence|by eapply Hz].
    + intros x Hx. apply Hout. intros b Hb. apply Hx. by right.
Qed.

(** An allocation whose pointer gets no flag keeps its own. *)
Lemma set_flags_elem value tag a pointers : ∀ p k, pool_allocations p tag = Ok k → a ∈ k → al_pointer a ∉ pointers →
  ∃ k', pool_allocations (set_flags value p pointers) tag = Ok k' ∧ a ∈ k' ∧ allocation_key <$> k' = allocation_key <$> k.
Proof.
  unfold set_flags. induction pointers as [|q l IH]; intros p k Ek Ha Hn; cbn [foldl]; [eauto|]. apply not_elem_of_cons in Hn as [Hq Hn].
  destruct (IH (set_asleep q value p) (mark_as value q <$> k)) as (k' & Ek' & Ha' & Hk').
  - by apply pool_set_asleep.
  - apply list_elem_of_fmap. exists a. split; [|done]. unfold mark_as. by rewrite decide_False.
  - done.
  - exists k'. split_and!; [done..|]. rewrite Hk', <- list_fmap_compose. apply list_fmap_ext. intros _ b _. apply mark_key.
Qed.

(** The device refuses to map what is mapped. *)
Definition refuses_mapped : Prop := ∀ p n (d : D) x, p <= x < p + n → view d x ≠ None → is_ok (map_device p n d).1 = false.

Lemma remap_each_refused a l : ∀ n (w w' : world), refuses_mapped → NoDup (al_pointer <$> l) → ForallOrdPairs alloc_apart l → a ∈ l →
  al_released a = true → 0 < al_size a → al_pointer a ∉ w_discard_mapped w → byte w (al_pointer a) ≠ None → remap_each s l w = (Ok n, w') → False.
Proof.
  induction l as [|b l IH]; intros n w w' Href HN Hap Hin Ha Hpos Hm Hb E; [by apply not_elem_of_nil in Hin|]. cbn [remap_each] in E. st_inv.
  csimpl in HN. apply NoDup_cons in HN as [Hnb HN]. inversion Hap as [|? ? Hh Ht]; subst.
  match goal with E1 : remap_discard _ b w = (Ok ?x, ?y), E2 : remap_each _ l ?y = _ |- _ => rename E1 into Eb, E2 into El, y into w1 end.
  destruct (decide (a = b)) as [->|Hne].
  - unfold remap_discard in Eb. rewrite Ha in Eb. cbn [negb] in Eb. unfold mbind at 1, st_bind at 1, st_get in Eb.
    rewrite bool_decide_false in Eb by done. st_inv.
    match goal with Hr : memory_remap b w = _ |- _ => unfold memory_remap, remap in Hr end.
    specialize (Href (al_pointer b) (al_size b) (w_device w) (al_pointer b) ltac:(lia) Hb).
    by destruct (map_device _ _ _) as [[] d].
  - apply elem_of_cons in Hin as [|Hin]; [done|]. eapply (IH _ w1 _ Href HN Ht Hin Ha Hpos); [| |exact El].
    + intros [|Heq]%(sets_remap _ _ _ _ Eb); [done|]. apply Hnb. rewrite <- Heq. by apply list_elem_of_fmap_2.
    + rewrite (remap_discard_footprint _ _ _ _ Eb); [done|]. rewrite Forall_forall in Hh. specialize (Hh _ Hin). unfold alloc_apart, range_of in *. lia.
Qed.

(** Lists of the same keys in address order are apart together. *)
Lemma sorted_apart k k' : allocation_key <$> k' = allocation_key <$> k →
  ForallOrdPairs alloc_apart (sort_on al_pointer k) → ForallOrdPairs alloc_apart (sort_on al_pointer k').
Proof.
  intros Hk. apply apart_keys. rewrite !(py_sorted_fmap (λ x y, al_pointer x <=? al_pointer y) (λ x y : Z * Z * pystr, x.1.1 <=? y.1.1) allocation_key) by done.
  by rewrite Hk.
Qed.

(** A flagged, unrecorded and mapped allocation keeps its region asleep. *)
Lemma region_stays_asleep (source : model_source D G) region k a events (w : world) : refuses_mapped → region ∈ discard_regions s → region ≠ PRESERVED_REGION →
  NoDup (v_pool (w_memory w)).*1 → pool_allocations (v_pool (w_memory w)) (Some region) = Ok k → ForallOrdPairs alloc_apart (sort_on al_pointer k) →
  a ∈ k → al_released a = true → 0 < al_size a → al_pointer a ∉ w_discard_mapped w → byte w (al_pointer a) ≠ None →
  is_ok (resume None source s (Some [region]) events w).1 = false.
Proof.
  intros Href Hreg Hnp HN Hk Hap Ha Hr Hpos Hm Hb. destruct (resume None source s (Some [region]) events w) as [[[]|] w'] eqn:E; [|done]. exfalso.
  unfold DiskSleep.resume in E. apply st_bind_Ok in E as ([p q] & w1 & Es & E). apply lift_Ok in Es as [Es ->].
  assert (p = false ∧ q = filter (λ r, r ∈ [region]) (discard_regions s)) as [-> ->].
  { cbn [resume_selection] in Es. res_inv. split; [|done]. apply bool_decide_eq_false. intros ?%list_elem_of_singleton. done. }
  assert (∃ rest, filter (λ r, r ∈ [region]) (discard_regions s) = region :: rest) as [rest Hsel].
  { destruct (filter (λ r, r ∈ [region]) (discard_regions s)) as [|r rest] eqn:Ef.
    - assert (region ∈ filter (λ r, r ∈ [region]) (discard_regions s)) as Hin by (apply list_elem_of_filter; split; [left|done]). rewrite Ef in Hin. by apply not_elem_of_nil in Hin.
    - assert (r ∈ filter (λ r, r ∈ [region]) (discard_regions s)) as [->%list_elem_of_singleton _]%list_elem_of_filter by (rewrite Ef; left). eauto. }
  rewrite Hsel in E. st_inv. apply st_on_error_Ok in E. apply st_bind_Ok in E as (idle & w2 & En & E).
  pose proof (nothing_asleep_same _ _ _ _ _ En) as <-.
  assert (any_released k = true) as Hany by (apply existsb_exists; exists a; split; [by apply list_elem_of_In|done]).
  destruct idle.
  { unfold nothing_asleep, has_asleep_regions, mbind, st_bind, st_get, mret, st_ret in En. cbn [orb] in En.
    destruct (negb _); [done|]. cbn in En. unfold allocations in En. cbn [w_memory set_phase] in En. rewrite Hk, Hany in En. done. }
  cbn [wake_or_recover] in E. unfold DiskSleep.wake, DiskSleep.finish_wake in E. rewrite bool_decide_false in E by done.
  cbn [remap_discard_regions] in E. st_inv.
  match goal with He : empty_cache _ = (Ok _, ?x) |- _ => unfold empty_cache, on_device in He; destruct (device_empty_cache _) as [rd dd] eqn:Ed; injection He as -> <- end.
  match goal with He : allocations _ _ = (Ok ?l, _) |- _ => injection He as He <-; assert (l = k) as -> by congruence end.
  match goal with Hr' : remap_each _ _ _ = _ |- _ => eapply (remap_each_refused a) in Hr' end; try done.
  - rewrite py_sorted_perm. by eapply pool_pointers.
  - by rewrite py_sorted_perm.
  - unfold byte. cbn. by rewrite (view_empty_cache _ _ _ _ Ed).
Qed.
End discard.
