(* ===== verification/DiskSleepClaims.v ===== *)
(** * Sleep and wake: the guarantees

    The theorems about [DiskCuMemBackend] over any device that keeps the laws of its calls,
    with a simulated device that shows the laws can hold and runs the worker. *)

From S2P Require Import GraphMemory Prelude Ranges PyFloat PyJson Hash Memory MemorySpec DiskLayout VllmMemory VllmMemorySpec.
From S2P Require Import Artifact DiskPipeline DiskPipelineSpec DiskSleep DiskSleepSpec.

(** A backend whose weight source is the blob, with the transports of the Python code. *)
Record blob_backend {D G} (source : model_source D G) (s : settings) : Prop := {
  bb_source : uses_model_weight_recovery source = false;
  bb_export : model_payload_capture_enabled source = false;
  bb_chunk : 0 < chunk_bytes s;
  bb_depth : 0 < pipeline_depth s;
  bb_wait w : wait_materialization source w = (Ok tt, w);
}.

Section claims.
Context {D G : Type} `{DeviceView D} `{GraphController G}.
Context (transfer : Z → Z → Z) (stamp : nat → Z * Z * Z * Z) (time_ns : nat → Z).
Context (source : model_source D G) (s : settings).
Notation world := (world D G).
Notation suspend := (suspend transfer stamp time_ns None source s).
Notation write_snapshot := (write_snapshot transfer stamp time_ns None source s).
Notation resume := (resume None source s).

(** C2. Sleep then wake gives the worker back, for a backend whose weight source is the blob and
    whose transports are those of the Python code, whatever the schedule of the read
    pipeline. Every weight allocation is awake at its address, no restore is in flight, and
    the snapshot on disk holds the live bytes. Every byte of every weight is the byte it
    was, unless the sleep reused, without writing, the snapshot of an earlier wake (which
    takes the reuse setting and a reusable generation, kept since that wake); then every
    byte is that of the reused snapshot. So every byte is the byte it was for a worker
    without a reusable generation, and for one whose reusable snapshot still holds its
    bytes, as after a wake when the engine has not written its weights since. *)
Theorem sleep_wake_round_trip (w w1 w2 : world) l events : blob_backend source s → pool_ok s w → weights w l →
  suspend 1 w = (Ok tt, w1) → resume None events w1 = (Ok tt, w2) →
  w_phase w2 = RUNNING ∧ w_restore_mapped w2 = ∅ ∧ w_discard_mapped w2 = ∅
  ∧ (∃ l2, weights w2 l2 ∧ allocation_key <$> l2 = allocation_key <$> l ∧ Forall (λ a, al_released a = false) l2)
  ∧ snapshot_of (byte w2) w2
  ∧ ((∀ a x, a ∈ l → al_pointer a <= x < al_pointer a + al_size a → byte w2 x = byte w x)
     ∨ reuse_blob s = true ∧ is_Some (w_reusable_generation w) ∧ w_manifest w2 = w_manifest w ∧ w_blob w2 = w_blob w
       ∧ snapshot_of (byte w2) w)
  ∧ (w_reusable_generation w = None ∨ snapshot_of (byte w) w →
     ∀ a x, a ∈ l → al_pointer a <= x < al_pointer a + al_size a → byte w2 x = byte w x).
Proof.
  intros [Hb He Hc Hd Hwait] Hp Hl Es Er.
  destruct (suspend_ok s source Hb He transfer stamp time_ns Hwait w w1 Es) as (l0 & [Hl0 Hne Hsnap [ptrs Hpool] Hfl _]).
  assert (l0 = l) as -> by (unfold weights in *; congruence).
  destruct (slept_layout s w w1 l ptrs Hp Hl Hpool) as [Hp1 (l1 & Hl1 & Hk1)].
  destruct (asleep_resumes s source events w1 w2 l l1 Hne Hl1 Hk1 Hfl Er) as (m & stat & wa & Erp & Ef).
  destruct (finish_restored s source Hb He Hc Hd transfer events m stat w1 w2 _ wa w2 Hp1 Erp Ef eq_refl eq_refl) as (l' & b & Ad & Hlay & HK & Hres).
  assert (l' = l1) as -> by (pose proof (ad_weights _ _ _ _ Ad); unfold weights in *; congruence).
  assert (weights wa l1) as Hwa by (unfold weights; destruct HK as (_ & _ & ->); exact Hl1).
  destruct (finish_wake_ok s source _ _ _ _ _ _ (or_introl (ad_source _ _ _ _ Ad)) Hwa Ef) as (? & ? & ? & Hff & Hfl2).
  destruct (awake_weights w1 w2 l1 Hl1 Hlay Hfl2) as (l2 & Hl2 & Hk2 & Hawake).
  assert (w_manifest w2 = w_manifest w1 ∧ w_blob w2 = w_blob w1) as [Hm2 Hb2] by (destruct Hff as (? & ? & _), HK as (? & ? & _); split; congruence).
  assert (snapshot_of (byte w2) w1) as Hlive.
  { exists m, b. split_and!; [apply Ad..|]. intros e He' i Hi.
    assert (entry_key e ∈ allocation_key <$> l1) as (a & Ek & Ha)%list_elem_of_fmap by (apply (ad_keys _ _ _ _ Ad), list_elem_of_fmap; eauto).
    destruct (Hres a Ha) as (e' & Hem & Hke & Hld & _). assert (e' = e) as -> by (eapply NoDup_fmap_elem; [apply (ad_nodup _ _ _ _ Ad)|done|done|congruence]).
    by apply Hld. }
  assert (snapshot_of (byte w) w1 → ∀ a x, a ∈ l → al_pointer a <= x < al_pointer a + al_size a → byte w2 x = byte w x) as Hbytes.
  { intros (m0 & b0 & Hm0 & Hb0 & Hv) a x Ha Hx.
    assert (allocation_key a ∈ allocation_key <$> l1) as (a1 & Ek & Ha1)%list_elem_of_fmap by (rewrite Hk1; by apply list_elem_of_fmap_2).
    destruct (Hres _ Ha1) as (e & Hem & Hke & Hld & _).
    rewrite (ad_manifest _ _ _ _ Ad) in Hm0. rewrite (ad_blob _ _ _ _ Ad) in Hb0. simplify_eq.
    assert (e_ptr e = al_pointer a ∧ e_size e = al_size a) as [E1 E2] by (unfold entry_key, allocation_key in *; split; congruence).
    replace x with (e_ptr e + (x - e_ptr e)) by lia. unfold byte at 1. rewrite Hld by lia. symmetry. apply Hv; [done|lia]. }
  split_and!; [done|done|done|exists l2; split_and!; [done|congruence|done]|by eapply snapshot_files|..].
  - destruct Hsnap as [Hsnap|(Hre & Hg & Hm & Hbl)]; [left; by apply Hbytes|right]. split_and!; [done|done|congruence..|by eapply snapshot_files].
  - intros Hcase. apply Hbytes. destruct Hsnap as [Hsnap|(_ & [g Hg] & Hm & Hbl)]; [done|]. destruct Hcase as [?|Hcase]; [congruence|].
    by eapply snapshot_files.
Qed.


(** C37. A wake publishes only what it has restored: however it ends, a weight allocation that is
    not flagged as released afterwards was so before, or its device bytes are those of
    its entry in the accepted snapshot, and under inline verification they have the
    checksum of that entry. *)
Theorem wake_publishes_restored (w1 w2 : world) events r l1 l2 a : blob_backend source s → pool_ok s w1 → weights w1 l1 →
  resume None events w1 = (r, w2) → weights w2 l2 → a ∈ l2 → al_released a = false →
  a ∈ l1 ∨ ∃ m b e, w_manifest w1 = Some m ∧ w_blob w1 = Some b ∧ e ∈ mf_entries m ∧ restored_entry s (bf_bytes b) (w_device w2) a e.
Proof.
  intros [Hb He Hc Hd _] Hp Hl1 Er Hl2 Ha Hf.
  apply resume_run in Er as [p rec _ ->|wa e Es _ ->|m stat wa wb Erp Ef Hw].
  - left. assert (l2 = l1) as <-; [|done]. unfold weights in *. cbn [w_memory set_phase] in Hl2. congruence.
  - left. apply restore_preserved_keeps in Es as (_ & _ & Es); [|done..]. assert (l2 = l1) as <-; [|done].
    unfold weights in *. cbn [w_memory fail set_phase] in *. congruence.
  - right. assert (w_memory w2 = w_memory wb ∧ w_device w2 = w_device wb) as [Em Ed] by (by destruct Hw as [-> | [_ ->]]).
    destruct (finish_restored s source Hb He Hc Hd transfer events m stat w1 w2 _ wa wb Hp Erp Ef Em Ed) as (l & b & Ad & Hlay & _ & Hres).
    assert (l = l1) as -> by (pose proof (ad_weights _ _ _ _ Ad); unfold weights in *; congruence).
    destruct (same_layout_elem _ _ _ _ _ _ Hlay Hl1 Hl2 Ha) as (a1 & Ha1 & Ek). destruct (Hres a1 Ha1) as (e & Hem & Hk & Hre).
    exists m, b, e. split_and!; [apply Ad|apply Ad|done|]. split; [congruence|done].
Qed.

(** A discarded region comes back defined: once its remap has returned, every byte of every
    allocation that was released reads zero, and no other byte has changed. *)
Theorem discarded_region_zeroed (w w' : world) region k n : pool_allocations (v_pool (w_memory w)) (Some region) = Ok k →
  NoDup (v_pool (w_memory w)).*1 → ForallOrdPairs alloc_apart (sort_on al_pointer k) → w_discard_mapped w = ∅ →
  remap_discard_regions s [region] w = (Ok n, w') →
  n = zsum (al_size <$> filter (λ a, al_released a = true) k)
  ∧ (∀ a x, a ∈ k → al_released a = true → range_of a x → byte w' x = Some 0%N)
  ∧ (∀ x, (∀ a, a ∈ k → al_released a = true → ¬ range_of a x) → byte w' x = byte w x).
Proof.
  intros Hk HN Hap Hm E. cbn [remap_discard_regions] in E. st_inv.
  match goal with Ha : allocations _ _ = (Ok ?l, _) |- _ => injection Ha as Ha <-; assert (l = k) as -> by congruence end.
  match goal with Hr : remap_each _ _ _ = _ |- _ => rename Hr into Er end.
  assert (NoDup (al_pointer <$> sort_on al_pointer k)) as HN' by (rewrite py_sorted_perm; by eapply pool_pointers).
  eapply remap_each_ok in Er as (-> & Hz & Hout); [|done|done|intros a _; rewrite Hm; set_solver]. split_and!.
  - rewrite Z.add_0_r. apply zsum_perm. by rewrite py_sorted_perm.
  - intros a x Ha Hra. apply Hz; [by rewrite py_sorted_perm|done].
  - intros x Hx. apply Hout. intros a. rewrite py_sorted_perm. apply Hx.
Qed.

(** C39. A wake of the weights alone forgets an unfinished wake of another region. Suppose an
    earlier wake of a discardable region failed after it had mapped one of its
    allocations, which is left flagged as released, recorded as mapped, and mapped on the
    device. A wake of the weights alone that returns then clears the record and keeps the
    flag and the mapping, so that on a device that refuses to map a mapped address (and
    with the allocations of the region apart) no later wake of the region returns. *)
Theorem weights_wake_forgets_region (w w' : world) region k a events : blob_backend source s → pool_ok s w →
  region ∈ discard_regions s → pool_allocations (v_pool (w_memory w)) (Some region) = Ok k → ForallOrdPairs alloc_apart (sort_on al_pointer k) →
  a ∈ k → al_released a = true → al_pointer a ∈ w_discard_mapped w → byte w (al_pointer a) ≠ None →
  resume (Some [PRESERVED_REGION]) events w = (Ok tt, w') →
  w_phase w' = RUNNING ∧ w_discard_mapped w' = ∅
  ∧ (∃ k', pool_allocations (v_pool (w_memory w')) (Some region) = Ok k' ∧ a ∈ k')
  ∧ byte w' (al_pointer a) = byte w (al_pointer a)
  ∧ (refuses_mapped (D := D) → ∀ events', is_ok (resume (Some [region]) events' w').1 = false).
Proof.
  intros [Hb He Hc Hd _] Hp Hreg Hk Hap Ha Hr Hin Hmap E.
  destruct (weights_wake s source Hb He Hc Hd (λ _ _, 0) events w w' Hp ltac:(set_solver) E) as (l & Hl & Hne & Hph & _ & Hnone & Hpool & Hframe).
  pose proof (pool_allocations_ok _ _ _ Hk) as [Hpos _]. rewrite Forall_forall in Hpos. specialize (Hpos _ Ha). cbn in Hpos.
  assert (∀ b, b ∈ l → alloc_apart b a) as Happ by (intros b Hbl; by apply (po_regions _ _ Hp region l k)).
  assert (al_pointer a ∉ al_pointer <$> l) as Hnot.
  { intros (b & Eb & Hbl)%list_elem_of_fmap. specialize (Happ b Hbl). pose proof (weights_positive _ _ Hl) as Hw. rewrite Forall_forall in Hw.
    specialize (Hw _ Hbl). cbn in Hw. unfold alloc_apart in Happ. lia. }
  destruct (set_flags_elem false _ a _ _ _ Hk Ha Hnot) as (k' & Hk' & Ha' & Hkeys). rewrite <- Hpool in Hk'.
  assert (byte w' (al_pointer a) = byte w (al_pointer a)) as Hbyte.
  { apply Hframe. intros b Hbl Hx. specialize (Happ b Hbl). unfold alloc_apart in Happ. lia. }
  split_and!; [done|done|by eauto|done|]. intros Href events'.
  apply (region_stays_asleep s source region k' a events' w'); try done.
  - intros ->. assert (l = k) as -> by (unfold weights in Hl; congruence). specialize (Happ a Ha). unfold alloc_apart in Happ. lia.
  - rewrite Hpool, set_flags_fst. apply (po_nodup _ _ Hp).
  - eapply sorted_apart; [|exact Hap]. by rewrite Hkeys.
  - rewrite Hnone. set_solver.
  - by rewrite Hbyte.
Qed.

(** C40. A sleep of a worker that is already asleep destroys its snapshot. Suppose a sleep has
    returned, reuse is off or no generation is reusable before and after it (no wake has
    come in between), the disk has space for a snapshot, and the first weight, which is
    unmapped, cannot be read. The worker is asleep with its bytes in the snapshot, the
    only copy. A second sleep removes the files before it reads the first byte: it fails
    with the device's error, manifest and blob are gone, the weights are still unmapped,
    and every later full wake raises for want of a manifest. *)
Theorem second_sleep_loses_snapshot (w w1 : world) a l e d d' : blob_backend source s → pool_ok s w → suspend 1 w = (Ok tt, w1) →
  reuse_blob s = false ∨ w_reusable_generation w = None ∧ w_reusable_generation w1 = None →
  weights w1 (a :: l) → zsum (al_size <$> a :: l) + reserve_bytes s <= free_bytes s →
  device_synchronize (w_device w1) = (Ok tt, d) →
  memcpy_to_host (al_pointer a) (Z.min (chunk_bytes s) (al_size a)) d = (Raise e, d') →
  w_phase w1 = SUSPENDED ∧ Forall (λ b, al_released b = true) (a :: l) ∧ snapshot_of (byte w) w1
  ∧ ∃ w', suspend 1 w1 = (Raise e, w') ∧ w_phase w' = FAILED ∧ w_manifest w' = None ∧ w_blob w' = None
    ∧ weights w' (a :: l)
    ∧ ∀ events, (resume None events w').1 = Raise (Exn FileNotFoundError "manifest.json").
Proof.
  intros [Hb He Hc Hd Hwait] Hp Es1 Hre Hw Hfree Hsync Hread.
  destruct (suspend_ok s source Hb He transfer stamp time_ns Hwait w w1 Es1) as (l0 & [Hl0 Hne Hsnap [ptrs Hpool] Hfl Hph]).
  assert (Forall (λ b, al_released b = true) (a :: l)) as Hrel.
  { destruct (slept_layout s w w1 l0 ptrs Hp Hl0 Hpool) as [_ (l1 & Hl1 & Hk1)]. assert (l1 = a :: l) as -> by (unfold weights in *; congruence).
    apply Forall_forall. intros b Hbl. eapply flagged_elem; [exact Hw|done|].
    assert (allocation_key b ∈ allocation_key <$> l0) as (b0 & Ek & Hb0)%list_elem_of_fmap by (rewrite <- Hk1; by apply list_elem_of_fmap_2).
    unfold allocation_key in Ek. injection Ek as -> _ _. by apply Hfl. }
  assert (snapshot_of (byte w) w1) as Hcopy.
  { destruct Hsnap as [|(Hr1 & [g Hg] & _)]; [done|]. destruct Hre as [|[? _]]; congruence. }
  split_and!; [done..|].
  pose proof (weights_positive _ _ Hw) as Hpos. apply Forall_cons in Hpos as [Ha Hl].
  assert (0 <= zsum (al_size <$> l)) as Hl0' by (clear - Hl; induction Hl; csimpl; lia). csimpl in Hfree.
  set (w0 := set_memory (w_memory w1) d (set_phase SUSPENDING (lit "suspending", []) w1)).
  assert (synchronize (set_phase SUSPENDING (lit "suspending", []) w1) = (Ok tt, w0)) as Es.
  { unfold synchronize, on_device. cbn [w_device set_phase]. by rewrite Hsync. }
  assert (write_snapshot w0 = (Raise e, set_tmp None (set_memory (w_memory w1) d' (set_files None None (w_tmp w0) (w_files w1) w0)))) as Ew.
  { unfold DiskSleep.write_snapshot. rewrite (st_bind_run _ _ _ _ _ (reusable_none s source w0 ltac:(naive_solver))). rewrite Hb, He. cbn [orb].
    unfold DiskSleep.write_new_snapshot. erewrite st_bind_run by (unfold required_bytes; erewrite st_bind_run by exact (allocations_run w0 _ Hw); done).
    erewrite st_bind_run by done. unfold ensure_space, st_raise_if. rewrite (proj2 (Z.ltb_ge _ _)) by (csimpl; lia).
    erewrite st_bind_run by done. apply st_bind_raise. by apply write_blob_fails with (w := set_files None None (w_tmp w0) (w_files w1) w0). }
  exists (fail "sleep" (set_tmp None (set_memory (w_memory w1) d' (set_files None None (w_tmp w0) (w_files w1) w0)))).
  split_and!; [|done|done|done|exact Hw|].
  - unfold DiskSleep.suspend. unfold st_raise_if. cbn [Z.eqb Pos.eqb negb raise_if]. erewrite st_bind_run by done.
    erewrite st_bind_run by apply Hwait. erewrite st_bind_run by done. unfold st_on_error. erewrite st_bind_run by exact Es.
    erewrite st_bind_raise by exact Ew. done.
  - intros events. apply (no_manifest_no_wake s source events (a :: l)); [exact Hw| |done]. apply Forall_cons in Hrel as [Hrel _]. cbn. by rewrite Hrel.
Qed.
End claims.

(** ** A simulated device *)

(** Mapped ranges, memory, and which of the next synchronizations fail. A fresh mapping holds
    the pattern 0xA5; a mapped range cannot be mapped again, an unmapped one not accessed. *)
Record sim := Sim { sm_maps : list (Z * Z); sm_mem : memory; sm_faults : list bool }.

Definition sim_error {A} : res A := Raise (Exn RuntimeError "CUDA error").
Definition in_range (a : Z) (r : Z * Z) : bool := (r.1 <=? a) && (a <? r.1 + r.2).
Definition sim_within (d : sim) (p n : Z) : bool := existsb (λ r : Z * Z, (r.1 <=? p) && (p + n <=? r.1 + r.2)) (sm_maps d).
Definition sim_view (d : sim) (a : Z) : option N := if existsb (in_range a) (sm_maps d) then Some (sm_mem d a) else None.
Definition sim_write (p : Z) (b : pybytes) (d : sim) : sim := Sim (sm_maps d) (mwrite (sm_mem d) p b) (sm_faults d).

#[global] Instance sim_device : CudaDevice sim := {
  map_device p n d :=
    if existsb (λ r : Z * Z, (r.1 <? p + n) && (p <? r.1 + r.2)) (sm_maps d) then (sim_error, d)
    else (Ok tt, Sim ((p, n) :: sm_maps d) (mwrite (sm_mem d) p (replicate (Z.to_nat n) 165%N)) (sm_faults d));
  unmap_device p n d :=
    if bool_decide ((p, n) ∈ sm_maps d) then (Ok tt, Sim (filter (λ r, r ≠ (p, n)) (sm_maps d)) (sm_mem d) (sm_faults d)) else (sim_error, d);
  memcpy_to_host p n d := if sim_within d p n then (Ok (mread (sm_mem d) p n), d) else (sim_error, d);
  memcpy_from_host p b d := if sim_within d p (Z.of_nat (length b)) then (Ok tt, sim_write p b d) else (sim_error, d);
  memset_zero p n d := if sim_within d p n then (Ok tt, sim_write p (replicate (Z.to_nat n) 0%N) d) else (sim_error, d);
  device_synchronize d :=
    match sm_faults d with
    | [] => (Ok tt, d)
    | fault :: rest => (if fault then sim_error else Ok tt, Sim (sm_maps d) (sm_mem d) rest)
    end;
  device_empty_cache d := (Ok tt, d);
}.

(** [DisabledCudaGraphController] *)
#[global] Instance no_graphs : GraphController unit := {
  graph_release g := (Ok tt, g); graph_restore g := (Ok tt, g); graph_paused _ := 0;
}.
(** What [get_graph_controller] returns otherwise is the controller of the graph library. *)
#[global] Instance native_graphs {W} (driver : driver_call → W → bool * W) (granularity : Z → W → Z) : GraphController (controller W) := {
  graph_release := GraphMemory.release driver None;
  graph_restore := GraphMemory.restore driver granularity None;
  graph_paused c := gs_paused (GraphMemory.stats c);
}.

Lemma mwrite_same m p b a : ¬ (p <= a < p + Z.of_nat (length b)) → mwrite m p b a = m a.
Proof.
  intros Ha. unfold mwrite. destruct (Z.leb_spec p a), (Z.ltb_spec a (p + Z.of_nat (length b))); try done. lia.
Qed.
Lemma mwrite_at m p b i x : b !! i = Some x → mwrite m p b (p + Z.of_nat i) = x.
Proof.
  intros Hi. pose proof (lookup_lt_Some _ _ _ Hi). unfold mwrite. rewrite (proj2 (Z.leb_le _ _)), (proj2 (Z.ltb_lt _ _)) by lia. cbn [andb].
  replace (Z.to_nat (p + Z.of_nat i - p)) with i by lia. by rewrite Hi.
Qed.
Lemma within_mapped d p n a : sim_within d p n = true → p <= a < p + n → existsb (in_range a) (sm_maps d) = true.
Proof.
  unfold sim_within. rewrite !existsb_exists. intros (r & Hr & Hw) Ha. exists r. split; [done|]. unfold in_range. lia.
Qed.

#[global] Instance sim_view_laws : DeviceView sim.
Proof.
  refine {| view := sim_view |}; cbn.
  - intros p n d r d' a E Ha. destruct (existsb _ _); injection E as <- <-; [done|]. unfold sim_view. cbn [sm_maps sm_mem existsb].
    rewrite mwrite_same by (rewrite length_replicate; lia). assert (in_range a (p, n) = false) as -> by (unfold in_range; cbn; lia). done.
  - intros p n d r d' a E Ha. case_bool_decide; injection E as <- <-; [|done]. unfold sim_view. cbn [sm_maps sm_mem].
    assert (existsb (in_range a) (filter (λ r, r ≠ (p, n)) (sm_maps d)) = existsb (in_range a) (sm_maps d)) as ->; [|done].
    clear - Ha. induction (sm_maps d) as [|q l IH]; [done|]. assert (q = (p, n) → in_range a q = false) as Hq by (intros ->; unfold in_range; cbn; lia).
    rewrite filter_cons. cbn [existsb]. destruct (decide (q ≠ (p, n))) as [Hn|Hn]; cbn [existsb].
    + by rewrite IH.
    + apply dec_stable in Hn. by rewrite (Hq Hn), IH.
  - intros p n d r d' a E. destruct (sim_within _ _ _); by injection E as <- <-.
  - intros p n d b d' Hn E. destruct (sim_within d p n) eqn:Ew; [|done]. injection E as <- <-. unfold mread. rewrite length_fmap, length_seqZ.
    split; [lia|]. intros i x Hi. apply list_lookup_fmap_Some in Hi as (y & -> & [-> Hy]%lookup_seqZ).
    unfold sim_view. by rewrite (within_mapped _ _ _ _ Ew) by lia.
  - intros p b d r d' a E Ha. destruct (sim_within _ _ _); injection E as <- <-; [|done]. unfold sim_view, sim_write. cbn. by rewrite mwrite_same.
  - intros p b d d' i x E Hi. destruct (sim_within _ _ _) eqn:Ew; [|done]. injection E as <-. pose proof (lookup_lt_Some _ _ _ Hi).
    unfold sim_view, sim_write. cbn. rewrite (within_mapped _ _ _ _ Ew) by lia. by erewrite mwrite_at.
  - intros p n d r d' a E Ha. destruct (sim_within _ _ _); injection E as <- <-; [|done]. unfold sim_view, sim_write. cbn.
    rewrite mwrite_same; [done|]. rewrite length_replicate. lia.
  - intros p n d d' a E Ha. destruct (sim_within _ _ _) eqn:Ew; [|done]. injection E as <-. unfold sim_view, sim_write. cbn.
    rewrite (within_mapped _ _ _ _ Ew) by lia. replace a with (p + Z.of_nat (Z.to_nat (a - p))) by lia.
    rewrite (mwrite_at _ _ _ _ 0%N); [done|]. apply lookup_replicate. split; [done|lia].
  - intros d r d' a E. destruct (sm_faults d); by injection E as <- <-.
  - intros d r d' a E. by injection E as <- <-.
Defined.

(** ** Witnesses *)

Lemma raised {A W} (p : res A * W) e : p.1 = Raise e → p = (Raise e, p.2).
Proof. destruct p. by intros [= ->]. Qed.
Lemma ran {A W} (p : res A * W) a : p.1 = Ok a → p = (Ok a, p.2).
Proof. destruct p. by intros [= ->]. Qed.

(** Two weights and a KV allocation, read and written in chunks of four bytes. *)
Definition sample_settings : settings :=
  Settings 4 2 false true [lit "kv_cache"] 2 7 0 (lit "w0") (lit "host:1") (lit "c1") 10000 16.
Definition sample_provider : provider := Provider
  [(Some 4096, Data (Some (lit "weights")) (Some (Some 6)) None None (Some false));
   (Some 16384, Data (Some (lit "kv_cache")) (Some (Some 5)) None None (Some false));
   (Some 8192, Data (Some (lit "weights")) (Some (Some 3)) None None (Some false))] 0.
Definition sample_memory : memory := λ a, Z.to_N (a mod 251).
Definition sample_worker (faults : list bool) : world sim unit :=
  World RUNNING (lit "running", []) sample_provider [(16384, 5)] (Sim [(4096, 6); (16384, 5); (8192, 3)] sample_memory faults) tt
    ∅ ∅ None None None None None 0 (Pack None None false None empty_cache_entry).
Definition no_model_source : model_source sim unit :=
  ModelSource false false (lift (Raise (Exn RuntimeError "no model source"))) mret (λ _, mret tt) (mret tt) (λ _, mret tt).
Definition two_at_a_time (wanted offset : Z) : Z := 2.
Definition blob_stamp (n : nat) : Z * Z * Z * Z := (1, Z.of_nat n + 10, 5, 6).
Definition sample_clock (n : nat) : Z := 1000 + Z.of_nat n.
Definition sample_schedule : list pool_event := [Caller; Caller; Caller; Reader 1 1; Reader 0 3; Reader 1 9; Reader 0 1; Caller].

Notation sample_suspend := (suspend two_at_a_time blob_stamp sample_clock None no_model_source sample_settings 1).
Notation sample_resume tags := (resume None no_model_source sample_settings tags sample_schedule).
Definition asleep_worker : world sim unit := (sample_suspend (sample_worker [])).2.
Definition woken_worker : world sim unit := (sample_resume None asleep_worker).2.

Lemma sample_backend : blob_backend no_model_source sample_settings.
Proof. by split. Qed.
Definition sample_weights : list Allocation := [VllmMemory.Alloc 4096 6 (lit "weights") false; VllmMemory.Alloc 8192 3 (lit "weights") false].

Lemma sample_pool_ok (w : world sim unit) x y z : v_pool (w_memory w) =
  [(Some 4096, Data (Some (lit "weights")) (Some (Some 6)) None None (Some x));
   (Some 16384, Data (Some (lit "kv_cache")) (Some (Some 5)) None None (Some y));
   (Some 8192, Data (Some (lit "weights")) (Some (Some 3)) None None (Some z))] → pool_ok sample_settings w.
Proof.
  intros Hp. assert (∀ l, weights w l → l = [VllmMemory.Alloc 4096 6 (lit "weights") x; VllmMemory.Alloc 8192 3 (lit "weights") z]) as Hw.
  { intros l E. unfold weights in E. rewrite Hp in E. vm_compute in E. by injection E as <-. }
  split; rewrite ?Hp.
  - by apply (bool_decide_unpack _).
  - intros l ->%Hw. repeat constructor; unfold alloc_apart; cbn; lia.
  - intros r ->%list_elem_of_singleton. eexists. by vm_compute.
  - intros r l k a b ->%list_elem_of_singleton ->%Hw E Ha Hb. vm_compute in E. injection E as <-. apply list_elem_of_singleton in Hb as ->.
    repeat (apply elem_of_cons in Ha as [-> | Ha]); try (by apply not_elem_of_nil in Ha); unfold alloc_apart; cbn; lia.
Qed.

Lemma sample_sleeps : sample_suspend (sample_worker []) = (Ok tt, asleep_worker).
Proof. unfold asleep_worker. apply (ran (sample_suspend (sample_worker [])) tt). by vm_compute. Qed.
Lemma sample_wakes : sample_resume None asleep_worker = (Ok tt, woken_worker).
Proof. unfold woken_worker. apply (ran (sample_resume None asleep_worker) tt). by vm_compute. Qed.

Lemma sleep_wake_round_trip_witness :
  w_phase woken_worker = RUNNING ∧ snapshot_of (byte woken_worker) woken_worker
  ∧ ∀ a x, a ∈ sample_weights → al_pointer a <= x < al_pointer a + al_size a → byte woken_worker x = byte (sample_worker []) x.
Proof.
  destruct (sleep_wake_round_trip two_at_a_time blob_stamp sample_clock no_model_source sample_settings (sample_worker []) asleep_worker
    woken_worker sample_weights sample_schedule) as (H1 & _ & _ & _ & H2 & _ & H3).
  - apply sample_backend.
  - by eapply sample_pool_ok.
  - by vm_compute.
  - exact sample_sleeps.
  - exact sample_wakes.
  - split_and!; [exact H1|exact H2|]. apply H3. by left.
Defined.


Definition weights_asleep : list Allocation := [VllmMemory.Alloc 4096 6 (lit "weights") true; VllmMemory.Alloc 8192 3 (lit "weights") true].
Lemma asleep_pool_ok : pool_ok sample_settings asleep_worker.
Proof. eapply (sample_pool_ok _ true true true). by vm_compute. Qed.

Lemma wake_publishes_restored_witness :
  VllmMemory.Alloc 8192 3 (lit "weights") false ∈ weights_asleep
  ∨ ∃ m b e, w_manifest asleep_worker = Some m ∧ w_blob asleep_worker = Some b ∧ e ∈ mf_entries m
    ∧ restored_entry sample_settings (bf_bytes b) (w_device woken_worker) (VllmMemory.Alloc 8192 3 (lit "weights") false) e.
Proof.
  apply (wake_publishes_restored (λ _ _, 0) no_model_source sample_settings asleep_worker woken_worker sample_schedule (Ok tt) weights_asleep sample_weights).
  - apply sample_backend.
  - apply asleep_pool_ok.
  - by vm_compute.
  - exact sample_wakes.
  - by vm_compute.
  - right. left.
  - done.
Defined.

Definition remapped_worker : world sim unit := (remap_discard_regions sample_settings [lit "kv_cache"] asleep_worker).2.
Definition kv_asleep : Allocation := VllmMemory.Alloc 16384 5 (lit "kv_cache") true.
Lemma discarded_region_zeroed_witness :
  5 = zsum (al_size <$> filter (λ a, al_released a = true) [kv_asleep])
  ∧ (∀ a x, a ∈ [kv_asleep] → al_released a = true → range_of a x → byte remapped_worker x = Some 0%N)
  ∧ (∀ x, (∀ a, a ∈ [kv_asleep] → al_released a = true → ¬ range_of a x) → byte remapped_worker x = byte asleep_worker x).
Proof.
  apply (discarded_region_zeroed sample_settings asleep_worker remapped_worker (lit "kv_cache") [kv_asleep] 5).
  - by vm_compute.
  - apply asleep_pool_ok.
  - repeat constructor.
  - by vm_compute.
  - unfold remapped_worker. apply (ran (remap_discard_regions sample_settings [lit "kv_cache"] asleep_worker) 5). by vm_compute.
Defined.

(** The synchronization that ends a wake of the KV cache fails; then the weights wake. *)
Definition half_woken : world sim unit :=
  (sample_resume (Some [lit "kv_cache"]) (sample_suspend (sample_worker [false; false; false; true])).2).2.
Definition weights_back : world sim unit := (sample_resume (Some [PRESERVED_REGION]) half_woken).2.
Lemma sim_refuses : refuses_mapped (D := sim).
Proof.
  intros p n d x Hx Hv. cbn. assert (existsb (λ r : Z * Z, (r.1 <? p + n) && (p <? r.1 + r.2)) (sm_maps d) = true) as ->; [|done].
  unfold view in Hv. cbn in Hv. unfold sim_view in Hv. destruct (existsb (in_range x) (sm_maps d)) eqn:Ex; [|done].
  apply existsb_exists in Ex as (r & Hr & Hin). apply existsb_exists. exists r. split; [done|]. unfold in_range in Hin. lia.
Qed.
Lemma half_woken_pool_ok : pool_ok sample_settings half_woken.
Proof. eapply (sample_pool_ok _ true true true). by vm_compute. Qed.
Lemma weights_come_back : sample_resume (Some [PRESERVED_REGION]) half_woken = (Ok tt, weights_back).
Proof. unfold weights_back. apply (ran (sample_resume (Some [PRESERVED_REGION]) half_woken) tt). by vm_compute. Qed.

Lemma weights_wake_forgets_region_witness :
  w_phase weights_back = RUNNING ∧ is_ok (sample_resume (Some [lit "kv_cache"]) weights_back).1 = false.
Proof.
  destruct (weights_wake_forgets_region no_model_source sample_settings half_woken weights_back (lit "kv_cache") [kv_asleep] kv_asleep sample_schedule)
    as (H1 & _ & _ & _ & H2).
  - apply sample_backend.
  - exact half_woken_pool_ok.
  - left.
  - by vm_compute.
  - repeat constructor.
  - left.
  - done.
  - by vm_compute.
  - by vm_compute.
  - exact weights_come_back.
  - split; [exact H1|]. apply H2. exact sim_refuses.
Defined.

Definition synced_device : sim := (device_synchronize (w_device asleep_worker)).2.
Lemma second_sleep_loses_snapshot_witness : snapshot_of (byte (sample_worker [])) asleep_worker
  ∧ ∃ w', sample_suspend asleep_worker = (Raise (Exn RuntimeError "CUDA error"), w') ∧ w_manifest w' = None ∧ w_blob w' = None.
Proof.
  destruct (second_sleep_loses_snapshot two_at_a_time blob_stamp sample_clock no_model_source sample_settings (sample_worker []) asleep_worker
    (VllmMemory.Alloc 4096 6 (lit "weights") true) [VllmMemory.Alloc 8192 3 (lit "weights") true] (Exn RuntimeError "CUDA error") synced_device
    (memcpy_to_host 4096 4 synced_device).2) as (_ & _ & H1 & w' & H2 & _ & H3 & H4 & _).
  - apply sample_backend.
  - by eapply sample_pool_ok.
  - exact sample_sleeps.
  - right. split; by vm_compute.
  - by vm_compute.
  - by vm_compute.
  - apply (ran (device_synchronize (w_device asleep_worker)) tt). by vm_compute.
  - apply (raised (memcpy_to_host 4096 4 synced_device)). by vm_compute.
  - split; [exact H1|]. exists w'. split_and!; [exact H2|exact H3|exact H4].
Defined.
