(* ===== verification/DiskRecovery.v ===== *)
(** * Disk backend: weights from a model source

    [DiskCuMemBackend] of [integrations/vllm/coldsnap_disk_backend.py] when the weights come
    back from safetensors files: a sleep stores only the bytes outside the model's ranges, a
    wake zeroes the model's ranges, restores the rest, has the engine reload the model, and
    restores the rest again. A capture that exports also writes the model's bytes as a pack
    whose order is that of their hashes. The operations fill the record [model_source] that
    [suspend] and [resume] take. *)

From S2P Require Import Prelude Ranges PyFloat PyJson Hash Memory Hydration DiskLayout VllmMemory.
From S2P Require Import Artifact DiskPipeline DiskSleep.

(** [_model_source_identity] of the three variables of the environment. *)
Definition model_source_identity (model_id revision metadata : pystr) : res model_identity :=
  let model_id := py_strip model_id in
  let revision := py_strip revision in
  let metadata := py_strip metadata in
  _ ← raise_if (bool_decide (model_id = []) || bool_decide (revision = [])) RuntimeError "safetensors recovery requires a pinned model";
  let valid := (length metadata =? 64)%nat && bool_decide (py_lower metadata = metadata)
               && match fromhex metadata with Some b => (length b =? 32)%nat | None => false end in
  _ ← raise_if (negb (bool_decide (metadata = [])) && negb valid) RuntimeError "COLDSNAP_MODEL_METADATA_SHA256 is invalid";
  mret (ModelIdentity model_id revision metadata).

(** A source of an extent file: address, size, and the SHA-256 it must have when the file is
    hashed. *)
Record extent_job := Job { j_ptr : Z; j_size : Z; j_sha256 : option pystr }.
Definition packed_job_bytes (l : list extent_job) : Z := zsum ((λ j, packed_align (j_size j)) <$> l).
(** The file offsets: every extent starts on a 4096-byte boundary. *)
Fixpoint job_offsets (offset : Z) (l : list extent_job) : list Z :=
  match l with
  | [] => []
  | j :: rest => offset :: job_offsets (offset + packed_align (j_size j)) rest
  end.
Definition piece_job (p : piece) : extent_job := Job (p_ptr p) (p_size p) None.

(** A stored piece where it lies; the views share it. *)
Definition place_piece (p : piece) (offset : Z) (crc : pystr) : piece * residual_extent :=
  (p, Residual (p_ptr p) (p_size p) (p_alloc p) offset crc).
Definition view_extents (placed : list (piece * residual_extent)) (view : nat) : list residual_extent :=
  (filter (λ q : piece * residual_extent, view ∈ p_views q.1) placed).*2.

Definition pool_allocation (a : Allocation) : allocation := DiskLayout.Alloc (al_pointer a) (al_size a) (al_tag a).

(** What the backend of a worker with a model source is configured with. *)
Record recovery_config := RecoveryConfig {
  rc_bound : bound_layout;
  rc_identity : res model_identity;
  rc_capture_enabled : bool;
  rc_direct : bool;
  rc_hydration_backend : pystr;
}.

(** The layout recorded for the model: the bound one, or one by ordinals. *)
Definition semantic_layout (b : bound_layout) : list (Z * Z * pystr) :=
  if decide (model_weight_semantics b = []) then imap (λ i r, (r.1, r.2, ordinal_id i r.2)) (model_weight_ranges b)
  else model_weight_semantics b.
Definition native_layout (b : bound_layout) : list (Z * Z * pystr) :=
  if decide (native_model_payload_semantics b = []) then semantic_layout b else native_model_payload_semantics b.

Section recovery.
Context {D G : Type} `{CudaDevice D} `{GraphController G}.
Notation world := (world D G).

(** The environment as in [DiskSleep]; the transport of an extent file returns the file, its
    byte counts, the digests of the extents and of the file. *)
Variable transfer : Z → Z → Z.
Variable stamp : nat → Z * Z * Z * Z.
Variable time_ns : nat → Z.
Variable capture_transport : option (list (Z * Z * Z) → bool → D → res (pybytes * Z * Z * list (option pystr * option pystr) * option pystr) * D).
Variable hydrator : option (pystr → pybytes → list HydrationExtent → D → res unit * D).
Variable validate_payload : pybytes → pystr → Z → res unit.
Variable reload : option (D → res unit * D).
Variable c : recovery_config.
Variable s : settings.

(** ** Writing an extent file *)

(** One extent through the host stage: its CRC, its bytes, and what was written. *)
Fixpoint write_padded (fuel : nat) (ptr size offset copied : Z) (crc : N) (hashed whole : pybytes) : ST world (N * pybytes * pybytes) :=
  match fuel with
  | O => mret (crc, hashed, whole)
  | S fuel' =>
      if copied <? size then
        let count := Z.min (chunk_bytes s) (size - copied) in
        view ← copy_to_host (chunk_bytes s) (ptr + copied) count;
        let padded := view ++ replicate (Z.to_nat (packed_align count - count)) 0%N in
        _ ← write_tmp transfer padded (offset + copied);
        write_padded fuel' ptr size offset (copied + count) (crc32 view crc) (hashed ++ view) (whole ++ padded)
      else mret (crc, hashed, whole)
  end.
Fixpoint write_jobs (l : list extent_job) (offset : Z) (whole : pybytes) : ST world (list pystr * pybytes) :=
  match l with
  | [] => mret ([], whole)
  | j :: rest =>
      '(crc, hashed, whole) ← write_padded (Z.to_nat (j_size j)) (j_ptr j) (j_size j) offset 0 0%N [] whole;
      _ ← st_raise_if (match j_sha256 j with Some sha => negb (bool_decide (hexdigest hashed = sha)) | None => false end)
          RuntimeError "model payload extent changed during canonical write";
      '(crcs, whole) ← write_jobs rest (offset + packed_align (j_size j)) whole;
      mret (crc_hex crc :: crcs, whole)
  end.
Definition write_jobs_python (l : list extent_job) : ST world (list pystr * pystr) :=
  _ ← st_set (set_tmp (Some []));
  _ ← preallocate (packed_job_bytes l);
  '(crcs, whole) ← write_jobs l 0 [];
  mret (crcs, hexdigest whole).

(** The digests of a native capture. *)
Fixpoint take_crcs (file_sha256 : bool) (l : list extent_job) (digests : list (option pystr * option pystr)) : res (list pystr) :=
  match l, digests with
  | [], [] => mret []
  | j :: l, (crc, sha) :: digests =>
      crc ← of_option RuntimeError "native capture omitted an extent CRC32" crc;
      _ ← raise_if (file_sha256 && negb (bool_decide (sha = j_sha256 j))) RuntimeError "model payload extent changed during canonical write";
      others ← take_crcs file_sha256 l digests;
      mret (crc :: others)
  | _, _ => Raise (Exn ValueError "zip() arguments have different lengths")
  end.
Definition write_jobs_native (capture : list (Z * Z * Z) → bool → D → res (pybytes * Z * Z * list (option pystr * option pystr) * option pystr) * D)
    (l : list extent_job) (file_sha256 : bool) : ST world (list pystr * pystr) :=
  '(bytes, count, file_bytes, digests, digest) ←
    on_device (capture (zip_with (λ offset j, (offset, j_ptr j, j_size j)) (job_offsets 0 l) l) file_sha256);
  _ ← st_set (set_tmp (Some bytes));
  _ ← st_raise_if (negb (count =? zsum (j_size <$> l)) || negb (file_bytes =? packed_job_bytes l))
      RuntimeError "native capture extent byte count changed during write";
  crcs ← lift (take_crcs file_sha256 l digests);
  _ ← st_raise_if (file_sha256 && negb (length (default [] digest) =? 64)%nat) RuntimeError "native capture omitted the file SHA-256";
  mret (crcs, default [] digest).

(** [_write_extent_blob]: the CRCs of the extents and the digest of the file. [publish] moves
    the temporary file to its path, [opened] reads it there. *)
Definition job_entries (l : list extent_job) (crcs : list pystr) : list snapshot_entry :=
  zip_with (λ oj crc, Entry (j_ptr oj.2) (j_size oj.2) [] (Some (oj.1, crc))) (zip (job_offsets 0 l) l) crcs.
Definition write_extent_blob (publish : ST world unit) (opened : ST world blob_file) (l : list extent_job) (file_sha256 verify : bool)
    : ST world (list pystr * pystr) :=
  let logical_bytes := zsum (j_size <$> l) in
  _ ← st_raise_if (logical_bytes <=? 0) RuntimeError "capture extent payload is empty";
  _ ← st_set (set_tmp None);
  st_on_error (
    '(crcs, digest) ← match capture_transport with
                      | Some capture => write_jobs_native capture l file_sha256
                      | None => write_jobs_python l
                      end;
    _ ← publish;
    _ ← (if verify && negb (bool_decide (is_Some capture_transport)) then verify_file s opened (job_entries l crcs) logical_bytes
         else mret tt);
    mret (crcs, digest)) (set_tmp None).

(** ** The pack of an export *)

Definition payload_file (w : world) : option blob_file := pk_payload (w_pack w).
Definition open_payload : ST world blob_file := λ w, (of_option FileNotFoundError "model-weights.pack" (payload_file w), w).
Definition publish_payload : ST world unit := st_set (λ w,
  let '(device, inode, mtime, ctime) := stamp (w_files w) in
  set_pack (set_payload ((λ f, BlobFile f device inode mtime ctime) <$> w_tmp w) (w_pack w))
    (set_files (w_manifest w) (w_blob w) None (S (w_files w)) w)).

(** The SHA-256 of an extent's bytes, read in chunks. *)
Fixpoint read_device (fuel : nat) (ptr size copied : Z) (hashed : pybytes) : ST world pybytes :=
  match fuel with
  | O => mret hashed
  | S fuel' =>
      if copied <? size then
        let count := Z.min (chunk_bytes s) (size - copied) in
        view ← copy_to_host (chunk_bytes s) (ptr + copied) count;
        read_device fuel' ptr size (copied + count) (hashed ++ view)
      else mret hashed
  end.
Definition fingerprint (x : extent) : ST world (extent * pystr) :=
  data ← read_device (Z.to_nat (x_size x)) (x_ptr x) (x_size x) 0 [];
  mret (x, hexdigest data).
Fixpoint fingerprints (l : list extent) : ST world (list (extent * pystr)) :=
  match l with
  | [] => mret []
  | x :: rest => here ← fingerprint x; others ← fingerprints rest; mret (here :: others)
  end.
(** [canonical_extents.sort(key=(sha256, size))] *)
Definition canonical_key (p : extent * pystr) : pystr * Z := (p.2, x_size p.1).
Definition canonical_order (l : list (extent * pystr)) : list (extent * pystr) :=
  py_sorted (λ p q, pair_leb str_leb Z.leb (canonical_key p) (canonical_key q)) l.

(** [_write_model_payload]: the canonical extents with their offsets and CRCs, and the record of
    the file; [publish] moves it to its path and [opened] reads it there. *)
Record payload_record := PayloadRecord { pr_bytes : Z; pr_sha256 : pystr }.
Definition canonical_jobs (canonical : list (extent * pystr)) : list extent_job :=
  (λ p : extent * pystr, Job (x_ptr p.1) (x_size p.1) (Some p.2)) <$> canonical.
Definition packed_extents (canonical : list (extent * pystr)) (crcs : list pystr) : list pack_extent :=
  zip_with (λ po crc, Packed po.1.1 po.1.2 po.2 crc) (zip canonical (job_offsets 0 (canonical_jobs canonical))) crcs.
Definition write_payload (publish : ST world unit) (opened : ST world blob_file) (model : list extent)
    : ST world (list pack_extent * payload_record * blob_file) :=
  hashed ← fingerprints model;
  let canonical := canonical_order hashed in
  let jobs := canonical_jobs canonical in
  '(crcs, digest) ← write_extent_blob publish opened jobs true false;
  b ← opened;
  let record := PayloadRecord (packed_job_bytes jobs) (lit "sha256:" ++ digest) in
  _ ← (if preverified s then lift (validate_payload (bf_bytes b) (pr_sha256 record) (pr_bytes record)) else mret tt);
  mret (packed_extents canonical crcs, record, b).
(** ... and with a residual record, the manifest of the pack. *)
Definition write_model_payload (model : list extent) (residual : list residual_extent) (stored_bytes : Z) (stored_stat : file_stat)
    (recovery : snapshot_manifest) (allocation_bytes : Z) : ST world payload_record :=
  '(packed, record, b) ← write_payload publish_payload open_payload model;
  _ ← st_raise_if (bool_decide (residual = [])) RuntimeError "native residual payload record is invalid";
  let model_bytes := zsum ((λ p, x_size (px_extent p)) <$> packed) in
  let residual_bytes := zsum (re_size <$> residual) in
  _ ← st_raise_if (negb (model_bytes + residual_bytes =? allocation_bytes)) RuntimeError "native model and residual ranges do not cover allocations";
  generation ← st_get (λ w, str_of_Z (own_pid s) ++ lit "-" ++ str_of_Z (time_ns (w_files w)));
  let manifest := NativeManifest (identity s) generation (own_pid s) (own_rank s) (own_worker s) (own_capture s)
    (pr_bytes record) (stat_identity b) stored_bytes stored_stat (Some RESIDUAL_LAYOUT_SHARED)
    allocation_bytes model_bytes residual_bytes packed residual
    (if preverified s then lit "preverified" else lit "inline") (preverified s) (mf_entries recovery) in
  _ ← on_pack (set_native (Some manifest));
  mret record.

(** ** The recovery manifest *)

Definition verify_mode_name : pystr := lit "model-revision+residual-" ++ (if preverified s then lit "preverified" else lit "inline").
Definition io_mode_name (direct : bool) : pystr := if direct then lit "padded-direct" else lit "padded-buffered".

(** What the partition of the pool gives a sleep: the extents of the model, the residual, and
    for an export those of the pack. *)
Record division := Division { dv_model : list extent; dv_residual : list extent; dv_native : list extent * list extent; dv_stored : list piece }.
Definition divide_pool (export : bool) (pool : list allocation) : res division :=
  let configured := model_weight_ranges (rc_bound c) in
  _ ← raise_if (bool_decide (configured = [])) RuntimeError "safetensors recovery has no captured model weight ranges";
  let layout := semantic_layout (rc_bound c) in
  _ ← raise_if (negb (set_eqb layout.*1 configured)) RuntimeError "safetensors recovery has no semantic model weight layout";
  '(model, residual) ← partition_semantic_weight_extents pool layout;
  native ← (if export then partition_semantic_weight_extents pool (native_layout (rc_bound c)) else mret (model, residual));
  stored ← shared_residual_extents (if export then [residual; native.2] else [residual]);
  mret (Division model residual native stored).

Definition recovery_manifest (generation : pystr) (source : model_identity) (entries : list snapshot_entry) (d : division)
    (residual : list residual_extent) (stored_bytes : Z) (stat : file_stat) : snapshot_manifest :=
  SnapshotManifest FORMAT KIND (identity s) generation (own_pid s) (own_rank s) (own_worker s) (own_capture s) BLOB_NAME stored_bytes stat
    (preverified s) WEIGHT_SOURCE_SAFETENSORS entries false
    (Some (RecoveryPart source true (zsum (e_size <$> entries)) (zsum (x_size <$> dv_model d)) (zsum (x_size <$> dv_residual d))
      (dv_model d) residual (Some RESIDUAL_LAYOUT_SHARED) (rc_direct c) (io_mode_name (rc_direct c)) verify_mode_name (lit "crc32"))).

(** [_write_recovery_manifest] *)
Definition export_pack (export : bool) (d : division) (placed : list (piece * residual_extent)) (stored_bytes : Z) (stat : file_stat)
    (m : snapshot_manifest) (allocation_bytes : Z) : ST world snapshot_manifest :=
  if export then
    _ ← write_model_payload (dv_native d).1 (view_extents placed 1) stored_bytes stat m allocation_bytes;
    m ← write_manifest m;
    _ ← on_pack set_exported;
    mret m
  else mret m.
Definition write_recovery_manifest : ST world snapshot_manifest :=
  exported ← st_get (λ w, pk_exported (w_pack w));
  let export := rc_capture_enabled c && negb exported in
  _ ← st_set (λ w, set_files None None (w_tmp w) (w_files w) w);
  _ ← (if export then on_pack (λ k, set_native None (set_payload None k)) else mret tt);
  l ← allocations PRESERVED_REGION;
  let allocated := sort_on al_pointer l in
  let entries := (λ a, Entry (al_pointer a) (al_size a) (al_tag a) None) <$> allocated in
  _ ← st_raise_if (bool_decide (entries = []) || existsb (λ e, e_size e <=? 0) entries) RuntimeError "safetensors recovery requires live weight allocations";
  d ← lift (divide_pool export (pool_allocation <$> allocated));
  let jobs := piece_job <$> dv_stored d in
  let stored_bytes := packed_job_bytes jobs in
  _ ← ensure_space s (stored_bytes + if export then packed_extent_bytes (dv_native d).1 else 0);
  '(crcs, _) ← write_extent_blob (publish_blob stamp) open_blob jobs false (preverified s);
  b ← open_blob;
  let placed := zip_with (λ po crc, place_piece po.1 po.2 crc) (zip (dv_stored d) (job_offsets 0 jobs)) crcs in
  let allocation_bytes := zsum (e_size <$> entries) in
  _ ← st_raise_if (negb (zsum (x_size <$> dv_model d) + zsum (x_size <$> dv_residual d) =? allocation_bytes))
      RuntimeError "model-weight and residual ranges do not cover allocations";
  generation ← st_get (λ w, str_of_Z (own_pid s) ++ lit "-" ++ str_of_Z (time_ns (w_files w)));
  source ← lift (rc_identity c);
  m ← write_manifest (recovery_manifest generation source entries d (view_extents placed 0) stored_bytes (stat_identity b));
  export_pack export d placed stored_bytes (stat_identity b) m allocation_bytes.

(** The ranges of a manifest that tile the allocations it lists. *)
Definition residual_as_extent (x : residual_extent) : extent := Ext (re_ptr x) (re_size x) (re_alloc x) None [].
Definition entry_allocation (e : snapshot_entry) : allocation := DiskLayout.Alloc (e_ptr e) (e_size e) (e_tag e).
Definition ranges_tile (entries : list snapshot_entry) (extents : list extent) : bool :=
  let pool := entry_allocation <$> entries in
  forallb (captured_extent_ok pool) extents && forallb (captured_covered extents) pool.

(** The recovery branch of [_load_manifest]. *)
Definition recovery_shape_ok (m : snapshot_manifest) (r : recovery_part) (actual : file_stat) : bool :=
  negb (bool_decide (rp_model r = [])) && negb (bool_decide (rp_residual r = []))
  && (0 <? mf_blob_bytes m) && (fs_bytes actual =? mf_blob_bytes m)
  && (rp_portable r || stat_matches (mf_blob_stat m) actual)
  && match rp_layout r with
     | None => negb (rp_direct_io r) && bool_decide (rp_io_mode r = lit "hybrid-residual-buffered")
     | Some layout => bool_decide (layout = RESIDUAL_LAYOUT_SHARED) && bool_decide (rp_io_mode r = io_mode_name (rp_direct_io r))
     end
  && negb (mf_reused m) && bool_decide (rp_verify_mode r = verify_mode_name) && bool_decide (rp_checksum r = lit "crc32")
  && eqb (mf_preverified m) (preverified s).
Definition recovery_entry_bad (e : snapshot_entry) : bool :=
  (e_size e <=? 0) || negb (bool_decide (e_tag e = PRESERVED_REGION)) || negb (bool_decide (e_place e = None)).
Definition recovery_ranges_ok (m : snapshot_manifest) (r : recovery_part) : res unit :=
  _ ← raise_if (negb (ranges_tile (mf_entries m) (rp_model r ++ (residual_as_extent <$> rp_residual r)))) ValueError "ranges";
  _ ← validate_residual_file_extents ((λ x, (re_offset x, re_size x, Some (re_crc x))) <$> rp_residual r) (mf_blob_bytes m) (rp_layout r);
  let model_bytes := zsum (x_size <$> rp_model r) in
  let residual_bytes := zsum (re_size <$> rp_residual r) in
  raise_if (negb (model_bytes =? rp_model_bytes r) || negb (residual_bytes =? rp_residual_bytes r)
            || (bool_decide (rp_layout r = None) && negb (residual_bytes =? mf_blob_bytes m))
            || negb (model_bytes + residual_bytes =? rp_allocation_bytes r)) ValueError "bytes".
Definition check_recovery_manifest (m : snapshot_manifest) : ST world snapshot_manifest :=
  b ← open_blob;
  r ← lift (of_option RuntimeError "safetensors recovery manifest is invalid" (mf_recovery m));
  _ ← st_raise_if (negb (recovery_shape_ok m r (stat_identity b))) RuntimeError "safetensors recovery manifest is invalid";
  source ← lift (rc_identity c);
  _ ← st_raise_if (negb (bool_decide (rp_model_source r = source))) RuntimeError "safetensors recovery manifest is invalid";
  l ← allocations PRESERVED_REGION;
  _ ← st_raise_if (negb (rp_allocation_bytes r =? zsum (al_size <$> l)) || negb (rp_allocation_bytes r =? zsum (e_size <$> mf_entries m))
                   || existsb recovery_entry_bad (mf_entries m)) RuntimeError "safetensors recovery manifest is invalid";
  _ ← lift (match recovery_ranges_ok m r with
            | Ok _ => Ok tt
            | Raise _ => Raise (Exn RuntimeError "safetensors recovery manifest byte ranges are invalid")
            end);
  mret m.

(** ** Restoring extents *)

(** The file extents of a restore: address, size, offset, CRC. *)
Notation file_extent := (Z * Z * Z * pystr)%type.
Definition residual_file_extent (x : residual_extent) : file_extent := (re_ptr x, re_size x, re_offset x, re_crc x).
Definition pack_file_extent (x : pack_extent) : file_extent := (x_ptr (px_extent x), x_size (px_extent x), px_offset x, px_crc x).
Definition hydration_extent (x : file_extent) : res HydrationExtent :=
  let '(ptr, size, offset, crc) := x in HydrationExtent_new (HExtent offset ptr size (Some crc) None).

(** One extent through the host stage. *)
Fixpoint restore_chunks (fuel : nat) (f : pybytes) (ptr size offset copied : Z) (crc : N) : ST world N :=
  match fuel with
  | O => mret crc
  | S fuel' =>
      if copied <? size then
        let count := Z.min (chunk_bytes s) (size - copied) in
        view ← lift (read_exact_at f (offset + copied) count);
        _ ← lift (validate_copy (chunk_bytes s) count);
        _ ← on_device (memcpy_from_host (ptr + copied) view);
        restore_chunks fuel' f ptr size offset (copied + count) (if preverified s then crc else crc32 view crc)
      else mret crc
  end.
Definition restore_file_extent (f : pybytes) (x : file_extent) : ST world unit :=
  let '(ptr, size, offset, expected) := x in
  crc ← restore_chunks (Z.to_nat size) f ptr size offset 0 0%N;
  st_raise_if (negb (preverified s) && negb (bool_decide (crc_hex crc = expected))) RuntimeError "extent checksum mismatch".

(** The native hydrator: verified direct reads take the aligned interiors and buffered reads
    the edges; otherwise one call. *)
Definition hydrate_extents (hydrate : pystr → pybytes → list HydrationExtent → D → res unit * D) (f : pybytes) (exact : list HydrationExtent)
    : ST world unit :=
  let backend := rc_hydration_backend c in
  if bool_decide (backend ∈ [lit "auto"; lit "direct"]) && preverified s then
    '(direct, buffered) ← lift (split_direct_hydration_extents exact 4096);
    _ ← (if decide (direct = []) then mret tt else on_device (hydrate (lit "direct") f direct));
    if decide (buffered = []) then mret tt else on_device (hydrate (lit "buffered") f buffered)
  else on_device (hydrate (if decide (backend = lit "direct") then lit "buffered" else backend) f exact).

(** [_restore_exact_extents] *)
Definition restore_exact_extents (opened : ST world blob_file) (l : list file_extent) : ST world unit :=
  exact ← lift (mapM hydration_extent l);
  b ← opened;
  match hydrator with
  | Some hydrate => hydrate_extents hydrate (bf_bytes b) exact
  | None => st_iter (restore_file_extent (bf_bytes b)) l
  end.

(** [_restore_recovery_residuals] and [_restore_from_model_source] *)
Definition restore_recovery_residuals (r : recovery_part) : ST world unit :=
  restore_exact_extents open_blob (residual_file_extent <$> rp_residual r).
Definition restore_from_model_source (m : snapshot_manifest) : ST world unit :=
  callback ← lift (of_option RuntimeError "safetensors recovery reached wake without the vLLM reload callback" reload);
  _ ← remap_weight_allocations m;
  r ← lift (of_option KeyError "model_weight_extents" (mf_recovery m));
  _ ← st_iter (λ x, fill_zero (x_ptr x) (x_size x)) (rp_model r);
  _ ← restore_recovery_residuals r;
  _ ← synchronize;
  _ ← on_device callback;
  _ ← synchronize;
  _ ← restore_recovery_residuals r;
  synchronize.

(** ** The source of a worker *)

(** The model source of [suspend] and [resume]; the materialization of a pack in the
    background is an argument. *)
Variable wait_materialization : ST world unit.
Variable start_materialization : snapshot_manifest → ST world unit.
Definition safetensors_source : model_source D G :=
  ModelSource true (rc_capture_enabled c) write_recovery_manifest check_recovery_manifest restore_from_model_source
    wait_materialization start_materialization.
End recovery.
