(* ===== verification/DiskRecoverySpec.v ===== *)
(** * Theorems about weights from a model source

    What a sleep stores of the pool is what the device held, at the offsets its manifest
    states; a wake gives every weight byte back when the reload gives back the model's; the
    file of a model pack depends only on the contents of the model's extents. *)

From S2P Require Import Prelude Ranges PyFloat PyJson Hash Memory MemorySpec Hydration DiskLayout DiskLayoutSpec DiskShared VllmMemory VllmMemorySpec.
From S2P Require Import Artifact DiskPipeline DiskPipelineSpec DiskSleep DiskSleepSpec DiskRecovery.

(** ** Padded files *)

(** The bytes of an extent in a packed file. *)
Definition padded (d : pybytes) : pybytes :=
  d ++ replicate (Z.to_nat (packed_align (Z.of_nat (length d)) - Z.of_nat (length d))) 0%N.
Lemma length_padded d : Z.of_nat (length (padded d)) = packed_align (Z.of_nat (length d)).
Proof. unfold padded. rewrite length_app, length_replicate. pose proof (packed_align_ge (Z.of_nat (length d))). lia. Qed.
Lemma packed_align_mult z : z mod 4096 = 0 → packed_align z = z.
Proof. unfold packed_align. lia. Qed.

(** ** Contents *)

(** The device holds [d] in an extent. *)
Definition extent_holds (v : Z → option N) (x : extent) (d : pybytes) : Prop := Z.of_nat (length d) = x_size x ∧ reads v (x_ptr x) d.
Lemma reads_unique v p a b : reads v p a → reads v p b → length a = length b → a = b.
Proof.
  intros Ha Hb Hl. apply list_eq_same_length with (length a); [done|done|]. intros i x y _ Hx%Ha Hy%Hb. congruence.
Qed.
Lemma holds_unique v x a b : extent_holds v x a → extent_holds v x b → a = b.
Proof. intros [] []. eapply reads_unique; [done..|lia]. Qed.

(** The order of a pack: by hash, then by size. *)
Definition content_key (d : pybytes) : pystr * Z := (hexdigest d, Z.of_nat (length d)).
Definition content_order (ds : list pybytes) : list pybytes :=
  py_sorted (λ a b, pair_leb str_leb Z.leb (content_key a) (content_key b)) ds.
(** No two contents share their hash. *)
Definition collision_free (ds : list pybytes) : Prop := ∀ a b, a ∈ ds → b ∈ ds → hexdigest a = hexdigest b → a = b.

Lemma keys_unique (ds l k : list pybytes) : collision_free ds → (∀ d, d ∈ l → d ∈ ds) → (∀ d, d ∈ k → d ∈ ds) → content_key <$> l = content_key <$> k → l = k.
Proof.
  intros Hc. revert k. induction l as [|a l IH]; intros [|b k] Hl Hk E; csimpl in E; try done. injection E as E1 E2 E. f_equal.
  - apply Hc; [apply Hl; left|apply Hk; left|done].
  - apply IH; [intros d Hd; apply Hl; by right|intros d Hd; apply Hk; by right|done].
Qed.
Lemma content_order_perm ds : content_order ds ≡ₚ ds.
Proof. apply py_sorted_perm. Qed.
Lemma content_order_keys ds : content_key <$> content_order ds = py_sorted (pair_leb str_leb Z.leb) (content_key <$> ds).
Proof. by apply py_sorted_fmap. Qed.
Lemma content_order_unique ds ds' : collision_free ds → ds ≡ₚ ds' → content_order ds = content_order ds'.
Proof.
  intros Hc Hp. apply (keys_unique ds); [done|intros d; by rewrite content_order_perm|intros d; by rewrite content_order_perm, Hp|].
  rewrite !content_order_keys. apply py_sorted_perm_eq; [apply _|by rewrite Hp].
Qed.

(** The extents in canonical order hold the contents in their order. *)
Lemma canonical_blocks v model ds blocks : collision_free ds → Forall2 (extent_holds v) model ds →
  Forall2 (λ p d, extent_holds v p.1 d ∧ hexdigest d = p.2) (canonical_order (zip_with (λ x d, (x, hexdigest d)) model ds)) blocks →
  blocks = content_order ds.
Proof.
  intros Hc Hm Hb. set (hashed := zip_with _ model ds) in Hb.
  assert (canonical_key <$> hashed = content_key <$> ds) as Hkeys.
  { unfold hashed. clear - Hm. induction Hm as [|x d l ds [Hl _] _ IH]; csimpl; [done|]. f_equal; [|done]. unfold canonical_key, content_key. cbn. by rewrite Hl. }
  apply (keys_unique ds); [done| |intros d; by rewrite content_order_perm|].
  - intros b Hin. destruct (Forall2_elem_r _ _ _ _ Hb Hin) as ([x h] & Hx & [Hh _]). unfold canonical_order in Hx. rewrite py_sorted_perm in Hx.
    unfold hashed in Hx. clear - Hm Hx Hh. induction Hm as [|y d l ds Hy _ IH]; csimpl in Hx; [by apply not_elem_of_nil in Hx|].
    apply elem_of_cons in Hx as [[= -> ->]|Hx]; [|right; by apply IH]. assert (b = d) as -> by (by eapply holds_unique). left.
  - rewrite content_order_keys, <- Hkeys.
    rewrite <- (py_sorted_fmap (λ p q, pair_leb str_leb Z.leb (canonical_key p) (canonical_key q)) _ canonical_key) by done. fold (canonical_order hashed).
    clear - Hb. induction Hb as [|[x h] d l blocks [[Hl _] Hh] _ IH]; csimpl; [done|]. rewrite IH. f_equal. unfold content_key, canonical_key. cbn in *. by rewrite Hh, Hl.
Qed.

(** ** Jobs *)

(** The device holds [d] at the address of a job. *)
Definition job_holds (v : Z → option N) (j : extent_job) (d : pybytes) : Prop :=
  Z.of_nat (length d) = j_size j ∧ reads v (j_ptr j) d.
Lemma jobs_hold_mono v v' l blocks : (∀ a, v' a = v a) → Forall2 (job_holds v') l blocks → Forall2 (job_holds v) l blocks.
Proof. intros Hv Hf. eapply Forall2_impl; [exact Hf|]. intros j d [Hl Hr]. split; [done|]. intros i x Hi. rewrite <- Hv. by apply Hr. Qed.
Lemma packed_blocks_length v l blocks : Forall2 (job_holds v) l blocks → Z.of_nat (length (concat (padded <$> blocks))) = packed_job_bytes l.
Proof.
  unfold packed_job_bytes. induction 1 as [|j d l blocks [Hl _] _ IH]; csimpl; [done|]. rewrite length_app, Nat2Z.inj_add, length_padded, IH. by rewrite Hl.
Qed.
(** Where the bytes of an extent lie in a packed file. *)
Lemma packed_lookup v l blocks : Forall2 (job_holds v) l blocks → Forall (λ j, 0 < j_size j) l → ∀ base i j o d, 0 <= base →
  l !! i = Some j → job_offsets base l !! i = Some o → blocks !! i = Some d →
  base <= o ∧ ∀ k, 0 <= k < j_size j → concat (padded <$> blocks) !! Z.to_nat (o - base + k) = d !! Z.to_nat k.
Proof.
  induction 1 as [|j' d' l blocks [Hl _] Hb IH]; intros Hs base i j o d Hbase Hj Ho Hd; [by rewrite lookup_nil in Hj|].
  apply Forall_cons in Hs as [Hj' Hs]. pose proof (length_padded d') as Hlp. pose proof (packed_align_ge (j_size j')) as Hge. rewrite Hl in Hlp.
  destruct i as [|i]; cbn in Hj, Ho, Hd.
  - simplify_eq. split; [lia|]. intros k Hk. csimpl. rewrite Z.sub_diag, Z.add_0_l. rewrite lookup_app_l by lia. unfold padded. rewrite lookup_app_l by lia. done.
  - destruct (IH Hs (base + packed_align (j_size j')) i j o d ltac:(lia) Hj Ho Hd) as [Hbo Hk]. split; [lia|]. intros k Hkr. csimpl.
    rewrite lookup_app_r by lia. rewrite <- Hk by done. f_equal. lia.
Qed.
(** The extents of a view lie in the file where the manifest says. *)
Lemma view_stored v stored blocks view : Forall (λ p, 0 < p_size p) stored → Forall2 (job_holds v) (piece_job <$> stored) blocks →
  ∀ x, x ∈ view_extents (zip_with (λ po crc, place_piece po.1 po.2 crc) (zip stored (job_offsets 0 (piece_job <$> stored)))
           ((λ d, crc_hex (crc32 d 0)) <$> blocks)) view →
  0 < re_size x ∧ 0 <= re_offset x ∧ ∀ k, 0 <= k < re_size x → v (re_ptr x + k) = concat (padded <$> blocks) !! Z.to_nat (re_offset x + k).
Proof.
  intros Hs Hb x Hx. unfold view_extents in Hx. apply list_elem_of_fmap in Hx as ([p y] & -> & [_ Hin]%list_elem_of_filter). cbn [snd].
  apply list_elem_of_lookup_1 in Hin as [i Hi]. rewrite lookup_zip_with_Some in Hi. destruct Hi as ([q o] & crc & [= -> ->] & Hq & Hcrc).
  rewrite lookup_zip_Some in Hq. destruct Hq as [Hq Ho]. rewrite list_lookup_fmap_Some in Hcrc. destruct Hcrc as (d & _ & Hd).
  assert ((piece_job <$> stored) !! i = Some (piece_job q)) as Hj by (by rewrite list_lookup_fmap, Hq).
  assert (Forall (λ j, 0 < j_size j) (piece_job <$> stored)) as Hs' by (by rewrite Forall_fmap).
  destruct (packed_lookup v _ _ Hb Hs' 0 i _ _ _ ltac:(lia) Hj Ho Hd) as [Ho0 Hk]. cbn [re_size re_offset re_ptr place_piece].
  split_and!; [by eapply Forall_lookup_1 in Hs|done|]. intros k Hkr. rewrite <- (Z.sub_0_r o), Hk by done.
  destruct (Forall2_lookup_lr _ _ _ _ _ _ Hb Hj Hd) as [Hl Hr]. cbn in Hl, Hr.
  assert (Z.to_nat k < length d)%nat as [z Hz]%lookup_lt_is_Some by lia. rewrite Hz. apply Hr in Hz. rewrite <- Hz. f_equal. lia.
Qed.

Section write.
Context {D G : Type} `{DeviceView D} `{GraphController G}.
Notation world := (world D G).
Variable transfer : Z → Z → Z.
Variable s : settings.
Hypothesis Hchunk : 0 < chunk_bytes s ∧ chunk_bytes s mod 4096 = 0.


Lemma unmoved_write_padded fuel ptr size off copied crc hashed whole :
  Runs unmoved (write_padded (G := G) transfer s fuel ptr size off copied crc hashed whole).
Proof.
  revert copied crc hashed whole. induction fuel as [|fuel IH]; intros; cbn [write_padded]; [auto with runs|].
  destruct (_ <? _); [|auto with runs]. cbv zeta. runs_step; [apply unmoved_copy|]. runs_step; [apply unmoved_write_tmp|]. apply IH.
Qed.

(** The padding behind what is left of an extent. *)
Definition pad_after (copied size : Z) : pybytes := if copied <? size then replicate (Z.to_nat (packed_align size - size)) 0%N else [].
Lemma pad_after_end size : pad_after size size = [].
Proof. unfold pad_after. by rewrite Z.ltb_irrefl. Qed.

Lemma write_padded_ok ptr size off : ∀ fuel copied crc hashed whole (w w' : world) f crc' hashed' whole', w_tmp w = Some f →
  0 <= copied <= size → copied mod 4096 = 0 ∨ copied = size → size - copied <= Z.of_nat fuel → 0 <= off →
  off + packed_align size <= Z.of_nat (length f) →
  write_padded transfer s fuel ptr size off copied crc hashed whole w = (Ok (crc', hashed', whole'), w') →
  ∃ data, Z.of_nat (length data) = size - copied ∧ reads (byte w) (ptr + copied) data ∧ crc' = crc32 data crc ∧ hashed' = hashed ++ data
    ∧ whole' = whole ++ data ++ pad_after copied size
    ∧ w_tmp w' = Some (pwrite f (Z.to_nat (off + copied)) (data ++ pad_after copied size)).
Proof.
  destruct Hchunk as [Hc Hm]. pose proof (packed_align_ge size) as Hpa.
  assert (∀ crc (hashed whole : pybytes) (w : world) f, w_tmp w = Some f → 0 <= off + size <= Z.of_nat (length f) →
    ∃ data, Z.of_nat (length data) = size - size ∧ reads (byte w) (ptr + size) data ∧ crc = crc32 data crc ∧ hashed = hashed ++ data
      ∧ whole = whole ++ data ++ pad_after size size ∧ w_tmp w = Some (pwrite f (Z.to_nat (off + size)) (data ++ pad_after size size))) as Hdone.
  { intros crc hashed whole w f Ht Hl. exists []. rewrite pad_after_end, crc32_nil, !app_nil_r, pwrite_nil by lia. split_and!; [cbn; lia|by intros i x Hx|done..]. }
  induction fuel as [|fuel IH]; intros copied crc hashed whole w w' f crc' hashed' whole' Ht Hco Hal Hf Ho Hl E; cbn [write_padded] in E.
  { assert (copied = size) as -> by lia. st_inv. simplify_eq. apply Hdone; (done || lia). }
  destruct (Z.ltb_spec copied size) as [Hlt|]; [|assert (copied = size) as -> by lia; st_inv; simplify_eq; apply Hdone; (done || lia)].
  assert (copied mod 4096 = 0) as Hcm by lia. unfold pad_after at 1 2. rewrite (proj2 (Z.ltb_lt _ _) Hlt).
  cbv zeta in E. set (count := Z.min (chunk_bytes s) (size - copied)) in *. st_inv.
  match goal with E : copy_to_host _ _ _ _ = (Ok ?b, _) |- _ => apply copy_to_host_ok in E as (Hn & Hb & Hr & Ht1 & Hu1); rename b into part end.
  assert (copied + packed_align count <= packed_align size) as Hfit by (unfold packed_align; lia).
  match goal with E : write_tmp _ _ _ _ = (Ok ?u, _) |- _ => destruct u; eapply write_tmp_ok in E as [Ht2 Hu2]; [|rewrite Ht1; exact Ht|lia..] end.
  set (pad1 := replicate _ 0%N) in *.
  assert (Z.of_nat (length (part ++ pad1)) = packed_align count) as Hpart.
  { unfold pad1. rewrite length_app, length_replicate. pose proof (packed_align_ge count). lia. }
  destruct (IH (copied + count) (crc32 part crc) (hashed ++ part) (whole ++ part ++ pad1) _ _ _ _ _ _ Ht2 ltac:(lia) ltac:(lia) ltac:(lia) Ho
    ltac:(rewrite length_pwrite; lia) E) as (data & Hd & Hrd & -> & -> & -> & Ht').
  exists (part ++ data).
  assert (reads (byte w) (ptr + copied) (part ++ data)) as Hreads.
  { apply reads_app; [done|]. eapply unmoved_reads; [exact Hu1|]. eapply unmoved_reads; [exact Hu2|]. by rewrite Hb, <- Z.add_assoc. }
  assert (part ++ pad1 ++ data ++ pad_after (copied + count) size = (part ++ data) ++ replicate (Z.to_nat (packed_align size - size)) 0%N) as Hjoin.
  { destruct (Z.eq_dec (copied + count) size) as [Hend|Hmore].
    - rewrite Hend, pad_after_end in *. assert (data = []) as -> by (apply nil_length_inv; lia). rewrite !app_nil_r. f_equal. unfold pad1. f_equal.
      unfold packed_align. lia.
    - assert (pad1 = []) as ->; [|unfold pad_after; rewrite (proj2 (Z.ltb_lt _ _)) by lia; by rewrite <- app_assoc].
      unfold pad1. rewrite (packed_align_mult count) by lia. by rewrite Z.sub_diag. }
  rewrite length_app, crc32_app, <- !app_assoc. split_and!; [lia|done|done|done|by rewrite Hjoin, <- app_assoc|].
  rewrite Ht'. f_equal. rewrite <- app_assoc in Hjoin. rewrite <- Hjoin, (app_assoc part). 
  replace (Z.to_nat (off + (copied + count))) with (Z.to_nat (off + copied) + length part)%nat by lia.
  destruct (Z.eq_dec (copied + count) size) as [Hend|Hmore].
  - rewrite Hend, pad_after_end in *. assert (data = []) as -> by (apply nil_length_inv; lia). rewrite !app_nil_r.
    rewrite pwrite_nil; [done|]. rewrite length_pwrite; lia.
  - assert (pad1 = []) as ->; [|by rewrite !app_nil_r, pwrite_pwrite by lia].
    unfold pad1. rewrite (packed_align_mult count) by lia. by rewrite Z.sub_diag.
Qed.

Lemma unmoved_write_jobs l off whole : Runs unmoved (write_jobs (G := G) transfer s l off whole).
Proof.
  revert off whole. induction l as [|j l IH]; intros; cbn [write_jobs]; [auto with runs|].
  apply (worker_runs_bind unmoved); [apply unmoved_write_padded|]. intros [[crc hashed] whole1]. runs_step; [auto with runs|].
  apply (worker_runs_bind unmoved); [apply IH|]. intros [crcs whole2]. auto with runs.
Qed.


(** Every extent is written padded behind the ones before it; a stated hash is that of the
    bytes read. *)
Lemma write_jobs_ok l : ∀ off whole (w w' : world) f crcs whole', w_tmp w = Some f → Forall (λ j, 0 < j_size j) l → 0 <= off →
  off + packed_job_bytes l <= Z.of_nat (length f) → write_jobs transfer s l off whole w = (Ok (crcs, whole'), w') →
  ∃ blocks, Forall2 (job_holds (byte w)) l blocks ∧ crcs = (λ d, crc_hex (crc32 d 0)) <$> blocks
    ∧ whole' = whole ++ concat (padded <$> blocks) ∧ w_tmp w' = Some (pwrite f (Z.to_nat off) (concat (padded <$> blocks)))
    ∧ Forall2 (λ j d, ∀ sha, j_sha256 j = Some sha → hexdigest d = sha) l blocks.
Proof.
  induction l as [|j l IH]; intros off whole w w' f crcs whole' Ht Hs Ho Hl E; cbn [write_jobs] in E.
  { st_inv. simplify_eq. exists []. cbn. rewrite app_nil_r, pwrite_nil by (cbn in Hl; lia). by split_and!. }
  apply Forall_cons in Hs as [Hj Hs]. unfold packed_job_bytes in Hl. csimpl in Hl. fold (packed_job_bytes l) in Hl.
  assert (0 <= packed_job_bytes l) as Hp0.
  { clear - Hs. unfold packed_job_bytes. induction Hs as [|x l Hx _ IH]; csimpl; [lia|]. pose proof (packed_align_ge (j_size x)). lia. }
  apply st_bind_Ok in E as ([[crc hashed] whole1] & w1 & E1 & E). st_inv.
  match goal with E : write_jobs _ _ l _ _ _ = (Ok ?x, _) |- _ => rename E into E2; destruct x as [crcs2 whole2] end. st_inv. simplify_eq.
  pose proof (unmoved_write_padded _ _ _ _ _ _ _ _ _ _ _ E1) as Hu.
  destruct (write_padded_ok (j_ptr j) (j_size j) off (Z.to_nat (j_size j)) 0 0%N [] whole _ _ _ _ _ _ Ht ltac:(lia) ltac:(by left) ltac:(lia) Ho ltac:(lia) E1)
    as (d & Hd & Hr & -> & -> & -> & Ht1).
  rewrite Z.sub_0_r, Z.add_0_r in *. unfold pad_after in *. rewrite (proj2 (Z.ltb_lt 0 (j_size j)) Hj) in *.
  assert (d ++ replicate (Z.to_nat (packed_align (j_size j) - j_size j)) 0%N = padded d) as Epad by (unfold padded; by rewrite Hd).
  rewrite Epad in *. pose proof (length_padded d) as Hlp. rewrite Hd in Hlp.
  destruct (IH (off + packed_align (j_size j)) _ _ _ _ _ _ Ht1 Hs ltac:(pose proof (packed_align_ge (j_size j)); lia) ltac:(rewrite length_pwrite; lia) E2)
    as (blocks & Hb & -> & -> & Ht2 & Hsha).
  exists (d :: blocks). csimpl. split_and!; [|done|by rewrite <- app_assoc| |].
  - constructor; [by split|]. eapply jobs_hold_mono; [|exact Hb]. apply (um_bytes _ _ Hu).
  - rewrite Ht2. f_equal. replace (Z.to_nat (off + packed_align (j_size j))) with (Z.to_nat off + length (padded d))%nat by lia.
    apply pwrite_pwrite. lia.
  - constructor; [|done]. intros sha Esha. match goal with Hg : match j_sha256 j with _ => _ end = false |- _ => rewrite Esha in Hg; guards end. done.
Qed.


Lemma write_jobs_python_ok l (w w' : world) crcs digest : Forall (λ j, 0 < j_size j) l →
  write_jobs_python transfer s l w = (Ok (crcs, digest), w') →
  ∃ blocks, Forall2 (job_holds (byte w)) l blocks ∧ crcs = (λ d, crc_hex (crc32 d 0)) <$> blocks
    ∧ digest = hexdigest (concat (padded <$> blocks)) ∧ w_tmp w' = Some (concat (padded <$> blocks))
    ∧ Forall2 (λ j d, ∀ sha, j_sha256 j = Some sha → hexdigest d = sha) l blocks.
Proof.
  intros Hs E. unfold write_jobs_python, preallocate in E. st_inv.
  match goal with E : write_jobs _ _ l _ _ _ = (Ok ?x, _) |- _ => rename E into E2; destruct x as [crcs2 whole2] end. st_inv. simplify_eq.
  match goal with E : (packed_job_bytes l <=? 0) = false |- _ => apply Z.leb_gt in E; rename E into Hpos end.
  set (w0 := set_tmp _ (set_tmp _ w)) in E2.
  destruct (write_jobs_ok l 0 [] w0 _ (replicate (Z.to_nat (packed_job_bytes l)) 0%N) _ _ eq_refl Hs ltac:(lia) ltac:(rewrite length_replicate; lia) E2)
    as (blocks & Hb & -> & -> & Ht & Hsha).
  exists blocks. split_and!; try done. rewrite Ht. f_equal. pose proof (packed_blocks_length _ _ _ Hb). unfold pwrite. cbn [take].
  rewrite drop_ge by (rewrite length_replicate; lia). rewrite app_nil_r. cbn. by rewrite Nat.sub_0_l.
Qed.


(** ** Runs that leave the snapshot in place *)

Definition files_kept (w w' : world) : Prop := w_blob w' = w_blob w ∧ w_manifest w' = w_manifest w.
#[global] Instance files_kept_preorder : PreOrder files_kept.
Proof. split; [done|]. intros w1 w2 w3 [] []. split; congruence. Qed.
(** Both relations. *)
Definition scratch (w w' : world) : Prop := unmoved w w' ∧ files_kept w w'.
#[global] Instance scratch_preorder : PreOrder scratch.
Proof. split; [by split; split|]. intros w1 w2 w3 [] []. split; by etrans. Qed.

(** ... and the model objects. *)
Definition still (w w' : world) : Prop := unmoved w w' ∧ files_kept w w' ∧ w_pack w' = w_pack w.
#[global] Instance still_preorder : PreOrder still.
Proof. split; [by split; split|]. intros w1 w2 w3 (? & ? & ?) (? & ? & ?). split_and!; [by etrans..|congruence]. Qed.
Lemma still_scratch w w' : still w w' → scratch w w'.
Proof. by intros (? & ? & _). Qed.
Lemma scratch_pack (f : world → model_pack) : Runs scratch (st_set (λ w, set_pack (f w) w)).
Proof. by apply runs_set. Qed.
Lemma still_device {A} (op : D → res A * D) : (∀ d r d' a, op d = (r, d') → view d' a = view d a) → Runs still (on_device (G := G) op).
Proof.
  intros Hop w r w' E. split; [by eapply unmoved_device|]. unfold on_device in E. destruct (op (w_device w)). by injection E as <- <-.
Qed.
Lemma still_copy c p n : Runs still (copy_to_host (G := G) c p n).
Proof. unfold copy_to_host. runs_step; [auto with runs|]. apply still_device. intros. by eapply view_read. Qed.
Lemma still_tmp t : Runs still (st_set (set_tmp (D := D) (G := G) t)).
Proof. by apply runs_set. Qed.
Lemma still_write_tmp b off : Runs still (write_tmp (D := D) (G := G) transfer b off).
Proof. intros w r w' E. unfold write_tmp in E. destruct (w_tmp w); [destruct (write_all_at _ _ _ _ _ _)|]; by injection E as <- <-. Qed.
#[local] Hint Resolve still_copy still_tmp still_write_tmp : runs.
Lemma still_write_padded fuel ptr size off copied crc hashed whole :
  Runs still (write_padded (G := G) transfer s fuel ptr size off copied crc hashed whole).
Proof.
  revert copied crc hashed whole. induction fuel as [|fuel IH]; intros; cbn [write_padded]; [auto with runs|].
  destruct (_ <? _); [|auto with runs]. cbv zeta. auto with runs.
Qed.
Lemma still_write_jobs l off whole : Runs still (write_jobs (G := G) transfer s l off whole).
Proof.
  revert off whole. induction l as [|j l IH]; intros; cbn [write_jobs]; [auto with runs|].
  apply (worker_runs_bind still); [apply still_write_padded|]. intros [[crc hashed] whole1]. runs_step; [auto with runs|].
  apply (worker_runs_bind still); [apply IH|]. intros [crcs whole2]. auto with runs.
Qed.
Lemma still_write_jobs_python l : Runs still (write_jobs_python (G := G) transfer s l).
Proof.
  unfold write_jobs_python, preallocate. runs_step; [auto with runs|]. runs_step; [auto with runs|].
  apply (worker_runs_bind still); [apply still_write_jobs|]. intros [crcs whole]. auto with runs.
Qed.

(** ** An extent file *)

Notation write_extent_blob := (write_extent_blob (G := G) transfer None s).

(** A relation that the file's publication respects holds of the whole. *)
Lemma extent_blob_runs (R : world → world → Prop) `{!PreOrder R} publish opened l sha verify : (∀ w w', still w w' → R w w') →
  Runs R publish → (∀ w, (opened w).2 = w) → Runs R (write_extent_blob publish opened l sha verify).
Proof.
  intros HR Hp Ho. assert (∀ {A} (m : ST world A), Runs still m → Runs R m) as Hs by (intros A m Hm w r w' E; apply HR; by eapply Hm).
  unfold DiskRecovery.write_extent_blob. cbv zeta. runs_step; [auto with runs|]. runs_step; [apply Hs, still_tmp|].
  apply (runs_on_error R); [|intros w; apply HR; by split; split].
  apply (worker_runs_bind R); [apply Hs, still_write_jobs_python|]. intros [crcs digest]. runs_step; [done|].
  runs_step; [|auto with runs]. destruct (_ && _); [|auto with runs]. unfold verify_file. runs_step; [by apply runs_pure|]. auto with runs.
Qed.

Lemma extent_blob_ok publish opened l sha verify (w w' : world) crcs digest : Forall (λ j, 0 < j_size j) l → (∀ w, (opened w).2 = w) →
  write_extent_blob publish opened l sha verify w = (Ok (crcs, digest), w') →
  ∃ blocks w1, still w w1 ∧ publish w1 = (Ok tt, w') ∧ w_tmp w1 = Some (concat (padded <$> blocks))
    ∧ Forall2 (job_holds (byte w)) l blocks ∧ crcs = (λ d, crc_hex (crc32 d 0)) <$> blocks ∧ digest = hexdigest (concat (padded <$> blocks))
    ∧ Forall2 (λ j d, ∀ h, j_sha256 j = Some h → hexdigest d = h) l blocks.
Proof.
  intros Hs Ho E. unfold DiskRecovery.write_extent_blob in E. cbv zeta in E. st_inv. apply st_on_error_Ok in E.
  apply st_bind_Ok in E as ([crcs1 digest1] & w1 & E1 & E). st_inv.
  match goal with Hv : (if _ then _ else _) ?x = (Ok _, ?y) |- _ => assert (y = x) as -> end.
  { destruct (_ && _); st_inv; [|done]. unfold verify_file in *. st_inv. match goal with Hx : opened ?x = (_, ?y) |- _ => pose proof (Ho x) as Hy; rewrite Hx in Hy; done end. }
  destruct (write_jobs_python_ok l _ _ _ _ Hs E1) as (blocks & Hb & -> & -> & Ht & Hsha). simplify_eq.
  match goal with Hp : publish w1 = (Ok ?u, _) |- _ => destruct u end.
  exists blocks, w1. split_and!; try done.
  etrans; [|by eapply still_write_jobs_python]. by split; split.
Qed.

End write.

(** ** The pack *)

Section fingerprints.
Context {D G : Type} `{DeviceView D} `{GraphController G} (s : settings).
Notation world := (world D G).
#[local] Hint Resolve still_copy : runs.


Lemma still_read_device fuel ptr size copied hashed : Runs still (read_device (G := G) s fuel ptr size copied hashed).
Proof.
  revert copied hashed. induction fuel as [|fuel IH]; intros; cbn [read_device]; [auto with runs|].
  destruct (_ <? _); [|auto with runs]. cbv zeta. auto with runs.
Qed.
Lemma still_fingerprints l : Runs still (fingerprints (G := G) s l).
Proof.
  induction l as [|x l IH]; cbn [fingerprints]; [auto with runs|]. runs_step; [|runs_step; auto with runs].
  unfold fingerprint. runs_step; [apply still_read_device|auto with runs].
Qed.

Lemma read_device_ok ptr size : ∀ fuel copied hashed (w w' : world) data, 0 <= copied <= size → size - copied <= Z.of_nat fuel →
  read_device s fuel ptr size copied hashed w = (Ok data, w') →
  ∃ d, Z.of_nat (length d) = size - copied ∧ reads (byte w) (ptr + copied) d ∧ data = hashed ++ d.
Proof.
  induction fuel as [|fuel IH]; intros copied hashed w w' data Hc Hf E; cbn [read_device] in E.
  { st_inv. exists []. rewrite app_nil_r. split_and!; [cbn; lia|by intros i x Hx|done]. }
  destruct (Z.ltb_spec copied size) as [Hlt|]; [|st_inv; exists []; rewrite app_nil_r; split_and!; [cbn; lia|by intros i x Hx|done]].
  cbv zeta in E. set (count := Z.min (chunk_bytes s) (size - copied)) in *. st_inv.
  match goal with E : copy_to_host _ _ _ _ = (Ok ?b, _) |- _ => apply copy_to_host_ok in E as (Hn & Hb & Hr & _ & Hu); rename b into part end.
  destruct (IH (copied + count) (hashed ++ part) _ _ _ ltac:(lia) ltac:(lia) E) as (d & Hd & Hrd & ->). exists (part ++ d).
  rewrite length_app, app_assoc. split_and!; [lia| |done]. apply reads_app; [done|]. eapply unmoved_reads; [exact Hu|]. by rewrite Hb, <- Z.add_assoc.
Qed.

Lemma fingerprints_ok l : ∀ (w w' : world) hashed, Forall (λ x, 0 < x_size x) l → fingerprints s l w = (Ok hashed, w') →
  ∃ ds, Forall2 (extent_holds (byte w)) l ds ∧ hashed = zip_with (λ x d, (x, hexdigest d)) l ds.
Proof.
  induction l as [|x l IH]; intros w w' hashed Hs E; cbn [fingerprints] in E; st_inv; [by exists []|].
  apply Forall_cons in Hs as [Hx Hs]. unfold fingerprint in *. st_inv.
  match goal with Hr : read_device _ _ _ _ _ _ _ = (Ok _, ?w1) |- _ => pose proof (still_read_device _ _ _ _ _ _ _ _ Hr) as [Hu _];
    apply read_device_ok in Hr as (d & Hd & Hrd & ->); [|lia..] end.
  match goal with Hf : fingerprints _ _ _ = _ |- _ => apply IH in Hf as (ds & Hds & ->); [|done] end.
  exists (d :: ds). split; [|done]. constructor; [split; [lia|by rewrite Z.add_0_r in Hrd]|].
  eapply Forall2_impl; [exact Hds|]. intros y e [Hl Hr]. split; [done|]. by eapply unmoved_reads.
Qed.

End fingerprints.

Lemma weights_pool {D G} (w : world D G) l : weights w l → NoDup (al_pointer <$> l) → NoDup (a_pointer <$> (pool_allocation <$> sort_on al_pointer l))
  ∧ Forall (λ a, 0 <= a_size a) (pool_allocation <$> sort_on al_pointer l).
Proof.
  intros Hw HN. split; [rewrite <- list_fmap_compose, py_sorted_perm; exact HN|]. rewrite Forall_fmap, py_sorted_perm.
  eapply Forall_impl; [by eapply weights_positive|]. cbn. lia.
Qed.

(** ** What a sleep writes *)

Section sleep.
Context {D G : Type} `{DeviceView D} `{GraphController G}.
Notation world := (world D G).
Variables (transfer : Z → Z → Z) (stamp : nat → Z * Z * Z * Z) (time_ns : nat → Z).
Variable validate_payload : pybytes → pystr → Z → res unit.
Variables (c : recovery_config) (s : settings).
Hypothesis Hchunk : 0 < chunk_bytes s ∧ chunk_bytes s mod 4096 = 0.
Notation write_model_payload := (write_model_payload (G := G) transfer stamp time_ns None validate_payload s).
Notation write_recovery_manifest := (write_recovery_manifest (G := G) transfer stamp time_ns None validate_payload c s).

Lemma open_payload_pure (w : world) : (open_payload w).2 = w.
Proof. done. Qed.
Lemma scratch_publish_payload : Runs scratch (publish_payload (D := D) (G := G) stamp).
Proof. apply runs_set. intros w. destruct (stamp (w_files w)) as [[[? ?] ?] ?]. by split; split. Qed.

(** Where a payload file goes: publishing it moves no memory, and it is read back there. *)
Definition payload_slot (publish : ST world unit) (opened : ST world blob_file) : Prop :=
  Runs scratch publish ∧ (∀ w, (opened w).2 = w)
  ∧ ∀ w w' f b w2, w_tmp w = Some f → publish w = (Ok tt, w') → opened w' = (Ok b, w2) → bf_bytes b = f.
Lemma pack_slot : payload_slot (publish_payload stamp) open_payload.
Proof.
  split_and!; [apply scratch_publish_payload|done|]. intros w w' f b w2 Ht Hp Ho. unfold publish_payload in Hp. apply st_set_Ok in Hp.
  destruct (stamp (w_files w)) as [[[dv ino] mt] ct]. subst w'. injection Ho as Ho _. apply of_option_Ok in Ho. cbn in Ho. rewrite Ht in Ho. by injection Ho as <-.
Qed.

Notation write_payload := (write_payload (G := G) transfer None validate_payload s).
Lemma payload_runs (R : world → world → Prop) `{!PreOrder R} publish opened model : (∀ w w', still w w' → R w w') → Runs R publish →
  (∀ w, (opened w).2 = w) → Runs R (write_payload publish opened model).
Proof.
  intros HR Hp Ho. unfold DiskRecovery.write_payload. runs_step; [intros w r w' E; apply HR; by eapply still_fingerprints|]. cbv zeta.
  apply (worker_runs_bind R); [by apply (extent_blob_runs _ _ R)|]. intros [crcs digest].
  runs_step; [by apply (runs_pure R)|]. runs_step; [destruct (preverified s); auto with runs|auto with runs].
Qed.
Lemma scratch_payload publish opened model : payload_slot publish opened → Runs scratch (write_payload publish opened model).
Proof. intros (Hp & Ho & _). apply payload_runs; [apply _|apply still_scratch|done..]. Qed.
Lemma scratch_model_payload model residual n st m a : Runs scratch (write_model_payload model residual n st m a).
Proof.
  unfold DiskRecovery.write_model_payload. apply (worker_runs_bind scratch); [apply scratch_payload, pack_slot|]. intros [[packed record] b]. cbv zeta.
  do 3 (runs_step; [auto with runs|]). runs_step; [apply scratch_pack|auto with runs].
Qed.

(** What a payload file holds: the contents of the extents in canonical order, each where its
    entry says; the record has the length and the hash of the file. *)
Lemma canonical_positive (model : list extent) (ds : list pybytes) : Forall (λ x, 0 < x_size x) model →
  Forall (λ j, 0 < j_size j) (canonical_jobs (canonical_order (zip_with (λ x d, (x, hexdigest d)) model ds))).
Proof.
  intros Hs. unfold canonical_jobs. rewrite Forall_fmap. unfold canonical_order. rewrite py_sorted_perm.
  revert ds. induction Hs as [|x l Hx _ IH]; intros [|d ds]; csimpl; try constructor; [done|apply IH].
Qed.
Lemma payload_written publish opened model (w w' : world) packed record b : payload_slot publish opened → Forall (λ x, 0 < x_size x) model →
  write_payload publish opened model w = (Ok (packed, record, b), w') →
  ∃ ds blocks, Forall2 (extent_holds (byte w)) model ds
    ∧ Forall2 (λ p d, extent_holds (byte w) p.1 d ∧ hexdigest d = p.2) (canonical_order (zip_with (λ x d, (x, hexdigest d)) model ds)) blocks
    ∧ packed = packed_extents (canonical_order (zip_with (λ x d, (x, hexdigest d)) model ds)) ((λ d, crc_hex (crc32 d 0)) <$> blocks)
    ∧ bf_bytes b = concat (padded <$> blocks)
    ∧ record = PayloadRecord (Z.of_nat (length (bf_bytes b))) (lit "sha256:" ++ hexdigest (bf_bytes b))
    ∧ opened w' = (Ok b, w') ∧ (preverified s = true → validate_payload (bf_bytes b) (pr_sha256 record) (pr_bytes record) = Ok tt).
Proof.
  intros (Hp & Ho & Hslot) Hs E. unfold DiskRecovery.write_payload in E. apply st_bind_Ok in E as (hashed & w1 & Ef & E). cbv zeta in E.
  pose proof (still_fingerprints _ _ _ _ _ Ef) as [Hu _]. apply fingerprints_ok in Ef as (ds & Hds & ->); [|done].
  set (canonical := canonical_order _) in *. apply st_bind_Ok in E as ([crcs digest] & w2 & Eb & E).
  apply (extent_blob_ok _ _ Hchunk) in Eb as (blocks & w3 & _ & Hpub & Ht & Hb & -> & -> & Hsha); [|by apply canonical_positive|done].
  apply st_bind_Ok in E as (b1 & w4 & Eo & E). pose proof (Ho w2) as Hw4. rewrite Eo in Hw4. cbn in Hw4. subst w4.
  pose proof (Hslot _ _ _ _ _ Ht Hpub Eo) as Hbytes. apply st_bind_Ok in E as ([] & w5 & Ev & E).
  assert (w5 = w2 ∧ (preverified s = true → validate_payload (bf_bytes b1) (lit "sha256:" ++ hexdigest (concat (padded <$> blocks))) (packed_job_bytes (canonical_jobs canonical)) = Ok tt)) as [-> Hval].
  { destruct (preverified s); st_inv; [|done]. split; [done|]. intros _. by repeat match goal with x : unit |- _ => destruct x end. }
  st_inv. simplify_eq. exists ds, blocks.
  assert (Forall2 (λ p d, extent_holds (byte w) p.1 d ∧ hexdigest d = p.2) canonical blocks) as Hblocks.
  { unfold canonical_jobs in Hb, Hsha. clearbody canonical. clear - Hb Hsha Hu.
    rewrite Forall2_fmap_l in Hb, Hsha. revert Hsha. induction Hb as [|[x h] d l bl [Hl Hr] _ IH]; intros Hsha; [constructor|].
    inversion Hsha as [|? ? ? ? Hh Hsha']; subst. constructor; [|by apply IH]. split; [|by apply Hh]. split; [done|]. by eapply unmoved_reads. }
  split_and!; try done. by rewrite Hbytes, (packed_blocks_length _ _ _ Hb).
Qed.

Lemma contents_unique v model ds ds' : Forall2 (extent_holds v) model ds → Forall2 (extent_holds v) model ds' → ds = ds'.
Proof.
  intros Hd. revert ds'. induction Hd as [|x d l ds Hx _ IH]; intros ds' Hd'; inversion Hd' as [|? d' ? ? Hx' Hl]; subst; [done|].
  f_equal; [by eapply holds_unique|by apply IH].
Qed.
(** Without collisions the file is the contents in the order of their hashes. *)
Lemma payload_contents publish opened model (w w' : world) packed record b ds : payload_slot publish opened → Forall (λ x, 0 < x_size x) model →
  Forall2 (extent_holds (byte w)) model ds → collision_free ds →
  write_payload publish opened model w = (Ok (packed, record, b), w') → bf_bytes b = concat (padded <$> content_order ds).
Proof.
  intros Hslot Hs Hds Hc E. destruct (payload_written _ _ _ _ _ _ _ _ Hslot Hs E) as (ds' & blocks & Hds' & Hb & _ & -> & _).
  assert (ds' = ds) as -> by (by eapply contents_unique). by rewrite (canonical_blocks _ _ _ _ Hc Hds Hb).
Qed.
Lemma model_payload_run model residual n st m a (w w' : world) record : write_model_payload model residual n st m a w = (Ok record, w') →
  ∃ packed b w1 nm, write_payload (publish_payload stamp) open_payload model w = (Ok (packed, record, b), w1)
    ∧ pk_payload (w_pack w') = pk_payload (w_pack w1) ∧ pk_manifest (w_pack w') = Some nm ∧ nm_model nm = packed ∧ nm_residual nm = residual
    ∧ nm_blob_bytes nm = pr_bytes record ∧ nm_residual_blob_bytes nm = n ∧ nm_entries nm = mf_entries m
    ∧ nm_layout nm = Some RESIDUAL_LAYOUT_SHARED ∧ w_blob w' = w_blob w1.
Proof.
  unfold DiskRecovery.write_model_payload. intros E. apply st_bind_Ok in E as ([[packed record'] b] & w1 & E1 & E). cbv zeta in E. st_inv.
  match goal with Hp : on_pack _ _ = _ |- _ => unfold on_pack in Hp; apply st_set_Ok in Hp end. subst.
  simplify_eq. eexists packed, b, w1, _. by split_and!.
Qed.

Lemma model_payload_ok model residual n st m a (w w' : world) ds record : Forall (λ x, 0 < x_size x) model →
  Forall2 (extent_holds (byte w)) model ds → collision_free ds → write_model_payload model residual n st m a w = (Ok record, w') →
  ∃ b, pk_payload (w_pack w') = Some b ∧ bf_bytes b = concat (padded <$> content_order ds)
    ∧ record = PayloadRecord (Z.of_nat (length (bf_bytes b))) (lit "sha256:" ++ hexdigest (bf_bytes b)).
Proof.
  intros Hs Hds Hc E. destruct (model_payload_run _ _ _ _ _ _ _ _ _ E) as (packed & b & w1 & nm & Ew & Hpk & _).
  pose proof (payload_contents _ _ _ _ _ _ _ _ _ pack_slot Hs Hds Hc Ew) as Hb.
  destruct (payload_written _ _ _ _ _ _ _ _ pack_slot Hs Ew) as (_ & _ & _ & _ & _ & _ & Hr & Ho & _).
  exists b. split_and!; [|done..]. injection Ho as Ho. apply of_option_Ok in Ho. unfold payload_file in Ho. congruence.
Qed.

Lemma unmoved_scratch {A} (m : ST world A) : Runs scratch m → Runs unmoved m.
Proof. intros Hm w r w' E. by eapply Hm. Qed.
Lemma open_blob_pure (w : world) : (open_blob w).2 = w.
Proof. done. Qed.

Lemma unmoved_export export d placed n st m a : Runs unmoved (export_pack (G := G) transfer stamp time_ns None validate_payload s export d placed n st m a).
Proof.
  unfold export_pack. destruct export; [|auto with runs]. runs_step; [apply unmoved_scratch, scratch_model_payload|].
  runs_step; [unfold write_manifest; runs_step; [apply unmoved_files|auto with runs]|]. runs_step; [apply unmoved_scratch, scratch_pack|auto with runs].
Qed.
Lemma unmoved_recovery : Runs unmoved write_recovery_manifest.
Proof.
  unfold DiskRecovery.write_recovery_manifest. runs_step; [auto with runs|]. cbv zeta. runs_step; [apply unmoved_files|].
  runs_step; [destruct (_ && _); [by apply runs_set|auto with runs]|]. runs_step; [apply unmoved_allocations|]. do 2 (runs_step; [auto with runs|]).
  runs_step; [unfold ensure_space; auto with runs|].
  apply (worker_runs_bind unmoved); [apply extent_blob_runs; [apply _|by intros ? ? []|apply unmoved_publish|done]|]. intros [crcs digest].
  runs_step; [apply unmoved_open_blob|]. do 3 (runs_step; [auto with runs|]).
  runs_step; [unfold write_manifest; runs_step; [apply unmoved_files|auto with runs]|]. apply unmoved_export.
Qed.

(** ** The stored residual *)

(** The file holds, for every residual extent, the bytes [v]. *)
Definition residual_stored (v : Z → option N) (f : pybytes) (r : recovery_part) : Prop := ∀ x, x ∈ rp_residual r →
  0 < re_size x ∧ 0 <= re_offset x ∧ ∀ k, 0 <= k < re_size x → v (re_ptr x + k) = f !! Z.to_nat (re_offset x + k).

Lemma divide_pool_ok export pool d : NoDup (a_pointer <$> pool) → Forall (λ a, 0 <= a_size a) pool → divide_pool c export pool = Ok d →
  Forall (λ x, (x_ptr x, x_size x) ∈ model_weight_ranges (rc_bound c)) (dv_model d) ∧ Forall (λ p, 0 < p_size p) (dv_stored d).
Proof.
  intros HN Hsz E. unfold divide_pool in E. cbv zeta in E. apply bind_Ok in E as ([] & Hc1 & E). apply bind_Ok in E as ([] & Hc2 & E).
  apply bind_Ok in E as ([model residual] & Hp1 & E). apply bind_Ok in E as (native & Hp2 & E). apply bind_Ok in E as (stored & Hp3 & E).
  injection E as <-. cbn [dv_model dv_stored].
  assert (∀ layout model residual, partition_semantic_weight_extents pool layout = Ok (model, residual) →
    Forall (λ x, 0 <= x_size x) residual ∧ Forall (λ x, (x_ptr x, x_size x) ∈ layout.*1) model) as Hpart.
  { intros layout mo re (_ & Hm & Hw)%partition_spec; [|done..]. apply Forall_app in Hw as [_ Hw]. split.
    - eapply Forall_impl; [exact Hw|]. intros x (a & _ & _ & ? & _). lia.
    - apply Forall_forall. intros x Hx. assert ((x_ptr x, x_ptr x + x_size x, x_semantic x) ∈ (λ r : Z * Z * pystr, (r.1.1, r.1.1 + r.1.2, Some r.2)) <$> layout)
        as (r & [= E1 E2 _] & Hr)%list_elem_of_fmap by (rewrite <- Hm; by apply (list_elem_of_fmap_2 (λ x, (x_ptr x, x_ptr x + x_size x, x_semantic x)))).
      apply list_elem_of_fmap. exists r. split; [|done]. destruct r as [[? ?] ?]; cbn in *. f_equal; lia. }
  apply Hpart in Hp1 as [Hre Hmo].
  split.
  - eapply Forall_impl; [exact Hmo|]. intros x Hx. apply raise_if_Ok in Hc2. apply negb_false_iff in Hc2. by apply (proj1 (set_eqb_spec _ _) Hc2).
  - eapply shared_positive; [|exact Hp3]. destruct export; [|by repeat constructor].
    destruct native as [nm nr]. apply Hpart in Hp2 as [? _]. by repeat constructor.
Qed.

Lemma write_manifest_ok m (w w' : world) m' : write_manifest m w = (Ok m', w') → m' = m ∧ w_manifest w' = Some m ∧ w_blob w' = w_blob w.
Proof. unfold write_manifest. intros E. st_inv. done. Qed.
Lemma export_pack_ok export d placed n st m a (w w' : world) m' : w_manifest w = Some m →
  export_pack transfer stamp time_ns None validate_payload s export d placed n st m a w = (Ok m', w') →
  m' = m ∧ w_manifest w' = Some m ∧ w_blob w' = w_blob w.
Proof.
  intros Hm E. unfold export_pack in E. destruct export; st_inv; [|done].
  match goal with Hp : write_model_payload _ _ _ _ _ _ _ = _ |- _ => apply scratch_model_payload in Hp as [_ [Hb _]] end.
  match goal with Hp : write_manifest _ _ = _ |- _ => apply write_manifest_ok in Hp as (-> & ? & ?) end.
  match goal with Hp : on_pack _ _ = _ |- _ => apply st_set_Ok in Hp as -> end. cbn. split_and!; congruence.
Qed.


(** The pieces of the residual where they lie. *)
Definition placed_pieces (d : division) (blocks : list pybytes) : list (piece * residual_extent) :=
  zip_with (λ po crc, place_piece po.1 po.2 crc) (zip (dv_stored d) (job_offsets 0 (piece_job <$> dv_stored d))) ((λ d, crc_hex (crc32 d 0)) <$> blocks).

(** How a sleep goes: the residual file is written and the manifest after it, and then the pack. *)
Lemma recovery_run (w w' : world) m l : weights w l → NoDup (al_pointer <$> l) → write_recovery_manifest w = (Ok m, w') →
  l ≠ [] ∧ w_manifest w' = Some m ∧ ∃ b d blocks wb n a, w_blob w' = Some b ∧ bf_bytes b = concat (padded <$> blocks)
    ∧ divide_pool c (rc_capture_enabled c && negb (pk_exported (w_pack w))) (pool_allocation <$> sort_on al_pointer l) = Ok d
    ∧ Forall2 (job_holds (byte w)) (piece_job <$> dv_stored d) blocks
    ∧ (∃ r, mf_recovery m = Some r ∧ rp_model r = dv_model d ∧ rp_residual r = view_extents (placed_pieces d blocks) 0)
    ∧ unmoved w wb ∧ w_blob wb = Some b
    ∧ export_pack transfer stamp time_ns None validate_payload s (rc_capture_enabled c && negb (pk_exported (w_pack w))) d (placed_pieces d blocks)
        n (stat_identity b) m a wb = (Ok m, w').
Proof.
  intros Hw HN E. unfold DiskRecovery.write_recovery_manifest in E. cbv zeta in E.
  apply st_bind_Ok in E as (exported & w1 & E1 & E). apply st_get_Ok in E1 as [-> ->].
  apply st_bind_Ok in E as ([] & w2 & E2 & E). apply st_bind_Ok in E as ([] & w3 & E3 & E).
  set (export := rc_capture_enabled c && _) in *.
  assert (unmoved w w3) as Hu3.
  { apply st_set_Ok in E2 as ->. destruct export; [apply st_set_Ok in E3 as ->|st_inv]; by split. }
  apply st_bind_Ok in E as (l' & w4 & E4 & E). injection E4 as E4 <-.
  assert (l' = l) as -> by (unfold weights in Hw; rewrite (um_memory _ _ Hu3) in E4; congruence).
  set (allocated := sort_on al_pointer l) in *. set (entries := _ <$> allocated) in E.
  apply st_bind_Ok in E as ([] & w5 & E5 & E). apply st_raise_if_Ok in E5 as [E5 ->].
  split; [intros ->; discriminate E5|].
  apply st_bind_Ok in E as (d & w6 & E6 & E). apply lift_Ok in E6 as [Ed ->].
  apply st_bind_Ok in E as ([] & w7 & E7 & E). unfold ensure_space in E7. apply st_raise_if_Ok in E7 as [_ ->].
  apply st_bind_Ok in E as ([crcs digest] & w8 & E8 & E).
  destruct (weights_pool _ _ Hw HN) as [HN' Hsz]. pose proof Ed as [_ Hstored]%divide_pool_ok; [|done..].
  apply (extent_blob_ok _ _ Hchunk) in E8 as (blocks & w9 & [Hu9 _] & Hp & Ht & Hb & -> & -> & _); [|by rewrite Forall_fmap|done].
  apply st_bind_Ok in E as (b & w10 & E10 & E). injection E10 as Eb <-. apply of_option_Ok in Eb.
  assert (bf_bytes b = concat (padded <$> blocks) ∧ unmoved w9 w8) as [Ebytes Hu8].
  { unfold publish_blob in Hp. apply st_set_Ok in Hp. destruct (stamp (w_files w9)) as [[[dv ino] mt] ct]. subst w8.
    cbn in Eb. rewrite Ht in Eb. by injection Eb as <-. }
  apply st_bind_Ok in E as ([] & w11 & E11 & E). apply st_raise_if_Ok in E11 as [_ ->].
  apply st_bind_Ok in E as (generation & w12 & E12 & E). apply st_get_Ok in E12 as [-> ->].
  apply st_bind_Ok in E as (source & w13 & E13 & E). apply lift_Ok in E13 as [_ ->].
  apply st_bind_Ok in E as (m0 & w14 & E14 & E).
  assert (unmoved w8 w14) as Hu14 by (unfold write_manifest in E14; st_inv; by split). apply write_manifest_ok in E14 as (-> & Hm & Hb14).
  pose proof E as (-> & Hm' & Hb')%export_pack_ok; [|done]. split; [done|].
  eexists b, d, blocks, w14, _, _. split_and!; [congruence|done|done|..|exact E].
  - eapply jobs_hold_mono; [|exact Hb]. apply (um_bytes _ _ Hu3).
  - eexists. by split_and!.
  - by do 3 (etrans; [eassumption|]).
  - congruence.
Qed.

(** What a sleep leaves of a worker whose weights are the list [l]. *)
Lemma recovery_written (w w' : world) m l : weights w l → NoDup (al_pointer <$> l) → write_recovery_manifest w = (Ok m, w') →
  l ≠ [] ∧ w_manifest w' = Some m ∧ ∃ b r, w_blob w' = Some b ∧ mf_recovery m = Some r ∧ residual_stored (byte w) (bf_bytes b) r
    ∧ Forall (λ x, (x_ptr x, x_size x) ∈ model_weight_ranges (rc_bound c)) (rp_model r).
Proof.
  intros Hw HN E. destruct (recovery_run _ _ _ _ Hw HN E) as (Hne & Hm & b & d & blocks & _ & _ & _ & Hb & Ebytes & Ed & Hjobs & (r & Hr & Hrm & Hrr) & _).
  destruct (weights_pool _ _ Hw HN) as [HN' Hsz]. apply divide_pool_ok in Ed as [Hmodel Hstored]; [|done..].
  split_and!; [done..|]. exists b, r. rewrite Hrm. split_and!; [done..| |done]. intros x Hx. rewrite Ebytes, Hrr in *. exact (view_stored _ _ _ _ Hstored Hjobs x Hx).
Qed.
End sleep.

(** ** Ranges that tile *)

Lemma covers_loop_elem cursor end_ ranges z : covers_loop cursor end_ ranges = true → cursor <= z < end_ →
  ∃ r, r ∈ ranges ∧ r.1 <= z < r.2.
Proof.
  revert cursor. induction ranges as [|[start stop] ranges IH]; intros cursor E Hz; cbn [covers_loop] in E.
  { apply Z.eqb_eq in E. lia. }
  apply andb_true_iff in E as [[E1%Z.eqb_eq E2%Z.ltb_lt]%andb_true_iff E]. destruct (Z.lt_ge_cases z stop).
  - exists (start, stop). split; [left|cbn; lia].
  - destruct (IH stop E ltac:(lia)) as (r & Hr & Hz'). exists r. split; [by right|done].
Qed.
Lemma captured_covered_elem extents a z : captured_covered extents a = true → a_pointer a <= z < a_pointer a + a_size a →
  ∃ x, x ∈ extents ∧ x_ptr x <= z < x_ptr x + x_size x.
Proof.
  intros E Hz. destruct (covers_loop_elem _ _ _ z E Hz) as (r & Hr & Hzr). rewrite py_sorted_perm in Hr.
  apply list_elem_of_fmap in Hr as (x & -> & [_ Hx]%list_elem_of_filter). by exists x.
Qed.

(** Addresses of a list of ranges. *)
Definition in_ranges (ranges : list (Z * Z)) (z : Z) : Prop := ∃ r, r ∈ ranges ∧ r.1 <= z < r.1 + r.2.
Definition in_residual (r : recovery_part) (z : Z) : Prop := ∃ x, x ∈ rp_residual r ∧ re_ptr x <= z < re_ptr x + re_size x.
#[global] Instance in_residual_dec r z : Decision (in_residual r z).
Proof.
  destruct (decide (Exists (λ x, re_ptr x <= z < re_ptr x + re_size x) (rp_residual r))) as [He|He]; [left|right]; unfold in_residual.
  - by apply Exists_exists in He.
  - intros Hx. apply He. by apply Exists_exists.
Defined.

(** ** What a wake restores *)

Section wake.
Context {D G : Type} `{DeviceView D} `{GraphController G}.
Notation world := (world D G).
Variables (c : recovery_config) (s : settings).
Hypothesis Hchunk : 0 < chunk_bytes s.
Notation file_extent := (Z * Z * Z * pystr)%type.

Lemma keeps_restore_chunks fuel f ptr size off copied crc : Runs keeps (restore_chunks (G := G) s fuel f ptr size off copied crc).
Proof.
  revert copied crc. induction fuel as [|fuel IH]; intros; cbn [restore_chunks]; [auto with runs|].
  destruct (_ <? _); [|auto with runs]. cbv zeta. do 2 (runs_step; [auto with runs|]). runs_step; [apply keep_device|auto].
Qed.
Lemma restore_chunks_ok f ptr size off : 0 <= off → ∀ fuel copied crc crc' (w w' : world), 0 <= copied <= size → size - copied <= Z.of_nat fuel →
  restore_chunks s fuel f ptr size off copied crc w = (Ok crc', w') →
  (∀ a, ¬ (ptr + copied <= a < ptr + size) → byte w' a = byte w a)
  ∧ (∀ i, copied <= i < size → byte w' (ptr + i) = f !! Z.to_nat (off + i)).
Proof.
  intros Ho. induction fuel as [|fuel IH]; intros copied crc crc' w w' Hc Hf E; cbn [restore_chunks] in E.
  { st_inv. split; [done|lia]. }
  destruct (Z.ltb_spec copied size) as [Hlt|]; [|st_inv; split; [done|lia]].
  cbv zeta in E. set (count := Z.min (chunk_bytes s) (size - copied)) in *. st_inv.
  match goal with Hr : read_exact_at _ _ _ = Ok ?b |- _ => unfold read_exact_at in Hr; rename Hr into Eread, b into part end.
  pose proof (file_read_length f (off + copied) count ltac:(lia) ltac:(lia)) as Hl. cbv zeta in Eread.
  destruct (Z.ltb_spec (Z.of_nat (length (file_read f (off + copied) count))) count); [done|]. injection Eread as <-.
  match goal with Hd : on_device (memcpy_from_host _ _) w = (Ok ?u, ?x) |- _ => destruct u; rename x into w1; rename Hd into Ewrite end.
  unfold on_device in Ewrite. destruct (memcpy_from_host _ _ _) as [r d] eqn:Em. injection Ewrite as -> <-.
  apply IH in E as [Hout Hin]; [|lia..]. split.
  - intros a Ha. rewrite Hout by lia. eapply view_write; [exact Em|]. lia.
  - intros i Hi. destruct (Z.le_gt_cases (copied + count) i); [apply Hin; lia|]. rewrite Hout by lia.
    assert (Z.to_nat (i - copied) < length (file_read f (off + copied) count))%nat as [x Hx]%lookup_lt_is_Some by lia.
    pose proof (write_bytes _ _ _ _ _ _ Em Hx) as Hv. rewrite file_read_lookup in Hx by lia. unfold byte. cbn [w_device set_memory].
    replace (ptr + i) with (ptr + copied + Z.of_nat (Z.to_nat (i - copied))) by lia. rewrite Hv, <- Hx. f_equal. lia.
Qed.

Definition covered (l : list file_extent) (z : Z) : Prop := ∃ x : file_extent, x ∈ l ∧ x.1.1.1 <= z < x.1.1.1 + x.1.1.2.

(** A pass over extents whose bytes in the file are those of [v]. *)
Lemma restore_pass v f l : ∀ (w w' : world), Forall (λ x : file_extent, 0 < x.1.1.2 ∧ 0 <= x.1.2
    ∧ ∀ k, 0 <= k < x.1.1.2 → v (x.1.1.1 + k) = f !! Z.to_nat (x.1.2 + k)) l →
  st_iter (restore_file_extent s f) l w = (Ok tt, w') →
  (∀ z, covered l z → byte w' z = v z) ∧ (∀ z, ¬ covered l z → byte w' z = byte w z).
Proof.
  induction l as [|[[[ptr size] off] crc] l IH]; intros w w' Hl E; cbn [st_iter] in E.
  { st_inv. split; [|done]. by intros z (x & []%not_elem_of_nil & _). }
  apply Forall_cons in Hl as [(Hs & Ho & Hv) Hl]. cbn [fst snd] in Hs, Ho, Hv. st_inv.
  match goal with Hr : restore_file_extent _ _ _ w = _ |- _ => unfold restore_file_extent in Hr end. st_inv.
  match goal with Hr : restore_chunks _ _ _ _ _ _ _ _ w = (_, ?x) |- _ => rename x into w1; apply restore_chunks_ok in Hr as [Hout Hin]; [|lia..] end.
  apply IH in E as [Hcov Hunc]; [|done].
  assert (∀ z, ptr <= z < ptr + size → ∀ y : world, byte y z = byte w1 z → byte y z = v z) as Hhead.
  { intros z Hz y ->. replace z with (ptr + (z - ptr)) by lia. rewrite Hin, Hv by lia. done. }
  split.
  - intros z (e & [-> | He]%elem_of_cons & Hz); [|apply Hcov; by exists e]. cbn in Hz.
    destruct (decide (Exists (λ x : file_extent, x.1.1.1 <= z < x.1.1.1 + x.1.1.2) l)) as [He|He].
    + apply Hcov. by apply Exists_exists in He.
    + apply Hhead; [done|]. apply Hunc. intros Hx. apply He. by apply Exists_exists.
  - intros z Hz. rewrite Hunc; [|intros (e & He & Hez); apply Hz; exists e; split; [by right|done]]. apply Hout.
    intros Hr. apply Hz. exists (ptr, size, off, crc). split; [left|cbn; lia].
Qed.

Variable callback : D → res unit * D.
Notation residuals := (restore_recovery_residuals (G := G) None c s).
Notation restore_from_model_source := (restore_from_model_source (G := G) None (Some callback) c s).

Lemma keeps_open_blob : Runs keeps (open_blob (D := D) (G := G)).
Proof. by intros w r w' [= <- <-]. Qed.
Lemma keeps_residuals r : Runs keeps (residuals r).
Proof.
  unfold restore_recovery_residuals, restore_exact_extents. runs_step; [auto with runs|]. runs_step; [apply keeps_open_blob|].
  apply (runs_iter keeps). intros [[[ptr size] off] crc]. unfold restore_file_extent. runs_step; [apply keeps_restore_chunks|auto with runs].
Qed.
Lemma keeps_remap_allocations entries : Runs keeps (remap_allocations (D := D) (G := G) entries).
Proof.
  unfold remap_allocations. runs_step; [apply keep_allocations|]. induction a as [|x l IH]; cbn [remap_weights]; [auto with runs|].
  runs_step; [|runs_step; auto with runs]. unfold remap_weight. do 3 (runs_step; [auto with runs|]).
  runs_step; [|auto with runs]. destruct (_ && _); [|auto with runs]. runs_step; [apply keep_remap|apply keep_mapped].
Qed.
Lemma keeps_remap_weights m : Runs keeps (remap_weight_allocations (D := D) (G := G) m).
Proof. apply keeps_remap_allocations. Qed.
Lemma keeps_model_source m : Runs keeps (restore_from_model_source m).
Proof.
  unfold DiskRecovery.restore_from_model_source. runs_step; [auto with runs|]. runs_step; [apply keeps_remap_weights|]. runs_step; [auto with runs|].
  runs_step; [apply (runs_iter keeps); intros x; unfold fill_zero; runs_step; [auto with runs|apply keep_device]|].
  do 2 (runs_step; [apply keeps_residuals || apply keep_device|]). runs_step; [apply keep_device|]. runs_step; [apply keep_device|].
  runs_step; [apply keeps_residuals|]. apply keep_device.
Qed.

Lemma residuals_ok v r b (w w' : world) : w_blob w = Some b → residual_stored v (bf_bytes b) r → residuals r w = (Ok tt, w') →
  (∀ z, in_residual r z → byte w' z = v z) ∧ (∀ z, ¬ in_residual r z → byte w' z = byte w z).
Proof.
  intros Hb Hst E. unfold restore_recovery_residuals, restore_exact_extents in E. st_inv.
  match goal with Ho : open_blob w = (Ok ?x, _) |- _ => injection Ho as Ho <-; apply of_option_Ok in Ho; assert (x = b) as -> by congruence end.
  apply (restore_pass v) in E as [Hcov Hunc].
  2:{ rewrite Forall_fmap. apply Forall_forall. intros e He. by apply Hst. }
  assert (∀ z, covered (residual_file_extent <$> rp_residual r) z ↔ in_residual r z) as Hiff.
  { intros z. unfold covered, in_residual. split.
    - intros (e & (y & -> & Hy)%list_elem_of_fmap & Hz). by exists y.
    - intros (y & Hy & Hz). exists (residual_file_extent y). split; [by apply list_elem_of_fmap_2|done]. }
  split; intros z Hz; [by apply Hcov, Hiff|by apply Hunc; rewrite Hiff].
Qed.

(** The reload gives the model back; what it does to other bytes is undone. *)
Lemma model_source_ok v m r b (w w' : world) : mf_recovery m = Some r → w_blob w = Some b → residual_stored v (bf_bytes b) r →
  (∀ d d' x, callback d = (Ok tt, d') → in_ranges (model_weight_ranges (rc_bound c)) x → view d' x = v x) →
  restore_from_model_source m w = (Ok tt, w') →
  ∀ z, in_residual r z ∨ in_ranges (model_weight_ranges (rc_bound c)) z → byte w' z = v z.
Proof.
  intros Hr Hb Hst Hload E z Hz. unfold DiskRecovery.restore_from_model_source in E. st_inv. res_inv.
  match goal with Hx : Some callback = Some _ |- _ => injection Hx as <- end.
  match goal with Hx : mf_recovery m = Some ?y |- _ => assert (y = r) as -> by congruence end.
  match goal with Hm : remap_weight_allocations m w = (_, ?x) |- _ => apply keeps_remap_weights in Hm as (_ & Hb1 & _); rename x into wa end.
  match goal with Hm : st_iter _ _ wa = (_, ?x) |- _ =>
    apply (runs_iter keeps) in Hm as (_ & Hb2 & _); [|intros ?; unfold fill_zero; runs_step; [auto with runs|apply keep_device]]; rename x into wb end.
  match goal with Hm : residuals r wb = (_, ?x) |- _ => apply keeps_residuals in Hm as (_ & Hb3 & _); rename x into wc end.
  match goal with Hm : synchronize wc = (_, ?x) |- _ => apply keep_device in Hm as (_ & Hb4 & _); rename x into wd end.
  match goal with Hm : on_device _ wd = (Ok ?u, ?x) |- _ => destruct u; pose proof (keep_device _ _ _ _ Hm) as (_ & Hb5 & _); rename x into we; rename Hm into Ecall end.
  match goal with Hm : synchronize we = (_, ?x) |- _ => pose proof (keep_device _ _ _ _ Hm) as (_ & Hb6 & _); apply unmoved_synchronize in Hm as Hu6; rename x into wf end.
  match goal with Hm : residuals r wf = (Ok ?u, ?x) |- _ => destruct u; rename Hm into Epass, x into wg end.
  apply unmoved_synchronize in E as Hu7. rewrite (um_bytes _ _ Hu7).
  destruct (residuals_ok v r b wf wg ltac:(congruence) Hst Epass) as [Hin Hout].
  destruct (decide (in_residual r z)) as [Hi|Hn]; [by apply Hin|]. destruct Hz as [|Hz]; [done|]. rewrite Hout by done.
  rewrite (um_bytes _ _ Hu6). unfold on_device in Ecall. destruct (callback (w_device wd)) as [o d] eqn:Ec. injection Ecall as -> <-. by eapply Hload.
Qed.
End wake.
