(* ===== verification/DiskRecoveryClaims.v ===== *)
(** * Weights from a model source: the guarantees

    The round trip of a worker whose weights come back from a model source, and the identity
    of an exported pack, with runs on the simulated device. *)

From S2P Require Import Prelude Ranges PyFloat PyJson Hash Memory MemorySpec Hydration DiskLayout DiskLayoutSpec DiskShared VllmMemory VllmMemorySpec.
From S2P Require Import Artifact DiskPipeline DiskPipelineSpec DiskSleep DiskSleepSpec DiskSleepClaims DiskRecovery DiskRecoverySpec.

Section claims.
Context {D G : Type} `{DeviceView D} `{GraphController G}.
Notation world := (world D G).
Variables (transfer : Z → Z → Z) (stamp : nat → Z * Z * Z * Z) (time_ns : nat → Z).
Variable validate_payload : pybytes → pystr → Z → res unit.
Variables (c : recovery_config) (s : settings) (callback : D → res unit * D).
Variables (wait : ST world unit) (start : snapshot_manifest → ST world unit).
Notation source := (safetensors_source transfer stamp time_ns None None validate_payload (Some callback) c s wait start).
Notation suspend := (suspend transfer stamp time_ns None source s).
Notation resume := (resume None source s).

(** The chunk is a positive multiple of a page, as the backend requires of it, and no pack is
    being materialized. *)
Record recovery_backend : Prop := {
  rb_chunk : 0 < chunk_bytes s ∧ chunk_bytes s mod 4096 = 0;
  rb_wait w : wait w = (Ok tt, w);
  rb_start m w : start m w = (Ok tt, w);
}.

(** What an accepted recovery manifest says about the worker. *)
Lemma recovery_accepted (w w' : world) m : load_manifest source s w = (Ok m, w') →
  w' = w ∧ w_manifest w = Some m ∧ mf_source m = WEIGHT_SOURCE_SAFETENSORS
  ∧ ∃ l r, weights w l ∧ mf_recovery m = Some r
    ∧ ∀ a z, a ∈ l → al_pointer a <= z < al_pointer a + al_size a →
        in_residual r z ∨ ∃ x, x ∈ rp_model r ∧ x_ptr x <= z < x_ptr x + x_size x.
Proof.
  unfold load_manifest. intros E. st_inv. res_inv. guards.
  repeat match goal with Ha : allocations _ _ = _ |- _ => injection Ha as ? <- end.
  match goal with Hs : mf_source _ = _ |- _ => rename Hs into Es end. change (weight_recovery_source source) with WEIGHT_SOURCE_SAFETENSORS in Es.
  rewrite bool_decide_true in E by done. cbn [DiskSleep.check_recovery_manifest safetensors_source] in E.
  unfold check_recovery_manifest in E. st_inv.
  repeat match goal with Ho : open_blob _ = _ |- _ => injection Ho as Ho <- | Ha : allocations _ _ = _ |- _ => injection Ha as ? <- end.
  match goal with Hr : match recovery_ranges_ok ?mm ?r with _ => _ end = Ok _ |- _ => destruct (recovery_ranges_ok mm r) as [u|] eqn:Er; [|done]; rename r into part, mm into m end.
  unfold recovery_ranges_ok in Er. res_inv. split_and!; [done..|].
  match goal with Hw : pool_allocations _ _ = Ok ?k, Hk : set_eqb (allocation_key <$> ?k) _ = true |- _ => exists k, part; rename Hk into Hkeys end.
  split_and!; [done|done|]. intros a z Ha Hz. guards.
  match goal with Ht : ranges_tile _ _ = true |- _ => unfold ranges_tile in Ht; apply andb_true_iff in Ht as [_ Hcov] end.
  rewrite forallb_forall in Hcov. pose proof (proj1 (set_eqb_spec _ _) Hkeys) as Hk.
  assert (allocation_key a ∈ entry_key <$> mf_entries m) as (e & Ek & He)%list_elem_of_fmap by (apply Hk; by apply list_elem_of_fmap_2).
  unfold allocation_key, entry_key in Ek. injection Ek as E1 E2 _.
  destruct (captured_covered_elem _ (entry_allocation e) z (Hcov _ (proj1 (list_elem_of_In _ _) (list_elem_of_fmap_2 entry_allocation _ _ He)))) as (f & Hf & Hfz).
  { cbn. lia. }
  apply elem_of_app in Hf as [Hf|(y & -> & Hy)%list_elem_of_fmap]; [right; eauto|left; by exists y].
Qed.

Lemma unmoved_source_snapshot : Runs unmoved (write_snapshot transfer stamp time_ns None source s).
Proof.
  unfold write_snapshot, reusable_snapshot. runs_step.
  - do 2 (runs_step; [auto with runs|]). cbn [uses_model_weight_recovery safetensors_source negb]. rewrite andb_false_r. auto with runs.
  - case_match; [auto with runs|]. apply unmoved_recovery.
Qed.

Lemma source_manifest events m stat (w w' : world) : restore_preserved None source s events w = (Ok (m, stat), w') → w_manifest w = Some m.
Proof.
  unfold restore_preserved. intros E. apply st_bind_Ok in E as (m0 & w0 & El & E). apply recovery_accepted in El as (-> & Hm0 & Hs0 & _).
  rewrite bool_decide_true in E by done. st_inv. by simplify_eq.
Qed.
(** The preserved part of a wake from the model source. *)
Lemma source_restored events m stat v l b r (w w' : world) : recovery_backend → w_manifest w = Some m → w_blob w = Some b → mf_recovery m = Some r →
  weights w l → residual_stored v (bf_bytes b) r → Forall (λ x, (x_ptr x, x_size x) ∈ model_weight_ranges (rc_bound c)) (rp_model r) →
  (∀ d d' x, callback d = (Ok tt, d') → in_ranges (model_weight_ranges (rc_bound c)) x → view d' x = v x) →
  restore_preserved None source s events w = (Ok (m, stat), w') →
  keeps w w' ∧ ∀ a z, a ∈ l → al_pointer a <= z < al_pointer a + al_size a → byte w' z = v z.
Proof.
  intros [[Hc _] _ _] Hm Hb Hr Hl Hst Hmod Hload E. unfold restore_preserved in E. apply st_bind_Ok in E as (m' & w1 & El & E).
  apply recovery_accepted in El as (-> & Hm' & Hs & l' & r' & Hl' & Hr' & Htile). assert (m' = m) as -> by congruence.
  assert (l' = l) as -> by (unfold weights in *; congruence). assert (r' = r) as -> by congruence.
  rewrite bool_decide_true in E by done. apply st_bind_Ok in E as ([] & w2 & Er & E). st_inv. simplify_eq. cbn [DiskSleep.restore_from_model_source safetensors_source] in Er.
  split; [by eapply keeps_model_source|]. intros a z Ha Hz.
  eapply (model_source_ok c s Hc callback v); [exact Hr|exact Hb|exact Hst|exact Hload|exact Er|].
  destruct (Htile a z Ha Hz) as [|(x & Hx & Hxz)]; [by left|right]. exists (x_ptr x, x_size x). split; [|done].
  rewrite Forall_forall in Hmod. by apply Hmod.
Qed.

(** C3. A worker whose weights come from a model source has its bytes back after sleep and
    wake: every byte of every weight is the byte it was, provided the reload reproduces the
    bytes of the model's ranges. Whatever else the reload writes in the weight pool is undone,
    every weight allocation is awake at its address, and no restore is in flight. *)
Theorem model_source_round_trip (w w1 w2 : world) l events : recovery_backend → pool_ok s w → weights w l →
  (∀ d d' x, callback d = (Ok tt, d') → in_ranges (model_weight_ranges (rc_bound c)) x → view d' x = byte w x) →
  suspend 1 w = (Ok tt, w1) → resume None events w1 = (Ok tt, w2) →
  w_phase w2 = RUNNING ∧ w_restore_mapped w2 = ∅ ∧ w_discard_mapped w2 = ∅
  ∧ (∃ l2, weights w2 l2 ∧ allocation_key <$> l2 = allocation_key <$> l ∧ Forall (λ a, al_released a = false) l2)
  ∧ (∀ a x, a ∈ l → al_pointer a <= x < al_pointer a + al_size a → byte w2 x = byte w x).
Proof.
  intros Hrb Hp Hl Hload Es Er. pose proof Hrb as [Hchunk Hwait Hstart].
  destruct (suspend_run s source transfer stamp time_ns Hwait w w1 unmoved_source_snapshot Es) as (wa & wb & m & l0 & q & [d ->] & Hua & Esnap & Hub & Hl0 & Hm1 & Hb1 & Hpool & _).
  assert (l0 = l) as -> by (unfold weights in *; congruence).
  assert (write_recovery_manifest transfer stamp time_ns None validate_payload c s (set_memory (w_memory w) d (set_phase SUSPENDING (lit "suspending", []) w)) = (Ok m, wb)) as Erec.
  { unfold write_snapshot, reusable_snapshot in Esnap. cbn [uses_model_weight_recovery safetensors_source negb] in Esnap. rewrite andb_false_r in Esnap. exact Esnap. }
  assert (NoDup (al_pointer <$> l)) as HN by (eapply pool_pointers; [apply (po_nodup _ _ Hp)|exact Hl]).
  set (ws := set_memory (w_memory w) d _) in *.
  destruct (recovery_written transfer stamp time_ns validate_payload c s Hchunk ws wb m l Hl HN Erec) as (Hne & Hm & b & r & Hb & Hr & Hst & Hmod).
  destruct (slept_layout s w w1 l _ Hp Hl Hpool) as [Hp1 (l1 & Hl1 & Hk1)].
  assert (∀ a, a ∈ l → flagged true (al_pointer a) (v_pool (w_memory w1))) as Hfl.
  { intros a Ha. rewrite Hpool. apply flagged_flags. left. apply elem_of_app. left. by apply list_elem_of_fmap_2. }
  destruct (asleep_resumes s source events w1 w2 l l1 Hne Hl1 Hk1 Hfl Er) as (m' & stat & wa & Erp & Ef).
  assert (m' = m) as -> by (apply source_manifest in Erp; cbn in Erp; congruence).
  destruct (source_restored events m stat (byte w) l1 b r (set_phase RESUMING (lit "resuming", []) w1) wa) as [HK Hbytes]; try done.
  { cbn. congruence. }
  { cbn. congruence. }
  { intros y Hy. destruct (Hst y Hy) as (Hy1 & Hy2 & Hyb). split_and!; [done..|]. intros k Hk. rewrite <- Hyb by done. symmetry. apply (um_bytes _ _ Hua). }
  assert (v_pool (w_memory wa) = v_pool (w_memory w1)) as Hpa by (destruct HK as (_ & _ & ->); done).
  assert (pool_ok s wa) as Hpoka by (eapply pool_ok_memory; [exact Hpa|done]).
  assert (weights wa l1) as Hwa by (unfold weights; by rewrite Hpa).
  pose proof (touch_finish s source (w_memory wa) _ (discard_regions s) m stat true (regions_in s wa Hpoka) (or_intror (Hstart m)) wa _ _ ltac:(reflexivity) Ef) as T.
  destruct (finish_wake_ok s source _ _ _ _ _ _ (or_intror (Hstart m)) Hwa Ef) as (? & ? & ? & _ & Hfl2).
  destruct (awake_weights wa w2 l1 Hwa (t_layout _ _ _ T) Hfl2) as (l2 & Hl2 & Hk2 & Hawake).
  split_and!; [done..|exists l2; split_and!; [done|congruence|done]|].
  - intros a x Ha Hx. assert (allocation_key a ∈ allocation_key <$> l1) as (a1 & Ek & Ha1)%list_elem_of_fmap by (rewrite Hk1; by apply list_elem_of_fmap_2).
    assert (al_pointer a1 <= x < al_pointer a1 + al_size a1) as Hx1 by (unfold allocation_key in Ek; injection Ek as <- <- _; done).
    rewrite (t_bytes _ _ _ T) by (eapply weight_not_in_regions; eauto). eauto.
Qed.
End claims.

(** C18. A pack is addressed by its contents: two captures whose model extents hold the same
    contents, in any order, at any addresses, on devices of any kind and with any chunk size,
    write the same file and record the same size and hash, as long as no two contents share a
    hash. *)
Theorem pack_content_addressed {D G D' G' : Type} `{DeviceView D} `{GraphController G} `{DeviceView D'} `{GraphController G'}
    transfer transfer' stamp stamp' time_ns time_ns' validate validate' (s s' : settings) model model' residual residual' n n' st st' m m' a a'
    (w w2 : world D G) (v v2 : world D' G') ds ds' record record' :
  0 < chunk_bytes s ∧ chunk_bytes s mod 4096 = 0 → 0 < chunk_bytes s' ∧ chunk_bytes s' mod 4096 = 0 →
  Forall (λ x, 0 < x_size x) model → Forall (λ x, 0 < x_size x) model' →
  Forall2 (extent_holds (byte w)) model ds → Forall2 (extent_holds (byte v)) model' ds' → ds ≡ₚ ds' → collision_free ds →
  write_model_payload transfer stamp time_ns None validate s model residual n st m a w = (Ok record, w2) →
  write_model_payload transfer' stamp' time_ns' None validate' s' model' residual' n' st' m' a' v = (Ok record', v2) →
  record = record' ∧ ∃ b b', pk_payload (w_pack w2) = Some b ∧ pk_payload (w_pack v2) = Some b' ∧ bf_bytes b = bf_bytes b'.
Proof.
  intros Hs Hs' Hp Hp' Hd Hd' Hperm Hc E E'.
  destruct (model_payload_ok transfer stamp time_ns validate s Hs _ _ _ _ _ _ _ _ _ _ Hp Hd Hc E) as (b & Hb & Eb & ->).
  assert (collision_free ds') as Hc' by (intros x y; rewrite <- Hperm; apply Hc).
  destruct (model_payload_ok transfer' stamp' time_ns' validate' s' Hs' _ _ _ _ _ _ _ _ _ _ Hp' Hd' Hc' E') as (b' & Hb' & Eb' & ->).
  assert (bf_bytes b = bf_bytes b') as Hsame by (by rewrite Eb, Eb', (content_order_unique _ _ Hc Hperm)).
  split; [by rewrite Hsame|]. by exists b, b'.
Qed.

(** ** Witnesses *)

(** Five of the nine weight bytes belong to the model. The reload writes those and also bytes
    of its own behind them. *)
Definition source_settings : settings :=
  Settings 4096 2 false true [lit "kv_cache"] 2 7 0 (lit "w0") (lit "host:1") (lit "c1") 100000 16.
Definition semantic_a : pystr := replicate 64 97%N.
Definition semantic_b : pystr := replicate 64 98%N.
Definition source_layout : bound_layout := Bound [(4096, 2); (8192, 3)] [(4096, 2, semantic_a); (8192, 3, semantic_b)] [].
Definition source_config : recovery_config :=
  RecoveryConfig source_layout (model_source_identity (lit "org/model") (lit "abc") []) true false (lit "auto").
Definition sample_reload (d : sim) : res unit * sim :=
  match memcpy_from_host 4096 (mread sample_memory 4096 2 ++ [1%N; 2%N]) d with
  | (Ok _, d) => memcpy_from_host 8192 (mread sample_memory 8192 3) d
  | (Raise e, d) => (Raise e, d)
  end.
Definition whole_transfer (wanted offset : Z) : Z := wanted.
Definition accept_payload (data : pybytes) (digest : pystr) (bytes : Z) : res unit := mret tt.
Notation sample_source := (safetensors_source whole_transfer blob_stamp sample_clock None None accept_payload (Some sample_reload) source_config
  source_settings (mret tt) (λ _, mret tt)).
Notation source_suspend := (suspend whole_transfer blob_stamp sample_clock None sample_source source_settings 1).
Notation source_resume := (resume None sample_source source_settings None []).
Definition source_asleep : world sim unit := (source_suspend (sample_worker [])).2.
Definition source_woken : world sim unit := (source_resume source_asleep).2.

Lemma sample_reload_ok d d' x : sample_reload d = (Ok tt, d') → in_ranges (model_weight_ranges source_layout) x → view d' x = byte (sample_worker []) x.
Proof.
  unfold sample_reload. destruct (memcpy_from_host 4096 _ d) as [[[]|] d1] eqn:E1; [|done]. intros E2 (r & Hr & Hx).
  assert (∀ i y, (mread sample_memory 4096 2 ++ [1%N; 2%N]) !! i = Some y → (i < 4)%nat → view d' (4096 + Z.of_nat i) = Some y) as Ha.
  { intros i y Hi Hlt. rewrite (view_write _ _ _ _ _ _ E2) by lia. by eapply write_bytes. }
  pose proof (λ i y, write_bytes _ _ _ _ i y E2) as Hb. cbn in Hr.
  repeat (apply elem_of_cons in Hr as [-> | Hr]); [| |by apply not_elem_of_nil in Hr]; cbn in Hx.
  - assert (x = 4096 ∨ x = 4097) as [-> | ->] by lia; [apply (Ha 0%nat)|apply (Ha 1%nat)]; (done || lia).
  - assert (x = 8192 ∨ x = 8193 ∨ x = 8194) as [-> | [-> | ->]] by lia; [by apply (Hb 0%nat)|by apply (Hb 1%nat)|by apply (Hb 2%nat)].
Qed.

Lemma model_source_round_trip_witness :
  w_phase source_woken = RUNNING ∧ w_restore_mapped source_woken = ∅ ∧ w_discard_mapped source_woken = ∅
  ∧ (∃ l2, weights source_woken l2 ∧ allocation_key <$> l2 = allocation_key <$> sample_weights ∧ Forall (λ a, al_released a = false) l2)
  ∧ (∀ a x, a ∈ sample_weights → al_pointer a <= x < al_pointer a + al_size a → byte source_woken x = byte (sample_worker []) x).
Proof.
  apply (model_source_round_trip whole_transfer blob_stamp sample_clock accept_payload source_config source_settings sample_reload (mret tt) (λ _, mret tt)
    (sample_worker []) source_asleep source_woken sample_weights []).
  - by split.
  - assert (pool_ok sample_settings (sample_worker [])) as [] by (by eapply sample_pool_ok). by split.
  - by vm_compute.
  - exact sample_reload_ok.
  - apply (ran (source_suspend (sample_worker [])) tt). by vm_compute.
  - apply (ran (source_resume source_asleep) tt). by vm_compute.
Defined.

(** The same two contents elsewhere, in the other order, on a worker with larger chunks. *)
Definition content_a : pybytes := mread sample_memory 4096 2.
Definition content_b : pybytes := mread sample_memory 8192 3.
Definition moved_memory : memory := mwrite (mwrite (λ _, 0%N) 20000 content_b) 30000 content_a.
Definition moved_worker : world sim unit :=
  World RUNNING (lit "running", []) sample_provider [] (Sim [(20000, 3); (30000, 2)] moved_memory []) tt ∅ ∅ None None None None None 0 (Pack None None false None empty_cache_entry).
Definition moved_settings : settings :=
  Settings 8192 2 false true [lit "kv_cache"] 2 9 1 (lit "w1") (lit "host:2") (lit "c1") 100000 16.
Definition at_capture : list extent := [Ext 4096 2 4096 (Some semantic_a) []; Ext 8192 3 8192 (Some semantic_b) []].
Definition at_move : list extent := [Ext 20000 3 20000 (Some semantic_b) []; Ext 30000 2 30000 (Some semantic_a) []].
Definition sample_residual : list residual_extent := [Residual 4098 4 4096 0 (lit "00000000")].
Definition no_stat : file_stat := FileStat 0 0 0 0 0.
Definition sample_recovery : snapshot_manifest :=
  recovery_manifest source_config source_settings (lit "g") (ModelIdentity (lit "org/model") (lit "abc") []) [] (Division [] [] ([], []) []) [] 0 no_stat.
Notation sample_pack settings model world :=
  (write_model_payload whole_transfer blob_stamp sample_clock None accept_payload settings model sample_residual 4096 no_stat sample_recovery 9 world).

Lemma contents_hold (w : world sim unit) x d : Z.of_nat (length d) = x_size x → view (w_device w) <$> seqZ (x_ptr x) (x_size x) = Some <$> d →
  extent_holds (byte w) x d.
Proof.
  intros Hl E. split; [done|]. intros i y Hi. assert ((Some <$> d) !! i = Some (Some y)) as Hs by (by rewrite list_lookup_fmap, Hi).
  rewrite <- E in Hs. apply list_lookup_fmap_Some in Hs as (z & -> & [-> _]%lookup_seqZ). done.
Qed.
Lemma collision_free_pair a b : hexdigest a ≠ hexdigest b → collision_free [a; b].
Proof. intros Hn x y. rewrite !elem_of_cons, !elem_of_nil. intros [-> | [-> | []]] [-> | [-> | []]] E; done || by destruct Hn. Qed.
Lemma sample_hashes : hexdigest content_a ≠ hexdigest content_b.
Proof.
  assert (bool_decide (hexdigest content_a = hexdigest content_b) = false) as E by (by vm_compute). by apply bool_decide_eq_false in E.
Qed.
Definition value {A} (d : A) (r : res A) : A := match r with Ok a => a | Raise _ => d end.
Definition returned {A} (r : res A) : bool := match r with Ok _ => true | Raise _ => false end.
Lemma ran_value {A W} (p : res A * W) d : returned p.1 = true → p = (Ok (value d p.1), p.2).
Proof. by destruct p as [[]]. Qed.
Definition no_record : payload_record := PayloadRecord 0 [].
Definition sample_record : payload_record := value no_record (sample_pack source_settings at_capture (sample_worker [])).1.
Definition moved_record : payload_record := value no_record (sample_pack moved_settings at_move moved_worker).1.
Lemma pack_content_addressed_witness : sample_record = moved_record ∧ ∃ b b',
  pk_payload (w_pack (sample_pack source_settings at_capture (sample_worker [])).2) = Some b
  ∧ pk_payload (w_pack (sample_pack moved_settings at_move moved_worker).2) = Some b' ∧ bf_bytes b = bf_bytes b'.
Proof.
  apply (pack_content_addressed whole_transfer whole_transfer blob_stamp blob_stamp sample_clock sample_clock accept_payload accept_payload
    source_settings moved_settings at_capture at_move sample_residual sample_residual 4096 4096 no_stat no_stat sample_recovery sample_recovery 9 9
    (sample_worker []) _ moved_worker _ [content_a; content_b] [content_b; content_a] sample_record moved_record).
  - by vm_compute.
  - by vm_compute.
  - by repeat constructor.
  - by repeat constructor.
  - apply Forall2_cons_2; [|apply Forall2_cons_2; [|constructor]]; apply contents_hold; by vm_compute.
  - apply Forall2_cons_2; [|apply Forall2_cons_2; [|constructor]]; apply contents_hold; by vm_compute.
  - apply Permutation_swap.
  - apply collision_free_pair. exact sample_hashes.
  - apply (ran_value (sample_pack source_settings at_capture (sample_worker [])) no_record). by vm_compute.
  - apply (ran_value (sample_pack moved_settings at_move moved_worker) no_record). by vm_compute.
Defined.
