(* ===== verification/DiskNative.v ===== *)
(** * Disk backend: activating a native pack

    [DiskCuMemBackend] of [integrations/vllm/coldsnap_disk_backend.py] when the controller has
    selected the native provider: the manifest of a captured pack is moved onto the live
    layout, the residual is taken from the live process where the layouts differ, and the
    weights are read from the pack. A fresh process reads the model into resident weights. *)

From S2P Require Import Prelude Ranges PyFloat PyJson Hash Memory Hydration DiskLayout VllmMemory.
From S2P Require Import Artifact DiskPipeline DiskSleep DiskRecovery.

(** ** Ownership *)

(** [_captured_native_identity_matches] *)
Definition captured_native_identity_matches (value worker : pystr) (rank pid : Z) : bool :=
  let prefix := lit "worker-id-" ++ worker ++ lit "-host-" in
  let marker := lit "-rank-" ++ str_of_Z rank ++ lit "-pid-" in
  (0 <=? rank) && starts_with prefix value
  && match rpartition marker (drop (length prefix) value) with
     | None => false
     | Some (host, identity_pid) =>
         negb (bool_decide (host = [])) && negb (bool_decide (identity_pid = [])) && forallb is_digit identity_pid
         && bool_decide (py_int identity_pid = Some pid) && (0 <? pid)
     end.

(** [_activated_portable_native_manifest_matches] *)
Definition activated_portable_native (n : native_manifest) (worker : pystr) (expected_rank : Z) : bool :=
  (0 <=? expected_rank) && bool_decide (nm_worker n = worker) && (nm_rank n =? expected_rank) && (0 <? nm_pid n)
  && captured_native_identity_matches (nm_identity n) worker (nm_rank n) (nm_pid n).

(** The ownership checks of [_load_manifest] under a native selection. *)
Definition native_mismatch (s : settings) (n : native_manifest) : bool :=
  let portable_owner := activated_portable_native n (own_worker s) (own_rank s) in
  (negb (nm_pid n =? own_pid s) && negb portable_owner)
  || (negb portable_owner && negb (portable_identity_matches (nm_identity n) (own_worker s) (own_rank s) (own_pid s)))
  || negb (nm_rank n =? own_rank s) || negb (bool_decide (nm_worker n = own_worker s)) || negb (bool_decide (nm_capture n = own_capture s)).

(** ** The manifest of a pack *)

(** The extents of the pack follow each other on 4096-byte boundaries. *)
Fixpoint packed_loop (expected_offset : Z) (l : list pack_extent) : res Z :=
  match l with
  | [] => mret expected_offset
  | x :: rest =>
      _ ← raise_if (negb (px_offset x =? expected_offset) || negb (length (px_crc x) =? 8)%nat || negb (length (px_sha256 x) =? 64)%nat)
          ValueError "extent";
      packed_loop (expected_offset + packed_align (x_size (px_extent x))) rest
  end.
Definition pack_key (x : pack_extent) : pystr * Z := (px_sha256 x, x_size (px_extent x)).
(** A list equals its stable sort exactly when its keys do. *)
Definition in_pack_order (l : list pack_extent) : bool :=
  bool_decide (py_sorted (pair_leb str_leb Z.leb) (pack_key <$> l) = pack_key <$> l).

Definition native_ranges_ok (n : native_manifest) : res unit :=
  let extents := (px_extent <$> nm_model n) ++ (residual_as_extent <$> nm_residual n) in
  _ ← raise_if (negb (forallb (captured_extent_ok (entry_allocation <$> nm_entries n)) extents)) ValueError "extent";
  total ← packed_loop 0 (nm_model n);
  _ ← raise_if (negb (total =? nm_blob_bytes n)) ValueError "bytes";
  _ ← validate_residual_file_extents ((λ x, (re_offset x, re_size x, Some (re_crc x))) <$> nm_residual n) (nm_residual_blob_bytes n) (nm_layout n);
  _ ← raise_if (negb (in_pack_order (nm_model n))) ValueError "order";
  _ ← raise_if (negb (ranges_tile (nm_entries n) extents)) ValueError "coverage";
  let model_bytes := zsum ((λ x, x_size (px_extent x)) <$> nm_model n) in
  let residual_bytes := zsum (re_size <$> nm_residual n) in
  raise_if (negb (model_bytes =? nm_model_bytes n) || negb (residual_bytes =? nm_residual_bytes n)
            || negb (model_bytes + residual_bytes =? nm_allocation_bytes n)) ValueError "bytes".

(** ** Onto the live layout *)

(** What relocation sees of the manifest, and the manifest after it: an extent that moves
    keeps its place in the file. *)
Definition native_split (n : native_manifest) : split_manifest :=
  Manifest (entry_allocation <$> nm_entries n) WEIGHT_SOURCE_SPLIT_NATIVE true (px_extent <$> nm_model n) (residual_as_extent <$> nm_residual n)
    (nm_allocation_bytes n) (nm_residual_bytes n) false false.
Definition move_packed (x : pack_extent) (y : extent) : pack_extent := Packed y (px_sha256 x) (px_offset x) (px_crc x).
Definition move_residual (x : residual_extent) (y : extent) : residual_extent := Residual (x_ptr y) (x_size y) (x_alloc y) (re_offset x) (re_crc x).
Definition allocation_entry (a : allocation) : snapshot_entry := Entry (a_pointer a) (a_size a) (a_tag a) None.
Definition set_layout (r : split_manifest) (residual : list residual_extent) (n : native_manifest) : native_manifest :=
  NativeManifest (nm_identity n) (nm_generation n) (nm_pid n) (nm_rank n) (nm_worker n) (nm_capture n) (nm_blob_bytes n) (nm_blob_stat n)
    (nm_residual_blob_bytes n) (nm_residual_stat n) (nm_layout n) (allocation_bytes r) (nm_model_bytes n) (residual_bytes r)
    (zip_with move_packed (nm_model n) (model_weight_extents r)) residual (nm_verify_mode n) (nm_preverified n) (allocation_entry <$> entries r).
Definition native_relocated (r : split_manifest) (n : native_manifest) : native_manifest :=
  if relocated_from_captured_va r then set_layout r (zip_with move_residual (nm_residual n) (residual_extents r)) n else n.
(** A residual file of the live process in place of the captured one. *)
Definition set_residual_file (bytes : Z) (stat : file_stat) (residual : list residual_extent) (verified : bool) (n : native_manifest) : native_manifest :=
  NativeManifest (nm_identity n) (nm_generation n) (nm_pid n) (nm_rank n) (nm_worker n) (nm_capture n) (nm_blob_bytes n) (nm_blob_stat n)
    bytes stat None (nm_allocation_bytes n) (nm_model_bytes n) bytes (nm_model n) residual (nm_verify_mode n) verified (nm_entries n).

Section native.
Context {D G : Type} `{CudaDevice D} `{GraphController G}.
Notation world := (world D G).

(** The environment as in [DiskSleep] and [DiskRecovery]; whether the process was restored
    from a process template. *)
Variable transfer : Z → Z → Z.
Variable stamp : nat → Z * Z * Z * Z.
Variable hydrator : option (pystr → pybytes → list HydrationExtent → D → res unit * D).
Variable template_restored : bool.
Variable c : recovery_config.
Variable s : settings.

Definition verify_mode : pystr := if preverified s then lit "preverified" else lit "inline".

(** ** The live residual *)

(** [_snapshot_live_native_residual]: the residual ranges of the live layout, written one
    after the other. *)
Fixpoint write_residual (l : list extent) (offset : Z) : ST world (list residual_extent * Z) :=
  match l with
  | [] => mret ([], offset)
  | x :: rest =>
      '(crc, after) ← write_chunks transfer s (Z.to_nat (x_size x)) (x_ptr x) (x_size x) 0 0%N offset;
      '(others, total) ← write_residual rest after;
      mret (Residual (x_ptr x) (x_size x) (x_alloc x) offset (crc_hex crc) :: others, total)
  end.
Definition residual_entry (x : residual_extent) : snapshot_entry := Entry (re_ptr x) (re_size x) [] (Some (re_offset x, re_crc x)).
Definition live_file : ST world blob_file := λ w,
  match w_tmp w with
  | None => (Raise (Exn FileNotFoundError "coldsnap-live-residual"), w)
  | Some f => let '(device, inode, mtime, ctime) := stamp (w_files w) in
              (Ok (BlobFile f device inode mtime ctime), set_files (w_manifest w) (w_blob w) None (S (w_files w)) w)
  end.
Definition snapshot_live_native_residual (sources : list extent) (n : native_manifest) : ST world native_manifest :=
  _ ← st_raise_if (bool_decide (sources = [])) RuntimeError "portable native live residual layout is invalid";
  let residual_bytes := zsum (x_size <$> sources) in
  _ ← st_raise_if (residual_bytes <=? 0) RuntimeError "portable native live residual layout is empty";
  _ ← ensure_space s residual_bytes;
  _ ← st_set (set_tmp (Some []));
  '(extents, b) ← st_on_error (
    _ ← preallocate residual_bytes;
    '(extents, total) ← write_residual sources 0;
    _ ← st_raise_if (negb (total =? residual_bytes)) RuntimeError "portable native live residual byte count changed during write";
    b ← live_file;
    _ ← (if preverified s then verify_file s (mret b) (residual_entry <$> extents) residual_bytes else mret tt);
    mret (extents, b)) (set_tmp None);
  let rebound := set_residual_file residual_bytes (stat_identity b) extents (preverified s) n in
  _ ← on_pack (set_live (Some (rebound, b)));
  mret rebound.

(** ** Admitting the pack *)

(** The residual file in use: that of the capture, or that of the live process. *)
Definition open_residual (live : bool) : ST world blob_file := λ w,
  if live then (of_option FileNotFoundError "coldsnap-live-residual" (snd <$> pk_live (w_pack w)), w) else open_blob w.

(** The split-native branch of [_load_manifest]. *)
Definition check_native_manifest (initial live : bool) (l : list Allocation) (n : native_manifest) : ST world unit :=
  model ← open_payload;
  residual ← open_residual live;
  _ ← st_raise_if (bool_decide (nm_model n = []) || bool_decide (nm_residual n = [])
                   || negb (fs_bytes (stat_identity model) =? nm_blob_bytes n) || negb (fs_bytes (stat_identity residual) =? nm_residual_blob_bytes n)
                   || negb (bool_decide (nm_verify_mode n = verify_mode)) || negb (eqb (nm_preverified n) (preverified s))
                   || (negb initial && negb (nm_allocation_bytes n =? zsum (al_size <$> l)))
                   || negb (nm_allocation_bytes n =? zsum (e_size <$> nm_entries n)) || existsb recovery_entry_bad (nm_entries n))
      RuntimeError "split native manifest is invalid";
  lift (match native_ranges_ok n with
        | Ok _ => Ok tt
        | Raise _ => Raise (Exn RuntimeError "split native manifest byte ranges are invalid")
        end).

(** The manifest before it is checked: the captured one for a fresh process, the one bound
    before the weights were unmapped, or the captured one moved onto the live layout. *)
Definition bind_native_manifest (initial : bool) (l : list Allocation) (n : native_manifest) : ST world (native_manifest * bool) :=
  if initial then
    _ ← st_raise_if (any_released l) RuntimeError "initial native hydration requires resident weight allocations";
    mret (n, false)
  else
    cached ← st_get (λ w, pk_live (w_pack w));
    match (if any_released l then cached else None) with
    | Some (rebound, _) => mret (rebound, true)
    | None =>
        r ← lift (relocate_live true (rc_bound c) (native_split n) (pool_allocation <$> l));
        (if requires_live_residual_snapshot r then
           n ← snapshot_live_native_residual (residual_extents r) (set_layout r [] n); mret (n, true)
         else mret (native_relocated r n, false))
    end.

(** [_load_manifest] under a native selection: the manifest, and whether its residual is that
    of the live process. *)
Definition load_native_manifest (initial : bool) : ST world (native_manifest * bool) :=
  _ ← on_pack set_exported;
  _ ← st_raise_if (initial && negb template_restored) RuntimeError "initial native hydration requires a restored native activation";
  found ← st_get (λ w, pk_manifest (w_pack w));
  captured ← lift (of_option FileNotFoundError "native-manifest.json" found);
  l ← allocations PRESERVED_REGION;
  '(n, live) ← bind_native_manifest initial l captured;
  _ ← st_raise_if (native_mismatch s n) RuntimeError "snapshot does not belong to this live worker process";
  _ ← st_raise_if (bool_decide (nm_entries n = [])) RuntimeError "snapshot allocation entries are invalid";
  _ ← st_raise_if (has_dups (entry_key <$> nm_entries n)) RuntimeError "snapshot allocation entries contain duplicates";
  _ ← st_raise_if (negb initial && negb (set_eqb (allocation_key <$> l) (entry_key <$> nm_entries n)))
      RuntimeError "snapshot allocation map differs from the live worker";
  _ ← check_native_manifest initial live l n;
  mret (n, live).

(** ** Reading the pack *)

(** [_restore_split_native] *)
Definition restore_split_native (n : native_manifest) (live : bool) : ST world unit :=
  _ ← remap_allocations (nm_entries n);
  _ ← restore_exact_extents hydrator c s open_payload (pack_file_extent <$> nm_model n);
  restore_exact_extents hydrator c s (open_residual live) (residual_file_extent <$> nm_residual n).
(** The preserved part of [resume] under a native selection. *)
Definition restore_native : ST world (native_manifest * bool) :=
  '(n, live) ← load_native_manifest false;
  _ ← restore_split_native n live;
  mret (n, live).

(** [hydrate_initial_native_weights]: the extents of the pack at the live ranges of the same
    names. *)
Definition live_range (semantics : list semantic_range) (id : pystr) : option (Z * Z) :=
  (λ p : nat * semantic_range, p.2.1) <$> list_find (λ r : semantic_range, r.2 = id) semantics.
Definition relocate_initial (l : list Allocation) (semantics : list semantic_range) (x : pack_extent) : res pack_extent :=
  id ← of_option KeyError "semantic_id" (x_semantic (px_extent x));
  '(pointer, size) ← of_option KeyError "semantic_id" (live_range semantics id);
  let owners := filter (λ a, al_pointer a <= pointer ∧ pointer + size <= al_pointer a + al_size a ∧ al_released a = false) l in
  match owners with
  | [a] => _ ← raise_if (negb (size =? x_size (px_extent x)) || (size <=? 0)) RuntimeError "initial native model extent differs from the live weight allocation";
           mret (move_packed x (move_extent (px_extent x) pointer (al_pointer a)))
  | _ => Raise (Exn RuntimeError "initial native model extent differs from the live weight allocation")
  end.
Fixpoint adjacent_overlap (l : list (Z * Z)) : bool :=
  match l with
  | a :: ((b :: _) as rest) => (b.1 <? a.2) || adjacent_overlap rest
  | _ => false
  end.
Definition hydrate_initial_native_weights : ST world unit :=
  _ ← synchronize;
  '(n, _) ← load_native_manifest true;
  let semantics := native_model_payload_semantics (rc_bound c) in
  let captured := nm_model n in
  ids ← lift (of_option RuntimeError "initial native semantic model layout differs from the captured model" (mapM (λ x, x_semantic (px_extent x)) captured));
  _ ← st_raise_if (bool_decide (semantics = []) || has_dups semantics.*2 || has_dups ids || negb (set_eqb semantics.*2 ids))
      RuntimeError "initial native semantic model layout differs from the captured model";
  l ← allocations PRESERVED_REGION;
  relocated ← lift (mapM (relocate_initial l semantics) captured);
  let ranges := (λ x, (x_ptr (px_extent x), x_ptr (px_extent x) + x_size (px_extent x))) <$> relocated in
  _ ← st_raise_if (adjacent_overlap (py_sorted (pair_leb Z.leb Z.leb) ranges)) RuntimeError "initial native model extents overlap";
  _ ← restore_exact_extents hydrator c s open_payload (pack_file_extent <$> relocated);
  _ ← synchronize;
  st_set (λ w, set_phase (w_phase w) (lit "running", lit "initial-native-hydration") w).
End native.
