(* ===== verification/DiskNativeSpec.v ===== *)
(** * Theorems about a native activation

    The bytes of a captured pack lie where its manifest says; a restore puts them at the live
    addresses of the extents, and the residual of the capture, or the live process's own, at
    the rest. *)

From S2P Require Import Prelude Ranges PyFloat PyJson Hash Memory MemorySpec Hydration DiskLayout DiskLayoutSpec DiskRelocation DiskShared VllmMemory VllmMemorySpec.
From S2P Require Import Artifact DiskPipeline DiskPipelineSpec DiskSleep DiskSleepSpec DiskRecovery DiskRecoverySpec DiskNative.

Notation file_extent := (Z * Z * Z * pystr)%type.

(** The file holds the bytes [v] of an extent at its offset. *)
Definition file_holds (v : Z → option N) (f : pybytes) (x : file_extent) : Prop :=
  0 < x.1.1.2 ∧ 0 <= x.1.2 ∧ ∀ k, 0 <= k < x.1.1.2 → v (x.1.1.1 + k) = f !! Z.to_nat (x.1.2 + k).

(** ** Extents that tile *)

Definition hits (z : Z) (r : Z * Z) : Prop := r.1 <= z < r.2.
#[global] Instance hits_dec z r : Decision (hits z r).
Proof. unfold hits. apply _. Defined.
Lemma filter_none {A} (P : A → Prop) `{∀ x, Decision (P x)} l : Forall (λ x, ¬ P x) l → filter P l = [].
Proof. induction 1 as [|x l Hx _ IH]; [done|]. by rewrite filter_cons, decide_False. Qed.
Lemma covers_loop_once z : ∀ ranges cursor end_, covers_loop cursor end_ ranges = true →
  Forall (λ r : Z * Z, cursor <= r.1) ranges ∧ (length (filter (hits z) ranges) <= 1)%nat.
Proof.
  induction ranges as [|[start stop] ranges IH]; intros cursor end_ E; cbn [covers_loop] in E; [split; [constructor|cbn; lia]|].
  apply andb_true_iff in E as [[E1%Z.eqb_eq E2%Z.ltb_lt]%andb_true_iff E]. apply IH in E as [Hge Hlen]. split.
  - constructor; [cbn; lia|]. eapply Forall_impl; [exact Hge|]. cbn. lia.
  - rewrite filter_cons. case_decide as Hz; [|done]. unfold hits in Hz. cbn in Hz. cbn [length].
    rewrite filter_none; [done|]. eapply Forall_impl; [exact Hge|]. unfold hits. cbn. lia.
Qed.

(** No byte belongs to two of the extents that tile allocations that are apart. *)
Definition extent_range (x : extent) : Z * Z := (x_ptr x, x_ptr x + x_size x).
Lemma ranges_tile_apart entries model residual x y z : ranges_tile entries (model ++ residual) = true →
  (∀ a b, a ∈ entry_allocation <$> entries → b ∈ entry_allocation <$> entries →
    a_pointer a <= z < a_pointer a + a_size a → a_pointer b <= z < a_pointer b + a_size b → a_pointer a = a_pointer b) →
  x ∈ model → y ∈ residual → hits z (extent_range x) → hits z (extent_range y) → False.
Proof.
  intros Ht Hone Hx Hy Hxz Hyz. unfold ranges_tile in Ht. apply andb_true_iff in Ht as [Hin Hcov]. rewrite forallb_forall in Hin, Hcov.
  assert (∀ e, e ∈ model ++ residual → hits z (extent_range e) → ∃ a, a ∈ entry_allocation <$> entries ∧ x_alloc e = a_pointer a
    ∧ a_pointer a <= z < a_pointer a + a_size a) as Hown.
  { intros e He Hz. specialize (Hin e (proj1 (list_elem_of_In _ _) He)). unfold captured_extent_ok in Hin. apply existsb_exists in Hin as (a & Ha & Hb).
    guards. exists a. unfold hits, extent_range in Hz. cbn in Hz. split_and!; [by apply list_elem_of_In|lia..]. }
  destruct (Hown x) as (a & Ha & Hxa & Haz); [apply elem_of_app; by left|done|]. destruct (Hown y) as (b & Hb & Hyb & Hbz); [apply elem_of_app; by right|done|].
  pose proof (Hone a b Ha Hb Haz Hbz) as Hab. specialize (Hcov a (proj1 (list_elem_of_In _ _) Ha)). unfold captured_covered in Hcov.
  apply (covers_loop_once z) in Hcov as [_ Hlen]. rewrite py_sorted_perm, filter_app, fmap_app, filter_app, length_app in Hlen.
  assert (∀ l e, e ∈ l → x_alloc e = a_pointer a → hits z (extent_range e) →
    length (filter (hits z) ((λ x, (x_ptr x, x_ptr x + x_size x)) <$> filter (λ x, x_alloc x = a_pointer a) l)) ≠ 0%nat) as Hcount.
  { intros l e He Hea Hez. assert (extent_range e ∈ filter (hits z) ((λ x, (x_ptr x, x_ptr x + x_size x)) <$> filter (λ x, x_alloc x = a_pointer a) l)) as Hm.
    { apply list_elem_of_filter. split; [done|]. apply list_elem_of_fmap. exists e. split; [done|]. by apply list_elem_of_filter. }
    intros E0%nil_length_inv. rewrite E0 in Hm. by apply not_elem_of_nil in Hm. }
  pose proof (Hcount model x Hx Hxa Hxz). pose proof (Hcount residual y Hy ltac:(congruence) Hyz). lia.
Qed.

Lemma ranges_tile_once entries extents i j x y z : ranges_tile entries extents = true →
  (∀ a b, a ∈ entry_allocation <$> entries → b ∈ entry_allocation <$> entries →
    a_pointer a <= z < a_pointer a + a_size a → a_pointer b <= z < a_pointer b + a_size b → a_pointer a = a_pointer b) →
  extents !! i = Some x → extents !! j = Some y → hits z (extent_range x) → hits z (extent_range y) → i = j.
Proof.
  intros Ht Hone.
  assert (∀ i j x y, extents !! i = Some x → extents !! j = Some y → hits z (extent_range x) → hits z (extent_range y) → ¬ (i < j)%nat) as Hlt.
  { clear i j x y. intros i j x y Hi Hj Hx Hy Hij.
    refine (ranges_tile_apart entries (take (S i) extents) (drop (S i) extents) x y z _ Hone _ _ Hx Hy); [by rewrite take_drop| |].
    - apply list_elem_of_lookup. exists i. rewrite lookup_take_lt by lia. done.
    - apply list_elem_of_lookup. exists (j - S i)%nat. rewrite lookup_drop. rewrite <- Hj. f_equal. lia. }
  intros Hi Hj Hx Hy. destruct (Nat.lt_trichotomy i j) as [Hij|[Hij|Hij]]; [|done|]; exfalso; [by apply (Hlt i j x y)|by apply (Hlt j i y x)].
Qed.

(** ** Extents of which no two share a byte *)

Definition extent_hits (z : Z) (x : file_extent) : Prop := x.1.1.1 <= z < x.1.1.1 + x.1.1.2.
#[global] Instance extent_hits_dec z x : Decision (extent_hits z x).
Proof. unfold extent_hits. apply _. Defined.
Definition extents_apart (l : list file_extent) : Prop :=
  ∀ z i j x y, l !! i = Some x → l !! j = Some y → extent_hits z x → extent_hits z y → i = j.
Lemma extents_apart_app l k : extents_apart (l ++ k) → extents_apart l ∧ extents_apart k ∧ ∀ z, covered l z → ¬ covered k z.
Proof.
  intros Ha. split_and!.
  - intros z i j x y Hi Hj. eapply Ha; rewrite lookup_app_l; eauto using lookup_lt_Some.
  - intros z i j x y Hi Hj Hx Hy. assert (length l + i = length l + j)%nat; [|lia].
    eapply Ha; [| |exact Hx|exact Hy]; rewrite lookup_app_r by lia; rewrite <- ?Hi, <- ?Hj; f_equal; lia.
  - intros z (x & Hx & Hxz) (y & Hy & Hyz). apply list_elem_of_lookup_1 in Hx as [i Hi]. apply list_elem_of_lookup_1 in Hy as [j Hj].
    assert (i = length l + j)%nat; [|apply lookup_lt_Some in Hi; lia]. apply (Ha z i (length l + j)%nat x y); [|..|done|done].
    + rewrite lookup_app_l; [done|by eapply lookup_lt_Some].
    + rewrite lookup_app_r by lia. rewrite <- Hj. f_equal. lia.
Qed.

(** The byte a file has for an address. *)
Definition file_byte (f : pybytes) (l : list file_extent) (z : Z) : option N :=
  p ← list_find (extent_hits z) l; f !! Z.to_nat (p.2.1.2 + (z - p.2.1.1.1)).
Lemma file_byte_holds f l : extents_apart l → Forall (λ x : file_extent, 0 < x.1.1.2 ∧ 0 <= x.1.2) l → Forall (file_holds (file_byte f l) f) l.
Proof.
  intros Ha Hs. rewrite Forall_forall in Hs. apply Forall_forall. intros x Hx. destruct (Hs x Hx) as [H1 H2]. split_and!; [done..|]. intros k Hk.
  unfold file_byte. destruct (list_find (extent_hits (x.1.1.1 + k)) l) as [[i y]|] eqn:E.
  - apply list_find_Some in E as (Hi & Hy & _). apply list_elem_of_lookup_1 in Hx as [j Hj].
    assert (i = j) as -> by (eapply Ha; [exact Hi|exact Hj|exact Hy|unfold extent_hits; lia]). assert (y = x) as -> by congruence. cbn. f_equal. lia.
  - exfalso. apply list_find_None in E. rewrite Forall_forall in E. apply (E x Hx). unfold extent_hits. lia.
Qed.

(** Ranges in order of which neighbours do not overlap. *)
Lemma adjacent_once z l : adjacent_overlap l = false → Forall (λ r : Z * Z, r.1 < r.2) l → (length (filter (hits z) l) <= 1)%nat.
Proof.
  intros Ho Hs. assert (match l with r :: k => Forall (λ q : Z * Z, r.2 <= q.1) k | [] => True end ∧ (length (filter (hits z) l) <= 1)%nat) as [_ ?]; [|done].
  induction l as [|a l IH]; [split; [done|cbn; lia]|]. apply Forall_cons in Hs as [Ha Hs].
  assert (adjacent_overlap l = false) as Ho' by (destruct l; [done|]; cbn in Ho; by apply orb_false_iff in Ho as [_ Ho]). destruct (IH Ho' Hs) as [Hh Hlen].
  assert (Forall (λ q : Z * Z, a.2 <= q.1) l) as Hge.
  { destruct l as [|b l]; [constructor|]. cbn in Ho. apply orb_false_iff in Ho as [Hab%Z.ltb_ge _]. apply Forall_cons in Hs as [Hb _].
    constructor; [done|]. eapply Forall_impl; [exact Hh|]. cbn. lia. }
  split; [done|]. rewrite filter_cons. case_decide as Hz; [|done]. unfold hits in Hz. cbn [length]. rewrite filter_none; [done|].
  eapply Forall_impl; [exact Hge|]. unfold hits. cbn. lia.
Qed.
Lemma filter_once {A} (P : A → Prop) `{∀ x, Decision (P x)} l i j x y : (length (filter P l) <= 1)%nat → l !! i = Some x → l !! j = Some y → P x → P y → i = j.
Proof.
  intros Hlen. assert (∀ i j x y, l !! i = Some x → l !! j = Some y → P x → P y → ¬ (i < j)%nat) as Hlt.
  { clear i j x y. intros i j x y Hi Hj Hx Hy Hij. rewrite <- (take_drop (S i) l), filter_app, length_app in Hlen.
    assert (∀ k z, z ∈ k → P z → length (filter P k) ≠ 0%nat) as Hne.
    { intros k z Hz HP E%nil_length_inv. assert (z ∈ filter P k) as Hin by (by apply list_elem_of_filter). rewrite E in Hin. by apply not_elem_of_nil in Hin. }
    pose proof (Hne (take (S i) l) x) as H1. pose proof (Hne (drop (S i) l) y) as H2.
    assert (x ∈ take (S i) l) by (apply list_elem_of_lookup; exists i; rewrite lookup_take_lt by lia; done).
    assert (y ∈ drop (S i) l) by (apply list_elem_of_lookup; exists (j - S i)%nat; rewrite lookup_drop, <- Hj; f_equal; lia).
    specialize (H1 ltac:(done) Hx). specialize (H2 ltac:(done) Hy). lia. }
  intros Hi Hj Hx Hy. destruct (Nat.lt_trichotomy i j) as [Hij|[Hij|Hij]]; [|done|]; exfalso; [by apply (Hlt i j x y)|by apply (Hlt j i y x)].
Qed.

(** ** Relocation of a manifest *)

(** An extent of the pack and the one read in its place: the same part of the file, at the same
    address or at the live range of its name. *)
Record moved_extent (semantics : list semantic_range) (x y : pack_extent) : Prop := {
  mx_offset : px_offset y = px_offset x;
  mx_size : x_size (px_extent y) = x_size (px_extent x);
  mx_semantic : x_semantic (px_extent y) = x_semantic (px_extent x);
  mx_place : x_ptr (px_extent y) = x_ptr (px_extent x) ∨ ∃ id, x_semantic (px_extent x) = Some id ∧ (place (px_extent y), id) ∈ semantics;
}.
Definition moved_residual (x y : residual_extent) : Prop := re_offset y = re_offset x ∧ re_size y = re_size x.

Lemma relocate_live_cases native b n allocations r : relocate_live native b (native_split n) allocations = Ok r →
  (r = native_split n) ∨ (relocated_from_captured_va r = true
    ∧ Forall2 (λ x y, content_of y = content_of (px_extent x) ∧ ∃ id, x_semantic (px_extent x) = Some id ∧ (place y, id) ∈ relocation_semantics native b) (nm_model n) (model_weight_extents r)
    ∧ (requires_live_residual_snapshot r = true ∨ Forall2 (λ x y, x_size y = re_size x) (nm_residual n) (residual_extents r))).
Proof.
  intros E. unfold relocate_live in E. cbv zeta in E. set (ranges := if decide _ then _ else _) in E.
  destruct (decide (by_pointer (entries (native_split n)) = by_pointer allocations)) as [He|He].
  { left. unfold relocate_split_native_manifest in E. rewrite decide_True in E by done. by injection E. }
  right. assert (relocated_from_captured_va r = true) as Hr.
  { unfold relocate_split_native_manifest in E. rewrite decide_False in E by done. cbn [weight_source portable_model_payload native_split] in E.
    rewrite bool_decide_true in E by done. cbn [negb orb] in E. res_inv. done. }
  apply relocation_spec in E as (_ & Hc & Hs & Hres); [|done|done|done|].
  2:{ intros Hn. unfold ranges. rewrite decide_False; [done|]. by destruct (relocation_semantics native b). }
  split_and!; [done| |].
  - cbn in Hc. clear - Hc Hs. revert Hc. generalize (nm_model n). induction Hs as [|y l (id & Hid & Hin) _ IH]; intros [|x k] Hc; csimpl in Hc; try done.
    injection Hc as E1 E2 E3 Hc. constructor; [|by apply IH]. split; [unfold content_of; congruence|]. exists id. split; [congruence|done].
  - destruct Hres as [?|Hres]; [by left|right]. cbn in Hres. clear - Hres. revert Hres. generalize (nm_residual n).
    induction (residual_extents r) as [|y l IH]; intros [|x k] Hc; csimpl in Hc; try done.
    injection Hc as E1 _ _ Hc. constructor; [done|by apply IH].
Qed.

(** ** What a capture leaves *)

Lemma place_loop_positive allocations previous seen layout placed : place_loop allocations previous seen layout = Ok placed → Forall (λ r, 0 < r.1.2) layout.
Proof.
  revert previous seen placed. induction layout as [|[[pointer size] id] layout IH]; intros previous seen placed E; cbn [place_loop] in E; [constructor|].
  res_inv. destruct (filter _ allocations) as [|a [|]]; try done. res_inv. constructor; [|by eapply IH].
  match goal with Hb : semantic_bad _ _ _ = false |- _ => unfold semantic_bad in Hb end. guards. cbn. lia.
Qed.
Lemma partition_positive pool layout model residual : NoDup (a_pointer <$> pool) → Forall (λ a, 0 <= a_size a) pool →
  partition_semantic_weight_extents pool layout = Ok (model, residual) → Forall (λ x, 0 < x_size x) model.
Proof.
  intros HN Hs E. pose proof E as (_ & Hm & _)%partition_spec; [|done..]. unfold partition_semantic_weight_extents in E. res_inv.
  match goal with Hp : place_loop _ _ _ _ = _ |- _ => apply place_loop_positive in Hp; rewrite py_sorted_perm in Hp; rename Hp into Hpos end.
  apply Forall_forall. intros e He. assert ((x_ptr e, x_ptr e + x_size e, x_semantic e) ∈ (λ r : semantic_range, (r.1.1, r.1.1 + r.1.2, Some r.2)) <$> layout)
    as (r & [= E1 E2 _] & Hr)%list_elem_of_fmap by (rewrite <- Hm; by apply (list_elem_of_fmap_2 (λ x, (x_ptr x, x_ptr x + x_size x, x_semantic x)))).
  rewrite Forall_forall in Hpos. specialize (Hpos r Hr). cbn in Hpos. lia.
Qed.
Lemma divide_native_ok c pool d : NoDup (a_pointer <$> pool) → Forall (λ a, 0 <= a_size a) pool → divide_pool c true pool = Ok d →
  Forall (λ x, 0 < x_size x) (dv_native d).1.
Proof.
  intros HN Hs E. unfold divide_pool in E. cbv zeta in E. apply bind_Ok in E as ([] & _ & E). apply bind_Ok in E as ([] & _ & E).
  apply bind_Ok in E as ([model residual] & _ & E). apply bind_Ok in E as ([nm nr] & Hp & E). apply bind_Ok in E as (stored & _ & E).
  injection E as <-. by apply partition_positive in Hp.
Qed.

(** The contents of a pack where its entries say. *)
Lemma packed_extents_hold v canonical blocks : Forall (λ j, 0 < j_size j) (canonical_jobs canonical) →
  Forall2 (λ p d, extent_holds v p.1 d ∧ hexdigest d = p.2) canonical blocks →
  Forall (file_holds v (concat (padded <$> blocks))) (pack_file_extent <$> packed_extents canonical ((λ d, crc_hex (crc32 d 0)) <$> blocks)).
Proof.
  intros Hs Hb. assert (Forall2 (job_holds v) (canonical_jobs canonical) blocks) as Hj.
  { unfold canonical_jobs. rewrite Forall2_fmap_l. eapply Forall2_impl; [exact Hb|]. by intros p d [Hh _]. }
  rewrite Forall_fmap. apply Forall_forall. intros x Hx. unfold packed_extents in Hx. apply list_elem_of_lookup_1 in Hx as [i Hi].
  rewrite lookup_zip_with_Some in Hi. destruct Hi as ([p o] & crc & -> & Hq & Hcrc). rewrite lookup_zip_Some in Hq. destruct Hq as [Hq Ho].
  rewrite list_lookup_fmap_Some in Hcrc. destruct Hcrc as (d & _ & Hd).
  assert (canonical_jobs canonical !! i = Some (Job (x_ptr p.1) (x_size p.1) (Some p.2))) as Hp by (unfold canonical_jobs; by rewrite list_lookup_fmap, Hq).
  destruct (packed_lookup v _ _ Hj Hs 0 i _ _ _ ltac:(lia) Hp Ho Hd) as [Ho0 Hk]. cbn [j_size] in Hk.
  pose proof (Forall_lookup_1 _ _ _ _ Hs Hp) as Hsize. cbn in Hsize. cbn. split_and!; [done..|]. cbn. intros k Hkr. rewrite <- (Z.sub_0_r o), Hk by done.
  destruct (Forall2_lookup_lr _ _ _ _ _ _ Hj Hp Hd) as [Hl Hr]. cbn in Hl, Hr.
  assert (Z.to_nat k < length d)%nat as [z Hz]%lookup_lt_is_Some by lia. rewrite Hz. apply Hr in Hz. rewrite <- Hz. f_equal. lia.
Qed.

Section capture.
Context {D G : Type} `{DeviceView D} `{GraphController G}.
Notation world := (world D G).
Variables (transfer : Z → Z → Z) (stamp : nat → Z * Z * Z * Z) (time_ns : nat → Z).
Variable validate_payload : pybytes → pystr → Z → res unit.
Variables (c : recovery_config) (s : settings).
Hypothesis Hchunk : 0 < chunk_bytes s ∧ chunk_bytes s mod 4096 = 0.

(** A capture that exports leaves pack, residual file and manifest with the bytes it saw. *)
Lemma capture_written (w w' : world) m l : rc_capture_enabled c = true → pk_exported (w_pack w) = false → weights w l → NoDup (al_pointer <$> l) →
  write_recovery_manifest transfer stamp time_ns None validate_payload c s w = (Ok m, w') →
  ∃ n b rb, pk_manifest (w_pack w') = Some n ∧ pk_payload (w_pack w') = Some b ∧ w_blob w' = Some rb
    ∧ Forall (file_holds (byte w) (bf_bytes b)) (pack_file_extent <$> nm_model n)
    ∧ Forall (file_holds (byte w) (bf_bytes rb)) (residual_file_extent <$> nm_residual n).
Proof.
  intros Hcap Hexp Hw HN E. destruct (recovery_run transfer stamp time_ns validate_payload c s Hchunk _ _ _ _ Hw HN E)
    as (_ & _ & rb & d & blocks & wb & k & a & Hb & Ebytes & Ed & Hjobs & _ & Hu & Hwb & Ex).
  rewrite Hcap, Hexp in *. cbn [andb negb] in *. destruct (weights_pool _ _ Hw HN) as [HN' Hsz].
  pose proof (divide_native_ok _ _ _ HN' Hsz Ed) as Hpos. pose proof Ed as [_ Hstored]%divide_pool_ok; [|done..].
  unfold export_pack in Ex. st_inv. match goal with Hp : write_model_payload _ _ _ _ _ _ _ _ _ _ _ _ wb = (Ok ?r, ?y) |- _ => rename Hp into Ep, y into wc end.
  apply model_payload_run in Ep as (packed & b & w1 & n & Ew & Hpay & Hman & Hmod & Hres & _ & _ & _ & _ & _).
  pose proof (payload_written transfer validate_payload s Hchunk _ _ _ _ _ _ _ _ (pack_slot stamp) Hpos Ew) as (ds & bl & Hds & Hbl & -> & Hbb & _ & Ho & _).
  match goal with Hp : write_manifest _ wc = (Ok _, _) |- _ => unfold write_manifest in Hp end. unfold on_pack in *. st_inv. cbn.
  exists n, b, rb. split_and!; [done| |done| |].
  - injection Ho as Ho. apply of_option_Ok in Ho. unfold payload_file in Ho. congruence.
  - rewrite Hmod, Hbb. apply packed_extents_hold; [by apply canonical_positive|]. eapply Forall2_impl; [exact Hbl|]. intros p bs [[Hl Hr] Hh].
    split; [|done]. split; [done|]. by eapply unmoved_reads.
  - rewrite Hres, Ebytes, Forall_fmap. apply Forall_forall. intros e He. exact (view_stored _ _ _ _ Hstored Hjobs e He).
Qed.
End capture.

Section native.
Context {D G : Type} `{DeviceView D} `{GraphController G}.
Notation world := (world D G).
Variables (transfer : Z → Z → Z) (stamp : nat → Z * Z * Z * Z) (template_restored : bool).
Variables (c : recovery_config) (s : settings).
Hypothesis Hchunk : 0 < chunk_bytes s.

(** ** Restoring extents *)

Lemma exact_extents_ok v opened l b (w w' : world) : (∀ w, (opened w).2 = w) → (opened w).1 = Ok b → Forall (file_holds v (bf_bytes b)) l →
  restore_exact_extents None c s opened l w = (Ok tt, w') →
  (∀ z, covered l z → byte w' z = v z) ∧ (∀ z, ¬ covered l z → byte w' z = byte w z).
Proof.
  intros Hp Hb Hl E. unfold restore_exact_extents in E. st_inv.
  match goal with Ho : opened w = (Ok ?x, ?y) |- _ => pose proof (Hp w) as Hw; rewrite Ho in Hw, Hb; cbn in Hw, Hb; injection Hb as ->; subst y end.
  exact (restore_pass s Hchunk v (bf_bytes b) l w w' Hl E).
Qed.
Lemma exact_extents_restored opened l b (w w' : world) : (∀ w, (opened w).2 = w) → (opened w).1 = Ok b → extents_apart l →
  Forall (λ x : file_extent, 0 < x.1.1.2 ∧ 0 <= x.1.2) l → restore_exact_extents None c s opened l w = (Ok tt, w') →
  (∀ x k, x ∈ l → 0 <= k < x.1.1.2 → byte w' (x.1.1.1 + k) = bf_bytes b !! Z.to_nat (x.1.2 + k)) ∧ (∀ z, ¬ covered l z → byte w' z = byte w z).
Proof.
  intros Hp Hb Ha Hs E. pose proof (file_byte_holds (bf_bytes b) l Ha Hs) as Hf.
  destruct (exact_extents_ok _ _ _ _ _ _ Hp Hb Hf E) as [Hin Hout]. split; [|done]. intros x k Hx Hk. rewrite Hin by (exists x; split; [done|lia]).
  rewrite Forall_forall in Hf. destruct (Hf x Hx) as (_ & _ & ->); done.
Qed.
Lemma keeps_exact_extents opened l : (∀ w, (opened w).2 = w) → Runs keeps (restore_exact_extents (G := G) None c s opened l).
Proof.
  intros Hp. unfold restore_exact_extents. runs_step; [auto with runs|]. runs_step; [by apply (runs_pure keeps)|].
  apply (runs_iter keeps). intros [[[ptr size] off] crc]. unfold restore_file_extent. runs_step; [apply keeps_restore_chunks|auto with runs].
Qed.

(** ** The residual of the live process *)

Lemma write_residual_ok l : ∀ off (w w' : world) f extents total, w_tmp w = Some f → Forall (λ x, 0 < x_size x) l → 0 <= off →
  off + zsum (x_size <$> l) <= Z.of_nat (length f) → write_residual transfer s l off w = (Ok (extents, total), w') →
  ∃ data, w_tmp w' = Some (pwrite f (Z.to_nat off) data) ∧ Z.of_nat (length data) = zsum (x_size <$> l) ∧ total = off + zsum (x_size <$> l)
    ∧ unmoved w w' ∧ (λ y, (re_ptr y, re_size y, re_alloc y)) <$> extents = (λ x, (x_ptr x, x_size x, x_alloc x)) <$> l
    ∧ Forall (λ y, 0 < re_size y ∧ off <= re_offset y
        ∧ ∀ k, 0 <= k < re_size y → byte w (re_ptr y + k) = data !! Z.to_nat (re_offset y - off + k)) extents.
Proof.
  induction l as [|x l IH]; intros off w w' f extents total Ht Hs Ho Hl E; cbn [write_residual] in E.
  { st_inv. simplify_eq. exists []. rewrite pwrite_nil by (simpl in Hl; lia). split_and!; try done; simpl; lia. }
  apply Forall_cons in Hs as [Hx Hs]. csimpl in Hl. assert (0 <= zsum (x_size <$> l)) by (clear - Hs; induction Hs; csimpl; lia).
  apply st_bind_Ok in E as ([crc after] & w1 & E1 & E). apply st_bind_Ok in E as ([others total'] & w2 & E2 & E). st_inv. simplify_eq.
  pose proof (unmoved_write_chunks s transfer _ _ _ _ _ _ _ _ _ E1) as Hu.
  destruct (write_chunks_ok s transfer (x_ptr x) (x_size x) (Z.to_nat (x_size x)) 0 0%N off _ _ _ _ _ Ht ltac:(lia) ltac:(lia) Ho ltac:(lia) E1) as (d1 & Hd1 & Hr & -> & -> & Ht1).
  rewrite Z.sub_0_r in *. rewrite Z.add_0_r in Hr.
  destruct (IH (off + x_size x) _ _ _ _ _ Ht1 Hs ltac:(lia) ltac:(rewrite length_pwrite; lia) E2) as (d2 & Ht2 & Hlen & -> & Hu2 & Hk & Hf).
  exists (d1 ++ d2). split_and!.
  - rewrite Ht2. f_equal. replace (Z.to_nat (off + x_size x)) with (Z.to_nat off + length d1)%nat by lia. apply pwrite_pwrite. lia.
  - rewrite length_app. csimpl. lia.
  - csimpl. lia.
  - by etrans.
  - csimpl. by rewrite Hk.
  - constructor.
    + cbn [re_size re_offset re_ptr]. split_and!; [done|lia|]. intros k Hkr. rewrite Z.sub_diag, Z.add_0_l.
      assert (Z.to_nat k < length d1)%nat as Hlt by lia. destruct (lookup_lt_is_Some_2 _ _ Hlt) as [y Hy]. rewrite lookup_app_l, Hy by done.
      apply Hr in Hy. rewrite Z2Nat.id in Hy by lia. done.
    + eapply Forall_impl; [exact Hf|]. intros y (Hy1 & Hy2 & Hy3). split_and!; [done|lia|]. intros k Hkr.
      rewrite <- (um_bytes _ _ Hu), Hy3 by done. rewrite lookup_app_r by lia. f_equal. lia.
Qed.

(** Memory and the files of the capture stay. *)
Definition steady (w w' : world) : Prop :=
  unmoved w w' ∧ w_blob w' = w_blob w ∧ pk_payload (w_pack w') = pk_payload (w_pack w) ∧ pk_manifest (w_pack w') = pk_manifest (w_pack w).
#[local] Instance steady_preorder : PreOrder steady.
Proof. split; [intros w; by split_and!|]. intros w1 w2 w3 (? & ? & ? & ?) (? & ? & ? & ?). split_and!; [by etrans|congruence..]. Qed.
Lemma steady_copy cap p n : Runs steady (copy_to_host (G := G) cap p n).
Proof.
  intros w r w' E. split; [by eapply unmoved_copy|]. revert E. unfold copy_to_host, mbind, st_bind, lift. destruct (validate_copy cap n); [|by intros [= <- <-]].
  unfold on_device. destruct (memcpy_to_host p n (w_device w)). by intros [= <- <-].
Qed.
Lemma steady_write_tmp data off : Runs steady (write_tmp (D := D) (G := G) transfer data off).
Proof. intros w r w' E. unfold write_tmp in E. destruct (w_tmp w); [destruct (write_all_at _ _ _ _ _ _)|]; by injection E as <- <-. Qed.
Lemma steady_tmp f : Runs steady (st_set (set_tmp (D := D) (G := G) f)).
Proof. by apply runs_set. Qed.
#[local] Hint Resolve steady_copy steady_write_tmp steady_tmp : runs.
Lemma steady_write_chunks fuel ptr size copied crc off : Runs steady (write_chunks (G := G) transfer s fuel ptr size copied crc off).
Proof.
  revert copied crc off. induction fuel as [|fuel IH]; intros; cbn [DiskSleep.write_chunks]; [auto with runs|].
  destruct (_ <? _); auto 10 with runs.
Qed.
Lemma steady_write_residual l off : Runs steady (write_residual (G := G) transfer s l off).
Proof.
  revert off. induction l as [|x l IH]; intros; cbn [write_residual]; [auto with runs|].
  apply (worker_runs_bind steady); [apply steady_write_chunks|]. intros [crc after]. apply (worker_runs_bind steady); [auto|]. intros [others total]. auto with runs.
Qed.

Lemma snapshot_live_ok sources n (w w' : world) n' : Forall (λ x, 0 < x_size x) sources →
  snapshot_live_native_residual transfer stamp s sources n w = (Ok n', w') →
  steady w w' ∧ nm_model n' = nm_model n ∧ nm_entries n' = nm_entries n
  ∧ ∃ b, pk_live (w_pack w') = Some (n', b) ∧ Forall (file_holds (byte w) (bf_bytes b)) (residual_file_extent <$> nm_residual n').
Proof.
  intros Hs E. unfold snapshot_live_native_residual, ensure_space in E. cbv zeta in E. st_inv.
  match goal with Hx : st_on_error _ _ _ = (Ok ?p, ?y) |- _ => destruct p as [extents b]; rename Hx into E1; apply st_on_error_Ok in E1 end.
  unfold preallocate in E1. st_inv.
  match goal with Hx : write_residual _ _ _ _ _ = (Ok ?p, ?y) |- _ => destruct p as [xs total]; rename Hx into Ew, y into wb end.
  pose proof (steady_write_residual _ _ _ _ _ Ew) as Hst. set (bytes := zsum (x_size <$> sources)) in *.
  apply (write_residual_ok sources 0 _ _ (replicate (Z.to_nat bytes) 0%N)) in Ew as (data & Ht & Hlen & -> & Hu & _ & Hf); [|done|done|done|rewrite length_replicate; lia].
  fold bytes in Hlen.
  assert (pwrite (replicate (Z.to_nat bytes) 0%N) (Z.to_nat 0) data = data) as Hfile.
  { unfold pwrite. cbn [Z.to_nat take]. rewrite drop_ge by (rewrite length_replicate; lia). by rewrite app_nil_r. }
  rewrite Hfile in Ht. clear Hfile. st_inv.
  match goal with Hx : live_file _ wb = (Ok ?y, ?wc) |- _ => unfold live_file in Hx; rewrite Ht in Hx; destruct (stamp (w_files wb)) as [[[dv ino] mt] ct]; injection Hx as <- <- end.
  match goal with Hv : (if preverified s then _ else _) ?x = (Ok _, ?y) |- _ => assert (y = x) as -> by (destruct (preverified s); unfold verify_file in *; st_inv; done) end.
  st_inv. simplify_eq. unfold on_pack in *. st_inv.
  assert (steady w wb) as Hwb by (etrans; [|exact Hst]; by split_and!).
  destruct Hwb as (Hm & Hb & Hp1 & Hp2). split_and!; try done. { split; [by destruct Hm|done]. }
  eexists. split; [done|]. cbn [nm_residual set_residual_file bf_bytes]. rewrite Forall_fmap. eapply Forall_impl; [exact Hf|].
  intros y (Hy1 & Hy2 & Hy3). cbn. split_and!; [done..|]. cbn. intros k Hk. specialize (Hy3 k Hk). rewrite Z.sub_0_r in Hy3.
  exact Hy3.
Qed.

Lemma write_residual_sizes l : ∀ off (w w' : world) extents total, write_residual transfer s l off w = (Ok (extents, total), w') →
  re_size <$> extents = x_size <$> l.
Proof.
  induction l as [|x l IH]; intros off w w' extents total E; cbn [write_residual] in E; [st_inv; by simplify_eq|].
  apply st_bind_Ok in E as ([crc after] & w1 & _ & E). apply st_bind_Ok in E as ([others total'] & w2 & E2 & E). st_inv. simplify_eq.
  csimpl. f_equal. by eapply IH.
Qed.
Lemma snapshot_live_sizes sources n (w w' : world) n' : snapshot_live_native_residual transfer stamp s sources n w = (Ok n', w') →
  re_size <$> nm_residual n' = x_size <$> sources.
Proof.
  intros E. unfold snapshot_live_native_residual in E. cbv zeta in E. st_inv.
  match goal with Hx : st_on_error _ _ _ = (Ok ?p, ?y) |- _ => destruct p as [extents b]; apply st_on_error_Ok in Hx as E1 end. st_inv.
  match goal with Hx : write_residual _ _ _ _ _ = (Ok ?p, ?y) |- _ => destruct p as [xs total]; apply write_residual_sizes in Hx end.
  st_inv. by simplify_eq.
Qed.

(** ** Admitted manifests *)

Lemma open_residual_pure live (w : world) : (open_residual live w).2 = w.
Proof. by destruct live. Qed.
Lemma check_native_ok initial live l n (w w' : world) : check_native_manifest s initial live l n w = (Ok tt, w') →
  w' = w ∧ (∃ b, (open_payload w).1 = Ok b) ∧ (∃ b, (open_residual live w).1 = Ok b)
  ∧ ranges_tile (nm_entries n) ((px_extent <$> nm_model n) ++ (residual_as_extent <$> nm_residual n)) = true
  ∧ Forall (λ x, 0 < x_size x) ((px_extent <$> nm_model n) ++ (residual_as_extent <$> nm_residual n)).
Proof.
  unfold check_native_manifest. intros E. st_inv.
  match goal with Ho : open_payload w = (Ok ?b, _) |- _ => injection Ho as Ho <- end.
  match goal with Ho : open_residual live w = (Ok ?b, ?y) |- _ => pose proof (open_residual_pure live w) as Hy; rewrite Ho in Hy; cbn in Hy; subst y; rename Ho into Er end.
  destruct (native_ranges_ok n) as [[]|] eqn:En; [|done]. unfold native_ranges_ok in En. cbv zeta in En. res_inv. guards.
  split_and!; [done|eexists; unfold open_payload; cbn; by match goal with Hp : payload_file w = Some _ |- _ => rewrite Hp end|eexists; by rewrite Er|done|by eapply captured_sizes].
Qed.

(** What an admitted manifest says of the live layout, and where its bytes come from: a live
    residual has the bytes of the world [u] it was taken in. *)
Record native_admitted (n : native_manifest) (l : list Allocation) (u w w' : world) (n' : native_manifest) (live : bool) : Prop := {
  na_steady : steady w w';
  na_model : Forall2 (moved_extent (relocation_semantics true (rc_bound c))) (nm_model n) (nm_model n');
  na_residual : live = false ∧ Forall2 moved_residual (nm_residual n) (nm_residual n')
    ∨ live = true ∧ ∃ b, pk_live (w_pack w') = Some (n', b) ∧ Forall (file_holds (byte u) (bf_bytes b)) (residual_file_extent <$> nm_residual n');
  na_tile : ranges_tile (nm_entries n') ((px_extent <$> nm_model n') ++ (residual_as_extent <$> nm_residual n')) = true;
  na_sizes : Forall (λ x, 0 < x_size x) ((px_extent <$> nm_model n') ++ (residual_as_extent <$> nm_residual n'));
  na_keys : ∀ k, k ∈ allocation_key <$> l ↔ k ∈ entry_key <$> nm_entries n';
}.
Lemma moved_extent_refl semantics l : Forall2 (moved_extent semantics) l l.
Proof. apply Forall_Forall2_diag, Forall_true. intros x. split; try done. by left. Qed.
Lemma relocated_moved semantics l k : Forall2 (λ x y, content_of y = content_of (px_extent x)
    ∧ ∃ id, x_semantic (px_extent x) = Some id ∧ (place y, id) ∈ semantics) l k → Forall2 (moved_extent semantics) l (zip_with move_packed l k).
Proof.
  induction 1 as [|x y l k [Hc (id & Hid & Hin)] _ IH]; csimpl; constructor; [|done]. unfold content_of in Hc. injection Hc as E1 E2 _.
  split; cbn; try done. right. eauto.
Qed.
Lemma residual_moved l k : Forall2 (λ x y, x_size y = re_size x) l k → Forall2 moved_residual l (zip_with move_residual l k).
Proof. induction 1 as [|x y l k Hc _ IH]; csimpl; constructor; [by split|done]. Qed.

Lemma load_native_ok n l (w w' : world) n' live : load_native_manifest transfer stamp template_restored c s false w = (Ok (n', live), w') →
  pk_manifest (w_pack w) = Some n → weights w l → pk_live (w_pack w) = None ∨ any_released l = false → native_admitted n l w w w' n' live.
Proof.
  intros E Hn Hl Hlive. unfold load_native_manifest in E. apply st_bind_Ok in E as ([] & w1 & E1 & E). apply st_set_Ok in E1 as ->.
  set (w1 := set_pack _ w) in E. assert (steady w w1) as Hw1 by by split_and!.
  st_inv. res_inv. match goal with Hx : pk_manifest _ = Some ?m |- _ => assert (m = n) as -> by (cbn in Hx; congruence) end.
  match goal with Ha : allocations _ w1 = (Ok ?k, _) |- _ => injection Ha as Ha <-; assert (k = l) as -> by (change (w_memory w1) with (w_memory w) in Ha; unfold weights in Hl; congruence) end.
  match goal with Hx : bind_native_manifest _ _ _ _ _ _ _ _ = (Ok ?p, ?y) |- _ => destruct p as [m lv]; rename Hx into Eb, y into w2 end.
  st_inv. guards. match goal with Hc : check_native_manifest _ _ _ _ _ _ = (Ok ?u, _) |- _ => destruct u; apply check_native_ok in Hc as (-> & _ & _ & Ht & Hs) end.
  st_inv. simplify_eq.
  match goal with Hk : negb false && _ = false |- _ => apply negb_false_iff in Hk; rewrite set_eqb_spec in Hk; rename Hk into Hkeys end.
  unfold bind_native_manifest in Eb. apply st_bind_Ok in Eb as (cached & w3 & Ec & Eb). apply st_get_Ok in Ec as [-> ->].
  assert ((if any_released l then pk_live (w_pack w1) else None) = None) as Hnone by (destruct Hlive as [Hlive|Hlive]; [|by rewrite Hlive]; by destruct (any_released l)).
  rewrite Hnone in Eb. apply st_bind_Ok in Eb as (r & w4 & Er & Eb). apply lift_Ok in Er as [Er ->].
  destruct (requires_live_residual_snapshot r) eqn:Ereq; apply relocate_live_cases in Er as [-> | (Hva & Hmod & Hres)]; try done.
  - apply st_bind_Ok in Eb as (n2 & w5 & Es & Eb). st_inv. simplify_eq.
    assert (Forall (λ x, 0 < x_size x) (residual_extents r)) as Hpos.
    { apply Forall_app in Hs as [_ Hs]. rewrite Forall_fmap in Hs. pose proof (snapshot_live_sizes _ _ _ _ _ Es) as Hz.
      change (Forall (λ x, 0 < re_size x) (nm_residual n2)) in Hs. rewrite <- (Forall_fmap re_size (λ z, 0 < z)), Hz, Forall_fmap in Hs. exact Hs. }
    apply snapshot_live_ok in Es as (Hst & Hm & He & b & Hb & Hf); [|done]. split; try done.
    + by etrans.
    + rewrite Hm. by apply relocated_moved.
    + right. split; [done|]. exists b. split; [done|]. eapply Forall_impl; [exact Hf|]. intros y (? & ? & Hy). split_and!; [done..|].
      intros k Hk. rewrite <- (um_bytes _ _ (proj1 Hw1)). by apply Hy.
  - st_inv. simplify_eq. split; try done; cbn; [apply moved_extent_refl|]. left. split; [done|]. apply Forall_Forall2_diag, Forall_true. by split.
  - st_inv. simplify_eq. destruct Hres as [?|Hres]; [congruence|]. unfold native_relocated in *. rewrite Hva in *. split; try done.
    + by apply relocated_moved.
    + left. split; [done|]. by apply residual_moved.
Qed.

(** While weights are unmapped, the residual bound before is the one in use. *)
Lemma load_cached_ok n l k (u u' w w' : world) bound n' live : native_admitted n k u u u' bound true → pk_live (w_pack w) = pk_live (w_pack u') →
  load_native_manifest transfer stamp template_restored c s false w = (Ok (n', live), w') →
  pk_manifest (w_pack w) = Some n → weights w l → any_released l = true → native_admitted n l u w w' n' live.
Proof.
  intros [_ Hmod Hres _ _ _] Hlive E Hn Hl Hrel. destruct Hres as [[? _]|(_ & b & Hb & Hhold)]; [done|]. rewrite Hb in Hlive.
  unfold load_native_manifest in E. apply st_bind_Ok in E as ([] & w1 & E1 & E). apply st_set_Ok in E1 as ->.
  set (w1 := set_pack _ w) in E. assert (steady w w1) as Hw1 by by split_and!.
  st_inv. res_inv. match goal with Hx : pk_manifest _ = Some ?m |- _ => assert (m = n) as -> by (cbn in Hx; congruence) end.
  match goal with Ha : allocations _ w1 = (Ok ?k, _) |- _ => injection Ha as Ha <-; assert (k = l) as -> by (change (w_memory w1) with (w_memory w) in Ha; unfold weights in Hl; congruence) end.
  match goal with Hx : bind_native_manifest _ _ _ _ _ _ _ _ = (Ok ?p, ?y) |- _ => destruct p as [m lv]; rename Hx into Eb, y into w2 end.
  st_inv. guards. match goal with Hc : check_native_manifest _ _ _ _ _ _ = (Ok ?u, _) |- _ => destruct u; apply check_native_ok in Hc as (-> & _ & _ & Ht & Hs) end.
  st_inv. simplify_eq.
  match goal with Hk : negb false && _ = false |- _ => apply negb_false_iff in Hk; rewrite set_eqb_spec in Hk; rename Hk into Hkeys end.
  unfold bind_native_manifest in Eb. apply st_bind_Ok in Eb as (cached & w3 & Ec & Eb). apply st_get_Ok in Ec as [-> ->].
  change (pk_live (w_pack w1)) with (pk_live (w_pack w)) in Eb. rewrite Hrel, Hlive in Eb. st_inv. simplify_eq. split; try done.
  right. split; [done|]. by exists b.
Qed.

(** ** Restoring *)

(** Work on the device and the maps leaves the files. *)
Definition files_stay (w w' : world) : Prop := w_blob w' = w_blob w ∧ w_pack w' = w_pack w.
#[local] Instance files_stay_preorder : PreOrder files_stay.
Proof. split; [by intros w|]. intros w1 w2 w3 [] []. split; congruence. Qed.
Lemma files_device {A} (op : D → res A * D) : Runs files_stay (on_device (G := G) op).
Proof. intros w r w' E. unfold on_device in E. destruct (op _). by injection E as <- <-. Qed.
#[local] Hint Resolve files_device : runs.
Lemma files_remap entries : Runs files_stay (remap_allocations (D := D) (G := G) entries).
Proof.
  assert (∀ a, Runs files_stay (memory_remap (D := D) (G := G) a)) as Hm.
  { intros a w r w' E. unfold memory_remap, remap in E. destruct (map_device _ _ _) as [[[]|] ?]; by injection E as <- <-. }
  unfold remap_allocations. runs_step; [by intros w r w' [= <- <-]|]. induction a as [|x l IH]; cbn [remap_weights]; [auto with runs|].
  runs_step; [|runs_step; auto with runs]. unfold remap_weight. do 3 (runs_step; [auto with runs|]).
  runs_step; [|auto with runs]. destruct (_ && _); [|auto with runs]. runs_step; [apply Hm|by apply runs_set].
Qed.
Lemma files_exact opened l : (∀ w, (opened w).2 = w) → Runs files_stay (restore_exact_extents (G := G) None c s opened l).
Proof.
  intros Hp. unfold restore_exact_extents. runs_step; [auto with runs|]. runs_step; [by apply (runs_pure files_stay)|].
  apply (runs_iter files_stay). intros [[[ptr size] off] crc]. unfold restore_file_extent. runs_step; [|auto with runs].
  set (copied := 0) at 1. generalize copied. clear copied. generalize 0%N. induction (Z.to_nat size) as [|fuel IH]; intros x copied; cbn [restore_chunks]; [auto with runs|].
  destruct (_ <? _); [|auto with runs]. cbv zeta. do 3 (runs_step; [auto with runs|]). apply IH.
Qed.

(** The extents of an admitted manifest do not share bytes. *)
Lemma apart_one (l : list Allocation) a b z : ForallOrdPairs alloc_apart l → a ∈ l → b ∈ l →
  al_pointer a <= z < al_pointer a + al_size a → al_pointer b <= z < al_pointer b + al_size b → al_pointer a = al_pointer b.
Proof.
  intros Hf Ha%list_elem_of_In Hb%list_elem_of_In Hza Hzb. destruct (ForallOrdPairs_In Hf a b Ha Hb) as [-> | [Hab|Hab]]; [done|..];
    unfold alloc_apart in Hab; lia.
Qed.
Lemma admitted_apart n l (u w w' : world) n' live : native_admitted n l u w w' n' live → ForallOrdPairs alloc_apart l →
  extents_apart ((pack_file_extent <$> nm_model n') ++ (residual_file_extent <$> nm_residual n')).
Proof.
  intros [_ _ _ Ht _ Hk] Hap z i j x y Hi Hj Hx Hy.
  set (L := (pack_file_extent <$> nm_model n') ++ (residual_file_extent <$> nm_residual n')) in *. set (E := (px_extent <$> nm_model n') ++ (residual_as_extent <$> nm_residual n')) in Ht.
  assert ((λ x : file_extent, (x.1.1.1, x.1.1.1 + x.1.1.2)) <$> L = extent_range <$> E) as HLE.
  { unfold L, E. rewrite !fmap_app, <- !list_fmap_compose. done. }
  assert (∀ i x, L !! i = Some x → extent_hits z x → ∃ e, E !! i = Some e ∧ hits z (extent_range e)) as Hat.
  { clear i j x y Hi Hj Hx Hy. intros i x Hi Hx. assert ((extent_range <$> E) !! i = Some (x.1.1.1, x.1.1.1 + x.1.1.2)) as He by (by rewrite <- HLE, list_lookup_fmap, Hi).
    rewrite list_lookup_fmap_Some in He. destruct He as (e & Ee & He). exists e. split; [done|]. by rewrite <- Ee. }
  destruct (Hat _ _ Hi Hx) as (e1 & He1 & Hz1). destruct (Hat _ _ Hj Hy) as (e2 & He2 & Hz2).
  eapply ranges_tile_once; [exact Ht| |exact He1|exact He2|exact Hz1|exact Hz2].
  assert (∀ a, a ∈ entry_allocation <$> nm_entries n' → ∃ b, b ∈ l ∧ al_pointer b = a_pointer a ∧ al_size b = a_size a) as Hlive.
  { intros a (e & -> & He)%list_elem_of_fmap. assert (entry_key e ∈ allocation_key <$> l) as (b & Eb & Hb)%list_elem_of_fmap by (apply Hk; by apply list_elem_of_fmap_2).
    unfold entry_key, allocation_key in Eb. injection Eb as E1 E2 _. by exists b. }
  intros a b Ha Hb Haz Hbz. destruct (Hlive a Ha) as (a0 & Ha0 & Ep & Es), (Hlive b Hb) as (b0 & Hb0 & Ep' & Es').
  rewrite <- Ep, <- Ep'. apply (apart_one l a0 b0 z); [done..|lia|lia].
Qed.

Notation restore_native := (restore_native transfer stamp None template_restored c s).
Lemma covered_elem {A} (f : A → file_extent) l x k : x ∈ l → 0 <= k < (f x).1.1.2 → covered (f <$> l) ((f x).1.1.1 + k).
Proof. intros Hx Hk. exists (f x). split; [by apply list_elem_of_fmap_2|lia]. Qed.

Lemma admitted_offsets n l (u w w1 : world) n1 live : native_admitted n l u w w1 n1 live → Forall (λ x, 0 <= px_offset x) (nm_model n) →
  Forall (λ x, 0 <= re_offset x) (nm_residual n) →
  Forall (λ x : file_extent, 0 < x.1.1.2 ∧ 0 <= x.1.2) (pack_file_extent <$> nm_model n1)
  ∧ Forall (λ x : file_extent, 0 < x.1.1.2 ∧ 0 <= x.1.2) (residual_file_extent <$> nm_residual n1).
Proof.
  intros [_ Hmod Hres _ Hsz _] Hmo Hro. apply Forall_app in Hsz as [Hs1 Hs2]. rewrite Forall_fmap in Hs1. rewrite Forall_fmap in Hs2. rewrite !Forall_fmap. split.
  - apply Forall_and. split; [done|]. clear - Hmod Hmo. induction Hmod as [|x y k k' [Ho _ _ _] _ IH]; constructor; apply Forall_cons in Hmo as [Hx Hmo]; [cbn; lia|auto].
  - apply Forall_and. split; [done|]. destruct Hres as [[_ Hres]|(_ & b & _ & Hf)].
    + clear - Hres Hro. induction Hres as [|x y k k' [Ho _] _ IH]; constructor; apply Forall_cons in Hro as [Hx Hro]; [cbn; lia|auto].
    + rewrite Forall_fmap in Hf. eapply Forall_impl; [exact Hf|]. by intros y (_ & ? & _).
Qed.

(** The bytes of the pack at the live addresses of its extents, and those of the residual file
    in use at the rest. *)
Lemma split_native_bytes n l b (u w w1 w' : world) n1 live : native_admitted n l u w w1 n1 live → ForallOrdPairs alloc_apart l →
  pk_payload (w_pack w) = Some b → Forall (λ x, 0 <= px_offset x) (nm_model n) → Forall (λ x, 0 <= re_offset x) (nm_residual n) →
  restore_split_native None c s n1 live w1 = (Ok tt, w') →
  ∃ f, (open_residual live w1).1 = Ok f
    ∧ (∀ x k, x ∈ nm_model n1 → 0 <= k < x_size (px_extent x) → byte w' (x_ptr (px_extent x) + k) = bf_bytes b !! Z.to_nat (px_offset x + k))
    ∧ (∀ x k, x ∈ nm_residual n1 → 0 <= k < re_size x → byte w' (re_ptr x + k) = bf_bytes f !! Z.to_nat (re_offset x + k)).
Proof.
  intros Ha Hap Hb Hmo Hro E. pose proof (admitted_apart _ _ _ _ _ _ _ Ha Hap) as Hapart. destruct (admitted_offsets _ _ _ _ _ _ _ Ha Hmo Hro) as [Hs1 Hs2].
  apply extents_apart_app in Hapart as (Ha1 & Ha2 & Hdis). destruct (na_steady _ _ _ _ _ _ _ Ha) as (_ & _ & Hpay & _).
  unfold restore_split_native in E. st_inv.
  match goal with Hx : remap_allocations _ w1 = (_, ?y) |- _ => apply files_remap in Hx as [Fb Fp]; rename y into w2 end.
  match goal with Hx : restore_exact_extents _ _ _ _ _ w2 = (Ok ?u, ?y) |- _ => destruct u; rename Hx into Em, y into w3 end.
  pose proof (files_exact open_payload _ (λ _, eq_refl) _ _ _ Em) as [Fb' Fp'].
  assert (∃ f, (open_residual live w3).1 = Ok f) as [f Hf].
  { unfold restore_exact_extents in E. st_inv. match goal with Ho : open_residual live w3 = (Ok ?f, _) |- _ => exists f; by rewrite Ho end. }
  apply (exact_extents_restored _ _ b) in Em as [Hin1 Hout1]; [|done|unfold open_payload, payload_file; cbn; by rewrite Fp, Hpay, Hb|done|done].
  apply (exact_extents_restored _ _ f) in E as [Hin2 Hout2]; [|apply open_residual_pure|done|done|done].
  exists f. split_and!.
  - unfold open_residual, open_blob in *. destruct live; cbn in *; congruence.
  - intros e k He Hk. pose proof (covered_elem pack_file_extent _ e k He Hk) as Hc. cbn in Hc.
    rewrite Hout2 by (by apply Hdis). apply (Hin1 (pack_file_extent e)); [by apply list_elem_of_fmap_2|done].
  - intros e k He Hk. apply (Hin2 (residual_file_extent e)); [by apply list_elem_of_fmap_2|done].
Qed.

(** ** A fresh process *)

Lemma load_initial_ok n l (w w' : world) n' live : load_native_manifest transfer stamp template_restored c s true w = (Ok (n', live), w') →
  pk_manifest (w_pack w) = Some n → weights w l → n' = n ∧ w' = set_pack (set_exported (w_pack w)) w.
Proof.
  intros E Hn Hl. unfold load_native_manifest in E. apply st_bind_Ok in E as ([] & w1 & E1 & E). apply st_set_Ok in E1 as ->.
  set (w1 := set_pack _ w) in E. st_inv. res_inv.
  match goal with Hx : pk_manifest _ = Some ?m |- _ => assert (m = n) as -> by (cbn in Hx; congruence) end.
  match goal with Ha : allocations _ w1 = (Ok ?k, _) |- _ => injection Ha as Ha <- end.
  match goal with Hx : bind_native_manifest _ _ _ _ _ _ _ _ = (Ok ?p, ?y) |- _ => destruct p as [m lv]; unfold bind_native_manifest in Hx end.
  st_inv. match goal with Hc : check_native_manifest _ _ _ _ _ _ = (Ok ?u, _) |- _ => destruct u; apply check_native_ok in Hc as (-> & _) end.
  st_inv. by simplify_eq.
Qed.

Lemma relocate_initial_ok l semantics x y : relocate_initial l semantics x = Ok y →
  px_offset y = px_offset x ∧ x_size (px_extent y) = x_size (px_extent x) ∧ 0 < x_size (px_extent y)
  ∧ ∃ id, x_semantic (px_extent x) = Some id ∧ (place (px_extent y), id) ∈ semantics.
Proof.
  unfold relocate_initial, live_range. intros E. res_inv. destruct (list_find _ semantics) as [[i [[pointer size] id]]|] eqn:Ef; [|done].
  cbn in *. simplify_eq. destruct (filter _ l) as [|a [|]]; try done. res_inv. guards. apply list_find_Some in Ef as (Hi & Hid & _). cbn in *.
  split_and!; [done..|lia|]. eexists. split; [done|]. unfold place. cbn. apply list_elem_of_lookup. exists i. rewrite Hi. repeat f_equal; [lia|done].
Qed.

Lemma initial_bytes n l b (w w' : world) : hydrate_initial_native_weights transfer stamp None template_restored c s w = (Ok tt, w') →
  pk_manifest (w_pack w) = Some n → weights w l → pk_payload (w_pack w) = Some b → Forall (λ x, 0 <= px_offset x) (nm_model n) →
  (∀ p size id, (p, size, id) ∈ native_model_payload_semantics (rc_bound c) → ∃ x, x ∈ nm_model n ∧ x_semantic (px_extent x) = Some id
     ∧ x_size (px_extent x) = size ∧ ∀ i, 0 <= i < size → byte w' (p + i) = bf_bytes b !! Z.to_nat (px_offset x + i))
  ∧ (∀ z, ¬ in_ranges (native_model_payload_semantics (rc_bound c)).*1 z → byte w' z = byte w z).
Proof.
  intros E Hn Hl Hb Ho. unfold hydrate_initial_native_weights in E. cbv zeta in E. apply st_bind_Ok in E as ([] & w1 & Es & E).
  pose proof (files_device _ _ _ _ Es) as [_ Fp]. apply unmoved_synchronize in Es as Hu1.
  apply st_bind_Ok in E as ([n1 live] & w2 & El & E).
  apply (load_initial_ok n l) in El as [-> ->]; [|congruence|unfold weights; by rewrite (um_memory _ _ Hu1)].
  set (w2 := set_pack _ w1) in E. set (semantics := native_model_payload_semantics (rc_bound c)) in *.
  apply st_bind_Ok in E as (ids & w3 & Ei & E). apply lift_Ok in Ei as [Ei ->]. apply of_option_Ok in Ei. apply mapM_Some in Ei.
  apply st_bind_Ok in E as ([] & w3 & Eg & E). apply st_raise_if_Ok in Eg as [Eg ->]. guards.
  apply st_bind_Ok in E as (l' & w3 & Ea & E). injection Ea as Ea <-.
  apply st_bind_Ok in E as (relocated & w3 & Er & E). apply lift_Ok in Er as [Er ->]. apply mapM_Ok in Er.
  assert (Forall2 (λ x y, px_offset y = px_offset x ∧ x_size (px_extent y) = x_size (px_extent x) ∧ 0 < x_size (px_extent y)
    ∧ ∃ id, x_semantic (px_extent x) = Some id ∧ (place (px_extent y), id) ∈ semantics) (nm_model n) relocated) as Hrel.
  { eapply Forall2_impl; [exact Er|]. intros x y Hxy. exact (relocate_initial_ok _ _ _ _ Hxy). }
  apply st_bind_Ok in E as ([] & w3 & Eo & E). apply st_raise_if_Ok in Eo as [Eo ->].
  apply st_bind_Ok in E as ([] & w3 & Ex & E). apply st_bind_Ok in E as ([] & w4 & Es2 & E). apply st_set_Ok in E as ->.
  apply unmoved_synchronize in Es2 as Hu4. change (byte (set_phase _ _ w4)) with (byte w4).
  apply (exact_extents_restored open_payload _ b) in Ex as [Hin Hout]; [|done|unfold open_payload, payload_file; cbn; by rewrite Fp, Hb| |].
  - split.
    + intros p size id Hsem. assert (id ∈ ids) as Hid.
      { match goal with Hq : set_eqb _ _ = true |- _ => apply (proj1 (set_eqb_spec _ _) Hq) end. by apply (list_elem_of_fmap_2 snd semantics (p, size, id)). }
      destruct (Forall2_elem_r _ _ _ _ Ei Hid) as (x & Hx & Hxs). destruct (Forall2_elem_l _ _ _ _ Hrel Hx) as (y & Hy & Hoff & Hsz & _ & id' & Hid' & Hat).
      assert (id' = id) as -> by congruence. assert (place (px_extent y) = (p, size)) as Hpl.
      { match goal with Hq : has_dups semantics.*2 = false |- _ => apply has_dups_false in Hq;
          assert ((place (px_extent y), id) = (p, size, id)) as Heq by (by eapply (NoDup_fmap_elem snd semantics)) end. exact (f_equal fst Heq). }
      unfold place in Hpl. injection Hpl as Hp1 Hp2. exists x. split_and!; [done..|lia|]. intros i Hi. rewrite (um_bytes _ _ Hu4), <- Hp1, <- Hoff.
      apply (Hin (pack_file_extent y)); [by apply list_elem_of_fmap_2|cbn; lia].
    + intros z Hz. rewrite (um_bytes _ _ Hu4), Hout; [apply (um_bytes _ _ Hu1)|]. intros (e & (y & -> & Hy)%list_elem_of_fmap & Hez). apply Hz.
      destruct (Forall2_elem_r _ _ _ _ Hrel Hy) as (x & _ & _ & _ & _ & id & _ & Hat). exists (place (px_extent y)). split; [|done].
      by apply (list_elem_of_fmap_2 fst semantics (place (px_extent y), id)).
  - intros z i j x y Hi Hj Hx Hy. rewrite list_lookup_fmap_Some in Hi. rewrite list_lookup_fmap_Some in Hj. destruct Hi as (x' & -> & Hi), Hj as (y' & -> & Hj).
    apply (adjacent_once z) in Eo; [|rewrite py_sorted_perm, Forall_fmap; apply Forall_forall; intros e He; destruct (Forall2_elem_r _ _ _ _ Hrel He) as (e' & _ & _ & _ & Hpos & _); cbn; lia].
    rewrite py_sorted_perm in Eo. eapply (filter_once (hits z) _ i j); [exact Eo|rewrite list_lookup_fmap, Hi; done|rewrite list_lookup_fmap, Hj; done|done|done].
  - rewrite Forall_fmap. clear - Hrel Ho. induction Hrel as [|x y k k' (Hoff & _ & Hpos & _) _ IH]; constructor; apply Forall_cons in Ho as [Hx Ho]; [cbn; lia|auto].
Qed.
End native.
