(* ===== verification/DiskNativeClaims.v ===== *)
(** * A native activation: the guarantees

    What a pack gives back to another process, with runs that capture on one simulated device
    and restore on another with a different layout. *)

From S2P Require Import Prelude Ranges PyFloat PyJson Hash Memory MemorySpec Hydration DiskLayout DiskLayoutSpec DiskRelocation DiskShared VllmMemory VllmMemorySpec.
From S2P Require Import Artifact DiskPipeline DiskPipelineSpec DiskSleep DiskSleepSpec DiskSleepClaims DiskRecovery DiskRecoverySpec DiskRecoveryClaims DiskNative DiskNativeSpec.

(** The worker [v] was given the files that the capture [w] left. *)
Record given_files {D G D' G' : Type} (w : world D G) (v : world D' G') : Prop := {
  gf_manifest : pk_manifest (w_pack v) = pk_manifest (w_pack w);
  gf_pack : bf_bytes <$> pk_payload (w_pack v) = bf_bytes <$> pk_payload (w_pack w);
  gf_residual : bf_bytes <$> w_blob v = bf_bytes <$> w_blob w;
}.

Section claims.
Context {D G D' G' : Type} `{DeviceView D} `{GraphController G} `{DeviceView D'} `{GraphController G'}.
Variables (transfer transfer' : Z → Z → Z) (stamp stamp' : nat → Z * Z * Z * Z) (time_ns : nat → Z) (template_restored : bool).
Variable validate_payload : pybytes → pystr → Z → res unit.
Variables (c c' : recovery_config) (s s' : settings).
Notation capture := (write_recovery_manifest (D := D) (G := G) transfer stamp time_ns None validate_payload c s).

(** The files of a worker after a capture that exports. *)
Lemma given_pack (w wc : world D G) m l (v : world D' G') : 0 < chunk_bytes s ∧ chunk_bytes s mod 4096 = 0 → rc_capture_enabled c = true →
  pk_exported (w_pack w) = false → weights w l → NoDup (al_pointer <$> l) → capture w = (Ok m, wc) → given_files wc v →
  ∃ n b rb, pk_manifest (w_pack v) = Some n ∧ pk_payload (w_pack v) = Some b ∧ w_blob v = Some rb
    ∧ Forall (file_holds (byte w) (bf_bytes b)) (pack_file_extent <$> nm_model n)
    ∧ Forall (file_holds (byte w) (bf_bytes rb)) (residual_file_extent <$> nm_residual n).
Proof.
  intros Hchunk Hcap Hexp Hl HN E [Hm Hp Hr]. destruct (capture_written _ _ _ _ _ _ Hchunk _ _ _ _ Hcap Hexp Hl HN E) as (n & b & rb & Hn & Hb & Hrb & H1' & H2').
  rewrite Hb in Hp. rewrite Hrb in Hr. destruct (pk_payload (w_pack v)) as [b'|]; [|done]. destruct (w_blob v) as [rb'|]; [|done].
  injection Hp as Hp. injection Hr as Hr. exists n, b', rb'. rewrite Hp, Hr. split_and!; try done. congruence.
Qed.

(** Where the live residual of a restore comes from: it is taken from the worker [v] itself, if
    none was bound or all its weights are mapped; or an earlier load of the same manifest, by a
    sleep, has bound it in the world [u] whose weights were all mapped. *)
Definition residual_source (wc : world D G) (u v : world D' G') (k : list Allocation) : Prop :=
  u = v ∧ (pk_live (w_pack v) = None ∨ any_released k = false)
  ∨ any_released k = true ∧ given_files wc u ∧ ∃ ku bound u', weights u ku ∧ any_released ku = false
      ∧ load_native_manifest transfer' stamp' template_restored c' s' false u = (Ok (bound, true), u') ∧ pk_live (w_pack v) = pk_live (w_pack u').

(** C5. A pack gives the captured model back on any layout: when a worker that was given the files
    of a capture has restored them, both without the native library, every extent of the model
    holds at its live address (the captured one, or the live range of its name) the bytes it
    had in the captured process. The rest of every weight allocation holds the captured residual,
    extent by extent, or, where the live layout has room for more or less, the bytes it had in the
    live process: those the restore finds while the weights are mapped, or, when some are
    unmapped, those of the earlier moment at which a sleep bound the live residual with all
    weights mapped. Provided: the capture was an export of a worker that had not exported yet,
    chunks are positive and that of the capture a multiple of 4096, the captured allocations start
    at distinct addresses, and the live ones do not overlap. *)
Theorem native_restores_capture (w wc : world D G) m l (u v v' : world D' G') k n' live :
  0 < chunk_bytes s ∧ chunk_bytes s mod 4096 = 0 → 0 < chunk_bytes s' → rc_capture_enabled c = true → pk_exported (w_pack w) = false →
  weights w l → NoDup (al_pointer <$> l) → capture w = (Ok m, wc) →
  given_files wc v → weights v k → ForallOrdPairs alloc_apart k → residual_source wc u v k →
  restore_native transfer' stamp' None template_restored c' s' v = (Ok (n', live), v') →
  ∃ n, pk_manifest (w_pack wc) = Some n
    ∧ Forall2 (λ x y, moved_extent (relocation_semantics true (rc_bound c')) x y
        ∧ ∀ i, 0 <= i < x_size (px_extent x) → byte v' (x_ptr (px_extent y) + i) = byte w (x_ptr (px_extent x) + i)) (nm_model n) (nm_model n')
    ∧ (if live then ∀ y i, y ∈ nm_residual n' → 0 <= i < re_size y → byte v' (re_ptr y + i) = byte u (re_ptr y + i)
       else Forall2 (λ x y, re_size y = re_size x ∧ ∀ i, 0 <= i < re_size x → byte v' (re_ptr y + i) = byte w (re_ptr x + i)) (nm_residual n) (nm_residual n'))
    ∧ ∀ a z, a ∈ k → al_pointer a <= z < al_pointer a + al_size a →
        (∃ y, y ∈ nm_model n' ∧ x_ptr (px_extent y) <= z < x_ptr (px_extent y) + x_size (px_extent y))
        ∨ ∃ y, y ∈ nm_residual n' ∧ re_ptr y <= z < re_ptr y + re_size y.
Proof.
  intros Hchunk Hchunk' Hcap Hexp Hl HN E Hg Hk Hap Hlive Er.
  destruct (given_pack w wc m l v Hchunk Hcap Hexp Hl HN E Hg) as (n & b & rb & Hn & Hb & Hrb & Hpack & Hres).
  unfold restore_native in Er. apply st_bind_Ok in Er as ([n1 lv] & v1 & El & Er). apply st_bind_Ok in Er as ([] & v2 & Es & Er). injection Er as -> -> ->.
  assert (native_admitted c' n k u v v1 n' live) as Ha.
  { destruct Hlive as [[-> Hlive]|(Hrel & Hgu & ku & bound & u' & Hku & Hmapped & Eu & Hb')]; [by eapply load_native_ok|].
    assert (pk_manifest (w_pack u) = Some n) as Hnu by (by rewrite (gf_manifest _ _ Hgu), <- (gf_manifest _ _ Hg)).
    apply (load_native_ok transfer' stamp' template_restored c' s' n ku) in Eu; [|done|done|by right]. by eapply load_cached_ok. }
  rewrite Forall_fmap in Hpack. rewrite Forall_fmap in Hres.
  destruct (split_native_bytes transfer' stamp' c' s' Hchunk' n k b u v v1 v' n' live Ha Hap Hb) as (f & Hf & Hmod & Hresid); [| |exact Es|].
  { eapply Forall_impl; [exact Hpack|]. by intros x (_ & ? & _). }
  { eapply Forall_impl; [exact Hres|]. by intros x (_ & ? & _). }
  exists n. destruct Ha as [(Hu & Hblob & _) Hmoved Hfrom Htile _ Hkeys]. split_and!.
  - rewrite <- (gf_manifest _ _ Hg). exact Hn.
  - rewrite Forall_forall in Hpack. apply Forall2_same_length_lookup_2; [by eapply Forall2_length|]. intros i x y Hx Hy.
    pose proof (Forall2_lookup_lr _ _ _ _ _ _ Hmoved Hx Hy) as [Ho Hs Hsem Hpl]. split; [by split|]. intros j Hj.
    destruct (Hpack x) as (_ & _ & Hxb); [by eapply list_elem_of_lookup_2|]. cbn in Hxb. rewrite Hxb by done.
    rewrite (Hmod y j) by (lia || by eapply list_elem_of_lookup_2). by rewrite Ho.
  - destruct Hfrom as [[-> Hr]|(-> & bl & Hbl & Hhold)].
    + cbn in Hf. rewrite Hblob, Hrb in Hf. injection Hf as <-. rewrite Forall_forall in Hres. apply Forall2_same_length_lookup_2; [by eapply Forall2_length|].
      intros i x y Hx Hy. destruct (Forall2_lookup_lr _ _ _ _ _ _ Hr Hx Hy) as [Ho Hs]. split; [done|]. intros j Hj.
      destruct (Hres x) as (_ & _ & Hxb); [by eapply list_elem_of_lookup_2|]. cbn in Hxb. rewrite Hxb by done.
      rewrite (Hresid y j) by (lia || by eapply list_elem_of_lookup_2). by rewrite Ho.
    + cbn in Hf. rewrite Hbl in Hf. injection Hf as <-. intros y i Hy Hi. rewrite Hresid by done.
      rewrite Forall_fmap, Forall_forall in Hhold. destruct (Hhold y Hy) as (_ & _ & Hyb). symmetry. by apply Hyb.
  - intros a z Ha Hz. unfold ranges_tile in Htile. apply andb_true_iff in Htile as [_ Hcov]. rewrite forallb_forall in Hcov.
    assert (allocation_key a ∈ entry_key <$> nm_entries n') as (e & Ek & He)%list_elem_of_fmap by (apply Hkeys; by apply list_elem_of_fmap_2).
    unfold allocation_key, entry_key in Ek. injection Ek as E1 E2 _.
    destruct (captured_covered_elem _ (entry_allocation e) z (Hcov _ (proj1 (list_elem_of_In _ _) (list_elem_of_fmap_2 entry_allocation _ _ He)))) as (x & Hx & Hxz).
    { cbn. lia. }
    apply elem_of_app in Hx as [(y & -> & Hy)%list_elem_of_fmap|(y & -> & Hy)%list_elem_of_fmap]; [left|right]; by exists y.
Qed.

(** C7. A fresh process that loads a pack before its first use has the captured model: every live
    range bound to a name holds the bytes that the extent of this name had in the captured
    process, and no other byte has changed. *)
Theorem initial_hydration_exact (w wc : world D G) m l (v v' : world D' G') k :
  0 < chunk_bytes s ∧ chunk_bytes s mod 4096 = 0 → 0 < chunk_bytes s' → rc_capture_enabled c = true → pk_exported (w_pack w) = false →
  weights w l → NoDup (al_pointer <$> l) → capture w = (Ok m, wc) → given_files wc v → weights v k →
  hydrate_initial_native_weights transfer' stamp' None template_restored c' s' v = (Ok tt, v') →
  ∃ n, pk_manifest (w_pack wc) = Some n
    ∧ (∀ p size id, (p, size, id) ∈ native_model_payload_semantics (rc_bound c') → ∃ x, x ∈ nm_model n ∧ x_semantic (px_extent x) = Some id
        ∧ x_size (px_extent x) = size ∧ ∀ i, 0 <= i < size → byte v' (p + i) = byte w (x_ptr (px_extent x) + i))
    ∧ ∀ z, ¬ in_ranges (native_model_payload_semantics (rc_bound c')).*1 z → byte v' z = byte v z.
Proof.
  intros Hchunk Hchunk' Hcap Hexp Hl HN E Hg Hk Eh.
  destruct (given_pack w wc m l v Hchunk Hcap Hexp Hl HN E Hg) as (n & b & rb & Hn & Hb & _ & Hpack & _). rewrite Forall_fmap in Hpack.
  destruct (initial_bytes transfer' stamp' template_restored c' s' Hchunk' n k b v v' Eh Hn Hk Hb) as [Hin Hout].
  { eapply Forall_impl; [exact Hpack|]. by intros x (_ & ? & _). }
  exists n. split_and!; [rewrite <- (gf_manifest _ _ Hg); exact Hn| |done]. intros p size id Hp. destruct (Hin p size id Hp) as (x & Hx & Hs & Hz & Hxb).
  exists x. split_and!; [done..|]. intros i Hi. rewrite Hxb by done. rewrite Forall_forall in Hpack. destruct (Hpack x Hx) as (_ & _ & Hv). symmetry. apply Hv. cbn. lia.
Qed.
End claims.

(** ** Witnesses *)

(** The files of a capture in a process with one larger allocation, whose residual is its own. *)
Notation sample_capture := (write_recovery_manifest whole_transfer blob_stamp sample_clock None accept_payload source_config source_settings).
Definition captured_worker : world sim unit := (sample_capture (sample_worker [])).2.
Definition no_manifest : snapshot_manifest := sample_recovery.
Definition captured_manifest : snapshot_manifest := value no_manifest (sample_capture (sample_worker [])).1.
Definition native_settings : settings :=
  Settings 4096 2 false true [] 2 9 0 (lit "w0") (lit "host:2") (lit "c1") 100000 16.
Definition native_config : recovery_config :=
  RecoveryConfig (Bound [] [] [(20482, 2, semantic_a); (20488, 3, semantic_b)]) (model_source_identity (lit "org/model") (lit "abc") []) false false (lit "auto").
Definition native_worker_of (w : world sim unit) : world sim unit :=
  World RUNNING (lit "running", []) (Provider [(Some 20480, Data (Some (lit "weights")) (Some (Some 12)) None None (Some false))] 0) []
    (Sim [(20480, 12)] (λ a, Z.to_N (a mod 7)) []) tt ∅ ∅ None None None (w_blob w) None 0 (w_pack w).
Definition native_worker : world sim unit := native_worker_of captured_worker.
Definition native_weights : list Allocation := [VllmMemory.Alloc 20480 12 (lit "weights") false].
Notation sample_restore := (restore_native whole_transfer blob_stamp None false native_config native_settings).
Definition no_native : native_manifest * bool := (NativeManifest [] [] 0 0 [] [] 0 no_stat 0 no_stat None 0 0 0 [] [] [] false [], false).
Lemma ran_pair {A B W} (p : res (A * B) * W) d b : returned p.1 = true → (value d p.1).2 = b → p = (Ok ((value d p.1).1, b), p.2).
Proof. destruct p as [[[]|] ?]; [|done]. by intros _ <-. Qed.
Lemma capture_ran : sample_capture (sample_worker []) = (Ok captured_manifest, captured_worker).
Proof. apply (ran_value (sample_capture (sample_worker [])) no_manifest). by vm_compute. Qed.
Lemma native_files_of w : given_files w (native_worker_of w).
Proof. by split. Qed.
Lemma native_files : given_files captured_worker native_worker.
Proof. exact (native_files_of captured_worker). Qed.
Lemma native_pool_of w : weights (native_worker_of w) native_weights.
Proof. by vm_compute. Qed.
Lemma native_pool : weights native_worker native_weights.
Proof. exact (native_pool_of captured_worker). Qed.

(** A sleep of that process binds its residual; then its weights are unmapped, and the wake
    restores it. *)
Notation sample_load := (load_native_manifest whole_transfer blob_stamp false native_config native_settings false).
Definition bound_worker : world sim unit := (sample_load native_worker).2.
Definition bound_manifest : native_manifest * bool := value no_native (sample_load native_worker).1.
Definition asleep_worker_of (w u : world sim unit) : world sim unit :=
  World SUSPENDED (lit "sleeping", []) (Provider [(Some 20480, Data (Some (lit "weights")) (Some (Some 12)) None None (Some true))] 0) []
    (Sim [] (λ _, 0%N) []) tt ∅ ∅ None None None (w_blob w) None 0 (set_live (pk_live (w_pack u)) (w_pack w)).
Definition asleep_worker : world sim unit := asleep_worker_of captured_worker bound_worker.
Definition asleep_weights : list Allocation := [VllmMemory.Alloc 20480 12 (lit "weights") true].
Definition woken_manifest : native_manifest * bool := value no_native (sample_restore asleep_worker).1.
Lemma bound_ran : sample_load native_worker = (Ok (bound_manifest.1, true), bound_worker).
Proof. apply (ran_pair (sample_load native_worker) no_native true); by vm_compute. Qed.
Lemma woken_ran : sample_restore asleep_worker = (Ok (woken_manifest.1, true), (sample_restore asleep_worker).2).
Proof. unfold woken_manifest. apply (ran_pair (sample_restore asleep_worker) no_native true); vm_compute; reflexivity. Qed.
Lemma asleep_files_of w u : given_files w (asleep_worker_of w u).
Proof. by split. Qed.
Lemma asleep_pool_of w u : weights (asleep_worker_of w u) asleep_weights.
Proof. by vm_compute. Qed.
Lemma asleep_live_of w u : pk_live (w_pack (asleep_worker_of w u)) = pk_live (w_pack u).
Proof. done. Qed.

Lemma native_restores_capture_witness :
  (∃ n, pk_manifest (w_pack captured_worker) = Some n
    ∧ Forall2 (λ x y, moved_extent (relocation_semantics true (rc_bound native_config)) x y
        ∧ ∀ i, 0 <= i < x_size (px_extent x) →
            byte (sample_restore asleep_worker).2 (x_ptr (px_extent y) + i) = byte (sample_worker []) (x_ptr (px_extent x) + i)) (nm_model n) (nm_model woken_manifest.1)
    ∧ (∀ y i, y ∈ nm_residual woken_manifest.1 → 0 <= i < re_size y → byte (sample_restore asleep_worker).2 (re_ptr y + i) = byte native_worker (re_ptr y + i))
    ∧ ∀ a z, a ∈ asleep_weights → al_pointer a <= z < al_pointer a + al_size a →
        (∃ y, y ∈ nm_model woken_manifest.1 ∧ x_ptr (px_extent y) <= z < x_ptr (px_extent y) + x_size (px_extent y))
        ∨ ∃ y, y ∈ nm_residual woken_manifest.1 ∧ re_ptr y <= z < re_ptr y + re_size y)
  ∧ byte (sample_restore asleep_worker).2 20483 = byte (sample_worker []) 4097.
Proof.
  split; [|by vm_compute].
  apply (native_restores_capture whole_transfer whole_transfer blob_stamp blob_stamp sample_clock false accept_payload source_config native_config
    source_settings native_settings (sample_worker []) captured_worker captured_manifest sample_weights native_worker asleep_worker (sample_restore asleep_worker).2
    asleep_weights woken_manifest.1 true).
  - by vm_compute.
  - by vm_compute.
  - done.
  - done.
  - by vm_compute.
  - by apply (bool_decide_unpack _).
  - exact capture_ran.
  - exact (asleep_files_of captured_worker bound_worker).
  - exact (asleep_pool_of captured_worker bound_worker).
  - repeat constructor.
  - right. split; [reflexivity|]. split; [exact native_files|]. exists native_weights, bound_manifest.1, bound_worker.
    split; [exact native_pool|]. split; [reflexivity|]. split; [exact bound_ran|exact (asleep_live_of captured_worker bound_worker)].
  - exact woken_ran.
Defined.

Notation sample_hydrate := (hydrate_initial_native_weights whole_transfer blob_stamp None true native_config native_settings).
Lemma initial_hydration_exact_witness :
  (∃ n, pk_manifest (w_pack captured_worker) = Some n
    ∧ (∀ p size id, (p, size, id) ∈ native_model_payload_semantics (rc_bound native_config) → ∃ x, x ∈ nm_model n ∧ x_semantic (px_extent x) = Some id
        ∧ x_size (px_extent x) = size ∧ ∀ i, 0 <= i < size → byte (sample_hydrate native_worker).2 (p + i) = byte (sample_worker []) (x_ptr (px_extent x) + i))
    ∧ ∀ z, ¬ in_ranges (native_model_payload_semantics (rc_bound native_config)).*1 z → byte (sample_hydrate native_worker).2 z = byte native_worker z)
  ∧ byte (sample_hydrate native_worker).2 20490 = byte (sample_worker []) 8194.
Proof.
  split; [|by vm_compute].
  apply (initial_hydration_exact whole_transfer whole_transfer blob_stamp blob_stamp sample_clock true accept_payload source_config native_config
    source_settings native_settings (sample_worker []) captured_worker captured_manifest sample_weights native_worker (sample_hydrate native_worker).2 native_weights).
  - by vm_compute.
  - by vm_compute.
  - done.
  - done.
  - by vm_compute.
  - by apply (bool_decide_unpack _).
  - exact capture_ran.
  - exact native_files.
  - exact native_pool.
  - apply (ran (sample_hydrate native_worker) tt). by vm_compute.
Defined.
