(* ===== verification/DiskMaterialize.v ===== *)
(** * Disk backend: materializing a model pack

    The cache of model packs of [integrations/vllm/coldsnap_disk_backend.py]: a worker that has
    recovered its weights from safetensors files writes the pack that the capture described,
    so that the next activation can read it. The entry is named by the SHA-256 of its bytes. *)

From S2P Require Import Prelude Ranges PyFloat PyJson Hash Memory Hydration DiskLayout VllmMemory.
From S2P Require Import Artifact DiskPipeline DiskSleep DiskRecovery.

(** ** The request *)

Definition MODEL_PAYLOAD_MATERIALIZATION_FORMAT : Z := 1.
Definition MODEL_PAYLOAD_MATERIALIZATION_KIND : pystr := lit "coldsnap-model-payload-materialization".

Definition request_str (v : json) : option pystr := match v with JStr s => Some s | _ => None end.
(** [isinstance(v, int)], not a [bool], and at least [low] *)
Definition request_int (low : Z) (v : json) : option Z := match v with JInt z => if low <=? z then Some z else None | _ => None end.
Definition request_digest_ok (digest : pystr) : bool := starts_with (lit "sha256:") digest && (length digest =? 71)%nat.
Definition operation_ok (alnum : N → bool) (operation : pystr) : bool :=
  negb (bool_decide (operation = [])) && (Z.of_nat (length operation) <=? 128)
  && forallb (λ ch, alnum ch || bool_decide (ch ∈ lit "._-")) operation.

(** [_model_payload_materialization]: the control file is absent, no JSON, or a value;
    [alnum] is [str.isalnum] of a character. A file that is not UTF-8 is outside the model. *)
Definition model_payload_materialization (alnum : N → bool) (control : option (option json)) (worker cache_root : pystr) : res (option materialization) :=
  match control with
  | None => mret None
  | Some parsed =>
      '(value, mode, operation, uid, gid, digest, bytes, path) ← of_option RuntimeError "model payload materialization control is invalid" (
        value ← parsed;
        mode ← jget "mode" value;
        operation ← jget "operation_id" value;
        uid ← jget "owner_uid" value;
        gid ← jget "owner_gid" value;
        workers ← jget "workers" value;
        expected ← match workers with JObj d => dict_get worker d | _ => None end;
        digest ← jget "sha256" expected;
        bytes ← jget "bytes" expected;
        path ← jget "path" expected;
        Some (value, mode, operation, uid, gid, digest, bytes, path));
      _ ← raise_if (negb (py_eq (default JNull (jget "format" value)) (JInt MODEL_PAYLOAD_MATERIALIZATION_FORMAT))
                    || negb (py_eq (default JNull (jget "kind" value)) (JStr MODEL_PAYLOAD_MATERIALIZATION_KIND)))
          RuntimeError "model payload materialization control is invalid";
      '(mode, operation, uid, gid, digest, bytes) ← of_option RuntimeError "model payload materialization control is invalid" (
        mode ← request_str mode;
        operation ← request_str operation;
        uid ← request_int 0 uid;
        gid ← request_int 0 gid;
        digest ← request_str digest;
        bytes ← request_int 1 bytes;
        Some (mode, operation, uid, gid, digest, bytes));
      _ ← raise_if (negb (bool_decide (mode ∈ [lit "async"; lit "required"])) || negb (operation_ok alnum operation) || negb (request_digest_ok digest))
          RuntimeError "model payload materialization control is invalid";
      let digest_hex := drop 7 digest in
      _ ← raise_if (negb (match fromhex digest_hex with Some b => (length b =? 32)%nat | None => false end) || negb (bool_decide (py_lower digest_hex = digest_hex)))
          RuntimeError "model payload materialization digest is invalid";
      _ ← raise_if (negb (py_eq path (JStr (lit "sha256/" ++ digest_hex ++ lit ".pack")))) RuntimeError "model payload materialization path is not content-addressed";
      _ ← raise_if (negb (starts_with (lit "/") cache_root)) RuntimeError "model payload cache root must be absolute";
      mret (Some (Materialization (bool_decide (mode = lit "required")) operation (uid, gid) digest bytes))
  end.

Section materialize.
Context {D G : Type} `{CudaDevice D} `{GraphController G}.
Notation world := (world D G).

(** The environment as in [DiskRecovery]; [validate_payload] and [publish_record] are the
    functions of [coldsnap_core.validation] on the bytes of the entry, [chown] and
    [own_owner] the file system's. [status_io] says, of the states reported so far and the next
    one, how reporting it fails, and whether after the status file was replaced (its [chown] comes
    last); [fs] how a step of the file system named here fails. Status and record files have no
    owner here. *)
Variable transfer : Z → Z → Z.
Variable stamp : nat → Z * Z * Z * Z.
Variable capture_transport : option (list (Z * Z * Z) → bool → D → res (pybytes * Z * Z * list (option pystr * option pystr) * option pystr) * D).
Variable validate_payload publish_record : pybytes → pystr → Z → res unit.
Variable chown : Z * Z → res unit.
Variable own_owner : Z * Z.
Variable status_io : list pystr → pystr → option (bool * exn).
Variable fs : string → option exn.
Variable c : recovery_config.
Variable s : settings.

Definition on_cache (f : payload_cache → payload_cache) : ST world unit := on_pack (λ k, set_cache (f (pk_cache k)) k).
Definition set_target (t : option cached_payload) (a : payload_cache) : payload_cache := Cache t (ca_staging a) (ca_record a) (ca_status a) (ca_thread a).
Definition set_staging (b : option blob_file) (a : payload_cache) : payload_cache := Cache (ca_target a) b (ca_record a) (ca_status a) (ca_thread a).
Definition set_record (r : option (pystr * Z)) (a : payload_cache) : payload_cache := Cache (ca_target a) (ca_staging a) r (ca_status a) (ca_thread a).
Definition add_status (state : pystr) (a : payload_cache) : payload_cache := Cache (ca_target a) (ca_staging a) (ca_record a) (ca_status a ++ [state]) (ca_thread a).
Definition set_thread (t : option (materialization * snapshot_manifest)) (a : payload_cache) : payload_cache :=
  Cache (ca_target a) (ca_staging a) (ca_record a) (ca_status a) t.

(** [_write_materialization_status] *)
Definition write_status (state : string) : ST world unit := λ w,
  let published := (on_cache (add_status (lit state)) w).2 in
  match status_io (ca_status (pk_cache (w_pack w))) (lit state) with
  | None => (Ok tt, published)
  | Some (replaced, e) => (Raise e, if replaced : bool then published else w)
  end.
Definition fs_step (step : string) : ST world unit := lift (match fs step with Some e => Raise e | None => Ok tt end).
Definition get_target : ST world (option cached_payload) := st_get (λ w, ca_target (pk_cache (w_pack w))).

(** [_normalize_materialization_ownership] *)
Definition normalize_ownership (cfg : materialization) : ST world unit :=
  found ← get_target;
  t ← lift (of_option FileNotFoundError "target" found);
  _ ← st_raise_if (negb (cp_regular t)) RuntimeError "model payload cache entry is not a regular file";
  if bool_decide (cp_owner t = mt_owner cfg) then mret tt else
  _ ← lift (chown (mt_owner cfg));
  on_cache (set_target (Some (CachedPayload (cp_file t) (cp_is_file t) (cp_regular t) (mt_owner cfg)))).

Definition is_payload_error (e : exc_class) : bool := match e with PayloadValidationError _ => true | _ => false end.
Definition validation_caught (e : exc_class) : bool :=
  is_payload_error e || is_os_error e || is_value_error e
  || match e with
     | RuntimeError | NotImplementedError | HydrationError | ArtifactError | MemoryCapabilityError | CheckpointResourceError
     | CoordinatorError | CoordinatorNotFound | VllmContractError | CudaEpochError => true
     | _ => false
     end.
(** [_cached_model_payload_validation] *)
Definition cached_validation (cfg : materialization) (revalidate : bool) : ST world bool :=
  found ← get_target;
  record ← st_get (λ w, ca_record (pk_cache (w_pack w)));
  match found with
  | Some t =>
      if cp_is_file t && (revalidate || bool_decide (is_Some record)) then
        st_except (_ ← lift (validate_payload (bf_bytes (cp_file t)) (mt_sha256 cfg) (mt_bytes cfg)); mret true) validation_caught
          (λ e, if is_payload_error (exc e) && revalidate then lift (Raise e) else mret false)
      else mret false
  | None => mret false
  end.

(** [_publish_model_payload_validation] *)
Definition publish_validation (cfg : materialization) : ST world unit :=
  found ← get_target;
  t ← lift (of_option FileNotFoundError "target" found);
  _ ← lift (publish_record (bf_bytes (cp_file t)) (mt_sha256 cfg) (mt_bytes cfg));
  _ ← on_cache (set_record (Some (mt_sha256 cfg, mt_bytes cfg)));
  fs_step "chown of the record".

(** The staged file, and its move to the entry. *)
Definition publish_staging : ST world unit := st_set (λ w,
  let '(device, inode, mtime, ctime) := stamp (w_files w) in
  set_pack (set_cache (set_staging ((λ f, BlobFile f device inode mtime ctime) <$> w_tmp w) (pk_cache (w_pack w))) (w_pack w))
    (set_files (w_manifest w) (w_blob w) None (S (w_files w)) w)).
Definition open_staging : ST world blob_file := λ w, (of_option FileNotFoundError "materializing" (ca_staging (pk_cache (w_pack w))), w).
Definition replace_target : ST world unit :=
  b ← open_staging;
  _ ← fs_step "os.replace";
  on_cache (λ a, set_staging None (set_target (Some (CachedPayload b true true own_owner)) a)).

(** The layout of the pack: the bound one, or that of the manifest. *)
Definition materialized_layout (m : snapshot_manifest) : res (list (Z * Z * pystr)) :=
  if decide (native_model_payload_semantics (rc_bound c) = []) then
    if decide (model_weight_semantics (rc_bound c) = []) then
      r ← of_option KeyError "model_weight_extents" (mf_recovery m);
      mapM (λ x, id ← of_option KeyError "semantic_id" (x_semantic x); mret (x_ptr x, x_size x, id)) (rp_model r)
    else mret (model_weight_semantics (rc_bound c))
  else mret (native_model_payload_semantics (rc_bound c)).

(** The part of [_materialize_model_payload] that writes the file. *)
Definition materialize_new (m : snapshot_manifest) (cfg : materialization) : ST world unit :=
  _ ← write_status "writing";
  l ← allocations PRESERVED_REGION;
  layout ← lift (materialized_layout m);
  '(model, _) ← lift (partition_semantic_weight_extents (pool_allocation <$> sort_on al_pointer l) layout);
  '(_, record, _) ← write_payload transfer capture_transport validate_payload s publish_staging open_staging model;
  _ ← st_raise_if (negb (pr_bytes record =? mt_bytes cfg) || negb (bool_decide (pr_sha256 record = mt_sha256 cfg)))
      RuntimeError "materialized model payload differs from the captured identity";
  _ ← write_status "verifying";
  _ ← replace_target;
  _ ← fs_step "_sync_directory";
  _ ← normalize_ownership cfg;
  _ ← write_status "publishing-validation";
  publish_validation cfg.

(** An entry that is there is checked again; a corrupt one is reported and written anew. *)
Definition revalidate_target (cfg : materialization) : ST world bool :=
  found ← get_target;
  match found with
  | Some t =>
      if cp_is_file t then
        _ ← normalize_ownership cfg;
        _ ← write_status "revalidation-needed";
        st_except (cached_validation cfg true) is_payload_error (λ _, _ ← write_status "corrupt"; mret false)
      else mret false
  | None => mret false
  end.
Definition clear_staging (w : world) : world := set_pack (set_cache (set_staging None (pk_cache (w_pack w))) (w_pack w)) w.

Definition remove_staging (step : string) : ST world unit := _ ← fs_step step; st_set clear_staging.

(** [_materialize_model_payload], under the lock of the entry: whether the entry was reused. *)
Definition materialize_locked (m : snapshot_manifest) (cfg : materialization) : ST world bool :=
  _ ← fs_step "fcntl.flock";
  valid ← revalidate_target cfg;
  if valid : bool then
    _ ← publish_validation cfg;
    _ ← write_status "ready";
    mret true
  else
    _ ← remove_staging "unlink of stale files";
    _ ← st_finally_run (materialize_new m cfg) (remove_staging "unlink of the staged files");
    _ ← write_status "ready";
    mret false.
(** The directory and the lock file come first; a failure after them is reported, if it can be. *)
Definition materialize_model_payload (m : snapshot_manifest) (cfg : materialization) : ST world bool :=
  _ ← fs_step "target.parent.mkdir";
  _ ← fs_step "os.open of the lock";
  st_except (materialize_locked m cfg) (λ _, true) (λ error, _ ← write_status "failed"; lift (Raise error)).

(** [_start_model_payload_materialization]: at once, or in a thread, whose failure is logged. A
    thread that was not started, because its state could not be reported, is not one to wait for. *)
Definition start_model_payload_materialization (m : snapshot_manifest) (cfg : materialization) : ST world unit :=
  if mt_required cfg then _ ← materialize_model_payload m cfg; mret tt else
  _ ← write_status "scheduled";
  on_cache (set_thread (Some (cfg, m))).
(** The thread's run, at the latest when [_wait_model_payload_materialization] joins it. *)
Definition wait_model_payload_materialization : ST world unit :=
  thread ← st_get (λ w, ca_thread (pk_cache (w_pack w)));
  match thread with
  | None => mret tt
  | Some (cfg, m) =>
      _ ← on_cache (set_thread None);
      st_except (_ ← materialize_model_payload m cfg; mret tt) (λ _, true) (λ _, mret tt)
  end.

(** What a wake starts when the controller has left a request. *)
Definition start_requested (alnum : N → bool) (control : option (option json)) (cache_root : pystr) (m : snapshot_manifest) : ST world unit :=
  requested ← lift (model_payload_materialization alnum control (own_worker s) cache_root);
  match requested with
  | None => mret tt
  | Some cfg => start_model_payload_materialization m cfg
  end.
End materialize.
