(* ===== verification/DiskMaterializeSpec.v ===== *)
(** * Theorems about the cache of model packs

    Filling an entry never leaves other bytes in it than the ones that were there or ones that
    have the hash and the length of the request. *)

From S2P Require Import Prelude Ranges PyFloat PyJson Hash Memory MemorySpec Hydration DiskLayout DiskLayoutSpec DiskShared VllmMemory VllmMemorySpec.
From S2P Require Import Artifact DiskPipeline DiskPipelineSpec DiskSleep DiskSleepSpec DiskSleepClaims DiskRecovery DiskRecoverySpec DiskRecoveryClaims.
From S2P Require Import DiskNative DiskNativeSpec DiskMaterialize.

(** The bytes of the entry. *)
Definition target_bytes {D G} (w : world D G) : option pybytes := bf_bytes ∘ cp_file <$> ca_target (pk_cache (w_pack w)).

(** [data] is the pack that a request describes, of the weights of [w]: it has the hash and the
    size asked for, and it is the model's contents in the order of their hashes. *)
Record pack_of {D G} `{DeviceView D} (c : recovery_config) (m : snapshot_manifest) (cfg : materialization) (w : world D G) (data : pybytes) : Prop := {
  po_sha256 : mt_sha256 cfg = lit "sha256:" ++ hexdigest data;
  po_bytes : mt_bytes cfg = Z.of_nat (length data);
  po_contents : ∃ l layout model residual ds, weights w l ∧ materialized_layout c m = Ok layout
    ∧ partition_semantic_weight_extents (pool_allocation <$> sort_on al_pointer l) layout = Ok (model, residual)
    ∧ Forall2 (extent_holds (byte w)) model ds ∧ (collision_free ds → data = concat (padded <$> content_order ds));
}.

Section spec.
Context {D G : Type} `{DeviceView D} `{GraphController G}.
Notation world := (world D G).
Variables (transfer : Z → Z → Z) (stamp : nat → Z * Z * Z * Z).
Variables validate_payload publish_record : pybytes → pystr → Z → res unit.
Variables (chown : Z * Z → res unit) (own_owner : Z * Z).
Variables (status_io : list pystr → pystr → option (bool * exn)) (fs : string → option exn).
Variables (c : recovery_config) (s : settings).
Notation normalize_ownership := (normalize_ownership (D := D) (G := G) chown).
Notation cached_validation := (cached_validation (D := D) (G := G) validate_payload).
Notation publish_validation := (publish_validation (D := D) (G := G) publish_record fs).
Notation write_status := (write_status (D := D) (G := G) status_io).
Notation fs_step := (fs_step (D := D) (G := G) fs).
Notation remove_staging := (remove_staging (D := D) (G := G) fs).
Notation publish_staging := (publish_staging (D := D) (G := G) stamp).
Notation revalidate_target := (revalidate_target (D := D) (G := G) validate_payload chown status_io).
Notation materialize_new := (materialize_new (D := D) (G := G) transfer stamp None validate_payload publish_record chown own_owner status_io fs c s).
Notation materialize_locked := (materialize_locked (D := D) (G := G) transfer stamp None validate_payload publish_record chown own_owner status_io fs c s).
Notation materialize_model_payload := (materialize_model_payload (D := D) (G := G) transfer stamp None validate_payload publish_record chown own_owner status_io fs c s).

(** Nothing moves and the entry keeps its bytes. *)
Definition entry_kept (w w' : world) : Prop := scratch w w' ∧ target_bytes w' = target_bytes w.
#[global] Instance entry_kept_preorder : PreOrder entry_kept.
Proof. split; [by split; [split; split|]|]. intros w1 w2 w3 [] []. split; [by etrans|congruence]. Qed.
Lemma still_kept w w' : still w w' → entry_kept w w'.
Proof. intros (? & ? & E). split; [by split|]. unfold target_bytes. by rewrite E. Qed.
Lemma kept_cache (f : payload_cache → payload_cache) : (∀ a, bf_bytes ∘ cp_file <$> ca_target (f a) = bf_bytes ∘ cp_file <$> ca_target a) →
  Runs entry_kept (on_cache (D := D) (G := G) f).
Proof. intros Hf. apply runs_set. intros w. split; [by split; split|]. apply Hf. Qed.
Lemma kept_status state : Runs entry_kept (write_status state).
Proof.
  intros w r w' E. unfold DiskMaterialize.write_status in E. destruct (status_io _ _) as [[[] e]|]; injection E as <- <-; by split; [split; split|].
Qed.
Lemma write_status_Ok state (w w' : world) : write_status state w = (Ok tt, w') →
  w' = set_pack (set_cache (add_status (lit state) (pk_cache (w_pack w))) (w_pack w)) w.
Proof. unfold DiskMaterialize.write_status. destruct (status_io _ _) as [[[] e]|]; by intros [= <-]. Qed.
Lemma kept_step step : Runs entry_kept (fs_step step).
Proof. unfold DiskMaterialize.fs_step. auto with runs. Qed.
Lemma kept_get {A} (g : world → A) : Runs entry_kept (st_get g).
Proof. auto with runs. Qed.
Lemma kept_target : Runs entry_kept (get_target (D := D) (G := G)).
Proof. apply kept_get. Qed.
Lemma kept_allocations tag : Runs entry_kept (allocations (D := D) (G := G) tag).
Proof. by intros w r w' [= <- <-]. Qed.
#[local] Hint Resolve kept_status kept_step kept_target kept_allocations : runs.
(** A step that keeps the entry: it fails, or the rest runs. *)
Lemma kept_then {A B} (m : ST world A) (f : A → ST world B) w r w' : Runs entry_kept m → (m ≫= f) w = (r, w') →
  (entry_kept w w' ∧ ∃ e, r = Raise e) ∨ ∃ a w1, m w = (Ok a, w1) ∧ entry_kept w w1 ∧ f a w1 = (r, w').
Proof.
  intros Hm E. unfold mbind, st_bind in E. destruct (m w) as [[a|e] w1] eqn:E1; [right|left]; [exists a, w1|injection E as <- <-]; eauto.
Qed.

Lemma kept_ownership cfg : Runs entry_kept (normalize_ownership cfg).
Proof.
  intros w r w' E. unfold DiskMaterialize.normalize_ownership, get_target, st_get, mbind, st_bind, lift, of_option, st_raise_if, raise_if in E.
  destruct (ca_target (pk_cache (w_pack w))) as [t|] eqn:Et; [|by injection E as <- <-]. cbn in E.
  destruct (negb (cp_regular t)); [by injection E as <- <-|]. cbn in E. destruct (bool_decide _); [by injection E as <- <-|].
  destruct (chown _); injection E as <- <-; [|done]. split; [by split; split|]. unfold target_bytes. cbn. by rewrite Et.
Qed.
Lemma kept_validation cfg b : Runs entry_kept (cached_validation cfg b).
Proof.
  unfold DiskMaterialize.cached_validation. do 2 (runs_step; [auto with runs|]). case_match; [|auto with runs]. case_match; [|auto with runs].
  apply (runs_except entry_kept); [auto with runs|]. intros e. case_match; auto with runs.
Qed.
Lemma kept_publish cfg : Runs entry_kept (publish_validation cfg).
Proof. unfold DiskMaterialize.publish_validation. do 3 (runs_step; [auto with runs|]). runs_step; [by apply kept_cache|auto with runs]. Qed.
Lemma kept_staging : Runs entry_kept publish_staging.
Proof. apply runs_set. intros w. destruct (stamp (w_files w)) as [[[? ?] ?] ?]. by split; [split; split|]. Qed.
Lemma kept_clear (w : world) : entry_kept w (clear_staging w).
Proof. by split; [split; split|]. Qed.
Lemma kept_remove step : Runs entry_kept (remove_staging step).
Proof. unfold DiskMaterialize.remove_staging. runs_step; [auto with runs|]. apply runs_set, kept_clear. Qed.
#[local] Hint Resolve kept_ownership kept_validation kept_publish kept_remove : runs.
Lemma kept_revalidate cfg : Runs entry_kept (revalidate_target cfg).
Proof.
  unfold DiskMaterialize.revalidate_target. runs_step; [auto with runs|]. case_match; [|auto with runs]. case_match; [|auto with runs].
  do 2 (runs_step; [auto with runs|]). apply (runs_except entry_kept); auto with runs.
Qed.

(** The staged file is one where a payload can go. *)
Lemma staging_slot : payload_slot publish_staging (open_staging (D := D) (G := G)).
Proof.
  split_and!; [intros w r w' E; by eapply kept_staging|done|]. intros w w' f b w2 Ht Hp Ho. unfold DiskMaterialize.publish_staging in Hp. apply st_set_Ok in Hp.
  destruct (stamp (w_files w)) as [[[dv ino] mt] ct]. subst w'. injection Ho as Ho _. apply of_option_Ok in Ho. cbn in Ho. rewrite Ht in Ho. by injection Ho as <-.
Qed.

(** The next step of a run [E] that has kept the entry so far, by [K]. *)
Tactic Notation "kept_next" hyp(E) hyp(K) simple_intropattern(a) ident(w1) ident(E1) :=
  match type of E with (?m ≫= ?f) ?w = (?r, ?w') =>
    let Hm := fresh in let K1 := fresh in let E' := fresh in
    enough (Runs entry_kept m) as Hm;
    [destruct (kept_then m f w r w' Hm E) as [[K1 ?]|(a & w1 & E1 & K1 & E')];
      [left; split; [exact (transitivity K K1)|done]|]; apply (transitivity K) in K1; clear E Hm K; rename E' into E, K1 into K|]
  end.

(** The steps after the file was moved to the entry. *)
Definition finish_entry (cfg : materialization) : ST world unit :=
  _ ← fs_step "_sync_directory"; _ ← normalize_ownership cfg; _ ← write_status "publishing-validation"; publish_validation cfg.
Lemma kept_finish cfg : Runs entry_kept (finish_entry cfg).
Proof. unfold finish_entry. auto with runs. Qed.
(** The entry has the requested owner and a validation record. *)
Definition entry_ready (cfg : materialization) (w : world) : Prop :=
  (∃ t, ca_target (pk_cache (w_pack w)) = Some t ∧ cp_regular t = true ∧ cp_owner t = mt_owner cfg)
  ∧ ca_record (pk_cache (w_pack w)) = Some (mt_sha256 cfg, mt_bytes cfg).
Lemma ownership_ok cfg (w w' : world) : normalize_ownership cfg w = (Ok tt, w') →
  ∃ t, ca_target (pk_cache (w_pack w')) = Some t ∧ cp_regular t = true ∧ cp_owner t = mt_owner cfg.
Proof.
  unfold DiskMaterialize.normalize_ownership. intros E. apply st_bind_Ok in E as (found & w1 & E1 & E). apply st_get_Ok in E1 as [-> ->].
  apply st_bind_Ok in E as (t & w2 & E2 & E). apply lift_Ok in E2 as [E2%of_option_Ok ->].
  apply st_bind_Ok in E as ([] & w3 & E3 & E). apply st_raise_if_Ok in E3 as [E3%negb_false_iff ->].
  case_bool_decide; [injection E as <-; by exists t|]. apply st_bind_Ok in E as ([] & w4 & E4 & E). apply lift_Ok in E4 as [_ ->].
  apply st_set_Ok in E as ->. by eexists.
Qed.
Lemma publish_ok cfg (w w' : world) : publish_validation cfg w = (Ok tt, w') →
  ca_target (pk_cache (w_pack w')) = ca_target (pk_cache (w_pack w)) ∧ ca_record (pk_cache (w_pack w')) = Some (mt_sha256 cfg, mt_bytes cfg).
Proof.
  unfold DiskMaterialize.publish_validation. intros E. apply st_bind_Ok in E as (found & w1 & E1 & E). apply st_get_Ok in E1 as [-> ->].
  apply st_bind_Ok in E as (t & w2 & E2 & E). apply lift_Ok in E2 as [_ ->]. apply st_bind_Ok in E as ([] & w3 & E3 & E). apply lift_Ok in E3 as [_ ->].
  apply st_bind_Ok in E as ([] & w4 & E4 & E). apply st_set_Ok in E4 as ->. apply lift_Ok in E as [_ ->]. done.
Qed.
Lemma finish_ready cfg (w w' : world) : finish_entry cfg w = (Ok tt, w') → entry_ready cfg w'.
Proof.
  unfold finish_entry. intros E. apply st_bind_Ok in E as ([] & w0 & _ & E). apply st_bind_Ok in E as ([] & w1 & E1 & E). apply st_bind_Ok in E as ([] & w2 & E2 & E).
  apply write_status_Ok in E2 as ->.
  apply publish_ok in E as [Et Er]. split; [|done]. rewrite Et. exact (ownership_ok _ _ _ E1).
Qed.

Lemma finish_replaced cfg b (w w' : world) r : open_staging w = (Ok b, w) → (_ ← replace_target own_owner fs; finish_entry cfg) w = (r, w') →
  (entry_kept w w' ∧ ∃ e, r = Raise e) ∨ (scratch w w' ∧ target_bytes w' = Some (bf_bytes b) ∧ (r = Ok tt → entry_ready cfg w')).
Proof.
  intros Ho E. unfold replace_target in E. unfold mbind at 1 2 3, st_bind in E. rewrite Ho in E. unfold DiskMaterialize.fs_step, lift in E.
  destruct (fs "os.replace") as [e|]; [injection E as <- <-; left; split; [done|by eexists]|right]. cbn [on_cache on_pack st_set] in E.
  match type of E with finish_entry _ ?w1 = _ => set (w6 := w1) in E; assert (scratch w w6) as Hs6 by (by split; split); assert (target_bytes w6 = Some (bf_bytes b)) as H6 by done end.
  destruct (kept_finish _ _ _ _ E) as [Hs Ht]. split_and!; [by etrans|congruence|]. intros ->. by eapply finish_ready.
Qed.

Hypothesis Hchunk : 0 < chunk_bytes s ∧ chunk_bytes s mod 4096 = 0.

(** A new file: the entry has its bytes, or those of the request; after a success the latter,
    with owner and record. *)
Lemma materialize_new_run m cfg (w w' : world) l r : weights w l → NoDup (al_pointer <$> l) → materialize_new m cfg w = (r, w') →
  (entry_kept w w' ∧ ∃ e, r = Raise e)
  ∨ (scratch w w' ∧ (∃ data, target_bytes w' = Some data ∧ pack_of c m cfg w data) ∧ (r = Ok tt → entry_ready cfg w')).
Proof.
  intros Hl HN E. unfold DiskMaterialize.materialize_new in E. assert (entry_kept w w) as K by done.
  kept_next E K [] w1 E1; [|auto with runs]. kept_next E K l' w2 E2; [|auto with runs]. injection E2 as El <-. apply write_status_Ok in E1.
  assert (Ok l' = Ok l) as [= ->] by (rewrite <- El, <- Hl; by subst w1).
  kept_next E K layout w2 E2; [|auto with runs]. apply lift_Ok in E2 as [Hlay ->].
  kept_next E K [model residual] w2 E2; [|auto with runs]. apply lift_Ok in E2 as [Hpart ->].
  destruct (weights_pool _ _ Hl HN) as [HN' Hsz]. pose proof (partition_positive _ _ _ _ HN' Hsz Hpart) as Hpos.
  kept_next E K [[packed record] b] w3 E3; [|apply payload_runs; [apply _|apply still_kept|apply kept_staging|done]].
  destruct (payload_written _ _ _ Hchunk _ _ _ _ _ _ _ _ staging_slot Hpos E3) as (ds & blocks & Hds & Hb & _ & Hbytes & Hrec & Hopen & _).
  kept_next E K [] w4 E4; [|auto with runs]. apply st_raise_if_Ok in E4 as [Hsame ->].
  kept_next E K [] w5 E5; [|auto with runs]. apply write_status_Ok in E5.
  assert (pack_of c m cfg w (bf_bytes b)) as Hpack.
  { apply orb_false_iff in Hsame as [Hn%negb_false_iff%Z.eqb_eq Hsha%negb_false_iff%bool_decide_eq_true]. rewrite Hrec in Hn, Hsha. split; [done..|].
    subst w1. exists l, layout, model, residual, ds. split_and!; [done..|]. intros Hc. by rewrite Hbytes, (canonical_blocks _ _ _ _ Hc Hds Hb). }
  apply (finish_replaced cfg b) in E as [[K' ?]|(Hs & Ht & Hready)]; [left; split; [by etrans|done]|right|subst w5; injection Hopen as Hopen; unfold open_staging; cbn; by rewrite Hopen]. split_and!; [etrans; [exact (proj1 K)|done]|by exists (bf_bytes b)|done].
Qed.

(** An entry that is there is accepted exactly when its bytes are valid. *)
Lemma cached_accepts cfg t (w w' : world) r : ca_target (pk_cache (w_pack w)) = Some t → cp_is_file t = true → cached_validation cfg true w = (r, w') →
  r = Ok true ↔ validate_payload (bf_bytes (cp_file t)) (mt_sha256 cfg) (mt_bytes cfg) = Ok tt.
Proof.
  intros Ht Hf. unfold DiskMaterialize.cached_validation, get_target, st_get, mbind, st_bind. rewrite Ht, Hf. cbn [orb andb].
  unfold st_except, lift, mbind, st_bind. destruct (validate_payload _ _ _) as [[]|e]; [by intros [= <- <-]|].
  destruct (validation_caught _); [destruct (_ && true)|]; by intros [= <- <-].
Qed.
Lemma ownership_file cfg t (w w' : world) : ca_target (pk_cache (w_pack w)) = Some t → normalize_ownership cfg w = (Ok tt, w') →
  ∃ t', ca_target (pk_cache (w_pack w')) = Some t' ∧ cp_file t' = cp_file t ∧ cp_is_file t' = cp_is_file t.
Proof.
  intros Ht. unfold DiskMaterialize.normalize_ownership, get_target, st_get, mbind, st_bind. rewrite Ht. cbn.
  destruct (negb (cp_regular t)); [done|]. cbn. case_bool_decide; [intros [= <-]; by exists t|]. unfold lift. destruct (chown _); intros [= <-]. by eexists.
Qed.
Lemma revalidate_accepts cfg (w w' : world) valid : revalidate_target cfg w = (Ok valid, w') →
  valid = true ↔ ∃ t, ca_target (pk_cache (w_pack w)) = Some t ∧ cp_is_file t = true
    ∧ validate_payload (bf_bytes (cp_file t)) (mt_sha256 cfg) (mt_bytes cfg) = Ok tt.
Proof.
  unfold DiskMaterialize.revalidate_target. intros E. apply st_bind_Ok in E as (found & w1 & E1 & E). apply st_get_Ok in E1 as [-> ->].
  destruct (ca_target _) as [t|] eqn:Ht; [|injection E as <- <-; split; [done|by intros (? & ? & _)]].
  destruct (cp_is_file t) eqn:Hf; [|injection E as <- <-; split; [done|intros (? & [= <-] & ? & _); congruence]].
  apply st_bind_Ok in E as ([] & w2 & E2 & E). destruct (ownership_file _ _ _ _ Ht E2) as (t' & Ht' & Hfile & His).
  apply st_bind_Ok in E as ([] & w3 & E3 & E). apply write_status_Ok in E3 as ->. unfold st_except in E.
  destruct (cached_validation cfg true _) as [r w4] eqn:Ec. apply (cached_accepts cfg t') in Ec; [|done|congruence]. rewrite Hfile in Ec.
  assert (valid = true ↔ r = Ok true) as ->.
  { destruct r as [v|e]; [by injection E as <- <-; split; congruence|]. destruct (is_payload_error _); [|done]. apply st_bind_Ok in E as ([] & w5 & _ & E). by injection E as <- <-. }
  rewrite Ec. split; [intros; by exists t|]. by intros (? & [= <-] & _ & ?).
Qed.

(** The entry is a file whose bytes are valid. *)
Definition entry_valid (cfg : materialization) (w : world) : Prop := ∃ t, ca_target (pk_cache (w_pack w)) = Some t ∧ cp_is_file t = true
  ∧ validate_payload (bf_bytes (cp_file t)) (mt_sha256 cfg) (mt_bytes cfg) = Ok tt.
Definition entry_filled (m : snapshot_manifest) (cfg : materialization) (w w' : world) : Prop :=
  ∃ data, target_bytes w' = Some data ∧ pack_of c m cfg w data.

Lemma pack_of_kept m cfg (w w' : world) data : entry_kept w w' → pack_of c m cfg w' data → pack_of c m cfg w data.
Proof.
  intros [[Hu _] _] [Hsha Hn (l & layout & model & residual & ds & Hl & Hrest)]. split; [done..|]. exists l, layout, model, residual, ds.
  unfold weights in *. rewrite <- (um_memory _ _ Hu). destruct Hrest as (? & ? & Hds & ?). split_and!; try done.
  eapply Forall2_impl; [exact Hds|]. intros x d [Hx Hr]. split; [done|]. intros i y Hi. rewrite <- (um_bytes _ _ Hu). by apply Hr.
Qed.

(** What follows a new file. *)
Lemma after_new (r2 : res unit) (w w' : world) r : match (_ ← remove_staging "unlink of the staged files"; lift r2) w with
    | (Ok a, w1) => (_ ← write_status "ready"; mret false) w1 | (Raise e, w1) => (Raise e, w1) end = (r, w') →
  entry_kept w w' ∧ ∀ reused, r = Ok reused → reused = false ∧ r2 = Ok tt ∧ ca_staging (pk_cache (w_pack w')) = None
    ∧ ca_target (pk_cache (w_pack w')) = ca_target (pk_cache (w_pack w)) ∧ ca_record (pk_cache (w_pack w')) = ca_record (pk_cache (w_pack w)).
Proof.
  unfold DiskMaterialize.remove_staging, DiskMaterialize.fs_step, mbind, st_bind, lift, st_set. intros E.
  destruct (fs _) as [e|]; [injection E as <- <-; by split|]. destruct r2 as [[]|e]; [|injection E as <- <-; split; [apply kept_clear|done]].
  destruct (write_status "ready" (clear_staging w)) as [[[]|e] w1] eqn:Ew; injection E as <- <-; pose proof (kept_status _ _ _ _ Ew) as K; split.
  1,3: etrans; [apply kept_clear|exact K].
  - intros reused [= <-]. apply write_status_Ok in Ew as ->. done.
  - done.
Qed.

(** The run under the lock. *)
Lemma locked_run m cfg (w w' : world) l r : weights w l → NoDup (al_pointer <$> l) → materialize_locked m cfg w = (r, w') →
  (entry_kept w w' ∧ (∀ reused, r = Ok reused → reused = true ∧ entry_valid cfg w))
  ∨ (scratch w w' ∧ ¬ entry_valid cfg w ∧ entry_filled m cfg w w'
     ∧ ∀ reused, r = Ok reused → reused = false ∧ entry_ready cfg w' ∧ ca_staging (pk_cache (w_pack w')) = None).
Proof.
  intros Hl HN E. unfold DiskMaterialize.materialize_locked in E. assert (entry_kept w w) as K by done.
  unfold mbind at 1, st_bind at 1, DiskMaterialize.fs_step at 1, lift at 1 in E. destruct (fs "fcntl.flock") as [e|]; [injection E as <- <-; by left|].
  destruct (kept_then _ _ _ _ _ (kept_revalidate _) E) as [[K1 [e ->]]|(valid & w1 & Ev & K1 & E1)]; [by left|]. clear E. rename E1 into E.
  apply revalidate_accepts in Ev as Hv. clear Ev. destruct valid.
  - left. assert (Runs entry_kept (_ ← publish_validation cfg; _ ← write_status "ready"; mret true)) as Hruns by auto with runs.
    split; [etrans; [done|by eapply Hruns]|]. intros reused ->. apply st_bind_Ok in E as ([] & w2 & _ & E). apply st_bind_Ok in E as ([] & w3 & _ & E).
    injection E as <- _. split; [done|by apply Hv].
  - destruct (kept_then _ _ _ _ _ (kept_remove _) E) as [[K2 [e ->]]|([] & w2 & _ & K2 & E1)]; [left; split; [by etrans|done]|]. clear E. rename E1 into E.
    apply (transitivity K1) in K2. unfold mbind at 1, st_bind at 1, st_finally_run in E. destruct (materialize_new m cfg w2) as [r2 w3] eqn:En.
    assert (weights w2 l) as Hl2 by (unfold weights; rewrite (um_memory _ _ (proj1 (proj1 K2))); done).
    apply (materialize_new_run m cfg _ _ l) in En as [[K3 [e ->]]|(Hs & (data & Ht & Hpack) & Hready)]; [| |done..].
    + left. destruct ((_ ← remove_staging _; lift (Raise e)) w3) as [r4 w4] eqn:E4. pose proof (worker_runs_bind _ _ _ (kept_remove _) (λ _, worker_runs_lift _ _) _ _ _ E4) as K4.
      assert (∃ e', r4 = Raise e') as [e' ->] by (unfold mbind, st_bind, lift in E4; destruct (remove_staging _ w3) as [[]]; injection E4 as <- _; by eexists).
      injection E as <- <-. split; [|done]. etrans; [exact K2|]. etrans; [exact K3|exact K4].
    + right. apply (pack_of_kept _ _ w) in Hpack; [|done]. destruct (after_new _ _ _ _ E) as (K4 & Hok).
      split_and!; [etrans; [exact (proj1 K2)|]; etrans; [exact Hs|apply K4]|intros Hbad%Hv; done|exists data; split; [|done]; by rewrite (proj2 K4)|].
      intros reused ->. destruct (Hok reused eq_refl) as (-> & -> & Hst & Hca). split_and!; [done| |done]. unfold entry_ready. rewrite (proj1 Hca), (proj2 Hca). by apply Hready.
Qed.
End spec.
