(* ===== verification/DiskMaterializeClaims.v ===== *)
(** * The cache of model packs: the guarantees

    What filling an entry of the cache leaves in it, with a run that replaces a corrupt entry. *)

From S2P Require Import Prelude Ranges PyFloat PyJson Hash Memory MemorySpec Hydration DiskLayout DiskLayoutSpec DiskShared VllmMemory VllmMemorySpec.
From S2P Require Import Artifact DiskPipeline DiskPipelineSpec DiskSleep DiskSleepSpec DiskSleepClaims DiskRecovery DiskRecoverySpec DiskRecoveryClaims.
From S2P Require Import DiskMaterialize DiskMaterializeSpec.

(** C6. Filling an entry of the pack cache is safe whatever happens, also when a status file
    cannot be written, an ownership not be changed, or a step of the file system fails: no memory
    and no snapshot file changes, and the entry keeps its bytes or, unless they were valid, gets
    those of the request: bytes with the requested hash and size that are the model's contents in
    the order of their hashes (when no two contents share a hash). A run that reports a reused
    entry found a valid one and kept it; a run that reports a new one leaves it with the requested
    owner, with a validation record and without a staged file. A run that fails before it has
    opened the lock, because the directory or the lock file could not be made, changes and reports
    nothing; every other failure is reported as the last state, unless that report is the one that
    failed, which is then what the run raises. Provided: the pack is written without the native
    library, in chunks of a positive multiple of 4096, from weight allocations at distinct
    addresses. *)
Theorem materialized_entry_sound {D G : Type} `{DeviceView D} `{GraphController G} transfer stamp validate_payload publish_record chown own_owner status_io fs
    (c : recovery_config) (s : settings) m cfg (w w' : world D G) l r :
  0 < chunk_bytes s ∧ chunk_bytes s mod 4096 = 0 → weights w l → NoDup (al_pointer <$> l) →
  materialize_model_payload transfer stamp None validate_payload publish_record chown own_owner status_io fs c s m cfg w = (r, w') →
  scratch w w'
  ∧ (target_bytes w' = target_bytes w ∨ ¬ entry_valid validate_payload cfg w ∧ entry_filled c m cfg w w')
  ∧ match r with
    | Ok true => entry_valid validate_payload cfg w ∧ target_bytes w' = target_bytes w
    | Ok false => entry_filled c m cfg w w' ∧ entry_ready cfg w' ∧ ca_staging (pk_cache (w_pack w')) = None
    | Raise e => (w' = w ∧ (fs "target.parent.mkdir" = Some e ∨ fs "os.open of the lock" = Some e))
        ∨ last (ca_status (pk_cache (w_pack w'))) = Some (lit "failed")
        ∨ status_io (ca_status (pk_cache (w_pack w'))) (lit "failed") = Some (false, e)
    end.
Proof.
  intros Hchunk Hl HN E. unfold materialize_model_payload, fs_step in E. unfold mbind at 1 2, st_bind, lift at 1 2 in E.
  destruct (fs "target.parent.mkdir") as [e|] eqn:E1; [injection E as <- <-; split; [by split; split|]; split; [by left|]; left; eauto|].
  destruct (fs "os.open of the lock") as [e|] eqn:E2; [injection E as <- <-; split; [by split; split|]; split; [by left|]; left; eauto|].
  unfold st_except in E. destruct (materialize_locked _ _ _ _ _ _ _ _ _ _ _ _ _ w) as [r1 w1] eqn:Er.
  apply (locked_run transfer stamp validate_payload publish_record chown own_owner status_io fs c s Hchunk m cfg w w1 l r1 Hl HN) in Er.
  assert (entry_kept w1 w' ∧ match r1 with
    | Ok v => r = Ok v ∧ w' = w1
    | Raise _ => ∃ e, r = Raise e ∧ (last (ca_status (pk_cache (w_pack w'))) = Some (lit "failed") ∨ status_io (ca_status (pk_cache (w_pack w'))) (lit "failed") = Some (false, e))
    end) as [[Hs Ht] Hr].
  { destruct r1 as [v|e]; [by injection E as <- <-|]. split; [by eapply (worker_runs_bind _ _ _ (kept_status status_io "failed") (λ _, worker_runs_lift _ (Raise e)))|].
    unfold write_status, mbind, st_bind, lift in E. destruct (status_io _ _) as [[[] e']|] eqn:Eio; injection E as <- <-; eexists; (split; [done|]); [left|by right|left]; apply last_snoc. }
  destruct Er as [[[Hk Hb] Hok]|(Hk & Hbad & (data & Hd & Hpack) & Hok)].
  - split_and!; [by etrans|left; congruence|]. destruct r1 as [reused|e]; [|destruct Hr as (e' & -> & Hf); by right].
    destruct Hr as [-> ->]. destruct (Hok reused eq_refl) as [-> Hv]. split; [done|congruence].
  - assert (entry_filled c m cfg w w') as Hfill by (exists data; split; [congruence|done]).
    split_and!; [by etrans|by right|]. destruct r1 as [reused|e]; [|destruct Hr as (e' & -> & Hf); by right].
    destruct Hr as [-> ->]. destruct (Hok reused eq_refl) as (-> & Hrd & Hst). done.
Qed.

(** ** Witness *)

(** The entry that the capture's pack describes holds other bytes of another owner. *)
Definition hash_validator (data : pybytes) (sha256 : pystr) (bytes : Z) : res unit :=
  raise_if (negb (bool_decide (sha256 = lit "sha256:" ++ hexdigest data)) || negb (bytes =? Z.of_nat (length data)))
    (PayloadValidationError "sha256_mismatch") "payload differs".
Definition corrupt_entry : cached_payload := CachedPayload (BlobFile [1%N; 2%N] 1 1 1 1) true true (0, 0).
Definition sample_request : materialization := Eval vm_compute in Materialization true (lit "op-1") (1000, 1000) (pr_sha256 sample_record) (pr_bytes sample_record).
Definition corrupt_worker : world sim unit :=
  set_pack (set_cache (Cache (Some corrupt_entry) None None [] None) (w_pack (sample_worker []))) (sample_worker []).
Notation sample_fill := (materialize_model_payload whole_transfer blob_stamp None hash_validator accept_payload (λ _, mret tt) (0, 0) (λ _ _, None) (λ _, None)
  source_config source_settings sample_recovery sample_request corrupt_worker).
Definition filled_worker : world sim unit := sample_fill.2.
Lemma sample_filled : sample_fill = (Ok false, filled_worker).
Proof. unfold filled_worker. apply (ran sample_fill false). by vm_compute. Qed.
Lemma materialized_entry_sound_witness :
  scratch corrupt_worker filled_worker
  ∧ (target_bytes filled_worker = target_bytes corrupt_worker
     ∨ ¬ entry_valid hash_validator sample_request corrupt_worker ∧ entry_filled source_config sample_recovery sample_request corrupt_worker filled_worker)
  ∧ entry_filled source_config sample_recovery sample_request corrupt_worker filled_worker
  ∧ entry_ready sample_request filled_worker ∧ ca_staging (pk_cache (w_pack filled_worker)) = None.
Proof.
  apply (materialized_entry_sound whole_transfer blob_stamp hash_validator accept_payload (λ _, mret tt) (0, 0) (λ _ _, None) (λ _, None) source_config source_settings
    sample_recovery sample_request corrupt_worker filled_worker sample_weights (Ok false)).
  - by vm_compute.
  - by vm_compute.
  - apply NoDup_ListNoDup. repeat constructor; vm_compute; intuition discriminate.
  - exact sample_filled.
Defined.
