(* ===== verification/Service.v ===== *)
(** * The service runtime of an engine rank ([coldsnap_service_runtime.py])

    What a rank decides around a running engine: accepting a restored engine by one streamed
    answer, waiting for a key of the coordinator, moving TCP ports, comparing identities, and
    the evidence of shape calibration. Times are integral nanoseconds and pass in calls. *)

From S2P Require Import Prelude PyFloat PyJson Hash Artifact.
From Stdlib Require Import SpecFloat.

(** ** Server-sent events *)

(** The body of a response that is still unread, and the reads so far. *)
Record stream := Stream { unread : pybytes; reads : nat }.
(** [readline(limit)] *)
Fixpoint take_line (limit : Z) (b : pybytes) : pybytes * pybytes :=
  match b with
  | [] => ([], [])
  | c :: b' =>
      if limit <=? 0 then ([], b)
      else if (c =? 10)%N then ([c], b')
      else let '(line, rest) := take_line (limit - 1) b' in (c :: line, rest)
  end.
(** [s.rstrip("\r\n")] *)
Fixpoint drop_newlines (s : pystr) : pystr :=
  match s with
  | c :: s' => if ((c =? 10) || (c =? 13))%N then drop_newlines s' else s
  | [] => []
  end.
Definition rstrip_newlines (s : pystr) : pystr := reverse (drop_newlines (reverse s)).

Definition LINE_LIMIT : Z := 65536.
Definition STREAM_LIMIT : Z := 1024 * 1024.

(** What a request meets besides the bytes of its response: the clocks when it starts, whether
    the connection opens, the clock when the deadline is checked after a number of reads,
    the clocks when an event was seen after a number of reads, the clock at the end, and
    the read that fails. *)
Record wire := Wire {
  started : Z; started_unix_ns : Z; refused : option exn;
  perf_counter : nat → Z; observed : nat → Z; time_ns : nat → Z; finished : Z;
  broken : nat → option exn;
}.

(** The generator [_stream_events] between two events. *)
Record generator := Gen { g_data : list pystr; g_event_bytes : Z; g_total_bytes : Z; g_stream : stream }.

Section events.
Variables (wr : wire) (deadline : Z).

(** One turn of the loop: an event, or the generator after a line. *)
Definition read_event_line (g : generator) : res (option pystr * generator) :=
  let '(Gen data event_bytes total_bytes st) := g in
  _ ← raise_if (deadline <=? perf_counter wr (reads st)) TimeoutError "acceptance stream exceeded its deadline";
  _ ← match broken wr (reads st) with Some e => Raise e | None => mret tt end;
  let '(raw, rest) := take_line (LINE_LIMIT + 1) (unread st) in
  let st := Stream rest (S (reads st)) in
  _ ← raise_if (bool_decide (raw = [])) RuntimeError "acceptance stream ended before [DONE]";
  let count := Z.of_nat (length raw) in
  let total_bytes := total_bytes + count in
  let event_bytes := event_bytes + count in
  _ ← raise_if ((LINE_LIMIT <? count) || (LINE_LIMIT <? event_bytes) || (STREAM_LIMIT <? total_bytes)) RuntimeError
      "acceptance stream exceeds its size limit";
  text ← of_option UnicodeError "invalid UTF-8" (utf8_decode raw);
  let line := rstrip_newlines text in
  if decide (line = []) then
    mret (if decide (data = []) then None else Some (join (lit "
") data), Gen [] 0 total_bytes st)
  else if starts_with (lit "data:") line then mret (None, Gen (data ++ [removeprefix (lit " ") (drop 5 line)]) event_bytes total_bytes st)
  else mret (None, Gen data event_bytes total_bytes st).

(** The next event. Every turn reads at least one byte of the body or fails. *)
Fixpoint next_event_loop (fuel : nat) (g : generator) : res (pystr * generator) :=
  match fuel with
  | O => Raise (Exn RuntimeError "acceptance stream ended before [DONE]")
  | S fuel' =>
      '(event, g) ← read_event_line g;
      match event with
      | Some e => mret (e, g)
      | None => next_event_loop fuel' g
      end
  end.
Definition next_event (g : generator) : res (pystr * generator) := next_event_loop (S (length (unread (g_stream g)))) g.
End events.

(** ** The acceptance request *)

(** The truth value of a decoded value. *)
Definition truthy (v : json) : bool :=
  match v with
  | JNull => false
  | JBool b => b
  | JInt z => negb (z =? 0)
  | JFloat f => negb (float_eqb f (S754_zero false))
  | JStr s => negb (bool_decide (s = []))
  | JArr l => match l with [] => false | _ => true end
  | JObj d => match d with [] => false | _ => true end
  end.

(** The state of the loop of [_infer]: the pieces of text by field, the time and the field of
    the first one, the copied keys, and the reason the answer ended. *)
Definition PIECES : list (pystr * list pystr) := [(lit "content", []); (lit "reasoning", []); (lit "reasoning_content", [])].
Record answer := Answer {
  an_pieces : list (pystr * list pystr); an_first : option (Z * Z * pystr); an_response : list (pystr * json); an_finish : json;
}.
Definition no_answer : answer := Answer PIECES None [] JNull.

(** [observed_ns] and [elapsed] of an event. *)
Fixpoint take_texts (delta : list (pystr * json)) (now : Z * Z) (pieces : list (pystr * list pystr)) (first : option (Z * Z * pystr))
    : res (list (pystr * list pystr) * option (Z * Z * pystr)) :=
  match pieces with
  | [] => mret ([], first)
  | (field, texts) :: rest =>
      '(texts, first) ← match default JNull (dict_get field delta) with
                        | JNull => mret (texts, first)
                        | JStr [] => mret (texts, first)
                        | JStr text => mret (texts ++ [text], match first with None => Some (now, field) | Some _ => first end)
                        | _ => Raise (Exn RuntimeError "acceptance stream returned non-text output")
                        end;
      '(rest, first) ← take_texts delta now rest first;
      mret ((field, texts) :: rest, first)
  end.
Definition copy_keys (chunk response : list (pystr * json)) : list (pystr * json) :=
  foldl (λ r key, match dict_get key chunk with Some v => dict_set key v r | None => r end) response
    [lit "id"; lit "model"; lit "created"; lit "usage"].
Definition take_choice (now : Z * Z) (choice : json) (a : answer) : res answer :=
  match choice with
  | JObj d =>
      _ ← raise_if (negb (py_eq (default (JInt 0) (dict_get (lit "index") d)) (JInt 0))) RuntimeError "acceptance stream returned an invalid choice";
      let delta := default JNull (dict_get (lit "delta") d) in
      fields ← match (if truthy delta then delta else JObj []) with
               | JObj fields => mret fields
               | _ => Raise (Exn RuntimeError "acceptance stream returned an invalid delta")
               end;
      '(pieces, first) ← take_texts fields now (an_pieces a) (an_first a);
      let finish := match default JNull (dict_get (lit "finish_reason") d) with JNull => an_finish a | v => v end in
      mret (Answer pieces first (an_response a) finish)
  | _ => Raise (Exn RuntimeError "acceptance stream returned an invalid choice")
  end.
Definition take_chunk (now : Z * Z) (chunk : json) (a : answer) : res answer :=
  match chunk with
  | JObj d =>
      _ ← raise_if (bool_decide (is_Some (dict_get (lit "error") d))) RuntimeError "acceptance stream returned an error or invalid event";
      let a := Answer (an_pieces a) (an_first a) (copy_keys d (an_response a)) (an_finish a) in
      match default (JArr []) (dict_get (lit "choices") d) with
      | JArr [] => mret a
      | JArr [choice] => take_choice now choice a
      | _ => Raise (Exn RuntimeError "acceptance stream returned invalid choices")
      end
  | _ => Raise (Exn RuntimeError "acceptance stream returned an error or invalid event")
  end.

(** What [_infer] reports of an accepted answer: the message by field, the reason it ended,
    the copied keys, and the time and field of the first text. *)
Record acceptance := Acceptance {
  ac_message : list (pystr * pystr); ac_finish : pystr; ac_response : list (pystr * json);
  ac_started_unix_ns : Z; ac_first_unix_ns : Z; ac_ttft : Z; ac_field : pystr; ac_seconds : Z;
}.
Definition message_of (a : answer) : list (pystr * pystr) := (λ p, (p.1, concat p.2)) <$> an_pieces a.
Definition field_text (field : string) (message : list (pystr * pystr)) : pystr :=
  default [] (snd ∘ snd <$> list_find (λ p, p.1 = lit field) message).

Section infer.
Variables (wr : wire) (timeout : Z) (expected : pystr).

Definition finish_answer (a : answer) : res acceptance :=
  match an_first a, an_finish a with
  | Some (ns, elapsed, field), JStr ((_ :: _) as reason) =>
      _ ← raise_if (negb (bool_decide (py_strip (field_text "content" (message_of a)) = expected))) RuntimeError "response mismatch";
      mret (Acceptance (message_of a) reason (an_response a) (started_unix_ns wr) ns elapsed field (finished wr - started wr))
  | _, _ => Raise (Exn RuntimeError "acceptance stream has no non-empty token or finish reason")
  end.

(** The clocks when an event was seen. *)
Definition now_at (g : generator) : Z * Z := (time_ns wr (reads (g_stream g)), observed wr (reads (g_stream g)) - started wr).
Fixpoint infer_loop (fuel : nat) (g : generator) (a : answer) : res (answer * generator) :=
  match fuel with
  | O => Raise (Exn RuntimeError "acceptance stream ended before [DONE]")
  | S fuel' =>
      '(data, g) ← next_event wr (started wr + timeout) g;
      if decide (data = lit "[DONE]") then mret (a, g)
      else
        chunk ← of_option ValueError "invalid JSON" (loads data);
        a ← take_chunk (now_at g) chunk a;
        infer_loop fuel' g a
  end.
(** [_infer]: the request is sent, and the body of its response read. *)
Definition opened_stream (body : pybytes) : generator := Gen [] 0 0 (Stream body 0).
Definition infer (body : pybytes) : res acceptance :=
  _ ← match refused wr with Some e => Raise e | None => mret tt end;
  '(a, _) ← infer_loop (S (length body)) (opened_stream body) no_answer;
  finish_answer a.
End infer.

(** ** Waiting for the coordinator *)

Definition COORDINATOR_MAX_WAIT : Z := 3600 * 1000000000.
Section coordinator.
Context {W : Type}.
(** The client's [wait] and the clock. *)
Variables (wait : pystr → Z → ST W pystr) (monotonic : W → Z).

Fixpoint wait_rounds (fuel : nat) (key : pystr) (deadline : Z) (w : W) : res pystr * W :=
  match fuel with
  | O => (Raise (Exn TimeoutError "timed out waiting for coordinator key"), w)
  | S fuel' =>
      let remaining := deadline - monotonic w in
      if remaining <=? 0 then (Raise (Exn TimeoutError "timed out waiting for coordinator key"), w)
      else match wait key (Z.min COORDINATOR_MAX_WAIT remaining) w with
           | (Ok v, w') => (Ok v, w')
           | (Raise e, w') =>
               if bool_decide (exc e = TimeoutError) then
                 if deadline <=? monotonic w' then (Raise e, w') else wait_rounds fuel' key deadline w'
               else (Raise e, w')
           end
  end.
(** The loop of [_coordinator_wait]. The clock is integral, so when every wait that times out
    lets it advance, the time left bounds the rounds. *)
Definition wait_loop (key : pystr) (deadline : Z) (w : W) : res pystr * W :=
  wait_rounds (S (Z.to_nat (deadline - monotonic w))) key deadline w.
(** [_coordinator_wait] *)
Definition coordinator_wait (key : pystr) (timeout : Z) : ST W pystr := λ w, wait_loop key (monotonic w + timeout) w.
End coordinator.

(** ** Shape calibration *)

Definition env_text (v : option pystr) : pystr := py_lower (py_strip (default [] v)).
Definition shape_calibration_enabled (value : option pystr) : res bool :=
  let value := env_text value in
  if bool_decide (value ∈ [[]; lit "0"; lit "false"; lit "no"; lit "off"]) then mret false
  else if bool_decide (value ∈ [lit "1"; lit "true"; lit "yes"; lit "on"]) then mret true
  else Raise (Exn RuntimeError "COLDSNAP_SHAPE_CALIBRATION must be a boolean").

(** [float(seconds)] of a number that is not a [bool]; the guard that follows it. *)
Definition seconds_ok (v : json) : res bool :=
  match v with
  | JInt z => f ← of_option OverflowError "int too large to convert to float" (float_of_int z); mret (negb (float_ltb f (S754_zero false)))
  | JFloat f => mret (negb (float_ltb f (S754_zero false)) && match f with S754_zero _ | S754_finite _ _ _ => true | _ => false end)
  | _ => mret false
  end.
Definition is_arr (v : json) : bool := match v with JArr (_ :: _) => true | _ => false end.
Definition is_obj (v : json) : bool := match v with JObj _ => true | _ => false end.
Definition is_absolute (v : json) : bool := match v with JStr s => starts_with (lit "/") s | _ => false end.
Definition field (k : string) (v : json) : json := default JNull (jget k v).
(** [str(v)], where [py_str] is that of a value that is not a string. *)
Definition text_of (py_str : json → pystr) (v : json) : pystr := match v with JStr s => s | _ => py_str v end.
(** [_validate_shape_calibration_detail]; the conditions in the order of the code. *)
Definition validate_shape_calibration_detail (value : json) (engine : pystr) : res json :=
  match value with
  | JObj _ =>
      _ ← raise_if (negb (py_eq (field "kind" value) (JStr (lit "coldsnap-shape-calibration")))
                    || negb (py_eq (field "engine" value) (JStr engine))
                    || negb (match field "planned_shapes" value with JInt z => 0 <? z | _ => false end)
                    || negb (py_eq (field "warmed_shapes" value) (field "planned_shapes" value)))
          RuntimeError "shape calibration evidence is incomplete";
      ok ← seconds_ok (field "seconds" value);
      _ ← raise_if (negb ok || negb (is_arr (field "modes" value)) || negb (is_obj (field "toolchain" value))
                    || negb (is_absolute (field "cache_root" value)))
          RuntimeError "shape calibration evidence is incomplete";
      mret value
  | _ => Raise (Exn RuntimeError "shape calibration evidence is not an object")
  end.

(** [int(value[k])] of a validated count. *)
Definition shape_count (k : string) (v : json) : res Z :=
  match field k v with
  | JInt z => mret z
  | JBool b => mret (bool_int b)
  | JFloat f => of_option ValueError "cannot convert float to integer" (trunc_float f)
  | _ => Raise (Exn TypeError "int() argument")
  end.
Fixpoint validate_details (engine : pystr) (results : list json) : res (list json) :=
  match results with
  | [] => mret []
  | status :: rest =>
      detail ← validate_shape_calibration_detail (field "shape_calibration" status) engine;
      details ← validate_details engine rest;
      mret (detail :: details)
  end.
Definition vllm_details (response : json) : res (list json) :=
  match field "results" response with
  | JArr ((_ :: _) as results) => validate_details (lit "vllm") results
  | _ => Raise (Exn RuntimeError "vLLM shape calibration returned no worker coverage")
  end.
Definition sglang_details (status : json) : res (list json) :=
  _ ← raise_if (negb (py_eq (field "kind" status) (JStr (lit "coldsnap-sglang-async-cuda-graphs")))
                || negb (py_eq (field "phase" status) (JStr (lit "calibrated"))))
      RuntimeError "SGLang startup did not publish calibrated graph coverage";
  detail ← validate_shape_calibration_detail (field "shape_calibration" status) (lit "sglang");
  mret [detail].
(** The evidence of a launch: its engine, the sums of its counts, and the details; the sum of
    the seconds is left out. *)
Record coverage := Coverage { cv_engine : pystr; cv_planned : Z; cv_warmed : Z; cv_details : list json }.
Definition shape_coverage (engine : pystr) (details : list json) : res coverage :=
  planned ← mapM (shape_count "planned_shapes") details;
  warmed ← mapM (shape_count "warmed_shapes") details;
  _ ← raise_if (negb (zsum warmed =? zsum planned)) RuntimeError "planned graph shapes were not all warmed";
  mret (Coverage engine (zsum planned) (zsum warmed) details).

Section capture.
Context {W : Type}.
(** The collective call of rank 0, the coordinator, and the status file of SGLang. *)
Variables (collective_rpc : ST W json) (coordinator_set : pystr → pystr → ST W unit) (wait : pystr → Z → ST W pystr) (monotonic : W → Z).
Variables (status_file : W → res json) (timeout : Z).

(** [_capture_shape_calibration]: rank 0 asks the workers and publishes the answer, the other
    ranks read it. *)
Definition calibration_response (rank : Z) (namespace : pystr) : ST W json :=
  let key := namespace ++ lit ":shape-calibration" in
  if rank =? 0 then
    response ← collective_rpc;
    _ ← coordinator_set key (dumps default_style response);
    mret response
  else
    text ← coordinator_wait wait monotonic key timeout;
    lift (of_option ValueError "invalid JSON" (loads text)).
Definition capture_shape_calibration (enabled : option pystr) (engine namespace : pystr) (rank : Z) : ST W (option coverage) :=
  on ← lift (shape_calibration_enabled enabled);
  if on : bool then
    details ← (if decide (engine = lit "vllm") then response ← calibration_response rank namespace; lift (vllm_details response)
               else if decide (engine = lit "sglang") then status ← (λ w, (status_file w, w)); lift (sglang_details status)
               else lift (Raise (Exn RuntimeError "unsupported shape-calibration engine")));
    evidence ← lift (shape_coverage engine details);
    mret (Some evidence)
  else mret None.
End capture.

(** ** Ports *)

(** [_shift_tcp_port] *)
Definition shift_tcp_port (port shift : Z) : res Z :=
  _ ← raise_if (negb ((1024 <=? port) && (port <? 65536))) RuntimeError "portable TCP port is outside the unprivileged range";
  _ ← raise_if (negb ((0 <=? shift) && (shift <? 65536 - 1024))) RuntimeError "portable TCP port shift is invalid";
  mret (1024 + (port - 1024 + shift) mod (65536 - 1024)).
(** [_service_url] *)
Definition service_url (master_address : pystr) (http_port : Z) (path : pystr) : pystr :=
  let address := if bool_decide (58%N ∈ master_address) && negb (starts_with (lit "[") master_address)
                 then lit "[" ++ master_address ++ lit "]" else master_address in
  lit "http://" ++ address ++ lit ":" ++ str_of_Z http_port ++ path.

(** ** Comparing identities *)

(** [type(expected) is type(actual)] *)
Definition same_type (a b : json) : bool :=
  match a, b with
  | JNull, JNull | JBool _, JBool _ | JInt _, JInt _ | JFloat _, JFloat _ | JStr _, JStr _ | JArr _, JArr _ | JObj _, JObj _ => true
  | _, _ => false
  end.
(** The loop of a container, which stops at eight paths. *)
Fixpoint extend_paths {A} (f : A → list pystr) (l : list A) (paths : list pystr) : list pystr :=
  match l with
  | [] => paths
  | x :: l' =>
      let paths := paths ++ f x in
      if (8 <=? length paths)%nat then take 8 paths else extend_paths f l' paths
  end.
Fixpoint json_height (v : json) : nat :=
  match v with
  | JObj l => S (foldr (λ kv n, Nat.max (json_height kv.2) n) 0%nat l)
  | JArr l => S (foldr (λ x n, Nat.max (json_height x) n) 0%nat l)
  | _ => 1%nat
  end.
(** [_identity_mismatch_paths]; [json_height] bounds the nesting. *)
Fixpoint mismatch_paths (fuel : nat) (expected actual : json) (path : pystr) : list pystr :=
  match fuel with
  | O => [path]
  | S fuel' =>
      if negb (same_type expected actual) then [path] else
      match expected, actual with
      | JObj e, JObj a =>
          extend_paths (λ key,
            let child := path ++ lit "." ++ key in
            match dict_get key e, dict_get key a with
            | Some x, Some y => mismatch_paths fuel' x y child
            | _, _ => [child]
            end) (key_union e a) []
      | JArr e, JArr a =>
          extend_paths (λ p : nat * (json * json), mismatch_paths fuel' p.2.1 p.2.2 (path ++ lit "[" ++ str_of_Z (Z.of_nat p.1) ++ lit "]"))
            (imap (λ i xy, (i, xy)) (zip e a)) (if (length e =? length a)%nat then [] else [path ++ lit ".length"])
      | _, _ => if py_eq expected actual then [] else [path]
      end
  end.
Definition identity_mismatch_paths (expected actual : json) : list pystr :=
  mismatch_paths (json_height expected) expected actual (lit "identity").
