(* ===== verification/ServiceSpec.v ===== *)
(** * Theorems about the service runtime

    A restored engine is accepted only on a complete stream with the expected text, and a
    well-formed stream is judged exactly by its events; ports, identities and waits. *)

From S2P Require Import Prelude PyFloat PyJson PyJsonFacts Hash Artifact ArtifactSpec ValidationSpec Service.
From Stdlib Require Import SpecFloat.

(** ** The events of a body *)

(** A body line by line, each with its line feed. *)
Fixpoint split_lines (b : pybytes) : list pybytes :=
  match b with
  | [] => []
  | c :: b' =>
      if (c =? 10)%N then [c] :: split_lines b'
      else match split_lines b' with
           | [] => [[c]]
           | line :: rest => (c :: line) :: rest
           end
  end.
Definition line_text (raw : pybytes) : option pystr := rstrip_newlines <$> utf8_decode raw.
(** The events of lines of text, behind data lines that are still open. *)
Definition line_data (data : list pystr) (line : pystr) : list pystr :=
  if starts_with (lit "data:") line then data ++ [removeprefix (lit " ") (drop 5 line)] else data.

Lemma take_line_ok limit b raw rest : take_line limit b = (raw, rest) → raw ≠ [] → Z.of_nat (length raw) < limit →
  b = raw ++ rest ∧ split_lines b = raw :: split_lines rest.
Proof.
  revert limit raw rest. induction b as [|c b IH]; intros limit raw rest; cbn [take_line]; [intros [= <- <-]; done|].
  destruct (Z.leb_spec limit 0); [intros [= <- <-]; done|]. cbn [split_lines]. destruct (c =? 10)%N eqn:Ec; [intros [= <- <-]; done|].
  destruct (take_line (limit - 1) b) as [line r] eqn:El. intros [= <- <-] _ Hl. cbn in Hl.
  destruct line as [|x line].
  - assert (b = [] ∧ r = []) as [-> ->].
    { destruct b as [|y b]; [by injection El|]. cbn [take_line] in El. destruct (Z.leb_spec (limit - 1) 0); [lia|].
      destruct (y =? 10)%N; [by injection El|]. destruct (take_line _ b). by injection El. }
    done.
  - destruct (IH _ _ _ El ltac:(done) ltac:(cbn in *; lia)) as [-> Es]. rewrite Es. done.
Qed.

Section accept.
Variables (wr : wire) (deadline : Z).

(** A line of a stream that went on. *)
Lemma read_line_ok g ev g' : read_event_line wr deadline g = Ok (ev, g') →
  ∃ raw text, raw ≠ [] ∧ split_lines (unread (g_stream g)) = raw :: split_lines (unread (g_stream g')) ∧ unread (g_stream g) = raw ++ unread (g_stream g')
    ∧ line_text raw = Some text ∧ reads (g_stream g') = S (reads (g_stream g))
    ∧ g_total_bytes g' = g_total_bytes g + Z.of_nat (length raw) ∧ g_total_bytes g' <= STREAM_LIMIT
    ∧ if decide (text = []) then ev = (if decide (g_data g = []) then None else Some (join (lit "
") (g_data g))) ∧ g_data g' = []
      else ev = None ∧ g_data g' = line_data (g_data g) text.
Proof.
  destruct g as [data eb tb [b n]]. unfold read_event_line. cbn [g_stream unread reads g_total_bytes g_data]. intros E.
  destruct (take_line (LINE_LIMIT + 1) b) as [raw rest] eqn:Et.
  apply bind_Ok in E as ([] & _ & E). apply bind_Ok in E as ([] & _ & E). apply bind_Ok in E as ([] & Hr%raise_if_Ok%bool_decide_eq_false & E).
  apply bind_Ok in E as ([] & Hs%raise_if_Ok & E). rewrite !orb_false_iff, !Z.ltb_ge in Hs. destruct Hs as [[Hs1 Hs2] Hs3].
  apply bind_Ok in E as (text & Hu%of_option_Ok & E). destruct (take_line_ok _ _ _ _ Et Hr ltac:(lia)) as [Hb Hsp].
  exists raw, (rstrip_newlines text). unfold line_text, line_data. rewrite Hu. change (rstrip_newlines <$> Some text) with (Some (rstrip_newlines text)).
  destruct (decide (rstrip_newlines text = [])) as [->|]; [injection E as <- <-; by split_and!|].
  destruct (starts_with _ _); injection E as <- <-; by split_and!.
Qed.

(** Fuel beyond the unread bytes changes nothing. *)
Lemma next_event_fuel fuel fuel' g : (length (unread (g_stream g)) < fuel)%nat → (length (unread (g_stream g)) < fuel')%nat →
  next_event_loop wr deadline fuel g = next_event_loop wr deadline fuel' g.
Proof.
  revert fuel' g. induction fuel as [|fuel IH]; intros [|fuel'] g Hf Hf'; try lia. cbn [next_event_loop].
  destruct (read_event_line wr deadline g) as [[[e|] g']|] eqn:E; [done| |done]. cbn.
  apply read_line_ok in E as (raw & text & Hr & _ & Hb & _). rewrite Hb, length_app in Hf, Hf'. destruct raw; [done|]. cbn in *. apply IH; lia.
Qed.
Lemma next_event_step g : next_event wr deadline g = '(ev, g') ← read_event_line wr deadline g; match ev with Some e => mret (e, g') | None => next_event wr deadline g' end.
Proof.
  unfold next_event at 1. cbn [next_event_loop]. destruct (read_event_line wr deadline g) as [[[e|] g']|] eqn:E; [done| |done]. unfold mbind, res_bind.
  apply read_line_ok in E as (raw & text & Hr & _ & Hb & _). destruct raw; [done|]. rewrite Hb, length_app. apply next_event_fuel; cbn; lia.
Qed.

End accept.

(** ** The texts of a stream *)






(** ** Accepted streams *)

Section infer.
Variables (wr : wire) (timeout : Z) (expected : pystr).
Notation seen_at := (λ k : nat, (time_ns wr k, observed wr k - started wr)).


End infer.


(** ** Well-formed streams *)

(** A stream of events, each on one line of encoded text. *)
Definition encoded (text : pystr) : pybytes := default [] (utf8_encode text).
Definition encode_event (text : pystr) : pybytes := lit "data: " ++ encoded text ++ [10%N; 10%N].
Definition encode_stream (texts : list pystr) : pybytes := concat (encode_event <$> texts) ++ encode_event (lit "[DONE]").
(** Unicode text without surrogates that is one line within the limits. *)
Record one_line (text : pystr) : Prop := {
  ol_text : Forall (λ c, (c <= 0x10FFFF)%N) text ∧ utf8_encode text = Some (encoded text);
  ol_line : 10%N ∉ text ∧ last text ≠ Some 13%N;
  ol_short : Z.of_nat (length (encoded text)) + 8 <= LINE_LIMIT;
}.
(** The events judged one after the other, the first one seen after [n] reads. *)
Fixpoint judge (wr : wire) (n : nat) (texts : list pystr) (a : answer) : res answer :=
  match texts with
  | [] => mret a
  | text :: rest =>
      chunk ← of_option ValueError "invalid JSON" (loads text);
      a ← take_chunk (time_ns wr (2 + n), observed wr (2 + n) - started wr) chunk a;
      judge wr (2 + n) rest a
  end.

Lemma take_line_whole line rest limit : 10%N ∉ line → Z.of_nat (length line) < limit → take_line limit (line ++ 10%N :: rest) = (line ++ [10%N], rest).
Proof.
  revert limit. induction line as [|c line IH]; intros limit Hn Hl; cbn [app take_line length] in *; (destruct (Z.leb_spec limit 0); [lia|]); [done|].
  apply not_elem_of_cons in Hn as [Hc Hn]. destruct (N.eqb_spec c 10); [by subst|]. by rewrite IH by (done || lia).
Qed.
Lemma rstrip_line line : 10%N ∉ line → last line ≠ Some 13%N → rstrip_newlines (line ++ [10%N]) = line.
Proof.
  intros H1 H2. unfold rstrip_newlines. rewrite reverse_snoc. change (drop_newlines (10%N :: reverse line)) with (drop_newlines (reverse line)).
  assert (drop_newlines (reverse line) = reverse line) as ->; [|apply reverse_involutive].
  destruct (reverse line) as [|c l] eqn:E; [done|]. assert (line = reverse l ++ [c]) as -> by (by rewrite <- (reverse_involutive line), E, reverse_cons).
  rewrite last_snoc in H2. cbn [drop_newlines]. destruct (N.eqb_spec c 10); [subst; set_solver|]. by destruct (N.eqb_spec c 13); [by subst|].
Qed.

Section well_formed.
Variables (wr : wire) (timeout : Z) (expected : pystr).
Notation deadline := (started wr + timeout).
(** The response arrives in time. *)
Definition in_time (n : nat) : Prop := perf_counter wr n < deadline ∧ broken wr n = None.

(** A line of a stream within its limits; [raw] is the encoding of [line]. *)
Lemma read_line data eb tb n raw line rest : in_time n → 10%N ∉ line → last line ≠ Some 13%N → Forall (λ c, (c <= 0x10FFFF)%N) line → utf8_encode line = Some raw →
  eb + Z.of_nat (length raw) + 1 <= LINE_LIMIT → 0 <= eb → tb + Z.of_nat (length raw) + 1 <= STREAM_LIMIT →
  read_event_line wr deadline (Gen data eb tb (Stream (raw ++ 10%N :: rest) n))
  = Ok (if decide (line = []) then if decide (data = []) then None else Some (join (lit "
") data) else None,
        if decide (line = []) then Gen [] 0 (tb + Z.of_nat (length raw) + 1) (Stream rest (S n))
        else Gen (line_data data line) (eb + Z.of_nat (length raw) + 1) (tb + Z.of_nat (length raw) + 1) (Stream rest (S n))).
Proof.
  intros [Ht Hb] H1 H2 Ha Hraw He Heb Htb. unfold read_event_line. cbn [reads unread]. rewrite (proj2 (Z.leb_gt _ _)) by lia. cbn [raise_if]. rewrite Hb.
  assert (10%N ∉ raw) as H1' by (intros Hin; by eapply H1, (utf8_encode_ascii _ _ _ Hraw)).
  rewrite take_line_whole by (done || lia). cbn [mbind res_bind mret res_ret].
  rewrite bool_decide_false by (by destruct raw). cbn [raise_if mbind res_bind]. rewrite length_app. cbn [length]. rewrite Nat2Z.inj_add. change (Z.of_nat 1) with 1.
  rewrite !(proj2 (Z.ltb_ge _ _)) by lia. cbn [orb raise_if mbind res_bind].
  rewrite (utf8_round_trip line raw [10%N] Hraw Ha). change (app line <$> utf8_decode [10%N]) with (Some (line ++ [10%N])). cbn [of_option mbind res_bind].
  rewrite rstrip_line by done. unfold line_data. rewrite !Z.add_assoc. destruct (decide (line = [])); [done|].
  by destruct (starts_with _ _).
Qed.

Lemma encode_app s t bs bt : utf8_encode s = Some bs → utf8_encode t = Some bt → utf8_encode (s ++ t) = Some (bs ++ bt).
Proof.
  revert bs. induction s as [|c s IH]; intros bs Es Et; cbn [app utf8_encode] in *; [by injection Es as <-|].
  destruct (utf8_char c) as [bc|]; [|done]. destruct (utf8_encode s) as [b|]; [|done]. injection Es as <-. rewrite (IH b) by done. by rewrite app_assoc.
Qed.

Lemma next_encoded tb n text rest : one_line text → in_time n → in_time (S n) → 0 <= tb → tb + Z.of_nat (length (encoded text)) + 8 <= STREAM_LIMIT →
  next_event wr deadline (Gen [] 0 tb (Stream (encode_event text ++ rest) n))
  = Ok (text, Gen [] 0 (tb + Z.of_nat (length (encoded text)) + 8) (Stream rest (2 + n))).
Proof.
  intros [[Hs Ht] [H1 H2] Hl] Hn Hn' Htb Hlim. assert (length (lit "data: " ++ encoded text) = (6 + length (encoded text))%nat) as Hlen by (by rewrite length_app).
  assert (encode_event text ++ rest = (lit "data: " ++ encoded text) ++ 10%N :: [] ++ 10%N :: rest) as ->.
  { unfold encode_event. rewrite <- !app_assoc. done. }
  assert (10%N ∉ lit "data: ") as Hd1 by (by apply (bool_decide_unpack _)).
  rewrite next_event_step, (read_line _ _ _ _ _ (lit "data: " ++ text)); try done.
  2: { rewrite elem_of_app. tauto. }
  2: { rewrite last_app. by destruct (last text). }
  2: { apply Forall_app. split; [by repeat constructor|done]. }
  2: { by apply encode_app. }
  2, 3: rewrite Hlen; lia.
  cbn [mbind res_bind]. rewrite !(decide_False (P := lit "data: " ++ text = [])) by done.
  assert (line_data [] (lit "data: " ++ text) = [text]) as -> by done.
  rewrite next_event_step, (read_line _ _ _ _ [] [] rest); try first [done|by apply not_elem_of_nil|rewrite ?Hlen; cbn [length]; lia].
  cbn [mbind res_bind mret res_ret join decide decide_rel]. rewrite Hlen. cbn [length]. do 3 f_equal. lia.
Qed.

Lemma length_encode_event text : length (encode_event text) = (length (encoded text) + 8)%nat.
Proof. unfold encode_event. rewrite !length_app. cbn [length]. change (length (lit "data: ")) with 6%nat. lia. Qed.
Lemma done_line : one_line (lit "[DONE]").
Proof. split; [split; [by repeat constructor|done]|split; [by apply (bool_decide_unpack _)|done]|by vm_compute]. Qed.

Lemma judged texts rest : ∀ fuel tb n a, Forall one_line texts → lit "[DONE]" ∉ texts → (∀ k, (k <= n + 2 * length texts + 1)%nat → in_time k) → 0 <= tb →
  tb + Z.of_nat (length (encode_stream texts)) <= STREAM_LIMIT → (length texts < fuel)%nat →
  infer_loop wr timeout fuel (Gen [] 0 tb (Stream (encode_stream texts ++ rest) n)) a
  = a' ← judge wr n texts a; mret (a', Gen [] 0 (tb + Z.of_nat (length (encode_stream texts))) (Stream rest (n + 2 * (length texts + 1))%nat)).
Proof.
  induction texts as [|text texts IH]; intros [|fuel] tb n a Hl Hd Ht Htb Hlim Hf; try (cbn in Hf; lia); cbn [infer_loop judge].
  - unfold encode_stream in *. cbn [fmap list_fmap concat app] in *. rewrite length_encode_event in Hlim.
    rewrite next_encoded; [|exact done_line|apply Ht; lia|apply Ht; lia|done|lia].
    cbn [mbind res_bind mret res_ret]. rewrite decide_True by done. rewrite length_encode_event. do 3 f_equal; [lia|]. f_equal. cbn. lia.
  - apply Forall_cons in Hl as [Hone Hl]. apply not_elem_of_cons in Hd as [Hdone Hd].
    assert (encode_stream (text :: texts) = encode_event text ++ encode_stream texts) as Heq by (unfold encode_stream; csimpl; by rewrite <- app_assoc).
    rewrite Heq, length_app, length_encode_event in *. cbn [length] in Ht, Hf |- *.
    rewrite <- app_assoc, next_encoded; [|done|apply Ht; lia|apply Ht; lia|done|lia].
    cbn [mbind res_bind]. rewrite decide_False by congruence. destruct (loads text) as [chunk|]; [|done]. cbn [of_option mbind res_bind].
    unfold now_at. cbn [g_stream reads]. destruct (take_chunk _ chunk a) as [a1|]; [|done]. cbn [mbind res_bind].
    rewrite IH by (try done; first [lia | intros k Hk; apply Ht; lia]). destruct (judge wr (2 + n) texts a1); [|done]. cbn [mbind res_bind mret res_ret].
    do 3 f_equal; [lia|]. f_equal. lia.
Qed.
End well_formed.

(** C12. A well-formed response is judged by its events alone. Suppose the connection opens, every
    event is one line of Unicode text in UTF-8 (no surrogates, no line feed, not ending in
    a carriage return) within the line limit, none of them is [\[DONE\]], the stream is
    within its limit, and each of its lines is asked for before the deadline and read
    without an error. Then the outcome, acceptance or error, is that of taking the decoded
    events one after the other, each at the time its blank line was read, and judging the
    answer they give; what follows the end of the stream does not count. *)
Theorem stream_judged_by_events wr timeout expected texts rest : refused wr = None →
  Forall one_line texts → lit "[DONE]" ∉ texts → Z.of_nat (length (encode_stream texts)) <= STREAM_LIMIT →
  (∀ n, (n <= 2 * length texts + 1)%nat → perf_counter wr n < started wr + timeout ∧ broken wr n = None) →
  infer wr timeout expected (encode_stream texts ++ rest) = a ← judge wr 0 texts no_answer; finish_answer wr expected a.
Proof.
  intros Ho Hl Hd Hlim Ht. unfold infer, opened_stream. rewrite Ho. cbn [mbind res_bind mret res_ret].
  rewrite (judged wr timeout texts rest _ 0 0 no_answer Hl Hd); [|done|done|lia|].
  - by destruct (judge wr 0 texts no_answer).
  - assert (length texts <= length (concat (encode_event <$> texts)))%nat; [|unfold encode_stream; rewrite !length_app; lia].
    clear. induction texts as [|text texts IH]; [done|]. rewrite fmap_cons, concat_cons, length_app, length_encode_event. cbn [length]. lia.
Qed.

(** ** Waits, ports and identities *)

Section waits.
Context {W : Type} (wait : pystr → Z → ST W pystr) (monotonic : W → Z) (key : pystr).
Hypothesis wait_advances : ∀ t u e u', 0 < t → wait key t u = (Raise e, u') → exc e = TimeoutError → monotonic u < monotonic u'.

(** More rounds than the time left change nothing. *)
Lemma wait_rounds_enough deadline fuel fuel' w : (Z.to_nat (deadline - monotonic w) < fuel)%nat → (Z.to_nat (deadline - monotonic w) < fuel')%nat →
  wait_rounds wait monotonic fuel key deadline w = wait_rounds wait monotonic fuel' key deadline w.
Proof.
  revert fuel' w. induction fuel as [|fuel IH]; intros [|fuel'] w Hf Hf'; try lia. cbn [wait_rounds].
  destruct (Z.leb_spec (deadline - monotonic w) 0); [done|]. destruct (wait key _ w) as [[v|e] w1] eqn:Ew; [done|].
  destruct (bool_decide (exc e = TimeoutError)) eqn:Ee; [|done]. apply bool_decide_eq_true in Ee. assert (monotonic w < monotonic w1) by (eapply wait_advances; [|exact Ew|exact Ee]; unfold COORDINATOR_MAX_WAIT; lia).
  destruct (Z.leb_spec deadline (monotonic w1)); [done|]. apply IH; lia.
Qed.

Lemma wait_loop_step deadline w : wait_loop wait monotonic key deadline w =
  if deadline - monotonic w <=? 0 then (Raise (Exn TimeoutError "timed out waiting for coordinator key"), w)
  else match wait key (Z.min COORDINATOR_MAX_WAIT (deadline - monotonic w)) w with
       | (Ok v, w1) => (Ok v, w1)
       | (Raise e, w1) => if bool_decide (exc e = TimeoutError) && negb (deadline <=? monotonic w1)
                          then wait_loop wait monotonic key deadline w1 else (Raise e, w1)
       end.
Proof.
  unfold wait_loop at 1. cbn [wait_rounds]. destruct (Z.leb_spec (deadline - monotonic w) 0); [done|].
  destruct (wait key _ w) as [[v|e] w1] eqn:Ew; [done|]. destruct (bool_decide (exc e = TimeoutError)) eqn:Ee; cbn [andb]; [|done].
  apply bool_decide_eq_true in Ee. assert (monotonic w < monotonic w1) by (eapply wait_advances; [|exact Ew|exact Ee]; unfold COORDINATOR_MAX_WAIT; lia). destruct (Z.leb_spec deadline (monotonic w1)); cbn [negb]; [done|].
  apply wait_rounds_enough; lia.
Qed.

Lemma wait_rounds_bounded deadline : ∀ fuel w r w', (Z.to_nat (deadline - monotonic w) < fuel)%nat → wait_rounds wait monotonic fuel key deadline w = (r, w') →
  (∃ e, r = Raise e ∧ exc e = TimeoutError ∧ deadline <= monotonic w')
  ∨ ∃ t u, 0 < t <= COORDINATOR_MAX_WAIT ∧ monotonic u + t <= deadline ∧ wait key t u = (r, w').
Proof.
  induction fuel as [|fuel IH]; intros w r w' Hf; cbn [wait_rounds]; [lia|].
  destruct (Z.leb_spec (deadline - monotonic w) 0) as [|Hr]; [intros [= <- <-]; left; eexists; split_and!; [done..|lia]|].
  destruct (wait key (Z.min COORDINATOR_MAX_WAIT (deadline - monotonic w)) w) as [[v|e] w1] eqn:Ew.
  - intros [= <- <-]. right. eexists _, w. split_and!; [| | |exact Ew]; unfold COORDINATOR_MAX_WAIT in *; lia.
  - destruct (bool_decide (exc e = TimeoutError)) eqn:Ee; [apply bool_decide_eq_true in Ee|].
    + assert (monotonic w < monotonic w1) by (eapply wait_advances; [|exact Ew|exact Ee]; unfold COORDINATOR_MAX_WAIT; lia). destruct (Z.leb_spec deadline (monotonic w1)); [intros [= <- <-]; left; by eexists|].
      apply IH. lia.
    + intros [= <- <-]. right. eexists _, w. split_and!; [| | |exact Ew]; unfold COORDINATOR_MAX_WAIT in *; lia.
Qed.
End waits.

(** C16. Waiting for a key of the coordinator ends and honours the deadline, provided only that
    a request of the client that ends in a timeout, however early (its connection timeout
    is five seconds, and it rounds waits to milliseconds), lets the integral clock
    advance. The loop is that of the code, at any time and with any deadline. Every
    request is positive, at most an hour and would end by the deadline; a value returned
    and an error other than a timeout are those of such a request; and a timeout is
    reported only once the deadline has passed. *)
Theorem coordinator_wait_bounded {W} (wait : pystr → Z → ST W pystr) (monotonic : W → Z) key timeout w r w' :
  (∀ t u e u', 0 < t → wait key t u = (Raise e, u') → exc e = TimeoutError → monotonic u < monotonic u') →
  coordinator_wait wait monotonic key timeout w = (r, w') →
  (∀ deadline u, wait_loop wait monotonic key deadline u =
    if deadline - monotonic u <=? 0 then (Raise (Exn TimeoutError "timed out waiting for coordinator key"), u)
    else match wait key (Z.min COORDINATOR_MAX_WAIT (deadline - monotonic u)) u with
         | (Ok v, u1) => (Ok v, u1)
         | (Raise e, u1) => if bool_decide (exc e = TimeoutError) && negb (deadline <=? monotonic u1)
                            then wait_loop wait monotonic key deadline u1 else (Raise e, u1)
         end)
  ∧ ((∃ e, r = Raise e ∧ exc e = TimeoutError ∧ monotonic w + timeout <= monotonic w')
     ∨ ∃ t u, 0 < t <= COORDINATOR_MAX_WAIT ∧ monotonic u + t <= monotonic w + timeout ∧ wait key t u = (r, w')).
Proof.
  intros Hw E. split; [by apply wait_loop_step|]. unfold coordinator_wait, wait_loop in E. eapply wait_rounds_bounded; [exact Hw| |exact E]. lia.
Qed.

(** Moving ports by a shift permutes the unprivileged ports: a valid shift sends every such
    port to such a port, no two to the same one, and reaches every one. *)
Theorem port_shift_permutes shift : 0 <= shift < 65536 - 1024 →
  (∀ p, 1024 <= p < 65536 → ∃ q, shift_tcp_port p shift = Ok q ∧ 1024 <= q < 65536)
  ∧ (∀ p p' q, shift_tcp_port p shift = Ok q → shift_tcp_port p' shift = Ok q → p = p')
  ∧ (∀ q, 1024 <= q < 65536 → ∃ p, 1024 <= p < 65536 ∧ shift_tcp_port p shift = Ok q).
Proof.
  intros Hs. assert (∀ p, 1024 <= p < 65536 → shift_tcp_port p shift = Ok (1024 + (p - 1024 + shift) mod 64512)) as Hok.
  { intros p Hp. unfold shift_tcp_port. by rewrite !(proj2 (Z.leb_le _ _)), !(proj2 (Z.ltb_lt _ _)) by lia. }
  assert (∀ p q, shift_tcp_port p shift = Ok q → 1024 <= p < 65536) as Hin.
  { unfold shift_tcp_port. intros p q E. apply bind_Ok in E as ([] & H%raise_if_Ok & _). apply negb_false_iff in H. lia. }
  split_and!.
  - intros p Hp. eexists. split; [by apply Hok|lia].
  - intros p p' q E E'. pose proof (Hin _ _ E). pose proof (Hin _ _ E'). rewrite Hok in E, E' by done. clear Hok Hin. injection E as E. injection E' as E'. lia.
  - intros q Hq. exists (1024 + (q - 1024 - shift) mod 64512). split; [lia|]. rewrite Hok by lia. f_equal. lia.
Qed.

Lemma extend_paths_nil {A} (f : A → list pystr) l : ∀ acc, (length acc < 8)%nat → extend_paths f l acc = [] ↔ acc = [] ∧ Forall (λ x, f x = []) l.
Proof.
  induction l as [|x l IH]; intros acc Ha; cbn [extend_paths]; [by split; [|intros []]|].
  rewrite Forall_cons. destruct (Nat.leb_spec 8 (length (acc ++ f x))) as [Hl|Hl].
  - split; [intros E%(f_equal length); by rewrite length_take, Nat.min_l in E|]. intros (-> & Hx & _). rewrite Hx in Hl. cbn in Hl. lia.
  - rewrite IH by done. rewrite app_nil. tauto.
Qed.
Lemma extend_paths_bound {A} (f : A → list pystr) l : ∀ acc, (length acc < 8)%nat → (length (extend_paths f l acc) <= 8)%nat.
Proof.
  induction l as [|x l IH]; intros acc Ha; cbn [extend_paths]; [lia|].
  destruct (Nat.leb_spec 8 (length (acc ++ f x))); [rewrite length_take; lia|by apply IH].
Qed.

(** Objects with unique keys have the same canonical form when their values do. *)
Lemma sort_keys_obj_eq a b : NoDup a.*1 → NoDup b.*1 →
  sort_keys (JObj a) = sort_keys (JObj b) ↔ ∀ k, sort_keys <$> dict_get k a = sort_keys <$> dict_get k b.
Proof.
  intros Ha Hb. split; [intros E k; by apply sort_keys_obj_get|]. intros Hk. rewrite !sort_keys_obj. f_equal.
  assert (∀ l : list (pystr * json), NoDup l.*1 → NoDup (py_sorted key_leb (sort_item <$> l)).*1) as Hnd by (intros l Hl; by rewrite sort_keys_keys).
  assert (∀ l, NoDup l.*1 → StronglySorted (λ x y, key_leb x y = true) (py_sorted key_leb (sort_item <$> l))) as Hss.
  { intros l _. apply Sorted_StronglySorted; [|apply sort_by_key_ordered]. intros [] [] []. unfold key_leb. cbn. apply leb_trans. }
  assert (∀ x, x ∈ py_sorted key_leb (sort_item <$> a) ↔ x ∈ py_sorted key_leb (sort_item <$> b)) as Hin.
  { intros [k v]. rewrite <- !dict_get_elem by auto. by rewrite !dict_get_sort, Hk by done. }
  eapply StronglySorted_unique_strong; [|by apply Hss..|].
  - intros [k v] [k' v'] Hx Hy H1 H2. unfold key_leb in H1, H2. cbn in H1, H2. assert (k = k') as -> by (by apply (leb_antisym k k')).
    rewrite <- Hin in Hy. apply dict_get_elem in Hx; [|auto]. apply dict_get_elem in Hy; [|auto]. congruence.
  - apply NoDup_Permutation; [by apply (NoDup_fmap_1 fst), Hnd..|done].
Qed.

Lemma height_obj k x d : (k, x) ∈ d → (json_height x < json_height (JObj d))%nat.
Proof. cbn [json_height]. induction d as [|[k' v] d IH]; [by intros ?%elem_of_nil|]. intros [[= -> ->]|Hin]%elem_of_cons; simpl; [lia|]. specialize (IH Hin). lia. Qed.
Lemma height_arr x l : x ∈ l → (json_height x < json_height (JArr l))%nat.
Proof. cbn [json_height]. induction l as [|v l IH]; [by intros ?%elem_of_nil|]. intros [->|Hin]%elem_of_cons; simpl; [lia|]. specialize (IH Hin). lia. Qed.
Lemma height_pos v : (0 < json_height v)%nat.
Proof. destruct v; cbn; lia. Qed.

Lemma mismatch_obj (child : pystr → pystr) f e a : NoDup e.*1 → NoDup a.*1 →
  (∀ k x y, dict_get k e = Some x → dict_get k a = Some y → f x y (child k) = [] ↔ sort_keys x = sort_keys y) →
  Forall (λ k, match dict_get k e, dict_get k a with Some x, Some y => f x y (child k) | _, _ => [child k] end = []) (key_union e a)
  ↔ sort_keys (JObj e) = sort_keys (JObj a).
Proof.
  intros He Ha Hf. rewrite sort_keys_obj_eq, Forall_forall by done. split.
  - intros HF k. destruct (decide (k ∈ key_union e a)) as [Hk|Hk].
    + specialize (HF k Hk). destruct (dict_get k e) as [x|] eqn:Ex, (dict_get k a) as [y|] eqn:Ey; try done. cbn. f_equal. by apply (Hf k).
    + rewrite elem_of_key_union in Hk. assert (dict_get k e = None ∧ dict_get k a = None) as [-> ->]; [|done]. split; apply dict_get_None; tauto.
  - intros Hk k Hin. specialize (Hk k). rewrite elem_of_key_union in Hin.
    destruct (dict_get k e) as [x|] eqn:Ex, (dict_get k a) as [y|] eqn:Ey; try done; [apply (Hf k); [done..|]; by injection Hk|].
    apply dict_get_None in Ex. apply dict_get_None in Ey. tauto.
Qed.
Lemma mismatch_arr (f : nat → json → json → list pystr) : ∀ e a k, (∀ i x y, e !! i = Some x → a !! i = Some y → f (k + i)%nat x y = [] ↔ sort_keys x = sort_keys y) → length e = length a →
  Forall (λ p : nat * (json * json), f p.1 p.2.1 p.2.2 = []) (imap (λ i xy, ((k + i)%nat, xy)) (zip e a)) ↔ sort_keys <$> e = sort_keys <$> a.
Proof.
  induction e as [|x e IH]; intros [|y a] k Hf Hl; try done. csimpl. rewrite Forall_cons. cbn [fst snd].
  rewrite (Hf 0%nat x y) by done. injection Hl as Hl.
  assert (imap ((λ i xy, ((k + i)%nat, xy)) ∘ S) (zip e a) = imap (λ i xy, ((S k + i)%nat, xy)) (zip e a)) as ->.
  { apply imap_ext. intros i xy _. cbn. f_equal. lia. }
  rewrite (IH a (S k)); [|intros i u v Hu Hv; rewrite <- (Hf (S i) u v) by done; by rewrite Nat.add_succ_r|done].
  split; [by intros [-> ->]|]. by intros [= -> ->].
Qed.

Lemma mismatch_paths_exact fuel e : ∀ a path, (json_height e <= fuel)%nat → exact e = true → exact a = true →
  mismatch_paths fuel e a path = [] ↔ sort_keys e = sort_keys a.
Proof.
  revert e. induction fuel as [|fuel IH]; intros e a path Hf He Ha; [pose proof (height_pos e); lia|]. cbn [mismatch_paths].
  destruct (same_type e a) eqn:Et; cbn [negb]; [|split; [done|]; intros E; by destruct e, a].
  destruct e as [|b|z|f|s|l|e], a as [|b'|z'|f'|s'|l'|a]; try done; cbn [sort_keys] in *.
  - cbn [py_eq]. destruct (Bool.eqb_spec b b'); split; congruence.
  - cbn [py_eq]. destruct (Z.eqb_spec z z'); split; congruence.
  - cbn [py_eq]. case_bool_decide; split; congruence.
  - cbn [exact] in He, Ha. rewrite forallb_forall in He. rewrite forallb_forall in Ha.
    rewrite extend_paths_nil by (by case_match; cbn; lia). destruct (Nat.eqb_spec (length l) (length l')) as [Hl|Hl].
    + rewrite (mismatch_arr (λ i x y, mismatch_paths fuel x y (path ++ lit "[" ++ str_of_Z (Z.of_nat i) ++ lit "]")) l l' 0); [|clear Hl|done].
      * split; [by intros [_ ->]|]. by intros [= ->].
      * intros i x y Hx%list_elem_of_lookup_2 Hy%list_elem_of_lookup_2. apply height_arr in Hx as Hh. apply IH; [lia|..]; [apply He|apply Ha]; by apply list_elem_of_In.
    + split; [by intros [? _]|]. intros [= E]. apply (f_equal length) in E. by rewrite !length_fmap in E.
  - cbn [exact] in He, Ha. guards. rewrite extend_paths_nil by (cbn; lia).
    repeat match goal with H : has_dups _ = false |- _ => apply has_dups_false in H end.
    repeat match goal with H : forallb _ _ = true |- _ => rewrite forallb_forall in H end.
    change (JObj (py_sorted key_leb ((λ kv, (kv.1, sort_keys kv.2)) <$> e))) with (sort_keys (JObj e)).
    change (JObj (py_sorted key_leb ((λ kv, (kv.1, sort_keys kv.2)) <$> a))) with (sort_keys (JObj a)).
    rewrite <- (mismatch_obj (λ key, path ++ lit "." ++ key) (mismatch_paths fuel)); [tauto|done..|].
    intros k x y Hx%dict_get_in Hy%dict_get_in. apply height_obj in Hx as Hh. apply list_elem_of_In in Hx. apply list_elem_of_In in Hy.
    apply IH; [lia| |];
      match goal with H : ∀ p, In p ?d → _, Hin : In (k, ?v) ?d |- exact ?v = true => specialize (H _ Hin); cbn in H; by apply andb_true_iff in H as [_ ?] end.
Qed.

(** C15. Comparing a captured identity with the live one is exact: for values without floats no
    path is reported if and only if the two have the same canonical text, so types matter and
    the order of keys does not; and at most eight paths are reported. *)
Theorem identity_mismatch_exact expected actual : exact expected = true → exact actual = true →
  (identity_mismatch_paths expected actual = [] ↔ dumps canonical_style expected = dumps canonical_style actual)
  ∧ (length (identity_mismatch_paths expected actual) <= 8)%nat.
Proof.
  intros He Ha. unfold identity_mismatch_paths. split.
  - rewrite mismatch_paths_exact by done. split; [unfold dumps; by intros ->|]. exact (dumps_inj canonical_style _ _ canonical_style_ok He Ha).
  - destruct (json_height expected) as [|fuel]; cbn [mismatch_paths length]; [lia|]. destruct (negb _); [cbn; lia|].
    destruct expected, actual; try (case_match; cbn; lia); apply extend_paths_bound; [case_match|]; cbn; lia.
Qed.

(** Evidence of shape calibration covers at least one shape and every planned one. *)
Lemma detail_counts v engine d : validate_shape_calibration_detail v engine = Ok d → d = v ∧ ∃ z, shape_count "planned_shapes" v = Ok z ∧ 0 < z ∧ py_eq (field "warmed_shapes" v) (JInt z) = true.
Proof.
  unfold validate_shape_calibration_detail. destruct v as [| | | | | |d']; try done. intros E.
  apply bind_Ok in E as ([] & Hg%raise_if_Ok & E). apply bind_Ok in E as (ok & _ & E). apply bind_Ok in E as ([] & _ & E). injection E as <-.
  split; [done|]. rewrite !orb_false_iff, !negb_false_iff in Hg. destruct Hg as [[[_ _] Hp] Hw].
  unfold shape_count. destruct (field "planned_shapes" (JObj d')) as [| |z| | | |]; try done. exists z. split_and!; [done|lia|done].
Qed.
Lemma details_counts engine results : ∀ details, validate_details engine results = Ok details →
  Forall (λ v, ∃ z, shape_count "planned_shapes" v = Ok z ∧ 0 < z) details ∧ length details = length results.
Proof.
  induction results as [|status rest IH]; intros details E; cbn [validate_details] in E; [by injection E as <-|].
  apply bind_Ok in E as (d & Hd & E). apply bind_Ok in E as (ds & Hds & E). injection E as <-. apply detail_counts in Hd as (-> & z & Hz & Hpos & _).
  apply IH in Hds as [HF Hl]. split; [constructor; [by exists z|done]|cbn; lia].
Qed.
Lemma coverage_sound {W} rpc set wait clock file timeout enabled engine namespace rank (w w' : W) cv :
  capture_shape_calibration rpc set wait clock file timeout enabled engine namespace rank w = (Ok (Some cv), w') →
  cv_warmed cv = cv_planned cv ∧ 0 < cv_planned cv ∧ cv_details cv ≠ [].
Proof.
  unfold capture_shape_calibration. intros E. apply st_bind_Ok in E as (on & w1 & _ & E). destruct on; [|by injection E].
  apply st_bind_Ok in E as (details & w2 & Ed & E). apply st_bind_Ok in E as (ev & w3 & Ec & E). injection E as <- <-. apply lift_Ok in Ec as [Ec _].
  assert (Forall (λ v, ∃ z, shape_count "planned_shapes" v = Ok z ∧ 0 < z) details ∧ details ≠ []) as [HF Hne].
  { destruct (decide (engine = lit "vllm")); [|destruct (decide (engine = lit "sglang")); [|by apply lift_Ok in Ed as [? _]]].
    - apply st_bind_Ok in Ed as (response & w4 & _ & Ed). apply lift_Ok in Ed as [Ed _]. unfold vllm_details in Ed.
      destruct (field "results" response) as [| | | | |[|x results]|]; try done. apply details_counts in Ed as [? Hl]. split; [done|]. by destruct details.
    - apply st_bind_Ok in Ed as (status & w4 & _ & Ed). apply lift_Ok in Ed as [Ed _]. unfold sglang_details in Ed.
      apply bind_Ok in Ed as ([] & _ & Ed). apply bind_Ok in Ed as (d & Hd & Ed). injection Ed as <-. apply detail_counts in Hd as (-> & z & Hz & Hpos & _).
      split; [by constructor; [exists z|]|done]. }
  unfold shape_coverage in Ec. apply bind_Ok in Ec as (planned & Hp & Ec). apply bind_Ok in Ec as (warmed & _ & Ec).
  apply bind_Ok in Ec as ([] & Hw%raise_if_Ok%negb_false_iff%Z.eqb_eq & Ec). injection Ec as <-. cbn. split_and!; [done| |done].
  clear - HF Hne Hp. assert (∀ l ps, Forall (λ v, ∃ z, shape_count "planned_shapes" v = Ok z ∧ 0 < z) l → mapM (shape_count "planned_shapes") l = Ok ps →
    0 <= zsum ps ∧ (l ≠ [] → 0 < zsum ps)) as Hz; [|by apply (Hz details planned)].
  clear. induction l as [|v l IH]; intros ps HF E; cbn in E; [by injection E as <-|]. apply Forall_cons in HF as [(z & Hz & Hpos) HF].
  apply bind_Ok in E as (p & Ep & E). apply bind_Ok in E as (ps' & Eps & E). injection E as <-. rewrite Hz in Ep. injection Ep as <-.
  destruct (IH _ HF Eps) as [? _]. unfold zsum in *. cbn. lia.
Qed.

(** ** Witnesses *)

Definition sample_wire : wire :=
  Wire (-3) 997 None (λ n, Z.of_nat n) (λ n, Z.of_nat n) (λ n, 1000 + Z.of_nat n) 9 (λ _, None).
(** The second event has a character beyond ASCII. *)
Definition sample_events : list pystr :=
  [jtext "{'id':'r1','choices':[{'index':0,'delta':{'role':'assistant'}}]}";
   jtext "{'choices':[{'index':0,'delta':{'content':'" ++ [233%N] ++ jtext "O'}}]}";
   jtext "{'choices':[{'index':0,'delta':{'content':'K'},'finish_reason':'stop'}]}"].
Definition sample_expected : pystr := 233%N :: lit "OK".

Lemma sample_lines : Forall one_line sample_events.
Proof.
  repeat constructor; first [by vm_compute|by apply (bool_decide_unpack _)].
Qed.
Lemma stream_judged_by_events_witness :
  infer sample_wire 100 sample_expected (encode_stream sample_events ++ lit "junk")
  = a ← judge sample_wire 0 sample_events no_answer; finish_answer sample_wire sample_expected a.
Proof.
  apply (stream_judged_by_events sample_wire 100 sample_expected sample_events (lit "junk")); [done|exact sample_lines|by apply (bool_decide_unpack _)|by vm_compute|].
  intros n Hn. split; [|done]. cbn in *. lia.
Defined.

(** A coordinator that has the key after forty ticks and times out early, with the clock as
    the world. *)
Definition sample_wait (key : pystr) (t : Z) : ST Z pystr := λ now,
  if 40 <=? now then (Ok (lit "value"), now) else (Raise (Exn TimeoutError "wait"), now + Z.min t 5).
Lemma coordinator_wait_bounded_witness :
  (∃ e, (coordinator_wait sample_wait id (lit "k") 60 0).1 = Raise e ∧ exc e = TimeoutError
     ∧ 0 + 60 <= (coordinator_wait sample_wait id (lit "k") 60 0).2)
  ∨ ∃ t u, 0 < t <= COORDINATOR_MAX_WAIT ∧ u + t <= 0 + 60
      ∧ sample_wait (lit "k") t u = coordinator_wait sample_wait id (lit "k") 60 0.
Proof.
  refine (proj2 (coordinator_wait_bounded sample_wait id (lit "k") 60 0 _ _ _ _)); [|by vm_compute].
  unfold sample_wait. intros t u e u' Ht E _. destruct (_ <=? _); [done|]. injection E as _ <-. unfold id. lia.
Defined.

Lemma port_shift_permutes_witness :
  (∀ p, 1024 <= p < 65536 → ∃ q, shift_tcp_port p 7 = Ok q ∧ 1024 <= q < 65536)
  ∧ (∀ p p' q, shift_tcp_port p 7 = Ok q → shift_tcp_port p' 7 = Ok q → p = p')
  ∧ (∀ q, 1024 <= q < 65536 → ∃ p, 1024 <= p < 65536 ∧ shift_tcp_port p 7 = Ok q).
Proof. apply (port_shift_permutes 7). lia. Defined.

Definition captured_identity : json := JObj [(lit "rank", JInt 1); (lit "serve_command", JArr [JStr (lit "vllm"); JStr (lit "serve")])].
Definition live_identity : json := JObj [(lit "serve_command", JArr [JStr (lit "vllm"); JStr (lit "serve")]); (lit "rank", JBool true)].
Lemma identity_mismatch_exact_witness :
  (identity_mismatch_paths captured_identity live_identity = []
     ↔ dumps canonical_style captured_identity = dumps canonical_style live_identity)
  ∧ (length (identity_mismatch_paths captured_identity live_identity) <= 8)%nat.
Proof. apply (identity_mismatch_exact captured_identity live_identity); by vm_compute. Defined.
Example identity_paths : identity_mismatch_paths captured_identity live_identity = [lit "identity.rank"].
Proof. by vm_compute. Qed.
