(* ===== verification/ServiceCapsule.v ===== *)
(** * The service runtime: the capsule of a launch unit

    The part of [coldsnap_service_runtime.py] that prepares and reads the files of a capsule:
    the workers of the unit, their hydration manifests and states, the choice of the weight
    provider, the environment staged for a restored worker, and the packs of SGLang workers. *)

From S2P Require Import Prelude PyFloat PyJson Hash Validation PyPath Artifact Service.

(** ** Workers *)

Definition hashable_value (v : json) : bool := match v with JArr _ | JObj _ => false | _ => true end.
Definition worker_text (v : json) : option pystr := match v with JStr ((_ :: _) as s) => Some s | _ => None end.
(** [_unit_worker_ids] of the variable [COLDSNAP_EXECUTION_GRAPH] *)
Definition unit_worker_ids (raw : option pystr) : res (list pystr) :=
  raw ← of_option RuntimeError "COLDSNAP_EXECUTION_GRAPH is required" raw;
  graph ← of_option RuntimeError "COLDSNAP_EXECUTION_GRAPH is invalid JSON" (loads raw);
  match field "by_process_slot" graph with
  | JObj ((_ :: _) as slots) =>
      _ ← raise_if (negb (forallb hashable_value slots.*2)) TypeError "unhashable type";
      workers ← of_option RuntimeError "ColdSnap execution graph contains invalid unit workers" (mapM worker_text slots.*2);
      _ ← raise_if (has_dups workers) RuntimeError "ColdSnap execution graph contains invalid unit workers";
      mret workers
  | _ => Raise (Exn RuntimeError "ColdSnap execution graph contains no unit workers")
  end.

(** The loop of [_hydration_manifests] and of [_hibernate_states] over the records of their
    files, in the order of the paths, and the comparison with the unit. *)
Fixpoint collect_workers {A} (files : list (A * res json)) (seen : list (pystr * (A * json))) : res (list (pystr * (A * json))) :=
  match files with
  | [] => mret seen
  | (path, loaded) :: rest =>
      record ← loaded;
      worker ← of_option RuntimeError "capsule contains an invalid or duplicate worker record" (worker_text (field "worker_id" record));
      _ ← raise_if (bool_decide (worker ∈ seen.*1)) RuntimeError "capsule contains an invalid or duplicate worker record";
      collect_workers rest (seen ++ [(worker, (path, record))])
  end.
Definition unit_records {A} (graph : option pystr) (files : list (A * res json)) : res (list (pystr * (A * json))) :=
  found ← collect_workers files [];
  expected ← unit_worker_ids graph;
  _ ← raise_if (negb (set_eqb found.*1 expected)) RuntimeError "capsule worker set differs from launch unit";
  mret found.
Definition hydration_manifests {A} (graph : option pystr) (files : list (A * res json)) : res (list (pystr * A)) :=
  found ← unit_records graph files; mret ((λ p : pystr * (A * json), (p.1, p.2.1)) <$> (found : list (pystr * (A * json)))).
Definition hibernate_states {A} (graph : option pystr) (files : list (A * res json)) : res (list (pystr * json)) :=
  found ← unit_records graph files; mret ((λ p : pystr * (A * json), (p.1, p.2.2)) <$> (found : list (pystr * (A * json)))).

(** [_select_weight_provider]: the content of [activation-provider] afterwards. *)
Definition select_weight_provider (manifest : res json) (native_manifest : bool) (requested : pystr) : res (option pystr) :=
  manifest ← manifest;
  let weight_source := default (JStr (lit "blob")) (jget "weight_source" manifest) in
  if py_eq weight_source (JStr (lit "blob")) then
    _ ← raise_if (negb (bool_decide (requested = lit "native"))) RuntimeError "full-blob artifacts require the native weight provider";
    mret None
  else
    _ ← raise_if (negb (py_eq weight_source (JStr (lit "safetensors")))) RuntimeError "capsule hydration manifest has an unsupported weight source";
    _ ← raise_if (bool_decide (requested = lit "native") && negb native_manifest) RuntimeError "recovery-aware capsule does not contain a native replay manifest";
    mret (Some (requested ++ lit "
")).

(** ** The environment of a restored worker *)

Definition TRANSPORT_NAMES : list pystr :=
  [lit "GLOO_SOCKET_IFNAME"; lit "MN_IF_NAME"; lit "NODE_IP"; lit "TP_SOCKET_IFNAME"; lit "UCX_NET_DEVICES"; lit "VLLM_HOST_IP"].
Definition TRANSPORT_PREFIXES : list pystr := [lit "NCCL_"; lit "OMPI_MCA_"; lit "UCX_"].
Definition is_transport_environment (name : pystr) : bool :=
  bool_decide (name ∈ TRANSPORT_NAMES) || existsb (λ p, starts_with p name) TRANSPORT_PREFIXES.
Definition RUNTIME_NAMES : list pystr := lit <$> [
  "COLDSNAP_API_MM_WARM_FILE"; "COLDSNAP_API_MM_WARMUP_DELAY_SECONDS"; "COLDSNAP_ASYNC_CUDA_GRAPHS"; "COLDSNAP_ASYNC_CUDA_GRAPHS_ARM_FILE";
  "COLDSNAP_ASYNC_CUDA_GRAPHS_GENERATION"; "COLDSNAP_ASYNC_CUDA_GRAPHS_READY_FILE"; "COLDSNAP_DEFERRED_API_MM_WARMUP"; "COLDSNAP_DEFERRED_WARMUP";
  "COLDSNAP_DEFERRED_WARMUP_ARM_FILE"; "COLDSNAP_FREE_MEMORY_RESERVE_BYTES"; "COLDSNAP_FULLY_WARM_FILE"; "COLDSNAP_GRAPH_POLICY";
  "COLDSNAP_GRAPH_POLICY_REQUESTED"; "COLDSNAP_KV_CAPACITY_GUARD"; "COLDSNAP_REQUIRED_FREE_MEMORY_BYTES"; "COLDSNAP_SHAPE_CALIBRATION";
  "COLDSNAP_SOURCE_RUNTIME_IMAGE"; "COLDSNAP_STARTUP_PLAN_MAX_SHORTFALL_BYTES"; "COLDSNAP_VLLM_OVERRIDE_CUMEM"; "COLDSNAP_WARMUP_GENERATION";
  "VLLM_ENABLE_STARTUP_PLAN"]%string.
(** [os.environ] as a list of distinct names. *)
Definition environ : Type := list (pystr * pystr).
Fixpoint env_get (name : pystr) (env : environ) : option pystr :=
  match env with
  | [] => None
  | (n, v) :: rest => if decide (name = n) then Some v else env_get name rest
  end.
Definition staged_record (kind : string) (env : environ) (variables : environ) : json := JObj [
  (lit "format", JInt 1); (lit "kind", JStr (lit kind)); (lit "unit", JStr (default [] (env_get (lit "COLDSNAP_EXPECTED_UNIT") env)));
  (lit "variables", JObj ((λ p, (p.1, JStr p.2)) <$> variables))].
(** [_stage_restore_transport_environment] and [_stage_restore_runtime_environment]: the
    record written, or nothing; [expected] is the file of the rank's capsule. *)
Definition stage_restore_transport_environment (env : environ) (expected : purepath) : res (option json) :=
  match env_get (lit "COLDSNAP_RESTORE_TRANSPORT_ENVIRONMENT_PATH") env with
  | None => mret None
  | Some path =>
      _ ← raise_if (negb (bool_decide (parse_path path = expected))) RuntimeError "restore transport environment path is outside the rank capsule";
      mret (Some (staged_record "coldsnap-restore-transport-environment" env
        (filter (λ p : pystr * pystr, is_transport_environment p.1 = true) (sort_str_pairs env))))
  end.
Definition stage_restore_runtime_environment (env : environ) (expected : purepath) : res (option json) :=
  match env_get (lit "COLDSNAP_RESTORE_RUNTIME_ENVIRONMENT_PATH") env with
  | None => mret None
  | Some path =>
      _ ← raise_if (negb (bool_decide (parse_path path = expected))) RuntimeError "restore runtime environment path is outside the rank capsule";
      mret (Some (staged_record "coldsnap-restore-runtime-environment" env
        (omap (λ name, pair name <$> env_get name env) (sort_str RUNTIME_NAMES))))
  end.

(** ** Packs of SGLang workers *)

(** [aligned = (position + 4095) & ~4095] *)
Definition pack_aligned (position : Z) : Z := Z.land (position + 4095) (Z.lnot 4095).
(** [shutil.copyfileobj(stream, output, length=64 * 1024**2)] *)
Definition COPY_LENGTH : Z := 64 * 1024 * 1024.
(** The temporary file of a pack: its bytes, and the position of the next write. *)
Record pack_output := PackOutput { po_bytes : pybytes; po_position : nat }.
(** Bytes placed at a position; a gap before it reads as zeros. *)
Definition put_bytes (f : pybytes) (position : nat) (data : pybytes) : pybytes :=
  take position f ++ replicate (position - length f) 0%N ++ data ++ drop (position + length data) f.

(** A component of a worker below [semantic/workers]: its name, its manifest, and its blob. *)
Record component_dir := Component { cd_name : pystr; cd_manifest : option (res json); cd_blob : option pybytes }.
(** The files of a worker below [hydration]. *)
Record hydration_dir := HydrationDir { hd_replay : option json; hd_pack : option pybytes; hd_native : option json }.
Record capsule := Capsule { semantic : pystr → list component_dir; hydration : pystr → hydration_dir; file_ops : nat }.

(** [isinstance(v, int)], which a [bool] is too *)
Definition as_int (v : json) : option Z := match v with JInt z => Some z | JBool b => Some (bool_int b) | _ => None end.
Definition is_sha256 (v : json) : bool := match v with JStr s => (length s =? 64)%nat && forallb is_lower_hex s | _ => false end.
Definition component_record (worker : pystr) (name : pystr) (manifest : json) : json := JObj [
  (lit "artifact", JStr (lit "workers/" ++ worker ++ lit "/" ++ name)); (lit "identity_sha256", field "identity_sha256" manifest);
  (lit "blob_bytes", field "blob_bytes" manifest); (lit "blob_sha256", field "blob_sha256" manifest)].
(** The components of a worker: what the plan lists, and with an export what is packed. *)
Fixpoint collect_components (worker : pystr) (export : bool) (dirs : list component_dir) : res (list (pystr * (pybytes * json)) * list json) :=
  match dirs with
  | [] => mret ([], [])
  | d :: rest =>
      match cd_manifest d with
      | None => collect_components worker export rest
      | Some loaded =>
          manifest ← loaded;
          let component := component_record worker (cd_name d) manifest in
          _ ← raise_if (negb (is_sha256 (field "identity_sha256" manifest))
                        || negb (match as_int (field "blob_bytes" manifest) with Some z => 0 <? z | None => false end)
                        || negb (is_sha256 (field "blob_sha256" manifest)))
              RuntimeError "SGLang worker semantic payload metadata is invalid";
          packed ← (if export then
                      match cd_blob d with
                      | Some blob =>
                          _ ← raise_if (negb (bool_decide (as_int (field "blob_bytes" manifest) = Some (Z.of_nat (length blob)))))
                              RuntimeError "SGLang worker semantic payload is incomplete";
                          mret [(cd_name d, (blob, component))]
                      | None => Raise (Exn RuntimeError "SGLang worker semantic payload is incomplete")
                      end
                    else mret []);
          '(components, replay) ← collect_components worker export rest;
          mret (packed ++ components, component :: replay)
      end
  end.
Definition replay_plan (worker model model_revision : pystr) (replay : list json) : json := JObj [
  (lit "format", JInt 1); (lit "kind", JStr (lit "coldsnap-sglang-replay-plan")); (lit "engine", JStr (lit "sglang")); (lit "worker_id", JStr worker);
  (lit "weight_source", JStr (lit "safetensors")); (lit "model_id", JStr model); (lit "model_revision", JStr model_revision); (lit "components", JArr replay)].
(** [{**metadata, "offset": ..., "bytes": ...}] *)
Definition index_record (e : json * Z * Z) : json :=
  match e with (JObj d, offset, size) => JObj (dict_set (lit "bytes") (JInt size) (dict_set (lit "offset") (JInt offset) d)) | (v, _, _) => v end.
Definition native_plan (worker : pystr) (index : list json) : json := JObj [
  (lit "format", JInt 1); (lit "kind", JStr (lit "coldsnap-sglang-model-payload")); (lit "worker_id", JStr worker); (lit "components", JArr index)].

Definition on_hydration (worker : pystr) (f : hydration_dir → hydration_dir) (c : capsule) : capsule :=
  Capsule (semantic c) (λ w, if decide (w = worker) then f (hydration c w) else hydration c w) (file_ops c).
Definition remove_blob (worker name : pystr) (c : capsule) : capsule :=
  Capsule (λ w, if decide (w = worker) then (λ d, if decide (cd_name d = name) then Component name (cd_manifest d) None else d) <$> semantic c w else semantic c w)
    (hydration c) (file_ops c).
Definition count_op (c : capsule) : capsule := Capsule (semantic c) (hydration c) (S (file_ops c)).

Section prepare.
(** The file operation that fails, if one does; the bytes that a write takes and that a read
    gives, of those asked for. *)
Variable io : nat → option exn.
Variables (wrote got : nat → nat → nat).
Variables (model model_revision : pystr) (export : bool).

Definition file_op (f : capsule → capsule) : ST capsule unit := λ c,
  match io (file_ops c) with
  | Some e => (Raise e, count_op c)
  | None => (Ok tt, f (count_op c))
  end.
(** An operation that leaves the capsule alone. *)
Definition touch : ST capsule unit := file_op id.

(** [output.write(data)], unbuffered: the count it returns is not looked at. *)
Definition pack_write (data : pybytes) (o : pack_output) : ST capsule pack_output :=
  n ← st_get file_ops;
  _ ← touch;
  let data := take (wrote n (length data)) data in
  mret (PackOutput (put_bytes (po_bytes o) (po_position o) data) (po_position o + length data)).
Definition pack_seek (position : Z) (o : pack_output) : ST capsule pack_output :=
  _ ← touch; mret (PackOutput (po_bytes o) (Z.to_nat position)).
(** [copyfileobj] of the rest of a source. Every round but the last reads at least one byte. *)
Fixpoint pack_copy (fuel : nat) (rest : pybytes) (o : pack_output) : ST capsule pack_output :=
  match fuel with
  | O => mret o
  | S fuel' =>
      n ← st_get file_ops;
      _ ← touch;
      if decide (rest = []) then mret o else
      let asked := Z.to_nat (Z.min COPY_LENGTH (Z.of_nat (length rest))) in
      let count := Nat.max 1 (Nat.min (got n asked) asked) in
      o ← pack_write (take count rest) o;
      pack_copy fuel' (drop count rest) o
  end.
(** The loop over the components, and the index of the pack. *)
Fixpoint pack_components {A} (position : Z) (components : list (pybytes * A)) (o : pack_output)
    : ST capsule (pack_output * list (A * Z * Z)) :=
  match components with
  | [] => mret (o, [])
  | (source, metadata) :: rest =>
      let aligned := pack_aligned position in
      o ← (if aligned =? position then mret o else
           o ← pack_seek position o;
           pack_write (replicate (Z.to_nat (aligned - position)) 0%N) o);
      o ← pack_seek aligned o;
      _ ← touch;
      o ← pack_copy (S (length source)) source o;
      _ ← touch;
      let size := Z.of_nat (length source) in
      '(o, index) ← pack_components (aligned + size) rest o;
      mret (o, (metadata, aligned, size) :: index)
  end.
(** [_atomic_sglang_pack] of a worker: the temporary file is written, synchronized and
    renamed, and removed if it is still there. *)
Definition atomic_sglang_pack {A} (worker : pystr) (components : list (pybytes * A)) : ST capsule (list (A * Z * Z)) :=
  st_finally_run (
    _ ← touch;
    '(o, index) ← pack_components 0 components (PackOutput [] 0);
    _ ← touch;
    _ ← file_op (on_hydration worker (λ h, HydrationDir (hd_replay h) (Some (po_bytes o)) (hd_native h)));
    mret index) touch.

(** A worker of [_prepare_sglang_hydration]. *)
Definition prepare_worker (worker : pystr) : ST capsule unit :=
  dirs ← st_get (λ c, semantic c worker);
  '(components, replay) ← lift (collect_components worker export (py_sorted (λ a b, str_leb (cd_name a) (cd_name b)) dirs));
  _ ← st_raise_if (export && bool_decide (components.*1 = [])) RuntimeError "SGLang worker exported no native model components";
  _ ← touch;
  _ ← file_op (on_hydration worker (λ h, HydrationDir (Some (replay_plan worker model model_revision replay)) (hd_pack h) (hd_native h)));
  if export then
    index ← atomic_sglang_pack worker components.*2;
    _ ← file_op (on_hydration worker (λ h, HydrationDir (hd_replay h) (hd_pack h) (Some (native_plan worker (index_record <$> index)))));
    st_iter (λ name, file_op (remove_blob worker name)) components.*1
  else mret tt.
Definition prepare_sglang_hydration (graph : option pystr) : ST capsule (list pystr) :=
  expected ← lift (unit_worker_ids graph);
  _ ← st_iter prepare_worker (sort_str expected);
  mret (sort_str expected).
End prepare.

(** [_sglang_memory_payload] *)
Definition sglang_memory_payload (weight_provider recovery_phase : pystr) : res (list pystr) :=
  if decide (weight_provider = lit "recovery") then
    if decide (recovery_phase = lit "weights") then mret [lit "weights"; lit "coldsnap_recovery_weights"]
    else if decide (recovery_phase = lit "runtime") then mret [lit "kv_cache"; lit "cuda_graph"; lit "coldsnap_recovery_runtime"]
    else Raise (Exn ValueError "SGLang recovery resume requires weights or runtime phase")
  else mret [lit "kv_cache"; lit "weights"; lit "cuda_graph"].
