(* ===== verification/ServiceCapsuleSpec.v ===== *)
(** * Theorems about the capsule of a launch unit

    A pack whose writes are whole holds every component where its index says; preparing the
    hydration of SGLang workers then never loses the bytes of a component, whichever file
    operation fails, and a write cut short loses some; the records of a capsule are those
    of its unit. *)

From S2P Require Import Prelude Ranges PyFloat PyJson PyJsonFacts Hash Artifact ArtifactSpec Service ServiceCapsule.

(** ** Packs *)

Lemma pack_aligned_spec p : p <= pack_aligned p < p + 4096 ∧ pack_aligned p mod 4096 = 0.
Proof.
  unfold pack_aligned. assert (Z.land (p + 4095) (Z.lnot 4095) = (p + 4095) / 4096 * 4096) as ->; [|lia].
  rewrite <- Z.ldiff_land. change 4095 with (Z.ones 12) at 2. rewrite Z.ldiff_ones_r, Z.shiftl_mul_pow2, Z.shiftr_div_pow2 by done. done.
Qed.
(** The pack of components behind a position: the file, and where each component is in it. *)
Fixpoint sglang_pack {A} (position : Z) (components : list (pybytes * A)) : pybytes * list (A * Z * Z) :=
  match components with
  | [] => ([], [])
  | (source, metadata) :: rest =>
      let aligned := pack_aligned position in
      let size := Z.of_nat (length source) in
      let '(file, index) := sglang_pack (aligned + size) rest in
      (replicate (Z.to_nat (aligned - position)) 0%N ++ source ++ file, (metadata, aligned, size) :: index)
  end.
(** Every component is where the index says, in order and on page boundaries. *)
Lemma sglang_pack_ok {A} components : ∀ position file (index : list (A * Z * Z)), 0 <= position → sglang_pack position components = (file, index) →
  length index = length components
  ∧ ∀ i source m, components !! i = Some (source, m) → ∃ o, index !! i = Some (m, o, Z.of_nat (length source)) ∧ position <= o ∧ o mod 4096 = 0
    ∧ take (length source) (drop (Z.to_nat (o - position)) file) = source
    ∧ ∀ m' o' n', index !! S i = Some (m', o', n') → o + Z.of_nat (length source) <= o'.
Proof.
  induction components as [|[source m] rest IH]; intros position file index Hp E; cbn [sglang_pack] in E; [injection E as <- <-; done|].
  destruct (pack_aligned_spec position) as [Ha Hm]. destruct (sglang_pack _ rest) as [f ix] eqn:Er. injection E as <- <-.
  apply IH in Er as [Hl Hc]; [|lia]. split; [cbn; lia|]. intros [|i] src m' Hi; cbn in Hi.
  - injection Hi as <- <-. exists (pack_aligned position). split_and!; [done|lia|done| |].
    + rewrite drop_app_ge, length_replicate by (rewrite length_replicate; lia). by rewrite Nat.sub_diag, drop_0, take_app_length.
    + intros m' o' n' Hix. change (ix !! 0%nat = Some (m', o', n')) in Hix. destruct rest as [|[s2 m2] rest]; [destruct ix; [done|cbn in Hl; lia]|].
      destruct (Hc 0%nat s2 m2 eq_refl) as (o & Ho & Hge & _). rewrite Ho in Hix. injection Hix as <- <- <-. lia.
  - destruct (Hc i src m' Hi) as (o & Ho & Hge & Hmod & Ht & Hnext). exists o. split_and!; [done|lia|done| |done].
    rewrite <- Ht at 2. f_equal. rewrite drop_app_ge, length_replicate by (rewrite length_replicate; lia).
    rewrite drop_app_ge by lia. f_equal. lia.
Qed.

(** ** Nothing is lost *)

(** [b], the blob of a component, is still in place, or it is in the pack where the native
    manifest of the worker says. *)
Definition packed_at (h : hydration_dir) (worker name : pystr) (b : pybytes) : Prop :=
  ∃ file index m o, hd_pack h = Some file ∧ hd_native h = Some (native_plan worker (index_record <$> index))
    ∧ (component_record worker name m, o, Z.of_nat (length b)) ∈ index ∧ 0 <= o ∧ o mod 4096 = 0 ∧ take (length b) (drop (Z.to_nat o) file) = b.
Definition blob_kept (dirs : list component_dir) (h : hydration_dir) (worker name : pystr) (b : pybytes) : Prop :=
  (∃ d, d ∈ dirs ∧ cd_name d = name ∧ cd_blob d = Some b) ∨ packed_at h worker name b.

Section prepare.
Variable io : nat → option exn.
Variables (wrote got : nat → nat → nat).
Variables (model model_revision : pystr) (export : bool).
Notation prepare_worker := (prepare_worker io wrote got model model_revision export).

(** ** Writing the pack *)

(** No write takes fewer bytes than it was given. *)
Definition whole_writes : Prop := ∀ n k, (k <= wrote n k)%nat.

(** A run that leaves the files of the capsule alone. *)
Definition leaves {A} (m : ST capsule A) : Prop := ∀ c r c', m c = (r, c') → semantic c' = semantic c ∧ hydration c' = hydration c.
Lemma leaves_bind {A B} (m : ST capsule A) (k : A → ST capsule B) : leaves m → (∀ a, leaves (k a)) → leaves (m ≫= k).
Proof.
  intros Hm Hk c r c' E. unfold mbind, st_bind in E. destruct (m c) as [[a|e] c1] eqn:E1; apply Hm in E1 as [H1 H2].
  - apply Hk in E as [-> ->]. done.
  - by injection E as <- <-.
Qed.
Lemma leaves_ret {A} (a : A) : leaves (mret a).
Proof. by intros c r c' [= <- <-]. Qed.
Lemma leaves_get {A} (g : capsule → A) : leaves (st_get g).
Proof. by intros c r c' [= <- <-]. Qed.
Lemma leaves_touch : leaves (touch io).
Proof. intros c r c' E. unfold touch, file_op in E. destruct (io (file_ops c)); by injection E as <- <-. Qed.
Create HintDb leaves.
#[local] Hint Resolve leaves_ret leaves_get leaves_touch : leaves.
#[local] Hint Extern 1 (leaves (_ ≫= _)) => (apply leaves_bind; [|intros]) : leaves.

Lemma leaves_write data o : leaves (pack_write io wrote data o).
Proof. unfold pack_write. auto with leaves. Qed.
Lemma leaves_seek p o : leaves (pack_seek io p o).
Proof. unfold pack_seek. auto with leaves. Qed.
#[local] Hint Resolve leaves_write leaves_seek : leaves.
Lemma leaves_copy fuel : ∀ rest o, leaves (pack_copy io wrote got fuel rest o).
Proof. induction fuel as [|fuel IH]; intros rest o; cbn [pack_copy]; [auto with leaves|]. do 2 (apply leaves_bind; [auto with leaves|intros ?]). destruct (decide _); auto with leaves. Qed.
#[local] Hint Resolve leaves_copy : leaves.
Lemma leaves_components {A} (components : list (pybytes * A)) : ∀ p o, leaves (pack_components io wrote got p components o).
Proof.
  induction components as [|[source m] rest IH]; intros p o; cbn [pack_components]; [auto with leaves|].
  apply leaves_bind; [destruct (_ =? _); auto with leaves|intros ?]. do 4 (apply leaves_bind; [auto with leaves|intros ?]).
  apply leaves_bind; [apply IH|intros [? ?]; auto with leaves].
Qed.

(** With whole writes the file grows by what is written at its end. *)
Lemma put_end f data : put_bytes f (length f) data = f ++ data.
Proof. unfold put_bytes. rewrite firstn_all, Nat.sub_diag, drop_ge by lia. cbn. by rewrite app_nil_r. Qed.
Lemma write_whole data f c o c' : whole_writes → pack_write io wrote data (PackOutput f (length f)) c = (Ok o, c') → o = PackOutput (f ++ data) (length (f ++ data)).
Proof.
  intros Hw E. unfold pack_write in E. apply st_bind_Ok in E as (n & c1 & _ & E). apply st_bind_Ok in E as ([] & c2 & _ & E). injection E as <- _.
  cbn [po_bytes po_position]. rewrite (take_ge data) by apply Hw. by rewrite put_end, length_app.
Qed.
Lemma seek_end f p c o c' k : p = Z.of_nat (length f) → pack_seek io p (PackOutput f k) c = (Ok o, c') → o = PackOutput f (length f).
Proof. intros -> E. unfold pack_seek in E. apply st_bind_Ok in E as ([] & c2 & _ & E). injection E as <- _. by rewrite Nat2Z.id. Qed.
Lemma copy_whole fuel : ∀ rest f c o c', whole_writes → (length rest < fuel)%nat → pack_copy io wrote got fuel rest (PackOutput f (length f)) c = (Ok o, c') →
  o = PackOutput (f ++ rest) (length (f ++ rest)).
Proof.
  induction fuel as [|fuel IH]; intros rest f c o c' Hw Hl E; [lia|]. cbn [pack_copy] in E.
  apply st_bind_Ok in E as (n & c1 & _ & E). apply st_bind_Ok in E as ([] & c2 & _ & E). destruct (decide (rest = [])) as [->|Hne].
  { injection E as <- _. by rewrite app_nil_r. }
  set (count := Nat.max _ _) in E. assert (0 < length rest)%nat by (by destruct rest; cbn; [|lia]).
  apply st_bind_Ok in E as (o1 & c3 & Ew & E). apply write_whole in Ew as ->; [|done].
  apply IH in E as ->; [|done|rewrite length_drop; lia]. by rewrite <- app_assoc, take_drop.
Qed.
Lemma components_whole {A} (components : list (pybytes * A)) : ∀ f c o index c', whole_writes →
  pack_components io wrote got (Z.of_nat (length f)) components (PackOutput f (length f)) c = (Ok (o, index), c') →
  po_bytes o = f ++ (sglang_pack (Z.of_nat (length f)) components).1.
Proof.
  induction components as [|[source m] rest IH]; intros f c o index c' Hw E; cbn [pack_components sglang_pack] in *.
  { injection E as <- _ _. cbn. by rewrite app_nil_r. }
  destruct (pack_aligned_spec (Z.of_nat (length f))) as [Ha _]. set (aligned := pack_aligned _) in *.
  set (pad := replicate (Z.to_nat (aligned - Z.of_nat (length f))) 0%N).
  assert (Z.of_nat (length (f ++ pad)) = aligned) as Hpad by (unfold pad; rewrite length_app, length_replicate; lia).
  apply st_bind_Ok in E as (o1 & c1 & E1 & E). assert (po_bytes o1 = f ++ pad) as Ho1.
  { destruct (Z.eqb_spec aligned (Z.of_nat (length f))) as [Heq|].
    - injection E1 as <- _. cbn. unfold pad. rewrite Heq, Z.sub_diag. cbn. by rewrite app_nil_r.
    - apply st_bind_Ok in E1 as (o0 & c0 & Es & E1). apply seek_end in Es as ->; [|done]. by apply write_whole in E1 as ->. }
  destruct o1 as [b1 p1]. cbn in Ho1. subst b1.
  apply st_bind_Ok in E as (o2 & c2 & Es & E). apply seek_end in Es as ->; [|done]. apply st_bind_Ok in E as ([] & c3 & _ & E).
  apply st_bind_Ok in E as (o3 & c4 & Ec & E). apply copy_whole in Ec as ->; [|done|lia]. apply st_bind_Ok in E as ([] & c5 & _ & E).
  apply st_bind_Ok in E as ([o4 ix] & c6 & Er & E). injection E as <- <- _.
  assert (aligned + Z.of_nat (length source) = Z.of_nat (length ((f ++ pad) ++ source))) as Hend by (rewrite (length_app (f ++ pad)); lia).
  rewrite Hend in Er |- *. apply IH in Er as ->; [|done]. destruct (sglang_pack _ rest) as [file index']. cbn. by rewrite <- !app_assoc.
Qed.
(** The index does not depend on the writes. *)
Lemma components_index {A} (components : list (pybytes * A)) : ∀ p o c o' index c',
  pack_components io wrote got p components o c = (Ok (o', index), c') → index = (sglang_pack p components).2.
Proof.
  induction components as [|[source m] rest IH]; intros p o c o' index c' E; cbn [pack_components sglang_pack] in *; [by injection E as _ <- _|].
  apply st_bind_Ok in E as (o1 & c1 & _ & E). apply st_bind_Ok in E as (o2 & c2 & _ & E). apply st_bind_Ok in E as ([] & c3 & _ & E).
  apply st_bind_Ok in E as (o3 & c4 & _ & E). apply st_bind_Ok in E as ([] & c5 & _ & E). apply st_bind_Ok in E as ([o4 ix] & c6 & Er & E).
  injection E as _ <- _. apply IH in Er as ->. by destruct (sglang_pack _ rest).
Qed.

(** A component that is collected. *)
Lemma collect_elem worker dirs : ∀ components replay name blob comp, collect_components worker export dirs = Ok (components, replay) →
  (name, (blob, comp)) ∈ components → ∃ d m, d ∈ dirs ∧ cd_name d = name ∧ cd_blob d = Some blob ∧ cd_manifest d = Some (Ok m) ∧ comp = component_record worker name m.
Proof.
  induction dirs as [|d rest IH]; intros components replay name blob comp E Hin; cbn [collect_components] in E; [injection E as <- <-; by apply not_elem_of_nil in Hin|].
  destruct (cd_manifest d) as [loaded|] eqn:Em; [|destruct (IH _ _ _ _ _ E Hin) as (d' & m & Hd & ?); exists d', m; split; [by right|done]].
  apply bind_Ok in E as (m & -> & E). apply bind_Ok in E as ([] & _ & E). apply bind_Ok in E as (packed & Ep & E).
  apply bind_Ok in E as ([cs rp] & Er & E). injection E as <- <-. apply elem_of_app in Hin as [Hin|Hin].
  - destruct export; [|injection Ep as <-; by apply not_elem_of_nil in Hin]. destruct (cd_blob d) as [b|] eqn:Eb; [|done].
    apply bind_Ok in Ep as ([] & _ & Ep). injection Ep as <-. apply list_elem_of_singleton in Hin as [= -> -> ->]. exists d, m. split_and!; try done. left.
  - destruct (IH _ _ _ _ _ Er Hin) as (d' & m' & Hd & ?). exists d', m'. split; [by right|done].
Qed.

(** With an export every component that has a manifest is collected, under its name. *)
Lemma collect_complete worker dirs : ∀ components replay d b, export = true → collect_components worker export dirs = Ok (components, replay) →
  d ∈ dirs → is_Some (cd_manifest d) → cd_blob d = Some b → ∃ comp, (cd_name d, (b, comp)) ∈ components.
Proof.
  induction dirs as [|d' rest IH]; intros components replay d b Hexp E Hd [l Hm] Hb; [by apply not_elem_of_nil in Hd|]. cbn [collect_components] in E.
  apply elem_of_cons in Hd as [<-|Hd].
  - rewrite Hm, Hb, Hexp in E. apply bind_Ok in E as (m & _ & E). apply bind_Ok in E as ([] & _ & E). apply bind_Ok in E as (packed & Ep & E).
    apply bind_Ok in Ep as ([] & _ & Ep). injection Ep as <-. apply bind_Ok in E as ([cs rp] & _ & E). injection E as <- <-. eexists. left.
  - destruct (cd_manifest d') as [l'|]; [|by eapply IH].
    apply bind_Ok in E as (m & _ & E). apply bind_Ok in E as ([] & _ & E). apply bind_Ok in E as (packed & _ & E). apply bind_Ok in E as ([cs rp] & Er & E).
    injection E as <- <-. destruct (IH _ _ d b Hexp Er Hd) as [comp Hc]; [by eexists|done|]. exists comp. apply elem_of_app. by right.
Qed.
Lemma collect_names worker dirs : ∀ components replay, collect_components worker export dirs = Ok (components, replay) → components.*1 `sublist_of` (cd_name <$> dirs).
Proof.
  induction dirs as [|d rest IH]; intros components replay E; cbn [collect_components] in E; [by injection E as <- <-|].
  destruct (cd_manifest d) as [l|]; [|apply sublist_cons; by eapply IH].
  apply bind_Ok in E as (m & _ & E). apply bind_Ok in E as ([] & _ & E). apply bind_Ok in E as (packed & Ep & E). apply bind_Ok in E as ([cs rp] & Er & E).
  injection E as <- <-. apply IH in Er. destruct export; [|injection Ep as <-; by apply sublist_cons]. destruct (cd_blob d); [|done].
  apply bind_Ok in Ep as ([] & _ & Ep). injection Ep as <-. by apply sublist_skip.
Qed.

(** Only a worker's own files change. *)
Definition own_files (worker : pystr) (c c' : capsule) : Prop := ∀ w, w ≠ worker → semantic c' w = semantic c w ∧ hydration c' w = hydration c w.
Lemma own_refl worker c : own_files worker c c.
Proof. done. Qed.
Lemma own_trans worker c1 c2 c3 : own_files worker c1 c2 → own_files worker c2 c3 → own_files worker c1 c3.
Proof. intros H1 H2 w Hw. destruct (H1 w Hw), (H2 w Hw). split; congruence. Qed.

(** Removing blobs leaves the others. *)
Lemma remove_loop worker names : ∀ c r c', st_iter (λ name, file_op io (remove_blob worker name)) names c = (r, c') →
  own_files worker c c' ∧ hydration c' worker = hydration c worker
  ∧ ∀ d, d ∈ semantic c worker → cd_name d ∈ names ∨ d ∈ semantic c' worker.
Proof.
  induction names as [|name names IH]; intros c r c' E; cbn [st_iter] in E; [injection E as <- <-; split_and!; [done..|by right]|].
  unfold mbind, st_bind, file_op in E. destruct (io (file_ops c)) as [e|]; [injection E as <- <-; split_and!; [done..|by right]|].
  apply IH in E as (Ho & Hh & Hd). split_and!.
  - eapply own_trans; [|exact Ho]. intros w Hw. cbn. by rewrite decide_False.
  - by rewrite Hh.
  - intros d Hin. destruct (decide (cd_name d = name)) as [<-|Hn]; [left; left|].
    destruct (Hd d) as [Hx|Hx]; [|left; by right|by right]. cbn. rewrite decide_True by done. apply list_elem_of_fmap. exists d. by rewrite decide_False.
Qed.

Lemma file_op_then {B} f (k : unit → ST capsule B) c r c' : (file_op io f ≫= k) c = (r, c') →
  ((∃ e, r = Raise e) ∧ c' = count_op c) ∨ k tt (f (count_op c)) = (r, c').
Proof. unfold mbind, st_bind, file_op. destruct (io (file_ops c)) as [e|]; [|by right]. intros [= <- <-]. left. split; [by exists e|done]. Qed.

(** What a worker's preparation leaves when it succeeds: the plan of its components, and with
    an export a pack that holds them. *)
Definition worker_prepared (dirs : list component_dir) (h : hydration_dir) (worker : pystr) : Prop :=
  ∃ components replay, collect_components worker export (py_sorted (λ a b, str_leb (cd_name a) (cd_name b)) dirs) = Ok (components, replay)
    ∧ hd_replay h = Some (replay_plan worker model model_revision replay)
    ∧ (export = true → components ≠ [] ∧ (∀ name blob comp, (name, (blob, comp)) ∈ components → packed_at h worker name blob)
         ∧ hd_pack h = Some (sglang_pack 0 components.*2).1 ∧ hd_native h = Some (native_plan worker (index_record <$> (sglang_pack 0 components.*2).2))).

Lemma sglang_packed components replay worker dirs file index replayed : collect_components worker export dirs = Ok (components, replay) →
  sglang_pack 0 components.*2 = (file, index) → ∀ name blob comp, (name, (blob, comp)) ∈ components →
  packed_at (HydrationDir replayed (Some file) (Some (native_plan worker (index_record <$> index)))) worker name blob.
Proof.
  intros Ec Ep name blob comp Hin. destruct (collect_elem _ _ _ _ _ _ _ Ec Hin) as (d & m & _ & _ & _ & _ & ->).
  apply sglang_pack_ok in Ep as [_ Hpack]; [|done]. apply list_elem_of_lookup in Hin as [i Hi].
  destruct (Hpack i blob (component_record worker name m)) as (o & Ho & Hge & Hmod & Ht & _); [by rewrite list_lookup_fmap, Hi|].
  rewrite Z.sub_0_r in Ht. exists file, index, m, o. split_and!; try done. by eapply list_elem_of_lookup_2.
Qed.

Lemma leaves_then {A B} (m : ST capsule A) (k : A → ST capsule B) c r c' : leaves m → (m ≫= k) c = (r, c') →
  (semantic c' = semantic c ∧ hydration c' = hydration c ∧ ∃ e, r = Raise e)
  ∨ ∃ a c1, m c = (Ok a, c1) ∧ semantic c1 = semantic c ∧ hydration c1 = hydration c ∧ k a c1 = (r, c').
Proof.
  intros Hm E. unfold mbind, st_bind in E. destruct (m c) as [[a|e] c1] eqn:E1; apply Hm in E1 as [H1 H2]; [right; eauto 10|].
  injection E as <- <-. left. eauto.
Qed.

(** The pack of a worker, written or not. *)
Lemma pack_run {A} worker (components : list (pybytes * A)) c r c' : atomic_sglang_pack io wrote got worker components c = (r, c') →
  semantic c' = semantic c ∧ own_files worker c c'
  ∧ ∀ index, r = Ok index → index = (sglang_pack 0 components).2 ∧ ∃ file, (whole_writes → file = (sglang_pack 0 components).1)
      ∧ hydration c' worker = HydrationDir (hd_replay (hydration c worker)) (Some file) (hd_native (hydration c worker)).
Proof.
  unfold atomic_sglang_pack, st_finally_run. set (body := touch io ≫= _). destruct (body c) as [r1 c1] eqn:E1. intros E.
  assert (semantic c' = semantic c1 ∧ hydration c' = hydration c1 ∧ ∀ x, r = Ok x → r1 = Ok x) as (Hs & Hh & Hr).
  { unfold mbind, st_bind in E. destruct (touch io c1) as [[u|e] c2] eqn:Et; apply leaves_touch in Et as [H1 H2]; injection E as <- <-; done. }
  enough (semantic c1 = semantic c ∧ own_files worker c c1 ∧ ∀ index, r1 = Ok index → index = (sglang_pack 0 components).2
    ∧ ∃ file, (whole_writes → file = (sglang_pack 0 components).1)
      ∧ hydration c1 worker = HydrationDir (hd_replay (hydration c worker)) (Some file) (hd_native (hydration c worker))) as (H1 & H2 & H3).
  { split_and!; [congruence|intros w Hw; rewrite Hs, Hh; by apply H2|]. intros index Hi. rewrite Hh. by apply H3, Hr. }
  clear E Hs Hh Hr r c'. subst body.
  assert (∀ c2, semantic c2 = semantic c → hydration c2 = hydration c → own_files worker c c2) as Hown by (intros c2 H1 H2 w _; by rewrite H1, H2).
  apply leaves_then in E1 as [(Hs & Hh & e & ->)|(u & ca & _ & Hsa & Hha & E1)]; [by split_and!; [|apply Hown|]| |apply leaves_touch].
  apply leaves_then in E1 as [(Hs & Hh & e & ->)|([o index] & cb & Ec & Hsb & Hhb & E1)]; [split_and!; [congruence|apply Hown; congruence|done]| |apply leaves_components].
  apply leaves_then in E1 as [(Hs & Hh & e & ->)|(u' & cc & _ & Hsc & Hhc & E1)]; [split_and!; [congruence|apply Hown; congruence|done]| |apply leaves_touch].
  apply file_op_then in E1 as [[[e ->] ->]|E1]; [split_and!; [cbn; congruence|apply Hown; cbn; congruence|done]|]. injection E1 as <- <-. split_and!.
  - cbn. congruence.
  - intros w Hw. cbn. rewrite decide_False by done. split; congruence.
  - intros ? [= <-]. split; [by eapply components_index|]. exists (po_bytes o). split; [intros Hw; by apply (components_whole components [] ca o index cb)|].
    cbn. rewrite decide_True by done. by rewrite Hhc, Hhb, Hha.
Qed.

Lemma prepare_worker_kept worker c r c' : whole_writes → NoDup (cd_name <$> semantic c worker) → prepare_worker worker c = (r, c') →
  own_files worker c c'
  ∧ (∀ d b, d ∈ semantic c worker → cd_blob d = Some b → blob_kept (semantic c' worker) (hydration c' worker) worker (cd_name d) b)
  ∧ (r = Ok tt → worker_prepared (semantic c worker) (hydration c' worker) worker).
Proof.
  intros Hwhole HN E. set (goal := _ ∧ _). assert (∀ c'' e, semantic c'' = semantic c → own_files worker c c'' → (r, c') = (Raise e, c'') → goal) as Hkept.
  { intros c'' e Hs Ho [= -> ->]. split_and!; [done| |done]. intros d b Hd Hb. left. exists d. by rewrite Hs. }
  unfold ServiceCapsule.prepare_worker in E. unfold mbind at 1, st_bind at 1, st_get in E.
  set (dirs := py_sorted _ _) in E. unfold mbind at 1, st_bind at 1, lift in E.
  destruct (collect_components worker export dirs) as [[components replay]|e] eqn:Ec; [|exact (Hkept _ _ eq_refl (own_refl _ _) (eq_sym E))].
  unfold mbind at 1, st_bind at 1, st_raise_if, lift in E. destruct (export && bool_decide (components.*1 = [])) eqn:Eempty; [exact (Hkept _ _ eq_refl (own_refl _ _) (eq_sym E))|].
  apply file_op_then in E as [[[e Er] Es]|E]; [exact (Hkept (count_op c) e eq_refl (own_refl _ _) (f_equal2 pair Er Es))|]. set (c0 := id (count_op c)) in E.
  apply file_op_then in E as [[[e Er] Es]|E]; [exact (Hkept (count_op c0) e eq_refl (own_refl _ _) (f_equal2 pair Er Es))|]. set (c1 := on_hydration worker _ _) in E.
  assert (own_files worker c c1) as Ho1 by (intros w Hw; cbn; by rewrite decide_False).
  destruct export eqn:Eexp.
  2: { injection E as <- <-. split_and!; [done| |].
       - intros d b Hd Hb. left. by exists d.
       - intros _. exists components, replay. rewrite Eexp. split_and!; [done| |done]. cbn. by rewrite decide_True. }
  rewrite <- Eexp in Ec. unfold mbind at 1, st_bind at 1 in E. destruct (atomic_sglang_pack io wrote got worker components.*2 c1) as [rp c2] eqn:Epack.
  apply pack_run in Epack as (Hs2 & Ho2' & Hpack). assert (own_files worker c c2) as Ho2 by (by eapply own_trans).
  destruct rp as [index|e]; [|exact (Hkept c2 e Hs2 Ho2 (eq_sym E))].
  destruct (Hpack index eq_refl) as (Hix & file & Hfile & Hh2). specialize (Hfile Hwhole).
  assert (sglang_pack 0 components.*2 = (file, index)) as Ep by (rewrite Hix, Hfile; by destruct (sglang_pack 0 components.*2)). clear Hix Hfile Hpack.
  apply file_op_then in E as [[[e Er] Es]|E]; [exact (Hkept (count_op c2) e Hs2 Ho2 (f_equal2 pair Er Es))|]. set (c3 := on_hydration worker _ _) in E.
  assert (own_files worker c c3) as Ho3 by (eapply own_trans; [exact Ho2|]; intros w Hw; cbn; by rewrite !decide_False).
  apply remove_loop in E as (Ho & Hh & Hd).
  assert (hydration c3 worker = HydrationDir (Some (replay_plan worker model model_revision replay)) (Some file) (Some (native_plan worker (index_record <$> index)))) as H3.
  { cbn. rewrite !decide_True by done. rewrite Hh2. cbn. by rewrite !decide_True by done. }
  split_and!; [by eapply own_trans| |].
  - intros d b Hin Hb. assert (d ∈ semantic c3 worker) as Hin3 by (cbn; by rewrite Hs2). destruct (Hd d Hin3) as [Hname|Hstill]; [right|left; by exists d].
    apply list_elem_of_fmap in Hname as ([name [blob comp]] & Hn & Hc). cbn in Hn. subst name.
    destruct (collect_elem _ _ _ _ _ _ _ Ec Hc) as (d' & m & Hd' & Hn' & Hb' & _). unfold dirs in Hd'. rewrite py_sorted_perm in Hd'.
    assert (d' = d) as -> by (by eapply (NoDup_fmap_elem cd_name)). assert (blob = b) as -> by congruence. rewrite Hh, H3. by eapply sglang_packed.
  - intros ->. exists components, replay. rewrite Hh, H3. split_and!; [done..|]. intros _. split.
    + intros ->. done.
    + split; [intros name blob comp Hc; by eapply sglang_packed|]. by rewrite Ep.
Qed.

Lemma prepare_all workers : ∀ c r c', whole_writes → NoDup workers → (∀ w, w ∈ workers → NoDup (cd_name <$> semantic c w)) → st_iter prepare_worker workers c = (r, c') →
  (∀ w, w ∉ workers → semantic c' w = semantic c w ∧ hydration c' w = hydration c w)
  ∧ (∀ w d b, w ∈ workers → d ∈ semantic c w → cd_blob d = Some b → blob_kept (semantic c' w) (hydration c' w) w (cd_name d) b)
  ∧ (r = Ok tt → ∀ w, w ∈ workers → worker_prepared (semantic c w) (hydration c' w) w).
Proof.
  induction workers as [|worker workers IH]; intros c r c' Hwhole HW HN E; cbn [st_iter] in E.
  { injection E as <- <-. split_and!; [done|by intros ? ? ? ?%not_elem_of_nil|by intros _ ? ?%not_elem_of_nil]. }
  apply NoDup_cons in HW as [Hw HW]. unfold mbind, st_bind in E. destruct (prepare_worker worker c) as [r1 c1] eqn:E1.
  apply prepare_worker_kept in E1 as (Ho1 & Hk1 & Hp1); [|done|apply HN; left].
  assert (∀ w, w ∈ workers → w ≠ worker) as Hne by (intros w Hin ->; done).
  destruct r1 as [[]|e].
  - apply IH in E as (Ho & Hk & Hp); [|done|done|intros w Hin; rewrite (proj1 (Ho1 w (Hne w Hin))); apply HN; by right].
    destruct (Ho worker Hw) as [Hsw Hhw]. split_and!.
    + intros w Hin. apply not_elem_of_cons in Hin as [Hn Hin]. destruct (Ho w Hin), (Ho1 w Hn). split; congruence.
    + intros w d b Hin Hd Hb. apply elem_of_cons in Hin as [->|Hin]; [rewrite Hsw, Hhw; by apply Hk1|]. apply Hk; [done| |done].
      by rewrite (proj1 (Ho1 w (Hne w Hin))).
    + intros -> w Hin. apply elem_of_cons in Hin as [->|Hin]; [rewrite Hhw; by apply Hp1|]. rewrite <- (proj1 (Ho1 w (Hne w Hin))). by apply Hp.
  - injection E as <- <-. split_and!; [|intros w d b Hin Hd Hb|done].
    + intros w Hin. apply not_elem_of_cons in Hin as [Hn _]. by apply Ho1.
    + apply elem_of_cons in Hin as [->|Hin]; [by apply Hk1|]. left. exists d. by rewrite (proj1 (Ho1 w (Hne w Hin))).
Qed.
End prepare.

Lemma unit_workers_nodup graph expected : unit_worker_ids graph = Ok expected → NoDup expected.
Proof.
  unfold unit_worker_ids. intros E. apply bind_Ok in E as (raw & _ & E). apply bind_Ok in E as (g & _ & E).
  destruct (field "by_process_slot" g) as [| | | | | |[|s slots]]; try done. apply bind_Ok in E as ([] & _ & E). apply bind_Ok in E as (ws & _ & E).
  apply bind_Ok in E as ([] & Hd%raise_if_Ok & E). injection E as <-. by apply has_dups_false.
Qed.

(** C9. Preparing the hydration of SGLang workers does not lose a component, provided the names of
    a worker's components are distinct and every write to a pack takes all the bytes it is
    given or raises (the code ignores the counts of its unbuffered writes): whichever file
    operation raises, however reads are divided, the bytes of every blob that was below
    [semantic] are still there or are in the worker's pack, on a page boundary, where its
    native manifest says. When it succeeds, every worker of the unit, and no other, has a
    plan of all its components; with an export each worker has a pack with at least one
    component, and its pack holds every one listed. *)
Theorem sglang_hydration_keeps_blobs io wrote got model model_revision export graph c r c' : whole_writes wrote → (∀ w, NoDup (cd_name <$> semantic c w)) →
  prepare_sglang_hydration io wrote got model model_revision export graph c = (r, c') →
  (∀ w d b, d ∈ semantic c w → cd_blob d = Some b → blob_kept (semantic c' w) (hydration c' w) w (cd_name d) b)
  ∧ match r with
    | Ok workers => ∃ expected, unit_worker_ids graph = Ok expected ∧ workers ≡ₚ expected
        ∧ (∀ w, w ∈ expected → worker_prepared model model_revision export (semantic c w) (hydration c' w) w)
        ∧ ∀ w, w ∉ expected → semantic c' w = semantic c w ∧ hydration c' w = hydration c w
    | Raise _ => True
    end.
Proof.
  intros Hwhole HN E. unfold prepare_sglang_hydration in E. unfold mbind at 1, st_bind at 1, lift in E.
  destruct (unit_worker_ids graph) as [expected|e] eqn:Ee; [|injection E as <- <-; split; [|done]; intros w d b Hd Hb; left; by exists d].
  assert (∀ w, w ∈ sort_str expected ↔ w ∈ expected) as Hin by (intros w; by rewrite py_sorted_perm).
  assert (NoDup (sort_str expected)) as HE by (rewrite py_sorted_perm; by eapply unit_workers_nodup).
  unfold mbind, st_bind in E. destruct (st_iter _ (sort_str expected) c) as [r1 c1] eqn:E1.
  apply prepare_all in E1 as (Ho & Hk & Hp); [|done|done|done].
  assert (c' = c1) as -> by (by destruct r1 as [[]|]; injection E as <- <-). split.
  - intros w d b Hd Hb. destruct (decide (w ∈ sort_str expected)); [by apply Hk|]. destruct (Ho w) as [-> ->]; [done|]. left. by exists d.
  - destruct r1 as [[]|]; injection E as <-; [|done]. exists expected. split_and!; [done|apply py_sorted_perm| |].
    + intros w Hw. apply Hp; [done|by apply Hin].
    + intros w Hw. apply Ho. by rewrite Hin.
Qed.

(** ** The records of a unit *)

Lemma collect_workers_ok {A} (files : list (A * res json)) : ∀ seen found, NoDup seen.*1 → collect_workers files seen = Ok found →
  NoDup found.*1 ∧ (∀ p, p ∈ found → p ∈ seen ∨ (p.2.1, Ok p.2.2) ∈ files ∧ worker_text (field "worker_id" p.2.2) = Some p.1) ∧ length found = (length seen + length files)%nat.
Proof.
  induction files as [|[path loaded] rest IH]; intros seen found HN E; cbn [collect_workers] in E; [injection E as <-; split_and!; [done|by left|cbn; lia]|].
  apply bind_Ok in E as (record & -> & E). apply bind_Ok in E as (worker & Hw%of_option_Ok & E).
  apply bind_Ok in E as ([] & Hn%raise_if_Ok%bool_decide_eq_false & E). apply IH in E as (HF & Hp & Hl).
  - split_and!; [done| |rewrite length_app in Hl; cbn in *; lia]. intros p Hin. destruct (Hp p Hin) as [Hs|[Hf Hwk]]; [|right; split; [by right|done]].
    apply elem_of_app in Hs as [Hs|Hs%list_elem_of_singleton]; [by left|subst p; right; split; [left|done]].
  - rewrite fmap_app. apply NoDup_app. split_and!; [done| |by apply NoDup_singleton]. intros x Hx Hxw%list_elem_of_singleton. by subst x.
Qed.
(** The hydration manifests of a capsule are those of its unit: on success there is exactly one
    file for each worker of the execution graph, every file of the capsule is one of them, and
    it names the worker it is listed for. *)
Theorem unit_manifests_exact {A} graph (files : list (A * res json)) found : hydration_manifests graph files = Ok found →
  ∃ expected, unit_worker_ids graph = Ok expected ∧ found.*1 ≡ₚ expected ∧ NoDup found.*1 ∧ length found = length files
    ∧ ∀ worker path, (worker, path) ∈ found → ∃ record, (path, Ok record) ∈ files ∧ worker_text (field "worker_id" record) = Some worker.
Proof.
  unfold hydration_manifests, unit_records. intros E. apply bind_Ok in E as (all & E & Ef). injection Ef as <-.
  apply bind_Ok in E as (fnd & Ec & E). apply bind_Ok in E as (expected & Ee & E). apply bind_Ok in E as ([] & Hs%raise_if_Ok%negb_false_iff & E). injection E as <-.
  apply collect_workers_ok in Ec as (HN & Hp & Hl); [|by apply NoDup_nil].
  assert (((λ p : pystr * (A * json), (p.1, p.2.1)) <$> fnd).*1 = fnd.*1) as Hk by (rewrite <- list_fmap_compose; by apply list_fmap_ext).
  exists expected. rewrite Hk, length_fmap. split_and!; [done| |done|done|].
  - apply NoDup_Permutation; [done|by eapply unit_workers_nodup|]. by apply set_eqb_spec.
  - intros worker path ([w [q record]] & [= -> ->] & Hin)%list_elem_of_fmap. destruct (Hp _ Hin) as [Hno|[Hf Hw]]; [by apply not_elem_of_nil in Hno|]. by exists record.
Qed.

(** ** Witnesses *)

Definition sample_digest : json := JStr (replicate 64 97%N).
Definition sample_manifest (n : Z) : json := JObj [(lit "identity_sha256", sample_digest); (lit "blob_bytes", JInt n); (lit "blob_sha256", sample_digest)].
Definition sample_components : list component_dir :=
  [Component (lit "b") (Some (Ok (sample_manifest 2))) (Some [4%N; 5%N]); Component (lit "a") (Some (Ok (sample_manifest 3))) (Some [1%N; 2%N; 3%N]);
   Component (lit "tmp") None None].
Definition sample_capsule : capsule := Capsule (λ w, if decide (w = lit "w0") then sample_components else []) (λ _, HydrationDir None None None) 0.
Definition unit_graph : option pystr := Some (jtext "{'by_process_slot':{'0':'w0'}}").
Notation sample_prepare io wrote :=
  (prepare_sglang_hydration io wrote (λ _ k, k) (lit "org/model") (lit "abc") true unit_graph sample_capsule).
Definition all_bytes (n k : nat) : nat := k.
Lemma outcome_of {A B} (p : A * B) a : p.1 = a → p = (a, p.2).
Proof. destruct p. by intros <-. Qed.

Notation sample_ready := (sample_prepare (λ _, None) all_bytes).
Lemma sglang_hydration_keeps_blobs_witness :
  (∀ w d b, d ∈ semantic sample_capsule w → cd_blob d = Some b → blob_kept (semantic sample_ready.2 w) (hydration sample_ready.2 w) w (cd_name d) b)
  ∧ ∃ expected, unit_worker_ids unit_graph = Ok expected ∧ [lit "w0"] ≡ₚ expected
      ∧ (∀ w, w ∈ expected → worker_prepared (lit "org/model") (lit "abc") true (semantic sample_capsule w) (hydration sample_ready.2 w) w)
      ∧ ∀ w, w ∉ expected → semantic sample_ready.2 w = semantic sample_capsule w ∧ hydration sample_ready.2 w = hydration sample_capsule w.
Proof.
  apply (sglang_hydration_keeps_blobs (λ _, None) all_bytes (λ _ k, k) (lit "org/model") (lit "abc") true unit_graph sample_capsule (Ok [lit "w0"])).
  - intros n k. unfold all_bytes. lia.
  - intros w. cbn [semantic sample_capsule]. destruct (decide (w = lit "w0")); by apply (bool_decide_unpack _).
  - apply (outcome_of sample_ready). by vm_compute.
Defined.
(** The removal of the second blob fails: the first is gone and the second is there. *)
Example interrupted_prepare :
  let c := (sample_prepare (λ n, if (n =? 22)%nat then Some (Exn OSError "unlink") else None) all_bytes).2 in
  cd_blob <$> semantic c (lit "w0") = [Some [4%N; 5%N]; None; None] ∧ length <$> hd_pack (hydration c (lit "w0")) = Some 4098%nat.
Proof. by vm_compute. Qed.
(** Without that proviso a component is lost and nothing is raised: the write of the last
    component takes one byte of two, the pack is published without the other, and the blob
    is removed. *)
Example short_write_loses_component :
  let run := sample_prepare (λ _, None) (λ _ k, if (k =? 2)%nat then 1%nat else k) in
  run.1 = Ok [lit "w0"] ∧ cd_blob <$> semantic run.2 (lit "w0") = [None; None; None]
  ∧ length <$> hd_pack (hydration run.2 (lit "w0")) = Some 4097%nat.
Proof. by vm_compute. Qed.

Definition sample_files : list (pystr * res json) := [(lit "hydration/x/manifest.json", Ok (JObj [(lit "worker_id", JStr (lit "w0"))]))].
Lemma unit_manifests_exact_witness :
  ∃ expected, unit_worker_ids unit_graph = Ok expected ∧ [(lit "w0", lit "hydration/x/manifest.json")].*1 ≡ₚ expected
    ∧ NoDup [(lit "w0", lit "hydration/x/manifest.json")].*1 ∧ length [(lit "w0", lit "hydration/x/manifest.json")] = length sample_files
    ∧ ∀ worker path, (worker, path) ∈ [(lit "w0", lit "hydration/x/manifest.json")] →
        ∃ record, (path, Ok record) ∈ sample_files ∧ worker_text (field "worker_id" record) = Some worker.
Proof. apply (unit_manifests_exact unit_graph sample_files [(lit "w0", lit "hydration/x/manifest.json")]). by vm_compute. Defined.
