(* ===== verification/NcclRuntime.v ===== *)
(** * The active NCCL runtime of a service ([coldsnap_service_runtime.py])

    Before an engine is started with a replaced NCCL, the record of the active runtime and the
    manifest of its provider are read, compared field by field, and every library that will be
    preloaded is hashed. The file system is an argument. *)

From S2P Require Import Prelude PyFloat PyJson Hash Validation PyPath Artifact Service ServiceCapsule.

(** ** Files *)

(** What [lstat] and [resolve] say of a path, and its bytes. *)
Record file_info := FileInfo { fi_regular : bool; fi_size : Z; fi_resolved : purepath; fi_bytes : pybytes }.

(** [re.fullmatch] of [nccl-], three numbers, a revision, and [+coldsnap.] with a number *)
Definition skip_text (t : string) (s : pystr) : option pystr := if starts_with (lit t) s then Some (drop (length (lit t)) s) else None.
Definition skip_digits (s : pystr) : option pystr := match take_digits s with ([], _) => None | (_, rest) => Some rest end.
Definition provider_id_ok (s : pystr) : bool :=
  bool_decide ((s ← skip_text "nccl-" s; s ← skip_digits s; s ← skip_text "." s; s ← skip_digits s; s ← skip_text "." s; s ← skip_digits s;
                s ← skip_text "-" s; s ← skip_digits s; s ← skip_text "+coldsnap." s; skip_digits s) = Some []).

Definition dict_keys (v : json) : option (list pystr) := match v with JObj d => Some d.*1 | _ => None end.
Definition has_fields (v : json) (names : list string) : bool := match dict_keys v with Some ks => set_eqb ks (lit <$> names) | None => false end.
Definition int_above (low : Z) (v : json) : bool := match as_int v with Some z => low <? z | None => false end.
Definition is_text (v : json) : bool := match v with JStr _ => true | _ => false end.
(** A list of distinct non-empty strings in order. *)
Definition sorted_names (v : json) : bool :=
  match v with
  | JArr l => match mapM worker_text l with Some names => bool_decide (names = sorted_set str_leb names) | None => false end
  | _ => false
  end.

Definition ACTIVE_FIELDS : list string := [
  "format"; "kind"; "provider_id"; "provider_revision"; "platform_key"; "provider_root"; "provider_manifest"; "manifest_sha256"; "provider_abi";
  "checkpoint_abi"; "provider_nccl_runtime"; "provider_selection"; "supported_nccl_runtimes"; "capabilities"; "limitations"; "qualification"; "files";
  "bridge"; "preload_order"]%string.
Definition MANIFEST_FIELDS : list string := [
  "format"; "kind"; "provider_id"; "provider_revision"; "platform_key"; "provider_nccl_runtime"; "provider_selection"; "supported_nccl_runtimes";
  "provider_abi"; "checkpoint_abi"; "capabilities"; "limitations"; "requirements"; "files"; "provenance"; "qualification"; "dlsym_bridge_abi";
  "preload_order"]%string.
Definition SHARED_FIELDS : list string := [
  "provider_id"; "provider_revision"; "platform_key"; "provider_nccl_runtime"; "provider_selection"; "provider_abi"; "checkpoint_abi";
  "supported_nccl_runtimes"; "capabilities"; "limitations"; "qualification"]%string.

Definition fail_if (b : bool) : res unit := raise_if b RuntimeError "active NCCL runtime is invalid".

(** The checks of the record alone; [root_ok] is that of the provider root. *)
Definition check_active (root_ok : bool) (active : json) : res unit :=
  _ ← fail_if (negb (has_fields active ACTIVE_FIELDS));
  _ ← fail_if (negb (py_eq (field "format" active) (JInt 2)) || negb (py_eq (field "kind" active) (JStr (lit "coldsnap-nccl-active-runtime")))
               || negb (match field "provider_id" active with JStr s => provider_id_ok s | _ => false end)
               || negb (int_above 0 (field "provider_revision" active)) || negb (is_text (field "platform_key" active))
               || negb (int_above 0 (field "checkpoint_abi" active)));
  _ ← fail_if (negb root_ok);
  let abi := field "provider_abi" active in
  _ ← fail_if (negb (has_fields abi ["major"; "minor"]%string) || negb (int_above 0 (field "major" abi)) || negb (int_above (-1) (field "minor" abi)));
  _ ← fail_if (negb (sorted_names (field "capabilities" active)) || negb (sorted_names (field "limitations" active)));
  let qualification := field "qualification" active in
  _ ← fail_if (negb (has_fields qualification ["state"; "policy"; "capabilities"; "transports"; "checks"]%string)
               || negb (py_eq (field "state" qualification) (JStr (lit "accepted"))));
  _ ← fail_if (negb (forallb (λ k, sorted_names (field k qualification) && is_arr (field k qualification)) ["capabilities"; "transports"; "checks"]%string));
  _ ← fail_if (negb (py_eq (field "capabilities" qualification) (field "capabilities" active)));
  _ ← fail_if (negb (match field "supported_nccl_runtimes" active with
                     | JArr ((_ :: _) as l) => forallb (λ v, has_fields v ["version"; "release"; "path"; "soname"; "build_id"; "sha256"]%string) l
                     | _ => false
                     end));
  let runtime := field "provider_nccl_runtime" active in
  _ ← fail_if (negb (has_fields runtime ["version"; "release"; "soname"; "build_id"; "sha256"]%string) || negb (int_above 0 (field "version" runtime))
               || negb (is_text (field "release" runtime)) || negb (is_sha256 (field "sha256" runtime)));
  _ ← raise_if (negb (hashable_value (field "provider_selection" active))) TypeError "unhashable type";
  fail_if (negb (py_eq (field "provider_selection" active) (JStr (lit "exact"))
                 || py_eq (field "provider_selection" active) (JStr (lit "fallback-upgrade")))).

(** The files of the manifest by role. *)
Fixpoint files_by_role (files : list json) (seen : list (pystr * json)) : res (list (pystr * json)) :=
  match files with
  | [] => mret seen
  | file :: rest =>
      match field "role" file with
      | JStr role =>
          _ ← fail_if (bool_decide (role ∈ seen.*1));
          files_by_role rest (seen ++ [(role, file)])
      | _ => Raise (Exn RuntimeError "NCCL provider manifest file is invalid")
      end
  end.

Section load.
(** The files, and [str] of a value that is not a string. *)
Variable fs : purepath → option file_info.
Variable py_str : json → pystr.

(** [_bounded_json] *)
Definition bounded_json (p : purepath) : res json :=
  info ← of_option RuntimeError "cannot read NCCL provider record" (fs p);
  _ ← raise_if (negb (fi_regular info) || (4 * 1024 ^ 2 <? fi_size info)) RuntimeError "record must be a bounded regular file";
  text ← of_option UnicodeError "invalid UTF-8" (utf8_decode (fi_bytes info));
  payload ← of_option RuntimeError "cannot read NCCL provider record" (loads text);
  _ ← raise_if (negb (is_obj payload)) RuntimeError "NCCL provider record must be an object";
  mret payload.
(** [_clean_absolute_path] *)
Definition clean_absolute_path (value : json) : res purepath :=
  match value with
  | JStr ((_ :: _) as s) =>
      _ ← fail_if (bool_decide (0%N ∈ s));
      let p := parse_path s in
      _ ← fail_if (negb (is_absolute_path p) || negb (bool_decide (norm_path s = p)));
      info ← of_option RuntimeError "active NCCL runtime cannot resolve the path" (fs p);
      _ ← fail_if (negb (bool_decide (fi_resolved info = p)));
      _ ← fail_if (negb (fi_regular info));
      mret p
  | _ => Raise (Exn RuntimeError "active NCCL runtime has an invalid path")
  end.
Definition file_digest (p : purepath) : res pystr := info ← of_option FileNotFoundError "file" (fs p); mret (hexdigest (fi_bytes info)).
Definition check_digest (p : purepath) (expected : json) : res unit := d ← file_digest p; fail_if (negb (py_eq (JStr d) expected)).

(** One role of the provider: the library that will be loaded. *)
Definition resolve_role (provider_root : purepath) (by_role : list (pystr * json)) (active_files : json) (role : string) : res purepath :=
  let item := field role active_files in
  _ ← fail_if (negb (has_fields item ["path"; "sha256"; "build_id"; "soname"]%string));
  declared ← of_option RuntimeError "NCCL provider manifest lacks a role" (dict_get (lit role) by_role);
  payload ← clean_absolute_path (JStr (path_text (path_join provider_root (text_of py_str (field "path" declared)))));
  expected ← (if decide (role = "checkpoint-shim"%string) then
                _ ← raise_if (length (parts provider_root) <? 3)%nat RuntimeError "active NCCL provider root is too shallow";
                mret (path_join (PurePath (root provider_root) (take (length (parts provider_root) - 3) (parts provider_root)))
                        (lit "common/libcoldsnap-checkpoint-shim.so"))
              else mret payload);
  resolved ← clean_absolute_path (field "path" item);
  _ ← fail_if (negb (bool_decide (resolved = expected)));
  _ ← fail_if (negb (forallb (λ k, py_eq (field k item) (field k declared)) ["sha256"; "build_id"; "soname"]%string));
  _ ← fail_if (negb (is_sha256 (field "sha256" item)));
  _ ← check_digest payload (field "sha256" item);
  _ ← check_digest resolved (field "sha256" item);
  mret resolved.

(** The runtime that was admitted: the bridge, the shim and the library, in preload order. *)
Record nccl_runtime := NcclRuntime { nr_active : json; nr_bridge : purepath; nr_shim : purepath; nr_library : purepath }.
(** [_load_active_nccl_runtime] *)
Definition load_active_nccl_runtime (path : purepath) : res nccl_runtime :=
  active ← bounded_json path;
  let provider_root := parse_path (text_of py_str (field "provider_root" active)) in
  _ ← check_active (is_absolute_path provider_root && bool_decide (norm_path (path_text provider_root) = provider_root)) active;
  manifest_path ← clean_absolute_path (field "provider_manifest" active);
  _ ← fail_if (negb (bool_decide (manifest_path = path_join provider_root (lit "provider-manifest.json"))));
  _ ← check_digest manifest_path (field "manifest_sha256" active);
  manifest ← bounded_json manifest_path;
  _ ← fail_if (negb (has_fields manifest MANIFEST_FIELDS));
  _ ← fail_if (negb (py_eq (field "format" manifest) (JInt 2)));
  _ ← fail_if (negb (forallb (λ k, py_eq (field k active) (field k manifest)) SHARED_FIELDS));
  by_role ← match field "files" manifest with
            | JArr files => files_by_role files []
            | _ => Raise (Exn RuntimeError "NCCL provider manifest files are invalid")
            end;
  let active_files := field "files" active in
  _ ← fail_if (negb (has_fields active_files ["checkpoint-shim"; "nccl-runtime"]%string));
  shim ← resolve_role provider_root by_role active_files "checkpoint-shim";
  library ← resolve_role provider_root by_role active_files "nccl-runtime";
  let runtime := field "provider_nccl_runtime" active in
  _ ← fail_if (negb (forallb (λ k, py_eq (field k runtime) (field k (field "nccl-runtime" active_files))) ["sha256"; "build_id"; "soname"]%string));
  let bridge := field "bridge" active in
  _ ← fail_if (negb (has_fields bridge ["path"; "abi"; "sha256"]%string) || negb (int_above 0 (field "abi" bridge)) || negb (is_sha256 (field "sha256" bridge)));
  bridge_path ← clean_absolute_path (field "path" bridge);
  _ ← check_digest bridge_path (field "sha256" bridge);
  _ ← fail_if (negb (py_eq (field "preload_order" active) (JArr ((JStr ∘ path_text) <$> [bridge_path; shim; library]))));
  mret (NcclRuntime active bridge_path shim library).
End load.

(** ** What admission means *)

(** A path that names a regular file with this digest, through no symbolic link. *)
Definition verified (fs : purepath → option file_info) (p : purepath) (digest : json) : Prop :=
  ∃ info, fs p = Some info ∧ fi_regular info = true ∧ fi_resolved info = p ∧ digest = JStr (hexdigest (fi_bytes info)).

Lemma py_eq_str s v : py_eq (JStr s) v = true → v = JStr s.
Proof. destruct v; try done. cbn. intros ->%bool_decide_eq_true. done. Qed.
Lemma py_eq_str_r s v : py_eq v (JStr s) = true → v = JStr s.
Proof. destruct v; try done. cbn. intros ->%bool_decide_eq_true. done. Qed.
Lemma py_eq_texts v (l : list pystr) : py_eq v (JArr (JStr <$> l)) = true → v = JArr (JStr <$> l).
Proof.
  destruct v as [| | | | |k|]; try done. cbn [py_eq]. intros E. f_equal. revert l E.
  induction k as [|x k IH]; intros [|y l] E; try done. csimpl in E. apply andb_true_iff in E as [Ex%py_eq_str_r E]. subst x. csimpl. f_equal. by apply IH.
Qed.

Section sound.
Variables (fs : purepath → option file_info) (py_str : json → pystr).
Lemma clean_path_ok v p : clean_absolute_path fs v = Ok p → ∃ info, fs p = Some info ∧ fi_regular info = true ∧ fi_resolved info = p.
Proof.
  unfold clean_absolute_path. destruct v as [| | | |[|x s]| |]; try done. intros E. apply bind_Ok in E as ([] & _ & E). cbv zeta in E.
  apply bind_Ok in E as ([] & _ & E). apply bind_Ok in E as (info & Hi%of_option_Ok & E). apply bind_Ok in E as ([] & Hr%raise_if_Ok & E).
  apply bind_Ok in E as ([] & Hg%raise_if_Ok & E). injection E as <-. exists info. apply negb_false_iff, bool_decide_eq_true in Hr. by apply negb_false_iff in Hg.
Qed.
Lemma check_digest_ok v p digest : clean_absolute_path fs v = Ok p → check_digest fs p digest = Ok tt → verified fs p digest.
Proof.
  intros (info & Hi & Hr & Hs)%clean_path_ok E. unfold check_digest, file_digest in E. rewrite Hi in E. cbn in E.
  apply raise_if_Ok, negb_false_iff, py_eq_str in E as ->. by exists info.
Qed.
Lemma role_ok root by_role files role p : resolve_role fs py_str root by_role files role = Ok p →
  verified fs p (field "sha256" (field role files))
  ∧ ∃ declared, dict_get (lit role) by_role = Some declared ∧ py_eq (field "sha256" (field role files)) (field "sha256" declared) = true.
Proof.
  unfold resolve_role. intros E. cbv zeta in E. apply bind_Ok in E as ([] & _ & E). apply bind_Ok in E as (declared & Hd%of_option_Ok & E).
  apply bind_Ok in E as (payload & _ & E). apply bind_Ok in E as (expected & _ & E). apply bind_Ok in E as (resolved & Hc & E).
  apply bind_Ok in E as ([] & _ & E). apply bind_Ok in E as ([] & Hf%raise_if_Ok%negb_false_iff & E). apply bind_Ok in E as ([] & _ & E).
  apply bind_Ok in E as ([] & _ & E). apply bind_Ok in E as ([] & Hv & E). injection E as <-. split; [by eapply check_digest_ok|].
  exists declared. split; [done|]. cbn [forallb] in Hf. by apply andb_true_iff in Hf as [-> _].
Qed.
Lemma roles_elem files : ∀ seen by_role role file, files_by_role files seen = Ok by_role → dict_get role by_role = Some file →
  dict_get role seen = Some file ∨ file ∈ files ∧ field "role" file = JStr role.
Proof.
  induction files as [|f rest IH]; intros seen by_role role file E Hf; cbn [files_by_role] in E; [injection E as <-; by left|].
  destruct (field "role" f) as [| | | |name| |] eqn:Er; try done. apply bind_Ok in E as ([] & Hn%raise_if_Ok & E).
  destruct (IH _ _ _ _ E Hf) as [Hs|[? ?]]; [|right; split; [by right|done]].
  assert (dict_get role seen = Some file ∨ role = name ∧ file = f) as [|[-> ->]]; [|by left|right; split; [left|done]].
  clear - Hs. induction seen as [|[k v] seen IHs]; cbn in Hs; [case_decide; [injection Hs as <-; by right|done]|]. cbn. case_decide; [by left|by apply IHs].
Qed.
Lemma bounded_json_ok p v : bounded_json fs p = Ok v → ∃ info text, fs p = Some info ∧ fi_regular info = true ∧ fi_size info <= 4 * 1024 ^ 2
  ∧ utf8_decode (fi_bytes info) = Some text ∧ loads text = Some v.
Proof.
  unfold bounded_json. intros E. apply bind_Ok in E as (info & Hi%of_option_Ok & E). apply bind_Ok in E as ([] & Hg%raise_if_Ok & E).
  apply bind_Ok in E as (text & Ht%of_option_Ok & E). apply bind_Ok in E as (payload & Hl%of_option_Ok & E). apply bind_Ok in E as ([] & _ & E). injection E as <-.
  apply orb_false_iff in Hg as [Hr%negb_false_iff Hs%Z.ltb_ge]. by exists info, text.
Qed.
End sound.

(** C14. An NCCL runtime is admitted only when everything it preloads is what its provider
    published: the manifest has the digest the record states and agrees with it on every
    shared field; the checkpoint shim and the NCCL library are regular files, reached through no
    symbolic link, with the digests that record and manifest state for their roles; the bridge
    has the stated digest; and the preload order is the bridge, the shim and the library. *)
Theorem nccl_runtime_sound fs py_str path nr : load_active_nccl_runtime fs py_str path = Ok nr →
  let active := nr_active nr in let files := field "files" active in
  (∃ mp info text manifest, verified fs mp (field "manifest_sha256" active) ∧ fs mp = Some info ∧ utf8_decode (fi_bytes info) = Some text
     ∧ loads text = Some manifest ∧ Forall (λ k, py_eq (field k active) (field k manifest) = true) SHARED_FIELDS
     ∧ ∃ l, field "files" manifest = JArr l
       ∧ Forall (λ role, ∃ declared, declared ∈ l ∧ field "role" declared = JStr (lit role)
                  ∧ py_eq (field "sha256" (field role files)) (field "sha256" declared) = true) ["checkpoint-shim"; "nccl-runtime"]%string)
  ∧ verified fs (nr_shim nr) (field "sha256" (field "checkpoint-shim" files))
  ∧ verified fs (nr_library nr) (field "sha256" (field "nccl-runtime" files))
  ∧ verified fs (nr_bridge nr) (field "sha256" (field "bridge" active))
  ∧ field "preload_order" active = JArr (JStr <$> [path_text (nr_bridge nr); path_text (nr_shim nr); path_text (nr_library nr)]).
Proof.
  unfold load_active_nccl_runtime. intros E. apply bind_Ok in E as (active & Ha & E). cbv zeta in E. apply bind_Ok in E as ([] & _ & E).
  apply bind_Ok in E as (mp & Hmp & E). apply bind_Ok in E as ([] & _ & E). apply bind_Ok in E as ([] & Hmd & E). apply bind_Ok in E as (manifest & Hm & E).
  apply bind_Ok in E as ([] & _ & E). apply bind_Ok in E as ([] & _ & E). apply bind_Ok in E as ([] & Hsh%raise_if_Ok%negb_false_iff & E).
  apply bind_Ok in E as (by_role & Hr & E). apply bind_Ok in E as ([] & _ & E). apply bind_Ok in E as (shim & Hshim & E).
  apply bind_Ok in E as (library & Hlib & E). apply bind_Ok in E as ([] & _ & E). apply bind_Ok in E as ([] & _ & E).
  apply bind_Ok in E as (bridge & Hb & E). apply bind_Ok in E as ([] & Hbd & E). apply bind_Ok in E as ([] & Hpre%raise_if_Ok%negb_false_iff & E).
  injection E as <-. cbn [nr_active nr_shim nr_library nr_bridge].
  apply role_ok in Hshim as [Vs (ds & Hds & Es)]. apply role_ok in Hlib as [Vl (dl & Hdl & El)].
  apply bounded_json_ok in Hm as (info & text & Hi & _ & _ & Ht & Hl).
  destruct (field "files" manifest) as [| | | | |l|] eqn:Efiles; try done.
  split_and!; [|done|done|by eapply check_digest_ok|rewrite list_fmap_compose in Hpre; by apply py_eq_texts in Hpre].
  exists mp, info, text, manifest. split_and!; [by eapply check_digest_ok|done..| |].
  - apply Forall_forall. intros k Hk. rewrite forallb_forall in Hsh. by apply Hsh, list_elem_of_In.
  - exists l. split; [done|]. assert (∀ role d, dict_get role by_role = Some d → d ∈ l ∧ field "role" d = JStr role) as Hrole.
    { intros role d Hd. destruct (roles_elem _ _ _ _ _ Hr Hd) as [Hn|]; [by cbn in Hn|done]. }
    repeat constructor; [exists ds|exists dl]; destruct (Hrole _ _ Hds), (Hrole _ _ Hdl); done.
Qed.

(** ** Witness *)

Definition shim_bytes : pybytes := [1%N].
Definition library_bytes : pybytes := [2%N].
Definition bridge_bytes : pybytes := [3%N].
Definition library_record (path : string) (bytes : pybytes) : json := JObj [
  (lit "path", JStr (lit path)); (lit "sha256", JStr (hexdigest bytes)); (lit "build_id", JStr (lit "b")); (lit "soname", JStr (lit "s"))].
Definition with_role (role : string) (v : json) : json := match v with JObj d => JObj ((lit "role", JStr (lit role)) :: d) | _ => v end.
Definition shared_part : list (pystr * json) := [
  (lit "provider_id", JStr (lit "nccl-2.27.3-1+coldsnap.4")); (lit "provider_revision", JInt 4); (lit "platform_key", JStr (lit "linux"));
  (lit "provider_nccl_runtime", JObj [(lit "version", JInt 22703); (lit "release", JStr (lit "2.27.3")); (lit "soname", JStr (lit "s"));
     (lit "build_id", JStr (lit "b")); (lit "sha256", JStr (hexdigest library_bytes))]);
  (lit "provider_selection", JStr (lit "exact")); (lit "provider_abi", JObj [(lit "major", JInt 1); (lit "minor", JInt 0)]); (lit "checkpoint_abi", JInt 1);
  (lit "supported_nccl_runtimes", JArr [JObj [(lit "version", JInt 1); (lit "release", JNull); (lit "path", JNull); (lit "soname", JNull); (lit "build_id", JNull);
     (lit "sha256", JNull)]]);
  (lit "capabilities", JArr [JStr (lit "destroy")]); (lit "limitations", JArr []);
  (lit "qualification", JObj [(lit "state", JStr (lit "accepted")); (lit "policy", JNull); (lit "capabilities", JArr [JStr (lit "destroy")]);
     (lit "transports", JArr [JStr (lit "net")]); (lit "checks", JArr [JStr (lit "smoke")])])].
Definition provider_manifest : json := JObj (shared_part ++ [
  (lit "format", JInt 2); (lit "kind", JStr (lit "k")); (lit "requirements", JNull); (lit "provenance", JNull); (lit "dlsym_bridge_abi", JInt 1);
  (lit "preload_order", JNull);
  (lit "files", JArr [with_role "checkpoint-shim" (library_record "lib/shim.so" shim_bytes); with_role "nccl-runtime" (library_record "lib/nccl.so" library_bytes)])]).
Definition manifest_bytes : pybytes := Eval vm_compute in dumps canonical_style provider_manifest.
Definition active_record : json := JObj (shared_part ++ [
  (lit "format", JInt 2); (lit "kind", JStr (lit "coldsnap-nccl-active-runtime")); (lit "provider_root", JStr (lit "/r/providers/nccl/v4"));
  (lit "provider_manifest", JStr (lit "/r/providers/nccl/v4/provider-manifest.json")); (lit "manifest_sha256", JStr (hexdigest manifest_bytes));
  (lit "files", JObj [(lit "checkpoint-shim", library_record "/r/common/libcoldsnap-checkpoint-shim.so" shim_bytes);
     (lit "nccl-runtime", library_record "/r/providers/nccl/v4/lib/nccl.so" library_bytes)]);
  (lit "bridge", JObj [(lit "path", JStr (lit "/r/bridge.so")); (lit "abi", JInt 1); (lit "sha256", JStr (hexdigest bridge_bytes))]);
  (lit "preload_order", JArr (JStr <$> [lit "/r/bridge.so"; lit "/r/common/libcoldsnap-checkpoint-shim.so"; lit "/r/providers/nccl/v4/lib/nccl.so"]))]).
Definition active_bytes : pybytes := Eval vm_compute in dumps canonical_style active_record.
Definition sample_fs (p : purepath) : option file_info :=
  let file b := Some (FileInfo true (Z.of_nat (length b)) p b) in
  if decide (p = parse_path (lit "/r/active.json")) then file active_bytes
  else if decide (p = parse_path (lit "/r/providers/nccl/v4/provider-manifest.json")) then file manifest_bytes
  else if decide (p ∈ [parse_path (lit "/r/providers/nccl/v4/lib/shim.so"); parse_path (lit "/r/common/libcoldsnap-checkpoint-shim.so")]) then file shim_bytes
  else if decide (p = parse_path (lit "/r/providers/nccl/v4/lib/nccl.so")) then file library_bytes
  else if decide (p = parse_path (lit "/r/bridge.so")) then file bridge_bytes
  else None.
Notation sample_load := (load_active_nccl_runtime sample_fs (λ _, []) (parse_path (lit "/r/active.json"))).
Definition sample_runtime : nccl_runtime := ok_or (NcclRuntime JNull (parse_path []) (parse_path []) (parse_path [])) sample_load.
Lemma sample_admitted : sample_load = Ok sample_runtime.
Proof.
  assert (is_ok sample_load = true) as E by (by vm_compute). unfold sample_runtime. by destruct sample_load.
Qed.
Lemma nccl_runtime_sound_witness :
  let active := nr_active sample_runtime in let files := field "files" active in
  (∃ mp info text manifest, verified sample_fs mp (field "manifest_sha256" active) ∧ sample_fs mp = Some info ∧ utf8_decode (fi_bytes info) = Some text
     ∧ loads text = Some manifest ∧ Forall (λ k, py_eq (field k active) (field k manifest) = true) SHARED_FIELDS
     ∧ ∃ l, field "files" manifest = JArr l
       ∧ Forall (λ role, ∃ declared, declared ∈ l ∧ field "role" declared = JStr (lit role)
                  ∧ py_eq (field "sha256" (field role files)) (field "sha256" declared) = true) ["checkpoint-shim"; "nccl-runtime"]%string)
  ∧ verified sample_fs (nr_shim sample_runtime) (field "sha256" (field "checkpoint-shim" files))
  ∧ verified sample_fs (nr_library sample_runtime) (field "sha256" (field "nccl-runtime" files))
  ∧ verified sample_fs (nr_bridge sample_runtime) (field "sha256" (field "bridge" active))
  ∧ field "preload_order" active = JArr (JStr <$> [path_text (nr_bridge sample_runtime); path_text (nr_shim sample_runtime); path_text (nr_library sample_runtime)]).
Proof. apply (nccl_runtime_sound sample_fs (λ _, []) (parse_path (lit "/r/active.json")) sample_runtime). exact sample_admitted. Defined.
