(* ===== verification/ActivationLog.v ===== *)
(** * Logs of an activation ([coldsnap_activation_logs.py])

    The log of a captured process is preserved as [capture.log] before the file the restored
    process appends to is truncated in place. Files are inodes that names of the capsule point
    to; every system call may fail, and a write may take only a part of its bytes. Permissions
    are left out, and so are the two calls of [lseek] besides the position they set. *)

From stdpp Require Import gmap.
From S2P Require Import Prelude PyFloat PyJson Hash.

(** ** Files *)

(** What a name of the capsule is: a regular file, or something else (a symbolic link, a
    directory, a pipe). *)
Inductive log_entry := RegularFile (inode : nat) | OtherEntry.
#[global] Instance log_entry_eq_dec : EqDecision log_entry.
Proof. solve_decision. Defined.
Record log_dir := LogDir { entries : gmap pystr log_entry; inodes : gmap nat pybytes; next_inode : nat; calls : nat }.

Definition CAPTURE_LOG_FILENAME : pystr := lit "capture.log".
Definition TARGET_LOG_FILENAME : pystr := lit "target.log".
Definition COPY_CHUNK : Z := 1024 * 1024.

Definition file_at (i : nat) (d : log_dir) : pybytes := default [] (inodes d !! i).
Definition set_file (i : nat) (b : pybytes) (d : log_dir) : log_dir := LogDir (entries d) (<[i := b]> (inodes d)) (next_inode d) (calls d).
Definition create_file (name : pystr) (d : log_dir) : log_dir :=
  LogDir (<[name := RegularFile (next_inode d)]> (entries d)) (<[next_inode d := []]> (inodes d)) (S (next_inode d)) (calls d).
Definition unlink_entry (name : pystr) (d : log_dir) : log_dir := LogDir (delete name (entries d)) (inodes d) (next_inode d) (calls d).
Definition rename_entry (name name' : pystr) (d : log_dir) : log_dir :=
  match entries d !! name with
  | Some e => LogDir (<[name' := e]> (delete name (entries d))) (inodes d) (next_inode d) (calls d)
  | None => d
  end.

Section logs.
(** The system call that fails for a reason the files do not show, if one does, and the bytes
    a write accepts. *)
Variables (io : nat → option exn) (accepted : nat → Z).
(** The process and the random part of a temporary name. *)
Variable suffix : pystr.

Definition count_call (d : log_dir) : log_dir := LogDir (entries d) (inodes d) (next_inode d) (S (calls d)).
(** A system call: it fails, or it changes the files and returns what it saw. *)
Definition syscall {A} (f : log_dir → A * log_dir) : ST log_dir A := λ d,
  match io (calls d) with
  | Some e => (Raise e, count_call d)
  | None => let '(a, d') := f (count_call d) in (Ok a, d')
  end.
Definition change (f : log_dir → log_dir) : ST log_dir unit := syscall (λ d, (tt, f d)).
Definition look {A} (f : log_dir → A) : ST log_dir A := syscall (λ d, (f d, d)).
(** A call whose only effect is to wait or to release: [fsync], [close]. *)
Definition settle : ST log_dir unit := change id.
(** [except BaseException: h; raise] *)
Definition on_raise {A} (m : ST log_dir A) (h : ST log_dir unit) : ST log_dir A := λ d,
  match m d with
  | (Raise e, d') => (h ≫= λ _, lift (Raise e)) d'
  | r => r
  end.

(** [_open_regular_log]: an [OSError] of [open] becomes a [RuntimeError], one of [fstat] does not. *)
Definition open_regular_log (name : pystr) : ST log_dir nat :=
  entry ← st_except (e ← look (λ d, entries d !! name); lift (of_option FileNotFoundError "no such file" e))
            is_os_error (λ _, lift (Raise (Exn RuntimeError "cannot open capsule log")));
  on_raise (_ ← settle;
            match entry with
            | RegularFile i => mret i
            | OtherEntry => lift (Raise (Exn RuntimeError "capsule log is not a regular file"))
            end) settle.

(** [while view: written = os.write(fd, view) ...]; [at_] is the position of the descriptor and
    every round writes at least one byte. *)
Definition write_at (i at_ : nat) (b : pybytes) (d : log_dir) : log_dir :=
  let old := file_at i d in set_file i (take at_ old ++ b ++ drop (at_ + length b) old) d.
Definition write_some (i at_ : nat) (view : pybytes) : ST log_dir nat := syscall (λ d,
  let n := Z.to_nat (Z.min (accepted (calls d - 1)) (Z.of_nat (length view))) in (n, write_at i at_ (take n view) d)).
Fixpoint write_all (fuel : nat) (i at_ : nat) (view : pybytes) : ST log_dir unit :=
  match fuel with
  | O => mret tt
  | S fuel' =>
      if decide (view = []) then mret tt
      else
        n ← write_some i at_ view;
        if decide (n = 0%nat) then lift (Raise (Exn OSError "short write"))
        else write_all fuel' i (at_ + n) (drop n view)
  end.
(** [os.read(fd, 1024 * 1024)] of what is left *)
Definition read_chunk (left : pybytes) : pybytes := take (Z.to_nat (Z.min COPY_CHUNK (Z.of_nat (length left)))) left.
(** The copy loop: chunks of the source until a read returns nothing. *)
Fixpoint copy_loop (fuel : nat) (source destination copied : nat) : ST log_dir nat :=
  match fuel with
  | O => mret copied
  | S fuel' =>
      chunk ← look (λ d, read_chunk (drop copied (file_at source d)));
      if decide (chunk = []) then mret copied
      else
        _ ← write_all (length chunk) destination copied chunk;
        copy_loop fuel' source destination (copied + length chunk)
  end.

Record log_record := LogRecord { lr_path : pystr; lr_bytes : Z; lr_sha256 : pystr }.
Definition temporary_name (destination : pystr) : pystr := lit "." ++ destination ++ lit "." ++ suffix ++ lit ".tmp".
Definition open_exclusive (name : pystr) : ST log_dir nat :=
  e ← look (λ d, entries d !! name);
  _ ← st_raise_if (bool_decide (is_Some e)) FileExistsError "file exists";
  st_set (create_file name) ≫= λ _, st_get (λ d, (next_inode d - 1)%nat).
Definition read_entry (name : pystr) : ST log_dir pybytes :=
  e ← look (λ d, entries d !! name);
  match e with
  | Some (RegularFile i) => st_get (file_at i)
  | _ => lift (Raise (Exn FileNotFoundError "no such file"))
  end.

(** [_copy_open_log] *)
Definition copy_open_log (source : nat) (destination : pystr) : ST log_dir log_record :=
  existing ← look (λ d, entries d !! destination);
  _ ← st_raise_if (bool_decide (is_Some existing)) FileExistsError "refusing to overwrite capsule log";
  let temporary := temporary_name destination in
  fd ← on_raise (open_exclusive temporary) (change (unlink_entry temporary));
  copied ← on_raise (size ← st_get (λ d, length (file_at source d));
                     copied ← copy_loop (S size) source fd 0; _ ← settle; _ ← settle; mret copied)
             (_ ← settle; change (unlink_entry temporary));
  _ ← on_raise (change (rename_entry temporary destination)) (change (unlink_entry temporary));
  bytes ← read_entry destination;
  mret (LogRecord destination (Z.of_nat copied) (hexdigest bytes)).

(** [archive_capture_log] *)
Definition archive_capture_log : ST log_dir log_record :=
  fd ← open_regular_log TARGET_LOG_FILENAME;
  st_finally_run (record ← copy_open_log fd CAPTURE_LOG_FILENAME;
                  _ ← change (set_file fd []);
                  _ ← settle;
                  mret record) settle.

(** The boundary line of a restore. *)
Record activation := Activation {
  ac_namespace : pystr; ac_capture_id : option pystr; ac_generation : option json; ac_rank : Z; ac_started_at : pystr; ac_unit : option pystr;
}.
Definition restore_boundary (a : activation) : json := JObj [
  (lit "format", JInt 1); (lit "kind", JStr (lit "coldsnap-restore-log-boundary")); (lit "activation_namespace", JStr (ac_namespace a));
  (lit "capture_id", JStr (py_strip (default [] (ac_capture_id a))));
  (lit "process_generation", match ac_generation a with Some (JStr g) => JStr g | _ => JStr [] end); (lit "rank", JInt (ac_rank a));
  (lit "started_at", JStr (ac_started_at a)); (lit "unit", JStr (py_strip (default [] (ac_unit a))))].
(** The text is ASCII, so its bytes are its characters. *)
Definition boundary_line (boundary : json) : pybytes := lit "--- ColdSnap restore boundary " ++ dumps canonical_style boundary ++ lit " ---".
Definition boundary_marker (boundary : json) : pybytes := boundary_line boundary ++ [10%N].

(** [restore_log_boundary] *)
Definition preserve_history (fd : nat) : ST log_dir unit :=
  existing ← look (λ d, entries d !! CAPTURE_LOG_FILENAME);
  match existing with
  | None => copy_open_log fd CAPTURE_LOG_FILENAME ≫= λ _, mret tt
  | Some (RegularFile _) => mret tt
  | Some OtherEntry => lift (Raise (Exn RuntimeError "capture log is not a regular file"))
  end.
Definition restore_log_boundary (a : activation) : ST log_dir json :=
  fd ← open_regular_log TARGET_LOG_FILENAME;
  st_finally_run (_ ← preserve_history fd;
                  let marker := boundary_marker (restore_boundary a) in
                  _ ← change (set_file fd []);
                  _ ← write_all (length marker) fd 0 marker;
                  _ ← settle;
                  mret (restore_boundary a)) settle.
End logs.
