(* ===== verification/ActivationLogSpec.v ===== *)
(** * What happens to the logs of an activation

    A triple for runs that may raise, the state a copy leaves on every path, and the two
    operations: history is never lost, and the log of an activation starts with one line. *)

From stdpp Require Import gmap.
From S2P Require Import Prelude PyFloat PyJson PyJsonFacts Hash ActivationLog.

(** ** Triples *)

(** From a state in [P] the run returns in [Q] or raises in [E]. *)
Definition triple {A} (P : log_dir → Prop) (m : ST log_dir A) (Q : A → log_dir → Prop) (E : log_dir → Prop) : Prop :=
  ∀ d r d', P d → m d = (r, d') → match r with Ok a => Q a d' | Raise _ => E d' end.

Lemma triple_bind {A B} P (m : ST log_dir A) (k : A → ST log_dir B) Q Q' E :
  triple P m Q E → (∀ a, triple (Q a) (k a) Q' E) → triple P (m ≫= k) Q' E.
Proof.
  intros Hm Hk d r d' HP. unfold mbind, st_bind. destruct (m d) as [[a|e] d1] eqn:Em; specialize (Hm _ _ _ HP Em); cbn in Hm.
  - by apply Hk.
  - by intros [= <- <-].
Qed.
Lemma triple_ret {A} (P : log_dir → Prop) (a : A) (Q : A → log_dir → Prop) E : (∀ d, P d → Q a d) → triple P (mret a) Q E.
Proof. intros H d r d' HP [= <- <-]. by apply H. Qed.
Lemma triple_raise {A} (P : log_dir → Prop) e (Q : A → log_dir → Prop) (E : log_dir → Prop) : (∀ d, P d → E d) → triple P (lift (Raise e)) Q E.
Proof. intros H d r d' HP [= <- <-]. by apply H. Qed.
Lemma triple_weaken {A} (P P' : log_dir → Prop) (m : ST log_dir A) (Q Q' : A → log_dir → Prop) (E E' : log_dir → Prop) :
  triple P m Q E → (∀ d, P' d → P d) → (∀ a d, Q a d → Q' a d) → (∀ d, E d → E' d) → triple P' m Q' E'.
Proof. intros H HP HQ HE d r d' Hd Em. specialize (H d r d' (HP _ Hd) Em). destruct r; eauto. Qed.
Lemma triple_on_raise {A} P (m : ST log_dir A) h Q E E' : triple P m Q E → triple E h (λ _, E') E' → triple P (on_raise m h) Q E'.
Proof.
  intros Hm Hh d r d' HP. unfold on_raise. destruct (m d) as [[a|e] d1] eqn:Em; specialize (Hm _ _ _ HP Em); cbn in Hm; [by intros [= <- <-]|].
  unfold mbind, st_bind. destruct (h d1) as [[[]|e'] d2] eqn:Eh; specialize (Hh _ _ _ Hm Eh); cbn in Hh; by intros [= <- <-].
Qed.
Lemma triple_finally {A} P (m : ST log_dir A) h (Q Q' : A → log_dir → Prop) (E E' : log_dir → Prop) :
  triple P m Q E → (∀ a, triple (Q a) h (λ _, Q' a) E') → triple E h (λ _, E') E' → triple P (st_finally_run m h) Q' E'.
Proof.
  intros Hm Hq He d r d' HP. unfold st_finally_run. destruct (m d) as [[a|e] d1] eqn:Em; specialize (Hm _ _ _ HP Em); cbn in Hm;
    unfold mbind, st_bind; destruct (h d1) as [[[]|e'] d2] eqn:Eh.
  - specialize (Hq a _ _ _ Hm Eh). by intros [= <- <-].
  - specialize (Hq a _ _ _ Hm Eh). by intros [= <- <-].
  - specialize (He _ _ _ Hm Eh). by intros [= <- <-].
  - specialize (He _ _ _ Hm Eh). by intros [= <- <-].
Qed.

(** ** Calls *)

(** Two states that differ in the number of calls only. *)
Definition stable (P : log_dir → Prop) : Prop := ∀ d, P d → P (count_call d).
Ltac stable := let H := fresh in intros ? H; exact H.

Section logs.
Variables (io : nat → option exn) (accepted : nat → Z) (suffix : pystr).
Notation syscall := (syscall io). Notation change := (change io). Notation look := (look io). Notation settle := (settle io).

(** No call fails and every write makes progress. *)
Definition healthy : Prop := (∀ n, io n = None) ∧ ∀ n, 0 < accepted n.

Lemma triple_syscall {A} (P : log_dir → Prop) (f : log_dir → A * log_dir) (Q : A → log_dir → Prop) (E : log_dir → Prop) :
  (∀ d, P d → (¬ healthy → E (count_call d)) ∧ Q (f (count_call d)).1 (f (count_call d)).2) → triple P (syscall f) Q E.
Proof.
  intros H d r d' HP. destruct (H d HP) as [HE HQ]. unfold ActivationLog.syscall. destruct (io (calls d)) as [e|] eqn:Ei.
  - intros [= <- <-]. apply HE. intros [Hio _]. by rewrite Hio in Ei.
  - destruct (f (count_call d)) as [a d1]. by intros [= <- <-].
Qed.
Lemma triple_settle (P : log_dir → Prop) (E : log_dir → Prop) : stable P → (∀ d, P d → ¬ healthy → E d) → stable E → triple P settle (λ _, P) E.
Proof. intros Hs HE HsE. apply triple_syscall. intros d HP. split; [|by apply Hs]. intros Hh. apply HsE. by apply HE. Qed.

(** ** Writing *)

Lemma file_at_set j i b d : file_at j (set_file i b d) = if decide (j = i) then b else file_at j d.
Proof.
  unfold file_at, set_file. cbn. destruct (decide (j = i)) as [->|Hn]; [by rewrite lookup_insert_eq|by rewrite lookup_insert_ne].
Qed.

(** What holds of a state whatever inode [fd] contains. *)
Definition apart (fd : nat) (P : log_dir → Prop) : Prop := stable P ∧ ∀ d b, P d → P (set_file fd b d).

Lemma write_at_end fd b d : write_at fd (length (file_at fd d)) b d = set_file fd (file_at fd d ++ b) d.
Proof. unfold write_at. by rewrite firstn_all, drop_ge, app_nil_r by lia. Qed.

Lemma write_all_ok fd P : apart fd P → ∀ fuel old view, (length view <= fuel)%nat →
  triple (λ d, P d ∧ file_at fd d = old) (write_all io accepted fuel fd (length old) view)
    (λ _ d, P d ∧ file_at fd d = old ++ view) (λ d, P d ∧ ¬ healthy).
Proof.
  intros [Hs Hset]. induction fuel as [|fuel IH]; intros old view Hl; cbn [write_all].
  { destruct view; [|cbn in Hl; lia]. rewrite app_nil_r. by apply triple_ret. }
  destruct (decide (view = [])) as [->|Hv]; [rewrite app_nil_r; by apply triple_ret|].
  apply (triple_bind _ _ _ (λ n d, P d ∧ file_at fd d = old ++ take n view ∧ (n <= length view)%nat ∧ (n = 0%nat → ¬ healthy))).
  - apply triple_syscall. intros d [HP Hf]. split; [intros Hh; split; [by apply Hs|done]|]. cbn [fst snd].
    set (n := Z.to_nat _). assert (length old = length (file_at fd (count_call d))) as -> by (by rewrite <- Hf).
    rewrite write_at_end. split_and!; [by apply Hset, Hs| |lia|].
    + rewrite file_at_set, decide_True by done. by rewrite <- Hf.
    + intros Hn [_ Ha]. specialize (Ha (calls (count_call d) - 1)%nat). destruct view; [done|]. cbn [length] in n. lia.
  - intros n. destruct (decide (n = 0%nat)) as [->|Hn].
    + apply triple_raise. intros d (HP & _ & _ & Hh). split; [done|by apply Hh].
    + intros d r d' (HP & Hf & Hle & _) E. assert (length old + n = length (old ++ take n view))%nat as Hlen by (rewrite length_app, length_take; lia).
      rewrite Hlen in E. apply IH in E; [|rewrite length_drop; lia|done]. by rewrite <- app_assoc, take_drop in E.
Qed.

Lemma read_chunk_length left : left ≠ [] → (0 < length (read_chunk left) <= length left)%nat.
Proof. intros Hl. unfold read_chunk. rewrite length_take. unfold COPY_CHUNK. destruct left; [done|]. cbn [length]. lia. Qed.

Lemma copy_loop_ok fd source h P : apart fd P → (∀ d, P d → file_at source d = h) → ∀ fuel copied, (copied <= length h)%nat → (length h - copied < fuel)%nat →
  triple (λ d, P d ∧ file_at fd d = take copied h) (copy_loop io accepted fuel source fd copied)
    (λ n d, P d ∧ file_at fd d = h ∧ n = length h) (λ d, P d ∧ ¬ healthy).
Proof.
  intros Ha Hsrc. destruct (Ha) as [Hs Hset]. induction fuel as [|fuel IH]; intros copied Hc Hf; [lia|]. cbn [copy_loop].
  apply (triple_bind _ _ _ (λ chunk d, P d ∧ file_at fd d = take copied h ∧ chunk = read_chunk (drop copied h))).
  - apply triple_syscall. intros d [HP Hd]. split; [intros Hh; split; [by apply Hs|done]|]. cbn [fst snd].
    split_and!; [by apply Hs|done|]. by rewrite (Hsrc (count_call d)) by (by apply Hs).
  - intros chunk d r d' (HP & Hd & ->). set (left := drop copied h). assert (length left = length h - copied)%nat as Hleft by apply length_drop.
    destruct (decide (read_chunk left = [])) as [E|Hne].
    + assert (left = []) as Hnil by (destruct (decide (left = [])) as [|Hn]; [done|apply read_chunk_length in Hn; rewrite E in Hn; cbn in Hn; lia]).
      rewrite Hnil in Hleft. cbn in Hleft. intros [= <- <-]. split_and!; [done| |lia]. rewrite Hd. apply take_ge. lia.
    + assert (left ≠ []) as Hn by (intros E; unfold read_chunk in Hne; by rewrite E, take_nil in Hne). apply read_chunk_length in Hn as Hlen.
      set (n := length (read_chunk left)) in *. assert (read_chunk left = take n left) as Hchunk.
      { unfold n, read_chunk. rewrite length_take. f_equal. lia. }
      enough (triple (λ d, P d ∧ file_at fd d = take copied h)
        (_ ← write_all io accepted n fd copied (read_chunk left); copy_loop io accepted fuel source fd (copied + n))
        (λ n d, P d ∧ file_at fd d = h ∧ n = length h) (λ d, P d ∧ ¬ healthy)) as T by exact (T d r d' (conj HP Hd)).
      apply (triple_bind _ _ _ (λ _ d, P d ∧ file_at fd d = take (copied + n) h)); [|intros _; apply IH; lia].
      assert (copied = length (take copied h)) as Hlc by (rewrite length_take; lia).
      pose proof (write_all_ok fd P Ha n (take copied h) (read_chunk left) (le_n _)) as Hw. rewrite <- Hlc in Hw.
      eapply triple_weaken; [exact Hw|done| |done].
      cbn. intros _ dn [HPn Hdn]. split; [done|]. rewrite Hdn, Hchunk. unfold left. by rewrite take_take_drop.
Qed.

(** ** Copying a log *)

Notation tmp := (temporary_name suffix CAPTURE_LOG_FILENAME).
Variables (d0 : log_dir) (i : nat) (h : pybytes).
Hypotheses (Hi : (i < next_inode d0)%nat) (Hh : file_at i d0 = h).

(** Only the temporary name, and inodes made since, may differ from the first state. *)
Definition unchanged (d : log_dir) : Prop :=
  (∀ name, name ≠ tmp → entries d !! name = entries d0 !! name) ∧ (∀ j, (j < next_inode d0)%nat → file_at j d = file_at j d0)
  ∧ (next_inode d0 <= next_inode d)%nat.
Definition untouched (d : log_dir) : Prop := unchanged d ∧ entries d !! tmp = entries d0 !! tmp.
Definition opened (fd : nat) (d : log_dir) : Prop :=
  unchanged d ∧ (next_inode d0 <= fd)%nat ∧ entries d !! tmp = Some (RegularFile fd) ∧ entries d0 !! CAPTURE_LOG_FILENAME = None.
(** The copy is in place. *)
Definition preserved (d : log_dir) : Prop :=
  entries d0 !! CAPTURE_LOG_FILENAME = None
  ∧ (∀ name, name ≠ tmp → name ≠ CAPTURE_LOG_FILENAME → entries d !! name = entries d0 !! name)
  ∧ (∀ j, (j < next_inode d0)%nat → file_at j d = file_at j d0)
  ∧ ∃ fd, (next_inode d0 <= fd)%nat ∧ entries d !! CAPTURE_LOG_FILENAME = Some (RegularFile fd) ∧ file_at fd d = h.
(** Why a copy may fail. *)
Definition excuse : Prop := ¬ healthy ∨ is_Some (entries d0 !! CAPTURE_LOG_FILENAME) ∨ is_Some (entries d0 !! tmp).

Lemma tmp_capture : CAPTURE_LOG_FILENAME ≠ tmp.
Proof. vm_compute. discriminate. Qed.
Lemma tmp_target : TARGET_LOG_FILENAME ≠ tmp.
Proof. vm_compute. discriminate. Qed.
Lemma unchanged_unlink d : unchanged d → unchanged (unlink_entry tmp d).
Proof. intros (He & Hf & Hn). split_and!; [|done|done]. intros name Hname. cbn. rewrite lookup_delete_ne by done. by apply He. Qed.
Lemma opened_apart fd : apart fd (opened fd).
Proof.
  split; [stable|]. intros d b ((He & Hf & Hn) & Hfd & Ht & Hc). split_and!; try done. split_and!; [done| |done].
  intros j Hj. rewrite file_at_set, decide_False by lia. by apply Hf.
Qed.
Lemma unlink_ok (E : log_dir → Prop) : (∀ d, unchanged d ∧ excuse → E d) → triple (λ d, unchanged d ∧ excuse) (change (unlink_entry tmp)) (λ _, E) E.
Proof.
  intros HE. apply triple_syscall. intros d [Hd Hx]. split; [intros _|]; apply HE; (split; [|done]); [done|by apply unchanged_unlink].
Qed.

Lemma open_exclusive_ok : triple (λ d, untouched d ∧ entries d0 !! CAPTURE_LOG_FILENAME = None) (open_exclusive io tmp)
  (λ fd d, opened fd d ∧ file_at fd d = []) (λ d, unchanged d ∧ excuse).
Proof.
  unfold open_exclusive. apply (triple_bind _ _ _ (λ e d, (untouched d ∧ entries d0 !! CAPTURE_LOG_FILENAME = None) ∧ e = entries d0 !! tmp)).
  { apply triple_syscall. intros d [[Hd Ht] Hc]. split; [intros Hx; split; [exact Hd|by left]|]. exact (conj (conj (conj Hd Ht) Hc) Ht). }
  intros e. apply (triple_bind _ _ _ (λ _ d, (untouched d ∧ entries d0 !! CAPTURE_LOG_FILENAME = None) ∧ e = None)).
  { intros d r d' [[Hd Hc] ->] E. unfold st_raise_if, lift, raise_if in E. case_bool_decide as He; injection E as <- <-.
    - split; [apply Hd|]. right. by right.
    - split; [done|]. destruct (entries d0 !! tmp); [|done]. destruct He. by eexists. }
  intros _ d r d' [[[(He & Hf & Hn) _] Hc] _]. unfold mbind, st_bind, st_set, st_get. intros [= <- <-].
  rewrite Nat.sub_0_r.
  split; [|unfold file_at, create_file; cbn [inodes]; by rewrite lookup_insert_eq].
  split_and!; [|lia|unfold create_file; cbn [entries]; by rewrite lookup_insert_eq|done]. split_and!.
  - intros name Hname. unfold create_file. cbn [entries]. rewrite lookup_insert_ne by done. by apply He.
  - intros j Hj. rewrite <- Hf by done. unfold file_at, create_file. cbn [inodes]. by rewrite lookup_insert_ne by lia.
  - cbn. lia.
Qed.

Lemma rename_ok fd : triple (λ d, opened fd d ∧ file_at fd d = h) (change (rename_entry tmp CAPTURE_LOG_FILENAME)) (λ _, preserved) (λ d, unchanged d ∧ excuse).
Proof.
  apply triple_syscall. intros d [((He & Hf & Hn) & Hfd & Ht & Hc) Hd]. split; [intros Hx; split; [by split_and!|by left]|]. cbn [fst snd]. unfold rename_entry. rewrite (Ht : entries (count_call d) !! tmp = _).
  split_and!; [done| |done|].
  - intros name H1 H2. cbn [entries]. rewrite lookup_insert_ne, lookup_delete_ne by done. by apply He.
  - exists fd. cbn [entries]. by rewrite lookup_insert_eq.
Qed.

Lemma read_entry_ok : triple preserved (read_entry io CAPTURE_LOG_FILENAME) (λ b d, preserved d ∧ b = h) (λ d, preserved d ∧ excuse).
Proof.
  unfold read_entry. apply (triple_bind _ _ _ (λ e d, preserved d ∧ e = entries d !! CAPTURE_LOG_FILENAME)).
  { apply triple_syscall. intros d Hd. split; [intros Hx; split; [exact Hd|by left]|]. exact (conj Hd eq_refl). }
  intros e d r d' [Hd ->]. destruct (Hd) as (_ & _ & _ & fd & _ & -> & Hf). intros [= <- <-]. by split.
Qed.

Lemma copy_open_log_ok : triple untouched (copy_open_log io accepted suffix i CAPTURE_LOG_FILENAME)
  (λ rec d, preserved d ∧ rec = LogRecord CAPTURE_LOG_FILENAME (Z.of_nat (length h)) (hexdigest h)) (λ d, (unchanged d ∨ preserved d) ∧ excuse).
Proof.
  unfold copy_open_log. apply (triple_bind _ _ _ (λ e d, untouched d ∧ e = entries d0 !! CAPTURE_LOG_FILENAME)).
  { apply triple_syscall. intros d Hd. split; [intros Hx; split; [left; apply Hd|by left]|]. split; [exact Hd|]. apply Hd, tmp_capture. }
  intros e. apply (triple_bind _ _ _ (λ _ d, untouched d ∧ entries d0 !! CAPTURE_LOG_FILENAME = None)).
  { intros d r d' [Hd ->] E. unfold st_raise_if, lift, raise_if in E. case_bool_decide as He; injection E as <- <-.
    - split; [left; apply Hd|]. right. by left.
    - split; [done|]. destruct (entries d0 !! _); [|done]. destruct He. by eexists. }
  intros _. apply (triple_bind _ _ _ (λ fd d, opened fd d ∧ file_at fd d = [])).
  { eapply triple_on_raise; [apply open_exclusive_ok|]. apply unlink_ok. intros d [Hd Hx]. by split; [left|]. }
  intros fd. apply (triple_bind _ _ _ (λ n d, (opened fd d ∧ file_at fd d = h) ∧ n = length h)).
  { apply (triple_on_raise _ _ _ _ (λ d, unchanged d ∧ excuse)).
    - intros d r d' [Hd Hnil]. assert (file_at i d = h) as Hsrc by (rewrite (proj1 (proj2 (proj1 Hd))) by done; done).
      unfold mbind at 1, st_bind at 1, st_get. rewrite Hsrc.
      enough (triple (λ d, opened fd d ∧ file_at fd d = take 0 h) (copied ← copy_loop io accepted (S (length h)) i fd 0; _ ← settle; _ ← settle; mret copied)
        (λ n d, (opened fd d ∧ file_at fd d = h) ∧ n = length h) (λ d, unchanged d ∧ excuse)) as T by (by apply (T d r d')).
      apply (triple_bind _ _ _ (λ n d, opened fd d ∧ file_at fd d = h ∧ n = length h)).
      + eapply triple_weaken; [apply (copy_loop_ok fd i h (opened fd) (opened_apart fd)); [|lia..]|done..|].
        * intros d1 Hd1. rewrite (proj1 (proj2 (proj1 Hd1))) by done. done.
        * intros d1 [Hd1 Hx]. split; [apply Hd1|by left].
      + intros n. do 2 (apply (triple_bind _ _ _ (λ _ d, opened fd d ∧ file_at fd d = h ∧ n = length h)); [apply triple_settle; [stable| |stable]; intros d1 [Hd1 _] Hx; split; [apply Hd1|by left]|intros _]).
        apply triple_ret. tauto.
    - apply (triple_bind _ _ _ (λ _ d, unchanged d ∧ excuse)); [apply (triple_settle _ (λ d, (unchanged d ∨ preserved d) ∧ excuse)); [stable| |stable]; tauto|]. intros _. apply unlink_ok. tauto. }
  intros n. apply (triple_bind _ _ _ (λ _ d, preserved d ∧ n = length h)).
  { apply (triple_on_raise _ _ _ _ (λ d, unchanged d ∧ excuse)); [|apply unlink_ok; tauto]. intros d r d' [Hd ->] E. apply (rename_ok fd) in E; [|done]. by destruct r. }
  intros _. apply (triple_bind _ _ _ (λ b d, (preserved d ∧ b = h) ∧ n = length h)).
  { intros d r d' [Hd ->] E. apply read_entry_ok in E; [|done]. destruct r; tauto. }
  intros b. apply triple_ret. intros d [[Hd ->] ->]. done.
Qed.

(** ** The operations *)

Hypothesis Htarget : entries d0 !! TARGET_LOG_FILENAME = Some (RegularFile i).

Lemma open_target_ok : triple untouched (open_regular_log io TARGET_LOG_FILENAME) (λ fd d, untouched d ∧ fd = i) (λ d, untouched d ∧ ¬ healthy).
Proof.
  unfold open_regular_log. apply (triple_bind _ _ _ (λ e d, untouched d ∧ e = RegularFile i)).
  - intros d r d' Hd. unfold st_except, mbind, st_bind, ActivationLog.look, ActivationLog.syscall.
    destruct (io (calls d)) as [e|] eqn:Ei.
    + assert (¬ healthy) as Hx by (intros [Hio _]; by rewrite Hio in Ei). destruct (is_os_error (exc e)); intros [= <- <-]; exact (conj Hd Hx).
    + assert (entries (count_call d) !! TARGET_LOG_FILENAME = Some (RegularFile i)) as He by (rewrite <- Htarget; apply Hd, tmp_target).
      rewrite He. intros [= <- <-]. exact (conj Hd eq_refl).
  - intros e. apply (triple_on_raise _ _ _ _ (λ d, untouched d ∧ ¬ healthy)); [|apply triple_settle; [stable|tauto|stable]].
    intros d r d' [Hd ->]. enough (triple untouched (_ ← settle; mret i) (λ fd d, untouched d ∧ fd = i) (λ d, untouched d ∧ ¬ healthy)) as T by (by apply T).
    apply (triple_bind _ _ _ (λ _, untouched)); [apply triple_settle; [stable|tauto|stable]|]. intros _. by apply triple_ret.
Qed.

(** The history is kept, whatever the target contains. *)
Definition history_kept (d : log_dir) : Prop :=
  (∀ name, name ≠ tmp → name ≠ CAPTURE_LOG_FILENAME → entries d !! name = entries d0 !! name)
  ∧ (∀ j, (j < next_inode d0)%nat → j ≠ i → file_at j d = file_at j d0)
  ∧ match entries d0 !! CAPTURE_LOG_FILENAME with
    | None => ∃ fd, (next_inode d0 <= fd)%nat ∧ entries d !! CAPTURE_LOG_FILENAME = Some (RegularFile fd) ∧ file_at fd d = h
    | Some e => entries d !! CAPTURE_LOG_FILENAME = Some e
    end.
Lemma preserved_kept d : preserved d → history_kept d.
Proof. intros (Hc & He & Hf & Hfd). split_and!; [done|by intros; apply Hf|]. by rewrite Hc. Qed.
Lemma unchanged_kept d : unchanged d → is_Some (entries d0 !! CAPTURE_LOG_FILENAME) → history_kept d.
Proof.
  intros (He & Hf & _) [e Hs]. split_and!; [by intros; apply He|by intros; apply Hf|]. rewrite Hs, <- Hs. apply He, tmp_capture.
Qed.
Lemma history_apart : apart i history_kept.
Proof.
  split; [stable|]. intros d b (He & Hf & Hc). split_and!; [done| |].
  - intros j Hj Hn. rewrite file_at_set, decide_False by done. by apply Hf.
  - destruct (entries d0 !! CAPTURE_LOG_FILENAME); [done|]. destruct Hc as (fd & Hfd & Hce & Hcf). exists fd. rewrite file_at_set, decide_False by lia. done.
Qed.

Lemma truncate_ok : triple history_kept (change (set_file i [])) (λ _ d, history_kept d ∧ file_at i d = []) (λ d, history_kept d ∧ ¬ healthy).
Proof.
  apply triple_syscall. intros d Hd. split; [intros Hx; exact (conj Hd Hx)|]. cbn [fst snd]. split; [by apply history_apart, Hd|]. by rewrite file_at_set, decide_True.
Qed.

Lemma archive_ok : triple untouched (archive_capture_log io accepted suffix)
  (λ rec d, (history_kept d ∧ file_at i d = []) ∧ entries d0 !! CAPTURE_LOG_FILENAME = None ∧ rec = LogRecord CAPTURE_LOG_FILENAME (Z.of_nat (length h)) (hexdigest h))
  (λ d, (unchanged d ∨ entries d0 !! CAPTURE_LOG_FILENAME = None ∧ history_kept d ∧ (file_at i d = h ∨ file_at i d = [])) ∧ excuse).
Proof.
  set (E := λ d, _ ∧ excuse). assert (stable E) as HsE by stable.
  assert (∀ d, preserved d → excuse → E d) as Hpre.
  { intros d Hd Hx. split; [|done]. right. split_and!; [apply Hd|by apply preserved_kept|]. left. rewrite <- Hh. by apply Hd. }
  unfold archive_capture_log. apply (triple_bind _ _ _ (λ fd d, untouched d ∧ fd = i)).
  { eapply triple_weaken; [apply open_target_ok|done..|]. intros d [Hd Hx]. split; [left; apply Hd|by left]. }
  intros fd d r d' [Hd ->]. revert d r d' Hd.
  pose (Q := λ (rec : log_record) (d : log_dir), (history_kept d ∧ file_at i d = []) ∧ entries d0 !! CAPTURE_LOG_FILENAME = None
    ∧ rec = LogRecord CAPTURE_LOG_FILENAME (Z.of_nat (length h)) (hexdigest h)).
  enough (triple untouched (st_finally_run (record ← copy_open_log io accepted suffix i CAPTURE_LOG_FILENAME; _ ← change (set_file i []); _ ← settle; mret record) settle) Q E)
    as T by exact T.
  apply (triple_finally _ _ _ Q _ E).
  - apply (triple_bind _ _ _ (λ rec d, preserved d ∧ rec = LogRecord CAPTURE_LOG_FILENAME (Z.of_nat (length h)) (hexdigest h))).
    { eapply triple_weaken; [apply copy_open_log_ok|done..|]. intros d [[Hd|Hd] Hx]; [by split; [left|]|by apply Hpre]. }
    intros rec. apply (triple_bind _ _ _ (λ _ d, Q rec d)).
    + intros d r d' [Hd ->] Et. destruct (Hd) as (Hc & _). pose proof Et as Et'. apply truncate_ok in Et; [|by apply preserved_kept].
      destruct r as [[]|e]; [done|]. destruct Et as [_ Hx]. apply Hpre; [|by left].
      unfold ActivationLog.change, ActivationLog.syscall in Et'. destruct (io (calls d)); [|done]. injection Et' as _ <-. exact Hd.
    + intros _. apply (triple_bind _ _ _ (λ _ d, Q rec d)); [|intros _; by apply triple_ret].
      apply triple_settle; [stable| |done]. intros d ((Hk & Hf) & Hc & _) Hx. split; [|by left]. right. by split_and!; [..|right].
  - intros rec. apply triple_settle; [stable| |done]. intros d ((Hk & Hf) & Hc & _) Hx. split; [|by left]. right. by split_and!; [..|right].
  - apply triple_settle; [done|done|done].
Qed.

Lemma preserve_history_ok : triple untouched (preserve_history io accepted suffix i) (λ _, history_kept)
  (λ d, (unchanged d ∨ preserved d) ∧ (¬ healthy ∨ entries d0 !! CAPTURE_LOG_FILENAME = Some OtherEntry ∨ is_Some (entries d0 !! tmp))).
Proof.
  unfold preserve_history. apply (triple_bind _ _ _ (λ e d, untouched d ∧ e = entries d0 !! CAPTURE_LOG_FILENAME)).
  { apply triple_syscall. intros d Hd. split; [intros Hx; split; [left; apply Hd|by left]|]. split; [exact Hd|]. apply Hd, tmp_capture. }
  intros e d r d' [Hd ->]. destruct (entries d0 !! CAPTURE_LOG_FILENAME) as [[j|]|] eqn:Ec.
  - intros [= <- <-]. apply unchanged_kept; [apply Hd|]. rewrite Ec. by eexists.
  - intros [= <- <-]. split; [left; apply Hd|]. right. by left.
  - unfold mbind, st_bind. destruct (copy_open_log io accepted suffix i CAPTURE_LOG_FILENAME d) as [[rec|e] d1] eqn:Ecopy; apply copy_open_log_ok in Ecopy; try exact Hd.
    + intros [= <- <-]. apply preserved_kept, Ecopy.
    + intros [= <- <-]. destruct Ecopy as [Hs [Hx|[Hx|Hx]]]; (split; [done|]); [by left|rewrite Ec in Hx; by destruct Hx|by right; right].
Qed.

Lemma restore_ok a : triple untouched (restore_log_boundary io accepted suffix a)
  (λ b d, b = restore_boundary a ∧ history_kept d ∧ file_at i d = boundary_marker b)
  (λ d, (unchanged d ∨ history_kept d) ∧ (¬ healthy ∨ entries d0 !! CAPTURE_LOG_FILENAME = Some OtherEntry ∨ is_Some (entries d0 !! tmp))).
Proof.
  set (E := λ d, (unchanged d ∨ history_kept d) ∧ _). assert (stable E) as HsE by stable.
  assert (∀ d, history_kept d → ¬ healthy → E d) as Hk by (intros d Hd Hx; split; [by right|by left]).
  unfold restore_log_boundary. apply (triple_bind _ _ _ (λ fd d, untouched d ∧ fd = i)).
  { eapply triple_weaken; [apply open_target_ok|done..|]. intros d [Hd Hx]. split; [left; apply Hd|by left]. }
  intros fd d r d' [Hd ->]. revert d r d' Hd. set (marker := boundary_marker (restore_boundary a)).
  pose (Q := λ (b : json) (d : log_dir), b = restore_boundary a ∧ history_kept d ∧ file_at i d = boundary_marker b).
  enough (triple untouched (st_finally_run (_ ← preserve_history io accepted suffix i; _ ← change (set_file i []);
    _ ← write_all io accepted (length marker) i 0 marker; _ ← settle; mret (restore_boundary a)) settle) Q E) as T by exact T.
  apply (triple_finally _ _ _ Q _ E); [|intros b; apply triple_settle; [stable| |done]; intros d (_ & Hd & _); by apply Hk|by apply triple_settle].
  apply (triple_bind _ _ _ (λ _, history_kept)).
  { eapply triple_weaken; [apply preserve_history_ok|done..|]. intros d [[Hd|Hd] Hx]; (split; [|done]); [by left|right; by apply preserved_kept]. }
  intros _. apply (triple_bind _ _ _ (λ _ d, history_kept d ∧ file_at i d = [])).
  { eapply triple_weaken; [apply truncate_ok|done..|]. intros d [Hd Hx]. by apply Hk. }
  intros _. apply (triple_bind _ _ _ (λ _ d, history_kept d ∧ file_at i d = marker)).
  { eapply triple_weaken; [apply (write_all_ok i history_kept history_apart (length marker) [] marker); lia|done..|]. intros d [Hd Hx]. by apply Hk. }
  intros _. apply (triple_bind _ _ _ (λ _ d, history_kept d ∧ file_at i d = marker)).
  { apply triple_settle; [stable| |done]. intros d [Hd _]. by apply Hk. }
  intros _. apply triple_ret. intros d [Hd Hf]. done.
Qed.
End logs.

(** ** One line *)

Definition no_newline (s : pystr) : Prop := Forall (λ c, c ≠ 10%N) s.
Lemma no_newline_app s t : no_newline (s ++ t) ↔ no_newline s ∧ no_newline t.
Proof. apply Forall_app. Qed.
Lemma hex_digit_newline n : hex_digit n ≠ 10%N.
Proof. unfold hex_digit. destruct (n <? 10)%N; lia. Qed.
Lemma escape_char_newline c : no_newline (escape_char c).
Proof.
  unfold escape_char. repeat match goal with |- context [(if ?b then _ else _)] => destruct b eqn:? end;
    repeat first [apply Forall_cons_2 | apply Forall_app; split | apply hex_digit_newline | by apply N.eqb_neq | constructor | lia].
Qed.
Lemma dump_str_newline s : no_newline (dump_str s).
Proof. constructor; [done|]. apply Forall_app. split; [|by repeat constructor]. apply Forall_concat, Forall_fmap, Forall_true. exact escape_char_newline. Qed.
Lemma join_newline sep l : no_newline sep → Forall no_newline l → no_newline (join sep l).
Proof. intros Hs. induction 1 as [|x [|y l] Hx _ IH]; [constructor|done|]. change (no_newline (x ++ sep ++ join sep (y :: l))). by rewrite !no_newline_app. Qed.
Lemma str_of_Z_newline z : no_newline (str_of_Z z).
Proof. eapply Forall_impl; [exact (proj2 (str_of_Z_ascii z))|]. by intros c Hc ->. Qed.
Lemma flat_object_newline l : Forall (λ kv : pystr * json, match kv.2 with JStr _ | JInt _ => True | _ => False end) l →
  no_newline (dumps canonical_style (JObj l)).
Proof.
  intros Hl. unfold dumps. rewrite sort_keys_obj. set (k := py_sorted _ _).
  assert (Forall (λ kv : pystr * json, match kv.2 with JStr _ | JInt _ => True | _ => False end) k) as Hk.
  { unfold k. rewrite py_sorted_perm. apply Forall_fmap. eapply Forall_impl; [exact Hl|]. intros [x v]. by destruct v. }
  clearbody k. cbn [dump]. unfold bracket. destruct ((λ kv, _) <$> k) as [|x items] eqn:E; [by repeat constructor|]. rewrite <- E.
  constructor; [done|]. cbn [app newline canonical_style indent]. apply Forall_app. split; [|by repeat constructor]. apply join_newline; [by repeat constructor|].
  apply Forall_fmap. eapply Forall_impl; [exact Hk|]. intros [key v] Hv. apply no_newline_app. split; [apply dump_str_newline|]. apply no_newline_app.
  split; [by repeat constructor|]. destruct v; try done; [apply str_of_Z_newline|apply dump_str_newline].
Qed.
Lemma boundary_one_line a : 10%N ∉ boundary_line (restore_boundary a).
Proof.
  assert (no_newline (boundary_line (restore_boundary a))) as Hn; [|intros Hin; by eapply (Forall_forall _ _) in Hn; [|exact Hin]].
  unfold boundary_line. rewrite !no_newline_app. split_and!; [by repeat constructor| |by repeat constructor].
  apply flat_object_newline. repeat constructor. cbn. by destruct (ac_generation a) as [[]|].
Qed.

(** ** The claims *)

(** A name of the capsule is a regular file with these bytes. *)
Definition log_holds (d : log_dir) (name : pystr) (b : pybytes) : Prop := ∃ j, entries d !! name = Some (RegularFile j) ∧ file_at j d = b.
(** Names refer to inodes that exist, and no two to the same one. *)
Record wf_logs (d : log_dir) : Prop := {
  wf_inodes : ∀ name j, entries d !! name = Some (RegularFile j) → (j < next_inode d)%nat;
  wf_links : ∀ name name' j, entries d !! name = Some (RegularFile j) → entries d !! name' = Some (RegularFile j) → name = name';
}.

Section claims.
Variables (suffix : pystr) (d : log_dir) (i : nat) (h : pybytes).
Hypotheses (Hwf : wf_logs d) (Ht : entries d !! TARGET_LOG_FILENAME = Some (RegularFile i)).
Notation tmp := (temporary_name suffix CAPTURE_LOG_FILENAME).

(** Files under names that stay keep their bytes. *)
Lemma other_holds d' name b : name ≠ TARGET_LOG_FILENAME → entries d' !! name = entries d !! name →
  (∀ j, (j < next_inode d)%nat → j ≠ i → file_at j d' = file_at j d) → log_holds d name b → log_holds d' name b.
Proof.
  intros Hn He Hf (j & Hj & <-). exists j. rewrite He. split; [done|]. apply Hf; [by eapply wf_inodes|]. intros ->. apply Hn. by eapply wf_links.
Qed.
Lemma unchanged_files d' : unchanged suffix d d' → (∀ j, (j < next_inode d)%nat → j ≠ i → file_at j d' = file_at j d).
Proof. intros (_ & Hf & _) j Hj _. by apply Hf. Qed.
Lemma kept_names d' : unchanged suffix d d' ∨ history_kept suffix d i h d' →
  entries d' !! TARGET_LOG_FILENAME = Some (RegularFile i)
  ∧ (∀ b, log_holds d CAPTURE_LOG_FILENAME b → log_holds d' CAPTURE_LOG_FILENAME b)
  ∧ ∀ name, name ≠ TARGET_LOG_FILENAME → name ≠ CAPTURE_LOG_FILENAME → name ≠ tmp → entries d' !! name = entries d !! name ∧ ∀ b, log_holds d name b → log_holds d' name b.
Proof.
  intros [Hu|(He & Hf & Hc)].
  - pose proof Hu as (He & _). split_and!.
    + rewrite <- Ht. apply He, tmp_target.
    + intros b. apply other_holds; [done|apply He, tmp_capture|by apply unchanged_files].
    + intros name H1 H2 H3. split; [by apply He|]. intros b. apply other_holds; [done|by apply He|by apply unchanged_files].
  - split_and!.
    + rewrite <- Ht. by apply He; [apply tmp_target|].
    + intros b Hb. pose proof Hb as (j & Hj & _). rewrite Hj in Hc. apply (other_holds d' CAPTURE_LOG_FILENAME b); [done|congruence|done..].
    + intros name H1 H2 H3. split; [by apply He|]. intros b. apply other_holds; [done|by apply He|done].
Qed.
Lemma kept_capture d' : history_kept suffix d i h d' → entries d !! CAPTURE_LOG_FILENAME = None → log_holds d' CAPTURE_LOG_FILENAME h.
Proof. intros (_ & _ & Hc) Hn. rewrite Hn in Hc. destruct Hc as (fd & _ & He & Hf). by exists fd. Qed.
End claims.

(** C11. Archiving the log of a capture never loses its history: whichever call fails, and however
    little a write takes, [target.log] stays the same inode, and its bytes are still in it or it
    is empty and [capture.log] has them; a [capture.log] that was there is kept with its bytes;
    and no other file changes. A record returned describes the archived bytes, and a run that
    raises had a failing call, a write that took nothing, or a name that was taken. *)
Theorem archive_keeps_history io accepted suffix d i h r d' :
  wf_logs d → entries d !! TARGET_LOG_FILENAME = Some (RegularFile i) → file_at i d = h → archive_capture_log io accepted suffix d = (r, d') →
  entries d' !! TARGET_LOG_FILENAME = Some (RegularFile i)
  ∧ (file_at i d' = h ∨ file_at i d' = [] ∧ log_holds d' CAPTURE_LOG_FILENAME h)
  ∧ (∀ b, log_holds d CAPTURE_LOG_FILENAME b → log_holds d' CAPTURE_LOG_FILENAME b ∧ file_at i d' = h)
  ∧ (∀ name, name ≠ TARGET_LOG_FILENAME → name ≠ CAPTURE_LOG_FILENAME → name ≠ temporary_name suffix CAPTURE_LOG_FILENAME →
       entries d' !! name = entries d !! name ∧ ∀ b, log_holds d name b → log_holds d' name b)
  ∧ match r with
    | Ok rec => rec = LogRecord CAPTURE_LOG_FILENAME (Z.of_nat (length h)) (hexdigest h) ∧ file_at i d' = [] ∧ log_holds d' CAPTURE_LOG_FILENAME h
    | Raise _ => ¬ healthy io accepted ∨ is_Some (entries d !! CAPTURE_LOG_FILENAME) ∨ is_Some (entries d !! temporary_name suffix CAPTURE_LOG_FILENAME)
    end.
Proof.
  intros Hwf Ht Hf E. pose proof (wf_inodes d Hwf _ _ Ht) as Hi. apply (archive_ok io accepted suffix d i h Hi Hf Ht) in E; [|by split_and!].
  assert (unchanged suffix d d' → file_at i d' = h) as Hun by (intros (_ & Hsame & _); by rewrite Hsame).
  assert (∀ b, entries d !! CAPTURE_LOG_FILENAME = None → ¬ log_holds d CAPTURE_LOG_FILENAME b) as Hno by (intros b Hn (j & Hj & _); congruence).
  destruct r as [rec|e].
  - destruct E as ((Hk & Hnil) & Hc & ->). destruct (kept_names suffix d i h Hwf Ht d') as (H1 & _ & H3); [by right|].
    pose proof (kept_capture _ _ _ _ _ Hk Hc). split_and!; [done|by right| |done..]. by intros b Hb%Hno.
  - destruct E as [[Hu|(Hc & Hk & Hfile)] Hx].
    + destruct (kept_names suffix d i h Hwf Ht d') as (H1 & H2 & H3); [by left|]. split_and!; [done|left; by apply Hun| |done|done].
      intros b Hb. split; [by apply H2|by apply Hun].
    + destruct (kept_names suffix d i h Hwf Ht d') as (H1 & _ & H3); [by right|]. pose proof (kept_capture _ _ _ _ _ Hk Hc).
      split_and!; [done|by destruct Hfile; [left|right]| |done|done]. by intros b Hb%Hno.
Qed.

(** Starting the log of an activation keeps the history too: [target.log] stays the same
    inode; a [capture.log] that was there keeps its bytes, and without one the history of an
    older capsule is still in the target or is in [capture.log]. On success the target holds
    exactly one line, the boundary of this activation. A run that raises had a failing call, a
    [capture.log] that is no regular file, or a temporary name that was taken. *)
Theorem restore_boundary_keeps_history io accepted suffix a d i h r d' :
  wf_logs d → entries d !! TARGET_LOG_FILENAME = Some (RegularFile i) → file_at i d = h → restore_log_boundary io accepted suffix a d = (r, d') →
  entries d' !! TARGET_LOG_FILENAME = Some (RegularFile i)
  ∧ (∀ b, log_holds d CAPTURE_LOG_FILENAME b → log_holds d' CAPTURE_LOG_FILENAME b)
  ∧ (entries d !! CAPTURE_LOG_FILENAME = None → file_at i d' = h ∨ log_holds d' CAPTURE_LOG_FILENAME h)
  ∧ (∀ name, name ≠ TARGET_LOG_FILENAME → name ≠ CAPTURE_LOG_FILENAME → name ≠ temporary_name suffix CAPTURE_LOG_FILENAME →
       entries d' !! name = entries d !! name ∧ ∀ b, log_holds d name b → log_holds d' name b)
  ∧ match r with
    | Ok b => b = restore_boundary a ∧ file_at i d' = boundary_line b ++ [10%N] ∧ 10%N ∉ boundary_line b
    | Raise _ => ¬ healthy io accepted ∨ entries d !! CAPTURE_LOG_FILENAME = Some OtherEntry ∨ is_Some (entries d !! temporary_name suffix CAPTURE_LOG_FILENAME)
    end.
Proof.
  intros Hwf Ht Hf E. pose proof (wf_inodes d Hwf _ _ Ht) as Hi. apply (restore_ok io accepted suffix d i h Hi Hf Ht) in E; [|by split_and!].
  assert (unchanged suffix d d' → file_at i d' = h) as Hun by (intros (_ & Hsame & _); by rewrite Hsame).
  assert (unchanged suffix d d' ∨ history_kept suffix d i h d') as Hk by (destruct r; tauto).
  destruct (kept_names suffix d i h Hwf Ht d' Hk) as (H1 & H2 & H3). split_and!; [done|done| |done|].
  - intros Hc. destruct Hk as [Hu|Hk]; [left; by apply Hun|right; by eapply kept_capture].
  - destruct r as [b|e]; [|tauto]. destruct E as (-> & _ & Hm). split_and!; [done|done|apply boundary_one_line].
Qed.

(** ** A capture and an activation *)

Definition sample_history : pybytes := lit "engine started".
Definition sample_logs : log_dir := LogDir {[TARGET_LOG_FILENAME := RegularFile 0]} {[0%nat := sample_history]} 1 0.
Notation sample_archive := (archive_capture_log (λ _, None) (λ _, 5) (lit "7.ab") sample_logs).
Definition sample_activation : activation := Activation (lit "ns") (Some (lit " c1 ")) None 2 (lit "2026-01-01T00:00:00.000Z") None.
Definition archived_logs : log_dir := sample_archive.2.
Notation sample_restore := (restore_log_boundary (λ _, None) (λ _, 5) (lit "8.cd") sample_activation archived_logs).

Lemma sample_wf : wf_logs sample_logs.
Proof.
  unfold sample_logs. split; cbn [entries next_inode].
  - intros name j [_ [= <-]]%lookup_singleton_Some. lia.
  - intros name name' j [<- _]%lookup_singleton_Some [<- _]%lookup_singleton_Some. done.
Qed.
Lemma sample_archived : is_ok sample_archive.1 = true.
Proof. vm_compute. reflexivity. Qed.
Lemma archive_keeps_history_witness : file_at 0 archived_logs = [] ∧ log_holds archived_logs CAPTURE_LOG_FILENAME sample_history.
Proof.
  destruct (archive_keeps_history (λ _, None) (λ _, 5) (lit "7.ab") sample_logs 0 sample_history sample_archive.1 archived_logs) as (_ & _ & _ & _ & H);
    [exact sample_wf|reflexivity|reflexivity|apply surjective_pairing|].
  pose proof sample_archived as Hok. destruct (sample_archive.1); [exact (proj2 H)|discriminate Hok].
Defined.

Lemma archived_wf : wf_logs archived_logs.
Proof.
  assert (entries archived_logs = {[TARGET_LOG_FILENAME := RegularFile 0; CAPTURE_LOG_FILENAME := RegularFile 1]}) as He by (vm_compute; reflexivity).
  assert (next_inode archived_logs = 2%nat) as Hn by (vm_compute; reflexivity). split; rewrite He.
  - intros name j Hj. rewrite Hn. apply lookup_insert_Some in Hj as [[_ [= <-]]|[_ [_ [= <-]]%lookup_singleton_Some]]; lia.
  - intros name name' j Hj Hj'.
    apply lookup_insert_Some in Hj as [[<- [= <-]]|[_ [<- [= <-]]%lookup_singleton_Some]];
      apply lookup_insert_Some in Hj' as [[<- Hj']|[_ [<- Hj']%lookup_singleton_Some]]; done.
Qed.
Lemma sample_restored : is_ok sample_restore.1 = true.
Proof. vm_compute. reflexivity. Qed.
Lemma restore_boundary_keeps_history_witness :
  log_holds sample_restore.2 CAPTURE_LOG_FILENAME sample_history ∧ file_at 0 sample_restore.2 = boundary_line (restore_boundary sample_activation) ++ [10%N].
Proof.
  destruct (restore_boundary_keeps_history (λ _, None) (λ _, 5) (lit "8.cd") sample_activation archived_logs 0 [] sample_restore.1 sample_restore.2)
    as (_ & Hc & _ & _ & H); [exact archived_wf|vm_compute; reflexivity|vm_compute; reflexivity|apply surjective_pairing|].
  split.
  - apply Hc. exists 1%nat. split; vm_compute; reflexivity.
  - pose proof sample_restored as Hok. destruct (sample_restore.1) as [b|]; [|discriminate Hok]. destruct H as (-> & H & _). exact H.
Defined.
