(* ===== verification/SglangAdapter.v ===== *)
(** * The SGLang adapter ([coldsnap_sglang/settings.py], [coldsnap_sglang/adapter.py])

    Settings read from the environment; the memory-saver adapter, which narrows [LD_PRELOAD]
    around calls into the library and widens it for children; and the native restore of the
    registered models from the pack that [ServiceCapsule.prepare_sglang_hydration] wrote. *)

From S2P Require Import Prelude PyFloat PyJson Hash Memory Validation PyPath Artifact Service ServiceCapsule.

(** ** Settings *)

Record Settings := MkSettings {
  st_mode : pystr; st_artifact_root : option purepath; st_live_backing : pystr; st_live_root : option purepath; st_preverified : bool;
  st_lock_root : option purepath; st_export_model_payload : bool; st_process_artifact_root : option purepath; st_async_graphs : bool;
  st_arm_file : option purepath; st_ready_file : option purepath; st_shape_calibration : bool; st_startup_provider : pystr;
}.
Definition settings_enabled (s : Settings) : bool := negb (bool_decide (st_mode s = lit "off")).

(** [_boolean(name)] with the default [False] *)
Definition settings_boolean (env : environ) (name : string) : res bool :=
  match env_get (lit name) env with
  | None => mret false
  | Some value =>
      let normalized := py_lower (py_strip value) in
      if bool_decide (normalized ∈ [lit "1"; lit "true"; lit "yes"; lit "on"]) then mret true
      else if bool_decide (normalized ∈ [lit "0"; lit "false"; lit "no"; lit "off"]) then mret false
      else Raise (Exn SettingsError "must be a boolean")
  end.
(** [os.environ.get(name, d).strip().lower()] *)
Definition env_word (env : environ) (name d : string) : pystr := py_lower (py_strip (default (lit d) (env_get (lit name) env))).

Section settings.
(** [Path.resolve] of the host, the directory for temporary files, and the user. *)
Variables (resolve : pystr → purepath) (gettempdir : pystr) (getuid : Z).
(** [Path(value).resolve() if value else None] *)
Definition env_path (env : environ) (name : string) : option purepath :=
  match env_get (lit name) env with Some ((_ :: _) as v) => Some (resolve v) | _ => None end.
Definition runtime_root (env : environ) : purepath :=
  match env_path env "COLDSNAP_RUNTIME_DIR" with
  | Some p => p
  | None => path_join (parse_path (default gettempdir (env_get (lit "XDG_RUNTIME_DIR") env))) (lit "coldsnap-sglang-" ++ str_of_Z getuid)
  end.
(** [Settings.from_env] *)
Definition from_env (env : environ) : res Settings :=
  let mode := env_word env "COLDSNAP_MODE" "off" in
  _ ← raise_if (negb (bool_decide (mode ∈ [lit "off"; lit "capture"]))) SettingsError "COLDSNAP_MODE must be off or capture";
  let on := negb (bool_decide (mode = lit "off")) in
  let artifact_root := env_path env "COLDSNAP_ARTIFACT_DIR" in
  _ ← raise_if (on && bool_decide (artifact_root = None)) SettingsError "COLDSNAP_ARTIFACT_DIR is required when COLDSNAP_MODE is enabled";
  let live_backing := env_word env "COLDSNAP_LIVE_BACKING" "disk" in
  _ ← raise_if (negb (bool_decide (live_backing ∈ [lit "disk"; lit "cpu"; lit "discard"]))) SettingsError
      "COLDSNAP_LIVE_BACKING must be disk, cpu, or discard";
  let root := runtime_root env in
  let live_root := if on then Some (path_join root (lit "live")) else None in
  let lock_root := if on then Some (path_join root (lit "locks")) else None in
  let process_artifact_root := env_path env "COLDSNAP_PROCESS_ARTIFACT_ROOT" in
  _ ← raise_if (on && bool_decide (process_artifact_root = None)) SettingsError
      "COLDSNAP_PROCESS_ARTIFACT_ROOT is required when the SGLang plugin is enabled";
  async_graphs ← settings_boolean env "COLDSNAP_ASYNC_CUDA_GRAPHS";
  let arm := env_path env "COLDSNAP_ASYNC_CUDA_GRAPHS_ARM_FILE" in
  let ready := env_path env "COLDSNAP_ASYNC_CUDA_GRAPHS_READY_FILE" in
  _ ← raise_if (async_graphs && (bool_decide (arm = None) || bool_decide (ready = None))) SettingsError
      "asynchronous CUDA graphs require arm and ready file paths";
  let startup_provider := env_word env "COLDSNAP_SGLANG_STARTUP_PROVIDER" "" in
  _ ← raise_if (negb (bool_decide (startup_provider ∈ [[]; lit "native"; lit "recovery"]))) SettingsError
      "COLDSNAP_SGLANG_STARTUP_PROVIDER must be native or recovery";
  preverified ← settings_boolean env "COLDSNAP_ARTIFACT_PREVERIFIED";
  export ← settings_boolean env "COLDSNAP_EXPORT_MODEL_PAYLOAD";
  shape_calibration ← settings_boolean env "COLDSNAP_SHAPE_CALIBRATION";
  mret (MkSettings mode artifact_root live_backing live_root preverified lock_root export process_artifact_root async_graphs arm ready
          shape_calibration startup_provider).
End settings.

(** ** The preload of the memory saver *)

Definition LD_PRELOAD : pystr := lit "LD_PRELOAD".
Definition TMS_PRELOAD_ENV : pystr := lit "COLDSNAP_SGLANG_TMS_PRELOAD".
(** [os.environ[name] = value] and [os.environ.pop(name, None)] *)
Fixpoint env_set (name value : pystr) (env : environ) : environ :=
  match env with
  | [] => [(name, value)]
  | (n, v) :: rest => if decide (name = n) then (n, value) :: rest else (n, v) :: env_set name value rest
  end.
Definition env_pop (name : pystr) (env : environ) : environ := filter (λ p : pystr * pystr, p.1 ≠ name) (env : list (pystr * pystr)).
Definition env_put (name : pystr) (value : option pystr) (env : environ) : environ :=
  match value with Some v => env_set name v env | None => env_pop name env end.

(** [_preload_entries] *)
Definition preload_entries (value : option pystr) : list pystr := filter (λ e, e ≠ []) (split_char 58 [] (default [] value)).
(** ["torch_memory_saver" in Path(entry).name] *)
Definition is_saver_library (entry : pystr) : bool := contains (lit "torch_memory_saver") (default [] (last (parts (parse_path entry)))).
(** [_tms_preload_path] *)
Definition tms_preload_path (env : environ) : res pystr :=
  let active := preload_entries (env_get LD_PRELOAD env) in
  match env_get TMS_PRELOAD_ENV env with
  | Some ((_ :: _) as declared) =>
      _ ← raise_if (negb (bool_decide (declared ∈ active))) RuntimeError "ColdSnap SGLang memory-saver preload is absent from LD_PRELOAD";
      mret declared
  | _ =>
      match filter (λ e, is_saver_library e = true) active with
      | [entry] => mret entry
      | _ => Raise (Exn RuntimeError "ColdSnap SGLang requires exactly one torch_memory_saver preload")
      end
  end.

(** ** The adapter *)

(** Calls into the library [torch_memory_saver], and restores of a model from a pack. *)
Inductive saver_call :=
| EnterRegion (tag : pystr) (cpu_backup disk_backup : bool) | ExitRegion | EnterGraph (tag : pystr) | ExitGraph | EnterDisable | ExitDisable
| SetDiskDir (path : purepath) | PauseTag (tag : pystr) | ResumeTag (tag : pystr).
(** A registered model: the object, its identity, its artifact object and where that is. *)
Record registered_model := RegisteredModel { rm_model : nat; rm_identity : json; rm_artifact : nat; rm_root : purepath }.
(** The state of the adapter and its process; [aw_seen] has every library call with the
    [LD_PRELOAD] it was made under. *)
Record adapter_world := AdapterWorld {
  aw_env : environ; aw_disk_configured : bool; aw_models : list registered_model; aw_seen : list (saver_call * option pystr);
}.
Definition on_env (f : environ → environ) (w : adapter_world) : adapter_world := AdapterWorld (f (aw_env w)) (aw_disk_configured w) (aw_models w) (aw_seen w).

Section adapter.
Variables (settings : Settings) (pid : Z).
(** The library call that fails, if one does, by its position. *)
Variable saver : nat → option exn.
(** [mkdir] with its parents, which may fail. *)
Variable make_dir : purepath → res unit.

Definition call_saver (c : saver_call) : ST adapter_world unit := λ w,
  let w' := AdapterWorld (aw_env w) (aw_disk_configured w) (aw_models w) (aw_seen w ++ [(c, env_get LD_PRELOAD (aw_env w))]) in
  match saver (length (aw_seen w)) with Some e => (Raise e, w') | None => (Ok tt, w') end.
(** [_tms_library_environment] around a body *)
Definition tms_library_environment {A} (body : ST adapter_world A) : ST adapter_world A :=
  previous ← st_get (λ w, env_get LD_PRELOAD (aw_env w));
  env ← st_get aw_env;
  path ← lift (tms_preload_path env);
  _ ← st_set (on_env (env_set LD_PRELOAD path));
  st_finally body (on_env (env_put LD_PRELOAD previous)).
(** [_ensure_disk_dir] *)
Definition ensure_disk_dir : ST adapter_world unit :=
  configured ← st_get aw_disk_configured;
  if configured || negb (bool_decide (st_live_backing settings = lit "disk")) then mret tt
  else
    root ← lift (of_option AssertionError "live root" (st_live_root settings));
    let path := path_join root (lit "pid-" ++ str_of_Z pid) in
    _ ← lift (make_dir path);
    _ ← call_saver (SetDiskDir path);
    st_set (λ w, AdapterWorld (aw_env w) true (aw_models w) (aw_seen w)).
(** A [with] of the library's context managers *)
Definition with_saver {A} (enter exit : saver_call) (body : ST adapter_world A) : ST adapter_world A :=
  _ ← call_saver enter; st_finally_run body (call_saver exit).
(** [region] *)
Definition region {A} (tag : pystr) (body : ST adapter_world A) : ST adapter_world A :=
  let weights := bool_decide (tag = r_name WEIGHTS) in
  _ ← (if weights then ensure_disk_dir else mret tt);
  tms_library_environment (with_saver
    (EnterRegion tag (weights && bool_decide (st_live_backing settings = lit "cpu")) (weights && bool_decide (st_live_backing settings = lit "disk"))) ExitRegion body).
(** [cuda_graph], [disable] *)
Definition cuda_graph {A} (body : ST adapter_world A) : ST adapter_world A :=
  tms_library_environment (with_saver (EnterGraph (r_name CUDA_GRAPH)) ExitGraph body).
Definition disable_saver {A} (body : ST adapter_world A) : ST adapter_world A := tms_library_environment (with_saver EnterDisable ExitDisable body).
(** [pause] *)
Definition pause_tag (tag : pystr) : ST adapter_world unit :=
  _ ← (if bool_decide (tag = r_name WEIGHTS) then ensure_disk_dir else mret tt);
  tms_library_environment (call_saver (PauseTag tag)).

(** [register_model] *)
Definition register_model (m : registered_model) : ST adapter_world unit := st_set (λ w,
  if existsb (λ item, rm_model item =? rm_model m)%nat (aw_models w) then w
  else AdapterWorld (aw_env w) (aw_disk_configured w) (aw_models w ++ [m]) (aw_seen w)).

(** [_selected_provider] of the file [activation-provider] *)
Definition selected_provider (selector : option pystr) : res pystr :=
  text ← of_option RuntimeError "ColdSnap SGLang activation provider was not selected by the controller" selector;
  let value := py_strip text in
  _ ← raise_if (negb (bool_decide (value ∈ [lit "native"; lit "recovery"]))) RuntimeError "invalid ColdSnap SGLang weight provider";
  mret value.

(** [str] of a value that is not a string, and [artifact.restore] of a model from the pack at
    an offset. *)
Variable py_str : json → pystr.
Variable restore_artifact : registered_model → pybytes → Z → ST adapter_world unit.

(** [by_artifact] *)
Definition by_artifact (components : list json) : list (pystr * json) :=
  dict_of_pairs (omap (λ c, if is_obj c then Some (text_of py_str (field "artifact" c), c) else None) components).
Definition restore_model (pack : pybytes) (index : list (pystr * json)) (item : registered_model) : ST adapter_world unit :=
  semantic_root ← lift (of_option RuntimeError "ColdSnap SGLang semantic root is unavailable" (st_artifact_root settings));
  relative ← lift (of_option ValueError "not in the subpath" (relative_to (rm_root item) semantic_root));
  let key := path_text (PurePath [] relative) in
  component ← lift (of_option RuntimeError "ColdSnap SGLang native payload lacks component" (dict_get key index));
  offset ← lift (of_option RuntimeError "ColdSnap SGLang native payload lacks component" (as_int (field "offset" component)));
  restore_artifact item pack offset.
(** [_restore_models] with the worker's files below [hydration] *)
Definition restore_models (h : hydration_dir) (models : list registered_model) : ST adapter_world unit :=
  _ ← st_raise_if (bool_decide (length models = 0%nat)) RuntimeError "ColdSnap SGLang native restore has no models";
  _ ← lift (of_option AssertionError "worker payload root" (st_process_artifact_root settings));
  index ← lift (of_option FileNotFoundError "native-manifest.json" (hd_native h));
  components ← lift match field "components" index with
                    | JArr l => if py_eq (field "format" index) (JInt 1) && py_eq (field "kind" index) (JStr (lit "coldsnap-sglang-model-payload")) then Ok l
                                else Raise (Exn RuntimeError "ColdSnap SGLang native payload index is invalid")
                    | _ => Raise (Exn RuntimeError "ColdSnap SGLang native payload index is invalid")
                    end;
  pack ← lift (of_option RuntimeError "ColdSnap SGLang native model payload is unavailable" (hd_pack h));
  st_iter (restore_model pack (by_artifact components)) models.
(** [_restore_registered_models] *)
Definition restore_registered_models (h : hydration_dir) (selector : option pystr) : ST adapter_world unit :=
  models ← st_get aw_models;
  _ ← st_raise_if (bool_decide (length models = 0%nat)) RuntimeError "ColdSnap SGLang resumed weights without registered models";
  _ ← lift (of_option RuntimeError "ColdSnap SGLang process artifact root is unavailable" (st_process_artifact_root settings));
  provider ← lift (selected_provider selector);
  if decide (provider = lit "recovery") then mret tt else restore_models h models.
(** [resume] *)
Definition resume_tag (h : hydration_dir) (selector : option pystr) (tag : pystr) : ST adapter_world unit :=
  _ ← tms_library_environment (call_saver (ResumeTag tag));
  if bool_decide (tag = r_name WEIGHTS) then restore_registered_models h selector else mret tt.
(** [restore_startup_model] *)
Definition restore_startup_model (h : hydration_dir) (m : registered_model) : ST adapter_world unit :=
  if negb (bool_decide (st_startup_provider settings = lit "native")) then mret tt
  else
    models ← st_get aw_models;
    match filter (λ item, rm_model item = rm_model m) models with
    | [registered] =>
        _ ← st_raise_if (negb (py_eq (rm_identity registered) (rm_identity m)) || negb (rm_artifact registered =? rm_artifact m)%nat) RuntimeError
            "ColdSnap SGLang startup model identity changed";
        restore_models h [registered]
    | _ => lift (Raise (Exn RuntimeError "ColdSnap SGLang startup model was not registered exactly once"))
    end.

(** ** Children *)

(** [configure_subprocess] of the library: what entering it does, what it remembers, and what
    leaving it does with that. *)
Context {saved : Type} (enter_module : ST adapter_world saved) (exit_module : saved → ST adapter_world unit).
(** [if entry not in entries: entries.append(entry)] *)
Definition merge_entries (l : list pystr) : list pystr := foldl (λ entries e, if decide (e ∈ entries) then entries else entries ++ [e]) [] l.
(** [configure_subprocess] around a body *)
Definition widened_environment {A} (inherited : option pystr) (body : ST adapter_world A) : ST adapter_world A :=
  env ← st_get aw_env;
  let memory_saver := env_get LD_PRELOAD env in
  let tms_entries := preload_entries memory_saver in
  match tms_entries with
  | [tms] =>
      _ ← st_raise_if (negb (is_saver_library tms)) RuntimeError "SGLang torch_memory_saver returned an invalid preload path";
      let entries := merge_entries (preload_entries inherited ++ preload_entries memory_saver) in
      let previous_tms := env_get TMS_PRELOAD_ENV env in
      _ ← st_set (on_env (env_put LD_PRELOAD (if bool_decide (length entries = 0%nat) then None else Some (join (lit ":") entries))));
      _ ← st_set (on_env (env_set TMS_PRELOAD_ENV tms));
      st_finally body (λ w, on_env (env_put TMS_PRELOAD_ENV previous_tms) (on_env (env_put LD_PRELOAD memory_saver) w))
  | _ => lift (Raise (Exn RuntimeError "SGLang torch_memory_saver returned an invalid preload path"))
  end.
Definition configure_subprocess {A} (body : ST adapter_world A) : ST adapter_world A :=
  inherited ← st_get (λ w, env_get LD_PRELOAD (aw_env w));
  remembered ← enter_module;
  st_finally_run (widened_environment inherited body) (exit_module remembered).
End adapter.
