(* ===== verification/SglangAdapterSpec.v ===== *)
(** * What the SGLang adapter guarantees

    Settings are complete when the plugin is enabled; the library is called under a preload of
    its own and the process keeps its preload; children inherit both; and the native restore
    reads every registered model at the place of the pack where its blob is. *)

From S2P Require Import Prelude Ranges PyFloat PyJson PyJsonFacts Hash Memory Validation PyPath Artifact ArtifactSpec Service ServiceCapsule ServiceCapsuleSpec SglangAdapter.

(** ** Settings *)

(** What the settings of an enabled plugin have. *)
Record settings_complete (s : Settings) : Prop := {
  sc_mode : st_mode s ∈ [lit "off"; lit "capture"];
  sc_backing : st_live_backing s ∈ [lit "disk"; lit "cpu"; lit "discard"];
  sc_provider : st_startup_provider s ∈ [[]; lit "native"; lit "recovery"];
  sc_roots : settings_enabled s = true → is_Some (st_artifact_root s) ∧ is_Some (st_process_artifact_root s) ∧ is_Some (st_live_root s) ∧ is_Some (st_lock_root s);
  sc_off : settings_enabled s = false → st_live_root s = None ∧ st_lock_root s = None;
  sc_graphs : st_async_graphs s = true → is_Some (st_arm_file s) ∧ is_Some (st_ready_file s);
}.

Lemma not_none {A} (o : option A) `{Decision (o = None)} : bool_decide (o = None) = false → is_Some o.
Proof. intros Hn%bool_decide_eq_false. destruct o; [by eexists|done]. Qed.

(** Settings read from the environment are complete: the mode, the backing and the startup
    provider are values the plugin knows; an enabled plugin has the roots of its artifact, of the
    process artifact, of live backing and of locks, so none is dereferenced missing; a disabled
    one has no live files; and asynchronous graphs come with both of their files. *)
Theorem settings_sound resolve gettempdir getuid env s : from_env resolve gettempdir getuid env = Ok s → settings_complete s.
Proof.
  unfold from_env. intros E. apply bind_Ok in E as ([] & H1%raise_if_Ok & E). apply bind_Ok in E as ([] & H2%raise_if_Ok & E).
  apply bind_Ok in E as ([] & H3%raise_if_Ok & E). apply bind_Ok in E as ([] & H4%raise_if_Ok & E). apply bind_Ok in E as (graphs & _ & E).
  apply bind_Ok in E as ([] & H5%raise_if_Ok & E). apply bind_Ok in E as ([] & H6%raise_if_Ok & E).
  apply bind_Ok in E as (? & _ & E). apply bind_Ok in E as (? & _ & E). apply bind_Ok in E as (? & _ & E). injection E as <-.
  apply negb_false_iff, bool_decide_eq_true in H1, H3, H6.
  split; unfold settings_enabled;
    cbn [st_mode st_live_backing st_startup_provider st_artifact_root st_process_artifact_root st_live_root st_lock_root st_async_graphs st_arm_file st_ready_file]; try done.
  - intros Hon. rewrite Hon in *. rewrite andb_true_l in H2, H4. split_and!; [exact (not_none _ H2)|exact (not_none _ H4)|by eexists..].
  - intros Hoff. by rewrite Hoff.
  - intros ->. rewrite andb_true_l in H5. apply orb_false_iff in H5 as [Ha Hr]. exact (conj (not_none _ Ha) (not_none _ Hr)).
Qed.

(** ** The preload *)

Lemma env_get_set name value env x : env_get x (env_set name value env) = if decide (x = name) then Some value else env_get x env.
Proof.
  induction env as [|[n v] env IH]; cbn; [done|]. destruct (decide (name = n)) as [<-|Hn]; cbn; [by destruct (decide (x = name))|].
  rewrite IH. destruct (decide (x = n)) as [->|]; [by rewrite decide_False|done].
Qed.
Lemma env_get_pop name env x : env_get x (env_pop name env) = if decide (x = name) then None else env_get x env.
Proof.
  induction env as [|[n v] env IH]; [by destruct (decide (x = name))|]. unfold env_pop in *. rewrite filter_cons. cbn.
  destruct (decide (n ≠ name)) as [Hn|Hn]; cbn.
  - rewrite IH. destruct (decide (x = n)) as [->|]; [by rewrite decide_False|done].
  - apply dec_stable in Hn as ->. rewrite IH. destruct (decide (x = name)); done.
Qed.
Lemma env_get_put name value env x : env_get x (env_put name value env) = if decide (x = name) then value else env_get x env.
Proof. destruct value; [apply env_get_set|apply env_get_pop]. Qed.

(** An entry of a list separated by colons is such a list by itself. *)
Lemma split_char_word sep s : ∀ word e, sep ∉ word → e ∈ split_char sep word s → sep ∉ e.
Proof.
  induction s as [|c s IH]; intros word e Hw; cbn; [by intros ->%list_elem_of_singleton|]. destruct (N.eqb_spec c sep) as [->|Hn].
  - intros [->|He]%elem_of_cons; [done|]. eapply IH; [|exact He]. apply not_elem_of_nil.
  - apply IH. rewrite elem_of_app, list_elem_of_singleton. naive_solver.
Qed.
Lemma split_char_one sep s : ∀ word, sep ∉ s → split_char sep word s = [word ++ s].
Proof.
  induction s as [|c s IH]; intros word Hs; cbn; [by rewrite app_nil_r|]. apply not_elem_of_cons in Hs as [Hc Hs].
  destruct (N.eqb_spec c sep) as [->|_]; [done|]. by rewrite IH, <- app_assoc.
Qed.
Lemma preload_entries_elem v e : e ∈ preload_entries v → e ≠ [] ∧ 58%N ∉ e.
Proof. unfold preload_entries. intros [Hne He]%list_elem_of_filter. split; [done|]. eapply split_char_word; [|exact He]. apply not_elem_of_nil. Qed.
Lemma preload_entries_one e : e ≠ [] → 58%N ∉ e → preload_entries (Some e) = [e].
Proof. intros Hne Hc. unfold preload_entries. cbn [default]. by rewrite split_char_one, filter_cons_True. Qed.

(** The library named for calls is an entry of the preload, and naming it again under the
    narrow view gives the same. *)
Lemma tms_path_entry env path : tms_preload_path env = Ok path → path ∈ preload_entries (env_get LD_PRELOAD env).
Proof.
  unfold tms_preload_path. intros E. destruct (env_get TMS_PRELOAD_ENV env) as [[|c s]|].
  1,3: destruct (filter _ _) as [|x [|]] eqn:Ef; try done; injection E as <-;
       assert (x ∈ filter (λ e, is_saver_library e = true) (preload_entries (env_get LD_PRELOAD env))) as Hx by (rewrite Ef; left);
       by apply list_elem_of_filter in Hx as [_ ?].
  apply bind_Ok in E as ([] & H%raise_if_Ok & E). injection E as <-. by guards.
Qed.
Lemma tms_path_narrow env path env' : tms_preload_path env = Ok path → env_get LD_PRELOAD env' = Some path →
  env_get TMS_PRELOAD_ENV env' = env_get TMS_PRELOAD_ENV env → tms_preload_path env' = Ok path.
Proof.
  intros E Hl Ht. destruct (preload_entries_elem _ _ (tms_path_entry _ _ E)) as [Hne Hc]. unfold tms_preload_path in *. rewrite Hl, Ht, preload_entries_one by done.
  destruct (env_get TMS_PRELOAD_ENV env) as [[|c s]|].
  1,3: destruct (filter _ _) as [|x [|]] eqn:Ef; try done; injection E as <-;
       assert (x ∈ filter (λ e, is_saver_library e = true) (preload_entries (env_get LD_PRELOAD env))) as Hx by (rewrite Ef; left);
       apply list_elem_of_filter in Hx as [Hx _]; by rewrite filter_cons_True.
  apply bind_Ok in E as ([] & _ & E). injection E as <-. by rewrite bool_decide_true by (by left).
Qed.

Lemma tms_path_ext env env' : env_get LD_PRELOAD env' = env_get LD_PRELOAD env → env_get TMS_PRELOAD_ENV env' = env_get TMS_PRELOAD_ENV env →
  tms_preload_path env' = tms_preload_path env.
Proof. unfold tms_preload_path. by intros -> ->. Qed.

(** *** The preload of children *)

Lemma split_char_app sep s t : ∀ word, sep ∉ s → split_char sep word (s ++ sep :: t) = (word ++ s) :: split_char sep [] t.
Proof.
  induction s as [|c s IH]; intros word Hs; cbn; [by rewrite N.eqb_refl, app_nil_r|]. apply not_elem_of_cons in Hs as [Hc Hs].
  destruct (N.eqb_spec c sep) as [->|_]; [done|]. by rewrite IH, <- app_assoc.
Qed.
Lemma split_join l : l ≠ [] → Forall (λ e, 58%N ∉ e) l → split_char 58 [] (join (lit ":") l) = l.
Proof.
  intros Hl HF. induction HF as [|x [|y l] Hx HF IH]; [done|by apply split_char_one|]. rewrite join_cons.
  change (x ++ lit ":" ++ join (lit ":") (y :: l)) with (x ++ 58%N :: join (lit ":") (y :: l)). rewrite split_char_app by done. cbn [app]. by rewrite IH.
Qed.
Lemma merge_spec l : ∀ acc, NoDup acc → let m := foldl (λ entries e, if decide (e ∈ entries) then entries else entries ++ [e]) acc l in
  NoDup m ∧ ∀ e : pystr, e ∈ m ↔ e ∈ acc ∨ e ∈ l.
Proof.
  induction l as [|x l IH]; intros acc Ha m; cbn in m; [split; [done|]; intros e; rewrite elem_of_nil; tauto|]. subst m.
  destruct (decide (x ∈ acc)) as [Hx|Hx].
  - destruct (IH acc Ha) as [HN He]. split; [done|]. intros e. rewrite He, elem_of_cons. naive_solver.
  - destruct (IH (acc ++ [x])) as [HN He]; [apply NoDup_app; split_and!; [done| |apply NoDup_singleton]; intros y Hy ->%list_elem_of_singleton; done|].
    split; [done|]. intros e. rewrite He, elem_of_app, list_elem_of_singleton, elem_of_cons. tauto.
Qed.


(** What the body of [configure_subprocess] runs under, when the library has put its hook
    [tms] into the preload: every entry the process had and the hook, each once, and the hook
    declared by its name. *)
Definition child_world (inherited : option pystr) (tms : pystr) (w1 : adapter_world) : adapter_world :=
  on_env (env_set TMS_PRELOAD_ENV tms) (on_env (env_put LD_PRELOAD (Some (join (lit ":") (merge_entries (preload_entries inherited ++ [tms]))))) w1).
Lemma child_entries inherited tms w1 : preload_entries (env_get LD_PRELOAD (aw_env w1)) = [tms] →
  let entries := preload_entries (env_get LD_PRELOAD (aw_env (child_world inherited tms w1))) in
  entries = merge_entries (preload_entries inherited ++ [tms]) ∧ NoDup entries ∧ (∀ e, e ∈ entries ↔ e ∈ preload_entries inherited ∨ e = tms)
  ∧ tms_preload_path (aw_env (child_world inherited tms w1)) = Ok tms.
Proof.
  intros Et. assert (tms ≠ [] ∧ 58%N ∉ tms) as [Hne Hcol] by (apply (preload_entries_elem (env_get LD_PRELOAD (aw_env w1))); rewrite Et; left).
  destruct (merge_spec (preload_entries inherited ++ [tms]) [] (NoDup_nil_2)) as [HN He]. fold (merge_entries (preload_entries inherited ++ [tms])) in HN, He.
  unfold child_world. set (entries := merge_entries (preload_entries inherited ++ [tms])) in *. set (wb := on_env _ _).
  assert (∀ e, e ∈ entries ↔ e ∈ preload_entries inherited ∨ e = tms) as Hin.
  { intros e. rewrite He, elem_of_nil, elem_of_app, list_elem_of_singleton. tauto. }
  assert (entries ≠ []) as Hnil by (intros E; apply (not_elem_of_nil tms); rewrite <- E; apply Hin; by right).
  assert (Forall (λ e, 58%N ∉ e ∧ e ≠ []) entries) as HF.
  { apply Forall_forall. intros e [Hi| ->]%Hin; [|done]. by apply preload_entries_elem in Hi as [? ?]. }
  assert (preload_entries (env_get LD_PRELOAD (aw_env wb)) = entries) as Hentries.
  { unfold wb, on_env. cbn [aw_env]. rewrite env_get_set, decide_False, env_get_put, decide_True by done.
    change (filter (λ e, e ≠ []) (split_char 58 [] (join (lit ":") entries)) = entries).
    rewrite split_join; [|done|eapply Forall_impl; [exact HF|by intros ? [? ?]]]. clear - HF. induction HF as [|e l [_ Hn] HF IH]; [done|]. rewrite filter_cons_True by done. by f_equal. }
  cbv zeta. rewrite Hentries. split_and!; [done..|]. unfold tms_preload_path. rewrite Hentries.
  assert (env_get TMS_PRELOAD_ENV (aw_env wb) = Some tms) as ->.
  { unfold wb, on_env. cbn [aw_env]. by rewrite env_get_set, decide_True. }
  destruct tms as [|c s]; [done|]. rewrite bool_decide_true by (apply Hin; by right). done.
Qed.
Lemma widened_run {A} inherited (body : ST adapter_world A) w1 tms r w2 : preload_entries (env_get LD_PRELOAD (aw_env w1)) = [tms] →
  is_saver_library tms = true → body (child_world inherited tms w1) = (r, w2) →
  widened_environment inherited body w1
  = (r, on_env (env_put TMS_PRELOAD_ENV (env_get TMS_PRELOAD_ENV (aw_env w1))) (on_env (env_put LD_PRELOAD (env_get LD_PRELOAD (aw_env w1))) w2)).
Proof.
  intros Et Hs Eb. destruct (child_entries inherited tms w1 Et) as (Hm & _ & Hin & _). unfold widened_environment, mbind, st_bind, st_get. rewrite Et, Hs.
  assert (merge_entries (preload_entries inherited ++ [tms]) ≠ []) as Hnil.
  { rewrite <- Hm. intros E. apply (not_elem_of_nil tms). rewrite <- E. apply Hin. by right. }
  rewrite bool_decide_false by (by destruct (merge_entries _)). unfold st_raise_if, lift, raise_if, st_set, st_finally. cbn [negb]. fold (child_world inherited tms w1). by rewrite Eb.
Qed.

(** *** The calls of a run *)

Definition call_ok (selected : pystr → Prop) (p : saver_call * option pystr) : Prop :=
  match p.1 with SetDiskDir _ => True | _ => ∃ path, selected path ∧ p.2 = Some path end.
Definition same_preload (w w' : adapter_world) : Prop :=
  env_get LD_PRELOAD (aw_env w') = env_get LD_PRELOAD (aw_env w) ∧ env_get TMS_PRELOAD_ENV (aw_env w') = env_get TMS_PRELOAD_ENV (aw_env w).
Definition calls_made (selected : pystr → Prop) (w w' : adapter_world) : Prop := ∃ calls, aw_seen w' = aw_seen w ++ calls ∧ Forall (call_ok selected) calls.
(** A run that starts where the library of the preload is one of [selected], and, if [narrow],
    where the preload names only it. *)
Definition starts_at (narrow : bool) (selected : pystr → Prop) (w : adapter_world) : Prop :=
  (∀ path, tms_preload_path (aw_env w) = Ok path → selected path)
  ∧ (narrow = true → ∃ path, tms_preload_path (aw_env w) = Ok path ∧ env_get LD_PRELOAD (aw_env w) = Some path).
Definition calls_ok {A} (narrow : bool) (selected : pystr → Prop) (m : ST adapter_world A) : Prop := ∀ w r w',
  starts_at narrow selected w → m w = (r, w') → same_preload w w' ∧ calls_made selected w w'.

Lemma calls_none rp w : calls_made rp w w.
Proof. exists []. by rewrite app_nil_r. Qed.
Lemma calls_trans rp w1 w2 w3 : calls_made rp w1 w2 → calls_made rp w2 w3 → calls_made rp w1 w3.
Proof. intros (c1 & E1 & H1) (c2 & E2 & H2). exists (c1 ++ c2). rewrite E2, E1, app_assoc. split; [done|]. by apply Forall_app. Qed.
Lemma calls_quiet rp w w' : aw_seen w' = aw_seen w → calls_made rp w w'.
Proof. intros E. exists []. by rewrite E, app_nil_r. Qed.
Lemma same_trans w1 w2 w3 : same_preload w1 w2 → same_preload w2 w3 → same_preload w1 w3.
Proof. intros [? ?] [? ?]. split; congruence. Qed.
Lemma starts_again narrow rp w w' : same_preload w w' → starts_at narrow rp w → starts_at narrow rp w'.
Proof. intros [Hl Ht]. unfold starts_at. by rewrite Hl, (tms_path_ext _ _ Hl Ht). Qed.

Section runs.
Context (narrow : bool) (rp : pystr → Prop).
Lemma calls_lift {A} (r : res A) : calls_ok narrow rp (lift r).
Proof. intros w r' w' _ [= <- <-]. split; [done|apply calls_none]. Qed.
Lemma calls_get {A} (f : adapter_world → A) : calls_ok narrow rp (st_get f).
Proof. intros w r' w' _ [= <- <-]. split; [done|apply calls_none]. Qed.
Lemma calls_set f : (∀ w, aw_env (f w) = aw_env w ∧ aw_seen (f w) = aw_seen w) → calls_ok narrow rp (st_set f).
Proof. intros Hf w r w' _ [= <- <-]. destruct (Hf w) as [He Hs]. split; [by split; rewrite He|by apply calls_quiet]. Qed.
Lemma calls_bind {A B} (m : ST adapter_world A) (k : A → ST adapter_world B) : calls_ok narrow rp m → (∀ a, calls_ok narrow rp (k a)) → calls_ok narrow rp (m ≫= k).
Proof.
  intros Hm Hk w r w' Hn. unfold mbind, st_bind. destruct (m w) as [[a|e] w1] eqn:Em; destruct (Hm _ _ _ Hn Em) as [Hs Hc].
  - intros E. destruct (Hk a w1 r w') as [Hs' Hc']; [by eapply starts_again|done|]. split; [by eapply same_trans|by eapply calls_trans].
  - by intros [= <- <-].
Qed.
Lemma calls_finally_run {A} (m : ST adapter_world A) h : calls_ok narrow rp m → calls_ok narrow rp h → calls_ok narrow rp (st_finally_run m h).
Proof.
  intros Hm Hh w r w' Hn. unfold st_finally_run. destruct (m w) as [r1 w1] eqn:Em. destruct (Hm _ _ _ Hn Em) as [Hs Hc]. intros E.
  destruct (calls_bind h (λ _, lift r1) Hh (λ _, calls_lift r1) w1 r w') as [Hs' Hc']; [by eapply starts_again|done|].
  split; [by eapply same_trans|by eapply calls_trans].
Qed.
Lemma calls_iter {X} (f : X → ST adapter_world unit) l : (∀ x, calls_ok narrow rp (f x)) → calls_ok narrow rp (st_iter f l).
Proof. intros Hf. induction l as [|x l IH]; cbn [st_iter]; [apply (calls_lift (Ok tt))|]. by apply calls_bind. Qed.
Lemma call_saver_ok saver c : narrow = true ∨ (∃ p, c = SetDiskDir p) → calls_ok narrow rp (call_saver saver c).
Proof.
  intros Hc w r w' [Hrp Hn]. unfold call_saver. set (w1 := AdapterWorld _ _ _ _). intros E. assert (w' = w1) as -> by (destruct (saver _); congruence).
  split; [done|]. exists [(c, env_get LD_PRELOAD (aw_env w))]. split; [done|]. apply Forall_singleton. unfold call_ok. cbn [fst snd].
  destruct Hc as [Hb|[p ->]]; [|done]. destruct (Hn Hb) as (path & Hp & ->). apply Hrp in Hp. destruct c; try done; by exists path.
Qed.
Lemma library_ok {A} (body : ST adapter_world A) : calls_ok true rp body → calls_ok narrow rp (tms_library_environment body).
Proof.
  intros Hb w r w' [Hrp _]. unfold tms_library_environment, mbind, st_bind, st_get, lift, st_set, st_finally.
  destruct (tms_preload_path (aw_env w)) as [path|e] eqn:Ep; [|intros [= <- <-]; split; [done|apply calls_none]].
  set (w1 := on_env (env_set LD_PRELOAD path) w). destruct (body w1) as [r1 w2] eqn:Eb. intros [= <- <-].
  assert (env_get LD_PRELOAD (aw_env w1) = Some path) as Hl by (unfold w1, on_env; cbn [aw_env]; by rewrite env_get_set, decide_True).
  assert (env_get TMS_PRELOAD_ENV (aw_env w1) = env_get TMS_PRELOAD_ENV (aw_env w)) as Ht by (unfold w1, on_env; cbn [aw_env]; by rewrite env_get_set, decide_False).
  assert (tms_preload_path (aw_env w1) = Ok path) as Hp by (by eapply tms_path_narrow).
  destruct (Hb w1 r1 w2) as [[_ Hs] Hc]; [split; [intros p; rewrite Hp; intros [= <-]; by apply Hrp|by exists path]|done|].
  split; [|exact Hc]. unfold same_preload, on_env; cbn [aw_env]. rewrite !env_get_put. split; [by rewrite decide_True|rewrite decide_False by done; by rewrite Hs, Ht].
Qed.
End runs.

(** What the library's own [configure_subprocess] does to the process, whatever file it puts
    into the preload: entering changes no variable the adapter reads but [LD_PRELOAD], and not
    even that if it fails; leaving puts back the preload it was entered under. *)
Record module_restores {saved} (enter_module : ST adapter_world saved) (exit_module : saved → ST adapter_world unit) : Prop := {
  mr_enter : ∀ w r w1, enter_module w = (r, w1) → aw_seen w1 = aw_seen w ∧ env_get TMS_PRELOAD_ENV (aw_env w1) = env_get TMS_PRELOAD_ENV (aw_env w)
    ∧ (is_ok r = false → env_get LD_PRELOAD (aw_env w1) = env_get LD_PRELOAD (aw_env w));
  mr_exit : ∀ w s w1 w2 r w3, enter_module w = (Ok s, w1) → exit_module s w2 = (r, w3) → aw_seen w3 = aw_seen w2
    ∧ env_get TMS_PRELOAD_ENV (aw_env w3) = env_get TMS_PRELOAD_ENV (aw_env w2) ∧ env_get LD_PRELOAD (aw_env w3) = env_get LD_PRELOAD (aw_env w);
}.
(** A file that entering it left as the whole of the preload, by the name of the library. *)
Definition hooked {saved} (enter_module : ST adapter_world saved) (path : pystr) : Prop := ∃ w s w1,
  enter_module w = (Ok s, w1) ∧ preload_entries (env_get LD_PRELOAD (aw_env w1)) = [path] ∧ is_saver_library path = true.

Section children.
Context {saved : Type} (enter_module : ST adapter_world saved) (exit_module : saved → ST adapter_world unit).

Lemma widened_ok {A} rp inherited (body : ST adapter_world A) w1 r w2 : (∀ path, preload_entries (env_get LD_PRELOAD (aw_env w1)) = [path] → is_saver_library path = true → rp path) →
  calls_ok false rp body → widened_environment inherited body w1 = (r, w2) → same_preload w1 w2 ∧ calls_made rp w1 w2.
Proof.
  intros Hrp Hb E. destruct (preload_entries (env_get LD_PRELOAD (aw_env w1))) as [|tms [|]] eqn:Et; [|destruct (is_saver_library tms) eqn:Hs|].
  2: { destruct (body (child_world inherited tms w1)) as [r1 w3] eqn:Eb. rewrite (widened_run _ _ _ _ _ _ Et Hs Eb) in E. injection E as <- <-.
    destruct (child_entries inherited tms w1 Et) as (_ & _ & _ & Hp).
    destruct (Hb (child_world inherited tms w1) r1 w3) as [_ Hc]; [split; [|done]; intros p; rewrite Hp; intros [= <-]; by apply Hrp|done|].
    split; [|exact Hc]. unfold same_preload, on_env. cbn [aw_env]. rewrite !env_get_put. by rewrite decide_False, !decide_True. }
  all: unfold widened_environment, mbind, st_bind, st_get, st_raise_if, lift, raise_if in E; rewrite Et in E; try rewrite Hs in E; injection E as <- <-; by split; [|apply calls_none].
Qed.
Lemma configure_ok {A} narrow rp (body : ST adapter_world A) : module_restores enter_module exit_module → (∀ path, hooked enter_module path → rp path) →
  calls_ok false rp body → calls_ok narrow rp (configure_subprocess enter_module exit_module body).
Proof.
  intros [Hent Hex] Hrp Hb w r w' _. unfold configure_subprocess, mbind, st_bind, st_get. destruct (enter_module w) as [[s|e] w1] eqn:Ee; destruct (Hent _ _ _ Ee) as (Hs1 & Ht1 & Hl1).
  2: { intros [= <- <-]. split; [split; [by apply Hl1|done]|by apply calls_quiet]. }
  unfold st_finally_run. destruct (widened_environment _ body w1) as [r1 w2] eqn:Ew.
  destruct (widened_ok rp (env_get LD_PRELOAD (aw_env w)) body w1 r1 w2) as [[Hl2 Ht2] Hc]; [intros path Hp Hs; apply Hrp; by exists w, s, w1|done|done|].
  unfold mbind, st_bind. destruct (exit_module s w2) as [r3 w3] eqn:E3. destruct (Hex _ _ _ _ _ _ Ee E3) as (Hs3 & Ht3 & Hl3).
  intros E. assert (w' = w3) as -> by (destruct r3; unfold lift in E; congruence). split; [split; [done|congruence]|].
  eapply calls_trans; [by apply calls_quiet|]. eapply calls_trans; [exact Hc|by apply calls_quiet].
Qed.
End children.

(** What an engine does with the adapter: it registers and restores models, pauses and resumes
    tags, runs code inside regions, and runs code that starts children. *)
Inductive adapter_program :=
| Skip | Then (p q : adapter_program) | Register (m : registered_model) | Pause (tag : pystr) | Resume (tag : pystr) | Startup (m : registered_model)
| InRegion (tag : pystr) (p : adapter_program) | InGraph (p : adapter_program) | InDisable (p : adapter_program) | InSubprocess (p : adapter_program).
Fixpoint spawns (p : adapter_program) : bool :=
  match p with
  | InSubprocess _ => true
  | Then p q => spawns p || spawns q
  | InRegion _ p | InGraph p | InDisable p => spawns p
  | _ => false
  end.

Section programs.
Context (settings : Settings) (pid : Z) (saver : nat → option exn) (make_dir : purepath → res unit) (py_str : json → pystr).
Context (restore_artifact : registered_model → pybytes → Z → ST adapter_world unit) (h : hydration_dir) (selector : option pystr).
Context {saved : Type} (enter_module : ST adapter_world saved) (exit_module : saved → ST adapter_world unit).
Fixpoint run_program (p : adapter_program) : ST adapter_world unit :=
  match p with
  | Skip => mret tt
  | Then p q => run_program p ≫= λ _, run_program q
  | Register m => register_model m
  | Pause tag => pause_tag settings pid saver make_dir tag
  | Resume tag => resume_tag settings saver py_str restore_artifact h selector tag
  | Startup m => restore_startup_model settings py_str restore_artifact h m
  | InRegion tag p => region settings pid saver make_dir tag (run_program p)
  | InGraph p => cuda_graph saver (run_program p)
  | InDisable p => disable_saver saver (run_program p)
  | InSubprocess p => configure_subprocess enter_module exit_module (run_program p)
  end.

Hypothesis restore_quiet : ∀ m pack o w r w', restore_artifact m pack o w = (r, w') → aw_env w' = aw_env w ∧ aw_seen w' = aw_seen w.
Hypothesis module_quiet : module_restores enter_module exit_module.
Context (rp : pystr → Prop).

Lemma ensure_disk_ok narrow : calls_ok narrow rp (ensure_disk_dir settings pid saver make_dir).
Proof.
  unfold ensure_disk_dir. apply calls_bind; [apply calls_get|]. intros b. destruct (b || _); [apply (calls_lift _ _ (Ok tt))|].
  do 2 (apply calls_bind; [apply calls_lift|]; intros ?). apply calls_bind; [apply call_saver_ok; right; by eexists|]. intros _. by apply calls_set.
Qed.
Lemma with_saver_ok {A} enter exit (body : ST adapter_world A) : calls_ok true rp body → calls_ok true rp (with_saver saver enter exit body).
Proof. intros Hb. apply calls_bind; [apply call_saver_ok; by left|]. intros _. apply calls_finally_run; [done|]. apply call_saver_ok. by left. Qed.
Lemma restore_models_ok narrow models : calls_ok narrow rp (restore_models settings py_str restore_artifact h models).
Proof.
  unfold restore_models. do 5 (apply calls_bind; [apply calls_lift|]; intros ?). apply calls_iter. intros item. unfold restore_model.
  do 4 (apply calls_bind; [apply calls_lift|]; intros ?). intros w r w' _ E. apply restore_quiet in E as [He Hs].
  split; [by split; rewrite He|by apply calls_quiet].
Qed.
Lemma run_program_ok p : ∀ narrow, (spawns p = true → ∀ path, hooked enter_module path → rp path) → calls_ok narrow rp (run_program p).
Proof.
  assert (∀ narrow (b : bool), calls_ok narrow rp (if b then ensure_disk_dir settings pid saver make_dir else mret tt)) as Hdisk.
  { intros narrow []; [apply ensure_disk_ok|apply (calls_lift _ _ (Ok tt))]. }
  induction p as [|p IHp q IHq|m|tag|tag|m|tag p IHp|p IHp|p IHp|p IHp]; intros narrow Hh; cbn [run_program spawns] in *.
  - apply (calls_lift _ _ (Ok tt)).
  - apply calls_bind; [apply IHp|intros _; apply IHq]; intros Hs; apply Hh; rewrite Hs; [done|apply orb_true_r].
  - apply calls_set. intros w. by destruct (existsb _ _).
  - apply calls_bind; [apply Hdisk|]. intros _. apply library_ok, call_saver_ok. by left.
  - apply calls_bind; [apply library_ok, call_saver_ok; by left|]. intros _. destruct (bool_decide _); [|apply (calls_lift _ _ (Ok tt))].
    unfold restore_registered_models. apply calls_bind; [apply calls_get|]. intros models. do 3 (apply calls_bind; [apply calls_lift|]; intros ?).
    destruct (decide _); [apply (calls_lift _ _ (Ok tt))|apply restore_models_ok].
  - unfold restore_startup_model. destruct (negb _); [apply (calls_lift _ _ (Ok tt))|]. apply calls_bind; [apply calls_get|]. intros models.
    destruct (filter _ models) as [|x [|]]; [apply calls_lift| |apply calls_lift]. apply calls_bind; [apply calls_lift|]. intros _. apply restore_models_ok.
  - apply calls_bind; [apply Hdisk|]. intros _. by apply library_ok, with_saver_ok, IHp.
  - by apply library_ok, with_saver_ok, IHp.
  - by apply library_ok, with_saver_ok, IHp.
  - apply configure_ok; [done|by apply Hh|]. apply IHp. intros _. by apply Hh.
Qed.
End programs.

(** The library selected at the start, and the hook of children, as one path. *)
Lemma selected_spec {saved} (enter_module : ST adapter_world saved) (b : bool) env path v : tms_preload_path env = Ok path ∨ b = true ∧ hooked enter_module path → v = Some path →
  v = Some path ∧ path ≠ [] ∧ 58%N ∉ path
  ∧ (tms_preload_path env = Ok path ∧ path ∈ preload_entries (env_get LD_PRELOAD env)
       ∧ (default [] (env_get TMS_PRELOAD_ENV env) = [] → filter (λ e, is_saver_library e = true) (preload_entries (env_get LD_PRELOAD env)) = [path])
       ∧ (default [] (env_get TMS_PRELOAD_ENV env) ≠ [] → env_get TMS_PRELOAD_ENV env = Some path)
     ∨ b = true ∧ hooked enter_module path).
Proof.
  intros [Hp|[Hb Hh]] Hv; split; try done.
  - pose proof (tms_path_entry _ _ Hp) as He. destruct (preload_entries_elem _ _ He) as [Hne Hc]. split_and!; [done..|]. left. split_and!; [done..| |];
      unfold tms_preload_path in Hp; destruct (env_get TMS_PRELOAD_ENV env) as [[|c s]|]; cbn [default] in *; try done.
    1,2: intros _; destruct (filter _ _) as [|x [|]]; try done; by injection Hp as <-.
    intros _. apply bind_Ok in Hp as ([] & _ & Hp). by injection Hp as <-.
  - pose proof Hh as (w & s & w1 & _ & He & _). destruct (preload_entries_elem (env_get LD_PRELOAD (aw_env w1)) path) as [? ?]; [rewrite He; left|]. split_and!; [done..|]. by right.
Qed.

(** C17. The library sees only itself and the process keeps its preload. Whatever an engine does
    with the adapter (models registered and restored, tags paused and resumed, code run inside
    regions, graphs, the disabled saver and [configure_subprocess], nested in any way and failing
    anywhere), [LD_PRELOAD] is afterwards what it was, and every call for a region, a graph, the
    disabled saver, a pause or a resume was made while [LD_PRELOAD] was one path without a colon.
    That path is the library that [_tms_preload_path] selects at the start, which is an entry of
    the preload then: the declared one, or, when none is declared, the only entry with the name
    of the memory saver. Only a program that starts children may also see the hook that the
    library's [configure_subprocess] had put into the preload. The call that sets the backup
    directory, made outside of the narrow view, and the library's [configure_subprocess] itself
    are not among those calls. The restore of an artifact is taken to leave the environment
    alone, and the library's [configure_subprocess] to change no variable but [LD_PRELOAD], to
    leave that alone if it fails on entry, and to put it back on exit. *)
Theorem library_preload_narrow {saved} settings pid saver make_dir py_str restore_artifact h selector (enter_module : ST adapter_world saved) exit_module p w r w' :
  (∀ m pack o w r w', restore_artifact m pack o w = (r, w') → aw_env w' = aw_env w ∧ aw_seen w' = aw_seen w) →
  module_restores enter_module exit_module →
  run_program settings pid saver make_dir py_str restore_artifact h selector enter_module exit_module p w = (r, w') →
  env_get LD_PRELOAD (aw_env w') = env_get LD_PRELOAD (aw_env w)
  ∧ ∃ calls, aw_seen w' = aw_seen w ++ calls
    ∧ Forall (λ c, match c.1 with
                   | SetDiskDir _ => True
                   | _ => ∃ path, c.2 = Some path ∧ path ≠ [] ∧ 58%N ∉ path
                       ∧ (tms_preload_path (aw_env w) = Ok path ∧ path ∈ preload_entries (env_get LD_PRELOAD (aw_env w))
                            ∧ (default [] (env_get TMS_PRELOAD_ENV (aw_env w)) = [] →
                               filter (λ e, is_saver_library e = true) (preload_entries (env_get LD_PRELOAD (aw_env w))) = [path])
                            ∧ (default [] (env_get TMS_PRELOAD_ENV (aw_env w)) ≠ [] → env_get TMS_PRELOAD_ENV (aw_env w) = Some path)
                          ∨ spawns p = true ∧ hooked enter_module path)
                   end) calls.
Proof.
  intros Hq Hm E. set (rp := λ path, tms_preload_path (aw_env w) = Ok path ∨ spawns p = true ∧ hooked enter_module path).
  destruct (run_program_ok settings pid saver make_dir py_str restore_artifact h selector enter_module exit_module Hq Hm rp p false (λ Hs path Hh, or_intror (conj Hs Hh)) w r w')
    as [Hs (calls & Ec & Hc)]; [split; [intros path; by left|done]|done|].
  split; [apply Hs|]. exists calls. split; [done|]. eapply Forall_impl; [exact Hc|]. intros [c v] H. unfold call_ok in H. cbn [fst snd] in *.
  destruct c; try done; destruct H as (path & Hp & Hv); exists path; by apply selected_spec.
Qed.

(** Children inherit both preloads: when the library has put its hook into [LD_PRELOAD], the
    body of [configure_subprocess] runs with every entry the process had and the hook, each
    once, and the adapter of a child finds the hook by its name; when the body ends, also by an
    exception, the library leaves its context with the preload it had entered it with. *)
Theorem children_inherit_preload {A saved} (enter_module : ST adapter_world saved) exit_module (body : ST adapter_world A) w s w1 tms :
  enter_module w = (Ok s, w1) → preload_entries (env_get LD_PRELOAD (aw_env w1)) = [tms] → is_saver_library tms = true →
  ∃ wb, let entries := preload_entries (env_get LD_PRELOAD (aw_env wb)) in
    NoDup entries ∧ (∀ e, e ∈ entries ↔ e ∈ preload_entries (env_get LD_PRELOAD (aw_env w)) ∨ e = tms)
    ∧ tms_preload_path (aw_env wb) = Ok tms
    ∧ ∀ r w2, body wb = (r, w2) → ∃ w3, same_preload w1 w3 ∧ configure_subprocess enter_module exit_module body w = (exit_module s ≫= λ _, lift r) w3.
Proof.
  intros Ee Et Hs. exists (child_world (env_get LD_PRELOAD (aw_env w)) tms w1). destruct (child_entries (env_get LD_PRELOAD (aw_env w)) tms w1 Et) as (_ & HN & Hin & Hp).
  cbv zeta. split_and!; [done..|]. intros r w2 Eb. pose proof (widened_run _ body w1 tms r w2 Et Hs Eb) as Ew.
  unfold configure_subprocess. unfold mbind at 1, st_bind at 1, st_get at 1. unfold mbind at 1, st_bind at 1. rewrite Ee.
  unfold st_finally_run. rewrite Ew. eexists. split; [|reflexivity].
  unfold same_preload, on_env. cbn [aw_env]. rewrite !env_get_put. by rewrite decide_False, !decide_True.
Qed.

(** ** Restoring from a pack *)

Definition artifact_key (worker name : pystr) : pystr := lit "workers/" ++ worker ++ lit "/" ++ name.
Lemma artifact_key_inj worker : Inj (=) (=) (artifact_key worker).
Proof. intros x y E. unfold artifact_key in E. by simplify_list_eq. Qed.

(** A component of a pack and its record in the index. *)
Definition indexed (worker : pystr) (file : pybytes) (p : pystr * (pybytes * json)) (e : json * Z * Z) : Prop :=
  ∃ m o, e = (component_record worker p.1 m, o, Z.of_nat (length p.2.1)) ∧ 0 <= o ∧ take (length p.2.1) (drop (Z.to_nat o) file) = p.2.1.
Lemma index_record_fields worker name m o n :
  is_obj (index_record (component_record worker name m, o, n)) = true
  ∧ field "artifact" (index_record (component_record worker name m, o, n)) = JStr (artifact_key worker name)
  ∧ field "offset" (index_record (component_record worker name m, o, n)) = JInt o.
Proof. split_and!; reflexivity. Qed.

Lemma pack_indexed worker dirs components replay : collect_components worker true dirs = Ok (components, replay) →
  Forall2 (indexed worker (sglang_pack 0 components.*2).1) components (sglang_pack 0 components.*2).2.
Proof.
  intros Ec. destruct (sglang_pack 0 components.*2) as [file index] eqn:Ep. apply sglang_pack_ok in Ep as [Hl Hp]; [|done]. rewrite length_fmap in Hl. cbn [fst snd].
  apply Forall2_lookup. intros i. destruct (components !! i) as [[name [b comp]]|] eqn:Ei.
  - destruct (Hp i b comp) as (o & Ho & Hge & _ & Ht & _); [by rewrite list_lookup_fmap, Ei|]. rewrite Ho. constructor. rewrite Z.sub_0_r in Ht.
    destruct (collect_elem true worker dirs components replay name b comp Ec) as (_ & m & _ & _ & _ & _ & ->); [by eapply list_elem_of_lookup_2|]. by exists m, o.
  - apply lookup_ge_None in Ei. rewrite (proj2 (lookup_ge_None _ _)) by lia. constructor.
Qed.

(** The index by artifact finds each component. *)
Lemma by_artifact_index py_str worker file components index : Forall2 (indexed worker file) components index → NoDup components.*1 →
  ∀ name b comp, (name, (b, comp)) ∈ components →
  ∃ c o, dict_get (artifact_key worker name) (by_artifact py_str (index_record <$> index)) = Some c ∧ field "offset" c = JInt o
    ∧ 0 <= o ∧ take (length b) (drop (Z.to_nat o) file) = b.
Proof.
  intros HF HN name b comp Hin. set (f := λ c, if is_obj c then Some (text_of py_str (field "artifact" c), c) else None).
  assert ((omap f (index_record <$> index)).*1 = artifact_key worker <$> components.*1
    ∧ ∃ c o, (artifact_key worker name, c) ∈ omap f (index_record <$> index) ∧ field "offset" c = JInt o ∧ 0 <= o ∧ take (length b) (drop (Z.to_nat o) file) = b)
    as [Hk (c & o & Hc & Ho & Hrest)].
  { clear HN. assert (∀ p e, indexed worker file p e → ∃ o, f (index_record e) = Some (artifact_key worker p.1, index_record e)
      ∧ field "offset" (index_record e) = JInt o ∧ 0 <= o ∧ take (length p.2.1) (drop (Z.to_nat o) file) = p.2.1) as Hf.
    { intros p e (m & o & -> & Ho & Ht). destruct (index_record_fields worker p.1 m o (Z.of_nat (length p.2.1))) as (Hobj & Ha & Hof). exists o.
      unfold f. by rewrite Hobj, Ha. }
    split.
    - clear Hin. induction HF as [|p e ps es Hp HF IH]; [done|]. destruct (Hf _ _ Hp) as (o & E & _). cbn [fmap list_fmap omap list_omap]. rewrite E. cbn [fmap list_fmap fst]. by f_equal.
    - induction HF as [|p e ps es Hp HF IH]; [by apply not_elem_of_nil in Hin|]. destruct (Hf _ _ Hp) as (o & E & Hof & Hge & Ht). cbn [fmap list_fmap omap list_omap]. rewrite E.
      apply elem_of_cons in Hin as [<-|Hin]; [exists (index_record e), o; split_and!; [left|done..]|].
      destruct (IH Hin) as (c & o' & Hc & ?). exists c, o'. split; [by right|done]. }
  assert (NoDup (omap f (index_record <$> index)).*1) as HNk by (rewrite Hk; apply NoDup_fmap_2; [apply artifact_key_inj|done]).
  exists c, o. split_and!; [|done|apply Hrest..]. unfold by_artifact. fold f. rewrite dict_of_pairs_NoDup by done. by apply dict_get_elem.
Qed.

Lemma strip_parts_app q r : strip_parts q (q ++ r) = Some r.
Proof. induction q as [|x q IH]; cbn; [done|]. by rewrite decide_True. Qed.

(** A registered model whose artifact is the component [d] of a worker. *)
Definition model_of (semantic_root : purepath) (worker : pystr) (dirs : list component_dir) (item : registered_model) (b : pybytes) : Prop :=
  ∃ d, d ∈ dirs ∧ is_Some (cd_manifest d) ∧ cd_blob d = Some b
    ∧ rm_root item = PurePath (root semantic_root) (parts semantic_root ++ [lit "workers"; worker; cd_name d]).

Section restore.
Context (settings : Settings) (py_str : json → pystr) (restore_artifact : registered_model → pybytes → Z → ST adapter_world unit) (semantic_root : purepath).
Hypotheses (Hroot : st_artifact_root settings = Some semantic_root) (Hprocess : is_Some (st_process_artifact_root settings)).

Lemma restore_model_at worker pack index item d c o :
  rm_root item = PurePath (root semantic_root) (parts semantic_root ++ [lit "workers"; worker; cd_name d]) →
  dict_get (artifact_key worker (cd_name d)) index = Some c → field "offset" c = JInt o →
  ∀ w, restore_model settings restore_artifact pack index item w = restore_artifact item pack o w.
Proof.
  intros Hr Hc Ho w. unfold restore_model, mbind, st_bind, lift. rewrite Hroot. cbn [of_option]. rewrite Hr. unfold relative_to. cbn [root parts].
  rewrite decide_True, strip_parts_app by done. cbn [of_option].
  change (path_text (PurePath [] [lit "workers"; worker; cd_name d])) with (artifact_key worker (cd_name d)). rewrite Hc. cbn [of_option]. by rewrite Ho.
Qed.

Lemma restore_models_from worker dirs components replay h models blobs :
  collect_components worker true dirs = Ok (components, replay) → NoDup components.*1 →
  hd_pack h = Some (sglang_pack 0 components.*2).1 → hd_native h = Some (native_plan worker (index_record <$> (sglang_pack 0 components.*2).2)) →
  models ≠ [] → Forall2 (model_of semantic_root worker dirs) models blobs →
  ∃ pack offsets, hd_pack h = Some pack ∧ Forall2 (λ b o, 0 <= o ∧ take (length b) (drop (Z.to_nat o) pack) = b) blobs offsets
    ∧ ∀ w, restore_models settings py_str restore_artifact h models w = st_iter (λ p, restore_artifact p.1 pack p.2) (zip models offsets) w.
Proof.
  intros Ec HN Hpack Hnative Hne HF. pose proof (pack_indexed _ _ _ _ Ec) as Hix. set (pack := (sglang_pack 0 components.*2).1) in *.
  set (index := (sglang_pack 0 components.*2).2) in *. set (idx := by_artifact py_str (index_record <$> index)).
  assert (∃ offsets, Forall2 (λ b o, 0 <= o ∧ take (length b) (drop (Z.to_nat o) pack) = b) blobs offsets
    ∧ ∀ w, st_iter (restore_model settings restore_artifact pack idx) models w = st_iter (λ p, restore_artifact p.1 pack p.2) (zip models offsets) w) as (offsets & Hoff & Hrun).
  { clear Hne. induction HF as [|item b models blobs Hm HF (offsets & Hoff & Hrun)]; [by exists []|]. pose proof Hm as (d & Hd & Hman & Hb & Hr).
    destruct (collect_complete true worker dirs components replay d b eq_refl Ec Hd Hman Hb) as [comp Hcomp].
    destruct (by_artifact_index py_str worker pack components index Hix HN _ _ _ Hcomp) as (c & o & Hc & Ho & Hge & Ht).
    exists (o :: offsets). split; [by constructor|]. intros w. cbn [st_iter zip zip_with]. unfold mbind, st_bind.
    rewrite (restore_model_at worker pack idx item d c o Hr Hc Ho). cbn [fst snd]. destruct (restore_artifact item pack o w) as [[[]|e] w1]; [apply Hrun|done]. }
  exists pack, offsets. split_and!; [done|done|]. intros w. rewrite <- Hrun. unfold restore_models. destruct Hprocess as [root Hp].
  unfold mbind, st_bind, st_raise_if, lift. rewrite bool_decide_false by (by destruct models). cbn [raise_if]. rewrite Hp, Hnative. cbn [of_option].
  change (field "components" (native_plan worker (index_record <$> index))) with (JArr (index_record <$> index)).
  change (py_eq (field "format" (native_plan worker (index_record <$> index))) (JInt 1)
    && py_eq (field "kind" (native_plan worker (index_record <$> index))) (JStr (lit "coldsnap-sglang-model-payload"))) with true. cbn match. rewrite Hpack. done.
Qed.
End restore.

(** C10. What the controller packed is what the adapter restores: after the hydration of a unit was
    prepared with an export, the native restore of a worker hands every registered model the
    worker's pack and an offset at which the bytes of the model's blob are, in the order of
    registration, and nothing else. The names of a worker's components are distinct, the settings
    name the two artifact roots, every registered model has a component with its blob there, and
    no write to the pack is cut short by the file system. *)
Theorem packed_models_restored io wrote got model model_revision graph c workers c' worker settings semantic_root py_str restore_artifact models blobs :
  whole_writes wrote → (∀ w, NoDup (cd_name <$> semantic c w)) → prepare_sglang_hydration io wrote got model model_revision true graph c = (Ok workers, c') → worker ∈ workers →
  st_artifact_root settings = Some semantic_root → is_Some (st_process_artifact_root settings) →
  models ≠ [] → Forall2 (model_of semantic_root worker (semantic c worker)) models blobs →
  ∃ pack offsets, hd_pack (hydration c' worker) = Some pack ∧ Forall2 (λ b o, 0 <= o ∧ take (length b) (drop (Z.to_nat o) pack) = b) blobs offsets
    ∧ ∀ w, restore_models settings py_str restore_artifact (hydration c' worker) models w = st_iter (λ p, restore_artifact p.1 pack p.2) (zip models offsets) w.
Proof.
  intros Hwhole HN E Hw Hroot Hproc Hne HF. unfold prepare_sglang_hydration in E. apply st_bind_Ok in E as (expected & c0 & [Hexp ->]%lift_Ok & E).
  apply st_bind_Ok in E as ([] & c1 & Eall & E). injection E as <- <-. apply unit_workers_nodup in Hexp.
  assert (NoDup (sort_str expected)) as HE by (by rewrite py_sorted_perm).
  apply prepare_all in Eall as (_ & _ & Hp); [|exact Hwhole|done|by intros]. destruct (Hp eq_refl worker Hw) as (components & replay & Ec & _ & Hx).
  destruct (Hx eq_refl) as (_ & _ & Hpack & Hnative). eapply restore_models_from; [done|done|exact Ec| |done|done|done|].
  - eapply sublist_NoDup; [|eapply collect_names; exact Ec]. by rewrite py_sorted_perm.
  - eapply Forall2_impl; [exact HF|]. intros item b (d & Hd & ?). exists d. split; [by rewrite py_sorted_perm|done].
Qed.

(** The adapter reads the provider that the controller selected. *)
Lemma provider_read_back manifest native_manifest requested text : requested ∈ [lit "native"; lit "recovery"] →
  select_weight_provider manifest native_manifest requested = Ok (Some text) → selected_provider (Some text) = Ok requested.
Proof.
  unfold select_weight_provider. intros Hr E. apply bind_Ok in E as (m & _ & E). destruct (py_eq _ _); [by apply bind_Ok in E as ([] & _ & E)|].
  apply bind_Ok in E as ([] & _ & E). apply bind_Ok in E as ([] & _ & E). injection E as <-.
  apply elem_of_cons in Hr as [->|Hr%list_elem_of_singleton]; [|subst requested]; by vm_compute.
Qed.

(** ** A worker *)

Definition sample_env : environ := [
  (lit "COLDSNAP_MODE", lit " Capture "); (lit "COLDSNAP_ARTIFACT_DIR", lit "/a"); (lit "COLDSNAP_PROCESS_ARTIFACT_ROOT", lit "/p");
  (lit "COLDSNAP_RUNTIME_DIR", lit "/run/c"); (LD_PRELOAD, lit "/opt/shim.so:/opt/torch_memory_saver_hook.so")].
Notation sample_read := (from_env parse_path (lit "/tmp") 1000 sample_env).
Definition no_settings : Settings := MkSettings [] None [] None false None false None false None None false [].
Definition sample_settings : Settings := ok_or no_settings sample_read.
Lemma sample_settings_read : sample_read = Ok sample_settings.
Proof. vm_compute. reflexivity. Qed.
Lemma settings_sound_witness : settings_complete sample_settings ∧ settings_enabled sample_settings = true.
Proof.
  split; [|vm_compute; reflexivity]. apply (settings_sound parse_path (lit "/tmp") 1000 sample_env sample_settings). exact sample_settings_read.
Defined.

Definition sample_world : adapter_world := AdapterWorld sample_env false [] [].
Definition quiet_restore (m : registered_model) (pack : pybytes) (o : Z) : ST adapter_world unit := mret tt.
(** The library's [configure_subprocess]: it remembers the preload, names its hook, and puts the
    preload back. *)
Definition sample_enter : ST adapter_world (option pystr) :=
  previous ← st_get (λ w, env_get LD_PRELOAD (aw_env w));
  _ ← st_set (on_env (env_set LD_PRELOAD (lit "/opt/torch_memory_saver_hook.so")));
  mret previous.
Definition sample_exit (previous : option pystr) : ST adapter_world unit := st_set (on_env (env_put LD_PRELOAD previous)).
Lemma sample_module : module_restores sample_enter sample_exit.
Proof.
  split.
  - intros w r w1 [= <- <-]. split_and!; [done| |done]. unfold on_env. cbn [aw_env]. by rewrite env_get_set, decide_False.
  - intros w s w1 w2 r w3 [= <- <-] [= <- <-]. unfold on_env. cbn [aw_env aw_seen]. rewrite !env_get_put, (decide_True (P := LD_PRELOAD = LD_PRELOAD)), decide_False by done. done.
Qed.
Notation sample_program := (InRegion (r_name WEIGHTS) (Then (InGraph Skip) (InSubprocess (Pause (r_name WEIGHTS))))).
Notation sample_saver := (λ n : nat, if (n =? 4)%nat then Some (Exn RuntimeError "pause") else None).
Notation sample_run := (run_program sample_settings 7 sample_saver (λ _, Ok tt) (λ _, []) quiet_restore (HydrationDir None None None) None sample_enter sample_exit sample_program sample_world).
Lemma library_preload_narrow_witness :
  env_get LD_PRELOAD (aw_env sample_run.2) = Some (lit "/opt/shim.so:/opt/torch_memory_saver_hook.so") ∧ is_ok sample_run.1 = false ∧ length (aw_seen sample_run.2) = 6%nat.
Proof.
  destruct (library_preload_narrow sample_settings 7 sample_saver (λ _, Ok tt) (λ _, []) quiet_restore
    (HydrationDir None None None) None sample_enter sample_exit sample_program sample_world sample_run.1 sample_run.2) as [H _].
  - intros m pack o w r w' [= <- <-]. done.
  - exact sample_module.
  - apply surjective_pairing.
  - split; [exact H|]. split; vm_compute; reflexivity.
Defined.

Definition child_preload : ST adapter_world (option pystr) := st_get (λ w, env_get LD_PRELOAD (aw_env w)).
Lemma children_inherit_preload_witness : ∃ wb : adapter_world,
  (∀ e, e ∈ preload_entries (env_get LD_PRELOAD (aw_env wb)) ↔ e ∈ [lit "/opt/shim.so"; lit "/opt/torch_memory_saver_hook.so"] ∨ e = lit "/opt/torch_memory_saver_hook.so")
  ∧ tms_preload_path (aw_env wb) = Ok (lit "/opt/torch_memory_saver_hook.so").
Proof.
  destruct (children_inherit_preload sample_enter sample_exit child_preload sample_world (env_get LD_PRELOAD sample_env) (sample_enter sample_world).2 (lit "/opt/torch_memory_saver_hook.so"))
    as (wb & _ & He & Hp & _); [reflexivity|vm_compute; reflexivity|vm_compute; reflexivity|].
  exists wb. split; [exact He|exact Hp].
Defined.

Definition sample_model : registered_model := RegisteredModel 1 JNull 2 (parse_path (lit "/a/workers/w0/b")).
Notation sample_prepared := (sample_prepare (λ _, None) all_bytes).
Lemma packed_models_restored_witness : ∃ pack offsets, hd_pack (hydration sample_prepared.2 (lit "w0")) = Some pack
  ∧ Forall2 (λ b o, 0 <= o ∧ take (length b) (drop (Z.to_nat o) pack) = b) [[4%N; 5%N]] offsets
  ∧ ∀ w, restore_models sample_settings (λ _, []) quiet_restore (hydration sample_prepared.2 (lit "w0")) [sample_model] w
         = st_iter (λ p, quiet_restore p.1 pack p.2) (zip [sample_model] offsets) w.
Proof.
  apply (packed_models_restored (λ _, None) all_bytes (λ _ k, k) (lit "org/model") (lit "abc") unit_graph sample_capsule [lit "w0"] sample_prepared.2 (lit "w0") sample_settings
    (parse_path (lit "/a")) (λ _, []) quiet_restore [sample_model] [[4%N; 5%N]]).
  - by intros ? ?.
  - intros w. cbn [semantic sample_capsule]. destruct (decide (w = lit "w0")); by apply (bool_decide_unpack _).
  - apply (outcome_of sample_prepared). by vm_compute.
  - left.
  - vm_compute. reflexivity.
  - exists (parse_path (lit "/p")). vm_compute. reflexivity.
  - discriminate.
  - constructor; [|constructor]. exists (Component (lit "b") (Some (Ok (sample_manifest 2))) (Some [4%N; 5%N])).
    split; [left|]. split; [by eexists|]. split; [reflexivity|]. vm_compute. reflexivity.
Defined.
